(* ===== verification/_CoqProject ===== *)
-Q . S2P
Prelude.v
Glob.v
Keyed.v
Policy.v
GoText.v
GoTime.v
GoDuration.v
GoFlag.v
Base64.v
Krl.v
Signer.v
SshEngine.v
X509Engine.v
Mtls.v
Json.v
JsonValue.v
Store.v
Sql.v
SqlTable.v
SqlStore.v
SqlFacts.v
SqlCorrect.v
Migrate.v
Schema.v
Http.v
Conformance.v
Api.v
ApiSsh.v
ApiX509.v
Guard.v
Threads.v
Interleave.v
ApiRest.v
Reconcile.v
Files.v
Custody.v
ReconcileCmd.v
CaTool.v
ToyCA.v
InitEnv.v
Reload.v
Boot.v
FirstBoot.v
Chain.v
KeyFile.v
Client.v
Renew.v
Workload.v
UserCert.v
SshCreds.v
Agentd.v
Supervise.v
PortalForm.v
Portal.v
AuditTrail.v
PortalStore.v
GoTemplate.v
GoHtml.v
PortalTemplates.v
PortalPages.v
PortalBrowser.v
PortalAddresses.v
ReconcileLive.v
Mux.v
Service.v
PortalLinks.v
PortalBoot.v
