(* ===== verification/Prelude.v ===== *)
(** * certd / cert-agentd: a verification library

    certd is a certificate authority for SSH and X.509 with an HTTP API, an admin
    portal and offline commands; cert-agentd keeps the certificates of a host
    fresh; auth-ssh-creds obtains a user's SSH certificate.  This library models
    the Go code under src/ and proves what makes it correct.

    ** The parts and how they interact

    A request reaches the API ([Api]: who is calling, and the audit entry), which
    asks the policy engine what the caller's roles allow ([Policy], on the pattern
    language of [Glob]), signs with an engine ([SshEngine], [X509Engine]) under a
    key held by a [Signer], and for workloads consults the renewal guard
    ([ApiX509], [Guard]) over the record of active certificates.  The portal edits
    the same roles and revocations; [Service] is both behind one multiplexer, over
    one state.  Roles,
    principals, revocations and active certificates live in memory ([Policy],
    [Mtls], [Krl]) or in SQL tables ([SqlStore]); their clients are proved against
    interfaces (the classes [Policy.Store], [Mtls.Store], [Store.ActiveCertStore],
    [Api.KrlStore] with their laws), which both implementations discharge.  Three
    others write the tables: the seeds at boot, [certd reconcile] and the portal.
    The agent ([Renew], [UserCert], [Agentd]) is the API's client over [Client];
    [Workload] puts the two together.  The offline commands ([CaTool], [InitEnv])
    leave the files that [Boot] starts from.

    ** Files of the library, and of the program

    - Foundations.  [Prelude]: Go's errors and results, the state-and-error monad
      [M S A], 64-bit arithmetic and saturating time, shared lemmas, tactics, hint
      databases.  [Keyed]: a table with a unique key as a finite map.  Of the
      standard library, what the program's behaviour depends on: [Glob]
      (path.Match), [GoText] (strconv, strings.TrimSpace), [GoTime] (RFC 3339,
      duration text), [GoDuration] (float64 rounding, time.ParseDuration),
      [GoFlag] (flag), [Base64], [Json] (string lists and maps), [JsonValue]
      (texts of any shape), [InitEnv.Clean] (path/filepath), [Mux]
      (http.ServeMux), [GoTemplate] (text/template) and [GoHtml] (the escaping of
      html/template, with the HTML tokenizer it is meant for).
    - Authorisation.  [Policy]: internal/server/policy/policy.go.  [Mtls]:
      internal/server/mtls/mtls.go.
    - Signing.  [Signer]: internal/server/signer.  [SshEngine], [X509Engine]: the
      packages of those names.  [Custody]: signer/kms and, in cmd/certd,
      signer_source.go, seal.go and the AWS and local bindings.  [KeyFile]: a signing
      key saved and loaded (signer/inmemory.go).
    - Revocation.  [Krl]: internal/server/krl/krl.go.
    - Stores.  [Store]: internal/store/store.go.  [Sql], [SqlTable], [SqlStore]:
      internal/store/sqlite and postgres, written once over the dialect;
      [SqlFacts], [SqlCorrect]: what they guarantee.  [Migrate]: [DB.migrate].
      [Schema]: the migrations as DDL over typed tables, [Open] of both backends.
      [Conformance]: internal/store/storetest.
    - API.  [Http]: requests, responses, audit entries (internal/audit).  [Api]:
      server.go and the helpers.  [ApiSsh]: sign_ssh.go.  [ApiX509]: sign_x509.go,
      adopt.go.  [Guard]: their histories; [Interleave]: the same requests in
      flight together, on the thread pools of [Threads].  [ApiRest]: revoke.go,
      trust_bundle.go, ssh_ca_keys.go.  [Service]: [Routes] of the API and of the
      portal.
    - Commands of certd (cmd/certd).  [Reconcile]: internal/reconcile;
      [ReconcileCmd]: the reconcile command and what it prints; [ReconcileLive]:
      its statements among the portal's requests, on [Threads].  [CaTool]: ca.go,
      ca_issue.go, ca_intermediate.go.  [InitEnv]: ca_init_env.go.  [Reload]:
      reload.go.  [Boot]: the loaders and [runServe] of main.go, active_certs.go.
      [FirstBoot]: the two together; [Chain]: with the signing endpoint behind
      them.  [PortalBoot]: the portal's construction and its lock.
    - Agent.  [Files]: internal/agent/output/file.go.  [Client]: internal/client.
      [Renew], [UserCert]: internal/agent/renew, and sshconfig.go.  [Agentd]:
      cmd/cert-agentd; [Supervise]: its goroutines.  [Workload]: the agent against
      the guard.
    - User's helper.  [SshCreds]: cmd/auth-ssh-creds, from its arguments to its exit
      status.
    - Portal.  [PortalForm], [Portal], [PortalStore]: internal/server/portal.
      [PortalTemplates]: its template texts and [parsePages]; [PortalPages]: the bytes
      of a page; [PortalBrowser]: what a browser makes of its forms;
      [PortalAddresses]: which addresses it finds; [PortalLinks]: where they lead.
      [AuditTrail]: the JSON between the API's audit entries and the portal's page.
    - [ToyCA] and the modules named Examples hold concrete instances of the foreign
      code, on which the theorems are run.

    A definition has the name of the Go function where it can; a method of a store
    lives in a Module of the store's type ([Policy.InMemoryStore.Add]).  A handler
    is one definition from decoding to response, in a monad over the world it can
    change ([Http]); its error paths are the monad's early returns.

    ** What the theorems show

    - Issuance.  Whoever obtains a certificate from an endpoint was authenticated,
      holds a role that allows every principal, host name, extension or URI in it,
      gets it under the configured key for a bounded time, and leaves an audit
      entry, which is on the portal's page as it was made ([ssh_user_cert_issued],
      [ssh_host_cert_issued], [x509_cert_issued], [unauthenticated_refused],
      [ssh_audit_exact], [issuance_on_page]; below them, the decisions of
      [Policy], with their denials ([user_cert_denials]), and the engines' faithfulness).
    - The server as a whole.  Whatever a request's method, path and body, state
      changes only where a caller or a form was entitled to it, and a confirmed
      revocation outlasts any requests that follow ([changes_are_authorised],
      [revocation_lasts]).
    - Renewal.  The guard is a state machine over the recorded rows: a lock is
      final, a superseded serial is dead, an agent that renews honestly is never
      taken for a clone, whatever is lost on the way ([locked_is_final],
      [superseded_serial_dead], [honest_agent_in_step], [agent_never_locked]).
      With requests cut at their database statements and interleaved at will, a
      lock binds everything in flight, and an agent is undisturbed by requests for
      other identities ([lock_binds_in_flight], [agent_amid_others]); two requests
      for one identity do disturb each other ([late_request_locks_agent],
      [late_request_revives]).
    - Stores.  Any sequence of operations refines the abstract table under any
      script of database faults, and the revocation table the store in memory, as
      long as a later call names what the earlier one it replaces did
      ([sql_revoke_unrevokes] is one that does not); lookups of revocations fail
      closed; migrations run in order, once and whole, a database of any version
      opens as the current one with its rows kept, and the stores write exactly
      the rows it admits; the backends pass the acceptance suites and the
      in-memory role store cannot be told from them ([sql_roles_refine],
      [sql_principals_refine], [sql_revocations_refine],
      [sql_is_revoked_fail_closed], [migrations_in_order], [open_upgrades],
      [rows_fit_schema], [backends_conform], [role_stores_equivalent],
      [in_memory_store_refines]).
    - Revocation.  The published list says what was revoked, independent of map
      order, and its KRL text parses back ([is_revoked_history],
      [snapshot_faithful], [marshal_spec_directives], [revoke_endpoint_effective]).
    - Configuration.  Reconciliation converges and spares what the portal made,
      and a dry run tells what it will do ([reconcile_converges],
      [reconcile_spares_portal], [dry_run_tells]); so it does while administrators
      edit other rows in the portal ([portal_rows_stay], [reconcile_amid_edits]),
      but a row edited between the run's read and its write is lost
      ([late_prune_takes_portal_row], [late_update_takes_portal_row]).
    - Bring-up.  What the offline commands find they do not destroy; what init-env
      makes a server starts with, with the root configured too if the intermediate
      is under it, as on a fresh disk it is; a server that starts is consistent, its
      portal is locked as the environment says, a reload never loses a good
      certificate, every certificate the server then issues chains to the root that
      init-env made, and a saved key loads back ([ca_commands_spare_files],
      [init_env_then_boot], [reused_intermediate_unchecked], [boot_consistent],
      [portal_locked_as_configured], [issuer_reload], [issued_chain_to_root],
      [saved_key_loads]).
    - Agent and helper.  Files are replaced whole, key before certificate, keys are
      on disk before they are used, the trust store fails safe, waits are bounded,
      and a cancelled agent comes down in every interleaving
      ([write_bundle_never_torn], [user_key_durable], [trust_store_fail_safe],
      [renewal_delay_bounds], [agent_comes_down], [main_keeps_pair]).
    - Portal.  A forged request changes nothing, confirmed edits and revocations
      take effect and last ([portal_forgery_refused], [portal_edit_survives],
      [portal_revocation_effective], [sortStrings_is_sort]).  Every page renders, and
      no datum in it becomes markup; the edit page, through a browser and back, saves
      the role it shows; the links and forms of the role pages lead to the role they
      are about, but for names that mean something in an address ([page_renders],
      [edit_page_roundtrip], [role_links_open], [role_links_astray]).

    ** Conventions, bounds and fuel

    Integers of Go are [Z] with their wrap-around written out where the code computes
    ([int64_wrap], [uint64_wrap], saturating [time_sub]); an instant is a number of
    nanoseconds. Strings are byte strings. float64 products ([Renew.scale_duration],
    [GoDuration.int_seconds]) are dyadic fractions rounded to 53 bits. Clock, random
    source, map order, database, disk and network are arguments: readings are consumed
    one by one, and a fault script decides which statement, system call or message
    fails, and whether it took effect before it did. Recursion is structural, but for
    the pattern parser, the UTF-8 check, the JSON reader, the duration reader and the
    decimal printer, whose fuel is a length that every step shortens or the number of
    digits of a 64-bit number ([parse_pattern_fuel] and its siblings), and for
    templates: their parser's fuel is the number of lexemes, enough for the program's
    texts ([pages_parsed]), and calls of templates nest to the library's own bound, of
    which four levels are used ([check_runs]). Loops that the program runs for ever
    are folds over the list of what the outside contributes to each round.

    ** Foreign code

    Cryptography, crypto/x509, encoding/pem, golang.org/x/crypto/ssh, the AWS SDK,
    the OIDC verifier and client, the base library's HTTP client and session
    manager, the YAML and JSON decoders of structs are classes of parameters
    ([CryptoLib], [X509Lib], [SshLib], [AwsKms], [Gcm], [RestClient], ...).  What
    theorems assume of them are the classes named Laws, each a documented
    behaviour: a certificate that was created parses back with its template's
    fields and a signature its parent's key accepts, a sealed text opens, a marshalled key parses to itself.

    ** Not modelled

    The HTTP servers' listening, shutdown, TLS settings and timeouts; log lines; the
    command lines of certd and cert-agentd (cobra) and messages on the standard error;
    the portal's style sheet, and its theme script but as text. Of the template
    language and of HTML, what the pages use: the machines stop at anything else, and
    the theorems show that no page reaches it. The base library's rate limiter,
    session manager, login flow, Basic gate, journal and file reloaders are parameters
    where a definition meets them. Of the database, the engines themselves: SQL is
    modelled by what the program's statements do. The audit stream is taken to keep a
    message as it is. Concurrency is modelled for the signing and adoption of workload
    certificates ([Interleave]), for reconcile beside the portal ([ReconcileLive]) and
    for the agent's goroutines ([Supervise]); elsewhere requests run one after the
    other, a mutex or a transaction being what serialises them. The unit tests are not
    modelled; the acceptance suites of the stores are. *)

From stdpp Require Export base gmap sets list strings fin_maps sorting.
From Stdlib Require Export ZArith Lia Ascii.
From Stdlib Require Import String.

(** ** Notation scope of the development *)

Declare Scope ca_scope.
Delimit Scope ca_scope with ca.
Open Scope ca_scope.
Open Scope Z_scope.
Open Scope stdpp_scope.

#[export] Set Default Goal Selector "!".

(** ** Go error values

    An [error] is an [errors.New] value, a sentinel (a package-level [var Err… =
    errors.New …], identified by its qualified name) or an [fmt.Errorf] wrap with
    [%w], written as the text before and after the wrapped error.  [ErrOpaque]
    carries the errors of foreign code (driver, network, file system). *)
Inductive error :=
  | ErrNew (msg : string)
  | ErrSentinel (name msg : string)
  | ErrWrap (pre : string) (inner : error) (post : string)
  | ErrOpaque (what : string).

#[export] Instance error_eq_dec : EqDecision error.
Proof. solve_decision. Defined.

(** [err.Error()] *)
Fixpoint err_text (e : error) : string :=
  match e with
  | ErrNew m | ErrSentinel _ m | ErrOpaque m => m
  | ErrWrap pre e post => pre +:+ err_text e +:+ post
  end.

(** [errors.Is(err, target)] for a sentinel target: identity along the wrap
    chain; sentinels are identified by their qualified names. *)
Fixpoint err_is (e : error) (name : string) : bool :=
  match e with
  | ErrSentinel n _ => bool_decide (n = name)
  | ErrWrap _ e _ => err_is e name
  | _ => false
  end.

(** ** Fallible results: Go's [(value, error)] pairs *)
Inductive result (A : Type) :=
  | Ok (a : A)
  | Err (e : error).
Arguments Ok {A} a.
Arguments Err {A} e.

#[export] Instance result_eq_dec {A} `{EqDecision A} : EqDecision (result A).
Proof. solve_decision. Defined.

Definition rbind {A B} (m : result A) (k : A → result B) : result B :=
  match m with Ok a => k a | Err e => Err e end.

(** [if err != nil { return fmt.Errorf("pre%w", err) }] *)
Definition rwrap {A} (pre : string) (m : result A) : result A :=
  match m with Ok a => Ok a | Err e => Err (ErrWrap pre e "") end.

(** [if cond { return err }] in front of the rest of a validation. *)
Definition guard_err {A} (cond : bool) (e : error) (k : result A) : result A :=
  if cond then Err e else k.

Notation "x <-r m ;; k" := (rbind m (λ x, k))
  (at level 100, m at next level, right associativity) : ca_scope.
Notation "'reject' c 'with' e ;; k" := (guard_err c e k)
  (at level 100, c at level 99, e at level 99, right associativity) : ca_scope.

Definition is_ok {A} (r : result A) : bool :=
  match r with Ok _ => true | Err _ => false end.

Lemma guard_err_Ok {A} c e (k : result A) a :
  guard_err c e k = Ok a ↔ c = false ∧ k = Ok a.
Proof. destruct c; simpl; naive_solver. Qed.

Lemma rbind_Ok {A B} (m : result A) (k : A → result B) b :
  rbind m k = Ok b ↔ ∃ a, m = Ok a ∧ k a = Ok b.
Proof. destruct m; simpl; naive_solver. Qed.

Lemma rwrap_Ok {A} pre (m : result A) a : rwrap pre m = Ok a ↔ m = Ok a.
Proof. destruct m; simpl; naive_solver. Qed.

(** ** State-passing with errors

    A method that may fail on a store of type [S]: the Go method's state change
    and its [(value, error)] result. *)
Definition M (S A : Type) : Type := S → result A * S.

Definition mret {S A} (a : A) : M S A := λ s, (Ok a, s).
Definition mfail {S A} (e : error) : M S A := λ s, (Err e, s).
Definition mbind {S A B} (m : M S A) (k : A → M S B) : M S B := λ s,
  match m s with
  | (Ok a, s') => k a s'
  | (Err e, s') => (Err e, s')
  end.

Lemma mbind_Ok {S A B} (m : M S A) (k : A → M S B) s a s' :
  m s = (Ok a, s') → mbind m k s = k a s'.
Proof. unfold mbind. by intros ->. Qed.

Lemma mbind_Ok_inv {S A B} (m : M S A) (k : A → M S B) s b s' :
  mbind m k s = (Ok b, s') → ∃ a s1, m s = (Ok a, s1) ∧ k a s1 = (Ok b, s').
Proof. unfold mbind. destruct (m s) as [[a|e] s1]; [|done]. intros E. by exists a, s1. Qed.

(** A sequence of operations, with the outcome of each. *)
Fixpoint run_list {S O R} (step : O → S → R * S) (ops : list O) (s : S) : list R * S :=
  match ops with
  | [] => ([], s)
  | o :: ops => let '(r, s1) := step o s in
                let '(rs, s2) := run_list step ops s1 in (r :: rs, s2)
  end.

Lemma run_list_single {S O R} (step : O → S → R * S) o s :
  run_list step [o] s = ([(step o s).1], (step o s).2).
Proof. simpl. by destruct (step o s). Qed.

Notation "x <-m m ;; k" := (mbind m (λ x, k))
  (at level 100, m at next level, right associativity) : ca_scope.
Notation "m ;;; k" := (mbind m (λ _, k))
  (at level 100, right associativity) : ca_scope.

(** ** Machine integers

    Go's [int64] arithmetic wraps; [time.Duration] is an [int64] count of
    nanoseconds.  [uint64] wraps modulo [2^64]. *)
Definition int64_wrap (z : Z) : Z := (z + 2^63) mod 2^64 - 2^63.
Definition uint64_wrap (z : Z) : Z := z mod 2^64.
Definition int64_ok (z : Z) : Prop := -2^63 ≤ z < 2^63.
Definition uint64_ok (z : Z) : Prop := 0 ≤ z < 2^64.

Lemma int64_wrap_id z : int64_ok z → int64_wrap z = z.
Proof. unfold int64_ok, int64_wrap. intros H. rewrite Z.mod_small; lia. Qed.

Lemma int64_wrap_range z : int64_ok (int64_wrap z).
Proof.
  unfold int64_ok, int64_wrap.
  pose proof (Z.mod_pos_bound (z + 2^63) (2^64)). lia.
Qed.

Lemma uint64_wrap_id z : uint64_ok z → uint64_wrap z = z.
Proof. unfold uint64_ok, uint64_wrap. intros H. apply Z.mod_small; lia. Qed.

Lemma uint64_wrap_range z : uint64_ok (uint64_wrap z).
Proof. unfold uint64_ok, uint64_wrap. apply Z.mod_pos_bound. lia. Qed.

(** ** Time

    [time.Time] is modelled by its instant, in nanoseconds since the Unix epoch;
    [zero_time] is the zero [time.Time] (January 1, year 1, UTC). *)
Abbreviation time := Z (only parsing).
Abbreviation duration := Z (only parsing).

Definition ns_per_sec : Z := 1000000000.
Definition second : duration := ns_per_sec.
Definition minute : duration := 60 * second.
Definition hour : duration := 60 * minute.

Definition zero_time : time := -62135596800 * ns_per_sec.
Definition time_is_zero (t : time) : bool := t =? zero_time.
Definition time_after (t u : time) : bool := u <? t.
Definition time_before (t u : time) : bool := t <? u.
Definition time_add (t : time) (d : duration) : time := t + d.
(** [t.Sub(u)] saturates at the ends of the [Duration] range. *)
Definition time_sub (t u : time) : duration :=
  Z.max (-2^63) (Z.min (2^63 - 1) (t - u)).
(** [t.Unix()]: whole seconds since the epoch, rounded down. *)
Definition time_unix (t : time) : Z := t / ns_per_sec.
(** [time.Duration(n) * time.Second] on [int64]. *)
Definition seconds_to_duration (n : Z) : duration := int64_wrap (n * second).
(** [int64(d.Seconds())]/[int(d.Seconds())]: truncation toward zero.  [Seconds]
    computes in [float64], whose rounding does not reach the next integer below
    2^22 seconds (48 days); certd takes it of TTLs of at most 30 days
    ([GoDuration.int_seconds] is for any duration). *)
Definition duration_seconds (d : duration) : Z := Z.quot d second.

Lemma time_sub_lt t u d : - 2^63 < d < 2^63 → time_sub t u < d ↔ t - u < d.
Proof. unfold time_sub. lia. Qed.

(** ** Go strings

    A Go string is a byte sequence, as is a Rocq [string]. *)

(** [s == ""] *)
Definition str_empty (s : string) : bool := bool_decide (s = "").

Fixpoint str_snoc_rev (s acc : string) : string :=
  match s with
  | "" => acc
  | String c s' => str_snoc_rev s' (String c acc)
  end.

Definition byte_in (lo hi : N) (c : ascii) : bool :=
  let n := N_of_ascii c in (lo <=? n)%N && (n <=? hi)%N.
Definition byte_is (b : N) (c : ascii) : bool := (N_of_ascii c =? b)%N.

(** [unicode.IsSpace] on the UTF-8 encodings of one, two and three bytes. *)
Definition space1 (c : ascii) : bool := byte_in 9 13 c || byte_is 32 c.
Definition space2 (c1 c2 : ascii) : bool :=
  byte_is 0xC2 c1 && (byte_is 0x85 c2 || byte_is 0xA0 c2).
Definition space3 (c1 c2 c3 : ascii) : bool :=
  byte_is 0xE1 c1 && byte_is 0x9A c2 && byte_is 0x80 c3 ||
  byte_is 0xE2 c1 && byte_is 0x80 c2 &&
    (byte_in 0x80 0x8A c3 || byte_is 0xA8 c3 || byte_is 0xA9 c3 || byte_is 0xAF c3) ||
  byte_is 0xE2 c1 && byte_is 0x81 c2 && byte_is 0x9F c3 ||
  byte_is 0xE3 c1 && byte_is 0x80 c2 && byte_is 0x80 c3.

(** Strip leading white space; [flip] reads the multi-byte encodings backwards,
    for the reversed string. *)
Fixpoint trim_left (flip : bool) (s : string) : string :=
  match s with
  | "" => ""
  | String c1 t1 =>
      if space1 c1 then trim_left flip t1 else
      match t1 with
      | "" => s
      | String c2 t2 =>
          if (if flip then space2 c2 c1 else space2 c1 c2) then trim_left flip t2 else
          match t2 with
          | "" => s
          | String c3 t3 =>
              if (if flip then space3 c3 c2 c1 else space3 c1 c2 c3)
              then trim_left flip t3 else s
          end
      end
  end.

Definition str_rev (s : string) : string := str_snoc_rev s "".

(** [strings.TrimSpace] *)
Definition TrimSpace (s : string) : string :=
  str_rev (trim_left true (str_rev (trim_left false s))).

(** [strings.TrimRight(s, c)] for one byte. *)
Fixpoint trim_right (c : ascii) (s : string) : string :=
  match s with
  | "" => ""
  | String x t =>
      match trim_right c t with
      | "" => if bool_decide (x = c) then "" else String x ""
      | t' => String x t'
      end
  end.

(** [strings.Split(s, sep)] for a one-byte separator. *)
Fixpoint split_byte (sep : ascii) (s : string) : list string :=
  match s with
  | "" => [""]
  | String c s' =>
      if bool_decide (c = sep) then "" :: split_byte sep s'
      else match split_byte sep s' with
           | [] => [String c ""]
           | w :: ws => String c w :: ws
           end
  end.

(** [strings.Cut(s, sep)] for a one-byte separator: before, after, found. *)
Fixpoint cut_byte (sep : ascii) (s : string) : string * string * bool :=
  match s with
  | "" => ("", "", false)
  | String c s' =>
      if bool_decide (c = sep) then ("", s', true)
      else let '(b, a, f) := cut_byte sep s' in (String c b, a, f)
  end.

(** [strings.Join] *)
Fixpoint str_join (sep : string) (l : list string) : string :=
  match l with
  | [] => ""
  | [s] => s
  | s :: l' => s +:+ sep +:+ str_join sep l'
  end.

(** [strings.ReplaceAll(s, c, d)] for single bytes. *)
Fixpoint replace_byte (c d : ascii) (s : string) : string :=
  match s with
  | "" => ""
  | String x s' => String (if bool_decide (x = c) then d else x) (replace_byte c d s')
  end.

Definition newline : ascii := "010"%char.
Definition nl : string := String newline "".

(** [strings.EqualFold]/[strings.ToLower] on ASCII letters. *)
Definition byte_lower (c : ascii) : ascii :=
  if byte_in 65 90 c then ascii_of_N (N_of_ascii c + 32) else c.
Fixpoint str_lower (s : string) : string :=
  match s with "" => "" | String c s' => String (byte_lower c) (str_lower s') end.

(** Byte-wise lexicographic [s < t] on strings. *)
Definition str_ltb (s t : string) : bool := bool_decide (String.le s t) && negb (bool_decide (s = t)).

(** [sort.Strings] *)
Definition sort_strings (l : list string) : list string := merge_sort String.le l.

(** [fmt] of a [[]string] with [%v]. *)
Definition fmt_strings (l : list string) : string := "[" +:+ str_join " " l +:+ "]".

(** [[]byte(s)] *)
Fixpoint bytes_of (s : string) : list ascii :=
  match s with "" => [] | String c s' => c :: bytes_of s' end.

(** [fmt]'s [%q]: double quotes, backslash escapes; exact on printable text. *)
Definition hex_digit (n : N) : ascii :=
  ascii_of_N (if (n <? 10)%N then 48 + n else 87 + n)%N.
Definition quote_byte (c : ascii) : string :=
  let n := N_of_ascii c in
  if (n =? 34)%N then "\" +:+ String c "" else
  if (n =? 92)%N then "\\" else
  if (n =? 7)%N then "\a" else if (n =? 8)%N then "\b" else
  if (n =? 9)%N then "\t" else if (n =? 10)%N then "\n" else
  if (n =? 11)%N then "\v" else if (n =? 12)%N then "\f" else
  if (n =? 13)%N then "\r" else
  if (n <? 32)%N || (n =? 127)%N
  then "\x" +:+ String (hex_digit (n / 16)) (String (hex_digit (n mod 16)) "")
  else String c "".
Fixpoint quote_bytes (s : string) : string :=
  match s with "" => "" | String c s' => quote_byte c +:+ quote_bytes s' end.
Definition dquote : string := String (ascii_of_N 34) "".
Definition fmt_q (s : string) : string := dquote +:+ quote_bytes s +:+ dquote.

Lemma str_app_cons c s t : String c s +:+ t = String c (s +:+ t).
Proof. done. Qed.
Lemma str_app_nil_l s : "" +:+ s = s.
Proof. done. Qed.
Lemma str_app_nil_r s : s +:+ "" = s.
Proof. induction s as [|c s IH]; [done|]. by rewrite str_app_cons, IH. Qed.
Lemma str_app_assoc s t u : (s +:+ t) +:+ u = s +:+ t +:+ u.
Proof.
  induction s as [|c s IH]; [done|].
  by rewrite !str_app_cons, IH.
Qed.

Lemma str_length_app s t : String.length (s +:+ t) = (String.length s + String.length t)%nat.
Proof. induction s as [|c s IH]; [done|]. rewrite str_app_cons. simpl. by rewrite IH. Qed.

Lemma substring_all s n : (String.length s ≤ n)%nat → String.substring 0 n s = s.
Proof.
  revert n. induction s as [|c s IH]; intros [|n] Hn; simpl in *; try (done || lia). by rewrite IH by lia.
Qed.

Lemma substring_app_l s t : String.substring 0 (String.length s) (s +:+ t) = s.
Proof. induction s as [|c s IH]; [by destruct t|]. rewrite str_app_cons. simpl. by rewrite IH. Qed.

Lemma substring_app_r s t n : String.substring (String.length s) n (s +:+ t) = String.substring 0 n t.
Proof. induction s as [|c s IH]; [done|]. rewrite str_app_cons. simpl. by rewrite IH. Qed.

Lemma substring_length s n : (n ≤ String.length s)%nat → String.length (String.substring 0 n s) = n.
Proof. revert n. induction s as [|c s IH]; intros [|n] Hn; simpl in *; try (done || lia). by rewrite IH by lia. Qed.

Lemma prefix_app s t : String.prefix s (s +:+ t) = true.
Proof. induction s as [|c s IH]; [by destruct t|]. rewrite str_app_cons. simpl. by destruct (ascii_dec c c). Qed.

Lemma prefix_split s t : String.prefix s t = true → ∃ u, t = s +:+ u.
Proof.
  revert t. induction s as [|c s IH]; intros t; [by exists t|].
  destruct t as [|d t]; simpl; [done|]. destruct (ascii_dec c d) as [->|]; [|done].
  intros [u ->]%IH. by exists u.
Qed.

Lemma cut_byte_none sep s : Forall (λ c, c ≠ sep) (bytes_of s) → cut_byte sep s = (s, "", false).
Proof.
  induction s as [|c s IH]; intros Hs; [done|]. cbn [bytes_of cut_byte] in *.
  apply Forall_cons in Hs as [Hc Hs]. rewrite bool_decide_false by done. by rewrite (IH Hs).
Qed.

Lemma cut_byte_at sep s v : Forall (λ c, c ≠ sep) (bytes_of s) → cut_byte sep (s +:+ String sep v) = (s, v, true).
Proof.
  induction s as [|c s IH]; intros Hs.
  - rewrite str_app_nil_l. cbn [cut_byte]. by rewrite bool_decide_true.
  - cbn [bytes_of] in *. apply Forall_cons in Hs as [Hc Hs]. rewrite str_app_cons. cbn [cut_byte].
    rewrite bool_decide_false by done. by rewrite (IH Hs).
Qed.

Lemma cut_byte_found sep s b a : cut_byte sep s = (b, a, true) → s = b +:+ String sep a.
Proof.
  revert b. induction s as [|c s IH]; intros b; simpl; [done|]. case_bool_decide as E.
  - intros [= <- <-]. by subst.
  - destruct (cut_byte sep s) as [[b' a'] f]. intros [= <- <- ->]. by rewrite str_app_cons, <- IH.
Qed.

Lemma bytes_app s t : bytes_of (s +:+ t) = bytes_of s ++ bytes_of t.
Proof. induction s as [|c s IH]; [done|]. rewrite str_app_cons. cbn [bytes_of]. by rewrite IH. Qed.

Lemma split_byte_none sep s : Forall (λ c, c ≠ sep) (bytes_of s) → split_byte sep s = [s].
Proof.
  induction s as [|c s IH]; [done|]. cbn [bytes_of split_byte]. intros H.
  apply Forall_cons in H as [Hc Hs]. by rewrite bool_decide_false, (IH Hs).
Qed.

Lemma split_byte_app sep s t :
  Forall (λ c, c ≠ sep) (bytes_of s) → split_byte sep (s +:+ String sep t) = s :: split_byte sep t.
Proof.
  induction s as [|c s IH]; intros H.
  - rewrite str_app_nil_l. cbn [split_byte]. by rewrite bool_decide_true.
  - cbn [bytes_of] in H. apply Forall_cons in H as [Hc Hs]. rewrite str_app_cons. cbn [split_byte].
    by rewrite bool_decide_false, (IH Hs).
Qed.

(** ** Lists and sorting *)

#[export] Instance string_le_trans : Transitive String.le.
Proof. apply String.le_po. Qed.

#[export] Instance string_le_antisymm : AntiSymm (=) String.le.
Proof. apply String.le_po. Qed.

(** Two duplicate-free enumerations of the same set sort to the same list. *)
Lemma sort_strings_perm l1 l2 : l1 ≡ₚ l2 → sort_strings l1 = sort_strings l2.
Proof.
  intros H. apply (Sorted_unique String.le).
  - apply Sorted_merge_sort, _.
  - apply Sorted_merge_sort, _.
  - unfold sort_strings. by rewrite !merge_sort_Permutation.
Qed.

Lemma sort_strings_spec l : sort_strings l ≡ₚ l ∧ Sorted String.le (sort_strings l).
Proof. split; [apply merge_sort_Permutation|apply Sorted_merge_sort, _]. Qed.

Lemma elem_of_sort_strings x l : x ∈ sort_strings l ↔ x ∈ l.
Proof. by rewrite (proj1 (sort_strings_spec l)). Qed.

Lemma StronglySorted_map {A B} (R : A → A → Prop) (Q : B → B → Prop) (f : A → B) l :
  (∀ a b, R a b → Q (f a) (f b)) → StronglySorted R l → StronglySorted Q (f <$> l).
Proof.
  intros Hf. induction 1 as [|a l Hl IH Ha]; simpl; constructor; [done|].
  apply Forall_fmap. eapply Forall_impl; [done|]. intros. by apply Hf.
Qed.

Lemma filter_none {A} (f : A → bool) l : (∀ x, x ∈ l → f x = false) → List.filter f l = [].
Proof.
  induction l as [|x l IH]; intros H; simpl; [done|].
  rewrite (H x) by by left. apply IH. intros. apply H. by right.
Qed.

Lemma filter_fmap {A B} (f : B → bool) (g : A → B) l :
  List.filter f (g <$> l) = g <$> List.filter (λ x, f (g x)) l.
Proof.
  induction l as [|x l IH]; [done|].
  change (g <$> x :: l) with (g x :: (g <$> l)). cbn [List.filter]. rewrite IH.
  by destruct (f (g x)).
Qed.

(** ** Automation *)

Create HintDb ca.
#[export] Hint Rewrite @guard_err_Ok @rbind_Ok @rwrap_Ok : ca.
#[export] Hint Resolve int64_wrap_range uint64_wrap_range : ca.

(** Split a successful validation into the tests it passed. *)
Ltac destruct_ex_and := repeat match goal with
  | H : ∃ _, _ |- _ => destruct H
  | H : _ ∧ _ |- _ => destruct H
  end.
Ltac inv_ok H := autorewrite with ca in H; destruct_ex_and; simplify_eq.

(** Turn a permutation goal between equal lists into the equation. *)
Ltac perm_eq :=
  match goal with |- ?a ≡ₚ ?b => let H := fresh in cut (a = b); [intros H; rewrite H; reflexivity|] end.
