(* ===== verification/Glob.v ===== *)
(** * Glob: [path.Match], the pattern language of the role table

    [internal/server/policy] matches host names and SPIFFE URIs against
    [path.Match] globs.  This file holds the executable model of that
    standard-library function (byte strings, UTF-8 decoding for [?] and classes,
    greedy leftmost search for [*], lazily reported syntax errors), a declarative
    reading of patterns, and the soundness and completeness of the search. *)

From S2P Require Import Prelude.

Abbreviation bytes := (list ascii).

(** ** UTF-8 decoding: [utf8.DecodeRuneInString] *)

Definition RuneError : N := 0xFFFD.

Definition cont_byte (c : ascii) : bool := byte_in 0x80 0xBF c.

(** Range of the second byte and the encoded length, from the leading byte;
    [None] for a byte that cannot start a multi-byte encoding. *)
Definition utf8_lead (c : ascii) : option (nat * N * N) :=
  if byte_in 0xC2 0xDF c then Some (2%nat, 0x80%N, 0xBF%N)
  else if byte_is 0xE0 c then Some (3%nat, 0xA0%N, 0xBF%N)
  else if byte_is 0xED c then Some (3%nat, 0x80%N, 0x9F%N)
  else if byte_in 0xE1 0xEF c then Some (3%nat, 0x80%N, 0xBF%N)
  else if byte_is 0xF0 c then Some (4%nat, 0x90%N, 0xBF%N)
  else if byte_is 0xF4 c then Some (4%nat, 0x80%N, 0x8F%N)
  else if byte_in 0xF1 0xF3 c then Some (4%nat, 0x80%N, 0xBF%N)
  else None.

Definition low6 (c : ascii) : N := N.land (N_of_ascii c) 0x3F.

(** The first rune and the number of bytes it takes; an invalid encoding is
    [RuneError] of width 1. *)
Definition decode_rune (s : bytes) : N * nat :=
  match s with
  | [] => (RuneError, 0%nat)
  | c0 :: t =>
      if byte_in 0 0x7F c0 then (N_of_ascii c0, 1%nat) else
      match utf8_lead c0, t with
      | Some (2%nat, lo, hi), c1 :: _ =>
          if byte_in lo hi c1
          then (N.lor (N.shiftl (N.land (N_of_ascii c0) 0x1F) 6) (low6 c1), 2%nat)
          else (RuneError, 1%nat)
      | Some (3%nat, lo, hi), c1 :: c2 :: _ =>
          if byte_in lo hi c1 && cont_byte c2
          then (N.lor (N.shiftl (N.land (N_of_ascii c0) 0x0F) 12)
                  (N.lor (N.shiftl (low6 c1) 6) (low6 c2)), 3%nat)
          else (RuneError, 1%nat)
      | Some (4%nat, lo, hi), c1 :: c2 :: c3 :: _ =>
          if byte_in lo hi c1 && cont_byte c2 && cont_byte c3
          then (N.lor (N.shiftl (N.land (N_of_ascii c0) 0x07) 18)
                  (N.lor (N.shiftl (low6 c1) 12)
                     (N.lor (N.shiftl (low6 c2) 6) (low6 c3))), 4%nat)
          else (RuneError, 1%nat)
      | _, _ => (RuneError, 1%nat)
      end
  end.

(** ** Pattern syntax *)

(** One element of a star-free chunk. *)
Inductive tok :=
  | TLit (c : ascii)                       (* a byte, possibly escaped *)
  | TAny                                   (* [?]: one rune other than [/] *)
  | TClass (neg : bool) (rs : list (N * N)). (* [[…]]: one rune in (or not in) the ranges *)

#[export] Instance tok_eq_dec : EqDecision tok.
Proof. solve_decision. Defined.

Definition slash : ascii := "/"%char.

Definition is_nil {A} (l : list A) : bool := match l with [] => true | _ => false end.

Definition starts_with (c : ascii) (s : bytes) : bool :=
  match s with [] => false | d :: _ => bool_decide (d = c) end.

(** [getEsc]: a possibly escaped rune of a character class; [None] is
    [ErrBadPattern]. *)
Definition get_esc (chunk : bytes) : option (N * bytes) :=
  let finish rest :=
    let '(r, n) := decode_rune rest in
    if (r =? RuneError)%N && Nat.eqb n 1 then None
    else match drop n rest with [] => None | nchunk => Some (r, nchunk) end in
  match chunk with
  | [] => None
  | c :: t =>
      if bool_decide (c = "-"%char) || bool_decide (c = "]"%char) then None
      else if bool_decide (c = "\"%char)
      then match t with [] => None | _ => finish t end
      else finish chunk
  end.

(** The ranges of a class up to its closing bracket.  Each range consumes at
    least one byte, so [length chunk] rounds are enough. *)
Fixpoint parse_ranges (fuel : nat) (chunk : bytes) (acc : list (N * N))
    : option (list (N * N) * bytes) :=
  match fuel with
  | O => None
  | S fuel =>
      if starts_with "]" chunk && negb (is_nil acc) then Some (acc, tail chunk) else
      '(lo, c1) ← get_esc chunk;
      if starts_with "-" c1
      then '(hi, c2) ← get_esc (tail c1); parse_ranges fuel c2 (acc ++ [(lo, hi)])
      else parse_ranges fuel c1 (acc ++ [(lo, lo)])
  end.

#[global] Arguments parse_ranges : simpl never.

(** The elements of a chunk, or [None] for [ErrBadPattern].  [matchChunk] reports
    the same errors whatever the name it is matching: after a mismatch it keeps
    scanning the chunk for well-formedness. *)
Fixpoint chunk_toks (fuel : nat) (chunk : bytes) : option (list tok) :=
  match fuel, chunk with
  | _, [] => Some []
  | O, _ => None
  | S fuel, c :: t =>
      if bool_decide (c = "?"%char) then cons TAny <$> chunk_toks fuel t
      else if bool_decide (c = "\"%char) then
        match t with
        | [] => None
        | c' :: t' => cons (TLit c') <$> chunk_toks fuel t'
        end
      else if bool_decide (c = "["%char) then
        let neg := starts_with "^" t in
        let t1 := if neg then tail t else t in
        '(rs, t2) ← parse_ranges (S (length t1)) t1 [];
        cons (TClass neg rs) <$> chunk_toks fuel t2
      else cons (TLit c) <$> chunk_toks fuel t
  end.

(** Leading stars of [scanChunk]. *)
Fixpoint drop_stars (p : bytes) : bytes :=
  match p with
  | c :: p' => if bool_decide (c = "*"%char) then drop_stars p' else p
  | [] => []
  end.

(** The scan of [scanChunk]: bytes up to the next [*] outside brackets. [esc]
    marks a byte that follows a backslash. *)
Fixpoint scan_chunk (inrange esc : bool) (p : bytes) : bytes * bytes :=
  match p with
  | [] => ([], [])
  | c :: t =>
      if negb esc && negb inrange && bool_decide (c = "*"%char) then ([], p) else
      let inrange' :=
        if esc then inrange
        else if bool_decide (c = "["%char) then true
        else if bool_decide (c = "]"%char) then false else inrange in
      let '(a, b) := scan_chunk inrange' (negb esc && bool_decide (c = "\"%char)) t in
      (c :: a, b)
  end.

(** A pattern is a list of chunks, each possibly preceded by a star. *)
Abbreviation chunk := (bool * list tok)%type.

Fixpoint parse_pattern (fuel : nat) (p : bytes) : option (list chunk) :=
  match fuel, p with
  | _, [] => Some []
  | O, _ => None
  | S fuel, _ =>
      let '(c, rest) := scan_chunk false false (drop_stars p) in
      ts ← chunk_toks (length c) c;
      cons (starts_with "*" p, ts) <$> parse_pattern fuel rest
  end.

(** ** Matching *)

Definition in_ranges (r : N) (rs : list (N * N)) : bool :=
  existsb (λ '(lo, hi), (lo <=? r)%N && (r <=? hi)%N) rs.

(** One token against the front of [s]; the rest of [s] on success. *)
Definition match_tok (t : tok) (s : bytes) : option bytes :=
  match s with
  | [] => None
  | c :: s' =>
      match t with
      | TLit b => if bool_decide (c = b) then Some s' else None
      | TAny => if bool_decide (c = slash) then None else Some (drop (decode_rune s).2 s)
      | TClass neg rs =>
          let '(r, n) := decode_rune s in
          if Bool.eqb (in_ranges r rs) neg then None else Some (drop n s)
      end
  end.

(** [matchChunk] on a well-formed chunk. *)
Fixpoint match_toks (ts : list tok) (s : bytes) : option bytes :=
  match ts with
  | [] => Some s
  | t :: ts => s' ← match_tok t s; match_toks ts s'
  end.

Definition no_slash (s : bytes) : bool := bool_decide (slash ∉ s).

(** The star search: skip [i+1] bytes, never over a slash, and take the first
    position where the chunk matches (and, for the last chunk, exhausts the
    name). *)
Fixpoint star_search (ts : list tok) (last : bool) (name : bytes) : option bytes :=
  match name with
  | [] => None
  | c :: name' =>
      if bool_decide (c = slash) then None else
      match match_toks ts name' with
      | Some t => if last && negb (is_nil t) then star_search ts last name' else Some t
      | None => star_search ts last name'
      end
  end.

Fixpoint match_chunks (cs : list chunk) (name : bytes) : bool :=
  match cs with
  | [] => is_nil name
  | (star, ts) :: rest =>
      if star && is_nil ts then no_slash name else
      let found :=
        match match_toks ts name with
        | Some t => if is_nil t || negb (is_nil rest) then Some t
                    else if star then star_search ts (is_nil rest) name else None
        | None => if star then star_search ts (is_nil rest) name else None
        end in
      match found with
      | Some t => match_chunks rest t
      | None => false
      end
  end.

Definition ErrBadPattern : error := ErrSentinel "path.ErrBadPattern" "syntax error in pattern".

Definition parse (p : string) : option (list chunk) :=
  let b := bytes_of p in parse_pattern (length b) b.

(** [path.Match(pattern, name)] *)
Definition Match (pattern name : string) : result bool :=
  match parse pattern with
  | None => Err ErrBadPattern
  | Some cs => Ok (match_chunks cs (bytes_of name))
  end.

(** ** Declarative patterns

    [Glob cs s]: [s] splits into pieces that the chunks match one by one, each
    star standing for a run of bytes without a slash. *)
Inductive Glob : list chunk → bytes → Prop :=
  | Glob_nil : Glob [] []
  | Glob_chunk ts rest s t :
      match_toks ts s = Some t → Glob rest t → Glob ((false, ts) :: rest) s
  | Glob_star ts rest u s t :
      slash ∉ u → match_toks ts s = Some t → Glob rest t →
      Glob ((true, ts) :: rest) (u ++ s).

(** A name matches a glob of the role table: the pattern is well formed and its
    declarative reading covers the name. *)
Definition glob_matches (p name : string) : Prop :=
  ∃ cs, parse p = Some cs ∧ Glob cs (bytes_of name).

Lemma is_nil_true {A} (l : list A) : is_nil l = true ↔ l = [].
Proof. destruct l; naive_solver. Qed.

Lemma star_search_Some ts last name t :
  star_search ts last name = Some t →
  ∃ u s, name = u ++ s ∧ slash ∉ u ∧ match_toks ts s = Some t ∧ (last = true → t = []).
Proof.
  induction name as [|c name IH]; simpl; [done|].
  case_bool_decide as Hc; [done|]. intros H.
  assert (star_search ts last name = Some t ∨
          match_toks ts name = Some t ∧ (last = true → t = [])) as [H'|[Hm Hl]].
  { destruct (match_toks ts name) as [t'|] eqn:Hm; [|by left].
    destruct (last && negb (is_nil t')) eqn:Hl; [by left|]. right.
    simplify_eq. split; [done|]. intros ->. by destruct t. }
  - destruct (IH H') as (u & s & -> & Hu & Hm & Hl).
    exists (c :: u), s. set_solver.
  - exists [c], name. set_solver.
Qed.

(** Shape of a parsed pattern: every chunk after the first follows a star, and
    only the last chunk can be empty. *)
Inductive wf_chunks : list chunk → Prop :=
  | wf_nil : wf_chunks []
  | wf_last : wf_chunks [(true, [])]
  | wf_cons ts rest : ts ≠ [] → wf_chunks rest → wf_chunks ((true, ts) :: rest).

Definition wf_pattern (cs : list chunk) : Prop :=
  wf_chunks cs ∨ ∃ ts rest, cs = (false, ts) :: rest ∧ ts ≠ [] ∧ wf_chunks rest.

Lemma drop_stars_head p : starts_with "*" (drop_stars p) = false.
Proof. induction p; simpl; [done|]. case_bool_decide; [done|]. simpl. by rewrite bool_decide_false. Qed.

Lemma drop_stars_nostar p : starts_with "*" p = false → drop_stars p = p.
Proof. destruct p; simpl; [done|]. by intros ->. Qed.

Lemma chunk_toks_nil n c : chunk_toks n c = Some [] → c = [].
Proof.
  destruct n, c as [|c t]; simpl; [done..|].
  assert (∀ x (o : option (list tok)), cons x <$> o = Some [] → c :: t = []) as Hne.
  { intros x o. rewrite fmap_Some. naive_solver. }
  case_bool_decide; [by intros ?%Hne|].
  case_bool_decide; [destruct t; [done|by intros ?%Hne]|].
  case_bool_decide; [|by intros ?%Hne].
  destruct (parse_ranges _ _ _) as [[rs t2]|]; simpl; [by intros ?%Hne|done].
Qed.

Lemma scan_chunk_nil p rest :
  starts_with "*" p = false → scan_chunk false false p = ([], rest) → p = [].
Proof.
  destruct p as [|a p]; simpl; [done|]. intros ->.
  by destruct (scan_chunk _ _ _).
Qed.

Lemma scan_chunk_rest b e p c rest :
  scan_chunk b e p = (c, rest) → rest = [] ∨ starts_with "*" rest = true.
Proof.
  revert b e c. induction p as [|a p IH]; simpl; intros b e c; [naive_solver|].
  destruct (negb e && negb b && bool_decide (a = "*"%char)) eqn:Ha.
  - intros [= <- <-]. right. simpl.
    destruct (bool_decide (a = "*"%char)); [done|]. by rewrite andb_false_r in Ha.
  - destruct (scan_chunk _ _ p) as [x y] eqn:Hs. intros [= _ <-]. by eapply IH.
Qed.

Lemma parse_pattern_wf n p cs :
  parse_pattern n p = Some cs →
  wf_pattern cs ∧ (starts_with "*" p = true → wf_chunks cs).
Proof.
  revert p cs. induction n as [|n IH]; intros p cs.
  { destruct p; simpl; [|done]. intros [= <-]. split; [left|]; constructor. }
  destruct p as [|a p]; [intros [= <-]; split; [left|]; constructor|].
  cbn [parse_pattern]. remember (a :: p) as p0.
  destruct (scan_chunk false false (drop_stars p0)) as [c rest] eqn:Hs.
  destruct (chunk_toks (length c) c) as [ts|] eqn:Hts; simpl; [|done].
  destruct (parse_pattern n rest) as [cs'|] eqn:Hr; simpl; [|done]. intros [= <-].
  pose proof Hr as Hr'. apply IH in Hr' as [_ Hrest].
  pose proof (scan_chunk_rest _ _ _ _ _ Hs) as Hstar.
  assert (ts = [] → drop_stars p0 = [] ∧ rest = []) as Hnil.
  { intros ->. apply chunk_toks_nil in Hts as ->.
    pose proof (scan_chunk_nil _ _ (drop_stars_head _) Hs) as Hd.
    rewrite Hd in Hs. by simplify_eq/=. }
  assert (wf_chunks cs') as Hcs'.
  { destruct Hstar as [-> | Hstar]; [|by apply Hrest].
    destruct n; simpl in Hr; simplify_eq; constructor. }
  destruct (starts_with "*" p0) eqn:H0.
  - assert (wf_chunks ((true, ts) :: cs')) as Hwf; [|by split; [left|]].
    destruct (decide (ts = [])) as [Hts0|]; [|by constructor].
    destruct (Hnil Hts0) as [_ ->]. subst ts.
    destruct n; simpl in Hr; simplify_eq; constructor.
  - split; [|done]. right. eexists _, _. split; [done|]. split; [|done].
    intros Hts0. destruct (Hnil Hts0) as [Hd _].
    rewrite drop_stars_nostar in Hd by done. by subst.
Qed.

(** The search only reports names that the declarative reading covers. *)
Lemma match_chunks_sound_wf cs name :
  wf_chunks cs → match_chunks cs name = true → Glob cs name.
Proof.
  intros Hwf. revert name. induction Hwf as [| |ts rest Hts Hwf IH]; intros name H.
  - apply is_nil_true in H as ->. constructor.
  - simpl in H. unfold no_slash in H. case_bool_decide as Hns; [|done].
    rewrite <- (app_nil_r name). eapply Glob_star; [done|done|constructor].
  - destruct ts as [|t0 ts]; [done|]. cbn [match_chunks is_nil andb] in H.
    set (ts' := t0 :: ts) in *.
    assert (∀ o, match o with Some t => match_chunks rest t | None => false end = true →
      (∀ t, o = Some t → ∃ u s, name = u ++ s ∧ slash ∉ u ∧ match_toks ts' s = Some t) →
      Glob ((true, ts') :: rest) name) as Hfin.
    { intros [t|] Ht Ho; [|done]. destruct (Ho t) as (u & s & -> & Hu & Hm); [done|].
      econstructor; eauto. }
    apply Hfin in H; [done|]. clear Hfin H. intros t Ht.
    destruct (match_toks ts' name) as [t'|] eqn:Hm;
      [destruct (is_nil t' || negb (is_nil rest))|]; simplify_eq.
    1: by exists [], name; set_solver.
    all: apply star_search_Some in Ht; naive_solver.
Qed.

Lemma match_chunks_sound cs name :
  wf_pattern cs → match_chunks cs name = true → Glob cs name.
Proof.
  intros [Hwf|(ts & rest & -> & Hts & Hwf)]; [by apply match_chunks_sound_wf|].
  simpl. destruct (match_toks ts name) as [t|] eqn:Hm; [|done].
  destruct (is_nil t || _); [|done]. intros H.
  econstructor; [done|]. by apply match_chunks_sound_wf.
Qed.

(** ** Completeness on class-free patterns

    On ASCII names every literal and [?] takes exactly one byte, and the leftmost
    occurrence of a chunk leaves a rest that covers every other choice: the greedy
    search finds a match whenever one exists.  (A class can match a slash, so a
    later occurrence of its chunk may succeed where the leftmost one fails; see
    [greedy_class_incomplete].) *)

Definition simple_tok (t : tok) : bool :=
  match t with TClass _ _ => false | _ => true end.
Definition simple_pattern (cs : list chunk) : Prop :=
  Forall (λ c, Forall simple_tok c.2) cs.
Definition ascii_only (s : bytes) : Prop := Forall (λ c, byte_in 0 0x7F c) s.

Definition tok_ok (t : tok) (c : ascii) : Prop :=
  match t with TLit b => c = b | TAny => c ≠ slash | TClass _ _ => False end.

Lemma match_tok_simple t s s' :
  simple_tok t → ascii_only s →
  match_tok t s = Some s' ↔ ∃ c, s = c :: s' ∧ tok_ok t c.
Proof.
  intros Ht Hs. destruct s as [|c s]; simpl; [naive_solver|].
  destruct t as [b| |]; simpl; [case_bool_decide; naive_solver| |done].
  inversion Hs as [|?? Hc _]; subst. case_bool_decide; [naive_solver|].
  destruct (byte_in 0 127 c); [|done]. simpl. naive_solver.
Qed.

Lemma match_toks_simple ts s t :
  Forall simple_tok ts → ascii_only s →
  match_toks ts s = Some t ↔ ∃ w, s = w ++ t ∧ Forall2 tok_ok ts w.
Proof.
  intros Hts. revert s. induction Hts as [|x ts Hx Hts IH]; simpl; intros s Hs.
  { split; [intros [= ->]; exists []; by constructor|].
    intros (w & -> & Hw). by inversion Hw. }
  rewrite bind_Some. split.
  - intros (s' & (c & -> & Hc)%match_tok_simple & Hm); [|done..].
    inversion Hs; subst. apply IH in Hm as (w & -> & Hw); [|done].
    exists (c :: w). split; [done|]. by constructor.
  - intros (w & -> & Hw). inversion Hw as [|? c ? w' Hc Hw']; subst.
    inversion Hs; subst. exists (w' ++ t). rewrite match_tok_simple by done.
    split; [by exists c|]. apply IH; [done|]. by exists w'.
Qed.

(** The search succeeds at the leftmost admissible position. *)
Lemma star_search_complete ts (last : bool) c u s t :
  slash ∉ c :: u → match_toks ts s = Some t → (last = true → t = []) →
  ∃ u' s' t', c :: u ++ s = u' ++ s' ∧ (length u' ≤ S (length u))%nat ∧
    match_toks ts s' = Some t' ∧ (last = true → t' = []) ∧
    star_search ts last (c :: u ++ s) = Some t'.
Proof.
  revert c. induction u as [|d u IH]; intros c Hu Hm Hl; simpl.
  - rewrite bool_decide_false by set_solver. exists [c], s, t. rewrite Hm.
    destruct last; [rewrite (Hl eq_refl)|]; simpl; naive_solver.
  - rewrite bool_decide_false by set_solver.
    destruct (IH d) as (u' & s' & t' & Heq & Hlen & Hm' & Hl' & Hs); [set_solver|done..|].
    simpl in Hs, Heq.
    assert (∃ u' s' t', c :: d :: u ++ s = u' ++ s' ∧ (length u' ≤ S (S (length u)))%nat ∧
      match_toks ts s' = Some t' ∧ (last = true → t' = []) ∧
      star_search ts last (d :: u ++ s) = Some t') as Hskip.
    { exists (c :: u'), s', t'. simpl. rewrite Heq. naive_solver lia. }
    simpl in Hskip. destruct (match_toks ts (d :: u ++ s)) as [t0|] eqn:Hm0; [|done].
    destruct (last && negb (is_nil t0)) eqn:Hl0; [done|].
    exists [c], (d :: u ++ s), t0. split_and!; [done|simpl; lia|done| |done].
    intros ->. by destruct t0.
Qed.

(** Between the leftmost end of a chunk and a later one there is no slash. *)
Lemma gap_no_slash ts u w t u' w' t' :
  Forall2 tok_ok ts w → Forall2 tok_ok ts w' →
  u ++ w ++ t = u' ++ w' ++ t' → (length u' < length u)%nat → slash ∉ u →
  ∀ q, w !! q ≠ Some slash.
Proof.
  intros Hw Hw' Heq Hlen Hu q. induction (lt_wf q) as [q _ IH]. intros Hq.
  destruct (Forall2_lookup_r _ _ _ _ _ Hw Hq) as (x & Hx & Hok).
  destruct (Forall2_lookup_l _ _ _ _ _ Hw' Hx) as (c & Hc & Hok').
  assert (c = slash) as -> by (destruct x; simpl in *; [congruence|done|done]).
  assert ((u ++ w ++ t) !! (length u' + q)%nat = Some slash) as Hlk.
  { rewrite Heq, lookup_app_r by lia.
    rewrite lookup_app_l; [by replace (length u' + q - length u')%nat with q by lia|].
    replace (length u' + q - length u')%nat with q by lia.
    by eapply lookup_lt_Some. }
  destruct (decide (length u' + q < length u)%nat) as [Hlt|Hge].
  - rewrite lookup_app_l in Hlk by done.
    apply Hu, list_elem_of_lookup. eauto.
  - pose proof (lookup_lt_Some _ _ _ Hq).
    rewrite lookup_app_r, lookup_app_l in Hlk by lia.
    eapply IH; [|exact Hlk]. lia.
Qed.

Lemma gap_suffix ts u w t u' w' t' :
  Forall2 tok_ok ts w → Forall2 tok_ok ts w' →
  u ++ w ++ t = u' ++ w' ++ t' → (length u' ≤ length u)%nat → slash ∉ u →
  ∃ x, t' = x ++ t ∧ slash ∉ x.
Proof.
  intros Hw Hw' Heq Hlen Hu.
  pose proof (Forall2_length _ _ _ Hw) as Hlw. pose proof (Forall2_length _ _ _ Hw') as Hlw'.
  exists (drop (length u' + length w') (u ++ w)). split.
  - rewrite <- (drop_app_length (u' ++ w') t'), <- app_assoc, <- Heq, length_app, app_assoc.
    by rewrite drop_app_le by (rewrite length_app; lia).
  - intros Hin. destruct (decide (length u' = length u)) as [He|Hne].
    { rewrite drop_ge in Hin by (rewrite length_app; lia). set_solver. }
    apply list_elem_of_lookup in Hin as [i Hi]. rewrite lookup_drop in Hi.
    destruct (decide (length u' + length w' + i < length u)%nat).
    + rewrite lookup_app_l in Hi by done. apply Hu, list_elem_of_lookup. eauto.
    + rewrite lookup_app_r in Hi by lia.
      eapply (gap_no_slash ts u w t u' w' t'); [done..|lia|done|exact Hi].
Qed.

Lemma Glob_star_extend ts rest x t :
  slash ∉ x → Glob ((true, ts) :: rest) t → Glob ((true, ts) :: rest) (x ++ t).
Proof.
  intros Hx H. inversion H as [| |? ? u s t' Hu Hm Hr]; subst.
  rewrite app_assoc. econstructor; [set_solver|done|done].
Qed.

Lemma match_chunks_complete_wf cs name :
  wf_chunks cs → simple_pattern cs → ascii_only name →
  Glob cs name → match_chunks cs name = true.
Proof.
  intros Hwf. revert name.
  induction Hwf as [| |ts rest Hts Hwf IH]; intros name Hsim Hasc HG.
  - by inversion HG.
  - inversion HG as [| |? ? u s t Hu Hm HR]; subst. simpl in Hm. inversion HR; subst.
    simplify_eq. simpl. unfold no_slash. rewrite app_nil_r. by rewrite bool_decide_true.
  - inversion HG as [| |? ? u s t Hu Hm HR]; subst.
    inversion Hsim as [|?? Hst Hsr]; subst. simpl in Hst.
    assert (is_nil rest = true → t = []) as Hlast.
    { intros ->%is_nil_true. by inversion HR. }
    assert (∃ u' s' t', u ++ s = u' ++ s' ∧ (length u' ≤ length u)%nat ∧
      match_toks ts s' = Some t' ∧ (is_nil rest = true → t' = []) ∧
      match_chunks ((true, ts) :: rest) (u ++ s) = match_chunks rest t') as
      (u' & s' & t' & Heq & Hlen & Hm' & Hl' & ->).
    { assert (is_nil ts = false) as Hnt by (by destruct ts).
      cbn [match_chunks]. rewrite Hnt. cbn [andb].
      destruct (match_toks ts (u ++ s)) as [t0|] eqn:H0.
      - destruct (is_nil t0 || negb (is_nil rest)) eqn:Hc.
        { exists [], (u ++ s), t0. split_and!; [done|simpl; lia|done| |done].
          intros Hr. rewrite Hr, orb_false_r in Hc. by apply is_nil_true. }
        apply orb_false_elim in Hc as [Ht0 Hr%negb_false_iff].
        destruct u as [|c u]; [simpl in *; simplify_eq; by rewrite (Hlast Hr) in Ht0|].
        destruct (star_search_complete ts (is_nil rest) c u s t)
          as (u' & s' & t' & ? & ? & ? & ? & ?); [done..|].
        exists u', s', t'. split_and!; try done. simpl app. by simplify_option_eq.
      - destruct u as [|c u]; [simpl in *; congruence|].
        destruct (star_search_complete ts (is_nil rest) c u s t)
          as (u' & s' & t' & ? & ? & ? & ? & ?); [done..|].
        exists u', s', t'. split_and!; try done. simpl app. by simplify_option_eq. }
    assert (ascii_only s ∧ ascii_only s') as [Hs Hs'].
    { split; [by apply Forall_app in Hasc as []|].
      rewrite Heq in Hasc. by apply Forall_app in Hasc as []. }
    apply match_toks_simple in Hm as (w & -> & Hw); [|done..].
    apply match_toks_simple in Hm' as (w' & -> & Hw'); [|done..].
    destruct (gap_suffix ts u w t u' w' t') as (x & -> & Hx); [done..|].
    apply IH; [done|by apply Forall_app in Hs' as []|].
    inversion Hwf; subst; [|by apply Glob_star_extend..].
    inversion HR; subst. rewrite app_nil_r in *. rewrite (Hl' eq_refl). constructor.
Qed.

Lemma match_chunks_complete cs name :
  wf_pattern cs → simple_pattern cs → ascii_only name →
  Glob cs name → match_chunks cs name = true.
Proof.
  intros [Hwf|(ts & rest & -> & Hts & Hwf)] Hsim Hasc HG;
    [by apply match_chunks_complete_wf|].
  inversion HG as [|? ? s t Hm HR|]; subst. inversion Hsim as [|?? Hst Hsr]; subst.
  cbn [match_chunks andb]. rewrite Hm. pose proof Hm as (w & -> & _)%match_toks_simple; [|done..].
  assert (is_nil t || negb (is_nil rest) = true) as ->.
  { destruct rest; [|by rewrite orb_true_r]. by inversion HR. }
  apply match_chunks_complete_wf; try done. by apply Forall_app in Hasc as [].
Qed.

(** [path.Match] decides the declarative reading of a class-free pattern on ASCII
    names, and never reports a name outside it. *)
Lemma Match_sound p name : Match p name = Ok true → glob_matches p name.
Proof.
  unfold Match, glob_matches, parse. case_match eqn:Hp; [|done]. intros [= H].
  eexists; split; [done|]. apply match_chunks_sound; [|done]. by eapply parse_pattern_wf.
Qed.

Lemma Match_complete p name cs :
  parse p = Some cs → simple_pattern cs → ascii_only (bytes_of name) →
  Match p name = Ok true ↔ glob_matches p name.
Proof.
  intros Hp Hs Ha. split; [apply Match_sound|]. intros (cs' & Hp' & HG).
  unfold Match. rewrite Hp in *. simplify_eq. f_equal.
  apply match_chunks_complete; try done. by eapply parse_pattern_wf.
Qed.

(** The syntax check of a pattern does not depend on the name. *)
Lemma Match_err p name name' : is_ok (Match p name) = is_ok (Match p name').
Proof. unfold Match. by destruct (parse p). Qed.

Example Match_ex :
  Match "*.prod.internal" "db-1.prod.internal" = Ok true ∧
  Match "*.prod.internal" "a/b.prod.internal" = Ok false ∧
  Match "spiffe://corp/svc/*" "spiffe://corp/svc/billing" = Ok true ∧
  Match "spiffe://corp/svc/*" "spiffe://corp/svc/a/b" = Ok false ∧
  Match "db-[0-9]?" "db-1x" = Ok true ∧ Match "db-[^0-9]" "db-1" = Ok false ∧
  Match "a[" "" = Err ErrBadPattern ∧ Match "*[^x]a*b" "ba/ab" = Ok false.
Proof. vm_compute. done. Qed.

(** A class that matches a slash defeats the greedy search. *)
Lemma greedy_class_incomplete :
  glob_matches "*[^x]a*b" "ba/ab" ∧ Match "*[^x]a*b" "ba/ab" = Ok false.
Proof.
  split; [|by vm_compute]. eexists. split; [by vm_compute|].
  apply (Glob_star _ _ (bytes_of "ba") (bytes_of "/ab") (bytes_of "b"));
    [by vm_compute; set_solver|by vm_compute|].
  apply (Glob_star _ _ [] (bytes_of "b") []); [set_solver|by vm_compute|constructor].
Qed.

(** ** Fuel

    The fuels of the parser are never exhausted: any larger fuel gives the same
    result, so [None] always means [ErrBadPattern]. *)
Lemma decode_rune_pos s : s ≠ [] → (1 ≤ (decode_rune s).2)%nat.
Proof.
  destruct s as [|c t]; [done|intros _]. unfold decode_rune.
  repeat case_match; simpl; lia.
Qed.

Lemma get_esc_length c r t : get_esc c = Some (r, t) → (length t < length c)%nat.
Proof.
  assert (∀ u v : bytes, u ≠ [] → (let '(r, n) := decode_rune u in
    if (r =? RuneError)%N && Nat.eqb n 1 then None
    else match drop n u with [] => None | nchunk => Some (r, nchunk) end) = Some (r, t) →
    (length t < length u)%nat) as Hfin.
  { intros u _ Hu H. pose proof (decode_rune_pos u Hu) as Hn.
    destruct (decode_rune u) as [r' n]. simpl in Hn. case_match; [done|].
    destruct (drop n u) as [|x l] eqn:Hd; [done|]. simplify_eq.
    rewrite <- Hd, length_drop. destruct u; [done|]. simpl in *. lia. }
  unfold get_esc. destruct c as [|a c]; [done|].
  destruct (_ || _); [done|]. destruct (bool_decide (a = "\"%char)).
  - destruct c as [|b c]; [done|]. intros H'. apply (Hfin _ []) in H'; [|done].
    simpl in *. lia.
  - intros H'. by apply (Hfin _ []) in H'.
Qed.

Lemma parse_ranges_length n c acc rs t :
  parse_ranges n c acc = Some (rs, t) → (length t ≤ length c)%nat.
Proof.
  revert c acc. induction n as [|n IH]; intros c acc; [done|].
  unfold parse_ranges; fold parse_ranges. case_match.
  { intros [= _ <-]. destruct c; simpl; lia. }
  destruct (get_esc c) as [[lo c1]|] eqn:H1; [|done]. apply get_esc_length in H1. simpl.
  case_match.
  - destruct (get_esc (tail c1)) as [[hi c2]|] eqn:H2; [|done]. apply get_esc_length in H2.
    simpl. intros ?%IH. destruct c1; simpl in *; lia.
  - intros ?%IH. lia.
Qed.

Lemma parse_ranges_fuel n m c acc :
  (length c < n)%nat → (length c < m)%nat → parse_ranges n c acc = parse_ranges m c acc.
Proof.
  revert m c acc. induction n as [|n IH]; intros [|m] c acc Hn Hm; [lia..|].
  unfold parse_ranges; fold parse_ranges. case_match; [done|].
  destruct (get_esc c) as [[lo c1]|] eqn:H1; [|done]. apply get_esc_length in H1. simpl.
  case_match; [|by apply IH; lia].
  destruct (get_esc (tail c1)) as [[hi c2]|] eqn:H2; [|done]. apply get_esc_length in H2.
  simpl. destruct c1; simpl in *; apply IH; lia.
Qed.

Lemma chunk_toks_fuel n m c :
  (length c ≤ n)%nat → (length c ≤ m)%nat → chunk_toks n c = chunk_toks m c.
Proof.
  revert m c. induction n as [|n IH]; intros [|m] [|a c] Hn Hm; try done; simpl in *; try lia.
  case_bool_decide; [by rewrite (IH m) by lia|].
  case_bool_decide; [destruct c; [done|]; simpl in *; by rewrite (IH m) by lia|].
  case_bool_decide; [|by rewrite (IH m) by lia].
  destruct (parse_ranges _ _ _) as [[rs t2]|] eqn:Hr; [|done].
  apply parse_ranges_length in Hr. simpl. rewrite (IH m); [done|..];
    destruct c; simpl in *; repeat case_match; simpl in *; lia.
Qed.

Lemma scan_chunk_app b e p c rest : scan_chunk b e p = (c, rest) → p = c ++ rest.
Proof.
  revert b e c. induction p as [|a p IH]; simpl; intros b e c; [naive_solver|].
  case_match; [naive_solver|]. destruct (scan_chunk _ _ p) as [x y] eqn:Hs.
  intros [= <- <-]. simpl. f_equal. by eapply IH.
Qed.

Lemma drop_stars_length p : (length (drop_stars p) ≤ length p)%nat.
Proof. induction p; simpl; [lia|]. case_bool_decide; simpl; lia. Qed.

Lemma parse_pattern_fuel n m p :
  (length p ≤ n)%nat → (length p ≤ m)%nat → parse_pattern n p = parse_pattern m p.
Proof.
  revert m p. induction n as [|n IH]; intros [|m] [|a p] Hn Hm; try done; simpl in Hn, Hm; try lia.
  cbn [parse_pattern].
  destruct (scan_chunk false false (drop_stars (a :: p))) as [c rest] eqn:Hs.
  destruct (chunk_toks (length c) c); [|done]. simpl. rewrite (IH m); [done|..].
  all: enough (length rest ≤ length p)%nat by lia.
  all: pose proof (scan_chunk_app _ _ _ _ _ Hs) as Happ.
  all: assert (length (drop_stars (a :: p)) = length c + length rest)%nat as Hlen
    by (by rewrite Happ, length_app).
  all: destruct (bool_decide (a = "*"%char)) eqn:Ha;
    [simpl in Hlen; rewrite Ha in Hlen; pose proof (drop_stars_length p); lia|].
  all: rewrite drop_stars_nostar in * by done; simpl in Hlen.
  all: destruct c; [by pose proof (scan_chunk_nil (a :: p) rest Ha Hs)|simpl in Hlen; lia].
Qed.
