(* ===== verification/Keyed.v ===== *)
(** * Keyed: tables with a unique key

    The role table and the cert-principal registry are both collections of rows
    addressed by a key (a role name, a SAN).  This file states what such a table
    promises, as operations on a finite map, and the list lemmas with which the
    in-memory and SQL implementations are shown to implement it. *)

From S2P Require Import Prelude.

(** ** The abstract table *)
Section Spec.
Context {V : Type} (key : V → string) (errKey errExists errMissing : error).

Definition spec_add (v : V) : M (gmap string V) unit := λ m,
  if str_empty (key v) then (Err errKey, m) else
  match m !! key v with
  | Some _ => (Err errExists, m)
  | None => (Ok tt, <[key v := v]> m)
  end.

(** Replace the row stored under [old]; a different key is a rename, which must
    not collide with another row. *)
Definition spec_replace (old : string) (v : V) : M (gmap string V) unit := λ m,
  if str_empty (key v) then (Err errKey, m) else
  match m !! old with
  | None => (Err errMissing, m)
  | Some _ =>
      if negb (bool_decide (key v = old)) && bool_decide (is_Some (m !! key v))
      then (Err errExists, m)
      else (Ok tt, <[key v := v]> (delete old m))
  end.

Definition spec_delete (k : string) : M (gmap string V) unit := λ m,
  match m !! k with
  | None => (Err errMissing, m)
  | Some _ => (Ok tt, delete k m)
  end.
End Spec.

(** ** Lists of rows as tables *)
Section Rows.
Context {V : Type} (key : V → string).
Implicit Types (l : list V) (v : V).

Definition to_map l : gmap string V := list_to_map ((λ v, (key v, v)) <$> l).

(** The primary-key invariant. *)
Definition keys_unique l : Prop := NoDup (key <$> l).

Lemma fst_pairs l : ((λ v, (key v, v)) <$> l).*1 = key <$> l.
Proof. rewrite <- list_fmap_compose. done. Qed.

Lemma to_map_Some l k v :
  keys_unique l → to_map l !! k = Some v ↔ v ∈ l ∧ key v = k.
Proof.
  intros Hl. unfold to_map. rewrite <- elem_of_list_to_map.
  - rewrite list_elem_of_fmap. naive_solver.
  - by rewrite fst_pairs.
Qed.

Lemma to_map_None l k : to_map l !! k = None ↔ ∀ v, v ∈ l → key v ≠ k.
Proof.
  unfold to_map. rewrite <- not_elem_of_list_to_map, fst_pairs.
  rewrite list_elem_of_fmap. naive_solver.
Qed.

Lemma to_map_is_Some l k : is_Some (to_map l !! k) ↔ ∃ v, v ∈ l ∧ key v = k.
Proof.
  rewrite <- not_eq_None_Some, to_map_None. split.
  - intros H. destruct (decide (Exists (λ v, key v = k) l)) as [He|He].
    + by apply Exists_exists in He.
    + destruct H. intros v Hv Hk. apply He, Exists_exists. eauto.
  - intros (v & Hv & Hk) Hn. by eapply Hn.
Qed.

Lemma keys_unique_snoc l v :
  keys_unique l → to_map l !! key v = None → keys_unique (l ++ [v]).
Proof.
  unfold keys_unique. rewrite to_map_None. intros Hl Hv.
  rewrite fmap_app. apply NoDup_app. split_and!; [done| |apply NoDup_singleton].
  intros x (u & -> & Hu)%list_elem_of_fmap. simpl. rewrite list_elem_of_singleton.
  by apply Hv.
Qed.

Lemma to_map_snoc l v :
  keys_unique l → to_map l !! key v = None → to_map (l ++ [v]) = <[key v := v]> (to_map l).
Proof.
  intros Hl Hv. apply map_eq. intros k. apply option_eq. intros x.
  rewrite to_map_Some by (by apply keys_unique_snoc).
  rewrite to_map_None in Hv. rewrite elem_of_app, list_elem_of_singleton.
  destruct (decide (key v = k)) as [<-|Hne].
  - rewrite lookup_insert_eq. naive_solver.
  - rewrite lookup_insert_ne, to_map_Some by done. naive_solver.
Qed.

(** Deleting every row with key [k], as [DELETE … WHERE key = k] does. *)
Definition delete_rows (k : string) l : list V :=
  List.filter (λ v, negb (bool_decide (key v = k))) l.

Lemma elem_of_delete_rows k l v : v ∈ delete_rows k l ↔ v ∈ l ∧ key v ≠ k.
Proof.
  unfold delete_rows. rewrite !list_elem_of_In, List.filter_In.
  rewrite negb_true_iff, bool_decide_eq_false. done.
Qed.

Lemma keys_unique_filter (f : V → bool) l : keys_unique l → keys_unique (List.filter f l).
Proof.
  unfold keys_unique. induction l as [|v l IH]; simpl; [done|].
  rewrite NoDup_cons. intros [Hv Hl]. destruct (f v); [|by apply IH].
  simpl. apply NoDup_cons. split; [|by apply IH].
  rewrite list_elem_of_fmap in *. intros (u & Hu & Hin). apply Hv. exists u. split; [done|].
  apply list_elem_of_In, List.filter_In in Hin. apply list_elem_of_In, Hin.
Qed.

Lemma to_map_delete_rows k l :
  keys_unique l → to_map (delete_rows k l) = delete k (to_map l).
Proof.
  intros Hl. apply map_eq. intros j. apply option_eq. intros x.
  rewrite to_map_Some by (by apply keys_unique_filter). rewrite elem_of_delete_rows.
  destruct (decide (k = j)) as [<-|Hne].
  - rewrite lookup_delete_eq. naive_solver.
  - rewrite lookup_delete_ne, to_map_Some by done. naive_solver.
Qed.

Lemma delete_rows_absent k l : to_map l !! k = None → delete_rows k l = l.
Proof.
  rewrite to_map_None. intros H. unfold delete_rows. induction l as [|v l IH]; simpl; [done|].
  rewrite bool_decide_false by set_solver. simpl. f_equal. set_solver.
Qed.

(** Positional update and removal, as the in-memory store does them. *)
Lemma keys_unique_lookup l i j v u :
  keys_unique l → l !! i = Some v → l !! j = Some u → key v = key u → i = j.
Proof.
  intros Hl Hi Hj Hk. eapply (NoDup_lookup (key <$> l)); [done| |].
  - rewrite list_lookup_fmap, Hi. done.
  - rewrite list_lookup_fmap, Hj. simpl. by rewrite Hk.
Qed.

Lemma take_drop_delete_rows l i v :
  keys_unique l → l !! i = Some v → take i l ++ drop (S i) l = delete_rows (key v) l.
Proof.
  intros Hl Hi. rewrite <- (take_drop_middle l i v Hi) at 3.
  unfold delete_rows. rewrite List.filter_app. simpl. rewrite bool_decide_true by done.
  assert (∀ j u, l !! j = Some u → j ≠ i → key u ≠ key v) as Hne.
  { intros j u Hj Hji Hk. apply Hji. by eapply keys_unique_lookup. }
  assert (∀ l', (∀ u, u ∈ l' → key u ≠ key v) →
            List.filter (λ x, negb (bool_decide (key x = key v))) l' = l') as Hid.
  { induction l' as [|u l' IH]; simpl; intros Hu; [done|].
    rewrite bool_decide_false by set_solver. simpl. f_equal. set_solver. }
  simpl. rewrite !Hid; [done|..].
  - intros u (j & Hj)%list_elem_of_lookup. rewrite lookup_drop in Hj.
    eapply Hne; [done|lia].
  - intros u (j & Hj)%list_elem_of_lookup. apply lookup_take_Some in Hj as [Hj ?].
    eapply Hne; [done|lia].
Qed.

Lemma insert_delete_rows l i v w :
  keys_unique l → l !! i = Some v →
  <[i := w]> l ≡ₚ delete_rows (key v) l ++ [w].
Proof.
  intros Hl Hi. rewrite <- (take_drop_delete_rows l i v Hl Hi).
  pose proof (lookup_lt_Some _ _ _ Hi). rewrite insert_take_drop by done.
  rewrite <- app_assoc. f_equiv. apply Permutation_cons_append.
Qed.

Lemma keys_unique_perm l1 l2 : l1 ≡ₚ l2 → keys_unique l1 → keys_unique l2.
Proof. unfold keys_unique. by intros ->. Qed.

Lemma to_map_perm l1 l2 : keys_unique l1 → l1 ≡ₚ l2 → to_map l1 = to_map l2.
Proof.
  intros H1 Hp. assert (keys_unique l2) as H2 by (by eapply keys_unique_perm).
  apply map_eq. intros k. apply option_eq. intros x. rewrite !to_map_Some by done.
  by rewrite Hp.
Qed.

(** A rename or in-place update: delete the old row, insert the new one. *)
Lemma delete_insert_rows k l w :
  keys_unique l → (key w = k ∨ to_map l !! key w = None) →
  keys_unique (delete_rows k l ++ [w]) ∧
  to_map (delete_rows k l ++ [w]) = <[key w := w]> (delete k (to_map l)).
Proof.
  intros Hl Hw.
  assert (keys_unique (delete_rows k l)) as Hd by (by apply keys_unique_filter).
  assert (to_map (delete_rows k l) !! key w = None) as Hn.
  { rewrite to_map_delete_rows by done.
    destruct Hw as [->|Hw]; [apply lookup_delete_eq|].
    destruct (decide (k = key w)) as [->|]; [apply lookup_delete_eq|].
    by rewrite lookup_delete_ne. }
  split; [by apply keys_unique_snoc|]. rewrite to_map_snoc by done.
  by rewrite to_map_delete_rows.
Qed.
End Rows.
