(* ===== verification/Policy.v ===== *)
(** * Policy: the role table and the policy engine

    Models [internal/server/policy/policy.go]: [Role], the in-memory store with
    its by-group index, and the [Engine] that narrows user, host and X.509
    requests to what the caller's roles allow. *)

From S2P Require Import Prelude Glob Keyed.

(** ** Roles *)

Record Role := mkRole {
  Name : string;
  GroupClaim : string;
  AllowedPrincipals : list string;
  HostPatterns : list string;
  SPIFFEPatterns : list string;
  MaxUserCertTTLSeconds : Z;
  MaxHostCertTTLSeconds : Z;
  MaxX509CertTTLSeconds : Z;
  (* a nil map and an empty map are the same value here *)
  DefaultExtensions : gmap string string;
}.

#[export] Instance Role_eq_dec : EqDecision Role.
Proof. solve_decision. Defined.

Definition zeroRole : Role := mkRole "" "" [] [] [] 0 0 0 ∅.

(** ** The store interface

    [Store]: what the engine asks of a role table.  [RolesForGroups] may fail
    closed in the database backends (it then returns no role), hence the
    one-sided law; [ps_table] is the set of configured roles. *)
Class Store (S : Type) := {
  RolesForGroups : S → list string → list Role;
  All : S → list Role;
}.

Class StoreLaws (S : Type) `{Store S} := {
  ps_valid : S → Prop;
  ps_table : S → list Role;
  ps_sound s groups r :
    ps_valid s → r ∈ RolesForGroups s groups → r ∈ ps_table s ∧ GroupClaim r ∈ groups;
}.

(** ** InMemoryStore *)

Module InMemoryStore.

Record t := mk {
  byGroup : gmap string (list Role);
  all : list Role;
}.

(** One step of the index loop: [idx[r.GroupClaim] = append(idx[r.GroupClaim], r)]. *)
Definition index_add (idx : gmap string (list Role)) (r : Role) : gmap string (list Role) :=
  <[GroupClaim r := default [] (idx !! GroupClaim r) ++ [r]]> idx.

Definition index (roles : list Role) : gmap string (list Role) :=
  foldl index_add ∅ roles.

Definition replace (roles : list Role) (s : t) : t := mk (index roles) roles.

Definition NewInMemoryStore (roles : list Role) : t := replace roles (mk ∅ []).

Definition ReplaceAll (roles : list Role) (s : t) : t := replace roles s.

Fixpoint roles_for_groups (s : t) (groups : list string) (seen : gset string)
    (out : list Role) : list Role :=
  match groups with
  | [] => out
  | g :: gs =>
      if bool_decide (g ∈ seen) then roles_for_groups s gs seen out
      else roles_for_groups s gs ({[g]} ∪ seen) (out ++ default [] (byGroup s !! g))
  end.

Definition RolesForGroups (s : t) (groups : list string) : list Role :=
  roles_for_groups s groups ∅ [].

Definition All (s : t) : list Role := all s.

(** [ByName]: the first role with that name. *)
Definition ByName (s : t) (name : string) : option Role :=
  List.find (λ r, bool_decide (Name r = name)) (all s).

Definition ErrRoleExists : error :=
  ErrSentinel "policy.ErrRoleExists" "role with that name already exists".
Definition ErrRoleNotFound : error :=
  ErrSentinel "policy.ErrRoleNotFound" "role not found".
Definition errNameRequired : error := ErrNew "role name is required".

Definition replaceLocked (roles : list Role) (s : t) : t := mk (index roles) roles.

Definition Add (role : Role) : M t unit := λ s,
  if str_empty (Name role) then (Err errNameRequired, s) else
  if existsb (λ r, bool_decide (Name r = Name role)) (all s) then (Err ErrRoleExists, s) else
  (Ok tt, replaceLocked (all s ++ [role]) s).

(** Position of the first role registered under [name]. *)
Definition find_index (name : string) (roles : list Role) : option nat :=
  fst <$> list_find (λ r, Name r = name) roles.

Definition Replace (oldName : string) (newRole : Role) : M t unit := λ s,
  if str_empty (Name newRole) then (Err errNameRequired, s) else
  match find_index oldName (all s) with
  | None => (Err ErrRoleNotFound, s)
  | Some idx =>
      let collide := existsb (λ '(i, r), negb (Nat.eqb i idx) && bool_decide (Name r = Name newRole))
                       (imap pair (all s)) in
      if negb (bool_decide (Name newRole = oldName)) && collide
      then (Err ErrRoleExists, s)
      else (Ok tt, replaceLocked (<[idx := newRole]> (all s)) s)
  end.

Definition Delete (name : string) : M t unit := λ s,
  match find_index name (all s) with
  | None => (Err ErrRoleNotFound, s)
  | Some idx => (Ok tt, replaceLocked (take idx (all s) ++ drop (S idx) (all s)) s)
  end.

End InMemoryStore.

#[export] Instance InMemoryStore_Store : Store InMemoryStore.t := {
  RolesForGroups := InMemoryStore.RolesForGroups;
  All := InMemoryStore.All;
}.

(** ** The engine *)

Definition ErrNoRole : error :=
  ErrSentinel "policy.ErrNoRole" "no role matches the caller's groups".
Definition ErrEmptyDecision : error :=
  ErrSentinel "policy.ErrEmptyDecision" "role policy denies every requested principal".

Module UserCertDecision.
Record t := mk { Principals : list string; TTL : duration; Extensions : gmap string string }.
End UserCertDecision.

Module HostCertDecision.
Record t := mk { Principals : list string; TTL : duration }.
End HostCertDecision.

(** [UserCertRequest] and [HostCertRequest] have the same fields. *)
Module CertRequest.
Record t := mk {
  RequestedPrincipals : list string; RequestedTTL : duration; EndpointMaxTTL : duration }.
End CertRequest.

Module X509CertRequest.
Record t := mk {
  RequestedSPIFFEURI : string; RequestedTTL : duration; EndpointMaxTTL : duration }.
End X509CertRequest.

Module X509CertDecision.
Record t := mk { SPIFFEURI : string; TTL : duration }.
End X509CertDecision.

Inductive capField := userCapField | hostCapField | x509CapField.

Definition cap_seconds (field : capField) (r : Role) : Z :=
  match field with
  | userCapField => MaxUserCertTTLSeconds r
  | hostCapField => MaxHostCertTTLSeconds r
  | x509CapField => MaxX509CertTTLSeconds r
  end.

(** The ceiling one role contributes. *)
Definition role_cap (endpoint : duration) (field : capField) (r : Role) : duration :=
  let eff := seconds_to_duration (cap_seconds field r) in
  if (eff =? 0) || (endpoint <? eff) then endpoint else eff.

Definition ttlCap (roles : list Role) (endpoint : duration) (field : capField) : duration :=
  foldl (λ out r,
    let eff := role_cap endpoint field r in
    if out <? eff then eff else out) 0 roles.

Fixpoint matchesAny (host : string) (patterns : list string) : bool :=
  match patterns with
  | [] => false
  | p :: ps =>
      match Match p host with
      | Ok true => true
      | _ => matchesAny host ps
      end
  end.

Definition sortedKeys (m : gset string) : list string := sort_strings (elements m).

(** The pattern loops of [EvaluateHostCert] and [EvaluateX509Cert]: collect the
    patterns of every role, failing on the first one [path.Match] refuses. *)
Fixpoint collect_role (kind role : string) (ps : list string) (acc : list string)
    : result (list string) :=
  match ps with
  | [] => Ok acc
  | p :: ps =>
      match Match p "" with
      | Err e => Err (ErrWrap ("role " +:+ fmt_q role +:+ " has invalid " +:+ kind +:+
                               " pattern " +:+ fmt_q p +:+ ": ") e "")
      | Ok _ => collect_role kind role ps (acc ++ [p])
      end
  end.

Fixpoint collect_patterns (kind : string) (pats : Role → list string) (roles : list Role)
    (acc : list string) : result (list string) :=
  match roles with
  | [] => Ok acc
  | r :: rs => acc' <-r collect_role kind (Name r) (pats r) acc;; collect_patterns kind pats rs acc'
  end.

Section Engine.
Context {S : Type} `{Store S}.

Definition noRole (groups : list string) : error :=
  ErrWrap "" ErrNoRole (": groups=" +:+ fmt_strings groups).

Definition allowed_set (roles : list Role) : gset string :=
  foldl (λ acc r, foldl (λ acc p, {[p]} ∪ acc) acc (AllowedPrincipals r)) ∅ roles.

Definition EvaluateUserCert (st : S) (groups : list string) (req : CertRequest.t)
    : result UserCertDecision.t :=
  let roles := RolesForGroups st groups in
  match roles with
  | [] => Err (noRole groups)
  | _ =>
      let allowed := allowed_set roles in
      let out := List.filter (λ p, bool_decide (p ∈ allowed)) (CertRequest.RequestedPrincipals req) in
      match out with
      | [] => Err (ErrWrap "" ErrEmptyDecision
                    (": requested=" +:+ fmt_strings (CertRequest.RequestedPrincipals req) +:+
                     " allowed=" +:+ fmt_strings (sortedKeys allowed)))
      | _ =>
          let maxTTL := ttlCap roles (CertRequest.EndpointMaxTTL req) userCapField in
          let ttl := Z.min (CertRequest.RequestedTTL req) maxTTL in
          let exts := foldl (λ acc r, DefaultExtensions r ∪ acc) ∅ roles in
          Ok (UserCertDecision.mk out ttl exts)
      end
  end.

Definition EvaluateHostCert (st : S) (groups : list string) (req : CertRequest.t)
    : result HostCertDecision.t :=
  let roles := RolesForGroups st groups in
  match roles with
  | [] => Err (noRole groups)
  | _ =>
      patterns <-r collect_patterns "host" HostPatterns roles [];;
      let out := List.filter (λ p, matchesAny p patterns) (CertRequest.RequestedPrincipals req) in
      match out with
      | [] => Err (ErrWrap "" ErrEmptyDecision
                    (": requested=" +:+ fmt_strings (CertRequest.RequestedPrincipals req) +:+
                     " patterns=" +:+ fmt_strings patterns))
      | _ =>
          let maxTTL := ttlCap roles (CertRequest.EndpointMaxTTL req) hostCapField in
          Ok (HostCertDecision.mk out (Z.min (CertRequest.RequestedTTL req) maxTTL))
      end
  end.

Definition EvaluateX509Cert (st : S) (groups : list string) (req : X509CertRequest.t)
    : result X509CertDecision.t :=
  let roles := RolesForGroups st groups in
  match roles with
  | [] => Err (noRole groups)
  | _ =>
      patterns <-r collect_patterns "spiffe" SPIFFEPatterns roles [];;
      if negb (matchesAny (X509CertRequest.RequestedSPIFFEURI req) patterns)
      then Err (ErrWrap "" ErrEmptyDecision
                 (": requested=" +:+ X509CertRequest.RequestedSPIFFEURI req +:+
                  " patterns=" +:+ fmt_strings patterns))
      else
        let maxTTL := ttlCap roles (X509CertRequest.EndpointMaxTTL req) x509CapField in
        Ok (X509CertDecision.mk (X509CertRequest.RequestedSPIFFEURI req)
              (Z.min (X509CertRequest.RequestedTTL req) maxTTL))
  end.

End Engine.

(** ** The in-memory store

    [indexed]: the by-group index is the index of the canonical slice.
    [unique]: no two roles share a name. *)

Module InMemoryFacts.
Import InMemoryStore.

Definition indexed (s : t) : Prop := byGroup s = index (all s).
Definition unique (s : t) : Prop := keys_unique Name (all s).

(** The table a store represents. *)
Definition table (s : t) : gmap string Role := to_map Name (all s).

Lemma ByName_table s name : unique s → ByName s name = table s !! name.
Proof.
  intros Hu. unfold ByName, table. destruct (List.find _ _) as [r|] eqn:Hf.
  - apply List.find_some in Hf as [Hin Hn%bool_decide_eq_true]. symmetry.
    apply to_map_Some; [done|]. by rewrite list_elem_of_In.
  - symmetry. apply to_map_None. intros r Hr. apply list_elem_of_In in Hr.
    by apply (List.find_none _ _ Hf), bool_decide_eq_false in Hr.
Qed.

Lemma default_index_add idx r g :
  default [] (index_add idx r !! g) =
  default [] (idx !! g) ++ (if bool_decide (GroupClaim r = g) then [r] else []).
Proof.
  unfold index_add. case_bool_decide as Hg.
  - subst. by rewrite lookup_insert_eq.
  - by rewrite lookup_insert_ne, app_nil_r.
Qed.

Lemma default_index roles idx g :
  default [] (foldl index_add idx roles !! g) =
  default [] (idx !! g) ++ List.filter (λ r, bool_decide (GroupClaim r = g)) roles.
Proof.
  revert idx. induction roles as [|r roles IH]; intros idx; simpl; [by rewrite app_nil_r|].
  rewrite IH, default_index_add, <- app_assoc. f_equal. by case_bool_decide.
Qed.

Lemma lookup_index s g :
  indexed s →
  default [] (byGroup s !! g) = List.filter (λ r, bool_decide (GroupClaim r = g)) (all s).
Proof. intros ->. unfold index. by rewrite default_index, lookup_empty. Qed.

Lemma filter_split (f g : Role → bool) l :
  (∀ r, ¬ (f r ∧ g r)) →
  List.filter (λ r, f r || g r) l ≡ₚ List.filter f l ++ List.filter g l.
Proof.
  intros Hd. induction l as [|r l IH]; simpl; [done|]. specialize (Hd r).
  destruct (f r), (g r); simpl; rewrite ?IH; [naive_solver|done| |done].
  apply Permutation_middle.
Qed.

Lemma roles_for_groups_perm s groups seen out :
  indexed s →
  roles_for_groups s groups seen out ≡ₚ
  out ++ List.filter (λ r, bool_decide (GroupClaim r ∈ groups) &&
                           negb (bool_decide (GroupClaim r ∈ seen))) (all s).
Proof.
  intros Hs. revert seen out.
  induction groups as [|g gs IH]; intros seen out; cbn [roles_for_groups].
  { rewrite (List.filter_ext _ (λ _, false)).
    - induction (all s); [by rewrite app_nil_r|done].
    - intros r. by rewrite bool_decide_false by set_solver. }
  case_bool_decide as Hg.
  - rewrite IH. f_equiv. perm_eq; apply List.filter_ext. intros r.
    destruct (decide (GroupClaim r = g)) as [->|Hne].
    + by rewrite (bool_decide_true (g ∈ seen)), !andb_false_r.
    + f_equal. apply bool_decide_ext. set_solver.
  - rewrite IH, lookup_index, <- app_assoc by done. f_equiv.
    rewrite <- filter_split.
    + perm_eq; apply List.filter_ext. intros r.
      destruct (decide (GroupClaim r = g)) as [->|Hne].
      * rewrite !(bool_decide_true (g = g)), (bool_decide_true (g ∈ g :: gs)) by set_solver.
        by rewrite (bool_decide_false (g ∈ seen)).
      * rewrite (bool_decide_false (GroupClaim r = g)) by done. simpl. f_equal;
          [apply bool_decide_ext; set_solver|]. f_equal. apply bool_decide_ext. set_solver.
    + intros r [H1%bool_decide_unpack H2]. apply andb_prop_elim in H2 as [_ H2].
      rewrite bool_decide_true in H2 by set_solver. done.
Qed.

Lemma elem_of_RolesForGroups s groups r :
  indexed s → r ∈ RolesForGroups s groups ↔ r ∈ all s ∧ GroupClaim r ∈ groups.
Proof.
  intros Hs. unfold RolesForGroups. rewrite roles_for_groups_perm by done. simpl.
  rewrite !list_elem_of_In, List.filter_In, andb_true_iff, bool_decide_eq_true.
  rewrite negb_true_iff, bool_decide_eq_false, <- !list_elem_of_In. set_solver.
Qed.

Lemma find_index_Some name l i :
  find_index name l = Some i ↔
  ∃ r, l !! i = Some r ∧ Name r = name ∧ ∀ j r', l !! j = Some r' → (j < i)%nat → Name r' ≠ name.
Proof.
  unfold find_index. rewrite fmap_Some. split.
  - intros ([? r] & (? & ? & ?)%list_find_Some & ->). naive_solver.
  - intros (r & ? & ? & ?). exists (i, r). split; [|done]. by apply list_find_Some.
Qed.

Lemma find_index_None name l : find_index name l = None ↔ to_map Name l !! name = None.
Proof.
  unfold find_index. rewrite fmap_None, list_find_None, to_map_None, Forall_forall. done.
Qed.

Lemma existsb_names name l :
  existsb (λ r, bool_decide (Name r = name)) l = bool_decide (is_Some (to_map Name l !! name)).
Proof.
  apply Bool.eq_iff_eq_true. rewrite bool_decide_eq_true, to_map_is_Some, List.existsb_exists.
  setoid_rewrite bool_decide_eq_true. by setoid_rewrite <- list_elem_of_In.
Qed.

Lemma collide_names idx (l : list Role) old name :
  keys_unique Name l → find_index old l = Some idx → name ≠ old →
  existsb (λ '(i, r), negb (Nat.eqb i idx) && bool_decide (Name r = name)) (imap pair l) =
  bool_decide (is_Some (to_map Name l !! name)).
Proof.
  intros Hl (r0 & Hidx & Hr0 & _)%find_index_Some Hne.
  apply Bool.eq_iff_eq_true. rewrite bool_decide_eq_true, to_map_is_Some, List.existsb_exists.
  split.
  - intros ([i r] & Hin & [_ Hn%bool_decide_eq_true]%andb_prop).
    apply list_elem_of_In, elem_of_lookup_imap in Hin as (j & r' & [= <- <-] & Hj).
    exists r. split; [|done]. apply list_elem_of_lookup. eauto.
  - intros (r & [i Hi]%list_elem_of_lookup & Hn). exists (i, r). split.
    + apply list_elem_of_In, elem_of_lookup_imap. eauto.
    + rewrite bool_decide_true, andb_true_r by done. apply negb_true_iff, Nat.eqb_neq.
      intros ->. naive_solver.
Qed.
End InMemoryFacts.

(** *** The store implements the abstract table *)
Module InMemoryRefinement.
Import InMemoryStore InMemoryFacts.

(** Outcome of an operation on a store against the same operation on the table
    it represents: same result, related states, invariants kept. *)
Definition simulates (op : M t unit) (spec : M (gmap string Role) unit) : Prop :=
  ∀ s, indexed s → unique s →
  let '(r, s') := op s in let '(r', m') := spec (table s) in
  r = r' ∧ table s' = m' ∧ indexed s' ∧ unique s' ∧ (is_ok r = false → s' = s).

Lemma Add_simulates role :
  simulates (Add role) (spec_add Name errNameRequired ErrRoleExists role).
Proof.
  intros s Hi Hu. unfold Add, spec_add. destruct (str_empty (Name role)); [done|].
  rewrite existsb_names. fold (table s).
  destruct (table s !! Name role) as [r|] eqn:Hr; [rewrite bool_decide_true by done; done|].
  rewrite bool_decide_false by (intros [? ?]; done).
  split_and!; [done|by apply to_map_snoc|done|by apply keys_unique_snoc|done].
Qed.

Lemma Delete_simulates name :
  simulates (Delete name) (spec_delete ErrRoleNotFound name).
Proof.
  intros s Hi Hu. unfold Delete, spec_delete.
  destruct (find_index name (all s)) as [idx|] eqn:Hf.
  - apply find_index_Some in Hf as (r & Hr & <- & _).
    assert (table s !! Name r = Some r) as ->.
    { apply to_map_Some; [done|]. split; [|done]. apply list_elem_of_lookup. eauto. }
    rewrite (take_drop_delete_rows Name _ _ r) by done. unfold table, unique; simpl.
    rewrite to_map_delete_rows by done.
    split_and!; [done|done|done|by apply keys_unique_filter|done].
  - apply find_index_None in Hf. unfold table. by rewrite Hf.
Qed.

Lemma Replace_simulates old new :
  simulates (Replace old new)
    (spec_replace Name errNameRequired ErrRoleExists ErrRoleNotFound old new).
Proof.
  intros s Hi Hu. unfold Replace, spec_replace. destruct (str_empty (Name new)); [done|].
  destruct (find_index old (all s)) as [idx|] eqn:Hf.
  - pose proof Hf as (r & Hr & Hro & _)%find_index_Some.
    assert (table s !! old = Some r) as ->.
    { apply to_map_Some; [done|]. split; [|done]. apply list_elem_of_lookup. eauto. }
    set (c1 := negb (bool_decide (Name new = old)) && _).
    set (c2 := negb (bool_decide (Name new = old)) && _).
    assert (c1 = c2) as <-.
    { unfold c1, c2. case_bool_decide; simpl; [done|]. by rewrite (collide_names _ _ old). }
    destruct c1 eqn:Hc; [done|].
    assert (Name new = old ∨ table s !! Name new = None) as Hnew.
    { unfold c1 in Hc. case_bool_decide; [by left|]. simpl in Hc. right.
      rewrite (collide_names _ _ old) in Hc by done.
      by apply bool_decide_eq_false, eq_None_not_Some in Hc. }
    pose proof (insert_delete_rows Name _ _ r new Hu Hr) as Hp. rewrite Hro in Hp.
    destruct (delete_insert_rows Name old (all s) new) as [Hd1 Hd2]; [done|done|].
    assert (keys_unique Name (<[idx:=new]> (all s))) as Hk
      by (by eapply keys_unique_perm; [symmetry|]).
    split_and!; [done| |done|done|done]. unfold table; simpl.
    by rewrite (to_map_perm Name _ _ Hk Hp).
  - apply find_index_None in Hf. unfold table. by rewrite Hf.
Qed.
End InMemoryRefinement.

#[export] Instance InMemoryStore_laws : StoreLaws InMemoryStore.t.
Proof.
  refine {| ps_valid := InMemoryFacts.indexed; ps_table := InMemoryStore.all |}.
  intros s groups r Hs Hr. by apply InMemoryFacts.elem_of_RolesForGroups in Hr.
Defined.

(** ** TTL caps *)

Lemma ttlCap_fold roles endpoint field :
  ttlCap roles endpoint field =
  foldl (λ out r, Z.max out (role_cap endpoint field r)) 0 roles.
Proof.
  unfold ttlCap. generalize 0. induction roles as [|r rs IH]; intros z; simpl; [done|].
  rewrite IH. assert ((if z <? role_cap endpoint field r then role_cap endpoint field r else z) =
          Z.max z (role_cap endpoint field r)) as -> by (case_match; lia). done.
Qed.

Lemma foldl_max_le (f : Role → Z) l z b :
  foldl (λ out r, Z.max out (f r)) z l ≤ b ↔ z ≤ b ∧ ∀ r, r ∈ l → f r ≤ b.
Proof.
  revert z. induction l as [|r l IH]; intros z; simpl.
  { split; [|by intros []]. intros Hz. split; [done|]. by intros r ?%elem_of_nil. }
  rewrite IH. split.
  - intros [Hz Hl]. split; [lia|]. intros r' [->|Hr']%elem_of_cons; [lia|auto].
  - intros [Hz Hl]. split; [apply Z.max_lub; [done|apply Hl; set_solver]|].
    intros r' Hr'. apply Hl. set_solver.
Qed.

Lemma role_cap_le endpoint field r : 0 ≤ endpoint → role_cap endpoint field r ≤ endpoint.
Proof. intros. unfold role_cap. destruct (_ || _) eqn:H1; lia. Qed.

Lemma ttlCap_le roles endpoint field b :
  ttlCap roles endpoint field ≤ b ↔ 0 ≤ b ∧ ∀ r, r ∈ roles → role_cap endpoint field r ≤ b.
Proof. rewrite ttlCap_fold. apply foldl_max_le. Qed.

Lemma ttlCap_role roles endpoint field r :
  r ∈ roles → role_cap endpoint field r ≤ ttlCap roles endpoint field.
Proof. intros Hr. by apply (ttlCap_le roles endpoint field); [lia|]. Qed.

Lemma ttlCap_nonneg roles endpoint field : 0 ≤ ttlCap roles endpoint field.
Proof. by apply (ttlCap_le roles endpoint field (ttlCap roles endpoint field)). Qed.

Lemma ttlCap_endpoint roles endpoint field : 0 ≤ endpoint → ttlCap roles endpoint field ≤ endpoint.
Proof. intros. apply ttlCap_le. split; [done|]. intros. by apply role_cap_le. Qed.

Lemma ttlCap_mono roles roles' endpoint field :
  roles ⊆ roles' → ttlCap roles endpoint field ≤ ttlCap roles' endpoint field.
Proof.
  intros Hsub. apply ttlCap_le. split; [apply ttlCap_nonneg|].
  intros r Hr. by apply ttlCap_role, Hsub.
Qed.

(** ** The engine's decisions *)

Lemma elem_of_allowed_set roles p :
  p ∈ allowed_set roles ↔ ∃ r, r ∈ roles ∧ p ∈ AllowedPrincipals r.
Proof.
  unfold allowed_set.
  assert (∀ ps (acc : gset string), p ∈ foldl (λ acc p, {[p]} ∪ acc) acc ps ↔ p ∈ ps ∨ p ∈ acc) as Hin.
  { induction ps as [|q ps IH]; intros acc; simpl; [set_solver|]. rewrite IH. set_solver. }
  assert (∀ acc : gset string,
    p ∈ foldl (λ acc r, foldl (λ acc p, {[p]} ∪ acc) acc (AllowedPrincipals r)) acc roles ↔
    p ∈ acc ∨ ∃ r, r ∈ roles ∧ p ∈ AllowedPrincipals r) as Hout.
  { induction roles as [|r rs IH]; intros acc; simpl.
    - split; [by left|]. intros [?|(r & Hr & _)]; [done|]. by apply elem_of_nil in Hr.
    - rewrite IH, Hin. setoid_rewrite elem_of_cons. naive_solver. }
  rewrite Hout. set_solver.
Qed.

Lemma merged_extensions roles (acc : gmap string string) k v :
  foldl (λ acc r, DefaultExtensions r ∪ acc) acc roles !! k = Some v →
  acc !! k = Some v ∨ ∃ r, r ∈ roles ∧ DefaultExtensions r !! k = Some v.
Proof.
  revert acc. induction roles as [|r rs IH]; intros acc; simpl; [by left|].
  intros [H|(r' & ? & ?)]%IH; [|right; exists r'; split; [by right|done]].
  apply lookup_union_Some_raw in H as [H|[_ H]]; [|by left].
  right. exists r. split; [by left|done].
Qed.

Lemma elem_of_filter_bool {A} (f : A → bool) l x : x ∈ List.filter f l ↔ x ∈ l ∧ f x = true.
Proof. by rewrite !list_elem_of_In, List.filter_In. Qed.

Lemma filter_bool_sublist {A} (f : A → bool) l : List.filter f l `sublist_of` l.
Proof. induction l as [|x l IH]; simpl; [done|]. destruct (f x); by constructor. Qed.

Lemma collect_role_spec kind name ps acc res :
  collect_role kind name ps acc = Ok res →
  res = acc ++ ps ∧ ∀ p, p ∈ ps → is_Some (parse p).
Proof.
  revert acc. induction ps as [|p ps IH]; intros acc; simpl.
  { intros [= ->]. rewrite app_nil_r. split; [done|]. by intros ? []%elem_of_nil. }
  unfold Match at 1. destruct (parse p) as [cs|] eqn:Hp; [|done]. intros [-> Hps]%IH.
  rewrite <- app_assoc. split; [done|]. intros q [->|Hq]%elem_of_cons; eauto.
Qed.

Lemma collect_patterns_spec kind pats roles acc res :
  collect_patterns kind pats roles acc = Ok res →
  res = acc ++ concat (pats <$> roles) ∧
  ∀ r p, r ∈ roles → p ∈ pats r → is_Some (parse p).
Proof.
  revert acc. induction roles as [|r rs IH]; intros acc; simpl.
  { intros [= ->]. rewrite app_nil_r. split; [done|]. by intros ? ? []%elem_of_nil. }
  intros (acc' & [-> Hps]%collect_role_spec & [-> Hrs]%IH)%rbind_Ok.
  rewrite app_assoc. split; [done|]. intros r' p [->|Hr]%elem_of_cons; eauto.
Qed.

Lemma collect_role_err kind name ps acc p :
  p ∈ ps → parse p = None →
  ∃ e, collect_role kind name ps acc = Err e ∧ err_is e "path.ErrBadPattern" = true.
Proof.
  intros Hp Hbad. revert acc. induction ps as [|q ps IH]; intros acc; simpl.
  { by apply elem_of_nil in Hp. }
  unfold Match at 1. destruct (parse q) as [cs|] eqn:Hq.
  - apply IH. apply elem_of_cons in Hp as [->|Hp]; [congruence|done].
  - by eexists.
Qed.

Lemma collect_patterns_err kind pats roles acc r p :
  r ∈ roles → p ∈ pats r → parse p = None →
  ∃ e, collect_patterns kind pats roles acc = Err e ∧ err_is e "path.ErrBadPattern" = true.
Proof.
  intros Hr Hp Hbad. revert acc. induction roles as [|q rs IH]; intros acc; simpl.
  { by apply elem_of_nil in Hr. }
  apply elem_of_cons in Hr as [<-|Hr].
  - destruct (collect_role_err kind (Name r) (pats r) acc p Hp Hbad) as (e & -> & He).
    by exists e.
  - destruct (collect_role _ _ _ _) as [acc'|e] eqn:Hc; simpl; [by apply IH|].
    exists e. split; [done|]. clear IH. revert acc Hc.
    induction (pats q) as [|p' ps IH]; intros acc; simpl; [done|].
    unfold Match at 1. destruct (parse p'); [apply IH|]. by intros [= <-].
Qed.

Lemma matchesAny_spec host ps :
  matchesAny host ps = true ↔ ∃ p, p ∈ ps ∧ Match p host = Ok true.
Proof.
  induction ps as [|p ps IH]; simpl.
  { split; [done|]. by intros (p & ?%elem_of_nil & _). }
  setoid_rewrite elem_of_cons.
  destruct (Match p host) as [[]|] eqn:Hm; rewrite ?IH.
  1: by split; [intros _; exists p; split; [left|]|].
  all: split; [intros (q & ? & ?); exists q; split; [by right|done]|].
  all: intros (q & [->|?] & ?); [congruence|by exists q].
Qed.

Section EngineTheorems.
Context {S : Type} `{StoreLaws S}.

Lemma user_decision_shape st groups req d :
  EvaluateUserCert st groups req = Ok d →
  UserCertDecision.Principals d ≠ [] ∧
  UserCertDecision.Principals d =
    List.filter (λ p, bool_decide (p ∈ allowed_set (RolesForGroups st groups)))
      (CertRequest.RequestedPrincipals req) ∧
  UserCertDecision.TTL d =
    Z.min (CertRequest.RequestedTTL req)
      (ttlCap (RolesForGroups st groups) (CertRequest.EndpointMaxTTL req) userCapField) ∧
  UserCertDecision.Extensions d =
    foldl (λ acc r, DefaultExtensions r ∪ acc) ∅ (RolesForGroups st groups).
Proof.
  unfold EvaluateUserCert. destruct (RolesForGroups st groups) as [|r0 rs]; [done|].
  destruct (List.filter _ _) as [|p ps] eqn:Hf; [done|]. intros [= <-]. simpl. done.
Qed.

Lemma host_decision_shape st groups req d :
  EvaluateHostCert st groups req = Ok d →
  ∃ patterns,
  collect_patterns "host" HostPatterns (RolesForGroups st groups) [] = Ok patterns ∧
  HostCertDecision.Principals d ≠ [] ∧
  HostCertDecision.Principals d =
    List.filter (λ p, matchesAny p patterns) (CertRequest.RequestedPrincipals req) ∧
  HostCertDecision.TTL d =
    Z.min (CertRequest.RequestedTTL req)
      (ttlCap (RolesForGroups st groups) (CertRequest.EndpointMaxTTL req) hostCapField).
Proof.
  unfold EvaluateHostCert. destruct (RolesForGroups st groups) as [|r0 rs]; [done|].
  intros (patterns & Hc & Hd)%rbind_Ok. exists patterns. split; [done|].
  destruct (List.filter _ _) as [|p ps] eqn:Hf; [done|]. injection Hd as <-. done.
Qed.

Lemma x509_decision_shape st groups req d :
  EvaluateX509Cert st groups req = Ok d →
  ∃ patterns,
  collect_patterns "spiffe" SPIFFEPatterns (RolesForGroups st groups) [] = Ok patterns ∧
  matchesAny (X509CertRequest.RequestedSPIFFEURI req) patterns = true ∧
  X509CertDecision.SPIFFEURI d = X509CertRequest.RequestedSPIFFEURI req ∧
  X509CertDecision.TTL d =
    Z.min (X509CertRequest.RequestedTTL req)
      (ttlCap (RolesForGroups st groups) (X509CertRequest.EndpointMaxTTL req) x509CapField).
Proof.
  unfold EvaluateX509Cert. destruct (RolesForGroups st groups) as [|r0 rs]; [done|].
  intros (patterns & Hc & Hd)%rbind_Ok. exists patterns. split; [done|].
  destruct (matchesAny _ _); [|done]. injection Hd as <-. done.
Qed.

(** The patterns collected from the matching roles, read back. *)
Lemma collected_pattern kind pats st groups patterns p host :
  ps_valid st →
  collect_patterns kind pats (RolesForGroups st groups) [] = Ok patterns →
  p ∈ patterns → Match p host = Ok true →
  ∃ r, r ∈ ps_table st ∧ GroupClaim r ∈ groups ∧ p ∈ pats r ∧ glob_matches p host.
Proof.
  intros Hst Hc Hp Hm. apply collect_patterns_spec in Hc as [-> _].
  simpl in Hp. apply list_elem_of_In, List.in_concat in Hp as (l & Hl & Hp).
  apply list_elem_of_In, list_elem_of_fmap in Hl as (r & -> & Hr).
  apply list_elem_of_In in Hp.
  destruct (ps_sound _ _ _ Hst Hr). exists r. split_and!; [done..|by apply Match_sound].
Qed.

(** A user certificate never carries more than the caller's roles grant.
    Whatever the role table, the principals of a decision are exactly the
    requested ones (in request order) that some role of the caller's groups
    allows, and there is at least one; every extension comes from such a role; the
    TTL exceeds neither the request nor the endpoint maximum. *)
Theorem user_cert_authorised st groups req d :
  ps_valid st → 0 ≤ CertRequest.EndpointMaxTTL req →
  EvaluateUserCert st groups req = Ok d →
  UserCertDecision.Principals d ≠ [] ∧
  UserCertDecision.Principals d `sublist_of` CertRequest.RequestedPrincipals req ∧
  (∀ p, p ∈ UserCertDecision.Principals d →
     ∃ r, r ∈ ps_table st ∧ GroupClaim r ∈ groups ∧ p ∈ AllowedPrincipals r) ∧
  (∀ p r, p ∈ CertRequest.RequestedPrincipals req → r ∈ RolesForGroups st groups →
     p ∈ AllowedPrincipals r → p ∈ UserCertDecision.Principals d) ∧
  (∀ k v, UserCertDecision.Extensions d !! k = Some v →
     ∃ r, r ∈ ps_table st ∧ GroupClaim r ∈ groups ∧ DefaultExtensions r !! k = Some v) ∧
  UserCertDecision.TTL d ≤ CertRequest.RequestedTTL req ∧
  UserCertDecision.TTL d ≤ CertRequest.EndpointMaxTTL req.
Proof.
  intros Hst Hmax (Hne & Hp & Ht & He)%user_decision_shape.
  pose proof (ttlCap_endpoint (RolesForGroups st groups) _ userCapField Hmax).
  split_and!; [done| | | | |lia|lia].
  - rewrite Hp. apply filter_bool_sublist.
  - intros p. rewrite Hp, elem_of_filter_bool, bool_decide_eq_true, elem_of_allowed_set.
    intros (_ & r & Hr & ?). destruct (ps_sound _ _ _ Hst Hr). by exists r.
  - intros p r Hin Hr Hpr. rewrite Hp, elem_of_filter_bool, bool_decide_eq_true.
    split; [done|]. apply elem_of_allowed_set. by exists r.
  - intros k v. rewrite He. intros [Hk|(r & Hr & Hk)]%merged_extensions;
      [by rewrite lookup_empty in Hk|].
    destruct (ps_sound _ _ _ Hst Hr). by exists r.
Qed.

(** Host certificates name only hosts that a role's pattern covers. Every
    granted host name was requested and matches, in the declarative reading of
    [path.Match] patterns, a host pattern of a role of the caller's groups; the
    TTL exceeds neither the request nor the endpoint maximum. *)
Theorem host_cert_authorised st groups req d :
  ps_valid st → 0 ≤ CertRequest.EndpointMaxTTL req →
  EvaluateHostCert st groups req = Ok d →
  HostCertDecision.Principals d ≠ [] ∧
  HostCertDecision.Principals d `sublist_of` CertRequest.RequestedPrincipals req ∧
  (∀ h, h ∈ HostCertDecision.Principals d →
     ∃ r p, r ∈ ps_table st ∧ GroupClaim r ∈ groups ∧ p ∈ HostPatterns r ∧ glob_matches p h) ∧
  HostCertDecision.TTL d ≤ CertRequest.RequestedTTL req ∧
  HostCertDecision.TTL d ≤ CertRequest.EndpointMaxTTL req.
Proof.
  intros Hst Hmax (patterns & Hc & Hne & Hp & Ht)%host_decision_shape.
  pose proof (ttlCap_endpoint (RolesForGroups st groups) _ hostCapField Hmax).
  split_and!; [done| | |lia|lia].
  - rewrite Hp. apply filter_bool_sublist.
  - intros h. rewrite Hp, elem_of_filter_bool, matchesAny_spec.
    intros (_ & p & Hin & Hm).
    destruct (collected_pattern _ _ _ _ _ _ _ Hst Hc Hin Hm) as (r & ? & ? & ? & ?).
    by exists r, p.
Qed.

(** An X.509 decision returns the requested SPIFFE URI verbatim, and only
    when it matches a SPIFFE pattern of a role of the caller's groups. *)
Theorem x509_cert_authorised st groups req d :
  ps_valid st → 0 ≤ X509CertRequest.EndpointMaxTTL req →
  EvaluateX509Cert st groups req = Ok d →
  X509CertDecision.SPIFFEURI d = X509CertRequest.RequestedSPIFFEURI req ∧
  (∃ r p, r ∈ ps_table st ∧ GroupClaim r ∈ groups ∧ p ∈ SPIFFEPatterns r ∧
     glob_matches p (X509CertDecision.SPIFFEURI d)) ∧
  X509CertDecision.TTL d ≤ X509CertRequest.RequestedTTL req ∧
  X509CertDecision.TTL d ≤ X509CertRequest.EndpointMaxTTL req.
Proof.
  intros Hst Hmax (patterns & Hc & Hm & Hu & Ht)%x509_decision_shape.
  pose proof (ttlCap_endpoint (RolesForGroups st groups) _ x509CapField Hmax).
  split_and!; [done| |lia|lia].
  apply matchesAny_spec in Hm as (p & Hin & Hm). rewrite Hu.
  destruct (collected_pattern _ _ _ _ _ _ _ Hst Hc Hin Hm) as (r & ? & ? & ? & ?).
  by exists r, p.
Qed.

(** A malformed host pattern anywhere in the caller's roles denies the whole
    request with an error that is [path.ErrBadPattern] and neither of the two
    policy denials, so the API answers 500 and never a partial grant. *)
Theorem host_bad_pattern_denies st groups req r p :
  r ∈ RolesForGroups st groups → p ∈ HostPatterns r → parse p = None →
  ∃ e, EvaluateHostCert st groups req = Err e ∧ err_is e "path.ErrBadPattern" = true ∧
       err_is e "policy.ErrNoRole" = false ∧ err_is e "policy.ErrEmptyDecision" = false.
Proof.
  intros Hr Hp Hbad. unfold EvaluateHostCert.
  destruct (collect_patterns_err "host" HostPatterns _ [] r p Hr Hp Hbad) as (e & He & His).
  destruct (RolesForGroups st groups) as [|r0 rs]; [by apply elem_of_nil in Hr|].
  exists e. rewrite He. split_and!; [done|done|..].
  all: clear -His; induction e; simpl in *; try done; [|by apply IHe].
  all: apply bool_decide_eq_true in His as ->; done.
Qed.

(** C30: [EvaluateUserCert] denies exactly when it should.  Call a principal granted
    when it is requested and some role of the caller's groups allows it.  The
    evaluation fails with [ErrNoRole] exactly when no role matches the groups; with
    [ErrEmptyDecision] exactly when roles match and no principal is granted; it
    succeeds exactly when some principal is granted, and then its principals are the
    granted ones, and there is at least one.  It fails in no third way. *)
Theorem user_cert_denials st groups req :
  let roles := RolesForGroups st groups in
  let granted p := p ∈ CertRequest.RequestedPrincipals req ∧ ∃ r, r ∈ roles ∧ p ∈ AllowedPrincipals r in
  let fails_with name := ∃ e, EvaluateUserCert st groups req = Err e ∧ err_is e name = true in
  (fails_with "policy.ErrNoRole" ↔ roles = []) ∧
  (fails_with "policy.ErrEmptyDecision" ↔ roles ≠ [] ∧ ∀ p, ¬ granted p) ∧
  ((∃ d, EvaluateUserCert st groups req = Ok d) ↔ ∃ p, granted p) ∧
  (∀ d, EvaluateUserCert st groups req = Ok d →
     UserCertDecision.Principals d ≠ [] ∧ ∀ p, p ∈ UserCertDecision.Principals d ↔ granted p) ∧
  (∀ e, EvaluateUserCert st groups req = Err e →
     err_is e "policy.ErrNoRole" = true ∨ err_is e "policy.ErrEmptyDecision" = true).
Proof.
  cbn zeta. set (roles := RolesForGroups st groups).
  set (out := List.filter (λ p, bool_decide (p ∈ allowed_set roles)) (CertRequest.RequestedPrincipals req)).
  assert (∀ p, p ∈ out ↔ p ∈ CertRequest.RequestedPrincipals req ∧ ∃ r, r ∈ roles ∧ p ∈ AllowedPrincipals r) as Hout.
  { intros p. subst out. by rewrite elem_of_filter_bool, bool_decide_eq_true, elem_of_allowed_set. }
  unfold EvaluateUserCert. fold roles. fold out. setoid_rewrite <- Hout. clearbody out.
  destruct roles as [|r0 rs]; [|destruct out as [|q qs]].
  - assert (∀ p, p ∈ out → False) as Hno.
    { intros p [_ (r & Hr%not_elem_of_nil & _)]%Hout. done. }
    split_and!; [naive_solver|split; [by intros (e & [= <-] & ?)|naive_solver]|naive_solver..].
  - pose proof (not_elem_of_nil (A:=string)) as Hno.
    split_and!; [split; [by intros (e & [= <-] & ?)|done]|naive_solver..].
  - split_and!; [naive_solver|split; [by intros (e & ? & _)|]|split; [|by eexists]|naive_solver..].
    + intros [_ Hno]. destruct (Hno q). by left.
    + intros _. exists q. by left.
Qed.

End EngineTheorems.

(** ** Properties of the in-memory role table *)

Module InMemoryTrace.
Import InMemoryStore InMemoryFacts InMemoryRefinement.

(** The admin operations, as the portal and the tests call them. *)
Inductive op := OpAdd (r : Role) | OpReplace (old : string) (r : Role) | OpDelete (name : string).

Definition do_op (o : op) : M t unit :=
  match o with OpAdd r => Add r | OpReplace old r => Replace old r | OpDelete n => Delete n end.

Definition spec_op (o : op) : M (gmap string Role) unit :=
  match o with
  | OpAdd r => spec_add Name errNameRequired ErrRoleExists r
  | OpReplace old r => spec_replace Name errNameRequired ErrRoleExists ErrRoleNotFound old r
  | OpDelete n => spec_delete ErrRoleNotFound n
  end.

Lemma do_op_simulates o : simulates (do_op o) (spec_op o).
Proof. destruct o; [apply Add_simulates|apply Replace_simulates|apply Delete_simulates]. Qed.

Lemma run_simulates ops s :
  indexed s → unique s →
  let '(rs, s') := run_list do_op ops s in let '(rs', m') := run_list spec_op ops (table s) in
  rs = rs' ∧ table s' = m' ∧ indexed s' ∧ unique s'.
Proof.
  revert s. induction ops as [|o ops IH]; intros s Hi Hu; simpl; [done|].
  pose proof (do_op_simulates o s Hi Hu) as Ho.
  destruct (do_op o s) as [r s1], (spec_op o (table s)) as [r' m1].
  destruct Ho as (<- & <- & Hi1 & Hu1 & _). specialize (IH s1 Hi1 Hu1).
  destruct (run_list do_op ops s1) as [rs s2], (run_list spec_op ops (table s1)) as [rs' m2].
  destruct IH as (<- & <- & ? & ?). done.
Qed.

(** The in-memory role store implements the abstract role table. From any
    seed without duplicate names, every sequence of Add/Replace/Delete returns the
    outcomes (errors included) of the same operations on a finite map keyed by
    name, ends in the same table, and leaves the by-group index exact: the roles
    found for a group list are the stored roles with those claims, each once. *)
Theorem in_memory_store_refines seed ops :
  keys_unique Name seed →
  let '(rs, s) := run_list do_op ops (NewInMemoryStore seed) in
  let '(rs', m) := run_list spec_op ops (to_map Name seed) in
  rs = rs' ∧ table s = m ∧
  (∀ name, ByName s name = m !! name) ∧
  (∀ groups, RolesForGroups s groups ≡ₚ
     List.filter (λ r, bool_decide (GroupClaim r ∈ groups)) (All s)).
Proof.
  intros Hseed. pose proof (run_simulates ops (NewInMemoryStore seed) eq_refl Hseed) as H.
  change (table (NewInMemoryStore seed)) with (to_map Name seed) in H.
  destruct (run_list do_op _ _) as [rs s], (run_list spec_op _ _) as [rs' m].
  destruct H as (-> & <- & Hi & Hu). split_and!; [done|done|intros name|intros groups].
  - by apply ByName_table.
  - unfold RolesForGroups. rewrite roles_for_groups_perm by done. simpl. perm_eq.
    apply List.filter_ext. intros r. rewrite (bool_decide_false (_ ∈ ∅)) by set_solver.
    by rewrite andb_true_r.
Qed.

(** More groups never take rights away. A caller whose groups include another
    caller's is granted at least the same principals and at least the same TTL on
    the same user-certificate request. *)
Theorem user_cert_union_monotone s groups groups' req d :
  indexed s → groups ⊆ groups' → EvaluateUserCert s groups req = Ok d →
  ∃ d', EvaluateUserCert s groups' req = Ok d' ∧
    UserCertDecision.Principals d ⊆ UserCertDecision.Principals d' ∧
    UserCertDecision.TTL d ≤ UserCertDecision.TTL d'.
Proof.
  intros Hi Hg Hd. pose proof Hd as (Hne & Hp & Ht & _)%user_decision_shape.
  assert (Policy.RolesForGroups s groups ⊆ Policy.RolesForGroups s groups') as Hsub.
  { intros r. simpl. rewrite !elem_of_RolesForGroups by done. set_solver. }
  assert (∀ p, p ∈ UserCertDecision.Principals d →
    p ∈ List.filter (λ p, bool_decide (p ∈ allowed_set (Policy.RolesForGroups s groups')))
          (CertRequest.RequestedPrincipals req)) as Hin.
  { intros p. rewrite Hp, !elem_of_filter_bool, !bool_decide_eq_true, !elem_of_allowed_set.
    intros (? & r & Hr & ?). split; [done|]. exists r. split; [by apply Hsub|done]. }
  destruct (EvaluateUserCert s groups' req) as [d'|e] eqn:Hd'.
  - exists d'. split; [done|]. apply user_decision_shape in Hd' as (_ & Hp' & Ht' & _).
    split; [intros p Hpp; rewrite Hp'; by apply Hin|]. rewrite Ht, Ht'.
    pose proof (ttlCap_mono _ _ (CertRequest.EndpointMaxTTL req) userCapField Hsub). lia.
  - exfalso. destruct (UserCertDecision.Principals d) as [|p ps] eqn:Hps; [done|].
    specialize (Hin p (list_elem_of_here _ _)).
    unfold EvaluateUserCert in Hd'.
    destruct (Policy.RolesForGroups s groups') as [|r0 rs] eqn:Hr0.
    + apply elem_of_filter_bool in Hin as [_ Hin%bool_decide_eq_true].
      apply elem_of_allowed_set in Hin as (r & Hr & _). by apply elem_of_nil in Hr.
    + destruct (List.filter _ _) eqn:Hf in Hd'; [|done].
      rewrite Hf in Hin. by apply elem_of_nil in Hin.
Qed.
End InMemoryTrace.

(** The ceiling one role gives, when its cap is a whole number of seconds that fits. *)
Lemma role_cap_seconds endpoint field r :
  0 ≤ cap_seconds field r ≤ 9223372036 →
  role_cap endpoint field r =
    if cap_seconds field r =? 0 then endpoint
    else Z.min endpoint (cap_seconds field r * second).
Proof.
  intros Hcap. unfold role_cap, seconds_to_duration.
  rewrite int64_wrap_id by (unfold int64_ok, second, ns_per_sec; lia).
  unfold second, ns_per_sec. set (c := cap_seconds field r) in *.
  destruct (Z.eqb_spec c 0) as [->|Hc]; [done|].
  destruct (Z.eqb_spec (c * 1000000000) 0); [lia|]. case_match; lia.
Qed.

(** A non-empty list of roles with non-negative ceilings attains its maximum. *)
Lemma ttlCap_attained roles endpoint field :
  roles ≠ [] → (∀ r, r ∈ roles → 0 ≤ role_cap endpoint field r) →
  ∃ r, r ∈ roles ∧ ttlCap roles endpoint field = role_cap endpoint field r.
Proof.
  rewrite ttlCap_fold. destruct roles as [|r0 rs]; [done|]. intros _ Hpos.
  assert (∀ l z, (∀ r, r ∈ l → r ∈ r0 :: rs) →
    (∃ r, r ∈ r0 :: rs ∧ z = role_cap endpoint field r) →
    ∃ r, r ∈ r0 :: rs ∧ foldl (λ out r, Z.max out (role_cap endpoint field r)) z l =
      role_cap endpoint field r) as Hmax.
  { induction l as [|r l IH]; intros z Hl Hz; simpl; [done|].
    apply IH; [by intros; apply Hl; right|]. destruct Hz as (r' & ? & ->).
    destruct (Z.max_spec (role_cap endpoint field r') (role_cap endpoint field r)) as [[_ ->]|[_ ->]].
    - exists r. split; [apply Hl; by left|done].
    - by exists r'. }
  simpl. apply Hmax; [by intros; right|]. exists r0. split; [by left|].
  specialize (Hpos r0 (list_elem_of_here _ _)). lia.
Qed.

(** The TTL ceiling is the widest ceiling among the roles, capped by the
    endpoint: it lies between 0 and the endpoint maximum, does not depend on the
    order of the roles, and when every configured cap is a non-negative number of
    seconds that a [Duration] can hold, it equals the endpoint maximum as soon as
    one role has no cap, and otherwise is the largest cap (or the endpoint). *)
Theorem ttl_cap_widest roles endpoint field :
  0 ≤ endpoint → roles ≠ [] →
  (∀ r, r ∈ roles → 0 ≤ cap_seconds field r ≤ 9223372036) →
  0 ≤ ttlCap roles endpoint field ≤ endpoint ∧
  (∀ roles', roles' ≡ₚ roles → ttlCap roles' endpoint field = ttlCap roles endpoint field) ∧
  (∀ r, r ∈ roles → cap_seconds field r = 0 → ttlCap roles endpoint field = endpoint) ∧
  ((∀ r, r ∈ roles → cap_seconds field r ≠ 0) →
   (∀ r, r ∈ roles →
      Z.min endpoint (cap_seconds field r * second) ≤ ttlCap roles endpoint field) ∧
   ∃ r, r ∈ roles ∧
     ttlCap roles endpoint field = Z.min endpoint (cap_seconds field r * second)).
Proof.
  intros He Hne Hcap.
  assert (∀ r, r ∈ roles → 0 ≤ role_cap endpoint field r) as Hpos.
  { intros r Hr. rewrite role_cap_seconds by auto. specialize (Hcap r Hr).
    unfold second, ns_per_sec. case_match; lia. }
  pose proof (ttlCap_nonneg roles endpoint field).
  pose proof (ttlCap_endpoint roles endpoint field He).
  split_and!; [done|done|..].
  - intros roles' Hp. apply Z.le_antisymm; apply ttlCap_mono; intros r; by rewrite Hp.
  - intros r Hr Hz. apply Z.le_antisymm; [done|].
    pose proof (ttlCap_role roles endpoint field r Hr) as H2.
    by rewrite role_cap_seconds, Hz in H2 by auto.
  - intros Hnz. split.
    + intros r Hr. pose proof (ttlCap_role roles endpoint field r Hr) as H2.
      rewrite role_cap_seconds in H2 by auto. specialize (Hnz r Hr). case_match; lia.
    + destruct (ttlCap_attained roles endpoint field Hne Hpos) as (r & Hr & ->).
      exists r. rewrite role_cap_seconds by auto. specialize (Hnz r Hr).
      split; [done|]. case_match; lia.
Qed.

(** ** The properties at concrete inputs *)

Module PolicyExamples.

Definition devRole : Role := mkRole "dev" "devs" ["alice"; "deploy"] ["*.dev"; "db[0-9]"]
  ["spiffe://corp/dev/*"] 3600 0 600 {["permit-pty" := ""]}.
Definition opsRole : Role := mkRole "ops" "ops" ["root"] ["*.prod"] [] 0 0 0 ∅.
Definition badRole : Role := mkRole "bad" "bad" [] ["[a-"] [] 0 0 0 ∅.
Definition st : InMemoryStore.t := InMemoryStore.NewInMemoryStore [devRole; opsRole; badRole].
Definition req (ps : list string) : CertRequest.t := CertRequest.mk ps (2 * hour) (8 * hour).
Definition x509req : X509CertRequest.t :=
  X509CertRequest.mk "spiffe://corp/dev/web" (1 * hour) (8 * hour).

Lemma user_cert_authorised_witness :
  ∃ d, EvaluateUserCert st ["devs"] (req ["mallory"; "alice"]) = Ok d ∧
    UserCertDecision.TTL d = 1 * hour ∧
    (∀ p, p ∈ UserCertDecision.Principals d →
       ∃ r, r ∈ ps_table st ∧ GroupClaim r ∈ ["devs"] ∧ p ∈ AllowedPrincipals r).
Proof.
  eexists. split; [vm_compute; reflexivity|]. split; [vm_compute; reflexivity|].
  refine (proj1 (proj2 (proj2 (user_cert_authorised st ["devs"] (req ["mallory"; "alice"]) _ _ _ _)))).
  - vm_compute; reflexivity.
  - vm_compute; discriminate.
  - vm_compute; reflexivity.
Defined.

Lemma host_cert_authorised_witness :
  ∃ d, EvaluateHostCert st ["devs"] (req ["a.prod"; "db3"; "a.dev"]) = Ok d ∧
    HostCertDecision.Principals d = ["db3"; "a.dev"] ∧
    (∀ h, h ∈ HostCertDecision.Principals d →
       ∃ r p, r ∈ ps_table st ∧ GroupClaim r ∈ ["devs"] ∧ p ∈ HostPatterns r ∧ glob_matches p h).
Proof.
  eexists. split; [vm_compute; reflexivity|]. split; [vm_compute; reflexivity|].
  refine (proj1 (proj2 (proj2
    (host_cert_authorised st ["devs"] (req ["a.prod"; "db3"; "a.dev"]) _ _ _ _)))).
  - vm_compute; reflexivity.
  - vm_compute; discriminate.
  - vm_compute; reflexivity.
Defined.

Lemma x509_cert_authorised_witness :
  ∃ d, EvaluateX509Cert st ["devs"] x509req = Ok d ∧
    X509CertDecision.SPIFFEURI d = X509CertRequest.RequestedSPIFFEURI x509req.
Proof.
  eexists. split; [vm_compute; reflexivity|].
  refine (proj1 (x509_cert_authorised st ["devs"] x509req _ _ _ _)).
  - vm_compute; reflexivity.
  - vm_compute; discriminate.
  - vm_compute; reflexivity.
Defined.

Lemma host_bad_pattern_denies_witness :
  ∃ e, EvaluateHostCert st ["ops"; "bad"] (req ["a.prod"]) = Err e ∧
    err_is e "path.ErrBadPattern" = true.
Proof.
  destruct (host_bad_pattern_denies st ["ops"; "bad"] (req ["a.prod"]) badRole "[a-")
    as (e & He & Hb & _).
  - apply list_elem_of_In. vm_compute. tauto.
  - apply list_elem_of_In. vm_compute. tauto.
  - vm_compute. reflexivity.
  - exists e. by split.
Defined.

Lemma user_cert_denials_witness :
  (∃ e, EvaluateUserCert st ["nobody"] (req ["alice"]) = Err e ∧ err_is e "policy.ErrNoRole" = true) ∧
  (∃ e, EvaluateUserCert st ["ops"] (req ["alice"]) = Err e ∧ err_is e "policy.ErrEmptyDecision" = true) ∧
  (∃ d, EvaluateUserCert st ["devs"] (req ["mallory"; "alice"]) = Ok d).
Proof.
  split_and!.
  - destruct (user_cert_denials st ["nobody"] (req ["alice"])) as (H1 & _). apply H1. by vm_compute.
  - destruct (user_cert_denials st ["ops"] (req ["alice"])) as (_ & H2 & _). apply H2. split; [by vm_compute|].
    assert (RolesForGroups st ["ops"] = [opsRole]) as -> by (by vm_compute).
    intros p [->%list_elem_of_singleton (r & ->%list_elem_of_singleton & Hp)].
    revert Hp. apply (bool_decide_unpack (¬ _)). by vm_compute.
  - destruct (user_cert_denials st ["devs"] (req ["mallory"; "alice"])) as (_ & _ & H3 & _). apply H3.
    exists "alice". split; [simpl; set_solver|]. exists devRole. split; apply (bool_decide_unpack _); by vm_compute.
Defined.

Lemma in_memory_store_refines_witness :
  keys_unique Name [devRole; opsRole] ∧
  let '(rs, s) := run_list InMemoryTrace.do_op
    [InMemoryTrace.OpAdd badRole; InMemoryTrace.OpReplace "dev" opsRole;
     InMemoryTrace.OpDelete "ops"] (InMemoryStore.NewInMemoryStore [devRole; opsRole]) in
  rs = [Ok tt; Err InMemoryStore.ErrRoleExists; Ok tt] ∧
  InMemoryStore.ByName s "ops" = None ∧
  InMemoryStore.RolesForGroups s ["bad"; "bad"] ≡ₚ
    List.filter (λ r, bool_decide (GroupClaim r ∈ ["bad"; "bad"])) (InMemoryStore.All s).
Proof.
  assert (keys_unique Name [devRole; opsRole]) as Hu
    by (unfold keys_unique; vm_compute; repeat constructor; set_solver).
  split; [exact Hu|].
  pose proof (InMemoryTrace.in_memory_store_refines [devRole; opsRole]
    [InMemoryTrace.OpAdd badRole; InMemoryTrace.OpReplace "dev" opsRole;
     InMemoryTrace.OpDelete "ops"] Hu) as H.
  destruct (run_list InMemoryTrace.do_op _ _) as [rs s] eqn:E.
  destruct (run_list InMemoryTrace.spec_op _ _) as [rs' m] eqn:E'.
  destruct H as (-> & _ & Hn & Hg). split_and!.
  - vm_compute in E'. by injection E' as <- _.
  - rewrite Hn. vm_compute in E'. by injection E' as _ <-.
  - apply Hg.
Defined.

Lemma user_cert_union_monotone_witness :
  ∃ d d', EvaluateUserCert st ["devs"] (req ["alice"; "root"]) = Ok d ∧
    EvaluateUserCert st ["ops"; "devs"] (req ["alice"; "root"]) = Ok d' ∧
    UserCertDecision.Principals d ⊆ UserCertDecision.Principals d'.
Proof.
  destruct (EvaluateUserCert st ["devs"] (req ["alice"; "root"])) as [d|e] eqn:E;
    [|vm_compute in E; discriminate].
  destruct (InMemoryTrace.user_cert_union_monotone st ["devs"] ["ops"; "devs"]
    (req ["alice"; "root"]) d) as (d' & Hd' & Hp & _).
  - reflexivity.
  - set_solver.
  - exact E.
  - by exists d, d'.
Defined.

Lemma ttl_cap_widest_witness :
  0 ≤ ttlCap [devRole; opsRole] (8 * hour) userCapField ≤ 8 * hour.
Proof.
  refine (proj1 (ttl_cap_widest [devRole; opsRole] (8 * hour) userCapField _ _ _)).
  - vm_compute; discriminate.
  - discriminate.
  - intros r Hr. apply list_elem_of_In in Hr. simpl in Hr.
    destruct Hr as [<-|[<-|[]]]; simpl; lia.
Defined.

End PolicyExamples.
