(* ===== verification/GoText.v ===== *)
(** * GoText: numbers as text

    The parts of [strconv] and [fmt] the program uses for numbers: unsigned and
    signed decimal formatting and parsing with Go's range checks, with the
    round-trip lemmas the stores and the portal rely on. *)

From S2P Require Import Prelude.

Definition digit_byte (d : Z) : ascii := ascii_of_N (48 + Z.to_N d).
Definition is_digit (c : ascii) : bool := byte_in 48 57 c.
Definition digit_val (c : ascii) : Z := Z.of_N (N_of_ascii c) - 48.

Lemma digit_byte_spec d :
  0 ≤ d < 10 → is_digit (digit_byte d) = true ∧ digit_val (digit_byte d) = d.
Proof.
  intros H. assert (d = 0 ∨ d = 1 ∨ d = 2 ∨ d = 3 ∨ d = 4 ∨ d = 5 ∨ d = 6 ∨ d = 7 ∨ d = 8 ∨ d = 9)
    as Hd by lia.
  repeat destruct Hd as [->|Hd]; try (split; reflexivity). by subst.
Qed.

Lemma digit_byte_val c : is_digit c = true → 0 ≤ digit_val c < 10 ∧ digit_byte (digit_val c) = c.
Proof. destruct c as [[] [] [] [] [] [] [] []]; vm_compute; intros; split; done. Qed.

(** ** [strconv.FormatUint(n, 10)]

    The digit loop, least significant digit first; 20 digits hold a [uint64]. *)
Fixpoint put_digits (fuel : nat) (n : Z) (acc : string) : string :=
  match fuel with
  | O => acc
  | S fuel =>
      if n <? 10 then String (digit_byte n) acc
      else put_digits fuel (n / 10) (String (digit_byte (n mod 10)) acc)
  end.

Definition FormatUint (n : Z) : string := put_digits 20 n "".

(** [strconv.FormatInt(n, 10)], [strconv.Itoa(n)] and [%d]. *)
Definition FormatInt (n : Z) : string :=
  if n <? 0 then "-" +:+ FormatUint (- n) else FormatUint n.

(** ** [strconv.ParseUint(s, 10, 64)] *)

Definition ErrSyntax : error := ErrSentinel "strconv.ErrSyntax" "invalid syntax".
Definition ErrRange : error := ErrSentinel "strconv.ErrRange" "value out of range".
Definition num_error (fn s : string) (e : error) : error :=
  ErrWrap ("strconv." +:+ fn +:+ ": parsing " +:+ fmt_q s +:+ ": ") e "".

Definition uint_cutoff : Z := (2^64 - 1) / 10 + 1.

Fixpoint parse_digits (s : string) (n : Z) : error + Z :=
  match s with
  | "" => inr n
  | String c s' =>
      if negb (is_digit c) then inl ErrSyntax else
      if uint_cutoff <=? n then inl ErrRange else
      let n' := uint64_wrap (n * 10) in
      let n1 := uint64_wrap (n' + digit_val c) in
      if n1 <? n' then inl ErrRange else parse_digits s' n1
  end.

Definition ParseUint (s : string) : result Z :=
  if str_empty s then Err (num_error "ParseUint" s ErrSyntax) else
  match parse_digits s 0 with
  | inr n => Ok n
  | inl e => Err (num_error "ParseUint" s e)
  end.

(** [strconv.ParseInt(s, 10, 64)] and [strconv.Atoi]. *)
Definition parse_magnitude (neg : bool) (s : string) : error + Z :=
  if str_empty s then inl ErrSyntax else
  match parse_digits s 0 with
  | inl e => inl e
  | inr un =>
      if negb neg && (2^63 <=? un) then inl ErrRange else
      if neg && (2^63 <? un) then inl ErrRange else
      inr (if neg then - un else un)
  end.

Definition ParseInt_as (fn s : string) : result Z :=
  if str_empty s then Err (num_error fn s ErrSyntax) else
  let '(neg, body) :=
    match s with
    | String c s' =>
        if byte_is 43 c then (false, s') else if byte_is 45 c then (true, s') else (false, s)
    | "" => (false, s)
    end in
  match parse_magnitude neg body with
  | inr n => Ok n
  | inl e => Err (num_error fn s e)
  end.
Definition ParseInt : string → result Z := ParseInt_as "ParseInt".
Definition Atoi : string → result Z := ParseInt_as "Atoi".

(** ** Round trips *)

Lemma put_digits_app fuel n acc : put_digits fuel n acc = put_digits fuel n "" +:+ acc.
Proof.
  assert (∀ fuel n a b, put_digits fuel n (a +:+ b) = put_digits fuel n a +:+ b) as H.
  { clear. induction fuel as [|fuel IH]; intros n a b; simpl; [done|].
    case_match; [done|]. apply (IH _ (String _ a)). }
  apply (H fuel n "" acc).
Qed.

(** The digits are decimal digits, and there is at least one. *)
Fixpoint all_digits (s : string) : bool :=
  match s with "" => true | String c s' => is_digit c && all_digits s' end.

Lemma all_digits_app s t : all_digits (s +:+ t) = all_digits s && all_digits t.
Proof. induction s as [|c s IH]; simpl; [done|]. by rewrite IH, andb_assoc. Qed.

Lemma put_digits_digits fuel n acc :
  all_digits acc = true → all_digits (put_digits fuel n acc) = true.
Proof.
  revert n acc. induction fuel as [|fuel IH]; intros n acc Ha; cbn [put_digits]; [done|].
  destruct (Z.ltb_spec n 10).
  - simpl. destruct (decide (0 ≤ n)).
    + by rewrite (proj1 (digit_byte_spec n ltac:(lia))).
    + unfold digit_byte. by replace (Z.to_N n) with 0%N by lia.
  - apply IH. simpl.
    by rewrite (proj1 (digit_byte_spec (n mod 10) ltac:(apply Z.mod_pos_bound; lia))).
Qed.

Lemma put_digits_nonempty fuel n acc : put_digits (S fuel) n acc ≠ "".
Proof.
  assert (∀ fuel n c a, put_digits fuel n (String c a) ≠ "") as H.
  { clear. induction fuel as [|fuel IH]; intros; simpl; [done|]. case_match; [done|]. apply IH. }
  simpl. case_match; [done|]. apply H.
Qed.

(** Parsing the digits of [n] in front of [acc] continues at [acc] with [n]. *)
Lemma parse_put_digits fuel n acc :
  fuel ≠ O → 0 ≤ n < 10 ^ Z.of_nat fuel → n < 2^64 →
  parse_digits (put_digits fuel n acc) 0 = parse_digits acc n.
Proof.
  intros Hf Hn Hb.
  revert n acc Hn Hb. induction fuel as [|fuel IH]; intros n acc Hn Hb; [done|].
  cbn [put_digits].
  assert (∀ d m rest, 0 ≤ d < 10 → 0 ≤ m → m * 10 + d < 2^64 →
    parse_digits (String (digit_byte d) rest) m = parse_digits rest (m * 10 + d)) as Hstep.
  { intros d m rest Hd Hm Hlt. destruct (digit_byte_spec d Hd) as [H1 H2].
    cbn [parse_digits]. rewrite H1, H2. simpl. unfold uint_cutoff.
    destruct (Z.leb_spec ((2^64 - 1) / 10 + 1) m) as [Hc|Hc].
    { exfalso. assert ((2^64 - 1) / 10 = 1844674407370955161) by reflexivity. lia. }
    rewrite !uint64_wrap_id by (unfold uint64_ok; rewrite ?uint64_wrap_id; unfold uint64_ok; lia).
    destruct (Z.ltb_spec (m * 10 + d) (m * 10)); [lia|done]. }
  destruct (Z.ltb_spec n 10) as [Hlt|Hge].
  - rewrite Hstep by lia. f_equal; lia.
  - rewrite Nat2Z.inj_succ, Z.pow_succ_r in Hn by lia.
    destruct (decide (fuel = O)) as [->|Hf']; [simpl in Hn; lia|].
    pose proof (Z.div_mod n 10 ltac:(lia)). pose proof (Z.mod_pos_bound n 10 ltac:(lia)).
    rewrite IH; [|done|split; [lia|apply Z.div_lt_upper_bound; lia]|lia].
    rewrite Hstep by lia. f_equal; lia.
Qed.

Lemma FormatUint_digits n : all_digits (FormatUint n) = true.
Proof. by apply put_digits_digits. Qed.

Lemma FormatUint_nonempty n : FormatUint n ≠ "".
Proof. apply put_digits_nonempty. Qed.

Lemma parse_FormatUint n : uint64_ok n → parse_digits (FormatUint n) 0 = inr n.
Proof.
  intros [? Hn]. unfold FormatUint. apply parse_put_digits; [done| |done].
  split; [done|]. eapply Z.lt_le_trans; [apply Hn|]. vm_compute. discriminate.
Qed.

Lemma ParseUint_FormatUint n : uint64_ok n → ParseUint (FormatUint n) = Ok n.
Proof.
  intros Hn. unfold ParseUint, str_empty.
  rewrite bool_decide_false by apply FormatUint_nonempty. by rewrite parse_FormatUint.
Qed.

Lemma FormatUint_inj n m : uint64_ok n → uint64_ok m → FormatUint n = FormatUint m → n = m.
Proof.
  intros Hn Hm He. apply parse_FormatUint in Hn, Hm. rewrite He, Hm in Hn. congruence.
Qed.

(** No byte of a formatted number is the byte [c], for a non-digit [c]. *)
Fixpoint str_has (c : ascii) (s : string) : bool :=
  match s with "" => false | String x s' => bool_decide (x = c) || str_has c s' end.

Lemma all_digits_has c s : all_digits s = true → is_digit c = false → str_has c s = false.
Proof.
  induction s as [|x s IH]; simpl; [done|]. intros [Hx Hs]%andb_true_iff Hc.
  rewrite IH by done. rewrite bool_decide_false; [done|]. congruence.
Qed.

Lemma ParseInt_FormatInt fn n : int64_ok n → ParseInt_as fn (FormatInt n) = Ok n.
Proof.
  unfold int64_ok, FormatInt. intros Hn. destruct (Z.ltb_spec n 0).
  - assert (∀ s, ParseInt_as fn ("-" +:+ s) =
      match parse_magnitude true s with
      | inr n => Ok n
      | inl e => Err (num_error fn ("-" +:+ s) e)
      end) as -> by done.
    unfold parse_magnitude, str_empty. rewrite bool_decide_false by apply FormatUint_nonempty.
    rewrite parse_FormatUint by (unfold uint64_ok; lia). cbn -[Z.pow].
    destruct (Z.ltb_spec (2^63) (-n)); [lia|]. f_equal. lia.
  - pose proof (FormatUint_digits n) as Hd. pose proof (FormatUint_nonempty n) as Hne.
    pose proof (parse_FormatUint n ltac:(unfold uint64_ok; lia)) as Hp.
    unfold ParseInt_as. destruct (FormatUint n) as [|c s] eqn:E; [done|].
    cbn -[parse_magnitude]. simpl in Hd. apply andb_true_iff in Hd as [Hc _].
    assert (byte_is 43 c = false) as -> by (destruct c as [[] [] [] [] [] [] [] []]; done).
    assert (byte_is 45 c = false) as -> by (destruct c as [[] [] [] [] [] [] [] []]; done).
    unfold parse_magnitude. cbn [str_empty]. rewrite Hp.
    cbn -[Z.pow]. destruct (Z.leb_spec (2^63) n); [lia|done].
Qed.

(** A parsed unsigned number is one: [ParseUint] never yields a value outside
    [uint64]. *)
Lemma parse_digits_range s n m : uint64_ok n → parse_digits s n = inr m → uint64_ok m.
Proof.
  revert n. induction s as [|c s IH]; intros n Hn; cbn [parse_digits].
  - by intros [= <-].
  - repeat (case_match; try done). apply IH. apply uint64_wrap_range.
Qed.

Lemma ParseUint_range s n : ParseUint s = Ok n → uint64_ok n.
Proof.
  unfold ParseUint. case_match; [done|]. case_match eqn:E; [done|]. intros [= <-].
  eapply parse_digits_range; [|done]. unfold uint64_ok; lia.
Qed.

Lemma FormatInt_nonempty n : 0 ≤ n → FormatInt n ≠ "".
Proof.
  intros Hn. unfold FormatInt. destruct (Z.ltb_spec n 0); [lia|]. apply FormatUint_nonempty.
Qed.

(** ** Trimmed text

    [s] is its own [TrimSpace]: neither end is white space. *)
Definition trimmed (s : string) : Prop := TrimSpace s = s.

Lemma bytes_inj s t : bytes_of s = bytes_of t → s = t.
Proof. revert t. induction s as [|c s IH]; intros [|d t]; simpl; [done..|]. intros [= -> E]. by rewrite (IH t). Qed.

Lemma bytes_snoc_rev s acc : bytes_of (str_snoc_rev s acc) = rev (bytes_of s) ++ bytes_of acc.
Proof.
  revert acc. induction s as [|c s IH]; intros acc; simpl; [done|]. rewrite IH. simpl. by rewrite <- app_assoc.
Qed.

Lemma bytes_rev s : bytes_of (str_rev s) = rev (bytes_of s).
Proof. unfold str_rev. by rewrite bytes_snoc_rev, app_nil_r. Qed.

Lemma str_rev_involutive s : str_rev (str_rev s) = s.
Proof. apply bytes_inj. by rewrite !bytes_rev, rev_involutive. Qed.

Lemma str_rev_app s t : str_rev (s +:+ t) = str_rev t +:+ str_rev s.
Proof. apply bytes_inj. by rewrite bytes_rev, !bytes_app, !bytes_rev, rev_app_distr. Qed.

Lemma str_rev_empty s : str_rev s = "" → s = "".
Proof. intros E. by rewrite <- (str_rev_involutive s), E. Qed.

Lemma str_length_bytes s : String.length s = length (bytes_of s).
Proof. induction s as [|c s IH]; simpl; [done|]. by rewrite IH. Qed.

(** What is left is a tail of the text. *)
Lemma trim_left_suffix flip s : ∃ p, s = p +:+ trim_left flip s.
Proof.
  induction s as [s IH] using (induction_ltof1 _ String.length). unfold ltof in IH.
  destruct s as [|c1 t1]; [by exists ""|]. cbn [trim_left].
  destruct (space1 c1).
  { destruct (IH t1) as [p Hp]; [simpl; lia|]. exists (String c1 p). by rewrite str_app_cons, <- Hp. }
  destruct t1 as [|c2 t2]; [by exists ""|].
  destruct (if flip then space2 c2 c1 else space2 c1 c2).
  { destruct (IH t2) as [p Hp]; [simpl; lia|]. exists (String c1 (String c2 p)). by rewrite !str_app_cons, <- Hp. }
  destruct t2 as [|c3 t3]; [by exists ""|].
  destruct (if flip then space3 c3 c2 c1 else space3 c1 c2 c3); [|by exists ""].
  destruct (IH t3) as [p Hp]; [simpl; lia|]. exists (String c1 (String c2 (String c3 p))).
  by rewrite !str_app_cons, <- Hp.
Qed.

Lemma trim_left_same flip s : (String.length s ≤ String.length (trim_left flip s))%nat → trim_left flip s = s.
Proof.
  destruct (trim_left_suffix flip s) as [p Hp]. intros Hl.
  assert (p = "") as ->.
  { rewrite Hp in Hl at 1. rewrite !str_length_bytes, bytes_app, length_app, <- !str_length_bytes in Hl.
    destruct p; [done|]. simpl in Hl. lia. }
  by rewrite Hp at 2.
Qed.

Lemma trim_left_length flip s : (String.length (trim_left flip s) ≤ String.length s)%nat.
Proof.
  destruct (trim_left_suffix flip s) as [p Hp]. rewrite Hp at 2.
  rewrite !str_length_bytes, bytes_app, length_app. lia.
Qed.

Lemma str_rev_length s : String.length (str_rev s) = String.length s.
Proof. by rewrite !str_length_bytes, bytes_rev, length_rev. Qed.

Lemma trimmed_ends s : trimmed s ↔ trim_left false s = s ∧ trim_left true (str_rev s) = str_rev s.
Proof.
  unfold trimmed, TrimSpace. split.
  - intros E. assert (trim_left false s = s) as E1.
    { apply trim_left_same. rewrite <- E at 1. rewrite str_rev_length.
      etransitivity; [apply trim_left_length|]. by rewrite str_rev_length. }
    split; [done|]. rewrite E1 in E. by rewrite <- E at 2; rewrite str_rev_involutive.
  - intros [E1 E2]. by rewrite E1, E2, str_rev_involutive.
Qed.

Definition ascii7 (c : ascii) : Prop := (N_of_ascii c < 128)%N.

Lemma byte_is_high n c : ascii7 c → (128 ≤ n)%N → byte_is n c = false.
Proof. unfold ascii7, byte_is. intros. apply N.eqb_neq. lia. Qed.

Lemma byte_in_high lo hi c : ascii7 c → (128 ≤ lo)%N → byte_in lo hi c = false.
Proof.
  unfold ascii7, byte_in. intros. destruct (N.leb_spec lo (N_of_ascii c)); [lia|done].
Qed.

Lemma not_space2 c x : ascii7 c → space2 c x = false ∧ space2 x c = false.
Proof.
  intros H. unfold space2. rewrite !(byte_is_high _ c) by (done || lia).
  split; [done|]. by rewrite andb_false_r.
Qed.

Lemma not_space3 c x y : ascii7 c → space3 c x y = false ∧ space3 x c y = false ∧ space3 x y c = false.
Proof.
  intros H. unfold space3.
  rewrite !(byte_is_high _ c), !(byte_in_high _ _ c) by (done || lia).
  split_and!; [done| |]; by rewrite ?andb_false_r, ?andb_false_l.
Qed.

(** A text that does not begin with white space still does not when an ASCII byte
    and more text follow. *)
Lemma trim_left_keep flip s c t :
  s ≠ "" → trim_left flip s = s → ascii7 c → trim_left flip (s +:+ String c t) = s +:+ String c t.
Proof.
  intros Hne Hs Hc. assert (∀ p u, trim_left flip u = p → (String.length p ≤ String.length u)%nat) as Hlen.
  { intros p u <-. apply trim_left_length. }
  destruct s as [|c1 t1]; [done|]. rewrite !str_app_cons. cbn [trim_left] in *.
  destruct (space1 c1); [apply Hlen in Hs; simpl in Hs; lia|].
  destruct t1 as [|c2 t2].
  { rewrite str_app_nil_l. destruct (not_space2 c c1 Hc) as [E1 E2].
    assert ((if flip then space2 c c1 else space2 c1 c) = false) as -> by (by destruct flip).
    destruct t as [|c3 t3]; [done|]. destruct (not_space3 c c1 c3 Hc) as (_ & E3 & _).
    destruct (not_space3 c c3 c1 Hc) as (_ & E4 & _).
    by assert ((if flip then space3 c3 c c1 else space3 c1 c c3) = false) as -> by (by destruct flip). }
  rewrite !str_app_cons.
  destruct (if flip then space2 c2 c1 else space2 c1 c2); [apply Hlen in Hs; simpl in Hs; lia|].
  destruct t2 as [|c3 t3].
  { rewrite str_app_nil_l. destruct (not_space3 c c2 c1 Hc) as (E1 & _ & _).
    destruct (not_space3 c c1 c2 Hc) as (_ & _ & E2).
    by assert ((if flip then space3 c c2 c1 else space3 c1 c2 c) = false) as -> by (by destruct flip). }
  rewrite !str_app_cons.
  destruct (if flip then space3 c3 c2 c1 else space3 c1 c2 c3); [apply Hlen in Hs; simpl in Hs; lia|done].
Qed.

(** Two trimmed texts around a separator whose ends are ASCII. *)
Lemma trimmed_join a b sep c m c' m' :
  a ≠ "" → b ≠ "" → trimmed a → trimmed b → sep = String c m → str_rev sep = String c' m' →
  ascii7 c → ascii7 c' → trimmed (a +:+ sep +:+ b).
Proof.
  intros Ha Hb [Ta _]%trimmed_ends [_ Tb]%trimmed_ends -> Hr Hc Hc'. apply trimmed_ends. split.
  - rewrite str_app_cons. by apply trim_left_keep.
  - rewrite !str_rev_app, str_app_assoc, Hr, str_app_cons. apply trim_left_keep; [|done..].
    by intros ?%str_rev_empty.
Qed.

Definition cr : string := String "013" "".

(** A line as the browser ends it. *)
Lemma TrimSpace_cr s e : trimmed s → e = "" ∨ e = cr → TrimSpace (s +:+ e) = s.
Proof.
  intros Hs [->| ->]; [by rewrite str_app_nil_r|].
  destruct (decide (s = "")) as [->|Hne]; [done|]. apply trimmed_ends in Hs as [H1 H2].
  unfold TrimSpace, cr. rewrite trim_left_keep by done. rewrite str_rev_app.
  change (str_rev (String "013" "")) with (String "013" ""). rewrite str_app_cons, str_app_nil_l.
  cbn [trim_left]. change (space1 "013") with true. cbv iota. by rewrite H2, str_rev_involutive.
Qed.

(** Printable ASCII text has no white space to cut. *)
Definition graphic (c : ascii) : Prop := (32 < N_of_ascii c < 127)%N.

Lemma graphic_trimmed s : Forall graphic (bytes_of s) → trimmed s.
Proof.
  assert (∀ flip t, Forall graphic (bytes_of t) → trim_left flip t = t) as Hl.
  { intros flip [|c t]; [done|]. cbn [bytes_of]. intros [Hc _]%Forall_cons. unfold graphic in Hc.
    assert (ascii7 c) as H7 by (unfold ascii7; lia).
    assert (space1 c = false) as Hs.
    { unfold space1, byte_in, byte_is. destruct (N.leb_spec (N_of_ascii c) 13); [lia|].
      destruct (N.eqb_spec (N_of_ascii c) 32); [lia|]. by rewrite andb_false_r. }
    cbn [trim_left]. rewrite Hs. destruct t as [|c2 t]; [done|]. destruct (not_space2 c c2 H7) as [E1 E2].
    assert ((if flip then space2 c2 c else space2 c c2) = false) as -> by (by destruct flip).
    destruct t as [|c3 t]; [done|]. destruct (not_space3 c c2 c3 H7) as (E3 & _ & _).
    destruct (not_space3 c c3 c2 H7) as (_ & _ & E4).
    by assert ((if flip then space3 c3 c2 c else space3 c c2 c3) = false) as -> by (by destruct flip). }
  intros Hs. apply trimmed_ends. rewrite !Hl; [done| |done]. rewrite bytes_rev. by apply Forall_rev.
Qed.

Lemma all_digits_trimmed s : all_digits s = true → trimmed s.
Proof.
  intros Hd. apply graphic_trimmed. induction s as [|c s IH]; cbn [bytes_of]; [constructor|].
  apply andb_true_iff in Hd as [Hc Hs]. constructor; [|by apply IH].
  unfold is_digit, byte_in in Hc. apply andb_true_iff in Hc as [?%N.leb_le ?%N.leb_le]. unfold graphic. lia.
Qed.
