(* ===== verification/GoTime.v ===== *)
(** * GoTime: instants as RFC 3339 text

    The formatting and parsing of [time.Time] with the layouts [time.RFC3339] and
    [time.RFC3339Nano], which the stores use to keep instants in TEXT columns and
    the revocation list uses in its banner. *)

From S2P Require Import Prelude GoText.

(** ** The proleptic Gregorian calendar

    Days are counted from 1970-01-01; the computation goes by 400-year eras that
    start on March 1. *)
Definition era_days : Z := 146097.
Definition epoch_shift : Z := 719468.

(** Within an era: centuries of 36524 days (the last one may be a day longer),
    then four-year groups of 1461 days, then years. *)
Definition century (doe : Z) : Z := let n := doe / 36524 in n - n / 4.
Definition quad (doe : Z) : Z := (doe - 36524 * century doe) / 1461.
Definition year_of_quad (doe : Z) : Z :=
  let n := (doe - 36524 * century doe) mod 1461 / 365 in n - n / 4.
Definition year_of_era (doe : Z) : Z := 100 * century doe + 4 * quad doe + year_of_quad doe.
Definition day_of_year (doe : Z) : Z :=
  (doe - 36524 * century doe) mod 1461 - 365 * year_of_quad doe.
Definition month_of_doy (doy : Z) : Z :=
  let mp := (5 * doy + 2) / 153 in if mp <? 10 then mp + 3 else mp - 9.
Definition day_of_doy (doy : Z) : Z :=
  let mp := (5 * doy + 2) / 153 in doy - (153 * mp + 2) / 5 + 1.

(** [t.Date()]: year, month, day of a day count. *)
Definition civil_from_days (days : Z) : Z * Z * Z :=
  let z := days + epoch_shift in
  let era := z / era_days in
  let doe := z mod era_days in
  let m := month_of_doy (day_of_year doe) in
  (400 * era + year_of_era doe + (if m <=? 2 then 1 else 0), m, day_of_doy (day_of_year doe)).

Definition doe_of_civil (yoe m d : Z) : Z :=
  let doy := (153 * (if m <=? 2 then m + 9 else m - 3) + 2) / 5 + d - 1 in
  365 * yoe + yoe / 4 - yoe / 100 + doy.

(** The day count of [time.Date(y, m, d, …, UTC)], for a valid month and day. *)
Definition days_from_civil (y m d : Z) : Z :=
  let y' := if m <=? 2 then y - 1 else y in
  era_days * (y' / 400) + doe_of_civil (y' mod 400) m d - epoch_shift.

Definition leap_year (y : Z) : bool :=
  (y mod 4 =? 0) && (negb (y mod 100 =? 0) || (y mod 400 =? 0)).
(** [daysIn(m, year)] *)
Definition days_in (m y : Z) : Z :=
  if m =? 2 then if leap_year y then 29 else 28
  else if (m =? 4) || (m =? 6) || (m =? 9) || (m =? 11) then 30 else 31.

(** ** Formatting *)

(** [appendInt(b, n, width)] for [0 <= n < 10^width], in front of [acc]. *)
Fixpoint pad (w : nat) (n : Z) (acc : string) : string :=
  match w with
  | O => acc
  | S w => pad w (n / 10) (String (digit_byte (n mod 10)) acc)
  end.

Fixpoint trim_zeros (w : nat) (n : Z) : nat * Z :=
  match w with
  | O => (O, n)
  | S w' => if n mod 10 =? 0 then trim_zeros w' (n / 10) else (w, n)
  end.

(** [appendNano]: a point and up to nine digits, trailing zeros removed. *)
Definition append_nano (ns : Z) (acc : string) : string :=
  match trim_zeros 9 ns with
  | (O, _) => acc
  | (w, n) => String "." (pad w n acc)
  end.

Definition day_ns : Z := 86400 * ns_per_sec.

Definition append_rfc3339 (t : time) (frac : string → string) : string :=
  let '(y, m, d) := civil_from_days (t / day_ns) in
  let sod := (t mod day_ns) / ns_per_sec in
  pad 4 y (String "-" (pad 2 m (String "-" (pad 2 d (String "T"
    (pad 2 (sod / 3600) (String ":" (pad 2 (sod / 60 mod 60) (String ":"
      (pad 2 (sod mod 60) (frac "Z"))))))))))).

(** [t.UTC().Format(time.RFC3339)] and [t.UTC().Format(time.RFC3339Nano)], for
    years 0 to 9999. *)
Definition format_rfc3339 (t : time) : string := append_rfc3339 t id.
Definition format_rfc3339nano (t : time) : string :=
  append_rfc3339 t (append_nano (t mod ns_per_sec)).

(** ** Durations as text: [d.String()], and [d.Round(m)] for [m > 0] *)

(** [fmtFrac]: the fraction [v mod 10^prec] with its point, trailing zeros removed. *)
Definition append_frac (prec : nat) (v : Z) (acc : string) : string :=
  match trim_zeros prec (v mod 10 ^ Z.of_nat prec) with
  | (O, _) => acc
  | (w, n) => String "." (pad w n acc)
  end.

Definition micro_sign : string := String (ascii_of_N 0xC2) (String (ascii_of_N 0xB5) "").

Definition duration_string (d : duration) : string :=
  let u := Z.abs d in
  let scaled prec unit := FormatUint (u / 10 ^ Z.of_nat prec) +:+ append_frac prec u unit in
  if u =? 0 then "0s" else
  (if d <? 0 then "-" else "") +:+
  if u <? 1000 then scaled 0%nat "ns" else
  if u <? 1000000 then scaled 3%nat (micro_sign +:+ "s") else
  if u <? second then scaled 6%nat "ms" else
  let s := u / second in
  let h := s / 3600 in
  (if h =? 0 then "" else FormatUint h +:+ "h") +:+
  (if s <? 60 then "" else FormatUint (s / 60 mod 60) +:+ "m") +:+
  FormatUint (s mod 60) +:+ append_frac 9 u "s".

Example duration_string_ex :
  duration_string 0 = "0s" ∧ duration_string (90 * minute) = "1h30m0s" ∧
  duration_string (- 1500000000) = "-1.5s" ∧ duration_string 2500000 = "2.5ms" ∧
  duration_string (-2^63) = "-2562047h47m16.854775808s".
Proof. by vm_compute. Qed.

Definition duration_round (d m : duration) : duration :=
  let r := Z.rem (Z.abs d) m in
  if r + r <? m then d - Z.sgn d * r
  else Z.max (-2^63) (Z.min (2^63 - 1) (if d <? 0 then d - m + r else d + m - r)).

(** ** Parsing: [time.Parse(time.RFC3339Nano, s)] *)

Definition err_time (s : string) : error := ErrOpaque ("parsing time " +:+ fmt_q s).

(** [getnum(value, true)] and the four-digit year: exactly [w] digits. *)
Fixpoint take_digits (w : nat) (acc : Z) (s : string) : option (Z * string) :=
  match w, s with
  | O, _ => Some (acc, s)
  | S w, String c s' =>
      if is_digit c then take_digits w (acc * 10 + digit_val c) s' else None
  | _, _ => None
  end.

(** [getnum(value, false)]: one or two digits, which the hour field accepts. *)
Definition take_hour (s : string) : option (Z * string) :=
  match s with
  | String a (String b s') =>
      if negb (is_digit a) then None else
      if is_digit b then Some (digit_val a * 10 + digit_val b, s')
      else Some (digit_val a, String b s')
  | String a "" => if is_digit a then Some (digit_val a, "") else None
  | "" => None
  end.

Definition expect (c : ascii) (s : string) : option string :=
  match s with String x s' => if bool_decide (x = c) then Some s' else None | "" => None end.

(** The digits after the point: the first nine count, the others are dropped. *)
Fixpoint read_frac (room : nat) (acc : Z) (s : string) : Z * nat * string :=
  match s with
  | String c s' =>
      if is_digit c then
        match room with
        | S k => read_frac k (acc * 10 + digit_val c) s'
        | O => read_frac O acc s'
        end
      else (acc, room, s)
  | "" => (acc, room, s)
  end.

Definition take_frac (s : string) : Z * string :=
  match s with
  | String p (String c s') =>
      if (byte_is 46 p || byte_is 44 p) && is_digit c
      then let '(n, room, rest) := read_frac 9 0 (String c s') in
           (n * 10 ^ Z.of_nat room, rest)
      else (0, s)
  | _ => (0, s)
  end.

(** The zone: [Z], or a signed offset in seconds. *)
Definition take_zone (s : string) : option (Z * string) :=
  match s with
  | "" => None
  | String c s' =>
      if byte_is 90 c then Some (0, s') else
      sign ← (if byte_is 43 c then Some 1 else if byte_is 45 c then Some (-1) else None);
      '(hr, s1) ← take_digits 2 0 s';
      s2 ← expect ":" s1;
      '(mm, s3) ← take_digits 2 0 s2;
      if (24 <? hr) || (60 <? mm) then None else Some (sign * ((hr * 60 + mm) * 60), s3)
  end.

Definition in_range (lo hi n : Z) : bool := (lo <=? n) && (n <=? hi).

Definition parse_opt (s : string) : option time :=
  '(y, s) ← take_digits 4 0 s; s ← expect "-" s;
  '(m, s) ← take_digits 2 0 s; s ← expect "-" s;
  '(d, s) ← take_digits 2 0 s; s ← expect "T" s;
  '(hh, s) ← take_hour s; s ← expect ":" s;
  '(mi, s) ← take_digits 2 0 s; s ← expect ":" s;
  '(ss, s) ← take_digits 2 0 s;
  let '(ns, s) := take_frac s in
  '(off, s) ← take_zone s;
  if str_empty s && in_range 1 12 m && in_range 1 (days_in m y) d &&
     in_range 0 23 hh && in_range 0 59 mi && in_range 0 59 ss
  then Some ((days_from_civil y m d * 86400 + hh * 3600 + mi * 60 + ss - off) * ns_per_sec + ns)
  else None.

Definition parse_rfc3339nano (s : string) : result time :=
  match parse_opt s with Some t => Ok t | None => Err (err_time s) end.

Example format_epoch : format_rfc3339nano 1500000000 = "1970-01-01T00:00:01.5Z".
Proof. reflexivity. Qed.
Example format_zero : format_rfc3339nano zero_time = "0001-01-01T00:00:00Z".
Proof. reflexivity. Qed.
Example format_2026 : format_rfc3339nano (1779796800 * ns_per_sec) = "2026-05-26T12:00:00Z".
Proof. vm_compute. reflexivity. Qed.
Example parse_offset : parse_rfc3339nano "2026-05-26T14:00:00,250+02:00" = Ok (1779796800 * ns_per_sec + 250000000).
Proof. vm_compute. reflexivity. Qed.
Example parse_bad_day : is_ok (parse_rfc3339nano "2026-02-29T14:00:00Z") = false.
Proof. vm_compute. reflexivity. Qed.

(** ** The calendar round trip *)

Lemma century_spec doe : 0 ≤ doe < era_days →
  0 ≤ century doe ≤ 3 ∧ 0 ≤ doe - 36524 * century doe ≤ 36524 ∧
  (doe - 36524 * century doe = 36524 → century doe = 3).
Proof.
  intros H. unfold century, era_days in *.
  assert (doe / 36524 = 4 ∧ doe = 146096 ∨ 0 ≤ doe / 36524 ≤ 3) as [[-> ->]|Hn].
  { pose proof (Z.div_mod doe 36524 ltac:(lia)).
    pose proof (Z.mod_pos_bound doe 36524 ltac:(lia)). lia. }
  - vm_compute. intuition discriminate.
  - rewrite (Z.div_small (doe / 36524) 4), Z.sub_0_r by lia.
    pose proof (Z.div_mod doe 36524 ltac:(lia)).
    pose proof (Z.mod_pos_bound doe 36524 ltac:(lia)). lia.
Qed.

(** Centuries, four-year groups, years and days of an era, all at once. *)
Lemma era_fields doe : 0 ≤ doe < era_days →
  0 ≤ century doe ≤ 3 ∧ 0 ≤ quad doe ≤ 24 ∧ 0 ≤ year_of_quad doe ≤ 3 ∧
  0 ≤ day_of_year doe ≤ 365 ∧
  doe = 36524 * century doe + 1461 * quad doe + 365 * year_of_quad doe + day_of_year doe ∧
  (day_of_year doe = 365 → year_of_quad doe = 3 ∧ (quad doe = 24 → century doe = 3)).
Proof.
  intros H. destruct (century_spec doe H) as (Hc & Hr & H3).
  unfold quad, year_of_quad, day_of_year, year_of_quad.
  set (c := century doe) in *. set (r := doe - 36524 * c) in *.
  pose proof (Z.div_mod r 1461 ltac:(lia)) as Hq.
  pose proof (Z.mod_pos_bound r 1461 ltac:(lia)) as Hb.
  set (q := r / 1461) in *. set (e := r mod 1461) in *.
  assert (e / 365 = 4 ∧ e = 1460 ∨ 0 ≤ e / 365 ≤ 3) as [[-> He]|Hn].
  { pose proof (Z.div_mod e 365 ltac:(lia)). pose proof (Z.mod_pos_bound e 365 ltac:(lia)). lia. }
  - replace (4 - 4 / 4) with 3 by done. unfold r in *. lia.
  - rewrite (Z.div_small (e / 365) 4), Z.sub_0_r by lia.
    pose proof (Z.div_mod e 365 ltac:(lia)). pose proof (Z.mod_pos_bound e 365 ltac:(lia)).
    unfold r in *. lia.
Qed.

Lemma in_range_spec lo hi n : in_range lo hi n = true ↔ lo ≤ n ≤ hi.
Proof. unfold in_range. rewrite andb_true_iff, !Z.leb_le. done. Qed.

(** Month and day of a day of the year, checked day by day. *)
Definition doy_ok (doy : Z) : bool :=
  let m := month_of_doy doy in
  let d := day_of_doy doy in
  in_range 1 12 m && in_range 1 (if m =? 2 then if doy =? 365 then 29 else 28 else days_in m 1) d &&
  ((153 * (if m <=? 2 then m + 9 else m - 3) + 2) / 5 + d - 1 =? doy).

Lemma doy_checked doy : 0 ≤ doy ≤ 365 → doy_ok doy = true.
Proof.
  intros H. assert (forallb (λ n, doy_ok (Z.of_nat n)) (seq 0 366) = true) as Hall
    by (vm_compute; reflexivity).
  rewrite forallb_forall in Hall. rewrite <- (Z2Nat.id doy) by lia.
  apply Hall, in_seq. lia.
Qed.

Lemma days_in_ok m d y doy :
  in_range 1 (if m =? 2 then if doy =? 365 then 29 else 28 else days_in m 1) d = true →
  (doy = 365 → m = 2 → leap_year y = true) → 1 ≤ d ≤ days_in m y.
Proof.
  rewrite in_range_spec. unfold days_in. destruct (Z.eqb_spec m 2); [|done].
  destruct (Z.eqb_spec doy 365); intros ? Hl; [by rewrite Hl|]. case_match; lia.
Qed.

(** The last day of a March-based year is February 29 of a leap year. *)
Lemma feb29_leap era doe :
  0 ≤ doe < era_days → day_of_year doe = 365 →
  leap_year (400 * era + year_of_era doe + 1) = true.
Proof.
  intros Hdoe E. destruct (era_fields doe Hdoe) as (Hc & Hq & Hy & Hd & He & Hl).
  destruct (Hl E) as [Hy3 Hq24].
  assert (400 * era + year_of_era doe + 1 = 400 * era + 100 * century doe + 4 * (quad doe + 1)) as ->
    by (unfold year_of_era; lia).
  unfold leap_year.
  assert ((400 * era + 100 * century doe + 4 * (quad doe + 1)) mod 4 = 0) as ->.
  { symmetry. apply (Z.mod_unique_pos _ _ (100 * era + 25 * century doe + quad doe + 1)); lia. }
  destruct (decide (quad doe = 24)) as [E24|E24].
  - rewrite (Hq24 E24), E24.
    assert ((400 * era + 100 * 3 + 4 * (24 + 1)) mod 400 = 0) as ->.
    { symmetry. apply (Z.mod_unique_pos _ _ (era + 1)); lia. }
    by rewrite orb_true_r.
  - assert ((400 * era + 100 * century doe + 4 * (quad doe + 1)) mod 100 = 4 * (quad doe + 1)) as ->.
    { symmetry. apply (Z.mod_unique_pos _ _ (4 * era + century doe)); lia. }
    by destruct (Z.eqb_spec (4 * (quad doe + 1)) 0); [lia|].
Qed.

Lemma civil_valid days y m d :
  civil_from_days days = (y, m, d) →
  1 ≤ m ≤ 12 ∧ 1 ≤ d ≤ days_in m y ∧ days_from_civil y m d = days.
Proof.
  unfold civil_from_days. intros [= <- <- <-].
  set (z := days + epoch_shift). set (doe := z mod era_days).
  pose proof (Z.mod_pos_bound z era_days ltac:(done)) as Hdoe. fold doe in Hdoe.
  pose proof (Z.div_mod z era_days ltac:(done)) as Hz. fold doe in Hz. set (era := z / era_days) in *.
  destruct (era_fields doe Hdoe) as (Hc & Hq & Hy & Hd & He & Hl).
  pose proof (doy_checked _ Hd) as Hok. unfold doy_ok in Hok.
  set (doy := day_of_year doe) in *. set (m := month_of_doy doy) in *. set (d := day_of_doy doy) in *.
  apply andb_true_iff in Hok as [[Hm Hd']%andb_true_iff Hdoy].
  apply in_range_spec in Hm. apply Z.eqb_eq in Hdoy.
  assert (0 ≤ year_of_era doe < 400) as Hyoe by (unfold year_of_era; lia).
  assert (year_of_era doe / 4 = 25 * century doe + quad doe) as Hy4.
  { symmetry. apply (Z.div_unique_pos _ _ _ (year_of_quad doe)); unfold year_of_era; lia. }
  assert (year_of_era doe / 100 = century doe) as Hy100.
  { symmetry. apply (Z.div_unique_pos _ _ _ (4 * quad doe + year_of_quad doe)); unfold year_of_era; lia. }
  split; [done|]. split.
  - eapply days_in_ok; [apply Hd'|]. intros E Hm2. rewrite Hm2. cbn [Z.leb Z.compare Pos.compare Pos.compare_cont].
    by apply feb29_leap.
  - unfold days_from_civil, doe_of_civil. cbv zeta.
    assert ((if m <=? 2 then 400 * era + year_of_era doe + (if m <=? 2 then 1 else 0) - 1
             else 400 * era + year_of_era doe + (if m <=? 2 then 1 else 0)) =
            year_of_era doe + era * 400) as -> by (destruct (m <=? 2); lia).
    rewrite Z.div_add, Z.mod_add, (Z.div_small (year_of_era doe)), (Z.mod_small (year_of_era doe)) by lia.
    rewrite Hy4, Hy100. unfold year_of_era, z, era_days, epoch_shift in *. lia.
Qed.

(** ** The text round trip *)

Lemma take_digits_pad w k n a rest :
  0 ≤ n < 10 ^ Z.of_nat w →
  take_digits (w + k) a (pad w n rest) = take_digits k (a * 10 ^ Z.of_nat w + n) rest.
Proof.
  revert k n rest. induction w as [|w IH]; intros k n rest Hn.
  - simpl. f_equal. simpl in Hn. lia.
  - rewrite Nat2Z.inj_succ, Z.pow_succ_r in * by lia.
    pose proof (Z.div_mod n 10 ltac:(lia)). pose proof (Z.mod_pos_bound n 10 ltac:(lia)).
    cbn [pad]. replace (S w + k)%nat with (w + S k)%nat by lia.
    rewrite IH by (split; [apply Z.div_pos; lia|apply Z.div_lt_upper_bound; lia]).
    cbn [take_digits]. destruct (digit_byte_spec (n mod 10)) as [-> ->]; [done|]. f_equal. lia.
Qed.

Lemma take_digits_pad0 w n rest :
  0 ≤ n < 10 ^ Z.of_nat w → take_digits w 0 (pad w n rest) = Some (n, rest).
Proof. intros H. pose proof (take_digits_pad w 0 n 0 rest H) as E. rewrite Nat.add_0_r in E. by rewrite E. Qed.

Lemma read_frac_pad w k n a rest :
  0 ≤ n < 10 ^ Z.of_nat w →
  read_frac (w + k) a (pad w n rest) = read_frac k (a * 10 ^ Z.of_nat w + n) rest.
Proof.
  revert k n rest. induction w as [|w IH]; intros k n rest Hn.
  - simpl. f_equal. simpl in Hn. lia.
  - rewrite Nat2Z.inj_succ, Z.pow_succ_r in * by lia.
    pose proof (Z.div_mod n 10 ltac:(lia)). pose proof (Z.mod_pos_bound n 10 ltac:(lia)).
    cbn [pad]. replace (S w + k)%nat with (w + S k)%nat by lia.
    rewrite IH by (split; [apply Z.div_pos; lia|apply Z.div_lt_upper_bound; lia]).
    cbn [read_frac]. destruct (digit_byte_spec (n mod 10)) as [-> ->]; [done|]. f_equal. lia.
Qed.

Lemma pad_head w n rest : 0 ≤ n → ∃ d s, 0 ≤ d < 10 ∧ pad (S w) n rest = String (digit_byte d) s.
Proof.
  revert n rest. induction w as [|w IH]; intros n rest Hn.
  - exists (n mod 10), rest. split; [apply Z.mod_pos_bound; lia|done].
  - cbn [pad]. apply IH. apply Z.div_pos; lia.
Qed.

Lemma trim_zeros_spec w n w' n' :
  trim_zeros w n = (w', n') → 0 ≤ n < 10 ^ Z.of_nat w →
  (w' ≤ w)%nat ∧ 0 ≤ n' < 10 ^ Z.of_nat w' ∧ n = n' * 10 ^ Z.of_nat (w - w').
Proof.
  revert n. induction w as [|w IH]; intros n; cbn [trim_zeros].
  - intros [= <- <-] Hn. simpl. simpl in Hn. lia.
  - destruct (Z.eqb_spec (n mod 10) 0) as [E|E].
    + intros H Hn. rewrite Nat2Z.inj_succ, Z.pow_succ_r in Hn by lia.
      pose proof (Z.div_mod n 10 ltac:(lia)).
      destruct (IH _ H) as (? & ? & Hv).
      { split; [apply Z.div_pos; lia|apply Z.div_lt_upper_bound; lia]. }
      split_and!; [lia|lia|lia|]. replace (S w - w')%nat with (S (w - w')) by lia.
      rewrite Nat2Z.inj_succ, Z.pow_succ_r by lia. lia.
    + intros [= <- <-] Hn. split_and!; [lia|lia|apply Hn|].
      rewrite Nat.sub_diag. simpl. lia.
Qed.

Lemma take_frac_nano ns : 0 ≤ ns < ns_per_sec → take_frac (append_nano ns "Z") = (ns, "Z").
Proof.
  intros Hns. unfold append_nano. destruct (trim_zeros 9 ns) as [w n] eqn:E.
  apply trim_zeros_spec in E as (Hw & Hn & ->); [|done]. destruct w as [|w].
  - simpl in Hn. assert (n = 0) as -> by lia. done.
  - destruct (pad_head w n "Z") as (d & s & Hd & Hs); [lia|].
    pose proof (read_frac_pad (S w) (9 - S w) n 0 "Z" Hn) as Hr.
    rewrite Hs in *. unfold take_frac. destruct (digit_byte_spec d Hd) as [-> _].
    cbn [byte_is andb orb N_of_ascii]. replace (S w + (9 - S w))%nat with 9%nat in Hr by lia.
    cbn -[read_frac Z.pow Z.of_nat]. rewrite Hr. cbn -[Z.pow Z.of_nat Nat.sub]. done.
Qed.

Lemma take_hour_pad n rest : 0 ≤ n < 100 → take_hour (pad 2 n rest) = Some (n, rest).
Proof.
  intros Hn. cbn [pad take_hour].
  pose proof (Z.div_mod n 10 ltac:(lia)). pose proof (Z.mod_pos_bound n 10 ltac:(lia)).
  assert (0 ≤ n / 10 < 10) by (split; [apply Z.div_pos; lia|apply Z.div_lt_upper_bound; lia]).
  rewrite (Z.mod_small (n / 10)) by done.
  destruct (digit_byte_spec (n / 10)) as [-> ->]; [done|].
  destruct (digit_byte_spec (n mod 10)) as [-> ->]; [done|]. simpl. f_equal. f_equal. lia.
Qed.

(** Instants whose year has four digits. *)
Definition year_ok (t : time) : Prop :=
  -62167219200 * ns_per_sec ≤ t < 253402300800 * ns_per_sec.

Lemma zero_year_ok : year_ok zero_time.
Proof. by vm_compute. Qed.

Lemma civil_year days y m d :
  civil_from_days days = (y, m, d) → -719528 ≤ days < 2932897 → 0 ≤ y < 10000.
Proof.
  unfold civil_from_days. intros [= <- <- <-] Hd.
  set (z := days + epoch_shift). set (doe := z mod era_days).
  pose proof (Z.mod_pos_bound z era_days ltac:(done)) as Hdoe. fold doe in Hdoe.
  pose proof (Z.div_mod z era_days ltac:(done)) as Hz. fold doe in Hz. set (era := z / era_days) in *.
  destruct (era_fields doe Hdoe) as (Hc & Hq & Hy & Hdy & He & Hl).
  assert (month_of_doy (day_of_year doe) = if day_of_year doe <? 306
    then (5 * day_of_year doe + 2) / 153 + 3 else (5 * day_of_year doe + 2) / 153 - 9) as ->.
  { unfold month_of_doy. destruct (Z.ltb_spec (day_of_year doe) 306).
    - assert ((5 * day_of_year doe + 2) / 153 < 10) by (apply Z.div_lt_upper_bound; lia).
      by destruct (Z.ltb_spec ((5 * day_of_year doe + 2) / 153) 10); [|lia].
    - assert (10 ≤ (5 * day_of_year doe + 2) / 153) by (apply Z.div_le_lower_bound; lia).
      by destruct (Z.ltb_spec ((5 * day_of_year doe + 2) / 153) 10); [lia|]. }
  assert (z = days + 719468) as Hz' by done. clearbody era doe z.
  unfold year_of_era, era_days in *.
  assert (0 ≤ (5 * day_of_year doe + 2) / 153) by (apply Z.div_pos; lia).
  assert ((5 * day_of_year doe + 2) / 153 < 12) by (apply Z.div_lt_upper_bound; lia).
  destruct (Z.ltb_spec (day_of_year doe) 306); case_match; lia.
Qed.

(** One step of the parser: bind a field already read, skip a separator. *)
Ltac simpl_bind := cbn [option_bind base.mbind expect]; rewrite ?bool_decide_true by done;
  cbn [option_bind base.mbind].

Lemma parse_append t frac ns :
  year_ok t → take_frac (frac "Z") = (ns, "Z") →
  parse_opt (append_rfc3339 t frac) =
  Some (t / ns_per_sec * ns_per_sec + ns).
Proof.
  intros Ht Hf. unfold append_rfc3339.
  destruct (civil_from_days (t / day_ns)) as [[y m] d] eqn:E.
  set (sod := (t mod day_ns) / ns_per_sec).
  pose proof (Z.div_mod t day_ns ltac:(done)) as Hdiv.
  pose proof (Z.mod_pos_bound t day_ns ltac:(done)) as Hmod.
  assert (0 ≤ y < 10 ^ Z.of_nat 4) as Hy.
  { eapply civil_year; [apply E|]. unfold year_ok, day_ns, ns_per_sec in *.
    split; [apply Z.div_le_lower_bound; lia|apply Z.div_lt_upper_bound; lia]. }
  apply civil_valid in E as (Hm & Hd & Hdays).
  assert (days_in m y ≤ 31) as H31 by (unfold days_in; repeat case_match; lia).
  assert (0 ≤ sod < 86400) as Hsod.
  { unfold sod. split; [apply Z.div_pos; [lia|done]|apply Z.div_lt_upper_bound; [done|]].
    unfold day_ns in *. lia. }
  assert (sod = t / ns_per_sec - 86400 * (t / day_ns)) as Hs.
  { assert (t / ns_per_sec = 86400 * (t / day_ns) + sod); [|lia].
    unfold sod. rewrite <- Z.div_add_l by done. f_equal. unfold day_ns in *. lia. }
  cbv beta iota zeta. fold sod.
  assert (0 ≤ sod / 3600 < 24) by (split; [apply Z.div_pos; lia|apply Z.div_lt_upper_bound; lia]).
  pose proof (Z.mod_pos_bound (sod / 60) 60 ltac:(lia)).
  pose proof (Z.mod_pos_bound sod 60 ltac:(lia)).
  assert (sod = 3600 * (sod / 3600) + 60 * (sod / 60 mod 60) + sod mod 60) as Hfields.
  { pose proof (Z.div_mod sod 60 ltac:(lia)). pose proof (Z.div_mod (sod / 60) 60 ltac:(lia)) as H60.
    rewrite Z.div_div in H60 by lia. change (60 * 60) with 3600 in H60. lia. }
  assert (0 ≤ m < 10 ^ Z.of_nat 2 ∧ 0 ≤ d < 10 ^ Z.of_nat 2 ∧
    0 ≤ sod / 60 mod 60 < 10 ^ Z.of_nat 2 ∧ 0 ≤ sod mod 60 < 10 ^ Z.of_nat 2)
    as (Hm2 & Hd2 & Hmi2 & Hss2) by (change (10 ^ Z.of_nat 2) with 100; lia).
  clearbody sod. unfold parse_opt.
  rewrite take_digits_pad0 by done; simpl_bind. rewrite take_digits_pad0 by done; simpl_bind.
  rewrite take_digits_pad0 by done; simpl_bind. rewrite take_hour_pad by lia; simpl_bind.
  rewrite take_digits_pad0 by done; simpl_bind. rewrite take_digits_pad0 by done; simpl_bind.
  rewrite Hf; simpl_bind.
  assert (str_empty "" && in_range 1 12 m && in_range 1 (days_in m y) d && in_range 0 23 (sod / 3600) &&
    in_range 0 59 (sod / 60 mod 60) && in_range 0 59 (sod mod 60) = true) as Hr
    by (rewrite !andb_true_iff, !in_range_spec; split_and!; try done; lia).
  change (take_zone "Z") with (Some (0, "")). simpl_bind. rewrite Hr, Hdays. f_equal. lia.
Qed.

Lemma parse_format_nano t : year_ok t → parse_rfc3339nano (format_rfc3339nano t) = Ok t.
Proof.
  intros Ht. unfold parse_rfc3339nano, format_rfc3339nano.
  pose proof (Z.mod_pos_bound t ns_per_sec ltac:(done)).
  rewrite (parse_append t _ (t mod ns_per_sec)); [|done|by apply take_frac_nano].
  f_equal. pose proof (Z.div_mod t ns_per_sec ltac:(done)). lia.
Qed.

Lemma format_nano_inj t u :
  year_ok t → year_ok u → format_rfc3339nano t = format_rfc3339nano u → t = u.
Proof.
  intros Ht%parse_format_nano Hu%parse_format_nano E. rewrite E, Hu in Ht. congruence.
Qed.

(** Second granularity: the fraction is dropped. *)
Lemma parse_format_seconds t :
  year_ok t → parse_rfc3339nano (format_rfc3339 t) = Ok (t / ns_per_sec * ns_per_sec).
Proof.
  intros Ht. unfold parse_rfc3339nano, format_rfc3339.
  rewrite (parse_append t _ 0); [|done|done]. f_equal. lia.
Qed.
