(* ===== verification/GoDuration.v ===== *)
(** * GoDuration: durations from text

    [time.ParseDuration] as the standard library has it: a sign, then numbers with
    units, each with a fraction that is scaled in float64.  A product of float64
    rounds to 53 significant bits, ties to even ([round53], [quot53]). *)

From S2P Require Import Prelude GoText.

(** ** Rounding to 53 bits *)

Definition round53 (m : Z) : Z :=
  let a := Z.abs m in
  let unit := 2 ^ Z.max 0 (Z.log2 a - 52) in
  let q := a / unit in
  let up := (unit <? 2 * (a mod unit)) || ((2 * (a mod unit) =? unit) && Z.odd q) in
  Z.sgn m * ((if up then q + 1 else q) * unit).

(** The float64 nearest to a positive fraction, as an integer over a power of two:
    enough bits of the quotient, with a sticky bit for the rest, then rounded. *)
Definition quot53 (n d : Z) : Z * Z :=
  let k := Z.max 0 (Z.log2 d - Z.log2 n + 56) in
  let q := n * 2 ^ k / d in
  let sticky := if n * 2 ^ k mod d =? 0 then 0 else 1 in
  (round53 (2 * q + sticky), k + 1).

Lemma round53_near m : 0 ≤ m → 2 * Z.abs (round53 m - m) ≤ 2 ^ Z.max 0 (Z.log2 m - 52).
Proof.
  intros Hm. unfold round53. rewrite (Z.abs_eq m) by done.
  destruct (Z.eq_dec m 0) as [->|Hne]; [by vm_compute|]. rewrite Z.sgn_pos by lia.
  set (u := 2 ^ Z.max 0 (Z.log2 m - 52)).
  assert (0 < u) as Hu by (apply Z.pow_pos_nonneg; lia).
  pose proof (Z.div_mod m u ltac:(lia)). pose proof (Z.mod_pos_bound m u Hu).
  set (q := m / u) in *. set (r := m mod u) in *.
  destruct (Z.ltb_spec u (2 * r)); simpl; [nia|].
  destruct (Z.eqb_spec (2 * r) u); simpl; [destruct (Z.odd q); nia|nia].
Qed.

Lemma round53_exact m : 0 ≤ m ≤ 2^53 → round53 m = m.
Proof.
  intros [H0 Hm]. destruct (Z.eq_dec m (2^53)) as [->|Hne]; [done|].
  pose proof (round53_near m H0) as H.
  assert (Z.max 0 (Z.log2 m - 52) = 0) as E.
  { destruct (Z.eq_dec m 0) as [->|]; [done|].
    pose proof (proj1 (Z.log2_lt_pow2 m 53 ltac:(lia)) ltac:(lia)). lia. }
  rewrite E in H. change (2^0) with 1 in H. lia.
Qed.

(** Rounding does not cross a multiple of the rounding unit. *)
Lemma round53_below m x :
  0 ≤ m ≤ x → (2 ^ Z.max 0 (Z.log2 m - 52) | x) → round53 m ≤ x.
Proof.
  intros [H0 Hm] [k Hk]. unfold round53. rewrite (Z.abs_eq m) by done.
  destruct (Z.eq_dec m 0) as [->|Hne]; [simpl; lia|]. rewrite Z.sgn_pos by lia.
  set (u := 2 ^ Z.max 0 (Z.log2 m - 52)) in *.
  assert (0 < u) as Hu by (apply Z.pow_pos_nonneg; lia).
  pose proof (Z.div_mod m u ltac:(lia)). pose proof (Z.mod_pos_bound m u Hu).
  set (q := m / u) in *. set (r := m mod u) in *.
  assert (q ≤ k) by nia. destruct (Z.eq_dec q k) as [->|].
  - assert (r = 0) as -> by nia. rewrite Z.mul_0_r.
    destruct (Z.ltb_spec u 0); [lia|]. destruct (Z.eqb_spec 0 u); [lia|]. simpl. nia.
  - destruct (_ || _); nia.
Qed.

Lemma round53_nonneg m : 0 ≤ m → 0 ≤ round53 m.
Proof.
  intros Hm. unfold round53. rewrite (Z.abs_eq m) by done.
  assert (0 < 2 ^ Z.max 0 (Z.log2 m - 52)) as Hu by (apply Z.pow_pos_nonneg; lia).
  pose proof (Z.div_pos m _ Hm Hu). pose proof (proj2 (Z.sgn_nonneg m) Hm).
  apply Z.mul_nonneg_nonneg; [done|]. destruct (_ || _); nia.
Qed.

(** A multiple of the rounding unit stays. *)
Lemma round53_multiple m : 0 ≤ m → (2 ^ Z.max 0 (Z.log2 m - 52) | m) → round53 m = m.
Proof.
  intros Hm Hd. unfold round53. rewrite (Z.abs_eq m) by done. set (u := 2 ^ Z.max 0 (Z.log2 m - 52)) in *.
  assert (0 < u) as Hu by (apply Z.pow_pos_nonneg; lia).
  destruct (Z.eq_dec m 0) as [->|]; [done|]. rewrite Z.sgn_pos by lia.
  pose proof (Z.div_mod m u ltac:(lia)) as E. apply Z.mod_divide in Hd; [|lia]. rewrite Hd in E |- *.
  destruct (Z.ltb_spec u (2 * 0)); [lia|]. destruct (Z.eqb_spec (2 * 0) u); [lia|]. simpl. lia.
Qed.

(** ** [int64(d.Seconds())]

    [Seconds] adds the seconds and the fraction in float64, so a fraction close to one
    rounds up once the seconds pass 2^24. *)
Definition int_seconds (d : duration) : Z :=
  let a := Z.abs d in
  let '(m, e) := quot53 (a mod second) second in
  Z.sgn d * (round53 (a / second * 2 ^ e + m) / 2 ^ e).

(** A whole number of seconds is exact. *)
Lemma int_seconds_whole n : 0 ≤ n < 2^53 → int_seconds (n * second) = n.
Proof.
  intros [H0 Hn]. unfold int_seconds. rewrite (Z.abs_eq (n * second)) by (by apply Z.mul_nonneg_nonneg).
  rewrite Z.mod_mul, Z.div_mul by done. change (quot53 0 second) with (0, 86). cbv iota.
  rewrite Z.add_0_r. destruct (Z.eq_dec n 0) as [->|Hne]; [done|].
  rewrite Z.sgn_pos by (apply Z.mul_pos_pos; [lia|done]). rewrite round53_multiple; [by rewrite Z.div_mul, Z.mul_1_l|by apply Z.mul_nonneg_nonneg|].
  rewrite Z.log2_mul_pow2 by lia. pose proof (proj1 (Z.log2_lt_pow2 n 53 ltac:(lia)) ltac:(lia)).
  pose proof (Z.log2_nonneg n). rewrite Z.max_r by lia.
  exists (n * 2 ^ (86 - (86 + Z.log2 n - 52))). rewrite <- Z.mul_assoc, <- Z.pow_add_r by lia. f_equal. f_equal. lia.
Qed.

Example int_seconds_rounds :
  int_seconds (3600 * second + 999999999) = 3600 ∧ int_seconds (- second) = -1 ∧
  int_seconds (20000000 * second + 999999999) = 20000001.
Proof. split_and!; by vm_compute. Qed.

(** ** [time.ParseDuration] *)

(** [leadingInt]: nothing when the number passes 2^63. *)
Fixpoint leadingInt (x : Z) (s : string) : option (Z * string) :=
  match s with
  | String c t =>
      if is_digit c then
        if 2^63 / 10 <? x then None else
        let x := x * 10 + digit_val c in
        if 2^63 <? x then None else leadingInt x t
      else Some (x, s)
  | "" => Some (x, s)
  end.

(** [leadingFraction]: the digits that fit, their scale, and what follows. *)
Fixpoint leadingFraction (x scale : Z) (overflow : bool) (s : string) : Z * Z * string :=
  match s with
  | String c t =>
      if is_digit c then
        if overflow || ((2^63 - 1) / 10 <? x) then leadingFraction x scale true t else
        let y := x * 10 + digit_val c in
        if 2^63 <? y then leadingFraction x scale true t else leadingFraction y (scale * 10) false t
      else (x, scale, s)
  | "" => (x, scale, s)
  end.

Definition unitMap (u : string) : option Z :=
  if bool_decide (u = "ns") then Some 1
  else if bool_decide (u ∈ ["us"; String "194" (String "181" "s"); String "206" (String "188" "s")]) then Some 1000
  else if bool_decide (u = "ms") then Some 1000000
  else if bool_decide (u = "s") then Some second
  else if bool_decide (u = "m") then Some minute
  else if bool_decide (u = "h") then Some hour
  else None.

(** The text up to a period or a digit. *)
Fixpoint take_unit (s : string) : string * string :=
  match s with
  | String c t =>
      if byte_is 46 c || is_digit c then ("", s) else let '(u, r) := take_unit t in (String c u, r)
  | "" => ("", s)
  end.

Definition err_duration (what orig : string) : error := ErrNew ("time: " +:+ what +:+ " " +:+ orig).
Definition invalid_duration (orig : string) : error := err_duration "invalid duration" (fmt_q orig).

(** What a fraction of a unit adds. *)
Definition fraction_of (f scale unit : Z) : Z :=
  let '(m, e) := quot53 unit scale in round53 (round53 f * m) / 2 ^ e.

(** One number with its unit, and the rest. *)
Definition parse_term (orig s : string) : result (Z * string) :=
  match s with
  | String c _ =>
      reject negb (byte_is 46 c || is_digit c) with invalid_duration orig;;
      match leadingInt 0 s with
      | None => Err (invalid_duration orig)
      | Some (v, s1) =>
          let pre := negb (Nat.eqb (String.length s1) (String.length s)) in
          let '(f, scale, s2, post) :=
            match s1 with
            | String d t =>
                if byte_is 46 d then
                  let '(f, scale, r) := leadingFraction 0 1 false t in
                  (f, scale, r, negb (Nat.eqb (String.length r) (String.length t)))
                else (0, 1, s1, false)
            | "" => (0, 1, s1, false)
            end in
          reject negb pre && negb post with invalid_duration orig;;
          let '(u, rest) := take_unit s2 in
          reject str_empty u with err_duration "missing unit in duration" (fmt_q orig);;
          match unitMap u with
          | None => Err (err_duration ("unknown unit " +:+ fmt_q u +:+ " in duration") (fmt_q orig))
          | Some unit =>
              reject 2^63 / unit <? v with invalid_duration orig;;
              let v := v * unit + (if 0 <? f then fraction_of f scale unit else 0) in
              reject 2^63 <? v with invalid_duration orig;;
              Ok (v, rest)
          end
      end
  | "" => Err (invalid_duration orig)
  end.

Fixpoint parse_terms (fuel : nat) (orig s : string) (d : Z) : result Z :=
  if str_empty s then Ok d else
  match fuel with
  | O => Err (invalid_duration orig)
  | S fuel =>
      vr <-r parse_term orig s;;
      reject 2^63 <? d + vr.1 with invalid_duration orig;;
      parse_terms fuel orig vr.2 (d + vr.1)
  end.

(** Every term is at least a digit or a period and a unit, so the length of the text
    is fuel enough ([parse_terms_fuel]). *)
Definition ParseDuration (s : string) : result duration :=
  let '(neg, s1) :=
    match s with
    | String c t => if byte_is 45 c || byte_is 43 c then (byte_is 45 c, t) else (false, s)
    | "" => (false, s)
    end in
  if bool_decide (s1 = "0") then Ok 0 else
  reject str_empty s1 with invalid_duration s;;
  d <-r parse_terms (String.length s1) s s1 0;;
  if neg : bool then Ok (- d)
  else reject 2^63 - 1 <? d with invalid_duration s;; Ok d.

(** ** The fuel *)

Lemma leadingInt_length s x v r : leadingInt x s = Some (v, r) → (String.length r ≤ String.length s)%nat.
Proof.
  revert x. induction s as [|c s IH]; intros x; simpl; [by intros [= _ <-]|].
  destruct (is_digit c); [|by intros [= _ <-]].
  destruct (_ <? x); [done|]. destruct (_ <? _); [done|]. intros H%IH. lia.
Qed.

Lemma leadingFraction_length s x sc o : (String.length (leadingFraction x sc o s).2 ≤ String.length s)%nat.
Proof.
  revert x sc o. induction s as [|c s IH]; intros x sc o; simpl; [done|].
  destruct (is_digit c); [|done].
  destruct (_ || _); [specialize (IH x sc true); lia|].
  destruct (_ <? _); [specialize (IH x sc true); lia|]. specialize (IH (x * 10 + digit_val c) (sc * 10) false). lia.
Qed.

Lemma take_unit_length s : (String.length (take_unit s).1 + String.length (take_unit s).2 = String.length s)%nat.
Proof.
  induction s as [|c s IH]; simpl; [done|]. destruct (_ || _); [done|].
  destruct (take_unit s) as [u r]. simpl in *. lia.
Qed.

(** A term is not empty. *)
Lemma parse_term_shorter orig s v r : parse_term orig s = Ok (v, r) → (String.length r < String.length s)%nat.
Proof.
  destruct s as [|c s]; [done|]. unfold parse_term. set (t := String c s).
  intros (_ & E)%guard_err_Ok. destruct (leadingInt 0 t) as [[n s1]|] eqn:E1; [|done].
  apply leadingInt_length in E1.
  destruct (match s1 with String d t0 => _ | "" => _ end) as [[[f sc] s2] post] eqn:E2.
  assert (String.length s2 ≤ String.length s1)%nat as Hs2.
  { destruct s1 as [|d t0]; [by injection E2 as _ _ <- _|]. destruct (byte_is 46 d); [|by injection E2 as _ _ <- _].
    pose proof (leadingFraction_length t0 0 1 false) as Hl. destruct (leadingFraction 0 1 false t0) as [[? ?] r0].
    injection E2 as _ _ <- _. simpl in *. lia. }
  apply guard_err_Ok in E as [_ E]. pose proof (take_unit_length s2) as Hu. destruct (take_unit s2) as [u rest].
  simpl in Hu. apply guard_err_Ok in E as [Hne E]. destruct (unitMap u) as [unit|]; [|done].
  apply guard_err_Ok in E as [_ E]. apply guard_err_Ok in E as [_ [= _ <-]].
  apply bool_decide_eq_false in Hne. destruct u; [done|]. simpl in Hu. lia.
Qed.

(** More fuel than bytes changes nothing. *)
Lemma parse_terms_fuel orig s d fuel :
  (String.length s ≤ fuel)%nat → parse_terms fuel orig s d = parse_terms (String.length s) orig s d.
Proof.
  assert (∀ n s d f g, (String.length s ≤ n)%nat → (String.length s ≤ f)%nat → (String.length s ≤ g)%nat →
    parse_terms f orig s d = parse_terms g orig s d) as H; [|intros; by eapply (H (String.length s))].
  clear. induction n as [|n IH]; intros s d f g Hn Hf Hg.
  { destruct s; [by destruct f, g|simpl in Hn; lia]. }
  destruct (str_empty s) eqn:Hs; [by destruct f, g; cbn [parse_terms]; rewrite Hs|].
  apply bool_decide_eq_false in Hs as Hne. destruct s as [|c s]; [done|].
  destruct f as [|f], g as [|g]; simpl in Hf, Hg, Hn; try lia. cbn [parse_terms]. rewrite Hs.
  destruct (parse_term orig (String c s)) as [[v r]|e] eqn:E; [|done]. simpl.
  apply parse_term_shorter in E. simpl in E. unfold guard_err. destruct (_ <? _); [done|]. apply IH; lia.
Qed.

(** ** The range *)

Lemma leadingInt_nonneg s x v r : 0 ≤ x → leadingInt x s = Some (v, r) → 0 ≤ v.
Proof.
  revert x. induction s as [|c s IH]; intros x Hx; simpl; [by intros [= <- _]|].
  destruct (is_digit c) eqn:Hc; [|by intros [= <- _]]. apply digit_byte_val in Hc as [Hc _].
  destruct (_ <? x); [done|]. destruct (_ <? _); [done|]. apply IH. lia.
Qed.

Lemma leadingFraction_nonneg s x sc o : 0 ≤ x → 0 ≤ (leadingFraction x sc o s).1.1.
Proof.
  revert x sc o. induction s as [|c s IH]; intros x sc o Hx; simpl; [done|].
  destruct (is_digit c) eqn:Hc; [|done]. apply digit_byte_val in Hc as [Hc _].
  destruct (_ || _); [by apply IH|]. destruct (_ <? _); apply IH; lia.
Qed.

Lemma leadingFraction_scale s x sc o : 0 < sc → 0 < (leadingFraction x sc o s).1.2.
Proof.
  revert x sc o. induction s as [|c s IH]; intros x sc o Hx; simpl; [done|].
  destruct (is_digit c) eqn:Hc; [|done]. destruct (_ || _); [by apply IH|]. destruct (_ <? _); apply IH; lia.
Qed.

Lemma unitMap_pos u n : unitMap u = Some n → 0 < n.
Proof. unfold unitMap. repeat case_bool_decide; intros [= <-] || done; lia || done. Qed.

Lemma fraction_of_nonneg f sc unit : 0 ≤ f → 0 ≤ unit → 0 < sc → 0 ≤ fraction_of f sc unit.
Proof.
  intros Hf Hu Hsc. unfold fraction_of, quot53. set (k := Z.max _ _).
  assert (0 ≤ k) as Hk by lia. assert (0 ≤ unit * 2 ^ k / sc) as Hq.
  { apply Z.div_pos; [|done]. apply Z.mul_nonneg_nonneg; [done|]. apply Z.pow_nonneg. lia. }
  apply Z.div_pos; [|apply Z.pow_pos_nonneg; lia]. apply round53_nonneg, Z.mul_nonneg_nonneg.
  - by apply round53_nonneg.
  - apply round53_nonneg. destruct (_ =? _); lia.
Qed.

Lemma parse_term_nonneg orig s v r : parse_term orig s = Ok (v, r) → 0 ≤ v.
Proof.
  destruct s as [|c s]; [done|]. unfold parse_term. set (t := String c s).
  intros (_ & E)%guard_err_Ok. destruct (leadingInt 0 t) as [[n s1]|] eqn:E1; [|done].
  apply leadingInt_nonneg in E1; [|done].
  destruct (match s1 with String d t0 => _ | "" => _ end) as [[[f sc] s2] post] eqn:E2.
  assert (0 < sc) as Hsc.
  { destruct s1 as [|d t0]; [by injection E2 as _ <- _ _|]. destruct (byte_is 46 d); [|by injection E2 as _ <- _ _].
    pose proof (leadingFraction_scale t0 0 1 false ltac:(lia)) as Hl. destruct (leadingFraction 0 1 false t0) as [[? ?] ?].
    by injection E2 as _ <- _ _. }
  apply guard_err_Ok in E as [_ E]. destruct (take_unit s2) as [u rest].
  apply guard_err_Ok in E as [_ E]. destruct (unitMap u) as [unit|] eqn:Eu; [|done]. apply unitMap_pos in Eu.
  apply guard_err_Ok in E as [_ E]. apply guard_err_Ok in E as [_ [= <- _]].
  assert (0 ≤ if 0 <? f then fraction_of f sc unit else 0); [|nia].
  destruct (Z.ltb_spec 0 f); [|done]. apply fraction_of_nonneg; lia.
Qed.

Lemma parse_terms_bound fuel orig s d r : 0 ≤ d ≤ 2^63 → parse_terms fuel orig s d = Ok r → 0 ≤ r ≤ 2^63.
Proof.
  revert s d. induction fuel as [|fuel IH]; intros s d Hd; cbn [parse_terms].
  - destruct (str_empty s); [|done]. by intros [= <-].
  - destruct (str_empty s); [by intros [= <-]|].
    intros ([v rest] & E & (Hle & E')%guard_err_Ok)%rbind_Ok. simpl in *. apply Z.ltb_ge in Hle.
    apply parse_term_nonneg in E. eapply IH; [|exact E']. lia.
Qed.

(** A parsed duration fits its 64 bits. *)
Lemma ParseDuration_range s d : ParseDuration s = Ok d → -2^63 ≤ d < 2^63.
Proof.
  unfold ParseDuration. destruct (match s with String _ _ => _ | "" => _ end) as [neg s1].
  case_bool_decide; [by intros [= <-]|].
  intros (_ & (v & E & Er)%rbind_Ok)%guard_err_Ok. apply parse_terms_bound in E; [|lia].
  destruct neg; [injection Er as <-; lia|]. apply guard_err_Ok in Er as [Hlt [= <-]]. apply Z.ltb_ge in Hlt. lia.
Qed.

Example durations :
  ParseDuration "1h30m" = Ok (hour + 30 * minute) ∧ ParseDuration "1.5h" = Ok (90 * minute) ∧
  ParseDuration "-.5s" = Ok (-500000000) ∧ ParseDuration "0" = Ok 0 ∧ ParseDuration "8760h" = Ok (8760 * hour) ∧
  ParseDuration "0.100000000000000000000h" = Ok (6 * minute) ∧
  is_ok (ParseDuration "14d") = false ∧ is_ok (ParseDuration "3600") = false ∧ is_ok (ParseDuration ".s") = false ∧
  is_ok (ParseDuration "9223372036854775808ns") = false ∧ ParseDuration "-9223372036854775808ns" = Ok (-2^63).
Proof. split_and!; by vm_compute. Qed.
