(* ===== verification/GoFlag.v ===== *)
(** * GoFlag: command lines

    The standard library's [flag] package, as [FlagSet.Parse] under [ContinueOnError]
    has it, with the values the commands use: strings, integers, booleans and
    durations.  The usage text a failure prints is not modelled. *)

From S2P Require Import Prelude GoText GoDuration.

(** ** [strconv.ParseInt(s, 0, 64)] *)

(** The value of a digit in any base up to 36. *)
Definition any_digit (c : ascii) : option Z :=
  if is_digit c then Some (digit_val c) else
  if byte_in 97 122 (byte_lower c) then Some (Z.of_N (N_of_ascii (byte_lower c)) - 97 + 10) else None.

Fixpoint base_digits (base : Z) (s : string) (n : Z) : error + Z :=
  match s with
  | "" => inr n
  | String c t =>
      if byte_is 95 c then base_digits base t n else
      match any_digit c with
      | None => inl ErrSyntax
      | Some d =>
          if base <=? d then inl ErrSyntax else
          if (2^64 - 1) / base + 1 <=? n then inl ErrRange else
          let m := uint64_wrap (n * base) in
          let m1 := uint64_wrap (m + d) in
          if m1 <? m then inl ErrRange else base_digits base t m1
      end
  end.

(** The base the prefix names, and the digits after it. *)
Definition base_of (s : string) : Z * string :=
  match s with
  | String c t =>
      if negb (byte_is 48 c) then (10, s) else
      match t with
      | String b (String _ _ as u) =>
          if byte_is 98 (byte_lower b) then (2, u) else
          if byte_is 111 (byte_lower b) then (8, u) else
          if byte_is 120 (byte_lower b) then (16, u) else (8, t)
      | _ => (8, t)
      end
  | "" => (10, s)
  end.

(** [underscoreOK]: the class of the last byte is a digit, an underscore or neither. *)
Inductive last_byte := SawStart | SawDigit | SawUnderscore | SawOther.

Fixpoint underscores_between (hex : bool) (saw : last_byte) (s : string) : bool :=
  match s with
  | "" => match saw with SawUnderscore => false | _ => true end
  | String c t =>
      if is_digit c || (hex && byte_in 97 102 (byte_lower c)) then underscores_between hex SawDigit t else
      match byte_is 95 c, saw with
      | true, SawDigit => underscores_between hex SawUnderscore t
      | true, _ => false
      | false, SawUnderscore => false
      | false, _ => underscores_between hex SawOther t
      end
  end.

Definition underscoreOK (s : string) : bool :=
  let s := match s with String c t => if byte_is 45 c || byte_is 43 c then t else s | "" => s end in
  match s with
  | String c (String b t) =>
      let b := byte_lower b in
      if byte_is 48 c && (byte_is 98 b || byte_is 111 b || byte_is 120 b)
      then underscores_between (byte_is 120 b) SawDigit t
      else underscores_between false SawStart s
  | _ => underscores_between false SawStart s
  end.

Definition ParseUint0 (s : string) : error + Z :=
  if str_empty s then inl ErrSyntax else
  let '(base, digits) := base_of s in
  match base_digits base digits 0 with
  | inl e => inl e
  | inr n => if str_has "_"%char digits && negb (underscoreOK s) then inl ErrSyntax else inr n
  end.

Definition ParseInt0 (s : string) : error + Z :=
  if str_empty s then inl ErrSyntax else
  let '(neg, body) :=
    match s with
    | String c t => if byte_is 43 c then (false, t) else if byte_is 45 c then (true, t) else (false, s)
    | "" => (false, s)
    end in
  match ParseUint0 body with
  | inl e => inl e
  | inr n =>
      if negb neg && (2^63 <=? n) then inl ErrRange else
      if neg && (2^63 <? n) then inl ErrRange else inr (if neg then - n else n)
  end.

(** [strconv.ParseBool] *)
Definition ParseBool (s : string) : error + bool :=
  if bool_decide (s ∈ ["1"; "t"; "T"; "TRUE"; "true"; "True"]) then inr true else
  if bool_decide (s ∈ ["0"; "f"; "F"; "FALSE"; "false"; "False"]) then inr false else inl ErrSyntax.

(** ** Flags *)

Inductive kind := KString | KInt | KBool | KDuration.
Inductive value := VString (s : string) | VInt (n : Z) | VBool (b : bool) | VDuration (d : duration).

Definition errParse : error := ErrSentinel "flag.errParse" "parse error".
Definition errRange : error := ErrSentinel "flag.errRange" "value out of range".
Definition ErrHelp : error := ErrSentinel "flag.ErrHelp" "flag: help requested".

Definition numError (e : error) : error := if err_is e "strconv.ErrRange" then errRange else errParse.

(** [Value.Set] *)
Definition set_value (k : kind) (s : string) : result value :=
  match k with
  | KString => Ok (VString s)
  | KInt => match ParseInt0 s with inr n => Ok (VInt n) | inl e => Err (numError e) end
  | KBool => match ParseBool s with inr b => Ok (VBool b) | inl _ => Err errParse end
  | KDuration => match ParseDuration s with Ok d => Ok (VDuration d) | Err _ => Err errParse end
  end.

(** A [FlagSet]: the flags defined, and what the command line set. *)
Abbreviation formal := (gmap string kind) (only parsing).
Abbreviation actual := (gmap string value) (only parsing).

(** What an argument is: the first that is not a flag, the end of the flags, or a flag
    with the value written after an equals sign. *)
Inductive argument := NotFlag | Terminator | BadSyntax | Flag (name : string) (value : option string).

Definition flag_body (name : string) : argument :=
  match name with
  | "" => BadSyntax
  | String c _ =>
      if byte_is 45 c || byte_is 61 c then BadSyntax else
      let '(n, v, found) := cut_byte "="%char name in Flag n (if found : bool then Some v else None)
  end.

Definition argument_of (s : string) : argument :=
  match s with
  | String m (String c t) =>
      if negb (byte_is 45 m) then NotFlag else
      if byte_is 45 c then match t with "" => Terminator | _ => flag_body t end else flag_body (String c t)
  | _ => NotFlag
  end.

Definition bad_value (v name : string) (e : error) : error :=
  ErrWrap ("invalid value " +:+ fmt_q v +:+ " for flag -" +:+ name +:+ ": ") e "".

(** [FlagSet.Parse]: what was set, and the arguments that are left. *)
Fixpoint Parse (F : formal) (set : actual) (args : list string) : result (actual * list string) :=
  match args with
  | [] => Ok (set, [])
  | s :: rest =>
      match argument_of s with
      | NotFlag => Ok (set, args)
      | Terminator => Ok (set, rest)
      | BadSyntax => Err (ErrNew ("bad flag syntax: " +:+ s))
      | Flag name written =>
          match F !! name with
          | None => Err (if bool_decide (name = "help") || bool_decide (name = "h") then ErrHelp
                         else ErrNew ("flag provided but not defined: -" +:+ name))
          | Some KBool =>
              match written with
              | Some v =>
                  match set_value KBool v with
                  | Ok x => Parse F (<[name := x]> set) rest
                  | Err e => Err (ErrWrap ("invalid boolean value " +:+ fmt_q v +:+ " for -" +:+ name +:+ ": ") e "")
                  end
              | None => Parse F (<[name := VBool true]> set) rest
              end
          | Some k =>
              match written, rest with
              | Some v, _ =>
                  match set_value k v with
                  | Ok x => Parse F (<[name := x]> set) rest
                  | Err e => Err (bad_value v name e)
                  end
              | None, v :: rest =>
                  match set_value k v with
                  | Ok x => Parse F (<[name := x]> set) rest
                  | Err e => Err (bad_value v name e)
                  end
              | None, [] => Err (ErrNew ("flag needs an argument: -" +:+ name))
              end
          end
      end
  end.

(** The value of a flag after parsing, or its default. *)
Definition string_flag (set : actual) (name dflt : string) : string :=
  match set !! name with Some (VString s) => s | _ => dflt end.
Definition int_flag (set : actual) (name : string) (dflt : Z) : Z :=
  match set !! name with Some (VInt n) => n | _ => dflt end.
Definition bool_flag (set : actual) (name : string) (dflt : bool) : bool :=
  match set !! name with Some (VBool b) => b | _ => dflt end.
Definition duration_flag (set : actual) (name : string) (dflt : duration) : duration :=
  match set !! name with Some (VDuration d) => d | _ => dflt end.

(** ** How a flag is written *)

Definition flag_name (name : string) : Prop :=
  name ≠ "" ∧ Forall (λ c, c ≠ "="%char ∧ byte_is 45 c = false) (bytes_of name).

Lemma flag_body_name name :
  flag_name name → flag_body name = Flag name None ∧ ∀ v, flag_body (name +:+ "=" +:+ v) = Flag name (Some v).
Proof.
  intros [Hne Hall]. assert (Forall (λ c, c ≠ "="%char) (bytes_of name)) as Heq by (eapply Forall_impl; [exact Hall|]; naive_solver).
  destruct name as [|c t]; [done|]. cbn [bytes_of] in Hall. apply Forall_cons in Hall as [[Hc Hm] _].
  assert (byte_is 61 c = false) as Hq.
  { destruct (byte_is 61 c) eqn:E; [|done]. destruct Hc. unfold byte_is in E.
    apply N.eqb_eq in E. rewrite <- (ascii_N_embedding c). by rewrite E. }
  split.
  - unfold flag_body. rewrite Hm, Hq. cbv zeta. by rewrite cut_byte_none.
  - intros v. change ("=" +:+ v) with (String "=" v).
    pose proof (cut_byte_at "="%char (String c t) v Heq) as E. rewrite str_app_cons in E |- *.
    unfold flag_body. rewrite Hm, Hq. cbv zeta. by rewrite E.
Qed.

(** Two hyphens or one, and the value after an equals sign or as the next argument. *)
Lemma Parse_assigned F set name v rest k x :
  flag_name name → F !! name = Some k → set_value k v = Ok x →
  Parse F set (("--" +:+ name +:+ "=" +:+ v) :: rest) = Parse F (<[name := x]> set) rest ∧
  (k ≠ KBool → Parse F set (("--" +:+ name) :: v :: rest) = Parse F (<[name := x]> set) rest).
Proof.
  intros Hn HF Hx. destruct (flag_body_name name Hn) as [E1 E2].
  assert (∀ t, t ≠ "" → argument_of ("--" +:+ t) = flag_body t) as Ha by (intros [|c t] ?; done).
  split.
  - cbn [Parse]. rewrite Ha.
    2: { intros E. apply (f_equal String.length) in E. rewrite !str_length_app in E. simpl in E. lia. }
    rewrite E2, HF. by destruct k; rewrite Hx.
  - intros Hk. cbn [Parse]. rewrite Ha by apply Hn. rewrite E1, HF. by destruct k; rewrite ?Hx.
Qed.

Example integers :
  ParseInt0 "8080" = inr 8080 ∧ ParseInt0 "0x1F90" = inr 8080 ∧ ParseInt0 "017620" = inr 8080 ∧
  ParseInt0 "-8_080" = inr (-8080) ∧ ParseInt0 "8__080" = inl ErrSyntax ∧ ParseInt0 "0" = inr 0 ∧
  ParseInt0 "09" = inl ErrSyntax ∧ ParseInt0 "9223372036854775808" = inl ErrRange ∧
  ParseInt0 "-9223372036854775808" = inr (-2^63).
Proof. split_and!; by vm_compute. Qed.
