(* ===== verification/Base64.v ===== *)
(** * Base64: the standard encoding of [encoding/base64]

    [base64.StdEncoding] as the sealed intermediate key is stored with, and the
    round trip its loader relies on. *)

From S2P Require Import Prelude GoText.

Definition byte_of (n : N) : ascii := ascii_of_N n.

(** The character of six bits, and back. *)
Definition sextet (n : N) : ascii :=
  byte_of (if n <? 26 then n + 65 else if n <? 52 then n + 71 else if n <? 62 then n - 4
           else if n =? 62 then 43 else 47)%N.

Definition sextet_value (c : ascii) : option N :=
  let n := N_of_ascii c in
  (if (65 <=? n) && (n <=? 90) then Some (n - 65)
   else if (97 <=? n) && (n <=? 122) then Some (n - 71)
   else if (48 <=? n) && (n <=? 57) then Some (n + 4)
   else if n =? 43 then Some 62 else if n =? 47 then Some 63 else None)%N.

Definition pad : ascii := "="%char.

Fixpoint EncodeToString (s : string) : string :=
  match s with
  | "" => ""
  | String a "" =>
      let a := N_of_ascii a in
      String (sextet (a / 4)) (String (sextet (a mod 4 * 16)) (String pad (String pad "")))
  | String a (String b "") =>
      let a := N_of_ascii a in let b := N_of_ascii b in
      String (sextet (a / 4)) (String (sextet (a mod 4 * 16 + b / 16))
        (String (sextet (b mod 16 * 4)) (String pad "")))
  | String a (String b (String c rest)) =>
      let a := N_of_ascii a in let b := N_of_ascii b in let c := N_of_ascii c in
      String (sextet (a / 4)) (String (sextet (a mod 4 * 16 + b / 16))
        (String (sextet (b mod 16 * 4 + c / 64)) (String (sextet (c mod 64)) (EncodeToString rest))))
  end.

Definition err_base64 : error := ErrOpaque "illegal base64 data".

(** The quanta of a text without line breaks. *)
Fixpoint quanta (s : string) : option string :=
  match s with
  | "" => Some ""
  | String a (String b (String c (String d rest))) =>
      w ← sextet_value a; x ← sextet_value b;
      if bool_decide (c = pad) then
        if bool_decide (d = pad ∧ rest = "") then Some (String (byte_of (w * 4 + x / 16)) "") else None
      else
        y ← sextet_value c;
        if bool_decide (d = pad) then
          if bool_decide (rest = "")
          then Some (String (byte_of (w * 4 + x / 16)) (String (byte_of (x mod 16 * 16 + y / 4)) "")) else None
        else
          z ← sextet_value d; more ← quanta rest;
          Some (String (byte_of (w * 4 + x / 16)) (String (byte_of (x mod 16 * 16 + y / 4))
                  (String (byte_of (y mod 4 * 64 + z)) more)))
  | _ => None
  end%N.

(** The decoder skips line breaks wherever they are. *)
Definition line_break (c : ascii) : bool := bool_decide (N_of_ascii c = 10%N) || bool_decide (N_of_ascii c = 13%N).
Fixpoint strip_breaks (s : string) : string :=
  match s with "" => "" | String c s => if line_break c then strip_breaks s else String c (strip_breaks s) end.

Definition DecodeString (s : string) : result string :=
  match quanta (strip_breaks s) with Some b => Ok b | None => Err err_base64 end.

(** ** The round trip *)

Lemma below (P : N → Prop) (n : nat) (k : N) :
  Forall P (N.of_nat <$> seq 0 n) → (k < N.of_nat n)%N → P k.
Proof.
  intros HP Hk. rewrite Forall_forall in HP. apply HP, list_elem_of_fmap.
  exists (N.to_nat k). split; [by rewrite N2Nat.id|]. apply elem_of_seq. lia.
Qed.

Lemma sextet_ok n :
  (n < 64)%N → sextet_value (sextet n) = Some n ∧ sextet n ≠ pad ∧ line_break (sextet n) = false.
Proof.
  intros Hn. apply (below (λ n, sextet_value (sextet n) = Some n ∧ sextet n ≠ pad ∧
    line_break (sextet n) = false) 64); [|done]. apply (bool_decide_unpack _). by vm_compute.
Qed.

Lemma sextet_graphic n : (n < 64)%N → graphic (sextet n).
Proof.
  intros Hn. apply (below (λ n, graphic (sextet n)) 64); [|done].
  unfold graphic. apply (bool_decide_unpack _). by vm_compute.
Qed.

Lemma sextet_back n : (n < 64)%N → sextet_value (sextet n) = Some n.
Proof. intros Hn. by apply sextet_ok. Qed.

Lemma sextet_not_pad n : (n < 64)%N → bool_decide (sextet n = pad) = false.
Proof. intros Hn. apply bool_decide_false. by apply sextet_ok. Qed.

Ltac divlia := zify; Z.to_euclidean_division_equations; lia.

Lemma EncodeToString_cons3 a b c rest :
  EncodeToString (String a (String b (String c rest))) =
  String (sextet (N_of_ascii a / 4)) (String (sextet (N_of_ascii a mod 4 * 16 + N_of_ascii b / 16))
    (String (sextet (N_of_ascii b mod 16 * 4 + N_of_ascii c / 64)) (String (sextet (N_of_ascii c mod 64))
      (EncodeToString rest)))).
Proof. done. Qed.

(** Texts in steps of three bytes. *)
Lemma triples (P : string → Prop) :
  P "" → (∀ a, P (String a "")) → (∀ a b, P (String a (String b ""))) →
  (∀ a b c rest, P rest → P (String a (String b (String c rest)))) → ∀ s, P s.
Proof.
  intros P0 P1 P2 P3 s. induction s as [s IH] using (induction_ltof1 _ String.length). unfold ltof in IH.
  destruct s as [|a [|b [|c rest]]]; [done|apply P1|apply P2|]. apply P3, IH. simpl. lia.
Qed.

Lemma byte_of_N c : byte_of (N_of_ascii c) = c.
Proof. apply ascii_N_embedding. Qed.

Lemma encoded_graphic s : Forall graphic (bytes_of (EncodeToString s)).
Proof.
  assert (graphic pad) as Hp by done.
  induction s as [|a|a b|a b c rest IH] using triples; [constructor|..];
    pose proof (N_ascii_bounded a); try pose proof (N_ascii_bounded b); try pose proof (N_ascii_bounded c).
  - cbn -[sextet N.div N.modulo]. repeat constructor; (done || apply sextet_graphic; divlia).
  - cbn -[sextet N.div N.modulo]. repeat constructor; (done || apply sextet_graphic; divlia).
  - rewrite EncodeToString_cons3. cbn [bytes_of].
    repeat (apply Forall_cons; split; [apply sextet_graphic; divlia|]). done.
Qed.

Lemma strip_graphic s : Forall graphic (bytes_of s) → strip_breaks s = s.
Proof.
  induction s as [|c s IH]; [done|]. cbn [bytes_of strip_breaks]. intros [Hc Hs]%Forall_cons.
  unfold graphic in Hc. unfold line_break. rewrite !bool_decide_false by lia. simpl. by rewrite IH.
Qed.

(** Three bytes out of four sextets. *)
Lemma first_byte a x : (x / 16 = N_of_ascii a mod 4)%N → byte_of (N_of_ascii a / 4 * 4 + x / 16) = a.
Proof. intros E. rewrite <- (byte_of_N a) at 2. f_equal. divlia. Qed.
Lemma second_byte b x y :
  (x mod 16 = N_of_ascii b / 16)%N → (y / 4 = N_of_ascii b mod 16)%N → byte_of (x mod 16 * 16 + y / 4) = b.
Proof. intros E1 E2. rewrite <- (byte_of_N b) at 1. f_equal. divlia. Qed.
Lemma third_byte c y :
  (y mod 4 = N_of_ascii c / 64)%N → byte_of (y mod 4 * 64 + N_of_ascii c mod 64) = c.
Proof. intros E. rewrite <- (byte_of_N c) at 2. f_equal. divlia. Qed.

Lemma quanta_encode s : quanta (EncodeToString s) = Some s.
Proof.
  induction s as [|a|a b|a b c rest IH] using triples; [done|..];
    pose proof (N_ascii_bounded a) as Ha; try pose proof (N_ascii_bounded b) as Hb;
    try pose proof (N_ascii_bounded c) as Hc.
  - cbn [EncodeToString quanta]. rewrite !sextet_back by divlia. cbn [base.mbind option_bind].
    rewrite !bool_decide_true by done. by rewrite first_byte by divlia.
  - cbn [EncodeToString quanta]. rewrite !sextet_back by divlia. cbn [base.mbind option_bind].
    rewrite sextet_not_pad by divlia. cbn [base.mbind option_bind]. rewrite !bool_decide_true by done.
    by rewrite first_byte, (second_byte b) by divlia.
  - rewrite EncodeToString_cons3. cbn [quanta]. rewrite !sextet_back by divlia. cbn [base.mbind option_bind].
    rewrite sextet_not_pad by divlia. cbn [base.mbind option_bind]. rewrite sextet_not_pad by divlia.
    cbn [base.mbind option_bind]. rewrite IH. cbn [base.mbind option_bind].
    by rewrite first_byte, (second_byte b), (third_byte c) by divlia.
Qed.

(** What was encoded decodes to itself, white space around it or not. *)
Lemma decode_encode s : DecodeString (TrimSpace (EncodeToString s)) = Ok s.
Proof.
  pose proof (encoded_graphic s) as Hg. rewrite (graphic_trimmed _ Hg). unfold DecodeString.
  by rewrite strip_graphic, quanta_encode.
Qed.
