(* ===== verification/Krl.v ===== *)
(** * Krl: the revocation list

    Models [internal/server/krl/krl.go]: revocations, the in-memory store with its
    two indexes, the snapshot published over HTTP and the [ssh-keygen] KRL spec.

    A Go map is ranged over in an unspecified order: [snapshot_of] takes the two
    orders as arguments, and [snapshot_deterministic] shows they do not
    matter.  [sort.Slice] is modelled by a sort whose result is unspecified on
    ties only ([merge_sort]); the clock reading is an argument. *)

From S2P Require Import Prelude GoText GoTime.

Record Revocation := mkRevocation {
  Serial : Z;
  KeyID : string;
  Reason : string;
  Revoker : string;
  Revoked : time;
}.

#[export] Instance Revocation_eq_dec : EqDecision Revocation.
Proof. solve_decision. Defined.

(** The serial is a [uint64]. *)
Definition revocation_ok (r : Revocation) : Prop := uint64_ok (Serial r).

Module Snapshot.
Record t := mk { CapturedAt : time; Entries : list Revocation }.
End Snapshot.

Definition ErrEmptyRevocation : error :=
  ErrSentinel "krl.ErrEmptyRevocation" "revocation must include serial or key_id".

(** [if r.Serial == 0 && r.KeyID == ""] *)
Definition empty_revocation (r : Revocation) : bool := (Serial r =? 0) && str_empty (KeyID r).

(** [if r.Revoked.IsZero() { r.Revoked = time.Now().UTC() }] *)
Definition stamp (now : time) (r : Revocation) : Revocation :=
  if time_is_zero (Revoked r)
  then mkRevocation (Serial r) (KeyID r) (Reason r) (Revoker r) now else r.

(** ** [serialString]: the digit loop over a 20-byte buffer

    The loop stores at [pos - 1]; Go panics when that is negative, which is
    [None] here. *)
Fixpoint serial_loop (pos : nat) (s : Z) (buf : string) : option string :=
  if s <=? 0 then Some buf else
  match pos with
  | O => None
  | S pos => serial_loop pos (s / 10) (String (digit_byte (s mod 10)) buf)
  end.

Definition serialString (s : Z) : option string :=
  if s =? 0 then Some "" else serial_loop 20 s "".

Definition revocationKey (r : Revocation) : string :=
  KeyID r +:+ "|" +:+ default "" (serialString (Serial r)).

Module InMemoryStore.

Record t := mk {
  bySerial : gmap Z Revocation;
  byKeyID : gmap string Revocation;
}.

Definition NewInMemoryStore : t := mk ∅ ∅.

Definition Revoke (now : time) (r : Revocation) : M t unit := λ s,
  if empty_revocation r then (Err ErrEmptyRevocation, s) else
  let r := stamp now r in
  (Ok tt, mk (if negb (Serial r =? 0) then <[Serial r := r]> (bySerial s) else bySerial s)
             (if negb (str_empty (KeyID r)) then <[KeyID r := r]> (byKeyID s) else byKeyID s)).

(** The order of [sort.Slice]: by time, then serial, then key ID. *)
Definition entry_less (a b : Revocation) : bool :=
  if Revoked a =? Revoked b then
    if negb (Serial a =? Serial b) then Serial a <? Serial b
    else str_ltb (KeyID a) (KeyID b)
  else time_before (Revoked a) (Revoked b).
Definition entry_le (a b : Revocation) : Prop := entry_less b a = false.

#[export] Instance entry_le_dec a b : Decision (entry_le a b).
Proof. unfold entry_le. apply _. Defined.

Definition seen_add (seen : gmap string Revocation) (r : Revocation) : gmap string Revocation :=
  <[revocationKey r := r]> seen.

(** The deduplicating map, ranging over the two indexes in the orders [l1], [l2]. *)
Definition seen_of (l1 l2 : list Revocation) : gmap string Revocation :=
  foldl seen_add (foldl seen_add ∅ l1) l2.

Definition snapshot_of (l1 l2 : list Revocation) : list Revocation :=
  merge_sort entry_le (map_to_list (seen_of l1 l2)).*2.

Definition Snapshot (now : time) (s : t) : Snapshot.t :=
  Snapshot.mk now (snapshot_of (map_to_list (bySerial s)).*2 (map_to_list (byKeyID s)).*2).

Definition IsRevoked (s : t) (serial : Z) (keyID : string) : bool :=
  (negb (serial =? 0) && bool_decide (is_Some (bySerial s !! serial))) ||
  (negb (str_empty keyID) && bool_decide (is_Some (byKeyID s !! keyID))).

End InMemoryStore.

(** ** The KRL spec *)

Definition annotation (r : Revocation) : string :=
  if str_empty (Reason r) && str_empty (Revoker r) then "" else
  str_join " | "
    ((if str_empty (Reason r) then []
      else ["reason: " +:+ replace_byte newline " " (Reason r)]) ++
     (if str_empty (Revoker r) then [] else ["revoker: " +:+ Revoker r])).

(** [serialEntry] and [keyIDEntry] *)
Abbreviation serialEntry := (Z * string)%type.
Abbreviation keyIDEntry := (string * string)%type.
Definition serialEntry_le (a b : serialEntry) : Prop := a.1 ≤ b.1.
Definition keyIDEntry_le (a b : keyIDEntry) : Prop := String.le a.1 b.1.

Definition serial_entries (es : list Revocation) : list serialEntry :=
  (λ e, (Serial e, annotation e)) <$> List.filter (λ e, negb (Serial e =? 0)) es.
Definition keyID_entries (es : list Revocation) : list keyIDEntry :=
  (λ e, (KeyID e, annotation e)) <$> List.filter (λ e, negb (str_empty (KeyID e))) es.

Definition annot_line (annot : string) : string :=
  if str_empty annot then "" else "# " +:+ annot +:+ nl.

Definition serial_lines (e : serialEntry) : string :=
  annot_line e.2 +:+ "serial: " +:+ FormatUint e.1 +:+ nl.
Definition keyID_lines (e : keyIDEntry) : string :=
  annot_line e.2 +:+ "id: " +:+ e.1 +:+ nl.

Definition str_concat (l : list string) : string := foldr String.append "" l.

#[export] Instance serialEntry_le_dec a b : Decision (serialEntry_le a b).
Proof. unfold serialEntry_le. apply _. Defined.
#[export] Instance keyIDEntry_le_dec a b : Decision (keyIDEntry_le a b).
Proof. unfold keyIDEntry_le. apply _. Defined.

Definition sorted_serials (snap : Snapshot.t) : list serialEntry :=
  merge_sort serialEntry_le (serial_entries (Snapshot.Entries snap)).
Definition sorted_keyIDs (snap : Snapshot.t) : list keyIDEntry :=
  merge_sort keyIDEntry_le (keyID_entries (Snapshot.Entries snap)).

(** The em dash of the empty banner, in UTF-8. *)
Definition em_dash : string :=
  String (ascii_of_N 0xE2) (String (ascii_of_N 0x80) (String (ascii_of_N 0x94) "")).

Definition MarshalSpec (snap : Snapshot.t) : string :=
  let serials := sorted_serials snap in
  let keyIDs := sorted_keyIDs snap in
  "# certd KRL spec" +:+ nl +:+
  "# generated " +:+ format_rfc3339 (Snapshot.CapturedAt snap) +:+ nl +:+
  match serials, keyIDs with
  | [], [] => "# (empty " +:+ em_dash +:+ " no revocations recorded)" +:+ nl
  | _, _ => str_concat (serial_lines <$> serials) +:+ str_concat (keyID_lines <$> keyIDs)
  end.

Definition InMemory_MarshalSpec (now : time) (s : InMemoryStore.t) : string :=
  MarshalSpec (InMemoryStore.Snapshot now s).

(** ** Keys *)

Lemma serial_loop_digits pos s buf :
  0 < s < 10 ^ Z.of_nat pos → serial_loop pos s buf = Some (put_digits pos s buf).
Proof.
  revert s buf. induction pos as [|pos IH]; intros s buf Hs; [simpl in Hs; lia|].
  cbn [serial_loop put_digits]. destruct (Z.leb_spec s 0); [lia|].
  rewrite Nat2Z.inj_succ, Z.pow_succ_r in Hs by lia. destruct (Z.ltb_spec s 10).
  - rewrite Z.div_small, Z.mod_small by lia. by destruct pos.
  - apply IH. split; [apply Z.div_str_pos; lia|apply Z.div_lt_upper_bound; lia].
Qed.

(** The 20-byte buffer is enough, and the digits are those of [strconv]. *)
Lemma serialString_FormatUint s :
  uint64_ok s → serialString s = Some (if s =? 0 then "" else FormatUint s).
Proof.
  unfold uint64_ok, serialString. intros Hs. destruct (Z.eqb_spec s 0); [done|].
  apply serial_loop_digits. split; [lia|].
  eapply Z.lt_le_trans; [apply Hs|]. vm_compute. discriminate.
Qed.

Lemma cut_last_bar a b x y :
  str_has "|" x = false → str_has "|" y = false →
  a +:+ "|" +:+ x = b +:+ "|" +:+ y → a = b ∧ x = y.
Proof.
  assert (∀ a x, str_has "|" (a +:+ String "|" x) = true) as Hbar.
  { clear. intros a x. induction a as [|c a IH]; [done|].
    change (bool_decide (c = "|"%char) || str_has "|" (a +:+ String "|" x) = true).
    by rewrite IH, orb_true_r. }
  intros Hx Hy. revert b. induction a as [|c a IH]; intros [|d b] H;
    rewrite ?str_app_cons, ?str_app_nil_l in H.
  - by injection H.
  - injection H as _ ->. by rewrite Hbar in Hx.
  - injection H as _ <-. by rewrite Hbar in Hy.
  - injection H as -> H. destruct (IH _ H) as [-> ->]. done.
Qed.

Lemma revocationKey_inj r1 r2 :
  revocation_ok r1 → revocation_ok r2 → revocationKey r1 = revocationKey r2 →
  Serial r1 = Serial r2 ∧ KeyID r1 = KeyID r2.
Proof.
  intros H1 H2. unfold revocationKey. rewrite !serialString_FormatUint by done. simpl.
  assert (∀ r, revocation_ok r → str_has "|" (if Serial r =? 0 then "" else FormatUint (Serial r)) = false) as Hd.
  { intros r [? _]. case_match; [done|]. apply all_digits_has; [apply FormatUint_digits|done]. }
  intros H. destruct (cut_last_bar _ _ _ _ (Hd r1 H1) (Hd r2 H2) H) as [E1 E2].
  split; [|done]. destruct (Z.eqb_spec (Serial r1) 0), (Z.eqb_spec (Serial r2) 0); [lia| | |].
  - by apply eq_sym, FormatUint_nonempty in E2.
  - by apply FormatUint_nonempty in E2.
  - by apply FormatUint_inj.
Qed.

(** ** The invariant of the store

    Each index holds revocations under their own serial or key ID, and a
    revocation that carries both was written to both indexes at once: an entry of
    one index names a serial (key ID) the other index also knows, and two entries
    with the same pair are the same record. *)
Import InMemoryStore.

Definition entries (s : t) (r : Revocation) : Prop :=
  (∃ k, bySerial s !! k = Some r) ∨ (∃ k, byKeyID s !! k = Some r).

Record store_inv (s : t) : Prop := {
  inv_serial k r : bySerial s !! k = Some r → Serial r = k ∧ k ≠ 0;
  inv_keyID k r : byKeyID s !! k = Some r → KeyID r = k ∧ k ≠ "";
  inv_ok r : entries s r → revocation_ok r;
  inv_serial_known r : entries s r → Serial r ≠ 0 → is_Some (bySerial s !! Serial r);
  inv_keyID_known r : entries s r → KeyID r ≠ "" → is_Some (byKeyID s !! KeyID r);
  inv_agree r1 r2 : entries s r1 → entries s r2 →
    Serial r1 = Serial r2 → KeyID r1 = KeyID r2 → r1 = r2;
}.

Lemma stamp_keys now r :
  Serial (stamp now r) = Serial r ∧ KeyID (stamp now r) = KeyID r.
Proof. unfold stamp. by case_match. Qed.

Lemma new_store_inv : store_inv NewInMemoryStore.
Proof.
  assert (∀ r, ¬ entries NewInMemoryStore r) as Hne.
  { intros r [[k H]|[k H]]; simpl in H; by rewrite lookup_empty in H. }
  split; [by intros k r; simpl; rewrite lookup_empty..| | | |];
    intros r; intros; by destruct (Hne r).
Qed.

(** The two indexes after a revocation, by lookup. *)
Lemma Revoke_lookup now r s s' :
  Revoke now r s = (Ok tt, s') →
  (∀ k, bySerial s' !! k =
     if decide (k = Serial r ∧ k ≠ 0) then Some (stamp now r) else bySerial s !! k) ∧
  (∀ k, byKeyID s' !! k =
     if decide (k = KeyID r ∧ k ≠ "") then Some (stamp now r) else byKeyID s !! k).
Proof.
  unfold Revoke. destruct (empty_revocation r); [done|]. intros [= <-].
  destruct (stamp_keys now r) as [-> ->]. simpl. unfold str_empty. split; intros k.
  - destruct (Z.eqb_spec (Serial r) 0) as [E|E]; simpl.
    + rewrite decide_False by (intros [-> ?]; done). done.
    + destruct (decide (k = Serial r)) as [->|Hne].
      * rewrite lookup_insert_eq, decide_True by done. done.
      * rewrite lookup_insert_ne, decide_False by naive_solver. done.
  - destruct (decide (KeyID r = "")) as [E|E].
    + rewrite bool_decide_true by done. simpl. rewrite decide_False by (intros [-> ?]; done). done.
    + rewrite bool_decide_false by done. simpl. destruct (decide (k = KeyID r)) as [->|Hne].
      * rewrite lookup_insert_eq, decide_True by done. done.
      * rewrite lookup_insert_ne, decide_False by naive_solver. done.
Qed.

Lemma Revoke_entries now r s s' x :
  Revoke now r s = (Ok tt, s') → entries s' x →
  x = stamp now r ∨
  (entries s x ∧ ((∃ k, bySerial s !! k = Some x ∧ (k = 0 ∨ k ≠ Serial r)) ∨
                  (∃ k, byKeyID s !! k = Some x ∧ (k = "" ∨ k ≠ KeyID r)))).
Proof.
  intros (Hs & Hk)%Revoke_lookup [[k H]|[k H]].
  - rewrite Hs in H. destruct (decide _) as [|Hn]; [left; congruence|].
    right. split; [left; by exists k|]. left. exists k. split; [done|].
    destruct (decide (k = 0)); [by left|]. right. intros ->. by apply Hn.
  - rewrite Hk in H. destruct (decide _) as [|Hn]; [left; congruence|].
    right. split; [right; by exists k|]. right. exists k. split; [done|].
    destruct (decide (k = "")); [by left|]. right. intros ->. by apply Hn.
Qed.

(** An entry that survives a revocation was not written under its keys. *)
Lemma Revoke_old_entry now r s s' x :
  store_inv s → Revoke now r s = (Ok tt, s') → entries s' x →
  x = stamp now r ∨ (entries s x ∧ ¬ (Serial x = Serial r ∧ KeyID x = KeyID r)).
Proof.
  intros Hi HR Hx. destruct (Revoke_entries _ _ _ _ _ HR Hx) as [->|[He H]]; [by left|right].
  split; [done|]. intros [Es Ek]. destruct H as [(k & Hk & Hn)|(k & Hk & Hn)].
  - apply (inv_serial s Hi) in Hk as [E ?]. destruct Hn; congruence.
  - apply (inv_keyID s Hi) in Hk as [E ?]. destruct Hn; congruence.
Qed.

Lemma Revoke_inv now r s s' :
  store_inv s → revocation_ok r → Revoke now r s = (Ok tt, s') → store_inv s'.
Proof.
  intros Hi Hr HR. pose proof (Revoke_lookup _ _ _ _ HR) as [Hs Hk].
  pose proof (λ x, Revoke_old_entry now r s s' x Hi HR) as He.
  destruct (stamp_keys now r) as [Es Ek].
  split.
  - intros k x. rewrite Hs. destruct (decide _) as [[-> ?]|]; [by intros [= <-]|]. apply Hi.
  - intros k x. rewrite Hk. destruct (decide _) as [[-> ?]|]; [by intros [= <-]|]. apply Hi.
  - intros x [->|[Hx _]]%He; [|by apply (inv_ok s Hi)]. unfold revocation_ok. by rewrite Es.
  - intros x Hx Hne. rewrite Hs. destruct (decide _) as [|Hn]; [by eexists|].
    apply He in Hx as [->|[Hx _]]; [by destruct Hn; rewrite Es in *|].
    by apply (inv_serial_known s Hi).
  - intros x Hx Hne. rewrite Hk. destruct (decide _) as [|Hn]; [by eexists|].
    apply He in Hx as [->|[Hx _]]; [by destruct Hn; rewrite Ek in *|].
    by apply (inv_keyID_known s Hi).
  - intros x y [->|[Hx Nx]]%He [->|[Hy Ny]]%He Exy Exy'; [done| | |by apply (inv_agree s Hi)].
    + destruct Ny. by rewrite <- Exy, <- Exy', Es, Ek.
    + destruct Nx. by rewrite Exy, Exy', Es, Ek.
Qed.

(** ** The snapshot *)

Lemma seen_fold_lookup l m k r :
  (∀ a b, a ∈ l → b ∈ l → revocationKey a = revocationKey b → a = b) →
  foldl seen_add m l !! k = Some r ↔
  (r ∈ l ∧ revocationKey r = k) ∨
  (m !! k = Some r ∧ ∀ a, a ∈ l → revocationKey a ≠ k).
Proof.
  revert m. induction l as [|x l IH]; intros m Hinj; simpl.
  { split; [|by intros [[[]%elem_of_nil _]|[? _]]].
    intros H. right. split; [done|]. by intros a []%elem_of_nil. }
  rewrite IH by (intros a b Ha Hb; apply Hinj; by right). unfold seen_add.
  split.
  - intros [[Hr Hk]|[Hm Hl]]; [left; split; [by right|done]|].
    destruct (decide (revocationKey x = k)) as [Hx|Hx].
    + rewrite Hx, lookup_insert_eq in Hm. injection Hm as ->. left. split; [by left|done].
    + rewrite lookup_insert_ne in Hm by done. right. split; [done|].
      intros a [->|Ha]%elem_of_cons; [done|by apply Hl].
  - intros [[[->|Hr]%elem_of_cons Hk]|[Hm Hl]].
    + destruct (decide (Exists (λ a, revocationKey a = k) l)) as [He|He].
      * apply Exists_exists in He as (a & Ha & Hak). left.
        rewrite (Hinj x a); [done|by left|by right|congruence].
      * right. rewrite Hk, lookup_insert_eq. split; [done|]. intros a Ha E.
        apply He, Exists_exists. by exists a.
    + by left.
    + right. rewrite lookup_insert_ne by (apply Hl; by left). split; [done|].
      intros a Ha. apply Hl. by right.
Qed.

Lemma elem_of_values {K} `{Countable K} (m : gmap K Revocation) r :
  r ∈ (map_to_list m).*2 ↔ ∃ k, m !! k = Some r.
Proof.
  rewrite list_elem_of_fmap. split.
  - intros ([k x] & -> & Hx%elem_of_map_to_list). by exists k.
  - intros [k Hk]. exists (k, r). split; [done|]. by apply elem_of_map_to_list.
Qed.

(** Whatever the orders of iteration, the deduplicating map holds the entries of
    the two indexes, each under its own key. *)
Lemma seen_of_lookup s l1 l2 k r :
  store_inv s →
  l1 ≡ₚ (map_to_list (bySerial s)).*2 → l2 ≡ₚ (map_to_list (byKeyID s)).*2 →
  seen_of l1 l2 !! k = Some r ↔ entries s r ∧ revocationKey r = k.
Proof.
  intros Hi H1 H2.
  assert (∀ a, a ∈ l1 → entries s a) as He1.
  { intros a. rewrite H1, elem_of_values. by left. }
  assert (∀ a, a ∈ l2 → entries s a) as He2.
  { intros a. rewrite H2, elem_of_values. by right. }
  assert (∀ a b, entries s a → entries s b → revocationKey a = revocationKey b → a = b) as Hinj.
  { intros a b Ha Hb E.
    destruct (revocationKey_inj a b) as [? ?]; [by apply (inv_ok s Hi)..|done|].
    by apply (inv_agree s Hi). }
  unfold seen_of. rewrite seen_fold_lookup by auto. rewrite seen_fold_lookup by auto.
  split.
  - intros [[Hr Hk]|[[[Hr Hk]|[Hm _]] _]]; [by auto..|]. by rewrite lookup_empty in Hm.
  - intros [[[j Hj]|[j Hj]] Hk].
    + destruct (decide (r ∈ l2)) as [|Hn]; [by left|right]. split.
      * left. split; [|done]. rewrite H1. apply elem_of_values. by exists j.
      * intros a Ha E. apply Hn. rewrite <- (Hinj a r); [done|by auto| |congruence].
        left. by exists j.
    + left. split; [|done]. rewrite H2. apply elem_of_values. by exists j.
Qed.

Lemma str_ltb_spec a b : str_ltb a b = true ↔ String.le a b ∧ a ≠ b.
Proof. unfold str_ltb. by rewrite andb_true_iff, negb_true_iff, bool_decide_eq_true, bool_decide_eq_false. Qed.

Lemma str_ltb_false a b : str_ltb a b = false ↔ String.le b a.
Proof.
  rewrite <- not_true_iff_false, str_ltb_spec. split.
  - intros H. destruct (String.le_total a b) as [Hab|]; [|done].
    destruct (decide (a = b)) as [->|]; [done|]. by destruct H.
  - intros Hba [Hab Hne]. apply Hne. by apply (anti_symm String.le).
Qed.

Lemma entry_le_spec a b :
  entry_le a b ↔ Revoked a < Revoked b ∨
    (Revoked a = Revoked b ∧ (Serial a < Serial b ∨
       (Serial a = Serial b ∧ String.le (KeyID a) (KeyID b)))).
Proof.
  unfold entry_le, entry_less, time_before.
  destruct (Z.eqb_spec (Revoked b) (Revoked a)); [|rewrite Z.ltb_ge; lia].
  destruct (Z.eqb_spec (Serial b) (Serial a)); simpl; [|rewrite Z.ltb_ge; lia].
  rewrite str_ltb_false. split; [intros H|intros [?|(? & [?|[_ ?]])]]; [|lia|lia|done].
  right. split; [done|]. right. done.
Qed.

#[export] Instance entry_le_trans : Transitive entry_le.
Proof.
  intros a b c. rewrite !entry_le_spec.
  intros [?|(? & [?|[? ?]])] [?|(? & [?|[? ?]])]; try (left; lia); right; (split; [lia|]);
    try (left; lia). right. split; [lia|]. by etrans.
Qed.

#[export] Instance entry_le_total : Total entry_le.
Proof.
  intros a b. rewrite !entry_le_spec.
  destruct (Z.lt_trichotomy (Revoked a) (Revoked b)) as [?|[?|?]]; [left; by left| |right; by left].
  destruct (Z.lt_trichotomy (Serial a) (Serial b)) as [?|[?|?]].
  - left. right. split; [done|by left].
  - destruct (String.le_total (KeyID a) (KeyID b)); [left|right]; right; (split; [done|]); by right.
  - right. right. split; [done|by left].
Qed.

Lemma entry_le_antisymm a b :
  entry_le a b → entry_le b a → Serial a = Serial b ∧ KeyID a = KeyID b.
Proof.
  rewrite !entry_le_spec.
  intros [?|(? & [?|[? ?]])] [?|(? & [?|[? ?]])]; try lia. split; [done|].
  by apply (anti_symm String.le).
Qed.

Lemma elem_of_snapshot s now r :
  store_inv s → r ∈ Snapshot.Entries (InMemoryStore.Snapshot now s) ↔ entries s r.
Proof.
  intros Hi. simpl. unfold snapshot_of.
  rewrite merge_sort_Permutation, elem_of_values.
  setoid_rewrite (seen_of_lookup s); [|done..]. split; [by intros (k & ? & _)|by eexists].
Qed.

(** The order in which Go ranges over its maps, and the choices of the sort, do
    not show in the snapshot. *)
Lemma snapshot_unique s now l1 l2 out :
  store_inv s →
  l1 ≡ₚ (map_to_list (bySerial s)).*2 → l2 ≡ₚ (map_to_list (byKeyID s)).*2 →
  out ≡ₚ (map_to_list (seen_of l1 l2)).*2 → Sorted entry_le out →
  out = Snapshot.Entries (InMemoryStore.Snapshot now s).
Proof.
  intros Hi H1 H2 Ho Hs. simpl.
  assert (seen_of l1 l2 = seen_of (map_to_list (bySerial s)).*2 (map_to_list (byKeyID s)).*2) as E.
  { apply map_eq. intros k. apply option_eq. intros r. by rewrite !(seen_of_lookup s). }
  apply (Sorted_unique_strong entry_le).
  - intros a b Ha Hb Hab Hba. destruct (entry_le_antisymm a b Hab Hba) as [? ?].
    apply (inv_agree s Hi); [| |done|done].
    + rewrite Ho, elem_of_values in Ha. destruct Ha as [k Hk].
      by apply (seen_of_lookup s) in Hk as [? _].
    + unfold snapshot_of in Hb. rewrite merge_sort_Permutation, elem_of_values in Hb.
      destruct Hb as [k Hk]. by apply (seen_of_lookup s) in Hk as [? _].
  - done.
  - apply Sorted_merge_sort, _.
  - unfold snapshot_of. by rewrite merge_sort_Permutation, Ho, E.
Qed.

(** ** Histories of revocations *)

Definition revoke_all (ops : list (time * Revocation)) (s : t) : t :=
  foldl (λ s op, (Revoke op.1 op.2 s).2) s ops.

Lemma revoke_all_inv ops s :
  store_inv s → (∀ op, op ∈ ops → revocation_ok op.2) → store_inv (revoke_all ops s).
Proof.
  revert s. induction ops as [|[now r] ops IH]; intros s Hi Hops; simpl; [done|].
  apply IH; [|by intros; apply Hops; right].
  destruct (Revoke now r s) as [[[]|e] s'] eqn:E; simpl.
  - eapply Revoke_inv; [done| |done]. apply (Hops (now, r)). by left.
  - unfold Revoke in E. case_match; [|done]. by injection E as _ <-.
Qed.

(** One revocation, seen by [IsRevoked]. *)
Lemma Revoke_known now r s serial keyID :
  let s' := (Revoke now r s).2 in
  IsRevoked s' serial keyID = true ↔
  IsRevoked s serial keyID = true ∨
  (serial ≠ 0 ∧ Serial r = serial) ∨ (keyID ≠ "" ∧ KeyID r = keyID).
Proof.
  cbv zeta. unfold IsRevoked.
  rewrite !orb_true_iff, !andb_true_iff, !negb_true_iff, !bool_decide_eq_true, !Z.eqb_neq.
  unfold str_empty. rewrite !bool_decide_eq_false.
  destruct (Revoke now r s) as [[[]|e] s'] eqn:E; simpl.
  - apply Revoke_lookup in E as [Hs Hk]. rewrite Hs, Hk.
    repeat destruct (decide _); naive_solver.
  - unfold Revoke in E. destruct (empty_revocation r) eqn:Ee; [|done]. injection E as _ <-.
    unfold empty_revocation, str_empty in Ee.
    apply andb_true_iff in Ee as [?%Z.eqb_eq ?%bool_decide_eq_true].
    split; [by left|]. intros [?|[[? ?]|[? ?]]]; [done|congruence|congruence].
Qed.

(** Revocation is exact and permanent. After any history of [Revoke] calls,
    [IsRevoked] holds of a serial and key ID exactly when some call named that
    (non-zero) serial or that (non-empty) key ID, whatever the other calls, their
    order and their annotations. *)
Theorem is_revoked_history ops serial keyID :
  IsRevoked (revoke_all ops NewInMemoryStore) serial keyID = true ↔
  ∃ now r, (now, r) ∈ ops ∧
    ((serial ≠ 0 ∧ Serial r = serial) ∨ (keyID ≠ "" ∧ KeyID r = keyID)).
Proof.
  assert (∀ s, IsRevoked (revoke_all ops s) serial keyID = true ↔
    IsRevoked s serial keyID = true ∨
    ∃ now r, (now, r) ∈ ops ∧
      ((serial ≠ 0 ∧ Serial r = serial) ∨ (keyID ≠ "" ∧ KeyID r = keyID))) as H.
  { induction ops as [|[now r] ops IH]; intros s; simpl.
    - split; [by left|]. intros [?|(? & ? & []%elem_of_nil & _)]. done.
    - rewrite IH, (Revoke_known now r s). setoid_rewrite elem_of_cons. split.
      + intros [[?|?]|(now' & r' & ? & ?)]; [by left| |].
        * right. exists now, r. split; [by left|done].
        * right. exists now', r'. split; [by right|done].
      + intros [?|(now' & r' & [[= -> ->]|?] & ?)]; [by left; left|by left; right|].
        right. by exists now', r'. }
  rewrite H. split; [|by right]. intros [E|?]; [|done].
  unfold IsRevoked in E. simpl in E. rewrite !lookup_empty in E.
  rewrite !bool_decide_false in E by (by intros [? [=]]). by rewrite !andb_false_r in E.
Qed.

Lemma snapshot_NoDup s now : store_inv s → NoDup (Snapshot.Entries (InMemoryStore.Snapshot now s)).
Proof.
  intros Hi. simpl. unfold snapshot_of. rewrite merge_sort_Permutation.
  apply NoDup_fmap_2_strong; [|apply NoDup_map_to_list].
  intros [k1 r1] [k2 r2] H1%elem_of_map_to_list H2%elem_of_map_to_list E. simpl in E. subst r2.
  apply (seen_of_lookup s) in H1 as [_ <-]; [|done..].
  by apply (seen_of_lookup s) in H2 as [_ <-]; [|done..].
Qed.

Lemma IsRevoked_entries s serial keyID :
  store_inv s →
  IsRevoked s serial keyID = true ↔
  ∃ e, entries s e ∧ ((serial ≠ 0 ∧ Serial e = serial) ∨ (keyID ≠ "" ∧ KeyID e = keyID)).
Proof.
  intros Hi. unfold IsRevoked.
  rewrite orb_true_iff, !andb_true_iff, !negb_true_iff, !bool_decide_eq_true, Z.eqb_neq.
  unfold str_empty. rewrite bool_decide_eq_false. split.
  - intros [[Hne [r Hr]]|[Hne [r Hr]]]; exists r.
    + split; [left; by exists serial|left]. by apply (inv_serial s Hi) in Hr as [? _].
    + split; [right; by exists keyID|right]. by apply (inv_keyID s Hi) in Hr as [? _].
  - intros (e & He & [[Hne <-]|[Hne <-]]); [left|right]; (split; [done|]).
    + by apply (inv_serial_known s Hi).
    + by apply (inv_keyID_known s Hi).
Qed.

(** C31: the published snapshot says the same as the store. After any history of
    revocations the snapshot has no duplicates, is sorted by time, then serial,
    then key ID, does not depend on the order Go ranges over its maps nor on the
    choices of its unstable sort, and a consumer that matches a certificate's
    serial or key ID against the entries decides as [IsRevoked] does. *)
Theorem snapshot_faithful ops now :
  (∀ op, op ∈ ops → revocation_ok op.2) →
  let s := revoke_all ops NewInMemoryStore in
  let es := Snapshot.Entries (InMemoryStore.Snapshot now s) in
  NoDup es ∧ StronglySorted entry_le es ∧
  (∀ l1 l2 out,
     l1 ≡ₚ (map_to_list (bySerial s)).*2 → l2 ≡ₚ (map_to_list (byKeyID s)).*2 →
     out ≡ₚ (map_to_list (seen_of l1 l2)).*2 → Sorted entry_le out → out = es) ∧
  (∀ serial keyID, IsRevoked s serial keyID = true ↔
     ∃ e, e ∈ es ∧ ((serial ≠ 0 ∧ Serial e = serial) ∨ (keyID ≠ "" ∧ KeyID e = keyID))).
Proof.
  intros Hops s es. assert (store_inv s) as Hi by (apply revoke_all_inv; [apply new_store_inv|done]).
  split_and!.
  - by apply snapshot_NoDup.
  - apply StronglySorted_merge_sort; apply _.
  - intros. by eapply snapshot_unique.
  - intros serial keyID. rewrite IsRevoked_entries by done. unfold es. by setoid_rewrite elem_of_snapshot.
Qed.

(** ** The KRL spec, read back

    What [ssh-keygen -k -s] acts on: the lines that are neither blank nor
    comments. *)
Definition is_directive (line : string) : bool :=
  match line with "" => false | String c _ => negb (bool_decide (c = "#"%char)) end.
Definition spec_directives (text : string) : list string :=
  List.filter is_directive (split_byte newline text).

Definition has_newline (s : string) : bool := str_has newline s.

Lemma str_has_app c s t : str_has c (s +:+ t) = str_has c s || str_has c t.
Proof.
  induction s as [|x s IH]; [done|]. rewrite str_app_cons. cbn [str_has].
  by rewrite IH, orb_assoc.
Qed.

Lemma split_line l rest :
  has_newline l = false → split_byte newline (l +:+ nl +:+ rest) = l :: split_byte newline rest.
Proof.
  unfold has_newline. induction l as [|c l IH]; intros H.
  - unfold nl. rewrite str_app_nil_l, str_app_cons, str_app_nil_l. cbn [split_byte].
    by rewrite bool_decide_true.
  - rewrite str_app_cons. cbn [str_has] in H. apply orb_false_iff in H as [Hc Hl].
    cbn [split_byte]. by rewrite Hc, IH.
Qed.

Definition unlines (ls : list string) : string := str_concat ((λ l, l +:+ nl) <$> ls).

Lemma str_concat_app l1 l2 : str_concat (l1 ++ l2) = str_concat l1 +:+ str_concat l2.
Proof.
  induction l1 as [|s l1 IH]; [done|]. unfold str_concat in *. cbn [app foldr].
  by rewrite IH, str_app_assoc.
Qed.

Lemma unlines_app l1 l2 : unlines (l1 ++ l2) = unlines l1 +:+ unlines l2.
Proof. unfold unlines. by rewrite fmap_app, str_concat_app. Qed.

Lemma unlines_concat lls : unlines (mjoin lls) = str_concat (unlines <$> lls).
Proof.
  induction lls as [|ls lls IH]; [done|]. cbn [mjoin list_join fmap list_fmap].
  rewrite unlines_app. unfold str_concat in *. cbn [foldr]. by rewrite <- IH.
Qed.

Lemma split_unlines ls :
  (∀ l, l ∈ ls → has_newline l = false) → split_byte newline (unlines ls) = ls ++ [""].
Proof.
  induction ls as [|l ls IH]; intros H; [done|].
  change (unlines (l :: ls)) with ((l +:+ nl) +:+ unlines ls).
  rewrite str_app_assoc, split_line by (apply H; by left).
  rewrite IH; [done|]. intros. apply H. by right.
Qed.

Definition annot_lines (a : string) : list string :=
  if str_empty a then [] else ["# " +:+ a].
Definition serial_directive (e : serialEntry) : string := "serial: " +:+ FormatUint e.1.
Definition keyID_directive (e : keyIDEntry) : string := "id: " +:+ e.1.

Lemma unlines_annot a : unlines (annot_lines a) = annot_line a.
Proof.
  unfold annot_lines, annot_line. case_match; [done|].
  unfold unlines, str_concat. cbn [fmap list_fmap foldr]. by rewrite str_app_nil_r, str_app_assoc.
Qed.

Lemma unlines_group {E} (annot : E → string) (dir : E → string) es :
  unlines (mjoin ((λ e, annot_lines (annot e) ++ [dir e]) <$> es)) =
  str_concat ((λ e, annot_line (annot e) +:+ dir e +:+ nl) <$> es).
Proof.
  rewrite unlines_concat. f_equal. induction es as [|e es IH]; [done|].
  cbn [fmap list_fmap]. rewrite IH, unlines_app, unlines_annot. do 2 f_equal.
  unfold unlines, str_concat. cbn [fmap list_fmap foldr]. by rewrite str_app_nil_r.
Qed.

Definition spec_lines (snap : Snapshot.t) : list string :=
  ["# certd KRL spec"; "# generated " +:+ format_rfc3339 (Snapshot.CapturedAt snap)] ++
  match sorted_serials snap, sorted_keyIDs snap with
  | [], [] => ["# (empty " +:+ em_dash +:+ " no revocations recorded)"]
  | serials, keyIDs =>
      mjoin ((λ e, annot_lines e.2 ++ [serial_directive e]) <$> serials) ++
      mjoin ((λ e, annot_lines e.2 ++ [keyID_directive e]) <$> keyIDs)
  end.

Lemma MarshalSpec_lines snap : MarshalSpec snap = unlines (spec_lines snap).
Proof.
  unfold MarshalSpec, spec_lines. rewrite unlines_app.
  assert (∀ a b c, unlines [a; b] +:+ c = a +:+ nl +:+ b +:+ nl +:+ c) as Hh.
  { intros. unfold unlines, str_concat. cbn [fmap list_fmap foldr].
    by rewrite str_app_nil_r, !str_app_assoc. }
  assert (∀ a, unlines [a] = a +:+ nl) as H1.
  { intros. unfold unlines, str_concat. cbn [fmap list_fmap foldr]. by rewrite str_app_nil_r. }
  assert (∀ ss ks, str_concat (serial_lines <$> ss) +:+ str_concat (keyID_lines <$> ks) =
    unlines (mjoin ((λ e, annot_lines e.2 ++ [serial_directive e]) <$> ss) ++
             mjoin ((λ e, annot_lines e.2 ++ [keyID_directive e]) <$> ks))) as Hg.
  { intros. rewrite unlines_app, !unlines_group. f_equal; f_equal; apply list_fmap_ext;
      intros i e He; unfold serial_lines, serial_directive, keyID_lines, keyID_directive;
      by rewrite str_app_assoc. }
  rewrite Hh, !str_app_assoc. do 5 apply (f_equal (String.append _)).
  destruct (sorted_serials snap), (sorted_keyIDs snap); cbv beta iota; try apply Hg.
  rewrite H1, !str_app_assoc. done.
Qed.

(** No field of the entry breaks the line format: [MarshalSpec] replaces the
    newlines of the reason only. *)
Definition one_line (r : Revocation) : Prop :=
  has_newline (KeyID r) = false ∧ has_newline (Revoker r) = false.

Lemma replace_byte_has c d s : c ≠ d → str_has c (replace_byte c d s) = false.
Proof.
  intros H. induction s as [|x s IH]; [done|]. cbn [replace_byte str_has]. rewrite IH.
  rewrite orb_false_r. apply bool_decide_eq_false. case_bool_decide; congruence.
Qed.

Lemma annotation_one_line r : one_line r → has_newline (annotation r) = false.
Proof.
  intros [_ Hr]. unfold annotation, has_newline in *.
  destruct (str_empty (Reason r)), (str_empty (Revoker r)); cbn [andb app str_join];
    rewrite ?str_has_app, ?replace_byte_has, ?Hr by done; done.
Qed.

Lemma pad_has c w n acc : is_digit c = false → str_has c (pad w n acc) = str_has c acc.
Proof.
  intros Hc. revert n acc. induction w as [|w IH]; intros n acc; [done|]. cbn [pad].
  rewrite IH. cbn [str_has]. rewrite bool_decide_false; [done|].
  intros E. destruct (digit_byte_spec (n mod 10)); [apply Z.mod_pos_bound; lia|congruence].
Qed.

Lemma format_rfc3339_one_line t : has_newline (format_rfc3339 t) = false.
Proof.
  unfold format_rfc3339, append_rfc3339, has_newline. case_match. case_match.
  repeat (rewrite pad_has by done; cbn [str_has]; rewrite ?bool_decide_false by done; cbn [orb]).
  done.
Qed.

#[export] Instance serialEntry_le_trans : Transitive serialEntry_le.
Proof. intros a b c. unfold serialEntry_le. lia. Qed.
#[export] Instance serialEntry_le_total : Total serialEntry_le.
Proof. intros a b. unfold serialEntry_le. lia. Qed.
#[export] Instance keyIDEntry_le_trans : Transitive keyIDEntry_le.
Proof. intros a b c. unfold keyIDEntry_le. intros. by etrans. Qed.
#[export] Instance keyIDEntry_le_total : Total keyIDEntry_le.
Proof. intros a b. apply String.le_total. Qed.

Lemma elem_of_sorted_serials snap e :
  e ∈ sorted_serials snap → ∃ r, r ∈ Snapshot.Entries snap ∧ e = (Serial r, annotation r).
Proof.
  unfold sorted_serials, serial_entries. rewrite merge_sort_Permutation, list_elem_of_fmap.
  intros (r & -> & Hr). apply list_elem_of_In, List.filter_In in Hr as [Hr _].
  exists r. split; [by apply list_elem_of_In|done].
Qed.

Lemma elem_of_sorted_keyIDs snap e :
  e ∈ sorted_keyIDs snap → ∃ r, r ∈ Snapshot.Entries snap ∧ e = (KeyID r, annotation r).
Proof.
  unfold sorted_keyIDs, keyID_entries. rewrite merge_sort_Permutation, list_elem_of_fmap.
  intros (r & -> & Hr). apply list_elem_of_In, List.filter_In in Hr as [Hr _].
  exists r. split; [by apply list_elem_of_In|done].
Qed.

(** The lines of a group of entries: comments and one directive each. *)
Section Group.
Context {E : Type} (annot : E → string) (dir : E → string).

Lemma group_one_line es l :
  (∀ e, e ∈ es → has_newline (annot e) = false ∧ has_newline (dir e) = false) →
  l ∈ mjoin ((λ e, annot_lines (annot e) ++ [dir e]) <$> es) → has_newline l = false.
Proof.
  intros H. rewrite list_elem_of_join. intros (ls & Hl & (e & -> & He)%list_elem_of_fmap).
  destruct (H e He) as [Ha Hd]. apply elem_of_app in Hl as [Hl|Hl].
  - unfold annot_lines in Hl. destruct (str_empty (annot e)); [by apply elem_of_nil in Hl|].
    apply list_elem_of_singleton in Hl as ->. unfold has_newline in *. by rewrite str_has_app, Ha.
  - by apply list_elem_of_singleton in Hl as ->.
Qed.

Lemma group_directives es :
  (∀ e, e ∈ es → is_directive (dir e) = true) →
  List.filter is_directive (mjoin ((λ e, annot_lines (annot e) ++ [dir e]) <$> es)) = dir <$> es.
Proof.
  induction es as [|e es IH]; intros H; [done|].
  rewrite fmap_cons, fmap_cons. change (mjoin (?x :: ?l)) with (x ++ mjoin l).
  rewrite !List.filter_app, IH by (intros; apply H; by right).
  unfold annot_lines. cbn [List.filter]. rewrite (H e) by by left.
  by destruct (str_empty (annot e)).
Qed.
End Group.

Lemma spec_lines_one_line snap :
  (∀ r, r ∈ Snapshot.Entries snap → one_line r) →
  ∀ l, l ∈ spec_lines snap → has_newline l = false.
Proof.
  intros Hone l. unfold spec_lines. rewrite elem_of_app, !elem_of_cons.
  intros [[->|[->|[]%elem_of_nil]]|Hl]; [done| |].
  { unfold has_newline. rewrite str_has_app. apply format_rfc3339_one_line. }
  assert (l ∈ mjoin ((λ e, annot_lines e.2 ++ [serial_directive e]) <$> sorted_serials snap) ++
              mjoin ((λ e, annot_lines e.2 ++ [keyID_directive e]) <$> sorted_keyIDs snap) ∨
          l = "# (empty " +:+ em_dash +:+ " no revocations recorded)") as [Hg| ->]; [| |done].
  { destruct (sorted_serials snap), (sorted_keyIDs snap); [|by left..].
    right. by apply list_elem_of_singleton in Hl. }
  apply elem_of_app in Hg as [Hg|Hg]; (eapply group_one_line; [|apply Hg]).
  - intros e (r & Hr & ->)%elem_of_sorted_serials. split; [by apply annotation_one_line, Hone|].
    unfold has_newline, serial_directive. rewrite str_has_app.
    rewrite (all_digits_has newline (FormatUint _)); [done|apply FormatUint_digits|done].
  - intros e (r & Hr & ->)%elem_of_sorted_keyIDs. split; [by apply annotation_one_line, Hone|].
    unfold has_newline, keyID_directive. rewrite str_has_app. by apply Hone.
Qed.

(** C32: the KRL spec says what the snapshot says. When no key ID and no revoker
    of the snapshot contains a line break, the directives of the rendered spec are
    exactly one [serial:] line per entry with a serial, in ascending order of
    serials, followed by one [id:] line per entry with a key ID, in alphabetical
    order: neither the annotations nor the banner add or hide one. *)
Theorem marshal_spec_directives snap :
  (∀ r, r ∈ Snapshot.Entries snap → one_line r) →
  spec_directives (MarshalSpec snap) =
    (serial_directive <$> sorted_serials snap) ++ (keyID_directive <$> sorted_keyIDs snap) ∧
  (sorted_serials snap).*1 ≡ₚ List.filter (λ n, negb (n =? 0)) (Serial <$> Snapshot.Entries snap) ∧
  StronglySorted Z.le (sorted_serials snap).*1 ∧
  (sorted_keyIDs snap).*1 ≡ₚ List.filter (λ k, negb (str_empty k)) (KeyID <$> Snapshot.Entries snap) ∧
  StronglySorted String.le (sorted_keyIDs snap).*1.
Proof.
  intros Hone. split_and!.
  - rewrite MarshalSpec_lines. unfold spec_directives.
    rewrite split_unlines by (by apply spec_lines_one_line).
    rewrite List.filter_app. cbn [List.filter is_directive]. rewrite app_nil_r.
    unfold spec_lines. rewrite List.filter_app.
    rewrite (filter_none _ [_; _]) by (intros l [->|[->|[]%elem_of_nil]%elem_of_cons]%elem_of_cons; done).
    destruct (sorted_serials snap) as [|e es] eqn:Es, (sorted_keyIDs snap) as [|k ks] eqn:Ek; [done|..];
      rewrite List.filter_app, !group_directives by done; done.
  - unfold sorted_serials, serial_entries. rewrite merge_sort_Permutation, <- list_fmap_compose.
    rewrite filter_fmap. done.
  - eapply StronglySorted_map; [|apply StronglySorted_merge_sort; apply _]. done.
  - unfold sorted_keyIDs, keyID_entries. rewrite merge_sort_Permutation, <- list_fmap_compose.
    rewrite filter_fmap. done.
  - eapply StronglySorted_map; [|apply StronglySorted_merge_sort; apply _]. done.
Qed.

(** ** The properties at concrete inputs *)

Module KrlExamples.

Definition r1 : Revocation := mkRevocation 42 "user:alice" "laptop lost" "ops@corp" (5 * second).
Definition r2 : Revocation := mkRevocation 7 "" "" "" (3 * second).
Definition r3 : Revocation := mkRevocation 0 "host:db" "" "bob" zero_time.
Definition ops : list (time * Revocation) := [(10 * second, r1); (11 * second, r2); (12 * second, r3)].

Lemma snapshot_faithful_witness :
  (∀ op, op ∈ ops → revocation_ok op.2) ∧
  Serial <$> Snapshot.Entries (InMemoryStore.Snapshot 0 (revoke_all ops NewInMemoryStore)) = [7; 42; 0] ∧
  NoDup (Snapshot.Entries (InMemoryStore.Snapshot 0 (revoke_all ops NewInMemoryStore))).
Proof.
  assert (∀ op, op ∈ ops → revocation_ok op.2) as H.
  { intros op Hop. apply list_elem_of_In in Hop. simpl in Hop.
    unfold revocation_ok, uint64_ok. destruct Hop as [<-|[<-|[<-|[]]]]; simpl; lia. }
  split; [exact H|]. split; [vm_compute; reflexivity|].
  exact (proj1 (snapshot_faithful ops 0 H)).
Defined.

Lemma marshal_spec_directives_witness :
  spec_directives (MarshalSpec (Snapshot.mk 0 [r2; r1; r3])) =
    ["serial: 7"; "serial: 42"; "id: host:db"; "id: user:alice"].
Proof.
  destruct (marshal_spec_directives (Snapshot.mk 0 [r2; r1; r3])) as [H _].
  - intros r Hr. apply list_elem_of_In in Hr. simpl in Hr.
    destruct Hr as [<-|[<-|[<-|[]]]]; vm_compute; split; reflexivity.
  - rewrite H. vm_compute. reflexivity.
Defined.

(** Without the one-line condition the spec can revoke what nobody revoked: a key
    ID with a line break smuggles in a directive. *)
Lemma marshal_spec_injection :
  let r := mkRevocation 0 ("x" +:+ nl +:+ "serial: 7") "" "" 0 in
  let s := (Revoke 0 r NewInMemoryStore).2 in
  IsRevoked s 7 "" = false ∧
  spec_directives (InMemory_MarshalSpec 0 s) = ["id: x"; "serial: 7"].
Proof. split; vm_compute; reflexivity. Qed.

End KrlExamples.
