(* ===== verification/Signer.v ===== *)
(** * Signer: custody of the CA key

    Models [internal/server/signer]: the [Signer] interface, the in-memory Ed25519
    and PKCS#8 signers ([inmemory.go]) and the adapter around a remote signing
    service ([remote.go]).  The primitives of the Go cryptographic library are the
    operations of [CryptoLib]. *)

From S2P Require Import Prelude.

(** ** Keys *)

Inductive KeyAlgo := Ed25519 | ECDSA | RSA | OtherKey (type : string).

#[export] Instance KeyAlgo_eq_dec : EqDecision KeyAlgo.
Proof. solve_decision. Defined.

(** [crypto.PublicKey]: the dynamic type and the key. *)
Record PublicKey := mkPublicKey { algo : KeyAlgo; key_bytes : string }.

#[export] Instance PublicKey_eq_dec : EqDecision PublicKey.
Proof. solve_decision. Defined.

(** A private key as [x509.ParsePKCS8PrivateKey] returns it. *)
Record PrivateKey := mkPrivateKey { priv_algo : KeyAlgo; priv_bytes : string }.

(** What the code calls in [crypto], [crypto/x509] and [encoding/pem]. *)
Class CryptoLib := {
  (** [priv.Public()] *)
  public_of : PrivateKey → PublicKey;
  (** Sign a message or digest with a private key. *)
  raw_sign : PrivateKey → string → result string;
  (** [key.(crypto.Signer)] holds. *)
  can_sign : PrivateKey → bool;
  (** [pem.Decode]: type and bytes of the first block, if any. *)
  pem_decode : string → option (string * string);
  (** [pem.EncodeToMemory] of one block. *)
  pem_encode : string → string → string;
  (** [x509.ParsePKCS8PrivateKey] *)
  ParsePKCS8PrivateKey : string → result PrivateKey;
}.

(** [x509.ParsePKIXPublicKey] *)
Class PkixLib := { ParsePKIXPublicKey : string → result PublicKey }.

(** [x509.MarshalPKIXPublicKey], [x509.MarshalPKCS8PrivateKey] *)
Class KeyLib := {
  MarshalPKIXPublicKey : PublicKey → result string;
  MarshalPKCS8PrivateKey : PrivateKey → result string;
}.

(** ** The [Signer] interface

    [Sign]'s [opts.HashFunc()] is a number, 0 for none. *)
Record Signer := mkSigner {
  Public : PublicKey;
  Sign : string → Z → result string;
  Description : string;
}.

Section InMemory.
Context `{CryptoLib}.

(** [inMemory.Sign]: Ed25519 hashes internally, so a pre-hash is refused. *)
Definition inMemory_Sign (priv : PrivateKey) (digest : string) (hashFunc : Z) : result string :=
  if negb (hashFunc =? 0)
  then Err (ErrNew "ed25519 requires opts.HashFunc == 0")
  else raw_sign priv digest.

Definition inMemory (priv : PrivateKey) (descr : string) : Signer :=
  mkSigner (public_of priv) (inMemory_Sign priv) descr.

Definition genericInMemory (priv : PrivateKey) (descr : string) : Signer :=
  mkSigner (public_of priv) (λ digest _, raw_sign priv digest) descr.

Definition errNoPEM : error := ErrNew "no PEM block found".

Definition parseEd25519PEM (b : string) (descr : string) : result Signer :=
  match pem_decode b with
  | None => Err errNoPEM
  | Some (_, bytes) =>
      key <-r rwrap "parse pkcs8: " (ParsePKCS8PrivateKey bytes);;
      if bool_decide (priv_algo key = Ed25519) then Ok (inMemory key descr)
      else Err (ErrNew "expected ed25519.PrivateKey")
  end.

(** [LoadEd25519FromPEMFile], given what [os.ReadFile] returned. *)
Definition LoadEd25519FromPEMFile (path : string) (file : result string) : result Signer :=
  b <-r rwrap ("read " +:+ path +:+ ": ") file;;
  rwrap ("parse " +:+ path +:+ ": ")
    (parseEd25519PEM b ("in-memory ed25519 (file: " +:+ path +:+ ")")).

Definition LoadFromPKCS8PEM (b descr : string) : result Signer :=
  match pem_decode b with
  | None => Err errNoPEM
  | Some (_, bytes) =>
      key <-r rwrap "parse pkcs8: " (ParsePKCS8PrivateKey bytes);;
      if can_sign key
      then Ok (genericInMemory key (if str_empty descr then "in-memory (pkcs8)" else descr))
      else Err (ErrNew "key type is not a crypto.Signer")
  end.
End InMemory.

(** ** Remote signers *)

Module RemoteSignerConfig.
(** [RemoteSignFn] gets the deadline of its context. *)
Record t := mk {
  PublicKey : option PublicKey;
  Sign : option (duration → string → result string);
  Description : string;
  SignTimeout : duration;
}.
End RemoteSignerConfig.

Definition DefaultRemoteSignTimeout : duration := 5 * second.

Definition remoteSigner_Sign (sign : duration → string → result string) (timeout : duration)
    (digest : string) (_ : Z) : result string :=
  rwrap "remote sign: " (sign timeout digest).

Definition NewRemoteSigner (cfg : RemoteSignerConfig.t) : result Signer :=
  match RemoteSignerConfig.PublicKey cfg, RemoteSignerConfig.Sign cfg with
  | None, _ => Err (ErrNew "PublicKey is required")
  | _, None => Err (ErrNew "Sign is required")
  | Some pub, Some sign =>
      if str_empty (RemoteSignerConfig.Description cfg)
      then Err (ErrNew "Description is required") else
      let timeout := if RemoteSignerConfig.SignTimeout cfg =? 0 then DefaultRemoteSignTimeout
                     else RemoteSignerConfig.SignTimeout cfg in
      Ok (mkSigner pub (remoteSigner_Sign sign timeout) (RemoteSignerConfig.Description cfg))
  end.

(** A loaded in-memory signer only ever signs raw messages with an Ed25519 key. *)
Lemma parseEd25519PEM_Ok `{CryptoLib} b descr s :
  parseEd25519PEM b descr = Ok s →
  ∃ key, priv_algo key = Ed25519 ∧ Public s = public_of key ∧
    ∀ digest h, Sign s digest h = (if h =? 0 then raw_sign key digest
      else Err (ErrNew "ed25519 requires opts.HashFunc == 0")).
Proof.
  unfold parseEd25519PEM. destruct (pem_decode b) as [[ty bytes]|]; [|done].
  intros (key & _ & E)%rbind_Ok. case_bool_decide; [|done]. injection E as <-.
  exists key. split_and!; [done..|]. intros digest h. simpl. unfold inMemory_Sign.
  by destruct (h =? 0).
Qed.
