(* ===== verification/SshEngine.v ===== *)
(** * SshEngine: building and signing SSH certificates

    Models [internal/server/sshengine/sshengine.go].  [golang.org/x/crypto/ssh] is
    not part of the repository: [SshLib] names the two operations used of it, and
    [SshLaws] what its documentation says of [SignCert]. *)

From S2P Require Import Prelude Signer.

(** [ssh.PublicKey] as the handlers get it: the key type and the wire form. *)
Record SshKey := mkSshKey { key_type : string; wire : string }.

#[export] Instance SshKey_eq_dec : EqDecision SshKey.
Proof. solve_decision. Defined.

(** [ssh.UserCert] and [ssh.HostCert]. *)
Definition UserCert : Z := 1.
Definition HostCert : Z := 2.

(** [ssh.Certificate]; a nil and an empty map are one value. *)
Record Certificate := mkCertificate {
  Key : SshKey;
  CertSerial : Z;
  CertType : Z;
  KeyId : string;
  ValidPrincipals : list string;
  ValidAfter : Z;
  ValidBefore : Z;
  CriticalOptions : gmap string string;
  Extensions : gmap string string;
  SignatureKey : option SshKey;
  Signature : string;
}.

(** Everything but the signature. *)
Definition unsigned (c : Certificate) : Certificate :=
  mkCertificate (Key c) (CertSerial c) (CertType c) (KeyId c) (ValidPrincipals c)
    (ValidAfter c) (ValidBefore c) (CriticalOptions c) (Extensions c) None "".

Class SshLib := {
  SshSigner : Type;
  (** [ssh.NewSignerFromSigner] *)
  NewSignerFromSigner : Signer → result SshSigner;
  (** [cert.SignCert(rand, signer)] *)
  SignCert : string → SshSigner → Certificate → result Certificate;
  ssh_signer_key : SshSigner → SshKey;
}.

(** [SignCert] sets the nonce, [SignatureKey] and [Signature] and nothing else. *)
Class SshLaws `{SshLib} := {
  sign_cert_fields rnd s c c' :
    SignCert rnd s c = Ok c' → unsigned c' = unsigned c ∧ SignatureKey c' = Some (ssh_signer_key s);
}.

Module UserCertParams.
Record t := mk {
  PublicKey : option SshKey;
  KeyID : string;
  Principals : list string;
  Extensions : gmap string string;
  CriticalOptions : gmap string string;
  ValidAfter : time;
  ValidBefore : time;
  Serial : Z;
}.
End UserCertParams.

Module HostCertParams.
Record t := mk {
  PublicKey : option SshKey;
  KeyID : string;
  Principals : list string;
  ValidAfter : time;
  ValidBefore : time;
  Serial : Z;
}.
End HostCertParams.

(** [uint64(t.Unix())] *)
Definition unix_uint64 (t : time) : Z := uint64_wrap (time_unix t).

(** [time.Time]'s default text is kept opaque in messages. *)
Definition err_window : error := ErrNew "valid-before must be after valid-after".

Definition validateCommon {K} (pub : option K) (keyID : string) (principals : list string)
    (validAfter validBefore : time) : result K :=
  match pub with
  | None => Err (ErrNew "public key is required")
  | Some k =>
      reject (str_empty keyID) with ErrNew "key id is required for audit attribution";;
      reject (bool_decide (principals = [])) with ErrNew "principals must contain at least one entry";;
      reject (time_is_zero validAfter) with ErrNew "valid-after is required";;
      reject (negb (time_after validBefore validAfter)) with err_window;;
      Ok k
  end.

Section Sign.
Context `{SshLib}.

Definition signCert (rnd : string) (s : Signer) (certType : Z) (pub : SshKey) (keyID : string)
    (principals : list string) (extensions criticalOpts : gmap string string)
    (validAfter validBefore : time) (serial : Z) : result Certificate :=
  let cert := mkCertificate pub serial certType keyID principals
    (unix_uint64 validAfter) (unix_uint64 validBefore) criticalOpts extensions None "" in
  sshSigner <-r rwrap "wrap CA signer for SSH: " (NewSignerFromSigner s);;
  rwrap "sign SSH cert: " (SignCert rnd sshSigner cert).

Definition SignUserCert (rnd : string) (s : Signer) (p : UserCertParams.t) : result Certificate :=
  pub <-r validateCommon (UserCertParams.PublicKey p) (UserCertParams.KeyID p)
    (UserCertParams.Principals p) (UserCertParams.ValidAfter p) (UserCertParams.ValidBefore p);;
  signCert rnd s UserCert pub (UserCertParams.KeyID p) (UserCertParams.Principals p)
    (UserCertParams.Extensions p) (UserCertParams.CriticalOptions p)
    (UserCertParams.ValidAfter p) (UserCertParams.ValidBefore p) (UserCertParams.Serial p).

Definition SignHostCert (rnd : string) (s : Signer) (p : HostCertParams.t) : result Certificate :=
  pub <-r validateCommon (HostCertParams.PublicKey p) (HostCertParams.KeyID p)
    (HostCertParams.Principals p) (HostCertParams.ValidAfter p) (HostCertParams.ValidBefore p);;
  signCert rnd s HostCert pub (HostCertParams.KeyID p) (HostCertParams.Principals p)
    ∅ ∅ (HostCertParams.ValidAfter p) (HostCertParams.ValidBefore p) (HostCertParams.Serial p).
End Sign.

(** ** What a signed certificate says *)

Section Facts.
Context `{SshLaws}.

Lemma signCert_Ok rnd s ty pub keyID ps exts opts va vb serial c :
  signCert rnd s ty pub keyID ps exts opts va vb serial = Ok c →
  unsigned c = mkCertificate pub serial ty keyID ps (unix_uint64 va) (unix_uint64 vb) opts exts None "" ∧
  ∃ ss, NewSignerFromSigner s = Ok ss ∧ SignatureKey c = Some (ssh_signer_key ss).
Proof.
  unfold signCert. intros (ss & Hs & Hc)%rbind_Ok. apply rwrap_Ok in Hs, Hc.
  apply sign_cert_fields in Hc as [Hu Hk]. split; [by rewrite Hu|]. by exists ss.
Qed.

Lemma validateCommon_Ok {K} (pub : option K) keyID ps va vb k :
  validateCommon pub keyID ps va vb = Ok k ↔
  pub = Some k ∧ keyID ≠ "" ∧ ps ≠ [] ∧ va ≠ zero_time ∧ va < vb.
Proof.
  unfold validateCommon, str_empty, time_is_zero, time_after.
  destruct pub as [k'|]; [|naive_solver]. rewrite !guard_err_Ok.
  rewrite !bool_decide_eq_false, Z.eqb_neq, negb_false_iff, Z.ltb_lt.
  split; [intros (?&?&?&?&[= ->]); done|]. by intros ([= ->]&?&?&?&?).
Qed.

(** The window of a certificate in whole seconds: it never opens later nor closes
    later than asked, and is not inverted. *)
Lemma unix_window va vb :
  0 ≤ va → va < vb → vb < 2^64 * ns_per_sec →
  unix_uint64 va ≤ unix_uint64 vb ∧
  unix_uint64 vb * ns_per_sec ≤ vb ∧ va - ns_per_sec < unix_uint64 va * ns_per_sec ≤ va.
Proof.
  intros Ha Hab Hb. unfold unix_uint64, time_unix.
  assert (∀ t, 0 ≤ t → t < 2^64 * ns_per_sec →
    uint64_wrap (t / ns_per_sec) = t / ns_per_sec ∧ t - ns_per_sec < t / ns_per_sec * ns_per_sec ≤ t) as Ht.
  { intros t Ht0 Ht1. rewrite uint64_wrap_id.
    - pose proof (Z.div_mod t ns_per_sec ltac:(done)).
      pose proof (Z.mod_pos_bound t ns_per_sec ltac:(done)). lia.
    - split; [apply Z.div_pos; [lia|done]|]. apply Z.div_lt_upper_bound; [done|lia]. }
  destruct (Ht va) as [-> ?]; [lia..|]. destruct (Ht vb) as [-> ?]; [lia..|].
  split; [apply Z.div_le_mono; [done|lia]|lia].
Qed.
End Facts.

(** An SSH certificate is issued only with a key, a key ID and at least one
    principal, for a window that is not empty, and it says exactly what was asked:
    subject key, type, serial, key ID, principals, extensions, options, signed by
    the CA key.  Its expiry, in whole seconds, is never after the requested one. *)
Theorem user_cert_faithful `{SshLaws} rnd s p c :
  SignUserCert rnd s p = Ok c →
  UserCertParams.KeyID p ≠ "" ∧ UserCertParams.Principals p ≠ [] ∧
  UserCertParams.ValidAfter p < UserCertParams.ValidBefore p ∧
  (∃ k, UserCertParams.PublicKey p = Some k ∧
    unsigned c = mkCertificate k (UserCertParams.Serial p) UserCert (UserCertParams.KeyID p)
      (UserCertParams.Principals p) (unix_uint64 (UserCertParams.ValidAfter p))
      (unix_uint64 (UserCertParams.ValidBefore p)) (UserCertParams.CriticalOptions p)
      (UserCertParams.Extensions p) None "") ∧
  (∃ ss, NewSignerFromSigner s = Ok ss ∧ SignatureKey c = Some (ssh_signer_key ss)) ∧
  (0 ≤ UserCertParams.ValidAfter p → UserCertParams.ValidBefore p < 2^64 * ns_per_sec →
     ValidAfter c ≤ ValidBefore c ∧ ValidBefore c * ns_per_sec ≤ UserCertParams.ValidBefore p).
Proof.
  unfold SignUserCert. intros (k & Hv & Hc)%rbind_Ok.
  apply validateCommon_Ok in Hv as (Hk & Hid & Hps & _ & Hw). apply signCert_Ok in Hc as [Hu Hs].
  split_and!; [done..|by exists k|done|]. intros Ha0 Hb1.
  assert (ValidAfter c = unix_uint64 (UserCertParams.ValidAfter p) ∧
          ValidBefore c = unix_uint64 (UserCertParams.ValidBefore p)) as [-> ->]
    by (unfold unsigned in Hu; by injection Hu).
  destruct (unix_window _ _ Ha0 Hw Hb1) as (? & ? & ?). done.
Qed.

Module SshExamples.

(** A signing library that stamps the certificate with the signer's key. *)
Definition toyLib : SshLib := {|
  SshSigner := Signer;
  NewSignerFromSigner s := Ok s;
  SignCert rnd s c := Ok (mkCertificate (Key c) (CertSerial c) (CertType c) (KeyId c)
    (ValidPrincipals c) (ValidAfter c) (ValidBefore c) (CriticalOptions c) (Extensions c)
    (Some (mkSshKey "ssh-ed25519" (key_bytes (Public s)))) ("sig" +:+ rnd));
  ssh_signer_key s := mkSshKey "ssh-ed25519" (key_bytes (Public s));
|}.

Lemma toyLaws : @SshLaws toyLib.
Proof. split. intros rnd s c c' [= <-]. done. Qed.

Definition toySigner : Signer := mkSigner (mkPublicKey Ed25519 "ca") (λ d _, Ok d) "toy".
Definition toyParams : UserCertParams.t :=
  UserCertParams.mk (Some (mkSshKey "ssh-ed25519" "alice")) "user:alice" ["alice"]
    {["permit-pty" := ""]} ∅ (10 * second + 1) (70 * second) 9.

Lemma user_cert_faithful_witness :
  ∃ c, @SignUserCert toyLib "r" toySigner toyParams = Ok c ∧
    ValidAfter c = 10 ∧ ValidBefore c = 70 ∧ UserCertParams.KeyID toyParams ≠ "".
Proof.
  eexists. split; [vm_compute; reflexivity|]. split_and!; [reflexivity..|].
  refine (proj1 (@user_cert_faithful toyLib toyLaws "r" toySigner toyParams _ _)).
  vm_compute; reflexivity.
Defined.

End SshExamples.
