(* ===== verification/X509Engine.v ===== *)
(** * X509Engine: building and signing X.509 certificates

    Models [internal/server/x509engine/x509engine.go]: the workload, server and
    intermediate issuance paths, the self-signed CA, the issuer chain and the
    random serial.  [url.Parse], [x509.CreateCertificate] and
    [x509.ParseCertificate] are operations of [X509Lib]; [X509Laws] says that a
    certificate that was created and parsed back carries the fields of its
    template, instants cut to whole seconds as ASN.1 stores them.  The random
    source is the sequence of bytes it will deliver. *)

From S2P Require Import Prelude Signer.

(** The parts of [*url.URL] the code reads, and [uri.String()]. *)
Record URL := mkURL { Scheme : string; Host : string; URLString : string }.

Inductive ExtKeyUsage := ExtKeyUsageClientAuth | ExtKeyUsageServerAuth.

(** [x509.KeyUsage] bits. *)
Definition KeyUsageDigitalSignature : Z := 1.
Definition KeyUsageKeyEncipherment : Z := 4.
Definition KeyUsageKeyAgreement : Z := 16.
Definition KeyUsageCertSign : Z := 32.
Definition KeyUsageCRLSign : Z := 64.

(** [x509.Certificate], as template and as parsed certificate.  [Raw] is the DER
    encoding, [RawSubject] and [RawIssuer] the encoded names. *)
Record Certificate := mkCertificate {
  SerialNumber : Z;
  SubjectCommonName : string;
  NotBefore : time;
  NotAfter : time;
  KeyUsage : Z;
  ExtKeyUsages : list ExtKeyUsage;
  BasicConstraintsValid : bool;
  IsCA : bool;
  MaxPathLen : Z;
  MaxPathLenZero : bool;
  DNSNames : list string;
  IPAddresses : list string;
  URIs : list URL;
  EmailAddresses : list string;
  CertPublicKey : option PublicKey;
  Raw : string;
  RawSubject : string;
  RawIssuer : string;
}.

Class X509Lib := {
  url_parse : string → result URL;
  (** [x509.CreateCertificate(rand, template, parent, pub, priv)] *)
  CreateCertificate : string → Certificate → Certificate → PublicKey → Signer → result string;
  ParseCertificate : string → result Certificate;
  (** [c.CheckSignatureFrom(parent) == nil] *)
  CheckSignatureFrom : Certificate → Certificate → bool;
}.

(** ASN.1 times have a resolution of one second. *)
Definition truncate_second (t : time) : time := t / ns_per_sec * ns_per_sec.

Class X509Laws `{X509Lib} := {
  create_parse rnd tmpl parent pub s der c :
    CreateCertificate rnd tmpl parent pub s = Ok der → ParseCertificate der = Ok c →
    SerialNumber c = SerialNumber tmpl ∧ SubjectCommonName c = SubjectCommonName tmpl ∧
    NotBefore c = truncate_second (NotBefore tmpl) ∧ NotAfter c = truncate_second (NotAfter tmpl) ∧
    KeyUsage c = KeyUsage tmpl ∧ ExtKeyUsages c = ExtKeyUsages tmpl ∧
    (BasicConstraintsValid tmpl = true → IsCA c = IsCA tmpl ∧
       MaxPathLenZero c = MaxPathLenZero tmpl && (MaxPathLen tmpl =? 0)) ∧
    DNSNames c = DNSNames tmpl ∧ IPAddresses c = IPAddresses tmpl ∧
    URLString <$> URIs c = URLString <$> URIs tmpl ∧ CertPublicKey c = Some pub;
}.

(** What readers of PEM files rely on. *)
Class PemLaws `{CryptoLib, X509Lib} := {
  (** the first block of a text that begins with an encoded block is that block *)
  pem_first ty b rest : pem_decode (pem_encode ty b +:+ rest) = Some (ty, b);
  parse_raw der c : ParseCertificate der = Ok c → Raw c = der;
}.

Definition SPIFFEURIScheme : string := "spiffe".

Module WorkloadCertParams.
Record t := mk {
  PublicKey : option PublicKey;
  SPIFFEURI : string;
  SubjectCommonName : string;
  DNSNames : list string;
  ValidAfter : time;
  ValidBefore : time;
  Serial : option Z;
}.
End WorkloadCertParams.

Module ServerCertParams.
Record t := mk {
  PublicKey : option PublicKey;
  DNSNames : list string;
  IPAddresses : list string;
  SPIFFEURI : string;
  SubjectCommonName : string;
  ValidAfter : time;
  ValidBefore : time;
  Serial : option Z;
}.
End ServerCertParams.

Module IntermediateCertParams.
Record t := mk {
  PublicKey : option PublicKey;
  SubjectCommonName : string;
  ValidAfter : time;
  ValidBefore : time;
  Serial : option Z;
}.
End IntermediateCertParams.

Definition keyUsageFor (pub : PublicKey) : Z :=
  match algo pub with
  | Ed25519 => KeyUsageDigitalSignature
  | ECDSA => Z.lor KeyUsageDigitalSignature KeyUsageKeyAgreement
  | RSA => Z.lor KeyUsageDigitalSignature KeyUsageKeyEncipherment
  | OtherKey _ => KeyUsageDigitalSignature
  end.

(** ** The tests the three issuance paths share *)

Definition err_window : error := ErrNew "valid-before must be after valid-after".
Definition err_scheme (scheme : string) : error :=
  ErrNew ("spiffe uri must use scheme " +:+ fmt_q SPIFFEURIScheme +:+ ", got " +:+ fmt_q scheme).

(** [p.Serial == nil] up to the window tests; yields the serial. *)
Definition validate_window (who : string) (serial : option Z) (va vb issuerNotAfter : time)
    : result Z :=
  match serial with
  | None => Err (ErrNew "serial is required")
  | Some n =>
      reject (time_is_zero va) with ErrNew "valid-after is required";;
      reject (negb (time_after vb va)) with err_window;;
      reject (negb (time_before va issuerNotAfter))
        with ErrNew (who +:+ " expires at or before the requested valid-after; nothing valid can be issued");;
      Ok n
  end.

Section Issue.
Context `{X509Lib}.

Definition validate (p : WorkloadCertParams.t) (caCert : option Certificate)
    : result (Certificate * PublicKey * Z) :=
  match caCert with
  | None => Err (ErrNew "ca cert is required")
  | Some ca =>
      reject (negb (IsCA ca)) with ErrNew "ca cert is not marked as a CA (IsCA=false)";;
      match WorkloadCertParams.PublicKey p with
      | None => Err (ErrNew "public key is required")
      | Some pub =>
          reject (str_empty (WorkloadCertParams.SPIFFEURI p)) with ErrNew "spiffe uri is required";;
          uri <-r rwrap "parse spiffe uri: " (url_parse (WorkloadCertParams.SPIFFEURI p));;
          reject (negb (bool_decide (str_lower (Scheme uri) = SPIFFEURIScheme)))
            with err_scheme (Scheme uri);;
          reject (str_empty (Host uri))
            with ErrNew "spiffe uri must include a trust domain (host part)";;
          serial <-r validate_window "issuer" (WorkloadCertParams.Serial p)
            (WorkloadCertParams.ValidAfter p) (WorkloadCertParams.ValidBefore p) (NotAfter ca);;
          Ok (ca, pub, serial)
      end
  end.

(** [signTemplate]: clamp to the issuer's life, create, parse back. *)
Definition clamp_not_after (tmpl : Certificate) (bound : time) : Certificate :=
  if time_after (NotAfter tmpl) bound then
    mkCertificate (SerialNumber tmpl) (SubjectCommonName tmpl) (NotBefore tmpl) bound
      (KeyUsage tmpl) (ExtKeyUsages tmpl) (BasicConstraintsValid tmpl) (IsCA tmpl)
      (MaxPathLen tmpl) (MaxPathLenZero tmpl) (DNSNames tmpl) (IPAddresses tmpl) (URIs tmpl)
      (EmailAddresses tmpl) (CertPublicKey tmpl) (Raw tmpl) (RawSubject tmpl) (RawIssuer tmpl)
  else tmpl.

Definition signTemplate (rnd : string) (caSigner : Signer) (caCert : Certificate)
    (pub : PublicKey) (tmpl : Certificate) : result Certificate :=
  let tmpl := clamp_not_after tmpl (NotAfter caCert) in
  der <-r rwrap "x509 create cert: " (CreateCertificate rnd tmpl caCert pub caSigner);;
  rwrap "re-parse signed cert: " (ParseCertificate der).

(** A template: the fields the code sets; the others keep Go's zero values. *)
Definition template (serial : Z) (cn : string) (nb na : time) (usage : Z)
    (ext : list ExtKeyUsage) (isCA pathLenZero : bool) (pathLen : Z)
    (dns ips : list string) (uris : list URL) : Certificate :=
  mkCertificate serial cn nb na usage ext true isCA pathLen pathLenZero dns ips uris []
    None "" "" "".

Definition SignWorkloadCert (rnd : string) (caSigner : Signer) (caCert : option Certificate)
    (p : WorkloadCertParams.t) : result Certificate :=
  v <-r validate p caCert;;
  let '(ca, pub, serial) := v in
  uri <-r rwrap "parse spiffe uri: " (url_parse (WorkloadCertParams.SPIFFEURI p));;
  let cn := if str_empty (WorkloadCertParams.SubjectCommonName p)
            then WorkloadCertParams.SPIFFEURI p else WorkloadCertParams.SubjectCommonName p in
  signTemplate rnd caSigner ca pub
    (template serial cn (WorkloadCertParams.ValidAfter p) (WorkloadCertParams.ValidBefore p)
       (keyUsageFor pub) [ExtKeyUsageClientAuth; ExtKeyUsageServerAuth] false false 0
       (WorkloadCertParams.DNSNames p) [] [uri]).

Definition validateServer (p : ServerCertParams.t) (caCert : option Certificate)
    : result (Certificate * PublicKey * Z) :=
  match caCert with
  | None => Err (ErrNew "ca cert is required")
  | Some ca =>
      reject (negb (IsCA ca)) with ErrNew "ca cert is not marked as a CA (IsCA=false)";;
      match ServerCertParams.PublicKey p with
      | None => Err (ErrNew "public key is required")
      | Some pub =>
          reject (bool_decide (ServerCertParams.DNSNames p = []) &&
                  bool_decide (ServerCertParams.IPAddresses p = []))
            with ErrNew "a server cert needs at least one DNS name or IP address";;
          scheme <-r (if str_empty (ServerCertParams.SPIFFEURI p) then Ok SPIFFEURIScheme else
            uri <-r rwrap "parse spiffe uri: " (url_parse (ServerCertParams.SPIFFEURI p));;
            reject (negb (bool_decide (str_lower (Scheme uri) = SPIFFEURIScheme)))
              with err_scheme (Scheme uri);;
            Ok (Scheme uri));;
          serial <-r validate_window "issuer" (ServerCertParams.Serial p)
            (ServerCertParams.ValidAfter p) (ServerCertParams.ValidBefore p) (NotAfter ca);;
          Ok (ca, pub, serial)
      end
  end.

Definition SignServerCert (rnd : string) (caSigner : Signer) (caCert : option Certificate)
    (p : ServerCertParams.t) : result Certificate :=
  v <-r validateServer p caCert;;
  let '(ca, pub, serial) := v in
  uris <-r (if str_empty (ServerCertParams.SPIFFEURI p) then Ok [] else
    uri <-r rwrap "parse spiffe uri: " (url_parse (ServerCertParams.SPIFFEURI p));;
    Ok [uri]);;
  let cn := if str_empty (ServerCertParams.SubjectCommonName p)
            then default "" (head (ServerCertParams.DNSNames p))
            else ServerCertParams.SubjectCommonName p in
  signTemplate rnd caSigner ca pub
    (template serial cn (ServerCertParams.ValidAfter p) (ServerCertParams.ValidBefore p)
       (keyUsageFor pub) [ExtKeyUsageServerAuth] false false 0
       (ServerCertParams.DNSNames p) (ServerCertParams.IPAddresses p) uris).

Definition ca_usage : Z :=
  Z.lor (Z.lor KeyUsageCertSign KeyUsageCRLSign) KeyUsageDigitalSignature.

Definition validateIntermediate (p : IntermediateCertParams.t) (rootCert : option Certificate)
    : result (Certificate * PublicKey * Z) :=
  match rootCert with
  | None => Err (ErrNew "root cert is required")
  | Some root =>
      reject (negb (IsCA root)) with ErrNew "root cert is not marked as a CA (IsCA=false)";;
      reject (MaxPathLenZero root)
        with ErrNew "root cert has path length 0 (MaxPathLenZero) and cannot sign an intermediate CA; mint the root with NewSelfSignedRootCA";;
      match IntermediateCertParams.PublicKey p with
      | None => Err (ErrNew "public key is required")
      | Some pub =>
          serial <-r validate_window "root" (IntermediateCertParams.Serial p)
            (IntermediateCertParams.ValidAfter p) (IntermediateCertParams.ValidBefore p) (NotAfter root);;
          Ok (root, pub, serial)
      end
  end.

Definition SignIntermediateCA (rnd : string) (rootSigner : Signer) (rootCert : option Certificate)
    (p : IntermediateCertParams.t) : result Certificate :=
  v <-r validateIntermediate p rootCert;;
  let '(root, pub, serial) := v in
  let cn := if str_empty (IntermediateCertParams.SubjectCommonName p)
            then "tokyo3-ca intermediate" else IntermediateCertParams.SubjectCommonName p in
  signTemplate rnd rootSigner root pub
    (template serial cn (IntermediateCertParams.ValidAfter p)
       (IntermediateCertParams.ValidBefore p) ca_usage [] true true 0 [] [] []).

(** ** Random serials

    [rand.Int(rnd, 2^128)] reads exactly 16 bytes, big-endian. *)
Fixpoint be_bytes (n : nat) (acc : Z) (rnd : string) : option (Z * string) :=
  match n, rnd with
  | O, _ => Some (acc, rnd)
  | S n, String c rnd => be_bytes n (acc * 256 + Z.of_N (N_of_ascii c)) rnd
  | S _, "" => None
  end.

Definition RandomSerial (rnd : string) : result (Z * string) :=
  match be_bytes 16 0 rnd with
  | None => Err (ErrWrap "serial generation: " (ErrSentinel "io.EOF" "EOF") "")
  | Some (n, rest) => Ok (if n =? 0 then 1 else n, rest)
  end.

(** ** Self-signed CAs; [now1] and [now2] are the two clock readings *)

Definition selfSignedCA (rnd : string) (now1 now2 : time) (caSigner : option Signer)
    (commonName : string) (maxPathLen : Z) : result Certificate :=
  match caSigner with
  | None => Err (ErrNew "ca signer is required")
  | Some s =>
      let commonName := if str_empty commonName then "tokyo3-ca" else commonName in
      v <-r rwrap "ca cert serial: " (RandomSerial rnd);;
      let '(serial, rnd) := v in
      let tmpl := template serial commonName (time_add now1 (- minute))
        (time_add now2 (10 * 365 * 24 * hour)) ca_usage [] true
        (maxPathLen <=? 0) (if maxPathLen <=? 0 then 0 else maxPathLen) [] [] [] in
      der <-r rwrap "self-sign ca cert: " (CreateCertificate rnd tmpl tmpl (Public s) s);;
      rwrap "re-parse self-signed ca: " (ParseCertificate der)
  end.

Definition NewSelfSignedCA (rnd : string) (now1 now2 : time) (caSigner : option Signer)
    (commonName : string) : result Certificate := selfSignedCA rnd now1 now2 caSigner commonName 0.

Definition NewSelfSignedRootCA (rnd : string) (now1 now2 : time) (caSigner : option Signer)
    (commonName : string) : result Certificate := selfSignedCA rnd now1 now2 caSigner commonName 1.

Definition IsSelfSigned (c : Certificate) : bool :=
  bool_decide (RawSubject c = RawIssuer c) && CheckSignatureFrom c c.

Definition ChainPEMForLeaf `{CryptoLib} (issuer : option Certificate) : string :=
  match issuer with
  | None => ""
  | Some c => if IsSelfSigned c then "" else pem_encode "CERTIFICATE" (Raw c)
  end.
End Issue.

(** ** What an issued certificate says *)

Section Facts.
Context `{X509Laws}.

Lemma validate_window_Ok who serial va vb na n :
  validate_window who serial va vb na = Ok n ↔
  serial = Some n ∧ va ≠ zero_time ∧ va < vb ∧ va < na.
Proof.
  unfold validate_window. destruct serial as [m|]; [|naive_solver].
  rewrite !guard_err_Ok. unfold time_is_zero, time_after, time_before.
  rewrite Z.eqb_neq, !negb_false_iff, !Z.ltb_lt.
  split; [intros (?&?&?&[= ->]); done|]. by intros ([= ->]&?&?&?).
Qed.

Lemma validate_Ok p caCert ca pub n :
  validate p caCert = Ok (ca, pub, n) →
  caCert = Some ca ∧ IsCA ca = true ∧ WorkloadCertParams.PublicKey p = Some pub ∧
  WorkloadCertParams.Serial p = Some n ∧
  WorkloadCertParams.ValidAfter p < WorkloadCertParams.ValidBefore p ∧
  WorkloadCertParams.ValidAfter p < NotAfter ca ∧
  ∃ uri, url_parse (WorkloadCertParams.SPIFFEURI p) = Ok uri ∧
    str_lower (Scheme uri) = SPIFFEURIScheme ∧ Host uri ≠ "".
Proof.
  unfold validate. destruct caCert as [ca'|]; [|done]. rewrite guard_err_Ok.
  intros [Hca E]. destruct (WorkloadCertParams.PublicKey p) as [pub'|]; [|done].
  apply guard_err_Ok in E as [_ E]. apply rbind_Ok in E as (uri & Hu%rwrap_Ok & E).
  apply guard_err_Ok in E as [Hs E]. apply guard_err_Ok in E as [Hh E].
  apply rbind_Ok in E as (m & (Hm & _ & Hw & Hn)%validate_window_Ok & E). injection E as <- <- <-.
  apply negb_false_iff in Hca. apply negb_false_iff, bool_decide_eq_true in Hs.
  unfold str_empty in Hh. apply bool_decide_eq_false in Hh.
  split_and!; [done..|]. by exists uri.
Qed.

Lemma validateServer_Ok p caCert ca pub n :
  validateServer p caCert = Ok (ca, pub, n) →
  caCert = Some ca ∧ IsCA ca = true ∧ ServerCertParams.Serial p = Some n ∧
  ServerCertParams.ValidAfter p < ServerCertParams.ValidBefore p ∧
  ServerCertParams.ValidAfter p < NotAfter ca ∧
  (ServerCertParams.DNSNames p ≠ [] ∨ ServerCertParams.IPAddresses p ≠ []).
Proof.
  unfold validateServer. destruct caCert as [ca'|]; [|done]. rewrite guard_err_Ok.
  intros [Hca E]. destruct (ServerCertParams.PublicKey p) as [pub'|]; [|done].
  apply guard_err_Ok in E as [Hd E]. apply rbind_Ok in E as (scheme & _ & E).
  apply rbind_Ok in E as (m & (Hm & _ & Hw & Hn)%validate_window_Ok & E). injection E as <- <- <-.
  apply negb_false_iff in Hca. split_and!; [done..|].
  apply andb_false_iff in Hd as [Hd|Hd]; apply bool_decide_eq_false in Hd; [by left|by right].
Qed.

Lemma validateIntermediate_Ok p rootCert root pub n :
  validateIntermediate p rootCert = Ok (root, pub, n) →
  rootCert = Some root ∧ IsCA root = true ∧ MaxPathLenZero root = false ∧
  IntermediateCertParams.ValidAfter p < IntermediateCertParams.ValidBefore p ∧
  IntermediateCertParams.ValidAfter p < NotAfter root.
Proof.
  unfold validateIntermediate. destruct rootCert as [r'|]; [|done]. rewrite !guard_err_Ok.
  intros (Hca & Hz & E). destruct (IntermediateCertParams.PublicKey p) as [pub'|]; [|done].
  apply rbind_Ok in E as (m & (Hm & _ & Hw & Hn)%validate_window_Ok & E). injection E as <- <- <-.
  apply negb_false_iff in Hca. done.
Qed.

Lemma truncate_second_le t : truncate_second t ≤ t.
Proof.
  unfold truncate_second. pose proof (Z.div_mod t ns_per_sec ltac:(done)).
  pose proof (Z.mod_pos_bound t ns_per_sec ltac:(done)). lia.
Qed.

Lemma truncate_second_mono t u : t ≤ u → truncate_second t ≤ truncate_second u.
Proof.
  intros. unfold truncate_second. apply Z.mul_le_mono_nonneg_r; [done|].
  by apply Z.div_le_mono.
Qed.

(** A signed template: its fields survive, its life is cut to the issuer's. *)
Lemma signTemplate_Ok rnd s ca pub serial cn nb na usage ext isCA plz dns ips uris c :
  signTemplate rnd s ca pub (template serial cn nb na usage ext isCA plz 0 dns ips uris) = Ok c →
  SerialNumber c = serial ∧ SubjectCommonName c = cn ∧ KeyUsage c = usage ∧
  ExtKeyUsages c = ext ∧ IsCA c = isCA ∧ MaxPathLenZero c = plz ∧ DNSNames c = dns ∧
  IPAddresses c = ips ∧ URLString <$> URIs c = URLString <$> uris ∧ CertPublicKey c = Some pub ∧
  NotBefore c = truncate_second nb ∧ NotAfter c = truncate_second (Z.min na (NotAfter ca)).
Proof.
  unfold signTemplate. intros (der & Hd%rwrap_Ok & Hc%rwrap_Ok)%rbind_Ok.
  destruct (create_parse _ _ _ _ _ _ _ Hd Hc) as (?&?&Hnb&Hna&?&?&Hca&?&?&?&?).
  unfold clamp_not_after, time_after, template in *. simpl in *.
  destruct (Z.ltb_spec (NotAfter ca) na); simpl in *;
    (destruct Hca as [Hca Hz]; [done|]); rewrite andb_true_r in Hz; split_and!; try done;
    rewrite Hna; f_equal; lia.
Qed.

(** The validity window of a certificate signed inside a non-empty window. *)
Lemma signed_window na va vb nb' na' :
  va < vb → va < na → nb' = truncate_second va → na' = truncate_second (Z.min vb na) →
  nb' ≤ na' ∧ na' ≤ na ∧ na' ≤ vb ∧ nb' ≤ va.
Proof.
  intros ? ? -> ->. pose proof (truncate_second_le va).
  pose proof (truncate_second_le (Z.min vb na)).
  pose proof (truncate_second_mono va (Z.min vb na)). lia.
Qed.
End Facts.

(** What is issued was parsed back from its encoding. *)
Lemma SignWorkloadCert_parsed `{X509Lib} rnd s caCert p c :
  SignWorkloadCert rnd s caCert p = Ok c → ∃ der, ParseCertificate der = Ok c.
Proof.
  unfold SignWorkloadCert. intros ([[ca pub] n] & _ & (uri & _ & Hs)%rbind_Ok)%rbind_Ok.
  unfold signTemplate in Hs. apply rbind_Ok in Hs as (der & _ & Hc%rwrap_Ok). by exists der.
Qed.

(** A workload certificate is a leaf for exactly one SPIFFE identity. It is
    issued only under a CA certificate, for a parsed [spiffe://] URI with a trust
    domain, and carries that URI as its only URI SAN, the subject's key, the
    requested serial and DNS names, and both client and server usage; its window is
    not inverted and lies within the requested window and the issuer's life. *)
Lemma workload_cert_sound `{X509Laws} rnd s caCert p c :
  SignWorkloadCert rnd s caCert p = Ok c →
  ∃ ca uri, caCert = Some ca ∧ IsCA ca = true ∧
    url_parse (WorkloadCertParams.SPIFFEURI p) = Ok uri ∧
    str_lower (Scheme uri) = SPIFFEURIScheme ∧ Host uri ≠ "" ∧
    URLString <$> URIs c = [URLString uri] ∧
    CertPublicKey c = WorkloadCertParams.PublicKey p ∧
    Some (SerialNumber c) = WorkloadCertParams.Serial p ∧
    DNSNames c = WorkloadCertParams.DNSNames p ∧ IsCA c = false ∧
    ExtKeyUsages c = [ExtKeyUsageClientAuth; ExtKeyUsageServerAuth] ∧
    NotBefore c ≤ NotAfter c ∧ NotAfter c ≤ NotAfter ca ∧
    NotAfter c ≤ WorkloadCertParams.ValidBefore p ∧
    NotBefore c = truncate_second (WorkloadCertParams.ValidAfter p).
Proof.
  unfold SignWorkloadCert. intros ([[ca pub] n] & Hv & E)%rbind_Ok.
  apply validate_Ok in Hv as (-> & Hca & Hpub & Hn & Hw & Hi & uri & Hu & Hs & Hh).
  rewrite Hu in E. simpl in E.
  apply signTemplate_Ok in E as (?&?&?&?&?&?&?&?&Hus&?&Hnb&Hna).
  destruct (signed_window _ _ _ _ _ Hw Hi Hnb Hna) as (?&?&?&?).
  exists ca, uri. split_and!; try done; congruence.
Qed.

Section Tiers.
Context `{X509Laws}.

Lemma not_a_root rnd s r p :
  IsCA r = false ∨ MaxPathLenZero r = true → is_ok (SignIntermediateCA rnd s (Some r) p) = false.
Proof.
  intros Hr. destruct (SignIntermediateCA rnd s (Some r) p) as [c|] eqn:E; [|done].
  apply rbind_Ok in E as ([[r' pub] n] & (E & Hca & Hz & _)%validateIntermediate_Ok & _).
  injection E as <-. destruct Hr; congruence.
Qed.

Lemma not_an_issuer rnd s r p :
  IsCA r = false → is_ok (SignWorkloadCert rnd s (Some r) p) = false.
Proof.
  intros Hr. destruct (SignWorkloadCert rnd s (Some r) p) as [c|] eqn:E; [|done].
  apply rbind_Ok in E as ([[r' pub] n] & (E & Hca & _)%validate_Ok & _). congruence.
Qed.

Lemma workload_leaf rnd s ca p c :
  SignWorkloadCert rnd s (Some ca) p = Ok c → IsCA c = false ∧ NotAfter c ≤ NotAfter ca.
Proof.
  unfold SignWorkloadCert. intros ([[ca' pub] n] & Hv & E)%rbind_Ok.
  apply validate_Ok in Hv as ([= <-] & _ & _ & _ & Hw & Hi & uri & Hu & _).
  rewrite Hu in E. simpl in E. apply signTemplate_Ok in E as (_&_&_&_&?&_&_&_&_&_&Hnb&Hna).
  by destruct (signed_window _ _ _ _ _ Hw Hi Hnb Hna) as (_&?&_).
Qed.

Lemma intermediate_cert rnd s root p c :
  SignIntermediateCA rnd s (Some root) p = Ok c →
  IsCA root = true ∧ IsCA c = true ∧ MaxPathLenZero c = true ∧ NotAfter c ≤ NotAfter root.
Proof.
  unfold SignIntermediateCA. intros ([[r pub] n] & Hv & E)%rbind_Ok.
  apply validateIntermediate_Ok in Hv as ([= <-] & Hr & _ & Hw & Hi).
  apply signTemplate_Ok in E as (_&_&_&_&?&?&_&_&_&_&Hnb&Hna).
  by destruct (signed_window _ _ _ _ _ Hw Hi Hnb Hna) as (_&?&_).
Qed.

Lemma self_signed_path rnd n1 n2 sg name len ca :
  selfSignedCA rnd n1 n2 sg name len = Ok ca →
  IsCA ca = true ∧ MaxPathLenZero ca = (len <=? 0).
Proof.
  unfold selfSignedCA. destruct sg as [s|]; [|done].
  intros ([serial rest] & _ & (der & Hd%rwrap_Ok & Hc%rwrap_Ok)%rbind_Ok)%rbind_Ok.
  destruct (create_parse _ _ _ _ _ _ _ Hd Hc) as (_&_&_&_&_&_&Hca&_).
  destruct Hca as [Hca Hz]; [done|]. split; [done|]. rewrite Hz. simpl.
  destruct (Z.leb_spec len 0); [done|]. simpl. done.
Qed.
End Tiers.

(** Two tiers and no more. Only a CA certificate that is not path-length 0 can
    mint an intermediate, which [NewSelfSignedRootCA] provides and
    [NewSelfSignedCA] does not; the intermediate signs leaves but no further CA,
    the leaf signs nothing, and lives are nested: the leaf's within the
    intermediate's within the root's. *)
Theorem two_tier_hierarchy `{X509Laws} rnd2 s2 root p inter rnd3 s3 q leaf :
  SignIntermediateCA rnd2 s2 (Some root) p = Ok inter →
  SignWorkloadCert rnd3 s3 (Some inter) q = Ok leaf →
  IsCA root = true ∧ IsCA inter = true ∧ IsCA leaf = false ∧
  NotAfter leaf ≤ NotAfter inter ∧ NotAfter inter ≤ NotAfter root ∧
  (∀ rnd s p', is_ok (SignIntermediateCA rnd s (Some inter) p') = false) ∧
  (∀ rnd s p', is_ok (SignIntermediateCA rnd s (Some leaf) p') = false) ∧
  (∀ rnd s q', is_ok (SignWorkloadCert rnd s (Some leaf) q') = false) ∧
  (∀ rnd n1 n2 sg name ca rnd' s p',
     NewSelfSignedCA rnd n1 n2 sg name = Ok ca →
     is_ok (SignIntermediateCA rnd' s (Some ca) p') = false) ∧
  (∀ rnd n1 n2 sg name r,
     NewSelfSignedRootCA rnd n1 n2 sg name = Ok r → IsCA r = true ∧ MaxPathLenZero r = false).
Proof.
  intros (Hr & Hi & Hz & Hir)%intermediate_cert [Hl Hli]%workload_leaf.
  split_and!; try done; intros; try match goal with E : _ = Ok _ |- _ => rename E into H1 end.
  - apply not_a_root. by right.
  - apply not_a_root. by left.
  - by apply not_an_issuer.
  - apply not_a_root. right. by apply self_signed_path in H1 as [_ ->].
  - by apply self_signed_path in H1 as [? ->].
Qed.

(** Serials are positive and fit 128 bits; a source of 16 bytes is enough. *)
Lemma be_bytes_spec n acc rnd k rest :
  0 ≤ acc → be_bytes n acc rnd = Some (k, rest) →
  acc * 256 ^ Z.of_nat n ≤ k < (acc + 1) * 256 ^ Z.of_nat n.
Proof.
  revert acc rnd. induction n as [|n IH]; intros acc rnd Ha; [intros [= <- _]; simpl; lia|].
  destruct rnd as [|c rnd]; [done|]. cbn [be_bytes]. intros E.
  pose proof (N_ascii_bounded c). apply IH in E; [|lia].
  rewrite Nat2Z.inj_succ, Z.pow_succ_r by lia.
  pose proof (Z.pow_pos_nonneg 256 (Z.of_nat n) ltac:(lia) ltac:(lia)). nia.
Qed.

Lemma RandomSerial_range rnd n rest : RandomSerial rnd = Ok (n, rest) → 0 < n < 2^128.
Proof.
  unfold RandomSerial. destruct (be_bytes 16 0 rnd) as [[m rest']|] eqn:E; [|done].
  apply be_bytes_spec in E; [|done]. change (256 ^ Z.of_nat 16) with (2^128) in E.
  intros [= <- <-]. destruct (Z.eqb_spec m 0); lia.
Qed.

Module X509Examples.

#[export] Instance URL_eq_dec : EqDecision URL.
Proof. solve_decision. Defined.
#[export] Instance ExtKeyUsage_eq_dec : EqDecision ExtKeyUsage.
Proof. solve_decision. Defined.
#[export] Instance Certificate_eq_dec : EqDecision Certificate.
Proof. solve_decision. Defined.

Definition pub (k : string) : PublicKey := mkPublicKey Ed25519 k.
Definition signer (k : string) : Signer := mkSigner (pub k) (λ d _, Ok d) k.
Definition spiffe : URL := mkURL "spiffe" "corp" "spiffe://corp/web".

(** What parsing gives back for a template. *)
Definition parsed (t : Certificate) (k der : string) : Certificate :=
  mkCertificate (SerialNumber t) (SubjectCommonName t) (truncate_second (NotBefore t))
    (truncate_second (NotAfter t)) (KeyUsage t) (ExtKeyUsages t) true (IsCA t) (MaxPathLen t)
    (MaxPathLenZero t && (MaxPathLen t =? 0)) (DNSNames t) (IPAddresses t) (URIs t) []
    (Some (pub k)) der "" "".

Definition t_root : Certificate :=
  template 1 "root" 0 (1000 * hour) ca_usage [] true false 1 [] [] [].
Definition root : Certificate := parsed t_root "root" "R".
Definition t_inter : Certificate :=
  template 2 "inter" (10 * second) (1000 * hour) ca_usage [] true true 0 [] [] [].
Definition inter : Certificate := parsed t_inter "inter" "I".
Definition t_leaf : Certificate :=
  template 3 "web" (20 * second) (21 * second) 1
    [ExtKeyUsageClientAuth; ExtKeyUsageServerAuth] false false 0 ["web.corp"] [] [spiffe].
Definition leaf : Certificate := parsed t_leaf "leaf" "L".

(** A library that knows three templates. *)
Definition toyX509 : X509Lib := {|
  url_parse s := if bool_decide (s = "spiffe://corp/web") then Ok spiffe else Err (ErrNew "url");
  CreateCertificate _ t _ p _ :=
    if bool_decide (t = t_root ∧ p = pub "root") then Ok "R" else
    if bool_decide (t = t_inter ∧ p = pub "inter") then Ok "I" else
    if bool_decide (t = t_leaf ∧ p = pub "leaf") then Ok "L" else Err (ErrNew "toy");
  ParseCertificate d :=
    if bool_decide (d = "R") then Ok root else
    if bool_decide (d = "I") then Ok inter else
    if bool_decide (d = "L") then Ok leaf else Err (ErrNew "toy");
  CheckSignatureFrom a b := bool_decide (a = b);
|}.

Lemma toyX509_laws : @X509Laws toyX509.
Proof.
  split. intros rnd t parent p s der c. simpl.
  repeat (case_bool_decide as Hb; [destruct Hb as [-> ->]; intros [= <-] [= <-]; done|clear Hb]).
  done.
Qed.

Definition inter_params : IntermediateCertParams.t :=
  IntermediateCertParams.mk (Some (pub "inter")) "inter" (10 * second) (2000 * hour) (Some 2).
Definition leaf_params : WorkloadCertParams.t :=
  WorkloadCertParams.mk (Some (pub "leaf")) "spiffe://corp/web" "web" ["web.corp"]
    (20 * second) (21 * second) (Some 3).

Lemma two_tier_hierarchy_witness :
  @SignIntermediateCA toyX509 "" (signer "root") (Some root) inter_params = Ok inter ∧
  @SignWorkloadCert toyX509 "" (signer "inter") (Some inter) leaf_params = Ok leaf ∧
  NotAfter leaf ≤ NotAfter inter.
Proof.
  assert (@SignIntermediateCA toyX509 "" (signer "root") (Some root) inter_params = Ok inter) as E1
    by (vm_compute; reflexivity).
  assert (@SignWorkloadCert toyX509 "" (signer "inter") (Some inter) leaf_params = Ok leaf) as E2
    by (vm_compute; reflexivity).
  split; [exact E1|]. split; [exact E2|].
  exact (proj1 (proj2 (proj2 (proj2 (@two_tier_hierarchy toyX509 toyX509_laws _ _ _ _ _ _ _ _ _ E1 E2))))).
Defined.

End X509Examples.
