(* ===== verification/Mtls.v ===== *)
(** * Mtls: callers identified by their client certificate

    Models [internal/server/mtls/mtls.go]: the principal registry (interface and
    in-memory store) and the SANs read off the verified leaf certificate. *)

From S2P Require Import Prelude X509Engine.

Record Principal := mkPrincipal {
  PName : string;
  MatchedSAN : string;
  Groups : list string;
}.

#[export] Instance Principal_eq_dec : EqDecision Principal.
Proof. solve_decision. Defined.

Definition zeroPrincipal : Principal := mkPrincipal "" "" [].

Definition ErrUnknownPrincipal : error := ErrSentinel "mtls.ErrUnknownPrincipal"
  "no registered cert principal matches the client cert SANs".
Definition ErrNoClientCert : error := ErrSentinel "mtls.ErrNoClientCert"
  "no verified client certificate on request".
Definition ErrPrincipalExists : error := ErrSentinel "mtls.ErrPrincipalExists"
  "principal with that SAN already exists".
Definition ErrPrincipalNotFound : error := ErrSentinel "mtls.ErrPrincipalNotFound"
  "principal not found".

(** ** The store interface

    [Lookup] may fail for reasons of the backend; a principal it does return is
    the one registered under a presented SAN. *)
Class Store (S : Type) := {
  Lookup : S → list string → result Principal;
}.

Class StoreLaws (S : Type) `{Store S} := {
  ms_valid : S → Prop;
  ms_registry : S → gmap string Principal;
  ms_sound s sans p :
    ms_valid s → Lookup s sans = Ok p →
    MatchedSAN p ∈ sans ∧
    ∃ q, ms_registry s !! MatchedSAN p = Some q ∧ PName q = PName p ∧ Groups q = Groups p;
}.

Definition with_san (san : string) (p : Principal) : Principal :=
  mkPrincipal (PName p) san (Groups p).

Module InMemoryStore.

Record t := mk { bySAN : gmap string Principal }.

Definition index_add (idx : gmap string Principal) (p : Principal) : gmap string Principal :=
  if str_empty (MatchedSAN p) then idx else <[MatchedSAN p := p]> idx.

Definition replace (entries : list Principal) : t := mk (foldl index_add ∅ entries).

Definition NewInMemoryStore (entries : list Principal) : t := replace entries.
Definition ReplaceAll (entries : list Principal) (_ : t) : t := replace entries.

Fixpoint lookup_first (idx : gmap string Principal) (sans : list string) : option Principal :=
  match sans with
  | [] => None
  | san :: sans =>
      match idx !! san with
      | Some p => Some (with_san san p)
      | None => lookup_first idx sans
      end
  end.

Definition Lookup (s : t) (sans : list string) : result Principal :=
  if bool_decide (sans = []) then Err ErrNoClientCert else
  match lookup_first (bySAN s) sans with
  | Some p => Ok p
  | None => Err (ErrWrap "" ErrUnknownPrincipal (": presented=" +:+ fmt_strings sans))
  end.

(** In an order Go leaves open. *)
Definition All (s : t) : list Principal := (λ '(san, p), with_san san p) <$> map_to_list (bySAN s).

End InMemoryStore.

#[export] Instance InMemoryStore_Store : Store InMemoryStore.t := {
  Lookup := InMemoryStore.Lookup;
}.

(** ** The presented SANs *)

(** [sansFromCert]: URI SANs, then e-mail SANs. *)
Definition sansFromCert (cert : option Certificate) : list string :=
  match cert with
  | None => []
  | Some c => (URLString <$> URIs c) ++ EmailAddresses c
  end.

(** [ExtractSANs]: [tls] is [r.TLS], absent on a plain-text request; its
    [PeerCertificates] start with the leaf. *)
Definition ExtractSANs (tls : option (list Certificate)) : list string :=
  match tls with
  | None | Some [] => []
  | Some (leaf :: _) => sansFromCert (Some leaf)
  end.

(** ** Facts *)

Lemma lookup_first_Some idx sans p :
  InMemoryStore.lookup_first idx sans = Some p →
  ∃ l1 l2 q, sans = l1 ++ MatchedSAN p :: l2 ∧ (∀ s, s ∈ l1 → idx !! s = None) ∧
    idx !! MatchedSAN p = Some q ∧ p = with_san (MatchedSAN p) q.
Proof.
  induction sans as [|san sans IH]; [done|]. simpl. destruct (idx !! san) as [q|] eqn:E.
  - intros [= <-]. exists [], sans, q. split_and!; [done|by intros ? []%elem_of_nil|done|done].
  - intros (l1 & l2 & q & -> & Hn & Hq & Hp)%IH. exists (san :: l1), l2, q.
    split_and!; [done| |done|done]. intros s [->|?]%elem_of_cons; [done|by apply Hn].
Qed.

Lemma lookup_first_None idx sans :
  InMemoryStore.lookup_first idx sans = None ↔ ∀ s, s ∈ sans → idx !! s = None.
Proof.
  induction sans as [|san sans IH]; simpl.
  - split; [|done]. intros _ s []%elem_of_nil.
  - destruct (idx !! san) eqn:E.
    + split; [done|]. intros H. rewrite H in E by by left. done.
    + rewrite IH. split; intros H s.
      * intros [->|?]%elem_of_cons; [done|by apply H].
      * intros ?. apply H. by right.
Qed.

#[export] Instance InMemoryStore_laws : StoreLaws InMemoryStore.t.
Proof.
  refine {| ms_valid _ := True; ms_registry := InMemoryStore.bySAN |}.
  intros s sans p _. simpl. unfold InMemoryStore.Lookup. case_bool_decide; [done|].
  destruct (InMemoryStore.lookup_first _ _) as [p'|] eqn:E; [|done]. intros [= <-].
  apply lookup_first_Some in E as (l1 & l2 & q & -> & _ & Hq & ->).
  split; [set_solver|]. by exists q.
Defined.

(** The index: the last entry registered under each non-empty SAN. *)
Lemma index_fold_lookup entries idx san q :
  foldl InMemoryStore.index_add idx entries !! san = Some q →
  (q ∈ entries ∧ MatchedSAN q = san ∧ san ≠ "") ∨ idx !! san = Some q.
Proof.
  revert idx. induction entries as [|e entries IH]; intros idx; simpl; [by right|].
  intros [(? & ? & ?)|H]%IH; [left; split; [by right|done]|].
  unfold InMemoryStore.index_add, str_empty in H. case_bool_decide; [by right|].
  destruct (decide (MatchedSAN e = san)) as [<-|Hne].
  - rewrite lookup_insert_eq in H. injection H as <-. left. split; [by left|done].
  - rewrite lookup_insert_ne in H by done. by right.
Qed.

Lemma index_fold_is_Some entries idx san :
  is_Some (foldl InMemoryStore.index_add idx entries !! san) ↔
  (∃ e, e ∈ entries ∧ MatchedSAN e = san ∧ san ≠ "") ∨ is_Some (idx !! san).
Proof.
  revert idx. induction entries as [|e entries IH]; intros idx; simpl.
  { split; [by right|]. intros [(? & []%elem_of_nil & _)|?]; done. }
  rewrite IH. setoid_rewrite elem_of_cons. unfold InMemoryStore.index_add, str_empty.
  split.
  - intros [(e' & ? & ? & ?)|H]; [left; exists e'; split; [by right|done]|].
    case_bool_decide; [by right|].
    destruct (decide (MatchedSAN e = san)) as [<-|Hne]; [left; exists e; split; [by left|done]|].
    rewrite lookup_insert_ne in H by done. by right.
  - intros [(e' & [->|?] & ? & ?)|H].
    + right. rewrite bool_decide_false by congruence. subst san. by rewrite lookup_insert_eq.
    + left. by exists e'.
    + right. case_bool_decide; [done|].
      destruct (decide (MatchedSAN e = san)) as [<-|Hne]; [by rewrite lookup_insert_eq|].
      by rewrite lookup_insert_ne.
Qed.

(** A later registration of the same SAN replaces the earlier ones. *)
Lemma index_last entries e :
  MatchedSAN e ≠ "" →
  InMemoryStore.bySAN (InMemoryStore.NewInMemoryStore (entries ++ [e])) !! MatchedSAN e = Some e.
Proof.
  intros He. simpl. rewrite foldl_app. simpl. unfold InMemoryStore.index_add at 1, str_empty.
  rewrite bool_decide_false by done. apply lookup_insert_eq.
Qed.

(** The client-certificate registry never invents an identity. Lookup gives
    the name and groups of an entry registered under the first presented SAN that
    is registered at all, under the SAN that matched; it fails with
    [ErrNoClientCert] exactly when nothing was presented and with
    [ErrUnknownPrincipal] exactly when no presented SAN is registered; an entry
    without a SAN is never registered. *)
Theorem mtls_lookup_exact entries sans :
  let s := InMemoryStore.NewInMemoryStore entries in
  let registered san := ∃ e, e ∈ entries ∧ MatchedSAN e = san ∧ san ≠ "" in
  match InMemoryStore.Lookup s sans with
  | Ok p => ∃ before after q, sans = before ++ MatchedSAN p :: after ∧
      (∀ san, san ∈ before → ¬ registered san) ∧
      q ∈ entries ∧ MatchedSAN q = MatchedSAN p ∧ MatchedSAN p ≠ "" ∧
      PName p = PName q ∧ Groups p = Groups q
  | Err e => (sans = [] ∧ e = ErrNoClientCert) ∨
      (sans ≠ [] ∧ err_is e "mtls.ErrUnknownPrincipal" = true ∧
       ∀ san, san ∈ sans → ¬ registered san)
  end.
Proof.
  intros s registered.
  assert (∀ san, InMemoryStore.bySAN s !! san = None ↔ ¬ registered san) as Hreg.
  { intros san. rewrite eq_None_not_Some. simpl. rewrite index_fold_is_Some, lookup_empty.
    unfold registered. split; [intros H ?; apply H; by left|].
    intros H [?|[? [=]]]. by apply H. }
  unfold InMemoryStore.Lookup. case_bool_decide as Hs; [by left|].
  destruct (InMemoryStore.lookup_first _ _) as [p|] eqn:E.
  - apply lookup_first_Some in E as (l1 & l2 & q & -> & Hn & Hq & Hp).
    apply index_fold_lookup in Hq as [(Hin & Hm & Hne)|Hq]; [|by rewrite lookup_empty in Hq].
    exists l1, l2, q. split_and!; [done| |done|done|done|by rewrite Hp|by rewrite Hp].
    intros san Hsan. by apply Hreg, Hn.
  - right. split_and!; [done|done|]. intros san Hsan. apply Hreg. by apply (lookup_first_None _ sans).
Qed.
