(* ===== verification/Json.v ===== *)
(** * Json: the JSON text of string lists and string maps

    The part of [encoding/json] behind [store.EncodeJSON] and [store.DecodeJSON]:
    [json.Marshal] and [json.Unmarshal] at [[]string] and [map[string]string].
    Strings are byte sequences; as in Go, an invalid UTF-8 byte is written (and
    read) as U+FFFD, so texts survive exactly when they are valid UTF-8. *)

From S2P Require Import Prelude Glob.

Abbreviation jbytes := (list ascii).

Definition chr (n : N) : ascii := ascii_of_N n.
Definition bquote : ascii := chr 34.
Definition bslash : ascii := chr 92.

Fixpoint of_bytes (l : jbytes) : string :=
  match l with [] => "" | c :: l => String c (of_bytes l) end.

Lemma of_bytes_of s : of_bytes (bytes_of s) = s.
Proof. induction s as [|c s IH]; simpl; [done|]. by rewrite IH. Qed.

(** ** Valid UTF-8 *)

Definition bad_rune (s : jbytes) : bool :=
  let '(r, n) := decode_rune s in (r =? RuneError)%N && Nat.eqb n 1.

Fixpoint utf8_bytes (fuel : nat) (s : jbytes) : bool :=
  match fuel, s with
  | _, [] => true
  | O, _ => false
  | S fuel, _ => negb (bad_rune s) && utf8_bytes fuel (drop (decode_rune s).2 s)
  end.

(** [utf8.ValidString] *)
Definition utf8_valid (s : string) : bool :=
  let b := bytes_of s in utf8_bytes (length b) b.

(** ** Writing a string *)

Definition hex4 (n : N) : jbytes :=
  [bslash; "u"%char; hex_digit (n / 4096 mod 16); hex_digit (n / 256 mod 16);
   hex_digit (n / 16 mod 16); hex_digit (n mod 16)].

(** [appendString], one-byte characters, with HTML escaping. *)
Definition esc_byte (c : ascii) : jbytes :=
  let n := N_of_ascii c in
  if (n =? 34)%N || (n =? 92)%N then [bslash; c] else
  if (n =? 8)%N then [bslash; "b"%char] else
  if (n =? 12)%N then [bslash; "f"%char] else
  if (n =? 10)%N then [bslash; "n"%char] else
  if (n =? 13)%N then [bslash; "r"%char] else
  if (n =? 9)%N then [bslash; "t"%char] else
  if (n <? 32)%N || (n =? 60)%N || (n =? 62)%N || (n =? 38)%N then hex4 n else [c].

(** U+2028 and U+2029, which JavaScript does not accept in strings. *)
Definition line_sep (s : jbytes) : option N :=
  match s with
  | a :: b :: c :: _ =>
      if byte_is 0xE2 a && byte_is 0x80 b then
        if byte_is 0xA8 c then Some 0x2028%N else if byte_is 0xA9 c then Some 0x2029%N else None
      else None
  | _ => None
  end.

Fixpoint enc_string (fuel : nat) (s : jbytes) : jbytes :=
  match fuel, s with
  | _, [] => []
  | O, _ => []
  | S fuel, c :: t =>
      if byte_in 0 0x7F c then esc_byte c ++ enc_string fuel t else
      if bad_rune s then hex4 0xFFFD ++ enc_string fuel t else
      match line_sep s with
      | Some r => hex4 r ++ enc_string fuel (drop 3 s)
      | None => let n := (decode_rune s).2 in take n s ++ enc_string fuel (drop n s)
      end
  end.

Definition quote_json (s : string) : jbytes :=
  let b := bytes_of s in bquote :: enc_string (length b) b ++ [bquote].

(** ** Reading a string, after its opening quote *)

Definition hex_val (c : ascii) : option N :=
  let n := N_of_ascii c in
  if byte_in 48 57 c then Some (n - 48)%N else
  if byte_in 97 102 c then Some (n - 87)%N else
  if byte_in 65 70 c then Some (n - 55)%N else None.

(** [getu4], after the [\u]. *)
Definition get_u4 (s : jbytes) : option (N * jbytes) :=
  match s with
  | a :: b :: c :: d :: t =>
      a ← hex_val a; b ← hex_val b; c ← hex_val c; d ← hex_val d;
      Some ((((a * 16 + b) * 16 + c) * 16 + d)%N, t)
  | _ => None
  end.

Definition is_surrogate (r : N) : bool := (0xD800 <=? r)%N && (r <=? 0xDFFF)%N.

(** [utf8.AppendRune] *)
Definition encode_rune (r : N) : jbytes :=
  if (r <=? 0x7F)%N then [chr r] else
  if (r <=? 0x7FF)%N then [chr (0xC0 + r / 64); chr (0x80 + r mod 64)] else
  if is_surrogate r || (0x10FFFF <? r)%N then [chr 0xEF; chr 0xBF; chr 0xBD] else
  if (r <=? 0xFFFF)%N
  then [chr (0xE0 + r / 4096); chr (0x80 + r / 64 mod 64); chr (0x80 + r mod 64)] else
  [chr (0xF0 + r / 262144); chr (0x80 + r / 4096 mod 64); chr (0x80 + r / 64 mod 64);
   chr (0x80 + r mod 64)].

(** The rune of a [\u] escape, joining a surrogate pair. *)
Definition take_escape (s : jbytes) : option (N * jbytes) :=
  '(r, t) ← get_u4 s;
  if negb (is_surrogate r) then Some (r, t) else
  match t with
  | b :: u :: t2 =>
      if bool_decide (b = bslash) && bool_decide (u = "u"%char) then
        match get_u4 t2 with
        | Some (r2, t3) =>
            if (r <=? 0xDBFF)%N && (0xDC00 <=? r2)%N && (r2 <=? 0xDFFF)%N
            then Some ((0x10000 + (r - 0xD800) * 1024 + (r2 - 0xDC00))%N, t3)
            else Some (RuneError, t)
        | None => Some (RuneError, t)
        end
      else Some (RuneError, t)
  | _ => Some (RuneError, t)
  end.

Definition simple_escape (e : ascii) : option ascii :=
  let n := N_of_ascii e in
  if (n =? 34)%N || (n =? 92)%N || (n =? 47)%N then Some e else
  if (n =? 98)%N then Some (chr 8) else if (n =? 102)%N then Some (chr 12) else
  if (n =? 110)%N then Some (chr 10) else if (n =? 114)%N then Some (chr 13) else
  if (n =? 116)%N then Some (chr 9) else None.

Fixpoint dec_string (fuel : nat) (s : jbytes) : option (jbytes * jbytes) :=
  match fuel, s with
  | O, _ | _, [] => None
  | S fuel, c :: t =>
      if bool_decide (c = bquote) then Some ([], t) else
      if bool_decide (c = bslash) then
        match t with
        | [] => None
        | e :: t' =>
            if bool_decide (e = "u"%char) then
              '(r, t'') ← take_escape t'; '(x, rest) ← dec_string fuel t'';
              Some (encode_rune r ++ x, rest)
            else
              b ← simple_escape e; '(x, rest) ← dec_string fuel t'; Some (b :: x, rest)
        end
      else if byte_in 0 0x1F c then None else
      if byte_in 0 0x7F c then '(x, rest) ← dec_string fuel t; Some (c :: x, rest) else
      if bad_rune s then
        '(x, rest) ← dec_string fuel t; Some ([chr 0xEF; chr 0xBF; chr 0xBD] ++ x, rest)
      else
        let n := (decode_rune s).2 in
        '(x, rest) ← dec_string fuel (drop n s); Some (take n s ++ x, rest)
  end.

(** [dec_string] with enough fuel: each round consumes at least one byte. *)
Definition unquote_json (s : jbytes) : option (string * jbytes) :=
  '(x, rest) ← dec_string (length s) s; Some (of_bytes x, rest).

(** ** Values: lists and maps of strings *)

Definition is_ws (c : ascii) : bool := byte_is 32 c || byte_is 9 c || byte_is 10 c || byte_is 13 c.

Fixpoint skip_ws (s : jbytes) : jbytes :=
  match s with c :: t => if is_ws c then skip_ws t else s | [] => [] end.

Definition expect_byte (b : ascii) (s : jbytes) : option jbytes :=
  match s with c :: t => if bool_decide (c = b) then Some t else None | [] => None end.

Definition null_text : jbytes := ["n"; "u"; "l"; "l"]%char.

Definition take_null (s : jbytes) : option jbytes :=
  if bool_decide (take 4 s = null_text) then Some (drop 4 s) else None.

(** A string element; [null] leaves the zero value. *)
Definition take_elem (s : jbytes) : option (string * jbytes) :=
  match expect_byte bquote s with
  | Some t => unquote_json t
  | None => t ← take_null s; Some ("", t)
  end.

Fixpoint take_elems (fuel : nat) (s : jbytes) : option (list string * jbytes) :=
  match fuel with
  | O => None
  | S fuel =>
      '(x, t) ← take_elem (skip_ws s);
      let t := skip_ws t in
      match expect_byte "]" t with
      | Some t => Some ([x], t)
      | None => t ← expect_byte "," t; '(xs, t) ← take_elems fuel t; Some (x :: xs, t)
      end
  end.

Fixpoint take_pairs (fuel : nat) (s : jbytes) : option (list (string * string) * jbytes) :=
  match fuel with
  | O => None
  | S fuel =>
      t ← expect_byte bquote (skip_ws s); '(k, t) ← unquote_json t;
      t ← expect_byte ":" (skip_ws t);
      '(v, t) ← take_elem (skip_ws t);
      let t := skip_ws t in
      match expect_byte "}" t with
      | Some t => Some ([(k, v)], t)
      | None => t ← expect_byte "," t; '(kvs, t) ← take_pairs fuel t; Some ((k, v) :: kvs, t)
      end
  end.

Definition at_end (s : jbytes) : bool := match skip_ws s with [] => true | _ => false end.

Definition parse_strings (s : jbytes) : option (list string) :=
  let s := skip_ws s in
  match take_null s with
  | Some t => if at_end t then Some [] else None
  | None =>
      t ← expect_byte "[" s;
      match expect_byte "]" (skip_ws t) with
      | Some t => if at_end t then Some [] else None
      | None => '(xs, t) ← take_elems (length t) t; if at_end t then Some xs else None
      end
  end.

Definition parse_map (s : jbytes) : option (gmap string string) :=
  let s := skip_ws s in
  match take_null s with
  | Some t => if at_end t then Some ∅ else None
  | None =>
      t ← expect_byte "{" s;
      match expect_byte "}" (skip_ws t) with
      | Some t => if at_end t then Some ∅ else None
      | None =>
          '(kvs, t) ← take_pairs (length t) t;
          if at_end t then Some (foldl (λ m kv, <[kv.1 := kv.2]> m) ∅ kvs) else None
      end
  end.

Definition err_json : error := ErrOpaque "json".

Definition Unmarshal_strings (s : string) : result (list string) :=
  match parse_strings (bytes_of s) with Some l => Ok l | None => Err err_json end.
Definition Unmarshal_map (s : string) : result (gmap string string) :=
  match parse_map (bytes_of s) with Some m => Ok m | None => Err err_json end.

(** ** Writing: [json.Marshal]

    A nil and an empty list are one value here; Go writes [null] for the former
    and [[]] for the latter, and both read back alike. *)
Fixpoint sep_elems (l : list jbytes) : jbytes :=
  match l with [] => [] | [x] => x | x :: l => x ++ ","%char :: sep_elems l end.

Definition marshal_strings (l : list string) : jbytes :=
  "["%char :: sep_elems (quote_json <$> l) ++ ["]"%char].

Definition marshal_pair (kv : string * string) : jbytes :=
  quote_json kv.1 ++ ":"%char :: quote_json kv.2.

Definition pair_le (a b : string * string) : Prop := String.le a.1 b.1.
#[export] Instance pair_le_dec a b : Decision (pair_le a b).
Proof. unfold pair_le. apply _. Defined.

(** [encoding/json] writes the keys of a map in sorted order. *)
Definition sorted_pairs (m : gmap string string) : list (string * string) :=
  merge_sort pair_le (map_to_list m).

Definition marshal_map (m : gmap string string) : jbytes :=
  "{"%char :: sep_elems (marshal_pair <$> sorted_pairs m) ++ ["}"%char].

Definition Marshal_strings (l : list string) : result string := Ok (of_bytes (marshal_strings l)).
Definition Marshal_map (m : gmap string string) : result string := Ok (of_bytes (marshal_map m)).

Example json_list : of_bytes (marshal_strings ["a<b"; "q" +:+ dquote]) =
  "[" +:+ dquote +:+ "a\u003cb" +:+ dquote +:+ "," +:+ dquote +:+ "q\" +:+ dquote +:+ dquote +:+ "]".
Proof. reflexivity. Qed.
Example json_read : Unmarshal_strings (" [ " +:+ dquote +:+ "\ud83d\ude00\u00e9" +:+ dquote +:+ " , null ] ") =
  Ok [String "240" (String "159" (String "152" (String "128" (String "195" (String "169" ""))))); ""].
Proof. vm_compute. reflexivity. Qed.
Example json_bad : Unmarshal_strings "[1]" = Err err_json.
Proof. reflexivity. Qed.

(** ** Reading back a written string *)

Lemma byte_is_chr b c : byte_is b c = true → c = chr b.
Proof.
  unfold byte_is, chr. intros <-%N.eqb_eq. symmetry. apply ascii_N_embedding.
Qed.

(** A valid leading rune is decided by its own bytes. *)
Lemma decode_prefix s x :
  s ≠ [] → bad_rune s = false →
  let n := (decode_rune s).2 in
  (0 < n ≤ length s)%nat ∧ decode_rune (take n s ++ x) = decode_rune s.
Proof.
  intros Hs. unfold bad_rune. destruct s as [|c0 t]; [done|]. cbn [decode_rune].
  destruct (byte_in 0 0x7F c0) eqn:H0; [intros _; cbn; rewrite H0; split; [lia|done]|].
  destruct (utf8_lead c0) as [[[w lo] hi]|] eqn:Hl; [|done].
  destruct w as [|[|[|[|[|w]]]]]; try done; destruct t as [|c1 t]; try done.
  - destruct (byte_in lo hi c1) eqn:H1; [|done]. intros _. cbn. rewrite H0, Hl, H1.
    split; [lia|done].
  - destruct t as [|c2 t]; [done|]. destruct (byte_in lo hi c1 && cont_byte c2) eqn:H1; [|done].
    intros _. cbn. rewrite H0, Hl, H1. split; [lia|done].
  - destruct t as [|c2 t]; [done|]. destruct t as [|c3 t]; [done|].
    destruct (byte_in lo hi c1 && cont_byte c2 && cont_byte c3) eqn:H1; [|done].
    intros _. cbn. rewrite H0, Hl, H1. split; [lia|done].
Qed.

(** One escaped ASCII byte is one round of the reader. *)
Lemma dec_esc_byte k c x :
  byte_in 0 0x7F c = true →
  dec_string (S k) (esc_byte c ++ x) = '(y, rest) ← dec_string k x; Some (c :: y, rest).
Proof.
  destruct c as [[] [] [] [] [] [] [] []]; intros H; try discriminate H; reflexivity.
Qed.

Lemma not_special c :
  byte_in 0 0x7F c = false → c ≠ bquote ∧ c ≠ bslash ∧ byte_in 0 0x1F c = false.
Proof.
  destruct c as [[] [] [] [] [] [] [] []]; intros H; try discriminate H; by vm_compute.
Qed.

Lemma dec_hex_2028 k x : dec_string (S k) (hex4 0x2028 ++ x) =
  '(y, rest) ← dec_string k x; Some ([chr 0xE2; chr 0x80; chr 0xA8] ++ y, rest).
Proof. reflexivity. Qed.
Lemma dec_hex_2029 k x : dec_string (S k) (hex4 0x2029 ++ x) =
  '(y, rest) ← dec_string k x; Some ([chr 0xE2; chr 0x80; chr 0xA9] ++ y, rest).
Proof. reflexivity. Qed.

Lemma line_sep_Some s r :
  line_sep s = Some r →
  (∃ t, s = chr 0xE2 :: chr 0x80 :: chr 0xA8 :: t ∧ r = 0x2028%N) ∨
  (∃ t, s = chr 0xE2 :: chr 0x80 :: chr 0xA9 :: t ∧ r = 0x2029%N).
Proof.
  unfold line_sep. destruct s as [|a [|b [|d t]]]; try done.
  destruct (byte_is 0xE2 a) eqn:E1; [|done]. destruct (byte_is 0x80 b) eqn:E2; [|done].
  apply byte_is_chr in E1 as ->. apply byte_is_chr in E2 as ->. cbn [andb].
  destruct (byte_is 0xA8 d) eqn:E3.
  { apply byte_is_chr in E3 as ->. intros [= <-]. left. by exists t. }
  destruct (byte_is 0xA9 d) eqn:E4; [|done].
  apply byte_is_chr in E4 as ->. intros [= <-]. right. by exists t.
Qed.

(** A multi-byte rune is one round of the reader. *)
Lemma dec_rune k c t x :
  byte_in 0 0x7F c = false → bad_rune (c :: t) = false →
  let n := (decode_rune (c :: t)).2 in
  dec_string (S k) (take n (c :: t) ++ x) =
    '(y, rest) ← dec_string k x; Some (take n (c :: t) ++ y, rest).
Proof.
  intros Hc Hb n. destruct (decode_prefix (c :: t) x ltac:(done) Hb) as [Hn Hd].
  fold n in Hn, Hd. destruct (not_special c Hc) as (H1 & H2 & H3).
  assert (length (take n (c :: t)) = n) as Hlen by (rewrite length_take; lia).
  assert (∃ t', take n (c :: t) = c :: t') as [t' Ht'] by (destruct n; [lia|]; by eexists).
  rewrite Ht' in *. cbn [app] in Hd |- *. cbn [dec_string].
  rewrite !bool_decide_false, H3, Hc by done. unfold bad_rune. rewrite Hd.
  unfold bad_rune in Hb. destruct (decode_rune (c :: t)) as [r w] eqn:E. rewrite Hb. cbn [snd].
  simpl in n. subst n. change (c :: t' ++ x) with ((c :: t') ++ x).
  rewrite drop_app_length', take_app_length' by done. done.
Qed.

Lemma dec_enc fuel s k rest :
  utf8_bytes fuel s = true → (length s ≤ k)%nat →
  dec_string (S k) (enc_string fuel s ++ bquote :: rest) = Some (s, rest).
Proof.
  revert s k. induction fuel as [|fuel IH]; intros s k Hu Hk.
  { destruct s; [done|]. done. }
  destruct s as [|c t]; [done|]. simpl in Hk. destruct k as [|k]; [lia|].
  cbn [utf8_bytes] in Hu. apply andb_true_iff in Hu as [Hb Hu]. apply negb_true_iff in Hb.
  cbn [enc_string]. destruct (byte_in 0 0x7F c) eqn:Hc.
  - rewrite <- app_assoc, dec_esc_byte by done.
    assert ((decode_rune (c :: t)).2 = 1%nat) as E by (cbn [decode_rune]; by rewrite Hc).
    rewrite E in Hu. cbn [drop] in Hu. rewrite IH by (done || lia). done.
  - rewrite Hb. destruct (decode_prefix (c :: t) [] ltac:(done) Hb) as [Hn _].
    destruct (line_sep (c :: t)) as [r|] eqn:Hls.
    + apply line_sep_Some in Hls as [(u & E & ->)|(u & E & ->)]; injection E as -> ->;
        rewrite <- app_assoc; cbn [drop]; simpl in Hk;
        (rewrite dec_hex_2028 || rewrite dec_hex_2029); rewrite drop_0;
        rewrite (IH u k) by (exact Hu || lia); done.
    + assert (length (drop (decode_rune (c :: t)).2 (c :: t)) ≤ k)%nat as Hd.
      { rewrite length_drop. change (length (c :: t)) with (S (length t)).
        lia. }
      rewrite <- app_assoc, dec_rune by done. rewrite IH by done.
      cbn [base.mbind option_bind]. by rewrite take_drop.
Qed.

Lemma utf8_valid_bytes s : utf8_valid s = true → utf8_bytes (length (bytes_of s)) (bytes_of s) = true.
Proof. done. Qed.

Lemma enc_string_length fuel s : utf8_bytes fuel s = true → (length s ≤ length (enc_string fuel s))%nat.
Proof.
  revert s. induction fuel as [|fuel IH]; intros s Hu; [by destruct s|].
  destruct s as [|c t]; [done|]. cbn [utf8_bytes] in Hu.
  apply andb_true_iff in Hu as [Hb Hu]. apply negb_true_iff in Hb.
  cbn [enc_string]. destruct (byte_in 0 0x7F c) eqn:Hc.
  - assert ((decode_rune (c :: t)).2 = 1%nat) as E by (cbn [decode_rune]; by rewrite Hc).
    rewrite E in Hu. cbn [drop] in Hu. rewrite drop_0 in Hu. apply IH in Hu.
    rewrite length_app. simpl.
    assert (0 < length (esc_byte c))%nat; [|lia]. unfold esc_byte. repeat case_match; simpl; lia.
  - rewrite Hb. destruct (decode_prefix (c :: t) [] ltac:(done) Hb) as [Hn _].
    destruct (line_sep (c :: t)) as [r|] eqn:Hls.
    + apply line_sep_Some in Hls as [(u & E & ->)|(u & E & ->)]; injection E as -> ->;
        change (utf8_bytes fuel u = true) in Hu; apply IH in Hu; rewrite length_app;
        cbn [drop]; rewrite drop_0; simpl; lia.
    + apply IH in Hu. rewrite length_app, length_take.
      rewrite length_drop in Hu. lia.
Qed.

(** Reading a written string gives it back, whatever follows. *)
Lemma unquote_quote s rest :
  utf8_valid s = true → unquote_json (drop 1 (quote_json s) ++ rest) = Some (s, rest).
Proof.
  intros Hu. unfold unquote_json, quote_json. cbn [drop]. rewrite drop_0, <- app_assoc. cbn [app].
  set (e := enc_string _ _).
  assert (length (e ++ bquote :: rest) = S (length e + length rest)) as ->
    by (rewrite length_app; simpl; lia).
  unfold e. rewrite dec_enc; [simpl; by rewrite of_bytes_of|done|].
  pose proof (enc_string_length _ _ Hu). lia.
Qed.

Lemma take_elem_quote s rest :
  utf8_valid s = true → take_elem (quote_json s ++ rest) = Some (s, rest).
Proof.
  intros Hu. unfold take_elem. change (quote_json s ++ rest) with (bquote :: (drop 1 (quote_json s) ++ rest)).
  cbn [expect_byte]. rewrite bool_decide_true by done. by apply unquote_quote.
Qed.

(** ** The round trips *)

Lemma bytes_of_of l : bytes_of (of_bytes l) = l.
Proof. induction l as [|c l IH]; simpl; [done|]. by rewrite IH. Qed.

Lemma quote_json_head s : ∃ t, quote_json s = bquote :: t.
Proof. by eexists. Qed.

Lemma sep_elems_cons x y l : sep_elems (x :: y :: l) = x ++ ","%char :: sep_elems (y :: l).
Proof. done. Qed.

Lemma skip_ws_quote t : skip_ws (bquote :: t) = bquote :: t.
Proof. done. Qed.

Lemma take_elems_sep fuel l rest :
  l ≠ [] → Forall (λ s, utf8_valid s = true) l → (length l ≤ fuel)%nat →
  take_elems fuel (sep_elems (quote_json <$> l) ++ "]"%char :: rest) = Some (l, rest).
Proof.
  revert l. induction fuel as [|fuel IH]; intros l Hne Hl Hf; [destruct l; [done|simpl in Hf; lia]|].
  destruct l as [|x l]; [done|]. apply Forall_cons in Hl as [Hx Hl].
  assert (∀ y, skip_ws (quote_json x ++ y) = quote_json x ++ y) as Hws by done.
  destruct l as [|y l].
  - cbn [fmap list_fmap sep_elems take_elems]. rewrite Hws, take_elem_quote by done. done.
  - rewrite !fmap_cons, sep_elems_cons, <- app_assoc. cbn [take_elems].
    rewrite Hws, take_elem_quote by done. cbn [base.mbind option_bind app].
    change (skip_ws (","%char :: ?z)) with (","%char :: z). cbn [expect_byte].
    rewrite bool_decide_false, bool_decide_true by done. cbn [base.mbind option_bind].
    change (quote_json y :: (quote_json <$> l)) with (quote_json <$> (y :: l)).
    rewrite IH; [done|done|done|simpl in *; lia].
Qed.

Lemma sep_elems_length (l : list jbytes) : (∀ x, x ∈ l → x ≠ []) → (length l ≤ length (sep_elems l))%nat.
Proof.
  induction l as [|x l IH]; intros H; [done|]. destruct l as [|y l].
  - simpl. destruct x; [by destruct (H [] ltac:(by left))|simpl; lia].
  - rewrite sep_elems_cons, length_app. simpl length at 2. simpl length at 1.
    assert (length (y :: l) ≤ length (sep_elems (y :: l)))%nat as IH' by (apply IH; intros; apply H; by right).
    destruct x; [by destruct (H [] ltac:(by left))|simpl in *; lia].
Qed.

Lemma parse_marshal_strings l :
  Forall (λ s, utf8_valid s = true) l → parse_strings (marshal_strings l) = Some l.
Proof.
  intros Hl. unfold parse_strings, marshal_strings. change (skip_ws ("["%char :: ?z)) with ("["%char :: z).
  unfold take_null. rewrite bool_decide_false by done.
  cbn [expect_byte]. rewrite bool_decide_true by done. cbn [base.mbind option_bind].
  destruct l as [|x l]; [done|].
  assert (∃ t, sep_elems (quote_json <$> x :: l) ++ ["]"%char] = bquote :: t) as [t Ht].
  { destruct l; [by eexists|]. rewrite !fmap_cons, sep_elems_cons. by eexists. }
  rewrite Ht. rewrite skip_ws_quote. cbn [expect_byte]. rewrite bool_decide_false by done.
  rewrite <- Ht. rewrite take_elems_sep; [done|done|done|].
  rewrite length_app. pose proof (sep_elems_length (quote_json <$> x :: l)) as Hs.
  rewrite length_fmap in Hs. assert (length (x :: l) ≤ length (sep_elems (quote_json <$> x :: l)))%nat; [|lia].
  apply Hs. intros y (z & -> & _)%list_elem_of_fmap. done.
Qed.

Definition pair_valid (kv : string * string) : Prop :=
  utf8_valid kv.1 = true ∧ utf8_valid kv.2 = true.

Lemma take_pairs_sep fuel l rest :
  l ≠ [] → Forall pair_valid l → (length l ≤ fuel)%nat →
  take_pairs fuel (sep_elems (marshal_pair <$> l) ++ "}"%char :: rest) = Some (l, rest).
Proof.
  revert l. induction fuel as [|fuel IH]; intros l Hne Hl Hf; [destruct l; [done|simpl in Hf; lia]|].
  destruct l as [|[k v] l]; [done|]. apply Forall_cons in Hl as [[Hk Hv] Hl]. simpl in Hk, Hv.
  assert (∀ z, take_pairs (S fuel) (marshal_pair (k, v) ++ z) =
    let z' := skip_ws z in
    match expect_byte "}" z' with
    | Some t => Some ([(k, v)], t)
    | None => t ← expect_byte "," z'; '(kvs, t) ← take_pairs fuel t; Some ((k, v) :: kvs, t)
    end) as Hstep.
  { intros z. unfold marshal_pair. cbn [fst snd]. rewrite <- app_assoc. cbn [take_pairs].
    change (skip_ws (quote_json k ++ ?y)) with (bquote :: (drop 1 (quote_json k) ++ y)).
    cbn [expect_byte]. rewrite bool_decide_true by done. cbn [base.mbind option_bind].
    rewrite unquote_quote by done. cbn [base.mbind option_bind app].
    change (skip_ws (":"%char :: ?y)) with (":"%char :: y).
    cbn [expect_byte]. rewrite bool_decide_true by done. cbn [base.mbind option_bind].
    change (skip_ws (quote_json v ++ ?y)) with (quote_json v ++ y).
    by rewrite take_elem_quote. }
  destruct l as [|y l].
  - cbn [fmap list_fmap sep_elems]. rewrite Hstep. done.
  - rewrite !fmap_cons, sep_elems_cons, <- app_assoc, Hstep. cbn [app]. cbv zeta.
    change (skip_ws (","%char :: ?z)) with (","%char :: z). cbn [expect_byte].
    rewrite bool_decide_false, bool_decide_true by done. cbn [base.mbind option_bind].
    change (marshal_pair y :: (marshal_pair <$> l)) with (marshal_pair <$> (y :: l)).
    rewrite IH; [done|done|done|simpl in *; lia].
Qed.

Lemma fold_inserts (l : list (string * string)) (m : gmap string string) :
  NoDup l.*1 → foldl (λ m kv, <[kv.1 := kv.2]> m) m l = list_to_map l ∪ m.
Proof.
  revert m. induction l as [|[k v] l IH]; intros m Hl; simpl.
  - by rewrite (left_id_L ∅ (∪)).
  - apply NoDup_cons in Hl as [Hk Hl]. rewrite IH by done. simpl in Hk.
    apply not_elem_of_list_to_map_1 in Hk.
    rewrite <- insert_union_l. by rewrite insert_union_r.
Qed.

Lemma parse_marshal_map (m : gmap string string) :
  (∀ k v, m !! k = Some v → pair_valid (k, v)) → parse_map (marshal_map m) = Some m.
Proof.
  intros Hm. unfold parse_map, marshal_map. change (skip_ws ("{"%char :: ?z)) with ("{"%char :: z).
  unfold take_null. rewrite bool_decide_false by done.
  cbn [expect_byte]. rewrite bool_decide_true by done. cbn [base.mbind option_bind].
  assert (sorted_pairs m ≡ₚ map_to_list m) as Hp by apply merge_sort_Permutation.
  assert (foldl (λ m kv, <[kv.1 := kv.2]> m) ∅ (sorted_pairs m) = m) as Hfold.
  { rewrite fold_inserts, (right_id_L ∅ (∪)).
    - rewrite <- (list_to_map_to_list m) at 2. apply list_to_map_proper; [|done].
      rewrite Hp. apply NoDup_fst_map_to_list.
    - rewrite Hp. apply NoDup_fst_map_to_list. }
  assert (Forall pair_valid (sorted_pairs m)) as Hv.
  { rewrite Hp. apply Forall_forall. intros [k v] Hkv%elem_of_map_to_list. by apply Hm. }
  destruct (sorted_pairs m) as [|[k v] l]; [by rewrite <- Hfold|].
  assert (∃ t, sep_elems (marshal_pair <$> (k, v) :: l) ++ ["}"%char] = bquote :: t) as [t Ht].
  { destruct l; [by eexists|]. rewrite !fmap_cons, sep_elems_cons. by eexists. }
  rewrite Ht, skip_ws_quote. cbn [expect_byte]. rewrite bool_decide_false by done.
  rewrite <- Ht. rewrite take_pairs_sep; [simpl in *; by rewrite Hfold|done|done|].
  rewrite length_app. pose proof (sep_elems_length (marshal_pair <$> (k, v) :: l)) as Hs.
  rewrite length_fmap in Hs.
  assert (length ((k, v) :: l) ≤ length (sep_elems (marshal_pair <$> (k, v) :: l)))%nat; [|lia].
  apply Hs. intros y ([] & -> & _)%list_elem_of_fmap. done.
Qed.

Lemma Unmarshal_Marshal_strings l :
  Forall (λ s, utf8_valid s = true) l →
  ∃ t, Marshal_strings l = Ok t ∧ Unmarshal_strings t = Ok l ∧ t ≠ "" ∧ t ≠ "null".
Proof.
  intros Hl. eexists. split; [done|]. unfold Unmarshal_strings.
  rewrite bytes_of_of, parse_marshal_strings by done. done.
Qed.

Lemma Unmarshal_Marshal_map m :
  (∀ k v, m !! k = Some v → pair_valid (k, v)) →
  ∃ t, Marshal_map m = Ok t ∧ Unmarshal_map t = Ok m ∧ t ≠ "" ∧ t ≠ "null".
Proof.
  intros Hm. eexists. split; [done|]. unfold Unmarshal_map.
  rewrite bytes_of_of, parse_marshal_map by done. done.
Qed.
