(* ===== verification/JsonValue.v ===== *)
(** * JsonValue: JSON texts of any shape

    The part of [encoding/json] behind the audit trail: [json.Marshal] at maps and
    structs, and the reading of a text whose shape the reader does not know.  A
    string, a key and a number are kept as written, between their quotes, since
    [time.Time] looks at the written form; [str_of] is the string it stands for. *)

From S2P Require Import Prelude Glob Json GoText.

Inductive json :=
  | JNull
  | JBool (b : bool)
  | JNum (lit : jbytes)
  | JStr (lit : jbytes)
  | JArr (l : list json)
  | JObj (l : list (jbytes * json)).

(** ** Strings that are not UTF-8

    What the writer and the reader make of a string: each byte that begins no rune
    becomes U+FFFD. *)
Fixpoint clean_bytes (fuel : nat) (s : jbytes) : jbytes :=
  match fuel, s with
  | _, [] => []
  | O, _ => []
  | S fuel, c :: t =>
      if bad_rune s then [chr 0xEF; chr 0xBF; chr 0xBD] ++ clean_bytes fuel t
      else let n := (decode_rune s).2 in take n s ++ clean_bytes fuel (drop n s)
  end.

Definition to_valid (s : string) : string := let b := bytes_of s in of_bytes (clean_bytes (length b) b).

(** The written form of a string, without its quotes. *)
Definition lit_of (s : string) : jbytes := let b := bytes_of s in enc_string (length b) b.

Definition str_of (lit : jbytes) : string :=
  match unquote_json (lit ++ [bquote]) with Some (s, _) => s | None => "" end.

(** ** Writing *)
Fixpoint text (v : json) : jbytes :=
  match v with
  | JNull => null_text
  | JBool b => if b then ["t"; "r"; "u"; "e"]%char else ["f"; "a"; "l"; "s"; "e"]%char
  | JNum lit => lit
  | JStr lit => bquote :: lit ++ [bquote]
  | JArr l => "["%char :: sep_elems (map text l) ++ ["]"%char]
  | JObj l => "{"%char :: sep_elems (map (λ kv, bquote :: kv.1 ++ bquote :: ":"%char :: text kv.2) l) ++ ["}"%char]
  end.

Definition jstr (s : string) : json := JStr (lit_of s).
Definition jint (n : Z) : json := JNum (bytes_of (FormatInt n)).
Definition jstrs (l : list string) : json := JArr (jstr <$> l).

(** ** Reading *)

Fixpoint span_digits (s : jbytes) : jbytes * jbytes :=
  match s with
  | c :: t => if is_digit c then let '(d, r) := span_digits t in (c :: d, r) else ([], s)
  | [] => ([], [])
  end.

(** Digits, at least one. *)
Definition take_some_digits (s : jbytes) : option (jbytes * jbytes) :=
  match span_digits s with ([], _) => None | (d, r) => Some (d, r) end.

(** [0], or digits that do not begin with it. *)
Definition take_int (s : jbytes) : option (jbytes * jbytes) :=
  match s with
  | c :: t => if byte_is 48 c then Some ([c], t) else take_some_digits s
  | [] => None
  end.

Definition take_sign (s : jbytes) (plus : bool) : jbytes * jbytes :=
  match s with
  | c :: t => if byte_is 45 c || (plus && byte_is 43 c) then ([c], t) else ([], s)
  | [] => ([], s)
  end.

Definition take_fraction (s : jbytes) : option (jbytes * jbytes) :=
  match s with
  | c :: t => if byte_is 46 c then '(d, r) ← take_some_digits t; Some (c :: d, r) else Some ([], s)
  | [] => Some ([], s)
  end.

Definition take_exponent (s : jbytes) : option (jbytes * jbytes) :=
  match s with
  | c :: t =>
      if byte_is 101 c || byte_is 69 c then
        let '(sg, t) := take_sign t true in '(d, r) ← take_some_digits t; Some (c :: sg ++ d, r)
      else Some ([], s)
  | [] => Some ([], s)
  end.

Definition take_number (s : jbytes) : option (json * jbytes) :=
  let '(sg, t) := take_sign s false in
  '(i, t) ← take_int t; '(f, t) ← take_fraction t; '(e, t) ← take_exponent t;
  Some (JNum (sg ++ i ++ f ++ e), t).

Definition take_word (w : jbytes) (s : jbytes) : option jbytes :=
  if bool_decide (take (length w) s = w) then Some (drop (length w) s) else None.

(** A string literal after its opening quote: what stands before the closing one. *)
Definition take_lit (s : jbytes) : option (jbytes * jbytes) :=
  '(_, r) ← unquote_json s; Some (take (length s - length r - 1) s, r).

Definition take_scalar (s : jbytes) : option (json * jbytes) :=
  match take_word null_text s with Some r => Some (JNull, r) | None =>
  match take_word (text (JBool true)) s with Some r => Some (JBool true, r) | None =>
  match take_word (text (JBool false)) s with Some r => Some (JBool false, r) | None =>
  take_number s end end end.

Fixpoint take_value (fuel : nat) (s : jbytes) : option (json * jbytes) :=
  match fuel with
  | O => None
  | S fuel =>
      match expect_byte bquote s with Some t => '(l, r) ← take_lit t; Some (JStr l, r) | None =>
      match expect_byte "[" s with
      | Some t =>
          match expect_byte "]" (skip_ws t) with
          | Some r => Some (JArr [], r)
          | None => '(l, r) ← take_items fuel (skip_ws t); Some (JArr l, r)
          end
      | None =>
      match expect_byte "{" s with
      | Some t =>
          match expect_byte "}" (skip_ws t) with
          | Some r => Some (JObj [], r)
          | None => '(l, r) ← take_members fuel (skip_ws t); Some (JObj l, r)
          end
      | None => take_scalar s
      end end end
  end
with take_items (fuel : nat) (s : jbytes) : option (list json * jbytes) :=
  match fuel with
  | O => None
  | S fuel =>
      '(v, t) ← take_value fuel s;
      match expect_byte "]" (skip_ws t) with
      | Some r => Some ([v], r)
      | None => t ← expect_byte "," (skip_ws t); '(l, r) ← take_items fuel (skip_ws t); Some (v :: l, r)
      end
  end
with take_members (fuel : nat) (s : jbytes) : option (list (jbytes * json) * jbytes) :=
  match fuel with
  | O => None
  | S fuel =>
      t ← expect_byte bquote s; '(k, t) ← take_lit t;
      t ← expect_byte ":" (skip_ws t); '(v, t) ← take_value fuel (skip_ws t);
      match expect_byte "}" (skip_ws t) with
      | Some r => Some ([(k, v)], r)
      | None => t ← expect_byte "," (skip_ws t); '(l, r) ← take_members fuel (skip_ws t); Some ((k, v) :: l, r)
      end
  end.

(** [encoding/json] gives up below this many levels of arrays and objects. *)
Definition maxNestingDepth : nat := 10000.

Fixpoint depth (v : json) : nat :=
  match v with
  | JArr l => S (foldr Nat.max 0%nat (map depth l))
  | JObj l => S (foldr Nat.max 0%nat (map (λ kv, depth kv.2) l))
  | _ => 0%nat
  end.

(** A whole text; each level and each item consumes at least one byte. *)
Definition parse_json (s : jbytes) : option json :=
  '(v, r) ← take_value (length s) (skip_ws s);
  if at_end r && Nat.leb (depth v) maxNestingDepth then Some v else None.

Example parse_json_ex :
  parse_json (bytes_of (" {" +:+ dquote +:+ "a" +:+ dquote +:+ " : [1, -2.5e+3, true], " +:+ dquote +:+ "b" +:+ dquote +:+ ": null} ")) =
  Some (JObj [(["a"%char], JArr [JNum ["1"%char]; JNum (bytes_of "-2.5e+3"); JBool true]); (["b"%char], JNull)]).
Proof. by vm_compute. Qed.
Example parse_json_bad :
  (λ s, parse_json (bytes_of s)) <$> ["01"; "[1,]"; "{1:2}"; "tru"; "1 2"; "-"; ""] =
  [None; None; None; None; None; None; None].
Proof. by vm_compute. Qed.

(** ** Reading a written string *)

Lemma decode_ascii c t : byte_in 0 0x7F c = true → bad_rune (c :: t) = false ∧ (decode_rune (c :: t)).2 = 1%nat.
Proof. intros Hc. unfold bad_rune. cbn [decode_rune]. rewrite Hc. split; [|done]. by rewrite andb_comm; destruct (_ =? _)%N eqn:E; [|]; try done; apply N.eqb_eq in E; exfalso; revert Hc; unfold byte_in; rewrite E. Qed.

Lemma dec_hex_bad k x : dec_string (S k) (hex4 0xFFFD ++ x) =
  '(y, rest) ← dec_string k x; Some ([chr 0xEF; chr 0xBF; chr 0xBD] ++ y, rest).
Proof. reflexivity. Qed.

Lemma rune_drop c t : bad_rune (c :: t) = false →
  (length (drop (decode_rune (c :: t)).2 (c :: t)) ≤ length t)%nat.
Proof.
  intros Hb. destruct (decode_prefix (c :: t) [] ltac:(done) Hb) as [Hn _].
  rewrite length_drop. simpl length in *. lia.
Qed.

Lemma dec_enc_any fuel s k rest :
  (length s ≤ fuel)%nat → (length s ≤ k)%nat →
  dec_string (S k) (enc_string fuel s ++ bquote :: rest) = Some (clean_bytes fuel s, rest).
Proof.
  revert s k. induction fuel as [|fuel IH]; intros s k Hf Hk; [by destruct s; [|simpl in Hf; lia]|].
  destruct s as [|c t]; [done|]. simpl in Hf, Hk. destruct k as [|k]; [lia|].
  cbn [enc_string clean_bytes]. destruct (byte_in 0 0x7F c) eqn:Hc.
  - destruct (decode_ascii c t Hc) as [-> ->]. rewrite <- app_assoc, dec_esc_byte by done.
    cbn [drop take]. rewrite drop_0, IH by lia. done.
  - destruct (bad_rune (c :: t)) eqn:Hb.
    { rewrite <- app_assoc, dec_hex_bad, IH by lia. done. }
    destruct (line_sep (c :: t)) as [r|] eqn:Hls.
    + apply line_sep_Some in Hls as [(u & E & ->)|(u & E & ->)]; injection E as -> ->;
        rewrite <- app_assoc; cbn [drop]; simpl in Hf, Hk;
        (rewrite dec_hex_2028 || rewrite dec_hex_2029); rewrite drop_0, (IH u k) by lia; done.
    + pose proof (rune_drop c t Hb). rewrite <- app_assoc, dec_rune, IH by (done || lia). done.
Qed.

Lemma enc_any_length fuel s : (length s ≤ fuel)%nat → (length s ≤ length (enc_string fuel s))%nat.
Proof.
  revert s. induction fuel as [|fuel IH]; intros s Hf; [lia|].
  destruct s as [|c t]; [done|]. simpl in Hf. cbn [enc_string]. destruct (byte_in 0 0x7F c) eqn:Hc.
  - specialize (IH t ltac:(lia)). rewrite length_app. simpl.
    assert (0 < length (esc_byte c))%nat; [|lia]. unfold esc_byte. repeat case_match; simpl; lia.
  - destruct (bad_rune (c :: t)) eqn:Hb.
    { specialize (IH t ltac:(lia)). rewrite length_app. simpl. lia. }
    destruct (line_sep (c :: t)) as [r|] eqn:Hls.
    + apply line_sep_Some in Hls as [(u & E & ->)|(u & E & ->)]; injection E as -> ->;
        simpl in Hf; specialize (IH u ltac:(lia)); rewrite length_app;
        cbn [drop]; rewrite drop_0; simpl; lia.
    + pose proof (rune_drop c t Hb) as Hd. specialize (IH (drop (decode_rune (c :: t)).2 (c :: t)) ltac:(lia)).
      rewrite length_app, length_take. rewrite length_drop in *. lia.
Qed.

(** A literal: what follows its closing quote is left. *)
Definition lit_ok (lit : jbytes) : Prop :=
  ∀ rest, unquote_json (lit ++ bquote :: rest) = Some (str_of lit, rest).

Lemma unquote_lit s rest : unquote_json (lit_of s ++ bquote :: rest) = Some (to_valid s, rest).
Proof.
  unfold unquote_json, lit_of, to_valid. set (b := bytes_of s).
  assert (length (enc_string (length b) b ++ bquote :: rest) =
    S (length (enc_string (length b) b) + length rest)) as -> by (rewrite length_app; simpl; lia).
  pose proof (enc_any_length (length b) b ltac:(lia)).
  by rewrite dec_enc_any by lia.
Qed.

Lemma str_of_lit s : str_of (lit_of s) = to_valid s.
Proof. unfold str_of. by rewrite unquote_lit. Qed.

Lemma lit_of_ok s : lit_ok (lit_of s).
Proof. intros rest. by rewrite str_of_lit, unquote_lit. Qed.

Lemma take_lit_ok lit rest : lit_ok lit → take_lit (lit ++ bquote :: rest) = Some (lit, rest).
Proof.
  intros Hl. unfold take_lit. rewrite (Hl rest). cbn [base.mbind option_bind].
  rewrite length_app. simpl length.
  replace (length lit + S (length rest) - length rest - 1)%nat with (length lit) by lia.
  by rewrite take_app_length.
Qed.

Lemma clean_valid fuel s : utf8_bytes fuel s = true → clean_bytes fuel s = s.
Proof.
  revert s. induction fuel as [|fuel IH]; intros s Hu; [by destruct s|]. destruct s as [|c t]; [done|].
  cbn [utf8_bytes clean_bytes] in *. apply andb_true_iff in Hu as [Hb%negb_true_iff Hu].
  rewrite Hb, IH by done. by rewrite take_drop.
Qed.

Lemma to_valid_id s : utf8_valid s = true → to_valid s = s.
Proof. intros Hu. unfold to_valid. rewrite clean_valid by done. apply of_bytes_of. Qed.

Lemma to_valid_empty s : to_valid s = "" ↔ s = "".
Proof.
  split; [|by intros ->]. destruct s as [|c s]; [done|]. unfold to_valid. cbn [bytes_of].
  simpl length. cbn [clean_bytes]. destruct (bad_rune _) eqn:Hb; [done|].
  destruct (decode_prefix (c :: bytes_of s) [] ltac:(done) Hb) as [Hn _].
  destruct (decode_rune _).2; [lia|done].
Qed.

(** ** Reading a written number *)

(** What follows a number in a text does not continue it. *)
Definition ends (rest : jbytes) : bool :=
  match rest with
  | c :: _ => negb (is_digit c || byte_is 46 c || byte_is 101 c || byte_is 69 c)
  | [] => true
  end.

Lemma ends_spec rest : ends rest = true →
  span_digits rest = ([], rest) ∧ take_fraction rest = Some ([], rest) ∧ take_exponent rest = Some ([], rest).
Proof.
  destruct rest as [|c t]; [done|]. simpl. rewrite negb_true_iff, !orb_false_iff.
  by intros [[[-> ->] ->] ->].
Qed.

Lemma span_digits_app d rest :
  all_digits (of_bytes d) = true → span_digits (d ++ rest) = let '(e, r) := span_digits rest in (d ++ e, r).
Proof.
  induction d as [|c d IH]; simpl; [by destruct (span_digits rest)|].
  intros [-> Hd]%andb_true_iff. rewrite IH by done. by destruct (span_digits rest).
Qed.

Lemma put_digits_head fuel n acc : 0 < n < 10 ^ Z.of_nat fuel →
  ∃ d s, 1 ≤ d ≤ 9 ∧ put_digits fuel n acc = String (digit_byte d) s.
Proof.
  revert n acc. induction fuel as [|fuel IH]; intros n acc Hn; [simpl in Hn; lia|].
  cbn [put_digits]. destruct (Z.ltb_spec n 10) as [Hlt|Hge].
  - exists n. eexists. split; [lia|done].
  - apply IH. rewrite Nat2Z.inj_succ, Z.pow_succ_r in Hn by lia.
    split; [apply Z.div_str_pos; lia|apply Z.div_lt_upper_bound; lia].
Qed.

Definition num_range (n : Z) : Prop := - 10^19 < n < 10^20.

Lemma digit_plain d : 0 ≤ d < 10 →
  let c := digit_byte d in
  is_ws c = false ∧ byte_is 45 c = false ∧ byte_is 48 c = (d =? 0) ∧
  c ∉ [bquote; "["; "]"; "{"; "}"; "n"; "t"; "f"]%char.
Proof.
  intros Hd c. subst c. assert (d ∈ [0; 1; 2; 3; 4; 5; 6; 7; 8; 9]) as Hin
    by (rewrite !elem_of_cons; lia).
  repeat (apply elem_of_cons in Hin as [->|Hin]; [by apply (bool_decide_unpack _); vm_compute|]).
  by apply elem_of_nil in Hin.
Qed.

(** The digits of a number that is not negative. *)
Lemma take_int_uint n rest :
  0 ≤ n < 10^20 → ends rest = true →
  ∃ d t, 0 ≤ d < 10 ∧ bytes_of (FormatUint n) = digit_byte d :: t ∧
    take_int (bytes_of (FormatUint n) ++ rest) = Some (bytes_of (FormatUint n), rest).
Proof.
  intros Hn He. destruct (decide (n = 0)) as [->|Hne].
  { exists 0, []. by split_and!. }
  destruct (put_digits_head 20 n "" ltac:(lia)) as (d & s & Hd & E).
  pose proof (FormatUint_digits n) as Hall. unfold FormatUint in *. rewrite E in *.
  exists d, (bytes_of s). split; [lia|]. split; [done|]. cbn [bytes_of app take_int].
  destruct (digit_plain d ltac:(lia)) as (_ & _ & -> & _). rewrite (proj2 (Z.eqb_neq d 0)) by lia.
  unfold take_some_digits. change (digit_byte d :: bytes_of s ++ rest) with ((digit_byte d :: bytes_of s) ++ rest).
  rewrite span_digits_app by (cbn [of_bytes]; by rewrite of_bytes_of).
  destruct (ends_spec rest He) as [-> _]. by rewrite app_nil_r.
Qed.

Lemma take_word_head w c t : head w ≠ Some c → w ≠ [] → take_word w (c :: t) = None.
Proof. intros Hh Hw. destruct w as [|b w]; [done|]. unfold take_word. rewrite bool_decide_false; [done|]. simpl. intros [= <- _]. done. Qed.

Lemma take_scalar_number c t : c ∉ ["n"; "t"; "f"]%char → take_scalar (c :: t) = take_number (c :: t).
Proof.
  rewrite !not_elem_of_cons. intros (Hn & Ht & Hf & _). unfold take_scalar.
  by rewrite !take_word_head by first [done | intros [= <-]; done].
Qed.

Lemma format_int_head n : num_range n →
  ∃ c t, bytes_of (FormatInt n) = c :: t ∧ is_ws c = false ∧
    c ∉ [bquote; "["; "]"; "{"; "}"; "n"; "t"; "f"]%char.
Proof.
  intros Hn. unfold FormatInt, num_range in *. destruct (Z.ltb_spec n 0).
  - exists "-"%char, (bytes_of (FormatUint (- n))). split; [done|]. by apply (bool_decide_unpack _); vm_compute.
  - destruct (take_int_uint n [] ltac:(lia) eq_refl) as (d & t & Hd & -> & _).
    destruct (digit_plain d Hd) as (? & _ & _ & ?). by eexists _, _.
Qed.

Lemma take_scalar_int n rest :
  num_range n → ends rest = true →
  take_scalar (bytes_of (FormatInt n) ++ rest) = Some (jint n, rest).
Proof.
  intros Hn He. destruct (format_int_head n Hn) as (c & t & E & _ & Hc). unfold jint. rewrite E. cbn [app].
  rewrite take_scalar_number by (rewrite !not_elem_of_cons in *; tauto). change (c :: t ++ rest) with ((c :: t) ++ rest).
  rewrite <- E. clear c t E Hc. destruct (ends_spec rest He) as (_ & Hf & Hx).
  unfold FormatInt, num_range, take_number in *. destruct (Z.ltb_spec n 0).
  - destruct (take_int_uint (- n) rest ltac:(lia) He) as (d & t & _ & _ & Hi).
    change (bytes_of ("-" +:+ FormatUint (- n)) ++ rest) with ("-"%char :: (bytes_of (FormatUint (- n)) ++ rest)).
    change (take_sign ("-"%char :: ?x) false) with (["-"%char], x). cbv iota.
    rewrite Hi. cbn [base.mbind option_bind]. rewrite Hf. cbn [base.mbind option_bind]. rewrite Hx.
    cbn [base.mbind option_bind]. by rewrite !app_nil_r.
  - destruct (take_int_uint n rest ltac:(lia) He) as (d & t & Hd & Et & Hi).
    assert (take_sign (bytes_of (FormatUint n) ++ rest) false = ([], bytes_of (FormatUint n) ++ rest)) as ->.
    { rewrite Et. cbn [app take_sign]. destruct (digit_plain d Hd) as (_ & -> & _). done. }
    rewrite Hi. cbn [base.mbind option_bind]. rewrite Hf. cbn [base.mbind option_bind]. rewrite Hx.
    cbn [base.mbind option_bind]. by rewrite !app_nil_r.
Qed.

(** ** Reading a written text *)

Section Induction.
Variable P : json → Prop.
Hypothesis Pnull : P JNull.
Hypothesis Pbool : ∀ b, P (JBool b).
Hypothesis Pnum : ∀ lit, P (JNum lit).
Hypothesis Pstr : ∀ lit, P (JStr lit).
Hypothesis Parr : ∀ l, Forall P l → P (JArr l).
Hypothesis Pobj : ∀ l, Forall (λ kv, P kv.2) l → P (JObj l).

Fixpoint json_rect' (v : json) : P v :=
  match v with
  | JNull => Pnull
  | JBool b => Pbool b
  | JNum lit => Pnum lit
  | JStr lit => Pstr lit
  | JArr l => Parr l ((fix go l := match l return Forall P l with
      | [] => Forall_nil_2 P
      | v :: l => Forall_cons_2 P v l (json_rect' v) (go l) end) l)
  | JObj l => Pobj l ((fix go l := match l return Forall (λ kv, P kv.2) l with
      | [] => Forall_nil_2 _
      | kv :: l => Forall_cons_2 _ kv l (json_rect' kv.2) (go l) end) l)
  end.
End Induction.

(** Values as the program writes them: literals of strings, integers. *)
Fixpoint json_ok (v : json) : Prop :=
  match v with
  | JNum lit => ∃ n, num_range n ∧ lit = bytes_of (FormatInt n)
  | JStr lit => lit_ok lit
  | JArr l => foldr and True (map json_ok l)
  | JObj l => foldr and True (map (λ kv, lit_ok kv.1 ∧ json_ok kv.2) l)
  | _ => True
  end.

Lemma foldr_and_Forall {A} (P : A → Prop) l : foldr and True (map P l) ↔ Forall P l.
Proof. induction l as [|x l IH]; simpl; [by split|]. by rewrite IH, Forall_cons. Qed.

(** The rounds a reader needs. *)
Fixpoint cost (v : json) : nat :=
  match v with
  | JArr l => S (sum_list_with (λ v, S (cost v)) l)
  | JObj l => S (sum_list_with (λ kv, S (cost kv.2)) l)
  | _ => 1%nat
  end.

Definition opening (c : ascii) : Prop := is_ws c = false ∧ c ∉ ["]"; "}"]%char.

Lemma text_head v : json_ok v → ∃ c t, text v = c :: t ∧ opening c.
Proof.
  assert (∀ c, bool_decide (is_ws c = false ∧ c ∉ ["]"; "}"]%char) = true → opening c) as Hop.
  { intros c Hc. exact (bool_decide_eq_true_1 _ Hc). }
  destruct v as [|b|lit|lit|l|l]; simpl; intros Hv; try (eexists _, _; split; [done|by apply Hop]).
  - destruct b; eexists _, _; (split; [done|by apply Hop]).
  - destruct Hv as (n & Hn & ->). destruct (format_int_head n Hn) as (c & t & -> & Hw & Hc).
    eexists _, _. split; [done|]. split; [done|]. rewrite !not_elem_of_cons in *. tauto.
Qed.

Lemma text_skip v x : json_ok v → skip_ws (text v ++ x) = text v ++ x.
Proof. intros (c & t & -> & Hw & _)%text_head. simpl. by rewrite Hw. Qed.

Lemma text_not_closing v x (b : ascii) : json_ok v → b ∈ ["]"; "}"]%char → expect_byte b (text v ++ x) = None.
Proof.
  intros (c & t & -> & _ & Hc)%text_head Hb. simpl. rewrite bool_decide_false; [done|]. by intros ->.
Qed.

Definition reads (v : json) : Prop :=
  json_ok v → ∀ fuel rest, (cost v ≤ fuel)%nat → ends rest = true →
    take_value fuel (text v ++ rest) = Some (v, rest).

Lemma take_items_text l rest fuel :
  l ≠ [] → Forall reads l → Forall json_ok l → (sum_list_with (λ v, S (cost v)) l ≤ fuel)%nat →
  take_items fuel (sep_elems (map text l) ++ "]"%char :: rest) = Some (l, rest).
Proof.
  revert fuel. induction l as [|v l IH]; intros fuel Hne Hr Hok Hf; [done|].
  apply Forall_cons in Hr as [Hv Hr]. apply Forall_cons in Hok as [Hvo Hok].
  simpl in Hf. destruct fuel as [|fuel]; [lia|]. cbn [take_items]. destruct l as [|w l].
  - cbn [map sep_elems]. rewrite Hv by (done || lia). done.
  - cbn [map]. rewrite sep_elems_cons, <- app_assoc. cbn [app]. rewrite Hv by (done || lia).
    cbn [base.mbind option_bind]. change (skip_ws (","%char :: ?z)) with (","%char :: z).
    cbn [expect_byte]. rewrite bool_decide_false, bool_decide_true by done. cbn [base.mbind option_bind].
    assert (Hwo : json_ok w) by (by apply Forall_cons in Hok as [? _]).
    replace (skip_ws (sep_elems (text w :: map text l) ++ "]"%char :: rest))
      with (sep_elems (map text (w :: l)) ++ "]"%char :: rest).
    { rewrite IH; [done..|]. simpl in *. lia. }
    cbn [map]. destruct l as [|w' l]; [cbn [map sep_elems]|cbn [map]; rewrite sep_elems_cons, <- app_assoc];
      by rewrite text_skip.
Qed.

Definition member_text (kv : jbytes * json) : jbytes := bquote :: kv.1 ++ bquote :: ":"%char :: text kv.2.

Lemma member_text_head kv x : member_text kv ++ x = bquote :: (kv.1 ++ bquote :: ":"%char :: text kv.2 ++ x).
Proof. unfold member_text. cbn [app]. by rewrite <- app_assoc. Qed.

Lemma take_members_text l rest fuel :
  l ≠ [] → Forall (λ kv, reads kv.2) l → Forall (λ kv, lit_ok kv.1 ∧ json_ok kv.2) l →
  (sum_list_with (λ kv, S (cost kv.2)) l ≤ fuel)%nat →
  take_members fuel (sep_elems (map member_text l) ++ "}"%char :: rest) = Some (l, rest).
Proof.
  revert fuel. induction l as [|[k v] l IH]; intros fuel Hne Hr Hok Hf; [done|].
  apply Forall_cons in Hr as [Hv Hr]. apply Forall_cons in Hok as [[Hk Hvo] Hok].
  cbn [fst snd] in *. simpl in Hf. destruct fuel as [|fuel]; [lia|].
  assert (∀ x, ends x = true → take_members (S fuel) (member_text (k, v) ++ x) =
    match expect_byte "}" (skip_ws x) with
    | Some r => Some ([(k, v)], r)
    | None => t ← expect_byte "," (skip_ws x); '(l, r) ← take_members fuel (skip_ws t); Some ((k, v) :: l, r)
    end) as Hstep.
  { intros x Hx. rewrite member_text_head. cbn [take_members expect_byte fst snd]. rewrite bool_decide_true by done.
    cbn [base.mbind option_bind]. rewrite take_lit_ok by done. cbn [base.mbind option_bind].
    change (skip_ws (":"%char :: ?z)) with (":"%char :: z). cbn [expect_byte].
    rewrite bool_decide_true by done. cbn [base.mbind option_bind]. rewrite text_skip by done.
    rewrite Hv by (done || lia). done. }
  destruct l as [|w l].
  - cbn [map sep_elems]. by rewrite Hstep.
  - cbn [map]. rewrite sep_elems_cons, <- app_assoc. cbn [app]. rewrite Hstep by done.
    change (skip_ws (","%char :: ?z)) with (","%char :: z). cbn [expect_byte].
    rewrite bool_decide_false, bool_decide_true by done. cbn [base.mbind option_bind].
    replace (skip_ws (sep_elems (member_text w :: map member_text l) ++ "}"%char :: rest))
      with (sep_elems (map member_text (w :: l)) ++ "}"%char :: rest).
    { rewrite IH; [done..|]. simpl in *. lia. }
    cbn [map]. destruct l as [|w' l]; [cbn [map sep_elems]|cbn [map]; rewrite sep_elems_cons, <- app_assoc];
      by rewrite member_text_head.
Qed.

Lemma take_value_text v : reads v.
Proof.
  induction v as [|b|lit|lit|l IH|l IH] using json_rect'; intros Hok fuel rest Hf He;
    (destruct fuel as [|fuel]; [simpl in Hf; lia|]).
  - done.
  - by destruct b.
  - destruct Hok as (n & Hn & ->). destruct (format_int_head n Hn) as (c & t & E & _ & Hc).
    pose proof (take_scalar_int n rest Hn He) as Hs. cbn [text]. unfold jint in Hs. rewrite E in *. cbn [app] in *.
    cbn [take_value expect_byte]. rewrite !not_elem_of_cons in Hc.
    by rewrite !bool_decide_false by (intros ->; tauto).
  - cbn [text app]. rewrite <- app_assoc. cbn [app take_value expect_byte]. rewrite bool_decide_true by done.
    by rewrite take_lit_ok.
  - cbn [json_ok] in Hok. rewrite foldr_and_Forall in Hok. cbn [text app take_value expect_byte].
    rewrite bool_decide_false, bool_decide_true by done. rewrite <- app_assoc. cbn [app].
    destruct l as [|v l]; [done|]. pose proof Hok as [Hv _]%Forall_cons.
    assert (∃ x, sep_elems (map text (v :: l)) ++ "]"%char :: rest = text v ++ x) as [x Hx].
    { destruct l; [by eexists|]. cbn [map]. rewrite sep_elems_cons, <- app_assoc. by eexists. }
    rewrite Hx, text_skip by done. rewrite text_not_closing by (done || set_solver). rewrite <- Hx.
    rewrite take_items_text; [done..|]. simpl in Hf |- *. lia.
  - cbn [json_ok] in Hok. rewrite foldr_and_Forall in Hok. cbn [text app take_value expect_byte].
    rewrite !bool_decide_false, bool_decide_true by done. rewrite <- app_assoc. cbn [app].
    destruct l as [|v l]; [done|]. fold member_text.
    assert (∃ x, sep_elems (map member_text (v :: l)) ++ "}"%char :: rest = bquote :: x) as [x Hx].
    { destruct l; [by eexists|]. cbn [map]. rewrite sep_elems_cons, <- app_assoc. by eexists. }
    change (map (λ kv, bquote :: kv.1 ++ bquote :: ":"%char :: text kv.2) (v :: l)) with (map member_text (v :: l)).
    rewrite Hx. change (skip_ws (bquote :: ?z)) with (bquote :: z). cbn [expect_byte].
    rewrite bool_decide_false by done. rewrite <- Hx.
    rewrite take_members_text; [done..|]. simpl in Hf |- *. lia.
Qed.

Lemma cost_text v : json_ok v → (cost v ≤ length (text v))%nat.
Proof.
  assert (∀ {A} (f : A → nat) (g : A → jbytes) l, Forall (λ x, (f x ≤ length (g x))%nat) l →
    (sum_list_with (λ x, S (f x)) l ≤ S (length (sep_elems (map g l))))%nat) as Hsum.
  { intros A f g l Hl. induction Hl as [|x l Hx _ IH]; [simpl; lia|]. destruct l as [|y l].
    - simpl. lia.
    - cbn [map] in *. rewrite sep_elems_cons, length_app. cbn [length sum_list_with] in *. lia. }
  induction v as [|b|lit|lit|l IH|l IH] using json_rect'; intros Hok; cbn [cost text].
  - unfold null_text. simpl. lia.
  - destruct b; simpl; lia.
  - destruct Hok as (n & Hn & ->). destruct (format_int_head n Hn) as (c & t & -> & _). simpl. lia.
  - simpl. lia.
  - cbn [json_ok] in Hok. rewrite foldr_and_Forall in Hok. specialize (Hsum _ cost text l).
    cbn [length]. rewrite length_app. cbn [length]. assert (Forall (λ x, (cost x ≤ length (text x))%nat) l) as Hl; [|specialize (Hsum Hl); lia].
    rewrite Forall_forall in *. auto.
  - cbn [json_ok] in Hok. rewrite foldr_and_Forall in Hok. specialize (Hsum _ (λ kv, cost kv.2) member_text l).
    cbn [length]. rewrite length_app. cbn [length]. fold member_text.
    assert (Forall (λ x, (cost x.2 ≤ length (member_text x))%nat) l) as Hl; [|specialize (Hsum Hl); lia].
    rewrite Forall_forall in *. intros kv Hkv. destruct (Hok kv Hkv) as [_ Hv]. specialize (IH kv Hkv Hv).
    unfold member_text. cbn [length]. rewrite length_app. cbn [length]. lia.
Qed.

(** Reading a written text gives back the value. *)
Lemma parse_text v : json_ok v → (depth v ≤ maxNestingDepth)%nat → parse_json (text v) = Some v.
Proof.
  intros Hok Hd. unfold parse_json. replace (text v) with (text v ++ []) at 2 by apply app_nil_r.
  rewrite text_skip, take_value_text by (try done; by apply cost_text).
  cbn [base.mbind option_bind at_end skip_ws andb]. by apply Nat.leb_le in Hd as ->.
Qed.

Lemma jstr_ok s : json_ok (jstr s).
Proof. apply lit_of_ok. Qed.

Lemma jint_ok n : num_range n → json_ok (jint n).
Proof. intros Hn. by exists n. Qed.

Lemma jstrs_ok l : json_ok (jstrs l).
Proof. simpl. rewrite foldr_and_Forall. apply Forall_fmap, Forall_true. intros s. apply lit_of_ok. Qed.

Lemma jobj_ok l : Forall (λ kv, lit_ok kv.1 ∧ json_ok kv.2) l → json_ok (JObj l).
Proof. intros Hl. simpl. by rewrite foldr_and_Forall. Qed.

(** ** A written text is UTF-8 *)

Definition clean_all (s : jbytes) : jbytes := clean_bytes (length s) s.

(** These bytes are left as they are, whatever follows. *)
Definition stable (l : jbytes) : Prop := ∀ rest, clean_all (l ++ rest) = l ++ clean_all rest.

Lemma clean_fuel f g s : (length s ≤ f)%nat → (length s ≤ g)%nat → clean_bytes f s = clean_bytes g s.
Proof.
  revert g s. induction f as [|f IH]; intros g s Hf Hg; [destruct s; [by destruct g|simpl in Hf; lia]|].
  destruct s as [|c t]; [by destruct g|]. destruct g as [|g]; [simpl in Hg; lia|].
  simpl length in *. cbn [clean_bytes]. destruct (bad_rune (c :: t)) eqn:Hb.
  - f_equal. apply IH; lia.
  - pose proof (rune_drop c t Hb). f_equal. apply IH; lia.
Qed.

Lemma stable_nil : stable [].
Proof. done. Qed.

Lemma stable_app l m : stable l → stable m → stable (l ++ m).
Proof. intros Hl Hm rest. by rewrite <- !app_assoc, Hl, Hm. Qed.

(** A whole rune. *)
Lemma stable_rune c t : bad_rune (c :: t) = false → stable (take (decode_rune (c :: t)).2 (c :: t)).
Proof.
  intros Hb rest. destruct (decode_prefix (c :: t) rest ltac:(done) Hb) as [Hn Hd].
  set (n := (decode_rune (c :: t)).2) in *.
  assert (length (take n (c :: t)) = n) as Hlen by (rewrite length_take; lia).
  assert (∃ t', take n (c :: t) = c :: t') as [t' Ht'] by (destruct n; [lia|]; by eexists).
  rewrite Ht' in *. unfold clean_all. cbn [app length clean_bytes] in *.
  unfold bad_rune in *. rewrite Hd in *. destruct (decode_rune (c :: t)) as [ru w] eqn:E. rewrite Hb.
  cbn [snd] in *. subst n. change (c :: t' ++ rest) with ((c :: t') ++ rest).
  rewrite take_app_length', drop_app_length' by done. cbn [app]. f_equal. f_equal.
  apply clean_fuel; rewrite ?length_app; lia.
Qed.

Lemma stable_ascii l : forallb (byte_in 0 0x7F) l = true → stable l.
Proof.
  induction l as [|c l IH]; [intros _; apply stable_nil|]. simpl. intros [Hc Hl]%andb_true_iff.
  apply (stable_app [c]); [|by apply IH]. destruct (decode_ascii c [] Hc) as [Hb Hn].
  pose proof (stable_rune c [] Hb) as Hs. by rewrite Hn in Hs.
Qed.

Lemma esc_byte_ascii c : byte_in 0 0x7F c = true → forallb (byte_in 0 0x7F) (esc_byte c) = true.
Proof. destruct c as [[] [] [] [] [] [] [] []]; intros Hc; try discriminate Hc; reflexivity. Qed.

Lemma stable_enc fuel s : stable (enc_string fuel s).
Proof.
  revert s. induction fuel as [|fuel IH]; intros s; [by destruct s; apply stable_nil|].
  destruct s as [|c t]; [apply stable_nil|]. cbn [enc_string]. destruct (byte_in 0 0x7F c) eqn:Hc.
  { apply stable_app; [by apply stable_ascii, esc_byte_ascii|apply IH]. }
  destruct (bad_rune (c :: t)) eqn:Hb; [apply stable_app; [by apply stable_ascii|apply IH]|].
  destruct (line_sep (c :: t)) as [r|] eqn:Hls.
  - apply stable_app; [|apply IH]. apply stable_ascii.
    by apply line_sep_Some in Hls as [(u & _ & ->)|(u & _ & ->)].
  - apply stable_app; [by apply stable_rune|apply IH].
Qed.

Fixpoint json_utf8 (v : json) : Prop :=
  match v with
  | JNum lit | JStr lit => stable lit
  | JArr l => foldr and True (map json_utf8 l)
  | JObj l => foldr and True (map (λ kv, stable kv.1 ∧ json_utf8 kv.2) l)
  | _ => True
  end.

Lemma stable_sep l : Forall stable l → stable (sep_elems l).
Proof.
  induction 1 as [|x l Hx Hl IH]; [apply stable_nil|]. destruct l as [|y l]; [done|].
  rewrite sep_elems_cons. apply stable_app; [done|]. by apply (stable_app [_]); [apply stable_ascii|].
Qed.

Lemma stable_text v : json_utf8 v → stable (text v).
Proof.
  assert (∀ c d l, forallb (byte_in 0 0x7F) [c; d] = true → stable l → stable (c :: l ++ [d])) as Hbr.
  { intros c d l Hcd Hl. simpl in Hcd. apply andb_true_iff in Hcd as [Hc Hd].
    apply (stable_app [c]); [apply stable_ascii; simpl; by rewrite Hc|].
    apply stable_app; [done|]. by apply stable_ascii. }
  induction v as [|b|lit|lit|l IH|l IH] using json_rect'; intros Hu; cbn [text].
  - by apply stable_ascii.
  - by apply stable_ascii; destruct b.
  - done.
  - by apply Hbr.
  - cbn [json_utf8] in Hu. rewrite foldr_and_Forall in Hu. apply Hbr; [done|].
    apply stable_sep, Forall_fmap. rewrite Forall_forall in *. intros x Hx. by apply IH, Hu.
  - cbn [json_utf8] in Hu. rewrite foldr_and_Forall in Hu. apply Hbr; [done|].
    apply stable_sep, Forall_fmap. rewrite Forall_forall in *. intros kv Hkv.
    destruct (Hu kv Hkv) as [Hk Hv]. cbn [compose]. apply (stable_app [_]); [by apply stable_ascii|].
    apply stable_app; [done|]. apply (stable_app [_; _]); [by apply stable_ascii|]. by apply IH.
Qed.

Lemma to_valid_text v : json_utf8 v → to_valid (of_bytes (text v)) = of_bytes (text v).
Proof.
  intros Hu. unfold to_valid. rewrite bytes_of_of. f_equal.
  pose proof (stable_text v Hu []) as Hs. rewrite app_nil_r in Hs. etrans; [exact Hs|]. apply app_nil_r.
Qed.

Lemma jstr_utf8 s : json_utf8 (jstr s).
Proof. apply stable_enc. Qed.

Lemma jstrs_utf8 l : json_utf8 (jstrs l).
Proof. simpl. rewrite foldr_and_Forall. apply Forall_fmap, Forall_true. intros s. apply stable_enc. Qed.

Lemma all_digits_ascii s : all_digits s = true → forallb (byte_in 0 0x7F) (bytes_of s) = true.
Proof.
  induction s as [|c s IH]; simpl; [done|]. intros [Hc Hs]%andb_true_iff. rewrite IH by done.
  rewrite andb_true_r. destruct c as [[] [] [] [] [] [] [] []]; try discriminate Hc; reflexivity.
Qed.

Lemma jint_utf8 n : json_utf8 (jint n).
Proof.
  apply stable_ascii. unfold FormatInt. destruct (n <? 0); [|apply all_digits_ascii, FormatUint_digits].
  simpl. apply all_digits_ascii, FormatUint_digits.
Qed.
