(* ===== verification/Store.v ===== *)
(** * Store: what certd persists, and how it is laid out in rows

    Models [internal/store/store.go]: the records, the mapping between records and
    rows of TEXT columns (JSON lists, decimal serials, RFC 3339 instants, NULLs),
    and the active-cert interface the signing path is written against.  A column
    that may be NULL is an [option]. *)

From S2P Require Import Prelude GoText GoTime Glob Json Policy Krl X509Engine Mtls.

Definition SourceConfig : string := "config".
Definition SourcePortal : string := "portal".

Definition NormalizeSource (s : string) : string := if str_empty s then SourceConfig else s.

(** ** JSON columns *)

(** [DecodeJSON(s, &dst)]: empty and [null] leave the zero value. *)
Definition DecodeJSON {A} (zero : A) (unmarshal : string → result A) (s : string) : result A :=
  if str_empty s || bool_decide (s = "null") then Ok zero else unmarshal s.

Definition DecodeStrings : string → result (list string) := DecodeJSON [] Unmarshal_strings.
Definition DecodeMap : string → result (gmap string string) := DecodeJSON ∅ Unmarshal_map.
(** [EncodeJSON] *)
Definition EncodeStrings : list string → result string := Marshal_strings.
Definition EncodeMap : gmap string string → result string := Marshal_map.

(** ** Roles *)

Record RoleRow := mkRoleRow {
  c_name : string;
  c_group_claim : string;
  c_allowed_principals : string;
  c_host_patterns : string;
  c_spiffe_patterns : string;
  c_default_extensions : string;
  c_max_user : Z;
  c_max_host : Z;
  c_max_x509 : Z;
  c_updated_at : string;
  c_source : string;
}.

Record RoleRecord := mkRoleRecord { RecRole : Role; RecSource : string }.

#[export] Instance RoleRecord_eq_dec : EqDecision RoleRecord.
Proof. solve_decision. Defined.

Definition ScanRole (row : RoleRow) : result Role :=
  allowed <-r DecodeStrings (c_allowed_principals row);;
  hosts <-r DecodeStrings (c_host_patterns row);;
  spiffe <-r DecodeStrings (c_spiffe_patterns row);;
  exts <-r DecodeMap (c_default_extensions row);;
  Ok (mkRole (c_name row) (c_group_claim row) allowed hosts spiffe
        (c_max_user row) (c_max_host row) (c_max_x509 row) exts).

Definition ScanRoleRecord (row : RoleRow) : result RoleRecord :=
  r <-r ScanRole row;; Ok (mkRoleRecord r (c_source row)).

(** Draining rows: the first row that does not scan fails the whole read. *)
Fixpoint scan_all {R A} (scan : R → result A) (rows : list R) : result (list A) :=
  match rows with
  | [] => Ok []
  | row :: rows => a <-r scan row;; l <-r scan_all scan rows;; Ok (a :: l)
  end.

Definition ScanRoles : list RoleRow → result (list Role) := scan_all ScanRole.
Definition ScanRoleRecords : list RoleRow → result (list RoleRecord) := scan_all ScanRoleRecord.

Definition RoleInsertArgs (r : Role) (updatedAt source : string) : result RoleRow :=
  allowed <-r EncodeStrings (AllowedPrincipals r);;
  hosts <-r EncodeStrings (HostPatterns r);;
  spiffe <-r EncodeStrings (SPIFFEPatterns r);;
  exts <-r EncodeMap (DefaultExtensions r);;
  Ok (mkRoleRow (Policy.Name r) (GroupClaim r) allowed hosts spiffe exts
        (MaxUserCertTTLSeconds r) (MaxHostCertTTLSeconds r) (MaxX509CertTTLSeconds r)
        updatedAt source).

(** ** Principals *)

Record PrincipalRow := mkPrincipalRow {
  c_san : string;
  c_pname : string;
  c_groups : string;
  c_pupdated_at : string;
  c_psource : string;
}.

Record PrincipalRecord := mkPrincipalRecord { RecPrincipal : Principal; RecPSource : string }.

#[export] Instance PrincipalRecord_eq_dec : EqDecision PrincipalRecord.
Proof. solve_decision. Defined.

Definition ScanPrincipal (row : PrincipalRow) : result Principal :=
  groups <-r DecodeStrings (c_groups row);; Ok (mkPrincipal (c_pname row) (c_san row) groups).

Definition ScanPrincipalRecord (row : PrincipalRow) : result PrincipalRecord :=
  p <-r ScanPrincipal row;; Ok (mkPrincipalRecord p (c_psource row)).

Definition ScanPrincipals : list PrincipalRow → result (list Principal) := scan_all ScanPrincipal.
Definition ScanPrincipalRecords : list PrincipalRow → result (list PrincipalRecord) :=
  scan_all ScanPrincipalRecord.

Definition PrincipalInsertArgs (p : Principal) (updatedAt source : string) : result PrincipalRow :=
  groups <-r EncodeStrings (Mtls.Groups p);;
  Ok (mkPrincipalRow (MatchedSAN p) (PName p) groups updatedAt source).

(** ** Revocations *)

Record RevocationRow := mkRevocationRow {
  c_serial : option string;
  c_key_id : option string;
  c_reason : string;
  c_revoker : string;
  c_revoked_at : string;
}.

Definition ScanRevocation (row : RevocationRow) : result Revocation :=
  serial <-r match c_serial row with
    | Some s => if str_empty s then Ok 0 else ParseUint s
    | None => Ok 0
    end;;
  let keyID := default "" (c_key_id row) in
  revoked <-r (if str_empty (c_revoked_at row) then Ok zero_time
               else parse_rfc3339nano (c_revoked_at row));;
  Ok (mkRevocation serial keyID (c_reason row) (c_revoker row) revoked).

Definition ScanRevocations : list RevocationRow → result (list Revocation) := scan_all ScanRevocation.

Definition RevocationInsertArgs (r : Revocation) : RevocationRow :=
  mkRevocationRow
    (if negb (Serial r =? 0) then Some (FormatUint (Serial r)) else None)
    (if negb (str_empty (KeyID r)) then Some (KeyID r) else None)
    (Reason r) (Revoker r) (format_rfc3339nano (Revoked r)).

(** ** Active workload certificates *)

Record ActiveCert := mkActiveCert {
  Identity : string;
  CurrentSerial : string;
  CurrentNotAfter : time;
  PreviousSerial : string;
  PreviousNotAfter : time;
  LockedAt : time;
  LockedSerial : string;
}.

#[export] Instance ActiveCert_eq_dec : EqDecision ActiveCert.
Proof. solve_decision. Defined.

Record ActiveCertRow := mkActiveCertRow {
  c_identity : string;
  c_current_serial : string;
  c_current_not_after : string;
  c_previous_serial : option string;
  c_previous_not_after : option string;
  c_locked_at : option string;
  c_locked_serial : option string;
}.

(** A NULL or empty instant is the zero time. *)
Definition scan_time (c : option string) : result time :=
  match c with
  | Some s => if str_empty s then Ok zero_time else parse_rfc3339nano s
  | None => Ok zero_time
  end.

Definition ScanActiveCert (row : ActiveCertRow) : result ActiveCert :=
  cur <-r parse_rfc3339nano (c_current_not_after row);;
  lockedAt <-r scan_time (c_locked_at row);;
  prev <-r scan_time (c_previous_not_after row);;
  Ok (mkActiveCert (c_identity row) (c_current_serial row) cur
        (default "" (c_previous_serial row)) prev
        lockedAt (default "" (c_locked_serial row))).

(** The columns the upsert writes; the lock columns are not among them. *)
Definition ActiveCertUpsertArgs (ac : ActiveCert) : ActiveCertRow :=
  mkActiveCertRow (Identity ac) (CurrentSerial ac) (format_rfc3339nano (CurrentNotAfter ac))
    (if str_empty (PreviousSerial ac) then None else Some (PreviousSerial ac))
    (if time_is_zero (PreviousNotAfter ac) then None
     else Some (format_rfc3339nano (PreviousNotAfter ac)))
    None None.

(** ** The row mappings lose nothing *)

Definition strings_ok (l : list string) : Prop := Forall (λ s, utf8_valid s = true) l.

Definition role_ok (r : Role) : Prop :=
  strings_ok (AllowedPrincipals r) ∧ strings_ok (HostPatterns r) ∧ strings_ok (SPIFFEPatterns r) ∧
  (∀ k v, DefaultExtensions r !! k = Some v → pair_valid (k, v)).

Lemma DecodeJSON_text {A} (z : A) u s : s ≠ "" → s ≠ "null" → DecodeJSON z u s = u s.
Proof. intros ? ?. unfold DecodeJSON, str_empty. by rewrite !bool_decide_false. Qed.

Lemma Decode_Encode_strings l :
  strings_ok l → ∃ t, EncodeStrings l = Ok t ∧ DecodeStrings t = Ok l.
Proof.
  intros Hl. destruct (Unmarshal_Marshal_strings l Hl) as (t & Ht & Hu & He & Hn).
  exists t. split; [done|]. unfold DecodeStrings. by rewrite DecodeJSON_text.
Qed.

Lemma Decode_Encode_map m :
  (∀ k v, m !! k = Some v → pair_valid (k, v)) →
  ∃ t, EncodeMap m = Ok t ∧ DecodeMap t = Ok m.
Proof.
  intros Hm. destruct (Unmarshal_Marshal_map m Hm) as (t & Ht & Hu & He & Hn).
  exists t. split; [done|]. unfold DecodeMap. by rewrite DecodeJSON_text.
Qed.

Lemma role_row_roundtrip r at_ src :
  role_ok r → ∃ row, RoleInsertArgs r at_ src = Ok row ∧
    ScanRoleRecord row = Ok (mkRoleRecord r src) ∧ c_name row = Policy.Name r ∧
    c_group_claim row = GroupClaim r.
Proof.
  intros (Ha & Hh & Hs & He).
  destruct (Decode_Encode_strings _ Ha) as (ta & Ea & Da).
  destruct (Decode_Encode_strings _ Hh) as (th & Eh & Dh).
  destruct (Decode_Encode_strings _ Hs) as (ts & Es & Ds).
  destruct (Decode_Encode_map _ He) as (te & Ee & De).
  unfold RoleInsertArgs. rewrite Ea, Eh, Es, Ee. simpl. eexists. split; [done|].
  unfold ScanRoleRecord, ScanRole. simpl. rewrite Da, Dh, Ds, De. simpl.
  by destruct r.
Qed.

Lemma principal_row_roundtrip p at_ src :
  strings_ok (Mtls.Groups p) → ∃ row, PrincipalInsertArgs p at_ src = Ok row ∧
    ScanPrincipalRecord row = Ok (mkPrincipalRecord p src) ∧ c_san row = MatchedSAN p.
Proof.
  intros Hg. destruct (Decode_Encode_strings _ Hg) as (t & E & D).
  unfold PrincipalInsertArgs. rewrite E. simpl. eexists. split; [done|].
  unfold ScanPrincipalRecord, ScanPrincipal. simpl. rewrite D. simpl. by destruct p.
Qed.

Lemma format_nano_nonempty t : format_rfc3339nano t ≠ "".
Proof.
  unfold format_rfc3339nano, append_rfc3339. destruct (civil_from_days _) as [[y m] d].
  cbn [pad]. done.
Qed.

Lemma scan_time_format t : year_ok t → scan_time (Some (format_rfc3339nano t)) = Ok t.
Proof.
  intros Ht. unfold scan_time, str_empty. rewrite bool_decide_false by apply format_nano_nonempty.
  by apply parse_format_nano.
Qed.

Lemma revocation_row_roundtrip r :
  uint64_ok (Serial r) → year_ok (Revoked r) → ScanRevocation (RevocationInsertArgs r) = Ok r.
Proof.
  intros Hs Ht. unfold ScanRevocation, RevocationInsertArgs. simpl.
  pose proof (scan_time_format _ Ht) as Hp. simpl in Hp. rewrite Hp.
  assert (default "" (if negb (str_empty (KeyID r)) then Some (KeyID r) else None) = KeyID r) as ->.
  { unfold str_empty. case_bool_decide as E; simpl; congruence. }
  destruct (Z.eqb_spec (Serial r) 0) as [E|E]; simpl.
  - destruct r; simpl in *; by subst.
  - unfold str_empty. rewrite bool_decide_false by apply FormatUint_nonempty.
    rewrite ParseUint_FormatUint by done. simpl. by destruct r.
Qed.

(** The row an issuance writes for an unlocked identity, read back. *)
Definition with_lock (ac : ActiveCert) (at_ : time) (serial : string) : ActiveCert :=
  mkActiveCert (Identity ac) (CurrentSerial ac) (CurrentNotAfter ac)
    (PreviousSerial ac) (PreviousNotAfter ac) at_ serial.

Lemma active_cert_row_roundtrip ac :
  year_ok (CurrentNotAfter ac) → year_ok (PreviousNotAfter ac) →
  ScanActiveCert (ActiveCertUpsertArgs ac) = Ok (with_lock ac zero_time "").
Proof.
  intros Hc Hp. unfold ScanActiveCert, ActiveCertUpsertArgs.
  cbn [c_current_not_after c_locked_at c_previous_not_after c_previous_serial c_locked_serial
       c_identity c_current_serial].
  rewrite parse_format_nano by done. cbn [rbind scan_time].
  assert (scan_time (if time_is_zero (PreviousNotAfter ac) then None
    else Some (format_rfc3339nano (PreviousNotAfter ac))) = Ok (PreviousNotAfter ac)) as ->.
  { unfold time_is_zero. destruct (Z.eqb_spec (PreviousNotAfter ac) zero_time) as [->|]; [done|].
    by apply scan_time_format. }
  simpl. unfold str_empty, with_lock. by case_bool_decide as E; simpl; [rewrite <- E|].
Qed.

(** ** The active-cert interface

    [Get]/[Upsert]/[Delete]/[Lock]/[AdoptCurrent] over a store of type [S]; the
    clock is an argument of [Lock].  [view] is the table the store represents.
    Every operation either does what it says or reports an error; after an error
    the table may or may not have been changed by it (a reply can be lost after the
    statement took effect), and nothing else changed. *)
Class ActiveCertStore (S : Type) := {
  Get : string → M S (option ActiveCert);
  Upsert : ActiveCert → M S unit;
  Delete : string → M S unit;
  Lock : time → string → string → M S unit;
  AdoptCurrent : string → string → M S bool;
}.

Definition locked (ac : ActiveCert) : bool := negb (time_is_zero (LockedAt ac)).

Abbreviation table := (gmap string ActiveCert) (only parsing).

Definition spec_upsert (ac : ActiveCert) (t : table) : table :=
  match t !! Identity ac with
  | Some old => <[Identity ac := with_lock ac (LockedAt old) (LockedSerial old)]> t
  | None => <[Identity ac := with_lock ac zero_time ""]> t
  end.

Definition spec_lock (now : time) (id serial : string) (t : table) : table :=
  match t !! id with
  | Some ac => <[id := with_lock ac (truncate_second now) serial]> t
  | None => t
  end.

Definition collapse (ac : ActiveCert) : ActiveCert :=
  mkActiveCert (Identity ac) (CurrentSerial ac) (CurrentNotAfter ac) "" zero_time
    (LockedAt ac) (LockedSerial ac).

Definition adoptable (id serial : string) (t : table) : bool :=
  match t !! id with
  | Some ac => bool_decide (CurrentSerial ac = serial) && negb (locked ac)
  | None => false
  end.

Definition spec_adopt (id serial : string) (t : table) : table :=
  if adoptable id serial t then
    match t !! id with Some ac => <[id := collapse ac]> t | None => t end
  else t.

(** What a mutation may do to the table: succeed, or fail before or after its
    effect. *)
Definition outcome {A} (r : result A) (old next cur : table) : Prop :=
  match r with
  | Ok _ => cur = next
  | Err _ => cur = old ∨ cur = next
  end.

(** Instants the TEXT columns can hold, and a clock after the epoch. *)
Definition active_cert_ok (ac : ActiveCert) : Prop :=
  year_ok (CurrentNotAfter ac) ∧ year_ok (PreviousNotAfter ac).
Definition clock_ok (now : time) : Prop := 0 ≤ now ∧ year_ok now.

Class ActiveCertLaws (S : Type) `{ActiveCertStore S} := {
  ac_ok : S → Prop;
  ac_view : S → table;
  get_spec id s r s' :
    ac_ok s → Get id s = (r, s') →
    ac_ok s' ∧ ac_view s' = ac_view s ∧ (∀ o, r = Ok o → o = ac_view s !! id);
  upsert_spec ac s r s' :
    ac_ok s → active_cert_ok ac → Upsert ac s = (r, s') →
    ac_ok s' ∧ outcome r (ac_view s) (spec_upsert ac (ac_view s)) (ac_view s');
  delete_spec id s r s' :
    ac_ok s → Delete id s = (r, s') →
    ac_ok s' ∧ outcome r (ac_view s) (delete id (ac_view s)) (ac_view s');
  lock_spec now id serial s r s' :
    ac_ok s → clock_ok now → Lock now id serial s = (r, s') →
    ac_ok s' ∧ outcome r (ac_view s) (spec_lock now id serial (ac_view s)) (ac_view s');
  adopt_spec id serial s r s' :
    ac_ok s → AdoptCurrent id serial s = (r, s') →
    ac_ok s' ∧ outcome r (ac_view s) (spec_adopt id serial (ac_view s)) (ac_view s') ∧
    (∀ b, r = Ok b → b = adoptable id serial (ac_view s));
}.

(** An identity that a lock left behind is locked. *)
Lemma lock_locked now : clock_ok now → truncate_second now ≠ zero_time.
Proof.
  intros [H0 _]. unfold truncate_second. pose proof (Z.div_pos now ns_per_sec H0 ltac:(done)).
  unfold zero_time, ns_per_sec in *. lia.
Qed.
