(* ===== verification/Sql.v ===== *)
(** * Sql: statements, failures and transactions

    The database as the stores see it through [database/sql]: a table, and a
    script of faults.  Each statement (and each [BEGIN], [COMMIT] and [ROLLBACK])
    consumes one element of the script: it runs, or the request is lost before it
    takes effect, or it takes effect and the reply is lost.  [inTx] models the
    helper of that name in [internal/store/sqlite/sqlite.go] and
    [internal/store/postgres/postgres.go].

    Operations run one after the other: the SQLite handle has one connection, and
    on PostgreSQL the primary keys and unique indexes, which the inserts below
    enforce, are what protects concurrent writers. *)

From S2P Require Import Prelude.

Inductive fault := NoFault | Lost (e : error) | LostReply (e : error).

Record db (T : Type) := mkDb { data : T; faults : list fault }.
Arguments mkDb {T} data faults.
Arguments data {T} d.
Arguments faults {T} d.

(** A fault of the script carries this error. *)
Definition injected {T} (e : error) (d : db T) : Prop :=
  Lost e ∈ faults d ∨ LostReply e ∈ faults d.

Section Ops.
Context {T : Type}.

(** One statement outside a transaction, or inside one on its working copy. *)
Definition stmt {A} (f : M T A) : M (db T) A := λ d,
  match faults d with
  | Lost e :: fs => (Err e, mkDb (data d) fs)
  | LostReply e :: fs => (Err e, mkDb (snd (f (data d))) fs)
  | fs => let '(r, t) := f (data d) in (r, mkDb t (tail fs))
  end.

Definition begin_tx : M (db T) unit := stmt (mret tt).

(** [inTx]: the body works on a copy; an error rolls back, and the outcome of the
    rollback itself is ignored.  A lost reply to [COMMIT] leaves it committed. *)
Definition inTx {A} (body : M (db T) A) : M (db T) A := λ d,
  match begin_tx d with
  | (Err e, d1) => (Err e, d1)
  | (Ok _, d1) =>
      match body d1 with
      | (Err e, d2) => (Err e, mkDb (data d1) (tail (faults d2)))
      | (Ok a, d2) =>
          match faults d2 with
          | Lost e :: fs => (Err e, mkDb (data d1) fs)
          | LostReply e :: fs => (Err e, mkDb (data d2) fs)
          | fs => (Ok a, mkDb (data d2) (tail fs))
          end
      end
  end.

(** ** What a database operation implements

    [implements m f]: without a fault, [m] is the function [f] on the table; with
    one, it reports the injected error. *)
Definition implements {A} (m : M (db T) A) (f : M T A) : Prop := ∀ d r d',
  m d = (r, d') →
  faults d' `suffix_of` faults d ∧
  ((r, data d') = f (data d) ∨ ∃ e, r = Err e ∧ injected e d).

(** [atomic m f]: and moreover the table is either untouched or fully updated. *)
Definition atomic {A} (m : M (db T) A) (f : M T A) : Prop := ∀ d r d',
  m d = (r, d') →
  faults d' `suffix_of` faults d ∧
  ((r, data d') = f (data d) ∨
   ∃ e, r = Err e ∧ injected e d ∧
     (data d' = data d ∨ (is_ok (fst (f (data d))) = true ∧ data d' = snd (f (data d))))).

(** The table function of a transaction: a failing body changes nothing. *)
Definition rollback {A} (f : M T A) : M T A := λ t,
  match f t with (Ok a, t') => (Ok a, t') | (Err e, _) => (Err e, t) end.

Lemma tail_suffix (fs : list fault) : tail fs `suffix_of` fs.
Proof. destruct fs as [|f fs]; [done|]. by exists [f]. Qed.

Lemma injected_suffix {U} e (d d' : db U) :
  faults d' `suffix_of` faults d → injected e d' → injected e d.
Proof. intros [l Hl] [?|?]; [left|right]; rewrite Hl; apply elem_of_app; by right. Qed.

Lemma stmt_cases {A} (f : M T A) d r d' :
  stmt f d = (r, d') →
  faults d' `suffix_of` faults d ∧
  ((r, data d') = f (data d) ∨
   ∃ e, r = Err e ∧ injected e d ∧ (data d' = data d ∨ data d' = snd (f (data d)))).
Proof.
  unfold stmt, injected. destruct (faults d) as [|[|e|e] fs] eqn:E.
  - destruct (f (data d)) as [r' t]. intros [= <- <-]. simpl. split; [by exists []|by left].
  - destruct (f (data d)) as [r' t]. intros [= <- <-]. simpl. split; [by exists [NoFault]|by left].
  - intros [= <- <-]. simpl. split; [by exists [Lost e]|]. right. exists e.
    split_and!; [done|left; by left|by left].
  - intros [= <- <-]. simpl. split; [by exists [LostReply e]|]. right. exists e.
    split_and!; [done|right; by left|by right].
Qed.

(** A statement that does not change the state leaves it, whatever it reports. *)
Lemma stmt_reads {A} (f : M T A) d r d' :
  (∀ s, (f s).2 = s) → stmt f d = (r, d') → data d' = data d.
Proof.
  intros Hf E. apply stmt_cases in E as [_ [E|(e & _ & _ & [Hd|Hd])]]; [|done|by rewrite Hd, Hf].
  rewrite <- (Hf (data d)), <- E. done.
Qed.

Lemma implements_stmt {A} (f : M T A) : implements (stmt f) f.
Proof.
  intros d r d' (Hs & [?|(e & ? & ? & _)])%stmt_cases; (split; [done|]); [by left|].
  right. by exists e.
Qed.

(** A single statement is atomic when its own errors leave the table alone. *)
Lemma atomic_stmt {A} (f : M T A) :
  (∀ t e, fst (f t) = Err e → snd (f t) = t) → atomic (stmt f) f.
Proof.
  intros Hf d r d' (Hs & H)%stmt_cases. split; [done|].
  destruct H as [?|(e & ? & ? & Hd)]; [by left|]. right. exists e. split_and!; [done|done|].
  destruct (fst (f (data d))) as [a|e'] eqn:E; [|left; rewrite (Hf _ _ E) in Hd; by destruct Hd].
  destruct Hd; [by left|by right].
Qed.

Lemma implements_ret {A} (a : A) : implements (mret a) (mret a).
Proof. intros d r d' [= <- <-]. split; [by exists []|by left]. Qed.

Lemma implements_fail {A} e : implements (mfail (A:=A) e) (mfail e).
Proof. intros d r d' [= <- <-]. split; [by exists []|by left]. Qed.

Lemma implements_bind {A B} (m : M (db T) A) (f : M T A) (k : A → M (db T) B) (g : A → M T B) :
  implements m f → (∀ a, implements (k a) (g a)) → implements (mbind m k) (mbind f g).
Proof.
  intros Hm Hk d r d'. unfold mbind. destruct (m d) as [[a|e] d1] eqn:E.
  - intros Hd. apply Hm in E as [Hs H1]. apply Hk in Hd as [Hs' H2].
    split; [by etrans|]. destruct H1 as [H1|(e & ? & ?)]; [|done].
    rewrite <- H1. destruct H2 as [H2|(e & ? & ?)]; [by left|].
    right. exists e. split; [done|]. by eapply injected_suffix.
  - intros [= <- <-]. apply Hm in E as [Hs H1]. split; [done|].
    destruct H1 as [H1|(e' & [= <-] & He)]; [left; by rewrite <- H1|right; by exists e].
Qed.

Lemma implements_if {A} (b : bool) (m1 m2 : M (db T) A) f1 f2 :
  implements m1 f1 → implements m2 f2 →
  implements (if b then m1 else m2) (if b then f1 else f2).
Proof. by destruct b. Qed.

(** [inTx] makes any body atomic. *)
Lemma inTx_atomic {A} (body : M (db T) A) (f : M T A) :
  implements body f → atomic (inTx body) (rollback f).
Proof.
  intros Hb d r d'. unfold inTx. destruct (begin_tx d) as [[[]|e] d1] eqn:E1.
  - apply stmt_cases in E1 as [Hs1 H1].
    assert (data d1 = data d) as Hd1 by (destruct H1 as [[=]|(? & ? & _)]; done).
    destruct (body d1) as [[a|e] d2] eqn:E2.
    + apply Hb in E2 as [Hs2 H2]. destruct H2 as [H2|(? & ? & _)]; [|done]. rewrite Hd1 in *.
      assert (faults d2 `suffix_of` faults d) as Hs by (by etrans).
      unfold rollback. rewrite <- H2. simpl.
      destruct (faults d2) as [|[|e|e] fs] eqn:E.
      * intros [= <- <-]. simpl. split; [by apply suffix_nil|by left].
      * intros [= <- <-]. simpl. split; [|by left]. etrans; [|exact Hs]. by exists [NoFault].
      * intros [= <- <-]. simpl. split; [etrans; [|exact Hs]; by exists [Lost e]|]. right.
        exists e. split_and!; [done| |by left]. left. destruct Hs as [l ->]. set_solver.
      * intros [= <- <-]. simpl. split; [etrans; [|exact Hs]; by exists [LostReply e]|]. right.
        exists e. split_and!; [done| |by right]. right. destruct Hs as [l ->]. set_solver.
    + intros [= <- <-]. simpl. apply Hb in E2 as [Hs2 H2]. rewrite Hd1 in *.
      split; [etrans; [apply tail_suffix|]; by etrans|].
      destruct H2 as [H2|(e' & [= <-] & He)].
      * left. unfold rollback. by rewrite <- H2.
      * right. exists e. split_and!; [done| |by left]. by eapply injected_suffix.
  - intros [= <- <-]. apply stmt_cases in E1 as [Hs1 H1]. split; [done|].
    destruct H1 as [[=]|(e' & [= <-] & He & Hd)]. right. exists e.
    split_and!; [done|done|]. left. by destruct Hd.
Qed.

(** With an empty script nothing fails. *)
Lemma atomic_no_fault {A} (m : M (db T) A) f t :
  atomic m f → let '(r, d') := m (mkDb t []) in (r, data d') = f t ∧ faults d' = [].
Proof.
  intros Hm. destruct (m (mkDb t [])) as [r d'] eqn:E. apply Hm in E as [Hs H]. simpl in *.
  split; [|by apply suffix_nil_inv]. destruct H as [?|(e & _ & [He|He] & _)]; [done|..];
    by apply elem_of_nil in He.
Qed.
End Ops.
