(* ===== verification/SqlTable.v ===== *)
(** * SqlTable: the keyed tables of the SQL stores

    The role and principal stores of [internal/store/sqlite] and
    [internal/store/postgres] run the same statements over tables with a text
    primary key.  This file holds those statements and transactions for any row
    type, and shows that they implement the abstract keyed table of [Keyed]:
    every operation behaves as on a finite map, or reports a database error and
    leaves the table untouched or fully updated. *)

From S2P Require Import Prelude Keyed Sql Store.

(** What differs between the two engines: the order of text in [ORDER BY] and the
    place of NULLs.  SQLite compares bytes and puts NULLs first; PostgreSQL puts
    them last and compares with the collation of the database. *)
Record Dialect := mkDialect {
  text_le : string → string → bool;
  nulls_first : bool;
}.

Definition sqlite_dialect : Dialect := mkDialect (λ a b, bool_decide (String.le a b)) true.
Definition postgres_dialect (collation : string → string → bool) : Dialect :=
  mkDialect collation false.

Section Table.
Context {R V : Type}.
(** The key column, the mapping to records and its inverse. *)
Context (rkey : R → string) (vkey : V → string).
Context (scan : R → result V) (insert_args : V → result R).
Context (errKey errExists errMissing : error).

Definition err_unique : error := ErrOpaque "UNIQUE constraint failed".

(** [SELECT 1 FROM … WHERE key = ?] *)
Definition exists_row (k : string) : M (db (list R)) bool :=
  stmt (λ t, (Ok (existsb (λ row, bool_decide (rkey row = k)) t), t)).

(** [INSERT INTO …]; the primary key is enforced. *)
Definition insert_row (row : R) : M (db (list R)) unit :=
  stmt (λ t, if existsb (λ r, bool_decide (rkey r = rkey row)) t
             then (Err err_unique, t) else (Ok tt, t ++ [row])).

(** [DELETE FROM … WHERE key = ?], returning the number of rows. *)
Definition delete_row (k : string) : M (db (list R)) nat :=
  stmt (λ t, (Ok (length (List.filter (λ row, bool_decide (rkey row = k)) t)), delete_rows rkey k t)).

(** [SELECT COUNT( * )] *)
Definition count_rows : M (db (list R)) nat := stmt (λ t, (Ok (length t), t)).

Definition insert_value (v : V) : M (db (list R)) unit :=
  match insert_args v with
  | Err e => mfail e
  | Ok row => insert_row row
  end.

Definition Add (v : V) : M (db (list R)) unit :=
  if str_empty (vkey v) then mfail errKey else
  inTx (ex <-m exists_row (vkey v);;
        if ex : bool then mfail errExists else insert_value v).

Definition Replace (old : string) (v : V) : M (db (list R)) unit :=
  if str_empty (vkey v) then mfail errKey else
  inTx (ex <-m exists_row old;;
        if negb ex then mfail errMissing else
        collide <-m (if negb (bool_decide (vkey v = old)) then exists_row (vkey v) else mret false);;
        if collide : bool then mfail errExists else
        _ <-m delete_row old;; insert_value v).

(** [Delete] runs outside a transaction and counts the affected rows. *)
Definition Delete (k : string) : M (db (list R)) unit :=
  n <-m delete_row k;; if Nat.eqb n 0 then mfail errMissing else mret tt.

(** [SELECT … ORDER BY key] *)
Definition row_le (d : Dialect) (a b : R) : Prop := text_le d (rkey a) (rkey b) = true.

#[export] Instance row_le_dec d a b : Decision (row_le d a b).
Proof. unfold row_le. apply _. Defined.

Definition select_all (d : Dialect) : M (db (list R)) (list R) :=
  stmt (λ t, (Ok (merge_sort (row_le d) t), t)).

(** A read that reports its errors. *)
Definition AllRecords (d : Dialect) : M (db (list R)) (list V) := λ s,
  match select_all d s with
  | (Ok rows, s') => (scan_all scan rows, s')
  | (Err e, s') => (Err e, s')
  end.

(** [SELECT … WHERE key = ?], one row. *)
Definition select_key (k : string) : M (db (list R)) (option R) :=
  stmt (λ t, (Ok (List.find (λ row, bool_decide (rkey row = k)) t), t)).

Definition find_key (k : string) : M (db (list R)) (option V) := λ s,
  match select_key k s with
  | (Ok (Some row), s') => (v <-r scan row;; Ok (Some v), s')
  | (Ok None, s') => (Ok None, s')
  | (Err e, s') => (Err e, s')
  end.

(** ** The table as a finite map *)

(** Every row reads back, under the key it is stored by. *)
Definition row_ok (row : R) : Prop := ∃ v, scan row = Ok v ∧ vkey v = rkey row.
Definition tbl_ok (t : list R) : Prop := keys_unique rkey t ∧ Forall row_ok t.

Definition records (t : list R) : list V :=
  omap (λ row, match scan row with Ok v => Some v | Err _ => None end) t.

Definition view (t : list R) : gmap string V := to_map vkey (records t).

(** The records a row can hold. *)
Context (vok : V → Prop).
Hypothesis insert_scan : ∀ v, vok v →
  ∃ row, insert_args v = Ok row ∧ scan row = Ok v ∧ rkey row = vkey v.

Lemma records_app t1 t2 : records (t1 ++ t2) = records t1 ++ records t2.
Proof. apply omap_app. Qed.

Lemma records_cons row v t : scan row = Ok v → records (row :: t) = v :: records t.
Proof. intros E. unfold records. simpl. by rewrite E. Qed.

Lemma records_keys t : Forall row_ok t → vkey <$> records t = rkey <$> t.
Proof.
  induction 1 as [|row t (v & Hv & Hk) Ht IH]; [done|].
  rewrite (records_cons row v) by done. rewrite !fmap_cons. by rewrite IH, Hk.
Qed.

Lemma records_unique t : tbl_ok t → keys_unique vkey (records t).
Proof. intros [Hu Ht]. unfold keys_unique. by rewrite records_keys. Qed.

Lemma records_delete k t :
  Forall row_ok t → records (delete_rows rkey k t) = delete_rows vkey k (records t).
Proof.
  induction 1 as [|row t (v & Hv & Hk) Ht IH]; [done|].
  rewrite (records_cons row v) by done. unfold delete_rows in *. cbn [List.filter]. rewrite Hk.
  destruct (bool_decide (rkey row = k)); cbn [negb]; [done|].
  rewrite (records_cons row v) by done. by rewrite IH.
Qed.

Lemma exists_row_view k t :
  Forall row_ok t →
  existsb (λ row, bool_decide (rkey row = k)) t = bool_decide (is_Some (view t !! k)).
Proof.
  intros Ht. apply eq_true_iff_eq. rewrite existsb_exists, bool_decide_eq_true.
  unfold view. rewrite to_map_is_Some. setoid_rewrite bool_decide_eq_true. split.
  - intros (row & Hin & Hk). assert (k ∈ vkey <$> records t) as He.
    { rewrite records_keys by done. rewrite <- Hk. by apply list_elem_of_fmap_2, list_elem_of_In. }
    apply list_elem_of_fmap in He as (v & -> & ?). by exists v.
  - intros (v & Hin & Hk). assert (k ∈ rkey <$> t) as He.
    { rewrite <- records_keys by done. rewrite <- Hk. by apply list_elem_of_fmap_2. }
    apply list_elem_of_fmap in He as (row & -> & ?). exists row. by rewrite <- list_elem_of_In.
Qed.

Lemma tbl_ok_delete k t : tbl_ok t → tbl_ok (delete_rows rkey k t).
Proof.
  intros [Hu Ht]. split; [by apply keys_unique_filter|].
  apply Forall_forall. intros row [Hrow _]%elem_of_delete_rows. by eapply Forall_forall in Ht.
Qed.

Lemma tbl_ok_snoc t row v :
  tbl_ok t → scan row = Ok v → rkey row = vkey v → view t !! vkey v = None →
  tbl_ok (t ++ [row]) ∧ view (t ++ [row]) = <[vkey v := v]> (view t).
Proof.
  intros Ht Hs Hk Hn. pose proof (records_unique t Ht) as Hu. split; [split|].
  - apply keys_unique_snoc; [apply Ht|]. rewrite Hk. apply eq_None_not_Some. intros Hsome.
    apply eq_None_not_Some in Hn. apply Hn. unfold view.
    apply to_map_is_Some in Hsome as (row' & Hin & E). apply to_map_is_Some.
    assert (vkey v ∈ vkey <$> records t) as He.
    { rewrite records_keys by apply Ht. rewrite <- E. by apply list_elem_of_fmap_2. }
    apply list_elem_of_fmap in He as (v' & Ev & ?). exists v'. by rewrite <- Ev.
  - apply Forall_app. split; [apply Ht|]. constructor; [by exists v|constructor].
  - unfold view. rewrite records_app, (records_cons row v []) by done.
    by apply to_map_snoc.
Qed.

Lemma view_delete k t : tbl_ok t → view (delete_rows rkey k t) = delete k (view t).
Proof.
  intros Ht. unfold view. rewrite records_delete by apply Ht.
  apply to_map_delete_rows. by apply records_unique.
Qed.

(** ** Refinement

    [refines m spec]: on a well-formed table, [m] does what [spec] does to the
    finite map it represents, error for error; a database fault is reported and
    leaves the map either as it was or fully updated. *)
Definition refines (m : M (db (list R)) unit) (spec : M (gmap string V) unit) : Prop :=
  ∀ d r d', tbl_ok (data d) → m d = (r, d') →
  tbl_ok (data d') ∧
  ((r, view (data d')) = spec (view (data d)) ∨
   ∃ e, r = Err e ∧ injected e d ∧
     (view (data d') = view (data d) ∨
      (is_ok (fst (spec (view (data d)))) = true ∧ view (data d') = snd (spec (view (data d)))))).

Definition tbl_simulates (f : M (list R) unit) (spec : M (gmap string V) unit) : Prop :=
  ∀ t, tbl_ok t → tbl_ok (snd (f t)) ∧ (fst (f t), view (snd (f t))) = spec (view t).

Lemma atomic_refines m f spec : atomic m f → tbl_simulates f spec → refines m spec.
Proof.
  intros Ha Hf d r d' Ht E. apply Ha in E as [_ H]. destruct (Hf _ Ht) as [Hok Heq].
  destruct (f (data d)) as [rf tf]. simpl in *. rewrite <- Heq. simpl.
  destruct H as [[= -> ->]|(e & -> & He & [Hd|[Hi Hd]])].
  - split; [done|by left].
  - rewrite Hd. split; [done|]. right. exists e. split_and!; [done|done|by left].
  - rewrite Hd. split; [done|]. right. exists e. split_and!; [done|done|]. right. done.
Qed.

(** The table function of [insert_value]. *)
Definition insert_fn (v : V) : M (list R) unit :=
  match insert_args v with
  | Err e => mfail e
  | Ok row => λ t, if existsb (λ r, bool_decide (rkey r = rkey row)) t
                   then (Err err_unique, t) else (Ok tt, t ++ [row])
  end.

Lemma implements_insert v : implements (insert_value v) (insert_fn v).
Proof.
  unfold insert_value, insert_fn. destruct (insert_args v); [apply implements_stmt|apply implements_fail].
Qed.

Lemma insert_fn_fresh v t :
  vok v → tbl_ok t → view t !! vkey v = None →
  fst (insert_fn v t) = Ok tt ∧ tbl_ok (snd (insert_fn v t)) ∧
  view (snd (insert_fn v t)) = <[vkey v := v]> (view t).
Proof.
  intros Hv Ht Hn. destruct (insert_scan v Hv) as (row & Hr & Hs & Hk).
  unfold insert_fn. rewrite Hr. rewrite exists_row_view, Hk, Hn by apply Ht.
  rewrite bool_decide_false by (by intros [? [=]]). simpl. split; [done|].
  by apply tbl_ok_snoc.
Qed.

Lemma Add_refines v : vok v → refines (Add v) (spec_add vkey errKey errExists v).
Proof.
  intros Hv. unfold Add, spec_add. destruct (str_empty (vkey v)).
  { intros d r d' Ht [= <- <-]. split; [done|by left]. }
  eapply atomic_refines.
  { apply inTx_atomic. eapply implements_bind; [apply implements_stmt|].
    intros ex. apply implements_if; [apply implements_fail|apply implements_insert]. }
  intros t Ht. unfold rollback.
  erewrite mbind_Ok by (by rewrite exists_row_view by apply Ht).
  destruct (view t !! vkey v) as [w|] eqn:E.
  - rewrite bool_decide_true by done. simpl. done.
  - rewrite bool_decide_false by (by intros [? [=]]).
    destruct (insert_fn_fresh v t Hv Ht E) as (Hi & Hok & Hview).
    destruct (insert_fn v t) as [r t']. simpl in *. subst r. simpl. by rewrite Hview.
Qed.

Lemma Replace_refines old v :
  vok v → refines (Replace old v) (spec_replace vkey errKey errExists errMissing old v).
Proof.
  intros Hv. unfold Replace, spec_replace. destruct (str_empty (vkey v)).
  { intros d r d' Ht [= <- <-]. split; [done|by left]. }
  eapply atomic_refines.
  { apply inTx_atomic. eapply implements_bind; [apply implements_stmt|]. intros ex.
    apply implements_if; [apply implements_fail|].
    eapply implements_bind; [apply implements_if; [apply implements_stmt|apply implements_ret]|].
    intros collide. apply implements_if; [apply implements_fail|].
    eapply implements_bind; [apply implements_stmt|]. intros n. apply implements_insert. }
  intros t Ht. unfold rollback.
  erewrite mbind_Ok by (by rewrite exists_row_view by apply Ht).
  destruct (view t !! old) as [w|] eqn:E; cycle 1.
  { by rewrite bool_decide_false by (by intros [? [=]]). }
  rewrite bool_decide_true by done. cbn [negb].
  rewrite (mbind_Ok _ _ t
    (negb (bool_decide (vkey v = old)) && bool_decide (is_Some (view t !! vkey v))) t); cycle 1.
  { destruct (bool_decide (vkey v = old)); simpl; [done|]. by rewrite exists_row_view by apply Ht. }
  destruct (negb (bool_decide (vkey v = old)) && bool_decide (is_Some (view t !! vkey v))) eqn:Ec; [done|].
  erewrite mbind_Ok by done. pose proof (tbl_ok_delete old t Ht) as Hd.
  assert (view (delete_rows rkey old t) !! vkey v = None) as Hn.
  { rewrite view_delete by done. destruct (decide (old = vkey v)) as [->|Hne]; [apply lookup_delete_eq|].
    rewrite lookup_delete_ne by done. rewrite bool_decide_false in Ec by done. simpl in Ec.
    apply bool_decide_eq_false in Ec. by apply eq_None_not_Some. }
  destruct (insert_fn_fresh v _ Hv Hd Hn) as (Hi & Hok & Hview).
  destruct (insert_fn v (delete_rows rkey old t)) as [r t']. simpl in *. subst r. simpl.
  by rewrite Hview, view_delete.
Qed.

Lemma Delete_refines k : refines (Delete k) (spec_delete errMissing k).
Proof.
  intros d r d' Ht. unfold Delete, spec_delete, mbind.
  destruct (delete_row k d) as [[n|e] d1] eqn:Es; apply stmt_cases in Es as [_ H].
  - destruct H as [[= -> Hd]|(? & [=] & _)].
    assert (Nat.eqb (length (List.filter (λ row, bool_decide (rkey row = k)) (data d))) 0 =
      bool_decide (view (data d) !! k = None)) as ->.
    { pose proof (exists_row_view k (data d) ltac:(apply Ht)) as Hx.
      destruct (view (data d) !! k) eqn:Ev.
      - rewrite bool_decide_true in Hx by done. rewrite bool_decide_false by done.
        apply existsb_exists in Hx as (row & Hin & Hk). apply Nat.eqb_neq. intros Hl.
        apply length_zero_iff_nil in Hl.
        assert (In row (List.filter (λ row, bool_decide (rkey row = k)) (data d))) as Hf
          by (by apply List.filter_In). by rewrite Hl in Hf.
      - rewrite bool_decide_false in Hx by (by intros [? [=]]). rewrite bool_decide_true by done.
        rewrite filter_none; [done|]. intros row Hrow%list_elem_of_In.
        destruct (bool_decide (rkey row = k)) eqn:Ek; [|done].
        rewrite <- not_true_iff_false in Hx. destruct Hx. apply existsb_exists. by exists row. }
    assert (tbl_ok (data d1) ∧ view (data d1) = delete k (view (data d))) as [Hok1 Hv1]
      by (rewrite Hd; split; [by apply tbl_ok_delete|by apply view_delete]).
    destruct (view (data d) !! k) as [w|] eqn:Ev.
    + rewrite bool_decide_false by done. intros [= <- <-]. split; [done|]. left. by rewrite Hv1.
    + rewrite bool_decide_true by done. intros [= <- <-]. split; [done|]. left.
      by rewrite Hv1, delete_id.
  - intros [= <- <-].
    destruct H as [[=]|(e' & [= <-] & He & Hd)].
    assert (tbl_ok (data d1) ∧
      (view (data d1) = view (data d) ∨ view (data d1) = delete k (view (data d)))) as [Hok Hv].
    { destruct Hd as [->| ->]; [by split; [|left]|]. simpl.
      split; [by apply tbl_ok_delete|right; by apply view_delete]. }
    split; [done|]. right. exists e. split_and!; [done|done|].
    destruct (view (data d) !! k) as [w|] eqn:Ev.
    + destruct Hv; [by left|by right].
    + left. destruct Hv as [|Hv]; [done|]. by rewrite Hv, delete_id.
Qed.

(** ** Reads *)

Lemma view_find k t :
  tbl_ok t →
  match List.find (λ row, bool_decide (rkey row = k)) t with
  | Some row => ∃ v, scan row = Ok v ∧ view t !! k = Some v
  | None => view t !! k = None
  end.
Proof.
  intros Ht. destruct (List.find _ t) as [row|] eqn:E.
  - apply List.find_some in E as [Hin Hk%bool_decide_eq_true].
    apply list_elem_of_In in Hin. destruct Ht as [Hu Hf].
    pose proof Hf as Hrow. rewrite Forall_forall in Hrow. destruct (Hrow _ Hin) as (v & Hv & Hkv).
    exists v. split; [done|]. unfold view.
    apply to_map_Some; [by apply records_unique|]. split; [|congruence].
    unfold records. apply list_elem_of_omap. exists row. by rewrite Hv.
  - apply eq_None_not_Some. pose proof (exists_row_view k t ltac:(apply Ht)) as Hx.
    apply (bool_decide_eq_false (is_Some (view t !! k))). rewrite <- Hx.
    apply not_true_iff_false. intros Hex.
    apply existsb_exists in Hex as (row & Hin & Hk). eapply List.find_none in E; [|done].
    simpl in *. congruence.
Qed.

Lemma find_key_spec k d r d' :
  tbl_ok (data d) → find_key k d = (r, d') →
  data d' = data d ∧ (r = Ok (view (data d) !! k) ∨ ∃ e, r = Err e ∧ injected e d).
Proof.
  intros Ht. unfold find_key. destruct (select_key k d) as [[[row|]|e] d1] eqn:Es;
    apply stmt_cases in Es as [_ H]; intros [= <- <-]; pose proof (view_find k _ Ht) as Hf.
  - destruct H as [[= E Hd]|(? & [=] & _)]. split; [done|]. left. rewrite <- E in Hf.
    destruct Hf as (v & Hv & ->). by rewrite Hv.
  - destruct H as [[= E Hd]|(? & [=] & _)]. split; [done|]. left. rewrite <- E in Hf. by rewrite Hf.
  - destruct H as [[=]|(e' & [= <-] & He & Hd)]. split; [by destruct Hd|]. right. by exists e.
Qed.

Lemma scan_all_records t : Forall row_ok t → scan_all scan t = Ok (records t).
Proof.
  induction 1 as [|row t (v & Hv & Hk) Ht IH]; [done|].
  cbn [scan_all]. rewrite Hv. cbn [rbind]. rewrite IH. by rewrite (records_cons row v).
Qed.

Lemma records_perm t1 t2 : t1 ≡ₚ t2 → records t1 ≡ₚ records t2.
Proof. intros Hp. unfold records. by rewrite Hp. Qed.

Lemma AllRecords_spec dl d r d' :
  tbl_ok (data d) → AllRecords dl d = (r, d') →
  data d' = data d ∧
  ((∃ l, r = Ok l ∧ l ≡ₚ records (data d)) ∨ ∃ e, r = Err e ∧ injected e d).
Proof.
  intros Ht. unfold AllRecords. destruct (select_all dl d) as [[rows|e] d1] eqn:Es;
    apply stmt_cases in Es as [_ H]; intros [= <- <-].
  - destruct H as [[= E Hd]|(? & [=] & _)]. split; [done|]. left.
    assert (rows ≡ₚ data d) as Hp by (rewrite E; apply merge_sort_Permutation).
    exists (records rows). split; [|by apply records_perm].
    apply scan_all_records. rewrite Hp. apply Ht.
  - destruct H as [[=]|(e' & [= <-] & He & Hd)]. split; [by destruct Hd|]. right. by exists e.
Qed.
End Table.
