(* ===== verification/SqlStore.v ===== *)
(** * SqlStore: the database backends

    Models [internal/store/sqlite] and [internal/store/postgres].  The two
    packages contain the same statements up to placeholders, so each store is
    written once, over the [Dialect] that captures what differs; the modules
    [Sqlite] and [Postgres] at the end are the two instances of the store interfaces
    of [internal/store/store.go]. *)

From S2P Require Import Prelude GoText GoTime Keyed Policy Krl X509Engine Mtls Store Sql SqlTable.

(** ** Roles *)

Module Roles.

Abbreviation table := (list RoleRow) (only parsing).
Definition key (r : RoleRecord) : string := Policy.Name (RecRole r).

Definition errNameRequired : error := ErrNew "role name is required".

(** [insertRole]'s row: [now] is the clock reading behind [updated_at]. *)
Definition role_args (now : time) (r : RoleRecord) : result RoleRow :=
  RoleInsertArgs (RecRole r) (format_rfc3339 now) (RecSource r).

Definition record (r : Role) (source : string) : RoleRecord :=
  mkRoleRecord r (NormalizeSource source).

Definition Add (now : time) (r : Role) (source : string) : M (db table) unit :=
  SqlTable.Add c_name key (role_args now) errNameRequired InMemoryStore.ErrRoleExists
    (record r source).

Definition Replace (now : time) (oldName : string) (r : Role) (source : string) : M (db table) unit :=
  SqlTable.Replace c_name key (role_args now) errNameRequired InMemoryStore.ErrRoleExists
    InMemoryStore.ErrRoleNotFound oldName (record r source).

Definition Delete (name : string) : M (db table) unit :=
  SqlTable.Delete c_name InMemoryStore.ErrRoleNotFound name.

Definition AllWithSource (dl : Dialect) : M (db table) (list RoleRecord) :=
  AllRecords c_name ScanRoleRecord dl.

(** The placeholders of [IN (…)]: the groups without repetitions. *)
Fixpoint distinct (seen : gset string) (groups : list string) : list string :=
  match groups with
  | [] => []
  | g :: gs => if bool_decide (g ∈ seen) then distinct seen gs else g :: distinct ({[g]} ∪ seen) gs
  end.

Definition select_groups (groups : list string) : M (db table) (list RoleRow) :=
  stmt (λ t, (Ok (List.filter (λ row, bool_decide (c_group_claim row ∈ groups)) t), t)).

(** A failed query or scan is logged and gives no role. *)
Definition RolesForGroups (groups : list string) (d : db table) : list Role * db table :=
  if bool_decide (groups = []) then ([], d) else
  match select_groups (distinct ∅ groups) d with
  | (Err _, d') => ([], d')
  | (Ok rows, d') => (match ScanRoles rows with Ok l => l | Err _ => [] end, d')
  end.

Definition All (dl : Dialect) (d : db table) : list Role * db table :=
  match select_all c_name dl d with
  | (Err _, d') => ([], d')
  | (Ok rows, d') => (match ScanRoles rows with Ok l => l | Err _ => [] end, d')
  end.

Definition ByName (name : string) (d : db table) : option Role * db table :=
  match find_key c_name ScanRoleRecord name d with
  | (Ok o, d') => (RecRole <$> o, d')
  | (Err _, d') => (None, d')
  end.

Fixpoint seed_rows (now : time) (roles : list Role) : M (db table) unit :=
  match roles with
  | [] => mret tt
  | r :: rs =>
      if str_empty (Policy.Name r) then mfail (ErrNew "seed role has empty name") else
      _ <-m insert_value c_name (role_args now) (record r SourceConfig);; seed_rows now rs
  end.

Definition SeedRolesIfEmpty (now : time) (roles : list Role) : M (db table) bool :=
  inTx (n <-m count_rows;;
        if negb (Nat.eqb n 0) then mret false else
        _ <-m seed_rows now roles;; mret (negb (bool_decide (roles = [])))).

End Roles.

(** ** Principals *)

Module Principals.

Abbreviation table := (list PrincipalRow) (only parsing).
Definition key (p : PrincipalRecord) : string := MatchedSAN (RecPrincipal p).

Definition errSANRequired : error := ErrNew "principal SAN is required".

Definition principal_args (now : time) (p : PrincipalRecord) : result PrincipalRow :=
  PrincipalInsertArgs (RecPrincipal p) (format_rfc3339 now) (RecPSource p).

Definition record (p : Principal) (source : string) : PrincipalRecord :=
  mkPrincipalRecord p (NormalizeSource source).

Definition Add (now : time) (p : Principal) (source : string) : M (db table) unit :=
  SqlTable.Add c_san key (principal_args now) errSANRequired ErrPrincipalExists (record p source).

Definition Replace (now : time) (oldSAN : string) (p : Principal) (source : string)
    : M (db table) unit :=
  SqlTable.Replace c_san key (principal_args now) errSANRequired ErrPrincipalExists
    ErrPrincipalNotFound oldSAN (record p source).

Definition Delete (san : string) : M (db table) unit :=
  SqlTable.Delete c_san ErrPrincipalNotFound san.

Definition AllWithSource (dl : Dialect) : M (db table) (list PrincipalRecord) :=
  AllRecords c_san ScanPrincipalRecord dl.

Definition All (dl : Dialect) (d : db table) : list Principal * db table :=
  match select_all c_san dl d with
  | (Err _, d') => ([], d')
  | (Ok rows, d') => (match ScanPrincipals rows with Ok l => l | Err _ => [] end, d')
  end.

Definition BySAN (san : string) (d : db table) : option Principal * db table :=
  match find_key c_san ScanPrincipalRecord san d with
  | (Ok o, d') => (RecPrincipal <$> o, d')
  | (Err _, d') => (None, d')
  end.

(** One query per presented SAN, in the presented order. *)
Fixpoint lookup_loop (sans : list string) (d : db table) : result Principal * db table :=
  match sans with
  | [] => (Err ErrUnknownPrincipal, d)
  | san :: sans =>
      match find_key c_san ScanPrincipalRecord san d with
      | (Ok None, d') => lookup_loop sans d'
      | (Err e, d') => (Err e, d')
      | (Ok (Some p), d') => (Ok (RecPrincipal p), d')
      end
  end.

Definition Lookup (sans : list string) : M (db table) Principal := λ d,
  if bool_decide (sans = []) then (Err ErrNoClientCert, d) else lookup_loop sans d.

(** Entries without a SAN are skipped. *)
Fixpoint seed_rows (now : time) (ps : list Principal) (seeded : bool) : M (db table) bool :=
  match ps with
  | [] => mret seeded
  | p :: ps =>
      if str_empty (MatchedSAN p) then seed_rows now ps seeded else
      _ <-m insert_value c_san (principal_args now) (record p SourceConfig);;
      seed_rows now ps true
  end.

Definition SeedPrincipalsIfEmpty (now : time) (ps : list Principal) : M (db table) bool :=
  inTx (n <-m count_rows;;
        if negb (Nat.eqb n 0) then mret false else seed_rows now ps false).

End Principals.

(** ** Revocations *)

Module Revocations.

Abbreviation table := (list RevocationRow) (only parsing).

(** [WHERE col = v]: NULL never matches. *)
Definition col_is (c : option string) (v : string) : bool := bool_decide (c = Some v).

Definition delete_where (p : RevocationRow → bool) : M (db table) unit :=
  stmt (λ t, (Ok tt, List.filter (λ row, negb (p row)) t)).

(** The partial unique indexes and the CHECK constraint. *)
Definition conflicts (row r : RevocationRow) : bool :=
  (bool_decide (is_Some (c_serial row)) && bool_decide (c_serial row = c_serial r)) ||
  (bool_decide (is_Some (c_key_id row)) && bool_decide (c_key_id row = c_key_id r)).

Definition insert_row (row : RevocationRow) : M (db table) unit :=
  stmt (λ t,
    if bool_decide (c_serial row = None ∧ c_key_id row = None)
    then (Err (ErrOpaque "CHECK constraint failed"), t) else
    if existsb (conflicts row) t then (Err err_unique, t) else (Ok tt, t ++ [row])).

Definition Revoke (now : time) (r : Revocation) : M (db table) unit :=
  if empty_revocation r then mfail ErrEmptyRevocation else
  let r := stamp now r in
  inTx (
    _ <-m (if negb (Serial r =? 0)
           then delete_where (λ row, col_is (c_serial row) (FormatUint (Serial r))) else mret tt);;
    _ <-m (if negb (str_empty (KeyID r))
           then delete_where (λ row, col_is (c_key_id row) (KeyID r)) else mret tt);;
    insert_row (RevocationInsertArgs r)).

(** [ORDER BY revoked_at, serial, key_id], on text. *)
Definition col_le (dl : Dialect) (a b : option string) : bool :=
  match a, b with
  | Some x, Some y => text_le dl x y
  | None, None => true
  | None, Some _ => nulls_first dl
  | Some _, None => negb (nulls_first dl)
  end.
Definition row_before (dl : Dialect) (a b : RevocationRow) : Prop :=
  let le x y := text_le dl x y in
  (if negb (bool_decide (c_revoked_at a = c_revoked_at b)) then le (c_revoked_at a) (c_revoked_at b)
   else if negb (bool_decide (c_serial a = c_serial b)) then col_le dl (c_serial a) (c_serial b)
   else col_le dl (c_key_id a) (c_key_id b)) = true.

#[export] Instance row_before_dec dl a b : Decision (row_before dl a b).
Proof. unfold row_before. apply _. Defined.

(** A failed query or scan gives a snapshot without entries. *)
Definition Snapshot (dl : Dialect) (now : time) (d : db table) : Krl.Snapshot.t * db table :=
  match stmt (λ t, (Ok (merge_sort (row_before dl) t), t)) d with
  | (Err _, d') => (Krl.Snapshot.mk now [], d')
  | (Ok rows, d') =>
      (Krl.Snapshot.mk now (match ScanRevocations rows with Ok l => l | Err _ => [] end), d')
  end.

Definition matches (serial : Z) (keyID : string) (row : RevocationRow) : bool :=
  (negb (serial =? 0) && col_is (c_serial row) (FormatUint serial)) ||
  (negb (str_empty keyID) && col_is (c_key_id row) keyID).

(** A failed query counts as revoked. *)
Definition IsRevoked (serial : Z) (keyID : string) (d : db table) : bool * db table :=
  if (serial =? 0) && str_empty keyID then (false, d) else
  match stmt (λ t, (Ok (existsb (matches serial keyID) t), t)) d with
  | (Err _, d') => (true, d')
  | (Ok b, d') => (b, d')
  end.

Definition MarshalSpec (dl : Dialect) (now : time) (d : db table) : string * db table :=
  let '(snap, d') := Snapshot dl now d in (Krl.MarshalSpec snap, d').

End Revocations.

(** ** Active certificates *)

Module ActiveCerts.

Abbreviation rows := (list ActiveCertRow) (only parsing).

Definition nowRFC3339 (now : time) : string := format_rfc3339 now.

Definition is_identity (identity : string) (row : ActiveCertRow) : bool :=
  bool_decide (c_identity row = identity).

Definition select_row (identity : string) : M (db rows) (option ActiveCertRow) :=
  stmt (λ t, (Ok (List.find (is_identity identity) t), t)).

Definition Get (identity : string) : M (db rows) (option ActiveCert) := λ d,
  match select_row identity d with
  | (Ok None, d') => (Ok None, d')
  | (Ok (Some row), d') => (ac <-r ScanActiveCert row;; Ok (Some ac), d')
  | (Err e, d') => (Err e, d')
  end.

(** [UPDATE … SET … WHERE identity = ? …] *)
Definition update_where (p : ActiveCertRow → bool) (f : ActiveCertRow → ActiveCertRow)
    (t : rows) : rows := (λ row, if p row then f row else row) <$> t.

(** [ON CONFLICT (identity) DO UPDATE]: every column of the upsert, no other. *)
Definition overwrite (new old : ActiveCertRow) : ActiveCertRow :=
  mkActiveCertRow (c_identity old) (c_current_serial new) (c_current_not_after new)
    (c_previous_serial new) (c_previous_not_after new) (c_locked_at old) (c_locked_serial old).

Definition Upsert (ac : ActiveCert) : M (db rows) unit :=
  let new := ActiveCertUpsertArgs ac in
  stmt (λ t, (Ok tt,
    if existsb (is_identity (Identity ac)) t
    then update_where (is_identity (Identity ac)) (overwrite new) t
    else t ++ [new])).

Definition Delete (identity : string) : M (db rows) unit :=
  stmt (λ t, (Ok tt, List.filter (λ row, negb (is_identity identity row)) t)).

Definition set_lock (at_ : string) (serial : option string) (row : ActiveCertRow) : ActiveCertRow :=
  mkActiveCertRow (c_identity row) (c_current_serial row) (c_current_not_after row)
    (c_previous_serial row) (c_previous_not_after row) (Some at_) serial.

Definition Lock (now : time) (identity offendingSerial : string) : M (db rows) unit :=
  let serial := if str_empty offendingSerial then None else Some offendingSerial in
  stmt (λ t, (Ok tt, update_where (is_identity identity) (set_lock (nowRFC3339 now) serial) t)).

Definition collapse_row (row : ActiveCertRow) : ActiveCertRow :=
  mkActiveCertRow (c_identity row) (c_current_serial row) (c_current_not_after row)
    None None (c_locked_at row) (c_locked_serial row).

Definition adoptable_row (identity serial : string) (row : ActiveCertRow) : bool :=
  is_identity identity row && bool_decide (c_current_serial row = serial) &&
  bool_decide (c_locked_at row = None).

(** Rows affected, compared with zero. *)
Definition AdoptCurrent (identity serial : string) : M (db rows) bool :=
  stmt (λ t, (Ok (existsb (adoptable_row identity serial) t),
              update_where (adoptable_row identity serial) collapse_row t)).

End ActiveCerts.

(** ** The store interfaces and the two backends

    [store.RoleStore] and its siblings as records of operations over a state [S];
    an instant argument is the clock reading of the call. *)
Record RoleStore (S : Type) := mkRoleStore {
  rs_RolesForGroups : list string → S → list Role * S;
  rs_All : S → list Role * S;
  rs_ByName : string → S → option Role * S;
  rs_Add : time → Role → string → M S unit;
  rs_Replace : time → string → Role → string → M S unit;
  rs_Delete : string → M S unit;
  rs_AllWithSource : M S (list RoleRecord);
  rs_SeedRolesIfEmpty : time → list Role → M S bool;
}.

Record PrincipalStore (S : Type) := mkPrincipalStore {
  ps_Lookup : list string → M S Principal;
  ps_All : S → list Principal * S;
  ps_BySAN : string → S → option Principal * S;
  ps_Add : time → Principal → string → M S unit;
  ps_Replace : time → string → Principal → string → M S unit;
  ps_Delete : string → M S unit;
  ps_AllWithSource : M S (list PrincipalRecord);
  ps_SeedPrincipalsIfEmpty : time → list Principal → M S bool;
}.

Record RevocationStore (S : Type) := mkRevocationStore {
  vs_Revoke : time → Revocation → M S unit;
  vs_Snapshot : time → S → Krl.Snapshot.t * S;
  vs_IsRevoked : Z → string → S → bool * S;
  vs_MarshalSpec : time → S → string * S;
}.

(** The statements of one backend, by its dialect. *)
Definition role_store (dl : Dialect) : RoleStore (db Roles.table) :=
  mkRoleStore _ Roles.RolesForGroups (Roles.All dl) Roles.ByName Roles.Add Roles.Replace
    Roles.Delete (Roles.AllWithSource dl) Roles.SeedRolesIfEmpty.

Definition principal_store (dl : Dialect) : PrincipalStore (db Principals.table) :=
  mkPrincipalStore _ Principals.Lookup (Principals.All dl) Principals.BySAN Principals.Add
    Principals.Replace Principals.Delete (Principals.AllWithSource dl)
    Principals.SeedPrincipalsIfEmpty.

Definition revocation_store (dl : Dialect) : RevocationStore (db Revocations.table) :=
  mkRevocationStore _ Revocations.Revoke (Revocations.Snapshot dl) Revocations.IsRevoked
    (Revocations.MarshalSpec dl).

(** The two packages are the same stores over two dialects. *)
Module Sqlite.
Definition roleStore := role_store sqlite_dialect.
Definition principalStore := principal_store sqlite_dialect.
Definition revocationStore := revocation_store sqlite_dialect.
End Sqlite.

Module Postgres.
Section Collation.
(** The collation of the database, which orders its text. *)
Context (collation : string → string → bool).
Definition roleStore := role_store (postgres_dialect collation).
Definition principalStore := principal_store (postgres_dialect collation).
Definition revocationStore := revocation_store (postgres_dialect collation).
End Collation.

Definition activeCertStore : ActiveCertStore (db ActiveCerts.rows) := {|
  Store.Get := ActiveCerts.Get;
  Store.Upsert := ActiveCerts.Upsert;
  Store.Delete := ActiveCerts.Delete;
  Store.Lock := ActiveCerts.Lock;
  Store.AdoptCurrent := ActiveCerts.AdoptCurrent |}.
End Postgres.
