(* ===== verification/SqlFacts.v ===== *)
(** * SqlFacts: the database backends keep their contracts

    The role and principal stores refine the abstract keyed table under any script
    of database faults; their read surfaces satisfy the interfaces the policy
    engine and the authentication path are proved against; the active-cert store
    satisfies the interface of the renewal guard. *)

From S2P Require Import Prelude GoText GoTime Keyed Glob Json Policy Krl X509Engine Mtls Store Sql SqlTable SqlStore.

(** ** Roles *)

Section RoleTable.
Import SqlStore.Roles.

Definition roles_ok : table → Prop := tbl_ok c_name key ScanRoleRecord.
Definition roles_view : table → gmap string RoleRecord := view key ScanRoleRecord.

Lemma role_args_scan now v :
  role_ok (RecRole v) → ∃ row, role_args now v = Ok row ∧ ScanRoleRecord row = Ok v ∧ c_name row = key v.
Proof.
  intros Hv. destruct (role_row_roundtrip (RecRole v) (format_rfc3339 now) (RecSource v) Hv)
    as (row & Hr & Hs & Hn & _). exists row. split_and!; [done| |done]. by destruct v.
Qed.

Lemma Roles_Add_refines now r src :
  role_ok r → refines c_name key ScanRoleRecord (Add now r src)
    (spec_add key errNameRequired InMemoryStore.ErrRoleExists (record r src)).
Proof. intros Hr. eapply Add_refines; [apply role_args_scan|done]. Qed.

Lemma Roles_Replace_refines now old r src :
  role_ok r → refines c_name key ScanRoleRecord (Replace now old r src)
    (spec_replace key errNameRequired InMemoryStore.ErrRoleExists InMemoryStore.ErrRoleNotFound
       old (record r src)).
Proof. intros Hr. eapply Replace_refines; [apply role_args_scan|done]. Qed.

Lemma Roles_Delete_refines name :
  refines c_name key ScanRoleRecord (Delete name) (spec_delete InMemoryStore.ErrRoleNotFound name).
Proof. apply Delete_refines. Qed.

Lemma elem_of_distinct seen groups g : g ∈ distinct seen groups ↔ g ∈ groups ∧ g ∉ seen.
Proof.
  revert seen. induction groups as [|x gs IH]; intros seen; simpl.
  - rewrite elem_of_nil. naive_solver.
  - case_bool_decide as Hx.
    + rewrite IH, elem_of_cons. split; [intros [? ?]; split; [by right|done]|].
      intros [[->|?] ?]; [done|by split].
    + rewrite !elem_of_cons, IH, not_elem_of_union, not_elem_of_singleton. split.
      * intros [->|(? & ? & ?)]; [split; [by left|done]|split; [by right|done]].
      * intros [[->|?] ?]; [by left|]. destruct (decide (g = x)); [by left|right]. done.
Qed.

Lemma scan_roles_records t l :
  ScanRoles t = Ok l → ∀ r, r ∈ l → ∃ row, row ∈ t ∧ ScanRole row = Ok r.
Proof.
  revert l. induction t as [|row t IH]; intros l; simpl; [intros [= <-] r []%elem_of_nil|].
  intros (r0 & Hr0 & (l' & Hl' & [= <-])%rbind_Ok)%rbind_Ok r [->|Hr]%elem_of_cons.
  - exists row. split; [by left|done].
  - destruct (IH l' Hl' r Hr) as (row' & ? & ?). exists row'. split; [by right|done].
Qed.

(** The role of a row is the role of its record. *)
Lemma ScanRole_record row r :
  ScanRole row = Ok r → ScanRoleRecord row = Ok (mkRoleRecord r (c_source row)) ∧
    c_group_claim row = GroupClaim r ∧ c_name row = Policy.Name r.
Proof.
  intros E. unfold ScanRoleRecord. rewrite E. split; [done|].
  unfold ScanRole in E. repeat (apply rbind_Ok in E as (? & _ & E)). by injection E as <-.
Qed.

#[export] Instance roles_db_Store : Policy.Store (db table) := {
  RolesForGroups d groups := (SqlStore.Roles.RolesForGroups groups d).1;
  All d := (SqlStore.Roles.All sqlite_dialect d).1;
}.

(** Reads fail closed: under any fault the engine sees roles of the table that the
    caller's groups claim, or none. *)
#[export] Instance roles_db_laws : Policy.StoreLaws (db table).
Proof.
  refine {| ps_valid d := True;
            ps_table d := (λ rec, RecRole rec) <$> records ScanRoleRecord (data d) |}.
  intros d groups r _. simpl. unfold SqlStore.Roles.RolesForGroups.
  case_bool_decide; [by intros []%elem_of_nil|].
  destruct (select_groups _ d) as [[rows|e] d'] eqn:E; [|by intros []%elem_of_nil].
  apply stmt_cases in E as [_ [[= -> _]|(? & [=] & _)]].
  destruct (ScanRoles _) as [l|] eqn:Es; [|by intros []%elem_of_nil]. simpl.
  intros Hr. destruct (scan_roles_records _ _ Es r Hr) as (row & Hrow & Hscan).
  apply list_elem_of_In, List.filter_In in Hrow as [Hin Hg%bool_decide_eq_true].
  apply ScanRole_record in Hscan as (Hrec & Hgc & _). apply elem_of_distinct in Hg as [Hg _].
  split; [|by rewrite <- Hgc]. apply list_elem_of_fmap.
  exists (mkRoleRecord r (c_source row)). split; [done|].
  unfold records. apply list_elem_of_omap. exists row. rewrite Hrec.
  split; [by apply list_elem_of_In|done].
Defined.

(** Without faults every role the groups claim is found. *)
Lemma RolesForGroups_complete t groups rec :
  roles_ok t → rec ∈ records ScanRoleRecord t → GroupClaim (RecRole rec) ∈ groups →
  RecRole rec ∈ (SqlStore.Roles.RolesForGroups groups (mkDb t [])).1.
Proof.
  intros [_ Ht] Hrec Hg. unfold SqlStore.Roles.RolesForGroups.
  rewrite bool_decide_false by (intros ->; by apply elem_of_nil in Hg).
  cbn [select_groups stmt faults data fst]. set (rows := List.filter _ t).
  assert (∀ rows', Forall (row_ok c_name key ScanRoleRecord) rows' →
    ScanRoles rows' = Ok (RecRole <$> records ScanRoleRecord rows')) as Hscan.
  { induction 1 as [|row rows' (v & Hv & _) _ IH]; [done|]. unfold ScanRoles. cbn [scan_all].
    unfold ScanRoleRecord in Hv. apply rbind_Ok in Hv as (r & Hr & [= <-]). rewrite Hr.
    cbn [rbind]. unfold ScanRoles in IH. rewrite IH.
    unfold records. cbn [omap list_omap]. unfold ScanRoleRecord at 2. by rewrite Hr. }
  assert (Forall (row_ok c_name key ScanRoleRecord) rows) as Hrows.
  { apply Forall_forall. intros row Hrow%list_elem_of_In. apply List.filter_In in Hrow as [Hin _].
    rewrite Forall_forall in Ht. apply Ht. by apply list_elem_of_In. }
  rewrite Hscan by done. simpl. apply list_elem_of_fmap. exists rec. split; [done|].
  unfold records in *. apply list_elem_of_omap in Hrec as (row & Hin & Hs).
  apply list_elem_of_omap. exists row. split; [|done].
  apply list_elem_of_In, List.filter_In. split; [by apply list_elem_of_In|].
  apply bool_decide_eq_true, elem_of_distinct. split; [|apply not_elem_of_empty].
  destruct (ScanRoleRecord row) as [v|] eqn:Hr; [|done]. injection Hs as ->.
  unfold ScanRoleRecord in Hr. apply rbind_Ok in Hr as (r & Hr & [= <-]).
  apply ScanRole_record in Hr as (_ & -> & _). done.
Qed.
End RoleTable.

(** ** Principals *)

Section PrincipalTable.
Import SqlStore.Principals.

Definition principals_ok : table → Prop := tbl_ok c_san key ScanPrincipalRecord.
Definition principals_view : table → gmap string PrincipalRecord := view key ScanPrincipalRecord.

Lemma principal_args_scan now v :
  strings_ok (Mtls.Groups (RecPrincipal v)) →
  ∃ row, principal_args now v = Ok row ∧ ScanPrincipalRecord row = Ok v ∧ c_san row = key v.
Proof.
  intros Hv. destruct (principal_row_roundtrip (RecPrincipal v) (format_rfc3339 now) (RecPSource v) Hv)
    as (row & Hr & Hs & Hn). exists row. split_and!; [done| |done]. by destruct v.
Qed.

Lemma Principals_Add_refines now p src :
  strings_ok (Mtls.Groups p) → refines c_san key ScanPrincipalRecord (Add now p src)
    (spec_add key errSANRequired ErrPrincipalExists (record p src)).
Proof.
  intros Hp. eapply (Add_refines _ _ _ _ _ _ (λ v, strings_ok (Mtls.Groups (RecPrincipal v))));
    [apply principal_args_scan|done].
Qed.

Lemma Principals_Replace_refines now old p src :
  strings_ok (Mtls.Groups p) → refines c_san key ScanPrincipalRecord (Replace now old p src)
    (spec_replace key errSANRequired ErrPrincipalExists ErrPrincipalNotFound old (record p src)).
Proof.
  intros Hp. eapply (Replace_refines _ _ _ _ _ _ _ (λ v, strings_ok (Mtls.Groups (RecPrincipal v))));
    [apply principal_args_scan|done].
Qed.

Lemma Principals_Delete_refines san :
  refines c_san key ScanPrincipalRecord (Delete san) (spec_delete ErrPrincipalNotFound san).
Proof. apply Delete_refines. Qed.

(** [Lookup] answers from the table: the first presented SAN that is registered,
    or the two documented errors, or the database's. *)
Lemma Principals_lookup_loop sans d r d' :
  principals_ok (data d) → lookup_loop sans d = (r, d') →
  data d' = data d ∧
  match r with
  | Ok p => ∃ l1 l2 rec, sans = l1 ++ MatchedSAN p :: l2 ∧
      principals_view (data d) !! MatchedSAN p = Some rec ∧ RecPrincipal rec = p ∧
      ∀ s, s ∈ l1 → principals_view (data d) !! s = None
  | Err e => (e = ErrUnknownPrincipal ∧ ∀ s, s ∈ sans → principals_view (data d) !! s = None) ∨
             injected e d
  end.
Proof.
  revert d. induction sans as [|san sans IH]; intros d Hd; simpl.
  { intros [= <- <-]. split; [done|]. left. split; [done|]. by intros s []%elem_of_nil. }
  destruct (find_key c_san ScanPrincipalRecord san d) as [[[p|]|e] d1] eqn:Ef.
  - intros [= <- <-]. pose proof (find_key_spec _ _ _ _ _ _ _ Hd Ef) as [Hd1 [[= Hp]|(? & [=] & _)]].
    split; [done|]. symmetry in Hp. pose proof Hp as Hp'.
    apply to_map_Some in Hp' as [_ Hk]; [|by apply (records_unique c_san)].
    exists [], sans, p. change (MatchedSAN (RecPrincipal p)) with (key p). rewrite Hk.
    split_and!; [done|done|done|by intros s []%elem_of_nil].
  - pose proof (find_key_spec _ _ _ _ _ _ _ Hd Ef) as [Hd1 [[= Hp]|(? & [=] & _)]].
    assert (faults d1 `suffix_of` faults d) as Hs.
    { unfold find_key in Ef. destruct (select_key c_san san d) as [[[row|]|e] d2] eqn:Es.
      - destruct (ScanPrincipalRecord row); simpl in Ef; [|done]. done.
      - injection Ef as <-. by apply stmt_cases in Es as [? _].
      - done. }
    intros E. rewrite <- Hd1 in Hd. destruct (IH d1 Hd E) as [Hd' E']. rewrite Hd1 in E'. clear E.
    rename E' into E.
    split; [congruence|]. destruct r as [p|e].
    + destruct E as (l1 & l2 & rec & -> & Hl & Hr & Hn). exists (san :: l1), l2, rec.
      split_and!; [done|done|done|]. intros s [->|?]%elem_of_cons; [done|by apply Hn].
    + destruct E as [[-> Hn]|He]; [left|right; by eapply injected_suffix].
      split; [done|]. intros s [->|?]%elem_of_cons; [done|by apply Hn].
  - intros [= <- <-]. pose proof (find_key_spec _ _ _ _ _ _ _ Hd Ef) as [Hd1 [[=]|(e' & [= <-] & He)]].
    split; [done|]. by right.
Qed.

#[export] Instance principals_db_Store : Mtls.Store (db table) := {
  Lookup d sans := (SqlStore.Principals.Lookup sans d).1;
}.

#[export] Instance principals_db_laws : Mtls.StoreLaws (db table).
Proof.
  refine {| ms_valid d := principals_ok (data d);
            ms_registry d := RecPrincipal <$> principals_view (data d) |}.
  intros d sans p Hd. simpl. unfold SqlStore.Principals.Lookup. case_bool_decide; [done|].
  destruct (lookup_loop sans d) as [r d'] eqn:E. intros Hr. simpl in Hr. subst r.
  apply Principals_lookup_loop in E as [_ (l1 & l2 & rec & -> & Hl & Hr & _)]; [|done].
  split; [set_solver|]. exists p. rewrite lookup_fmap, Hl. simpl. by rewrite Hr.
Defined.
End PrincipalTable.

(** ** Active certificates *)

Section ActiveCertTable.
Import SqlStore.ActiveCerts.

(** A row that reads back: instants parse, and a lock has an instant. *)
Definition cert_row_ok (row : ActiveCertRow) : Prop :=
  ∃ ac, ScanActiveCert row = Ok ac ∧ (c_locked_at row = None ↔ LockedAt ac = zero_time).

Definition certs_ok (t : rows) : Prop := keys_unique c_identity t ∧ Forall cert_row_ok t.

Definition certs (t : rows) : list ActiveCert :=
  omap (λ row, match ScanActiveCert row with Ok ac => Some ac | Err _ => None end) t.

Definition certs_view (t : rows) : Store.table := to_map Identity (certs t).

Lemma ScanActiveCert_identity row ac :
  ScanActiveCert row = Ok ac → Identity ac = c_identity row ∧ CurrentSerial ac = c_current_serial row.
Proof.
  unfold ScanActiveCert. intros E. repeat (apply rbind_Ok in E as (? & _ & E)).
  by injection E as <-.
Qed.

Lemma certs_cons row ac t : ScanActiveCert row = Ok ac → certs (row :: t) = ac :: certs t.
Proof. intros E. unfold certs. simpl. by rewrite E. Qed.

Lemma certs_keys t : Forall cert_row_ok t → Identity <$> certs t = c_identity <$> t.
Proof.
  induction 1 as [|row t (ac & Hs & _) Ht IH]; [done|]. rewrite (certs_cons row ac) by done.
  rewrite !fmap_cons, IH. by apply ScanActiveCert_identity in Hs as [-> _].
Qed.

Lemma certs_unique t : certs_ok t → keys_unique Identity (certs t).
Proof. intros [Hu Ht]. unfold keys_unique. by rewrite certs_keys. Qed.

(** Lookup in the view is a search for the row. *)
Lemma certs_find id t :
  certs_ok t →
  match List.find (is_identity id) t with
  | Some row => row ∈ t ∧ c_identity row = id ∧
      ∃ ac, ScanActiveCert row = Ok ac ∧ certs_view t !! id = Some ac
  | None => certs_view t !! id = None
  end.
Proof.
  intros Ht. destruct (List.find _ t) as [row|] eqn:E.
  - apply List.find_some in E as [Hin%list_elem_of_In Hid%bool_decide_eq_true].
    pose proof Ht as [_ Hf]. rewrite Forall_forall in Hf. destruct (Hf _ Hin) as (ac & Hs & _).
    split_and!; [done|done|]. exists ac. split; [done|].
    apply to_map_Some; [by apply certs_unique|]. split.
    + unfold certs. apply list_elem_of_omap. exists row. by rewrite Hs.
    + apply ScanActiveCert_identity in Hs as [-> _]. done.
  - unfold certs_view. apply to_map_None. intros ac Hac Hid.
    unfold certs in Hac. apply list_elem_of_omap in Hac as (row & Hin & Hs).
    destruct (ScanActiveCert row) eqn:Hr; [|done]. injection Hs as ->.
    apply list_elem_of_In in Hin. eapply List.find_none in E; [|done].
    apply ScanActiveCert_identity in Hr as [Hr _]. unfold is_identity in E.
    apply bool_decide_eq_false in E. congruence.
Qed.

Lemma certs_view_Some t k x :
  certs_ok t →
  certs_view t !! k = Some x ↔ ∃ row, row ∈ t ∧ ScanActiveCert row = Ok x ∧ c_identity row = k.
Proof.
  intros Ht. unfold certs_view. rewrite to_map_Some by (by apply certs_unique).
  unfold certs. rewrite list_elem_of_omap. split.
  - intros [(row & Hin & Hs) Hk]. exists row. destruct (ScanActiveCert row) eqn:E; [|done].
    injection Hs as ->. split_and!; [done|done|]. by apply ScanActiveCert_identity in E as [<- _].
  - intros (row & Hin & Hs & Hk). split; [exists row; by rewrite Hs|].
    by apply ScanActiveCert_identity in Hs as [-> _].
Qed.

Lemma certs_identity_inj t row1 row2 :
  certs_ok t → row1 ∈ t → row2 ∈ t → c_identity row1 = c_identity row2 → row1 = row2.
Proof.
  intros [Hu _] [i Hi]%list_elem_of_lookup [j Hj]%list_elem_of_lookup E.
  assert (i = j) as -> by (by eapply (keys_unique_lookup c_identity t)). congruence.
Qed.

Section Update.
(** An UPDATE that keeps the key and touches rows of one identity. *)
Context (p : ActiveCertRow → bool) (f : ActiveCertRow → ActiveCertRow).
Context (g : ActiveCert → ActiveCert) (id : string) (t : rows).
Hypothesis Hf : ∀ row, c_identity (f row) = c_identity row.
Hypothesis Hp : ∀ row, row ∈ t → p row = true → c_identity row = id.
Hypothesis Hg : ∀ row ac, row ∈ t → p row = true → cert_row_ok row → ScanActiveCert row = Ok ac →
  ScanActiveCert (f row) = Ok (g ac) ∧ cert_row_ok (f row).

Lemma update_ok : certs_ok t → certs_ok (update_where p f t).
Proof.
  intros [Hu Ht]. split.
  - unfold keys_unique, update_where. rewrite <- list_fmap_compose.
    assert ((c_identity ∘ (λ row, if p row then f row else row)) <$> t = c_identity <$> t) as ->; [|done].
    apply list_fmap_ext. intros i row _. simpl. destruct (p row); [apply Hf|done].
  - apply Forall_fmap, Forall_forall. intros row Hrow. rewrite Forall_forall in Ht.
    simpl. pose proof (Ht _ Hrow) as (ac & Hs & Hl).
    destruct (p row) eqn:Ep; [|by apply Ht]. eapply Hg; [done|done|by apply Ht|done].
Qed.

Lemma update_lookup k x :
  certs_ok t →
  certs_view (update_where p f t) !! k = Some x ↔
  ∃ row ac, row ∈ t ∧ ScanActiveCert row = Ok ac ∧ c_identity row = k ∧
    x = if p row then g ac else ac.
Proof.
  intros Ht. assert (∀ row, row ∈ t → cert_row_ok row) as Hall by (by apply Forall_forall, Ht).
  rewrite certs_view_Some by (by apply update_ok). unfold update_where.
  setoid_rewrite list_elem_of_fmap. split.
  - intros (row' & (row & -> & Hin) & Hs & Hk). destruct (Hall _ Hin) as (ac & Hac & _).
    exists row, ac. destruct (p row) eqn:Ep.
    + destruct (Hg _ _ Hin Ep (Hall _ Hin) Hac) as [Hs' _]. rewrite Hf in Hk.
      split_and!; [done|done|done|congruence].
    + split_and!; [done|done|done|congruence].
  - intros (row & ac & Hin & Hac & Hk & ->). exists (if p row then f row else row).
    split_and!; [by exists row| |destruct (p row); [by rewrite Hf|done]].
    destruct (p row) eqn:Ep; [|done]. by destruct (Hg _ _ Hin Ep (Hall _ Hin) Hac) as [-> _].
Qed.

Lemma update_view :
  certs_ok t →
  certs_view (update_where p f t) =
    (if existsb p t
     then match certs_view t !! id with Some ac => <[id := g ac]> (certs_view t) | None => certs_view t end
     else certs_view t).
Proof.
  intros Ht. apply map_eq. intros k. apply option_eq. intros x. rewrite update_lookup by done.
  destruct (existsb p t) eqn:Hex.
  - apply existsb_exists in Hex as (row0 & Hin0%list_elem_of_In & Hp0).
    pose proof (Hp _ Hin0 Hp0) as Hid0. pose proof Ht as [_ Hall]. rewrite Forall_forall in Hall.
    destruct (Hall _ Hin0) as (ac0 & Hac0 & _).
    assert (certs_view t !! id = Some ac0) as -> by (apply certs_view_Some; [done|by exists row0]).
    destruct (decide (k = id)) as [->|Hne].
    + rewrite lookup_insert_eq. split.
      * intros (row & ac & Hin & Hac & Hk & ->).
        assert (row = row0) as -> by (apply (certs_identity_inj t); congruence).
        rewrite Hp0. congruence.
      * intros [= <-]. exists row0, ac0. by rewrite Hp0.
    + rewrite lookup_insert_ne, certs_view_Some by done. split.
      * intros (row & ac & Hin & Hac & Hk & ->). exists row.
        destruct (p row) eqn:Ep; [by destruct Hne; rewrite <- Hk; apply Hp|done].
      * intros (row & Hin & Hac & Hk). exists row, x.
        destruct (p row) eqn:Ep; [by destruct Hne; rewrite <- Hk; apply Hp|done].
  - rewrite certs_view_Some by done. assert (∀ row, row ∈ t → p row = false) as Hno.
    { intros row Hin. apply not_true_iff_false. intros Hpr. apply not_true_iff_false in Hex.
      destruct Hex. apply existsb_exists. exists row. by rewrite <- list_elem_of_In. }
    split.
    + intros (row & ac & Hin & Hac & Hk & ->). exists row. by rewrite (Hno _ Hin).
    + intros (row & Hin & Hac & Hk). exists row, x. by rewrite (Hno _ Hin).
Qed.
End Update.

(** Appending a fresh row. *)
Lemma append_view row ac t :
  certs_ok t → cert_row_ok row → ScanActiveCert row = Ok ac → certs_view t !! Identity ac = None →
  certs_ok (t ++ [row]) ∧ certs_view (t ++ [row]) = <[Identity ac := ac]> (certs_view t).
Proof.
  intros Ht Hrow Hs Hn. pose proof (certs_unique t Ht) as Hu.
  pose proof (ScanActiveCert_identity _ _ Hs) as [Hid _]. split; [split|].
  - apply keys_unique_snoc; [apply Ht|]. rewrite <- Hid. apply to_map_None. intros row' Hin E.
    pose proof (certs_find (Identity ac) t Ht) as Hf.
    destruct (List.find _ t) eqn:Efind.
    { destruct Hf as (_ & _ & ac' & _ & Hv). congruence. }
    apply list_elem_of_In in Hin. eapply List.find_none in Efind; [|done].
    unfold is_identity in Efind. apply bool_decide_eq_false in Efind. done.
  - apply Forall_app. split; [apply Ht|by constructor].
  - unfold certs_view, certs in *. rewrite omap_app. simpl. rewrite Hs. by apply to_map_snoc.
Qed.

Lemma upsert_scan ac row :
  active_cert_ok ac →
  ScanActiveCert (overwrite (ActiveCertUpsertArgs ac) row) =
  (lockedAt <-r scan_time (c_locked_at row);;
   Ok (mkActiveCert (c_identity row) (CurrentSerial ac) (CurrentNotAfter ac) (PreviousSerial ac)
        (PreviousNotAfter ac) lockedAt (default "" (c_locked_serial row)))).
Proof.
  intros [Hc Hp]. pose proof (active_cert_row_roundtrip ac Hc Hp) as E.
  unfold ScanActiveCert in *.
  cbn [overwrite c_current_not_after c_locked_at c_previous_not_after c_previous_serial
       c_locked_serial c_identity c_current_serial ActiveCertUpsertArgs scan_time rbind] in *.
  rewrite parse_format_nano in * by done. cbn [rbind] in *.
  destruct (scan_time (c_locked_at row)) as [l|e]; cbn [rbind]; [|done].
  destruct (scan_time (if time_is_zero _ then _ else _)) as [prev|e]; cbn [rbind] in *; [|done].
  injection E as -> E. f_equal. unfold with_lock in *. by rewrite E.
Qed.

Lemma lock_scan now serial row ac :
  clock_ok now → ScanActiveCert row = Ok ac →
  ScanActiveCert (set_lock (nowRFC3339 now) (if str_empty serial then None else Some serial) row) =
    Ok (with_lock ac (truncate_second now) serial).
Proof.
  intros [_ Hy]. unfold ScanActiveCert. intros (cur & Hcur & (l & _ & (prev & Hprev & [= <-])%rbind_Ok)%rbind_Ok)%rbind_Ok.
  cbn [set_lock c_current_not_after c_locked_at c_previous_not_after c_previous_serial
       c_locked_serial c_identity c_current_serial].
  rewrite Hcur, Hprev. cbn [rbind].
  assert (scan_time (Some (nowRFC3339 now)) = Ok (truncate_second now)) as ->.
  { unfold scan_time, nowRFC3339. rewrite parse_format_seconds by done.
    unfold str_empty. rewrite bool_decide_false; [done|].
    unfold format_rfc3339, append_rfc3339. destruct (civil_from_days _) as [[? ?] ?]. done. }
  cbn [rbind]. unfold with_lock. simpl. unfold str_empty. by case_bool_decide as E; simpl; [rewrite E|].
Qed.

Lemma collapse_scan row ac :
  ScanActiveCert row = Ok ac → ScanActiveCert (collapse_row row) = Ok (collapse ac).
Proof.
  unfold ScanActiveCert. intros (cur & Hcur & (l & Hl & (prev & _ & [= <-])%rbind_Ok)%rbind_Ok)%rbind_Ok.
  cbn [collapse_row c_current_not_after c_locked_at c_previous_not_after c_previous_serial
       c_locked_serial c_identity c_current_serial]. by rewrite Hcur, Hl.
Qed.

Lemma existsb_identity id t :
  certs_ok t → existsb (is_identity id) t = bool_decide (is_Some (certs_view t !! id)).
Proof.
  intros Ht. pose proof (certs_find id t Ht) as Hf. destruct (List.find _ t) as [row|] eqn:E.
  - destruct Hf as (Hin & Hid & ac & _ & ->). rewrite bool_decide_true by done.
    apply existsb_exists. exists row. apply List.find_some in E. done.
  - rewrite Hf, bool_decide_false by (by intros [? [=]]). apply not_true_iff_false. intros Hex.
    apply existsb_exists in Hex as (row & Hin & Hid). eapply List.find_none in E; [|done]. congruence.
Qed.

Lemma existsb_adoptable id serial t :
  certs_ok t → existsb (adoptable_row id serial) t = adoptable id serial (certs_view t).
Proof.
  intros Ht. pose proof (certs_find id t Ht) as Hf. unfold adoptable.
  destruct (List.find _ t) as [row|] eqn:E.
  - destruct Hf as (Hin & Hid & ac & Hs & ->). pose proof Ht as [_ Hall].
    rewrite Forall_forall in Hall. destruct (Hall _ Hin) as (ac' & Hs' & Hl).
    assert (ac' = ac) as -> by congruence.
    pose proof (ScanActiveCert_identity _ _ Hs) as [_ Hcs]. apply eq_true_iff_eq.
    rewrite existsb_exists, andb_true_iff, bool_decide_eq_true. unfold locked, time_is_zero.
    rewrite negb_involutive, Z.eqb_eq, <- Hl, Hcs. unfold adoptable_row. split.
    + intros (row' & Hin' & Hp). apply andb_true_iff in Hp as [Hp Hlk]. apply andb_true_iff in Hp as [Hi Hser].
      apply bool_decide_eq_true in Hlk, Hser, Hi.
      assert (row' = row) as -> by (apply (certs_identity_inj t); [done|by apply list_elem_of_In|done|congruence]).
      done.
    + intros [Hser Hlk]. exists row. rewrite <- list_elem_of_In. split; [done|].
      unfold is_identity. by rewrite !bool_decide_true.
  - rewrite Hf. apply not_true_iff_false. intros Hex.
    apply existsb_exists in Hex as (row & Hin & Hp). eapply List.find_none in E; [|done].
    unfold adoptable_row in Hp. apply andb_true_iff in Hp as [Hp _]. apply andb_true_iff in Hp as [Hp _].
    congruence.
Qed.
End ActiveCertTable.

Section ActiveCertLaws.
Import SqlStore.ActiveCerts.

#[export] Instance certs_db_Store : ActiveCertStore (db rows) := {
  Store.Get := SqlStore.ActiveCerts.Get;
  Store.Upsert := SqlStore.ActiveCerts.Upsert;
  Store.Delete := SqlStore.ActiveCerts.Delete;
  Store.Lock := SqlStore.ActiveCerts.Lock;
  Store.AdoptCurrent := SqlStore.ActiveCerts.AdoptCurrent;
}.

(** A statement with a total effect, through the view. *)
Lemma stmt_outcome {A} (a : rows → A) (f : rows → rows) (next : Store.table → Store.table) d r d' :
  certs_ok (data d) → certs_ok (f (data d)) → certs_view (f (data d)) = next (certs_view (data d)) →
  stmt (λ t, (Ok (a t), f t)) d = (r, d') →
  certs_ok (data d') ∧
  outcome r (certs_view (data d)) (next (certs_view (data d))) (certs_view (data d')) ∧
  (∀ b, r = Ok b → b = a (data d)).
Proof.
  intros Ht Hf Hv [_ H]%stmt_cases.
  destruct H as [[= -> Hd]|(e & -> & _ & [Hd|Hd])]; rewrite Hd.
  - split_and!; [done|done|by intros b [= ->]].
  - split_and!; [done|by left|done].
  - split_and!; [done|by right|done].
Qed.

Lemma Upsert_table ac t :
  certs_ok t → active_cert_ok ac →
  let t' := if existsb (is_identity (Identity ac)) t
            then update_where (is_identity (Identity ac)) (overwrite (ActiveCertUpsertArgs ac)) t
            else t ++ [ActiveCertUpsertArgs ac] in
  certs_ok t' ∧ certs_view t' = spec_upsert ac (certs_view t).
Proof.
  intros Ht Hac. rewrite existsb_identity by done. unfold spec_upsert.
  destruct (certs_view t !! Identity ac) as [old|] eqn:E.
  - rewrite bool_decide_true by done.
    set (p := is_identity (Identity ac)). set (f := overwrite (ActiveCertUpsertArgs ac)).
    set (g old := mkActiveCert (Identity old) (CurrentSerial ac) (CurrentNotAfter ac)
      (PreviousSerial ac) (PreviousNotAfter ac) (LockedAt old) (LockedSerial old)).
    assert (∀ row, c_identity (f row) = c_identity row) as Hf by done.
    assert (∀ row, row ∈ t → p row = true → c_identity row = Identity ac) as Hp
      by (intros row _ Hr; by apply bool_decide_eq_true in Hr).
    assert (∀ row a, row ∈ t → p row = true → cert_row_ok row → ScanActiveCert row = Ok a →
      ScanActiveCert (f row) = Ok (g a) ∧ cert_row_ok (f row)) as Hg.
    { intros row a _ _ (a' & Ha' & Hl) Ha. assert (a' = a) as -> by congruence.
      pose proof (ScanActiveCert_identity _ _ Ha) as [Hid _].
      assert (ScanActiveCert (f row) = Ok (g a)) as Hs.
      { unfold f. rewrite upsert_scan by done. unfold ScanActiveCert in Ha.
        apply rbind_Ok in Ha as (cur & _ & (l & -> & (prev & _ & [= <-])%rbind_Ok)%rbind_Ok).
        cbn [rbind]. done. }
      split; [done|]. exists (g a). by split. }
    split; [by eapply update_ok|]. erewrite update_view by done.
    unfold p. rewrite existsb_identity, E, bool_decide_true by done. f_equal.
    assert (Identity old = Identity ac) as Hid.
    { apply certs_view_Some in E as (row & _ & Hs & Hk); [|done].
      apply ScanActiveCert_identity in Hs as [-> _]. done. }
    unfold g, with_lock. by rewrite Hid.
  - rewrite bool_decide_false by (by intros [? [=]]).
    pose proof (active_cert_row_roundtrip ac ltac:(apply Hac) ltac:(apply Hac)) as Hs.
    eapply (append_view _ (with_lock ac zero_time "")); [done| |done|done].
    exists (with_lock ac zero_time ""). split; [done|]. done.
Qed.

Lemma Delete_table id t :
  certs_ok t →
  certs_ok (List.filter (λ row, negb (is_identity id row)) t) ∧
  certs_view (List.filter (λ row, negb (is_identity id row)) t) = delete id (certs_view t).
Proof.
  intros Ht.
  assert (certs_ok (List.filter (λ row, negb (is_identity id row)) t)) as Hok.
  { split; [by apply keys_unique_filter, Ht|]. apply Forall_forall. intros row Hin%list_elem_of_In.
    apply List.filter_In in Hin as [Hin%list_elem_of_In _]. destruct Ht as [_ Hall].
    rewrite Forall_forall in Hall. by apply Hall. }
  split; [done|]. apply map_eq. intros k. apply option_eq. intros x.
  rewrite certs_view_Some by done. setoid_rewrite list_elem_of_In. setoid_rewrite List.filter_In.
  unfold is_identity. setoid_rewrite negb_true_iff. setoid_rewrite bool_decide_eq_false.
  destruct (decide (k = id)) as [->|Hne].
  - rewrite lookup_delete_eq. split; [|done]. by intros (row & [_ ?] & _ & ?).
  - rewrite lookup_delete_ne, certs_view_Some by done. setoid_rewrite list_elem_of_In.
    split; intros (row & H1 & H2 & H3); exists row; [by destruct H1|].
    split; [split; [done|congruence]|done].
Qed.

Lemma Lock_table now id serial t :
  certs_ok t → clock_ok now →
  let f := set_lock (nowRFC3339 now) (if str_empty serial then None else Some serial) in
  certs_ok (update_where (is_identity id) f t) ∧
  certs_view (update_where (is_identity id) f t) = spec_lock now id serial (certs_view t).
Proof.
  intros Ht Hnow f. set (g ac := with_lock ac (truncate_second now) serial).
  assert (∀ row a, row ∈ t → is_identity id row = true → cert_row_ok row → ScanActiveCert row = Ok a →
    ScanActiveCert (f row) = Ok (g a) ∧ cert_row_ok (f row)) as Hg.
  { intros row a _ _ _ Ha. pose proof (lock_scan now serial row a Hnow Ha) as Hs.
    split; [done|]. exists (g a). split; [done|]. simpl. split; [done|].
    intros Hz. by destruct (lock_locked now Hnow). }
  assert (∀ row, row ∈ t → is_identity id row = true → c_identity row = id) as Hp
    by (intros row _ Hr; by apply bool_decide_eq_true in Hr).
  split; [by eapply update_ok|]. erewrite update_view by done. unfold spec_lock.
  rewrite existsb_identity by done. destruct (certs_view t !! id) eqn:E; [done|].
  by rewrite bool_decide_false by (by intros [? [=]]).
Qed.

Lemma Adopt_table id serial t :
  certs_ok t →
  certs_ok (update_where (adoptable_row id serial) collapse_row t) ∧
  certs_view (update_where (adoptable_row id serial) collapse_row t) = spec_adopt id serial (certs_view t).
Proof.
  intros Ht.
  assert (∀ row a, row ∈ t → adoptable_row id serial row = true → cert_row_ok row →
    ScanActiveCert row = Ok a →
    ScanActiveCert (collapse_row row) = Ok (collapse a) ∧ cert_row_ok (collapse_row row)) as Hg.
  { intros row a _ _ (a' & Ha' & Hl) Ha. assert (a' = a) as -> by congruence.
    pose proof (collapse_scan row a Ha) as Hs. split; [done|]. exists (collapse a). by split. }
  assert (∀ row, row ∈ t → adoptable_row id serial row = true → c_identity row = id) as Hp.
  { intros row _ Hr. unfold adoptable_row in Hr. apply andb_true_iff in Hr as [Hr _].
    apply andb_true_iff in Hr as [Hr _]. by apply bool_decide_eq_true in Hr. }
  split; [by eapply update_ok|]. erewrite update_view by done. unfold spec_adopt.
  by rewrite existsb_adoptable.
Qed.

#[export] Instance certs_db_laws : ActiveCertLaws (db rows).
Proof.
  refine {| ac_ok d := certs_ok (data d); ac_view d := certs_view (data d) |}.
  - intros id d r d' Ht. simpl. unfold SqlStore.ActiveCerts.Get.
    destruct (select_row id d) as [[[row|]|e] d1] eqn:Es; apply stmt_cases in Es as [_ H];
      intros [= <- <-]; pose proof (certs_find id (data d) Ht) as Hf.
    + destruct H as [[= E Hd]|(? & [=] & _)]. rewrite Hd. rewrite <- E in Hf.
      destruct Hf as (_ & _ & ac & Hs & Hv). rewrite Hs, Hv. split_and!; [done|done|by intros o [= <-]].
    + destruct H as [[= E Hd]|(? & [=] & _)]. rewrite Hd. rewrite <- E in Hf. rewrite Hf.
      split_and!; [done|done|by intros o [= <-]].
    + destruct H as [[=]|(e' & _ & _ & Hd)]. assert (data d1 = data d) as -> by (by destruct Hd).
      split_and!; done.
  - intros ac d r d' Ht Hac E. simpl in *. destruct (Upsert_table ac (data d) Ht Hac) as [Hok Hv].
    by destruct (stmt_outcome (λ _, tt) _ (spec_upsert ac) d r d' Ht Hok Hv E) as (? & ? & _).
  - intros id d r d' Ht E. simpl in *. unfold SqlStore.ActiveCerts.Delete in E.
    assert (certs_ok (List.filter (λ row, negb (is_identity id row)) (data d)) ∧
      certs_view (List.filter (λ row, negb (is_identity id row)) (data d)) =
        delete id (certs_view (data d))) as [Hok Hv].
    { by apply Delete_table. }
    by destruct (stmt_outcome (λ _, tt) _ (delete id) d r d' Ht Hok Hv E) as (? & ? & _).
  - intros now id serial d r d' Ht Hnow E. simpl in *.
    destruct (Lock_table now id serial (data d) Ht Hnow) as [Hok Hv].
    by destruct (stmt_outcome (λ _, tt) _ (spec_lock now id serial) d r d' Ht Hok Hv E) as (? & ? & _).
  - intros id serial d r d' Ht E. simpl in *.
    destruct (Adopt_table id serial (data d) Ht) as [Hok Hv].
    destruct (stmt_outcome _ _ (spec_adopt id serial) d r d' Ht Hok Hv E) as (? & ? & Hb).
    split_and!; [done|done|]. intros b Hr. by rewrite (Hb b Hr), existsb_adoptable.
Defined.
End ActiveCertLaws.

(** ** Revocations *)

Section RevocationTable.
Import SqlStore.Revocations.

(** The revocations a row can hold. *)
Definition rev_ok (r : Revocation) : Prop :=
  uint64_ok (Serial r) ∧ year_ok (Revoked r) ∧ empty_revocation r = false.

(** The table is the image of a list of revocations, in insertion order. *)
Definition represents (t : list RevocationRow) (rs : list Revocation) : Prop :=
  t = RevocationInsertArgs <$> rs ∧ Forall rev_ok rs.

(** Two revocations name the same serial or the same key ID. *)
Definition share (a b : Revocation) : bool :=
  (negb (Serial a =? 0) && (Serial a =? Serial b)) ||
  (negb (str_empty (KeyID a)) && bool_decide (KeyID a = KeyID b)).

(** A revocation names this serial or this key ID. *)
Definition names (serial : Z) (keyID : string) (r : Revocation) : bool :=
  (negb (serial =? 0) && (Serial r =? serial)) ||
  (negb (str_empty keyID) && bool_decide (KeyID r = keyID)).

Definition spec_revoke (now : time) (r : Revocation) (rs : list Revocation)
    : result unit * list Revocation :=
  if empty_revocation r then (Err ErrEmptyRevocation, rs) else
  (Ok tt, List.filter (λ x, negb (share (stamp now r) x)) rs ++ [stamp now r]).

Lemma col_serial r n :
  uint64_ok (Serial r) → uint64_ok n → n ≠ 0 →
  col_is (c_serial (RevocationInsertArgs r)) (FormatUint n) = (Serial r =? n).
Proof.
  intros Hr Hn Hn0. unfold col_is. cbn [RevocationInsertArgs c_serial]. apply eq_true_iff_eq.
  rewrite bool_decide_eq_true, Z.eqb_eq. destruct (Z.eqb_spec (Serial r) 0) as [E|E]; simpl.
  - rewrite E. split; [done|lia].
  - split; [intros [= H]; by apply FormatUint_inj|by intros ->].
Qed.

Lemma col_key r k :
  k ≠ "" → col_is (c_key_id (RevocationInsertArgs r)) k = bool_decide (KeyID r = k).
Proof.
  intros Hk. unfold col_is. cbn [RevocationInsertArgs c_key_id]. apply bool_decide_ext.
  unfold str_empty. case_bool_decide as E; simpl; [rewrite E; split; congruence|].
  split; [by intros [= ->]|by intros ->].
Qed.

Lemma row_matches serial keyID r :
  uint64_ok (Serial r) → uint64_ok serial →
  matches serial keyID (RevocationInsertArgs r) = names serial keyID r.
Proof.
  intros Hr Hs. unfold matches, names. f_equal.
  - destruct (Z.eqb_spec serial 0); [done|]. cbn [negb andb]. by rewrite col_serial.
  - destruct (str_empty keyID) eqn:E; [done|]. unfold str_empty in E.
    apply bool_decide_eq_false in E. cbn [negb andb]. by rewrite col_key.
Qed.

Lemma filter_filter (f g : Revocation → bool) l :
  List.filter f (List.filter g l) = List.filter (λ x, g x && f x) l.
Proof.
  induction l as [|x l IH]; simpl; [done|]. destruct (g x); simpl; [|done].
  destruct (f x); by rewrite IH.
Qed.

Lemma filter_ext_in (f g : Revocation → bool) l :
  (∀ x, x ∈ l → f x = g x) → List.filter f l = List.filter g l.
Proof.
  induction l as [|x l IH]; intros H; simpl; [done|]. rewrite (H x) by by left.
  rewrite IH by (intros; apply H; by right). done.
Qed.

(** The two deletions of [Revoke], on the revocations they act on. *)
Lemma revoke_deletes r rs :
  rev_ok r → Forall rev_ok rs →
  let del1 t := if negb (Serial r =? 0)
    then List.filter (λ row, negb (col_is (c_serial row) (FormatUint (Serial r)))) t else t in
  let del2 t := if negb (str_empty (KeyID r))
    then List.filter (λ row, negb (col_is (c_key_id row) (KeyID r))) t else t in
  del2 (del1 (RevocationInsertArgs <$> rs)) =
  RevocationInsertArgs <$> List.filter (λ x, negb (share r x)) rs.
Proof.
  intros (Hr & _ & _) Hrs del1 del2. rewrite Forall_forall in Hrs.
  assert (del1 (RevocationInsertArgs <$> rs) = RevocationInsertArgs <$>
    List.filter (λ x, negb (negb (Serial r =? 0) && (Serial r =? Serial x))) rs) as ->.
  { unfold del1. destruct (Z.eqb_spec (Serial r) 0) as [E|E]; cbn [negb andb].
    - f_equal. clear. induction rs as [|x l IH]; [done|]. simpl. by rewrite <- IH.
    - rewrite filter_fmap. f_equal. apply filter_ext_in. intros x Hx.
      rewrite col_serial; [by rewrite Z.eqb_sym|by apply Hrs|done|done]. }
  unfold del2, share. destruct (str_empty (KeyID r)) eqn:E; cbn [negb andb].
  - f_equal. apply filter_ext_in. intros x _. by rewrite orb_false_r.
  - rewrite filter_fmap, filter_filter. f_equal. apply filter_ext_in. intros x _.
    unfold str_empty in E. apply bool_decide_eq_false in E. rewrite col_key by done.
    rewrite negb_orb. f_equal. f_equal. apply bool_decide_ext. split; congruence.
Qed.

Lemma no_conflict r rs :
  rev_ok r → Forall rev_ok rs →
  existsb (conflicts (RevocationInsertArgs r))
    (RevocationInsertArgs <$> List.filter (λ x, negb (share r x)) rs) = false.
Proof.
  intros (Hr & _ & _) Hrs. rewrite Forall_forall in Hrs. apply not_true_iff_false. intros H.
  apply existsb_exists in H as (row & Hin%list_elem_of_In & Hc).
  apply list_elem_of_fmap in Hin as (x & -> & Hx%list_elem_of_In).
  apply List.filter_In in Hx as [Hx%list_elem_of_In Hn%negb_true_iff].
  destruct (Hrs x Hx) as (Hxs & _). unfold share in Hn. apply orb_false_iff in Hn as [Hn1 Hn2].
  unfold conflicts in Hc. cbn [RevocationInsertArgs c_serial c_key_id] in Hc.
  apply orb_true_iff in Hc as [Hc|Hc]; apply andb_true_iff in Hc as [Hs Hc];
    apply bool_decide_eq_true in Hs, Hc.
  - destruct (Z.eqb_spec (Serial r) 0); [by destruct Hs|]. cbn [negb andb] in *.
    apply Z.eqb_neq in Hn1. destruct (Z.eqb_spec (Serial x) 0); [done|]. simpl in Hc.
    injection Hc as Hc. by apply Hn1, FormatUint_inj.
  - destruct (str_empty (KeyID r)) eqn:E; [by destruct Hs|]. cbn [negb andb] in *.
    apply bool_decide_eq_false in Hn2. destruct (str_empty (KeyID x)); [done|]. simpl in Hc. congruence.
Qed.

Lemma stamp_ok now r :
  uint64_ok (Serial r) → year_ok (Revoked r) → year_ok now → empty_revocation r = false →
  rev_ok (stamp now r).
Proof.
  intros ? ? ? ?. unfold rev_ok, empty_revocation. destruct (stamp_keys now r) as [-> ->].
  split_and!; [done| |done]. unfold stamp. by case_match.
Qed.

(** The three statements of [Revoke], on the table. *)
Definition revoke_table (r : Revocation) : M table unit :=
  _ <-m (if negb (Serial r =? 0)
         then λ t, (Ok tt, List.filter (λ row, negb (col_is (c_serial row) (FormatUint (Serial r)))) t)
         else mret tt);;
  _ <-m (if negb (str_empty (KeyID r))
         then λ t, (Ok tt, List.filter (λ row, negb (col_is (c_key_id row) (KeyID r))) t)
         else mret tt);;
  λ t, if bool_decide (c_serial (RevocationInsertArgs r) = None ∧
                       c_key_id (RevocationInsertArgs r) = None)
    then (Err (ErrOpaque "CHECK constraint failed"), t) else
    if existsb (conflicts (RevocationInsertArgs r)) t then (Err err_unique, t)
    else (Ok tt, t ++ [RevocationInsertArgs r]).

Lemma Revoke_atomic now r :
  empty_revocation r = false → atomic (Revoke now r) (rollback (revoke_table (stamp now r))).
Proof.
  intros Ee. unfold Revoke. rewrite Ee. apply inTx_atomic. unfold revoke_table.
  eapply implements_bind; [apply implements_if; [apply implements_stmt|apply implements_ret]|].
  intros _. eapply implements_bind; [apply implements_if; [apply implements_stmt|apply implements_ret]|].
  intros _. apply implements_stmt.
Qed.

Lemma when_Ok (b : bool) (f : table → table) t :
  (if b then λ t, (Ok tt, f t) else mret tt) t = (Ok tt, if b then f t else t).
Proof. by destruct b. Qed.

Lemma rev_ok_nonempty r :
  rev_ok r → ¬ (c_serial (RevocationInsertArgs r) = None ∧ c_key_id (RevocationInsertArgs r) = None).
Proof.
  intros (_ & _ & H) [Hs Hk]. unfold empty_revocation in H. cbn [RevocationInsertArgs c_serial c_key_id] in *.
  destruct (Serial r =? 0); [|done]. destruct (str_empty (KeyID r)); done.
Qed.

Lemma revoke_table_spec r rs :
  rev_ok r → Forall rev_ok rs →
  revoke_table r (RevocationInsertArgs <$> rs) =
  (Ok tt, RevocationInsertArgs <$> (List.filter (λ x, negb (share r x)) rs ++ [r])).
Proof.
  intros Hr Hrs. unfold revoke_table.
  erewrite mbind_Ok by apply when_Ok. erewrite mbind_Ok by apply when_Ok.
  rewrite (revoke_deletes r rs Hr Hrs), bool_decide_false by by apply rev_ok_nonempty.
  rewrite no_conflict by done. by rewrite fmap_app.
Qed.

(** [Revoke] replaces every revocation that shares a serial or key ID with the new
    one, atomically, or reports a database error. *)
Lemma Revoke_spec now r rs d res d' :
  represents (data d) rs → uint64_ok (Serial r) → year_ok (Revoked r) → year_ok now →
  Revoke now r d = (res, d') →
  (res = (spec_revoke now r rs).1 ∧ represents (data d') (spec_revoke now r rs).2) ∨
  (∃ e, res = Err e ∧ injected e d ∧
     (represents (data d') rs ∨ represents (data d') (spec_revoke now r rs).2)).
Proof.
  intros [Ht Hrs] Hser Hrev Hnow E. unfold spec_revoke. destruct (empty_revocation r) eqn:Ee.
  { unfold Revoke in E. rewrite Ee in E. injection E as <- <-. left. split; [done|by split]. }
  pose proof (stamp_ok now r Hser Hrev Hnow Ee) as Hok.
  apply (Revoke_atomic now r Ee) in E as [_ E]. revert Hok E. generalize (stamp now r) as r'.
  intros r' Hok E. unfold rollback in E. rewrite Ht, (revoke_table_spec r' rs Hok Hrs) in E.
  assert (Forall rev_ok (List.filter (λ x, negb (share r' x)) rs ++ [r'])) as Hnew.
  { apply Forall_app. split; [|by constructor]. apply Forall_forall.
    intros x Hx%list_elem_of_In. apply List.filter_In in Hx as [Hx%list_elem_of_In _].
    rewrite Forall_forall in Hrs. by apply Hrs. }
  destruct E as [[= <- Hd]|(e & ? & ? & Hd)].
  - left. by split.
  - right. exists e. split_and!; [done|done|].
    destruct Hd as [Hd|[_ Hd]]; [left|right]; by split.
Qed.

(** ** Reading *)

Lemma represents_names t rs serial keyID :
  represents t rs → uint64_ok serial →
  existsb (matches serial keyID) t = existsb (names serial keyID) rs.
Proof.
  intros [-> Hrs] Hs. induction Hrs as [|x l Hx Hl IH]; [done|]. rewrite fmap_cons. simpl.
  rewrite IH, row_matches; [done|apply Hx|done].
Qed.

Lemma IsRevoked_spec serial keyID rs d b d' :
  represents (data d) rs → uint64_ok serial →
  IsRevoked serial keyID d = (b, d') →
  b = existsb (names serial keyID) rs ∨ (b = true ∧ ∃ e, injected e d).
Proof.
  intros Hr Hs. unfold IsRevoked. pose proof (represents_names _ _ serial keyID Hr Hs) as Hm.
  destruct ((serial =? 0) && str_empty keyID) eqn:E0.
  { intros [= <- <-]. left. apply andb_true_iff in E0 as [E1 E2]. symmetry.
    unfold names. rewrite E1, E2. clear. induction rs; done. }
  destruct (stmt _ d) as [[b'|e] d1] eqn:E.
  - intros [= <- <-]. apply stmt_cases in E as [_ [E|(? & ? & _)]]; [|done].
    injection E as -> _. left. exact Hm.
  - intros [= <- <-]. right. split; [done|]. exists e.
    apply stmt_cases in E as [_ [[=]|(e' & [= <-] & He & _)]]. done.
Qed.

Lemma ScanRevocations_represents rows rs :
  rows = RevocationInsertArgs <$> rs → Forall rev_ok rs → ScanRevocations rows = Ok rs.
Proof.
  intros -> H. induction H as [|r rs (Hs & Hy & Hn) Hl IH]; [done|].
  rewrite fmap_cons. unfold ScanRevocations in *. simpl.
  rewrite revocation_row_roundtrip by done. by rewrite IH.
Qed.
End RevocationTable.
