(* ===== verification/SqlCorrect.v ===== *)
(** * SqlCorrect: what the database backends guarantee

    The theorems about [SqlStore]: sequences of operations refine the abstract
    tables under any script of faults, the seeds are planted once, and the
    revocation table answers fail-closed. *)

From S2P Require Import Prelude GoText GoTime Keyed Policy Krl X509Engine Mtls Json Store Sql SqlTable SqlStore SqlFacts.

(** ** Sequences of operations

    [abs_step]: one operation of the abstract table as a client of a database
    sees it.  It is carried out and its result reported; or a database error is
    reported, and the operation was either not carried out or carried out in
    full. *)
Section Runs.
Context {T Op : Type} (spec : Op → M T unit) (inj : error → Prop).

Inductive abs_step (op : Op) (m : T) : result unit → T → Prop :=
  | step_done : abs_step op m (spec op m).1 (spec op m).2
  | step_lost e : inj e → abs_step op m (Err e) m
  | step_late e m' : inj e → spec op m = (Ok tt, m') → abs_step op m (Err e) m'.

Inductive abs_run : list Op → T → list (result unit) → T → Prop :=
  | run_nil m : abs_run [] m [] m
  | run_cons op ops m r m1 rs m2 :
      abs_step op m r m1 → abs_run ops m1 rs m2 → abs_run (op :: ops) m (r :: rs) m2.
End Runs.

Lemma abs_run_weaken {T Op} (spec : Op → M T unit) (P Q : error → Prop) ops m rs m' :
  (∀ e, P e → Q e) → abs_run spec P ops m rs m' → abs_run spec Q ops m rs m'.
Proof.
  intros H. induction 1 as [|op ops m r m1 rs m2 Hs _ IH]; [constructor|].
  econstructor; [|exact IH]. destruct Hs; [constructor|constructor 2|econstructor 3]; eauto.
Qed.

(** Without faults a run is the composition of the abstract operations. *)
Lemma abs_run_done {T Op} (spec : Op → M T unit) ops m rs m' :
  abs_run spec (λ _, False) ops m rs m' → (rs, m') = run_list spec ops m.
Proof.
  induction 1 as [|op ops m r m1 rs m2 Hs _ IH]; [done|]. simpl.
  destruct Hs as [|e []|e m' []]. destruct (spec op m) as [r m1]. simpl in *. by rewrite <- IH.
Qed.

Section RefineRuns.
Context {R V Op : Type} (rkey : R → string) (vkey : V → string) (scan : R → result V).
Context (exec : Op → M (db (list R)) unit) (spec : Op → M (gmap string V) unit) (op_ok : Op → Prop).
Hypothesis exec_refines : ∀ op, op_ok op → refines rkey vkey scan (exec op) (spec op).
Hypothesis exec_suffix : ∀ op d r d', exec op d = (r, d') → faults d' `suffix_of` faults d.

Lemma run_refines ops d rs d' :
  tbl_ok rkey vkey scan (data d) → Forall op_ok ops → run_list exec ops d = (rs, d') →
  tbl_ok rkey vkey scan (data d') ∧
  abs_run spec (λ e, injected e d) ops (view vkey scan (data d)) rs (view vkey scan (data d')).
Proof.
  intros Ht Hops. revert d rs d' Ht. induction Hops as [|op ops Hop _ IH]; intros d rs d' Ht; simpl.
  { intros [= <- <-]. split; [done|constructor]. }
  destruct (exec op d) as [r d1] eqn:E1. destruct (run_list exec ops d1) as [rs1 d2] eqn:E2.
  intros [= <- <-]. pose proof (exec_suffix _ _ _ _ E1) as Hs.
  destruct (exec_refines op Hop d r d1 Ht E1) as [Ht1 H1].
  destruct (IH d1 rs1 d2 Ht1 E2) as [Ht2 H2]. split; [done|].
  apply (run_cons _ _ _ _ _ _ (view vkey scan (data d1))).
  - destruct H1 as [H1|(e & -> & He & [->|[Ho ->]])].
    + destruct (spec op (view vkey scan (data d))) as [r' m'] eqn:E. injection H1 as -> ->.
      pose proof (step_done spec (λ e, injected e d) op (view vkey scan (data d))) as Hd.
      by rewrite E in Hd.
    + by constructor 2.
    + constructor 3; [done|]. destruct (spec op _) as [[[]|?] ?]; [done|by simpl in Ho].
  - eapply abs_run_weaken; [|exact H2]. intros e. by apply injected_suffix.
Qed.
End RefineRuns.

Lemma atomic_implements {T A} (m : M (db T) A) f : atomic m f → implements m f.
Proof.
  intros H d r d' E. apply H in E as [Hs E]. split; [done|].
  destruct E as [?|(e & ? & ? & _)]; [by left|]. right. by exists e.
Qed.

Lemma implements_suffix {T A} (m : M (db T) A) f d r d' :
  implements m f → m d = (r, d') → faults d' `suffix_of` faults d.
Proof. intros H E. by apply H in E as [? _]. Qed.

Section TableOps.
Context {R V : Type} (rkey : R → string) (vkey : V → string) (scan : R → result V).
Context (insert_args : V → result R) (errKey errExists errMissing : error).

Lemma Add_suffix v d r d' :
  SqlTable.Add rkey vkey insert_args errKey errExists v d = (r, d') →
  faults d' `suffix_of` faults d.
Proof.
  unfold SqlTable.Add. destruct (str_empty _); [by intros [= <- <-]|].
  eapply implements_suffix, atomic_implements, inTx_atomic. eapply implements_bind; [apply implements_stmt|].
  intros ex. apply implements_if; [apply implements_fail|apply implements_insert].
Qed.

Lemma Replace_suffix old v d r d' :
  SqlTable.Replace rkey vkey insert_args errKey errExists errMissing old v d = (r, d') →
  faults d' `suffix_of` faults d.
Proof.
  unfold SqlTable.Replace. destruct (str_empty _); [by intros [= <- <-]|].
  eapply implements_suffix, atomic_implements, inTx_atomic.
  eapply implements_bind; [apply implements_stmt|]. intros ex.
  apply implements_if; [apply implements_fail|].
  eapply implements_bind; [apply implements_if; [apply implements_stmt|apply implements_ret]|].
  intros collide. apply implements_if; [apply implements_fail|].
  eapply implements_bind; [apply implements_stmt|]. intros n. apply implements_insert.
Qed.

Lemma Delete_suffix k d r d' :
  SqlTable.Delete rkey errMissing k d = (r, d') → faults d' `suffix_of` faults d.
Proof.
  eapply implements_suffix, implements_bind; [apply implements_stmt|].
  intros n. apply implements_if; [apply implements_fail|apply implements_ret].
Qed.
End TableOps.

(** ** Roles *)

Section RoleStore.
Import SqlStore.Roles.

Inductive role_op :=
  | RAdd (now : time) (r : Role) (source : string)
  | RReplace (now : time) (oldName : string) (r : Role) (source : string)
  | RDelete (name : string).

Definition exec_role (o : role_op) : M (db table) unit :=
  match o with
  | RAdd now r src => Add now r src
  | RReplace now old r src => Replace now old r src
  | RDelete name => Delete name
  end.

Definition spec_role (o : role_op) : M (gmap string RoleRecord) unit :=
  match o with
  | RAdd _ r src => spec_add key errNameRequired InMemoryStore.ErrRoleExists (record r src)
  | RReplace _ old r src => spec_replace key errNameRequired InMemoryStore.ErrRoleExists
      InMemoryStore.ErrRoleNotFound old (record r src)
  | RDelete name => spec_delete InMemoryStore.ErrRoleNotFound name
  end.

Definition role_op_ok (o : role_op) : Prop :=
  match o with RAdd _ r _ | RReplace _ _ r _ => role_ok r | RDelete _ => True end.

Lemma exec_role_refines o :
  role_op_ok o → refines c_name key ScanRoleRecord (exec_role o) (spec_role o).
Proof.
  destruct o; intros Ho; [by apply Roles_Add_refines|by apply Roles_Replace_refines|apply Roles_Delete_refines].
Qed.

Lemma exec_role_suffix o d r d' : exec_role o d = (r, d') → faults d' `suffix_of` faults d.
Proof. destruct o; [apply Add_suffix|apply Replace_suffix|apply Delete_suffix]. Qed.

(** Fault-free reads answer from the view. *)
Lemma ByName_view t name :
  roles_ok t → (ByName name (mkDb t [])).1 = RecRole <$> roles_view t !! name.
Proof.
  intros Ht. unfold ByName. destruct (find_key _ _ name (mkDb t [])) as [[o|e] d'] eqn:E;
    apply (find_key_spec c_name key) in E as [_ [H|(e' & He & [Hi|Hi])]]; try done;
    try (by apply elem_of_nil in Hi).
  injection H as ->. done.
Qed.

Lemma RolesForGroups_view t groups r :
  roles_ok t →
  r ∈ (RolesForGroups groups (mkDb t [])).1 ↔
  GroupClaim r ∈ groups ∧ ∃ name rec, roles_view t !! name = Some rec ∧ RecRole rec = r.
Proof.
  intros Ht. pose proof (records_unique c_name key ScanRoleRecord t Ht) as Hu. split.
  - intros Hr. destruct (@ps_sound _ roles_db_Store roles_db_laws (mkDb t []) groups r I Hr) as [Hin Hg]. split; [done|].
    simpl in Hin. apply list_elem_of_fmap in Hin as (rec & -> & Hrec). exists (key rec), rec.
    split; [|done]. by apply to_map_Some.
  - intros (Hg & name & rec & Hv & <-). apply to_map_Some in Hv as [Hrec _]; [|done].
    by apply RolesForGroups_complete.
Qed.

(** C18: the database role store implements the abstract role table.  For every
    sequence of Add/Replace/Delete on either database, and whatever requests or
    replies the database loses on the way, each call returns what the finite map
    returns for it, duplicate and missing names included, or a database error; a
    call that reported a database error either did nothing or took full effect;
    the JSON columns of every row still decode; and what the next fault-free
    lookups return is the map: a role by name, and for a group list exactly the
    roles whose claim is listed. *)
Theorem sql_roles_refine ops d rs d' :
  roles_ok (data d) → Forall role_op_ok ops → run_list exec_role ops d = (rs, d') →
  roles_ok (data d') ∧
  abs_run spec_role (λ e, injected e d) ops (roles_view (data d)) rs (roles_view (data d')) ∧
  (∀ name, (ByName name (mkDb (data d') [])).1 = RecRole <$> roles_view (data d') !! name) ∧
  (∀ groups r, r ∈ (RolesForGroups groups (mkDb (data d') [])).1 ↔
     GroupClaim r ∈ groups ∧ ∃ name rec, roles_view (data d') !! name = Some rec ∧ RecRole rec = r).
Proof.
  intros Ht Hops E.
  destruct (run_refines c_name key ScanRoleRecord exec_role spec_role role_op_ok
    exec_role_refines exec_role_suffix ops d rs d' Ht Hops E) as [Ht' Hrun].
  split_and!; [done|done|intros name; by apply ByName_view|
    intros groups r; by apply RolesForGroups_view].
Qed.

(** The rows of a seed, in order. *)
Definition seeded (roles : list Role) : list RoleRecord := (λ r, record r SourceConfig) <$> roles.

Lemma seed_rows_table now roles :
  Forall role_ok roles →
  ∃ f, implements (seed_rows now roles) f ∧ ∀ t, Forall (row_ok c_name key ScanRoleRecord) t →
    Forall (row_ok c_name key ScanRoleRecord) (f t).2 ∧
    (is_ok (f t).1 = true →
     records ScanRoleRecord (f t).2 = records ScanRoleRecord t ++ seeded roles ∧
     (NoDup (c_name <$> t) → NoDup (c_name <$> (f t).2))).
Proof.
  induction 1 as [|r roles Hr _ IH].
  { exists (mret tt). split; [apply implements_ret|]. intros t Ht. split; [done|]. intros _.
    by rewrite app_nil_r. }
  destruct IH as (g & Hg & Hgt). simpl. destruct (str_empty (Policy.Name r)).
  { exists (mfail (ErrNew "seed role has empty name")). by split; [apply implements_fail|]. }
  destruct (role_args_scan now (record r SourceConfig) Hr) as (row & Hrow & Hs & Hk).
  exists (mbind (insert_fn c_name (role_args now) (record r SourceConfig)) (λ _, g)). split.
  { eapply implements_bind; [apply implements_insert|done]. }
  intros t Ht. unfold mbind, insert_fn. rewrite Hrow.
  destruct (existsb _ t) eqn:Ex; [done|].
  assert (Forall (row_ok c_name key ScanRoleRecord) (t ++ [row])) as Ht'.
  { apply Forall_app. split; [done|]. constructor; [by exists (record r SourceConfig)|constructor]. }
  destruct (Hgt _ Ht') as [Hok Hrec]. split; [done|]. intros Hi.
  destruct (Hrec Hi) as [Hrec1 Hnd]. split.
  - rewrite Hrec1, records_app, (records_cons ScanRoleRecord row (record r SourceConfig) []) by done.
    by rewrite <- app_assoc.
  - intros Hn. apply Hnd. apply (keys_unique_snoc c_name); [done|].
    apply to_map_None. intros row' Hin Hk'. rewrite <- not_true_iff_false in Ex. apply Ex, existsb_exists.
    exists row'. rewrite <- list_elem_of_In. split; [done|]. by apply bool_decide_eq_true.
Qed.

(** The role file seeds the database once.  When the table already has a row
    the seed changes nothing, so roles edited at run time survive a restart; on an
    empty table the outcome is all or nothing: the roles of the file, marked as
    coming from it and in its order, or an empty table and an error. *)
Theorem sql_seed_roles_once now roles d res d' :
  roles_ok (data d) → Forall role_ok roles → SeedRolesIfEmpty now roles d = (res, d') →
  roles_ok (data d') ∧
  (data d ≠ [] → data d' = data d ∧ res ≠ Ok true) ∧
  (data d = [] →
   (records ScanRoleRecord (data d') = seeded roles ∧
      (res = Ok (negb (bool_decide (roles = []))) ∨ ∃ e, res = Err e ∧ injected e d)) ∨
   (data d' = [] ∧ ∃ e, res = Err e)).
Proof.
  intros Ht Hroles E. destruct (seed_rows_table now roles Hroles) as (f & Hf & Hft).
  unfold SeedRolesIfEmpty in E. eapply inTx_atomic in E; cycle 1.
  { eapply implements_bind; [apply implements_stmt|]. intros n.
    apply implements_if; [apply implements_ret|]. eapply implements_bind; [exact Hf|].
    intros u. apply implements_ret. }
  destruct E as [_ E]. unfold rollback in E. erewrite mbind_Ok in E by done.
  destruct (data d) as [|row0 t0] eqn:Ed.
  - cbn [length Nat.eqb negb] in E. unfold mbind, mret in E.
    destruct (Hft [] ltac:(constructor)) as [Hok Hrec]. destruct (f []) as [[[]|e] t1]; simpl in *.
    + destruct (Hrec eq_refl) as [Hrec1 Hnd].
      assert (roles_ok t1) as Ht1 by (split; [apply Hnd; constructor|done]).
      destruct E as [[= -> ->]|(e & -> & He & [->|[_ ->]])]; (split; [done|split; [done|intros _]]).
      * left. split; [done|by left].
      * right. split; [done|by exists e].
      * left. split; [done|right; by exists e].
    + destruct E as [[= -> ->]|(e' & -> & He & [->|[? _]])]; [..|done];
        (split; [done|split; [done|intros _]]); right; (split; [done|by eexists]).
  - cbn [length Nat.eqb negb] in E. unfold mret in E. simpl in E.
    destruct E as [[= -> ->]|(e & -> & He & [->|[_ ->]])]; (split; [done|split; [done|done]]).
Qed.
End RoleStore.

(** ** Principals *)

Section PrincipalStore.
Import SqlStore.Principals.

Inductive principal_op :=
  | PAdd (now : time) (p : Principal) (source : string)
  | PReplace (now : time) (oldSAN : string) (p : Principal) (source : string)
  | PDelete (san : string).

Definition exec_principal (o : principal_op) : M (db table) unit :=
  match o with
  | PAdd now p src => Add now p src
  | PReplace now old p src => Replace now old p src
  | PDelete san => Delete san
  end.

Definition spec_principal (o : principal_op) : M (gmap string PrincipalRecord) unit :=
  match o with
  | PAdd _ p src => spec_add key errSANRequired ErrPrincipalExists (record p src)
  | PReplace _ old p src => spec_replace key errSANRequired ErrPrincipalExists
      ErrPrincipalNotFound old (record p src)
  | PDelete san => spec_delete ErrPrincipalNotFound san
  end.

Definition principal_op_ok (o : principal_op) : Prop :=
  match o with PAdd _ p _ | PReplace _ _ p _ => strings_ok (Mtls.Groups p) | PDelete _ => True end.

Lemma exec_principal_refines o :
  principal_op_ok o → refines c_san key ScanPrincipalRecord (exec_principal o) (spec_principal o).
Proof.
  destruct o; intros Ho;
    [by apply Principals_Add_refines|by apply Principals_Replace_refines|apply Principals_Delete_refines].
Qed.

Lemma exec_principal_suffix o d r d' :
  exec_principal o d = (r, d') → faults d' `suffix_of` faults d.
Proof. destruct o; [apply Add_suffix|apply Replace_suffix|apply Delete_suffix]. Qed.

(** The database principal registry implements the abstract one.  After any
    sequence of Add/Replace/Delete, with any database failures, an mTLS lookup
    that succeeds returns the registered principal of the first presented SAN that
    is registered; it says unknown only when no presented SAN is registered, and
    any other failure is the database's: an unregistered client is never accepted
    and a database error is never an acceptance. *)
Theorem sql_principals_refine ops d rs d1 sans res d2 :
  principals_ok (data d) → Forall principal_op_ok ops →
  run_list exec_principal ops d = (rs, d1) → Lookup sans d1 = (res, d2) →
  principals_ok (data d1) ∧ data d2 = data d1 ∧
  abs_run spec_principal (λ e, injected e d) ops
    (principals_view (data d)) rs (principals_view (data d1)) ∧
  match res with
  | Ok p => ∃ l1 l2 rec, sans = l1 ++ MatchedSAN p :: l2 ∧
      principals_view (data d1) !! MatchedSAN p = Some rec ∧ RecPrincipal rec = p ∧
      ∀ s, s ∈ l1 → principals_view (data d1) !! s = None
  | Err e => (sans = [] ∧ e = ErrNoClientCert) ∨
      (e = ErrUnknownPrincipal ∧ ∀ s, s ∈ sans → principals_view (data d1) !! s = None) ∨
      injected e d1
  end.
Proof.
  intros Ht Hops E1 E2.
  destruct (run_refines c_san key ScanPrincipalRecord exec_principal spec_principal principal_op_ok
    exec_principal_refines exec_principal_suffix ops d rs d1 Ht Hops E1) as [Ht1 Hrun].
  unfold Lookup in E2. case_bool_decide as Hs.
  - injection E2 as <- <-. split_and!; [done|done|done|by left].
  - apply Principals_lookup_loop in E2 as [Hd H]; [|done]. split_and!; [done|done|done|].
    destruct res; [done|by right].
Qed.
End PrincipalStore.

(** ** Revocations *)

Section RevocationStore.
Import SqlStore.Revocations.

(** A recorded revocation and its call. *)
Definition revoke_ok (c : time * Revocation) : Prop :=
  uint64_ok (Serial c.2) ∧ year_ok (Revoked c.2) ∧ year_ok c.1.

Definition exec_revoke (c : time * Revocation) : M (db table) unit := Revoke c.1 c.2.
Lemma Revoke_faultless now r rs d res d' :
  represents (data d) rs → faults d = [] → revoke_ok (now, r) → Revoke now r d = (res, d') →
  res = (spec_revoke now r rs).1 ∧ represents (data d') (spec_revoke now r rs).2 ∧ faults d' = [].
Proof.
  intros Hr Hf (Hs & Hv & Hn) E. simpl in *.
  destruct (Revoke_spec now r rs d res d' Hr Hs Hv Hn E) as [[-> Hd]|(e & _ & [He|He] & _)];
    [|rewrite Hf in He; by apply elem_of_nil in He..].
  split_and!; [done|done|]. apply suffix_nil_inv. rewrite <- Hf.
  destruct (empty_revocation r) eqn:Ee.
  - unfold Revoke in E. rewrite Ee in E. by injection E as _ <-.
  - by apply (Revoke_atomic now r Ee) in E as [? _].
Qed.

Lemma Snapshot_represents dl now t rs :
  represents t rs → Snapshot.Entries (Snapshot dl now (mkDb t [])).1 ≡ₚ rs.
Proof.
  intros [-> Hrs]. unfold Snapshot. cbn [stmt faults data].
  set (sorted := merge_sort _ _).
  assert (sorted ≡ₚ RevocationInsertArgs <$> rs) as Hp by apply merge_sort_Permutation.
  destruct (Permutation_map_inv _ _ Hp) as (rs' & Hs & Hp').
  rewrite (ScanRevocations_represents sorted rs'); [|done|by rewrite <- Hp'].
  simpl. by symmetry.
Qed.

(** ** Against the store in memory *)

(** The state after a call, without the failures. *)
Definition spec_revocation (c : time * Revocation) : M Krl.InMemoryStore.t unit :=
  Krl.InMemoryStore.Revoke c.1 c.2.

(** A later revocation of the same certificate names at least what an earlier one
    did. *)
Definition covers (later earlier : Revocation) : Prop :=
  (Serial earlier = 0 ∨ Serial earlier = Serial later) ∧ (KeyID earlier = "" ∨ KeyID earlier = KeyID later).

Definition kept_by (later earlier : Revocation) : Prop := share later earlier = true → covers later earlier.

Fixpoint names_kept (l : list Revocation) : Prop :=
  match l with [] => True | r :: l => Forall (λ later, kept_by later r) l ∧ names_kept l end.

Lemma share_true a b :
  share a b = true ↔ (Serial a ≠ 0 ∧ Serial a = Serial b) ∨ (KeyID a ≠ "" ∧ KeyID a = KeyID b).
Proof.
  unfold share, str_empty.
  rewrite orb_true_iff, !andb_true_iff, !negb_true_iff, Z.eqb_neq, Z.eqb_eq, bool_decide_eq_false, bool_decide_eq_true.
  done.
Qed.

Lemma kept_by_stamp now later now' earlier : kept_by later earlier → kept_by (stamp now later) (stamp now' earlier).
Proof.
  unfold kept_by, covers. rewrite !share_true.
  by destruct (stamp_keys now later) as [-> ->], (stamp_keys now' earlier) as [-> ->].
Qed.

(** The rows and the two indexes hold the same revocations. *)
Record same_entries (rs : list Revocation) (mem : Krl.InMemoryStore.t) : Prop := {
  same_inv : store_inv mem;
  same_once : NoDup rs;
  same_elem x : x ∈ rs ↔ entries mem x;
}.

Lemma spec_revocation_empty c s :
  empty_revocation c.2 = true → spec_revocation c s = (Err ErrEmptyRevocation, s).
Proof. unfold spec_revocation, Krl.InMemoryStore.Revoke. by intros ->. Qed.

(** A revocation that names all that the entries it replaces name replaces the same
    ones in both. *)
Lemma Revoke_same now r rs mem :
  same_entries rs mem → uint64_ok (Serial r) → empty_revocation r = false →
  (∀ x, x ∈ rs → kept_by (stamp now r) x) →
  ∃ mem', Krl.InMemoryStore.Revoke now r mem = (Ok tt, mem') ∧
    same_entries (List.filter (λ x, negb (share (stamp now r) x)) rs ++ [stamp now r]) mem'.
Proof.
  intros [Hi Hnd Hel] Hu Ee Hkept.
  destruct (Krl.InMemoryStore.Revoke now r mem) as [res mem'] eqn:E.
  assert (res = Ok tt) as -> by (unfold Krl.InMemoryStore.Revoke in E; rewrite Ee in E; by injection E).
  exists mem'. split; [done|]. destruct (stamp_keys now r) as [Es Ek].
  pose proof (Revoke_lookup _ _ _ _ E) as [Hs Hk].
  assert (Serial r ≠ 0 ∨ KeyID r ≠ "") as Hne.
  { destruct (decide (Serial r = 0)) as [E0|]; [|by left]. right. intros E1.
    unfold empty_revocation, str_empty in Ee. by rewrite E0, E1 in Ee. }
  assert (∀ x, x ∈ List.filter (λ x, negb (share (stamp now r) x)) rs ↔ x ∈ rs ∧ share (stamp now r) x = false) as Hfil.
  { intros x. by rewrite elem_of_filter_bool, negb_true_iff. }
  split.
  - by eapply Revoke_inv.
  - apply NoDup_app. split_and!; [apply NoDup_ListNoDup, List.NoDup_filter, NoDup_ListNoDup, Hnd| |apply NoDup_singleton].
    intros x [_ Hx]%Hfil ->%list_elem_of_singleton. apply not_true_iff_false in Hx. apply Hx, share_true.
    rewrite Es, Ek. naive_solver.
  - intros x. rewrite elem_of_app, Hfil, list_elem_of_singleton, Hel. split.
    + intros [[Hx Hsh]| ->].
      * apply not_true_iff_false in Hsh. rewrite share_true, Es, Ek in Hsh.
        destruct Hx as [[k Hx]|[k Hx]]; [left|right]; exists k.
        -- rewrite Hs, decide_False; [done|]. intros [-> ?]. apply Hsh. left. by apply (inv_serial mem Hi) in Hx as [-> _].
        -- rewrite Hk, decide_False; [done|]. intros [-> ?]. apply Hsh. right. by apply (inv_keyID mem Hi) in Hx as [-> _].
      * destruct Hne as [Hne|Hne]; [left; exists (Serial r); by rewrite Hs, decide_True|right; exists (KeyID r); by rewrite Hk, decide_True].
    + intros [->|[Hx H]]%(Revoke_entries now r mem mem' x E); [by right|]. left. split; [done|].
      apply not_true_iff_false. intros Hsh. destruct (Hkept x (proj2 (Hel x) Hx) Hsh) as [C1 C2]. rewrite Es in C1. rewrite Ek in C2.
      destruct H as [(k & [? ?]%(inv_serial mem Hi) & Hn)|(k & [? ?]%(inv_keyID mem Hi) & Hn)]; naive_solver congruence.
Qed.

(** One call on the database, as a client sees it. *)
Lemma Revoke_step c d rs res d' mem :
  represents (data d) rs → same_entries rs mem → revoke_ok c → (∀ x, x ∈ rs → kept_by (stamp c.1 c.2) x) →
  exec_revoke c d = (res, d') →
  faults d' `suffix_of` faults d ∧ ∃ rs' mem',
    represents (data d') rs' ∧ same_entries rs' mem' ∧ (∀ x, x ∈ rs' → x ∈ rs ∨ x = stamp c.1 c.2) ∧
    abs_step spec_revocation (λ e, injected e d) c mem res mem'.
Proof.
  intros Hr Hm (Hs & Hv & Hn) Hkept E. destruct c as [now r]. unfold exec_revoke in E. simpl in *. split.
  { destruct (empty_revocation r) eqn:Ee; [unfold Revoke in E; rewrite Ee in E; by injection E as _ <-|].
    by apply (Revoke_atomic now r Ee) in E as [? _]. }
  apply (Revoke_spec now r rs d res d' Hr Hs Hv Hn) in E. unfold spec_revoke in E.
  destruct (empty_revocation r) eqn:Ee; simpl in E.
  { exists rs, mem. pose proof (spec_revocation_empty (now, r) mem Ee) as Es.
    pose proof (step_done spec_revocation (λ e, injected e d) (now, r) mem) as Hd'. rewrite Es in Hd'.
    destruct E as [[-> Hd1]|(e & -> & He & [Hd1|Hd1])]; (split_and!; [done|done|by left|]); [done|by constructor 2..]. }
  destruct (Revoke_same now r rs mem Hm Hs Ee Hkept) as (mem1 & E1 & Hm1).
  set (rs1 := _ ++ _) in *.
  assert (∀ x, x ∈ rs1 → x ∈ rs ∨ x = stamp now r) as Hin.
  { intros x [Hx|Hx%list_elem_of_singleton]%elem_of_app; [left|by right]. by apply elem_of_filter_bool in Hx as [? _]. }
  pose proof (step_done spec_revocation (λ e, injected e d) (now, r) mem) as Hd.
  unfold spec_revocation at 2 3 in Hd. simpl in Hd. rewrite E1 in Hd.
  destruct E as [[-> Hd1]|(e & -> & He & [Hd1|Hd1])].
  - by exists rs1, mem1.
  - exists rs, mem. split_and!; [done|done|by left|by constructor 2].
  - exists rs1, mem1. split_and!; [done..|]. by constructor 3.
Qed.

Lemma revoke_calls calls d rs0 rs d' mem :
  represents (data d) rs0 → same_entries rs0 mem → Forall revoke_ok calls →
  (∀ x c, x ∈ rs0 → c ∈ calls → kept_by (stamp c.1 c.2) x) → names_kept calls.*2 →
  run_list exec_revoke calls d = (rs, d') →
  ∃ rs' mem', represents (data d') rs' ∧ same_entries rs' mem' ∧
    abs_run spec_revocation (λ e, injected e d) calls mem rs mem'.
Proof.
  intros Hr Hm Hok. revert d rs0 rs mem Hr Hm. induction Hok as [|c calls Hc _ IH]; intros d rs0 rs mem Hr Hm Hold Hk; simpl.
  { intros [= <- <-]. exists rs0, mem. split_and!; [done|done|constructor]. }
  destruct (exec_revoke c d) as [res d1] eqn:E1. destruct (run_list exec_revoke calls d1) as [rs1 d2] eqn:E2.
  intros [= <- <-]. destruct Hk as [Hk1 Hk].
  destruct (Revoke_step c d rs0 res d1 mem Hr Hm Hc) as (Hf & rs2 & mem2 & Hr2 & Hm2 & Hin & Hs); [|done|].
  { intros x Hx. apply Hold; [done|by left]. }
  destruct (IH d1 rs2 rs1 mem2 Hr2 Hm2) as (rs3 & mem3 & Hr3 & Hm3 & Hrun); [|done|done|].
  { intros x c' [Hx| ->]%Hin Hc'; [apply Hold; [done|by right]|]. apply kept_by_stamp.
    eapply Forall_forall in Hk1; [exact Hk1|]. apply list_elem_of_fmap. by exists c'. }
  exists rs3, mem3. split_and!; [done|done|]. econstructor; [exact Hs|].
  eapply abs_run_weaken; [|exact Hrun]. intros e. by apply injected_suffix.
Qed.

(** The two stores, asked. *)
Lemma same_IsRevoked rs mem serial keyID :
  same_entries rs mem → existsb (names serial keyID) rs = Krl.InMemoryStore.IsRevoked mem serial keyID.
Proof.
  intros [Hi _ Hel]. apply eq_true_iff_eq. rewrite IsRevoked_entries, existsb_exists by done.
  setoid_rewrite <- list_elem_of_In. setoid_rewrite Hel. unfold names, str_empty.
  setoid_rewrite orb_true_iff. setoid_rewrite andb_true_iff. setoid_rewrite negb_true_iff.
  setoid_rewrite Z.eqb_neq. setoid_rewrite Z.eqb_eq. setoid_rewrite bool_decide_eq_false.
  by setoid_rewrite bool_decide_eq_true.
Qed.

Lemma Snapshot_fails_empty dl now d rs :
  represents (data d) rs →
  Krl.Snapshot.Entries (Snapshot dl now d).1 ≡ₚ rs ∨
  (Krl.Snapshot.Entries (Snapshot dl now d).1 = [] ∧ ∃ e, injected e d).
Proof.
  intros Hr. pose proof (Snapshot_represents dl now (data d) rs Hr) as Hs. unfold Snapshot in *.
  cbn [stmt faults data] in Hs. destruct (stmt _ d) as [[rows|e] d1] eqn:E.
  - left. apply stmt_cases in E as [_ [E|(? & ? & _)]]; [|done]. injection E as -> _. exact Hs.
  - right. split; [done|]. exists e. apply stmt_cases in E as [_ [[=]|(e' & [= <-] & ? & _)]]. done.
Qed.

(** C19: the revocation table does what the store in memory does.  Take any sequence
    of [Revoke] calls on an empty table, in which a later call that shares a serial or
    a key ID with an earlier one also names whatever else that one named, so that it
    replaces its annotation, or adds to what it names; and let the database fail as it
    may.  Then the results are those of the store in memory on the same calls, but
    that a call may report a database error, and then it has happened in full or not
    at all.  Afterwards, the database failing as it may, [IsRevoked] answers as that
    store does, or, on a database error, that the certificate is revoked; and the
    snapshot has exactly that store's entries, or, on a database error, none. *)
Theorem sql_revocations_refine calls d rs d' :
  data d = [] → Forall revoke_ok calls → names_kept calls.*2 →
  run_list exec_revoke calls d = (rs, d') →
  ∃ mem, abs_run spec_revocation (λ e, injected e d) calls Krl.InMemoryStore.NewInMemoryStore rs mem ∧
    (∀ serial keyID fs b d2, uint64_ok serial → IsRevoked serial keyID (mkDb (data d') fs) = (b, d2) →
       b = Krl.InMemoryStore.IsRevoked mem serial keyID ∨
       (b = true ∧ ∃ e, injected e (mkDb (data d') fs))) ∧
    (∀ dl now fs, let es := Krl.Snapshot.Entries (Snapshot dl now (mkDb (data d') fs)).1 in
       es ≡ₚ Krl.Snapshot.Entries (Krl.InMemoryStore.Snapshot now mem) ∨
       (es = [] ∧ ∃ e, injected e (mkDb (data d') fs))).
Proof.
  intros Hd Hok Hk E.
  destruct (revoke_calls calls d [] rs d' Krl.InMemoryStore.NewInMemoryStore)
    as (rs' & mem & Hr & Hm & Hrun); [by rewrite Hd| |done| |done|done|].
  { split; [apply new_store_inv|constructor|]. intros x. split; [by intros ?%not_elem_of_nil|].
    intros [[k Hx]|[k Hx]]; simpl in Hx; by rewrite lookup_empty in Hx. }
  { by intros x c ?%not_elem_of_nil. }
  exists mem. split_and!; [done| |].
  - intros serial keyID fs b d2 Hs Ei. rewrite <- (same_IsRevoked rs' mem) by done. by eapply IsRevoked_spec.
  - intros dl now fs es. destruct (Snapshot_fails_empty dl now (mkDb (data d') fs) rs' Hr) as [Hp|?]; [left|by right].
    unfold es. rewrite Hp. destruct Hm as [Hi Hnd Hel]. apply NoDup_Permutation; [done|by apply snapshot_NoDup|].
    intros x. by rewrite elem_of_snapshot.
Qed.

(** IsRevoked fails closed on the database: whatever the database loses, a
    revoke call that reported success and any sequence of lookups later, the
    serial or key ID it named is reported as revoked, and a certificate is
    reported as not revoked only when the table really has no entry naming it. *)
Theorem sql_is_revoked_fail_closed now r rs d d1 serial keyID fs b d2 :
  represents (data d) rs → revoke_ok (now, r) → uint64_ok serial →
  Revoke now r d = (Ok tt, d1) →
  IsRevoked serial keyID (mkDb (data d1) fs) = (b, d2) →
  (names serial keyID r = true → b = true) ∧
  (b = false → existsb (names serial keyID) (spec_revoke now r rs).2 = false).
Proof.
  intros Hr (Hs & Hv & Hn) Hser E1 E2. simpl in *.
  destruct (Revoke_spec now r rs d _ d1 Hr Hs Hv Hn E1) as [[Hres Hr1]|(e & [=] & _)].
  pose proof (IsRevoked_spec serial keyID _ (mkDb (data d1) fs) b d2 Hr1 Hser E2) as Hb.
  split; [|intros ->; by destruct Hb as [<-|[[=] _]]].
  intros Hnm. destruct Hb as [->|[-> _]]; [|done]. unfold spec_revoke in *.
  destruct (empty_revocation r); [done|]. simpl. apply existsb_exists. exists (stamp now r).
  split; [apply in_or_app; right; by left|]. unfold names in *.
  by destruct (stamp_keys now r) as [-> ->].
Qed.

(** The overwrite of the database differs from the in-memory store's: a call that
    names only a serial deletes the row that also held a key ID, and the key ID is
    no longer revoked. *)
Definition revoke_both : Revocation := mkRevocation 5 "host-7" "stolen" "admin" (10 * ns_per_sec).
Definition revoke_serial : Revocation := mkRevocation 5 "" "again" "admin" (20 * ns_per_sec).

Lemma sql_revoke_unrevokes :
  let d := (run_list exec_revoke [(0, revoke_both); (0, revoke_serial)] (mkDb [] [])).2 in
  (IsRevoked 0 "host-7" (run_list exec_revoke [(0, revoke_both)] (mkDb [] [])).2).1 = true ∧
  (IsRevoked 0 "host-7" d).1 = false.
Proof. by vm_compute. Qed.
End RevocationStore.

(** ** Instances *)
Module SqlExamples.

Definition ops_role : Role :=
  mkRole "ops" "grp-ops" ["root"; "deploy"] ["*.prod"] ["spiffe://td/*"]
    3600 0 0 {[ "permit-pty" := "" ]}.

Lemma ops_role_ok : role_ok ops_role.
Proof.
  assert (∀ l, forallb utf8_valid l = true → strings_ok l) as Hall.
  { intros l H. apply Forall_forall. intros x Hx%list_elem_of_In. by eapply forallb_forall in H. }
  split_and!; [by apply Hall..|]. intros k v Hk. cbn [ops_role DefaultExtensions] in Hk.
  apply lookup_singleton_Some in Hk as [<- <-]. by split.
Qed.

Definition role_calls : list role_op :=
  [RAdd 0 ops_role SourcePortal; RAdd 0 ops_role ""; RReplace 0 "ops" ops_role ""; RDelete "gone"].

(** The second call's reply is lost. *)
Definition role_run :=
  run_list exec_role role_calls
    (mkDb [] [NoFault; NoFault; NoFault; NoFault; Lost (ErrOpaque "connection reset")]).

Lemma sql_roles_refine_witness :
  roles_ok (data role_run.2) ∧
  length (filter (λ r, is_ok r = true) role_run.1) = 2%nat ∧
  (∀ groups r, r ∈ (SqlStore.Roles.RolesForGroups groups (mkDb (data role_run.2) [])).1 ↔
     GroupClaim r ∈ groups ∧
     ∃ name rec, roles_view (data role_run.2) !! name = Some rec ∧ RecRole rec = r).
Proof.
  destruct (sql_roles_refine role_calls
    (mkDb [] [NoFault; NoFault; NoFault; NoFault; Lost (ErrOpaque "connection reset")])
    role_run.1 role_run.2) as (H1 & _ & _ & H4).
  - split; constructor.
  - repeat (apply Forall_cons_2; [first [apply ops_role_ok|exact I]|]). constructor.
  - apply surjective_pairing.
  - split_and!; [exact H1|by vm_compute|exact H4].
Defined.

Lemma sql_seed_roles_once_witness :
  let d := (SqlStore.Roles.SeedRolesIfEmpty 0 [ops_role] (mkDb [] [])).2 in
  records ScanRoleRecord (data d) = seeded [ops_role].
Proof.
  intros d.
  destruct (sql_seed_roles_once 0 [ops_role] (mkDb [] [])
    (SqlStore.Roles.SeedRolesIfEmpty 0 [ops_role] (mkDb [] [])).1 d) as (_ & _ & H).
  - split; constructor.
  - apply Forall_singleton, ops_role_ok.
  - apply surjective_pairing.
  - destruct (H eq_refl) as [[H1 _]|[_ [e H1]]]; [exact H1|]. vm_compute in H1. discriminate H1.
Defined.

Definition agent : Principal := mkPrincipal "agent-1" "spiffe://td/agent-1" ["grp-ops"].

Definition principal_run := run_list exec_principal [PAdd 0 agent ""] (mkDb [] []).
Definition agent_lookup :=
  SqlStore.Principals.Lookup ["spiffe://td/other"; "spiffe://td/agent-1"] principal_run.2.

Lemma sql_principals_refine_witness :
  agent_lookup.1 = Ok agent ∧ principals_ok (data principal_run.2).
Proof.
  destruct (sql_principals_refine [PAdd 0 agent ""] (mkDb [] []) principal_run.1 principal_run.2
    ["spiffe://td/other"; "spiffe://td/agent-1"] agent_lookup.1 agent_lookup.2) as (H & _).
  - split; constructor.
  - repeat constructor.
  - apply surjective_pairing.
  - apply surjective_pairing.
  - split; [by vm_compute|exact H].
Defined.

(** A serial; the same certificate with its key ID, whose commit succeeds but is not
    heard of; another by key ID only, annotated anew. *)
Definition revoke_calls_made : list (time * Revocation) :=
  [(0, revoke_serial); (0, revoke_both);
   (0, mkRevocation 0 "host-9" "lost" "admin" (30 * ns_per_sec));
   (0, mkRevocation 0 "host-9" "stolen" "admin" (40 * ns_per_sec))].

Definition lost_commit : list fault := replicate 8 NoFault ++ [LostReply (ErrOpaque "timeout")].

Definition revoke_run := run_list exec_revoke revoke_calls_made (mkDb [] lost_commit).

Lemma sql_revocations_refine_witness :
  is_ok <$> revoke_run.1 = [true; false; true; true] ∧
  ∃ mem, abs_run spec_revocation (λ e, injected e (mkDb (T:=list RevocationRow) [] lost_commit))
      revoke_calls_made Krl.InMemoryStore.NewInMemoryStore revoke_run.1 mem ∧
    Krl.InMemoryStore.IsRevoked mem 5 "" = true ∧ Krl.InMemoryStore.IsRevoked mem 0 "host-7" = true ∧
    Snapshot.Entries (Krl.InMemoryStore.Snapshot 0 mem) ≡ₚ
      [revoke_both; mkRevocation 0 "host-9" "stolen" "admin" (40 * ns_per_sec)].
Proof.
  split; [by vm_compute|].
  destruct (sql_revocations_refine revoke_calls_made (mkDb [] lost_commit) revoke_run.1 revoke_run.2)
    as (mem & Hrun & Hrev & Hsnap).
  - done.
  - repeat constructor; by vm_compute.
  - repeat constructor; unfold kept_by, covers, share; simpl; naive_solver.
  - apply surjective_pairing.
  - exists mem. split; [exact Hrun|]. split; [|split].
    + destruct (Hrev 5 "" [] _ _ ltac:(by vm_compute) (surjective_pairing _)) as [<-|[_ (e & [He|He])]];
        [by vm_compute|by apply elem_of_nil in He..].
    + destruct (Hrev 0 "host-7" [] _ _ ltac:(by vm_compute) (surjective_pairing _)) as [<-|[_ (e & [He|He])]];
        [by vm_compute|by apply elem_of_nil in He..].
    + destruct (Hsnap sqlite_dialect 0 []) as [Hp|[_ (e & [He|He])]]; [|by apply elem_of_nil in He..].
      rewrite <- Hp. by vm_compute.
Defined.

Lemma sql_is_revoked_fail_closed_witness :
  (SqlStore.Revocations.IsRevoked 5 "" (mkDb (data (SqlStore.Revocations.Revoke 0 revoke_both (mkDb [] [])).2)
     [Lost (ErrOpaque "timeout")])).1 = true.
Proof.
  apply (sql_is_revoked_fail_closed 0 revoke_both [] (mkDb [] [])
    (SqlStore.Revocations.Revoke 0 revoke_both (mkDb [] [])).2 5 "" [Lost (ErrOpaque "timeout")] _
    (SqlStore.Revocations.IsRevoked 5 "" (mkDb (data (SqlStore.Revocations.Revoke 0 revoke_both (mkDb [] [])).2)
     [Lost (ErrOpaque "timeout")])).2).
  - by split.
  - split_and!; by vm_compute.
  - by vm_compute.
  - by vm_compute.
  - apply surjective_pairing.
  - by vm_compute.
Defined.
End SqlExamples.
