(* ===== verification/Migrate.v ===== *)
(** * Migrate: the schema of the database at boot

    Models [migrate] of [internal/store/sqlite/sqlite.go] and
    [internal/store/postgres/postgres.go], the same function but for the columns of
    its ledger [schema_migrations], over the failing database of [Sql].  The files
    are embedded in the binary; what their statements do to the tables is a
    parameter.  The theorem [migrations_in_order] says what any sequence of boots
    leaves. *)

From S2P Require Import Prelude Sql.

(** The ledger, once it is created, and the tables. *)
Record schema (T : Type) := mkSchema { ledger : option (list string); tables : T }.
Arguments mkSchema {T}.
Arguments ledger {T}.
Arguments tables {T}.

(** An entry of the embedded directory. *)
Record entry := mkEntry { entry_name : string; entry_dir : bool; entry_body : string }.

(** [strings.HasSuffix] *)
Definition has_suffix (suf s : string) : bool :=
  bool_decide (String.substring (String.length s - String.length suf) (String.length suf) s = suf) &&
  (String.length suf <=? String.length s)%nat.

Section Migrate.
Context {T : Type} (exec : string → M T unit) (dir : list entry).

Abbreviation sdb := (db (schema T)) (only parsing).

Definition create_ledger : M (schema T) unit := λ s,
  (Ok tt, mkSchema (match ledger s with None => Some [] | l => l end) (tables s)).

Definition err_no_table : error := ErrOpaque "no such table: schema_migrations".

Definition count_version (name : string) : M (schema T) nat := λ s,
  (match ledger s with
   | Some l => Ok (length (filter (λ v, v = name) l))
   | None => Err err_no_table
   end, s).

(** [version] is the primary key. *)
Definition insert_version (name : string) : M (schema T) unit := λ s,
  match ledger s with
  | Some l => if bool_decide (name ∈ l) then (Err (ErrOpaque "UNIQUE constraint failed"), s)
              else (Ok tt, mkSchema (Some (l ++ [name])) (tables s))
  | None => (Err err_no_table, s)
  end.

Definition exec_body (body : string) : M (schema T) unit := λ s,
  let '(r, t) := exec body (tables s) in (r, mkSchema (ledger s) t).

Definition wrap_sql {A} (pre : string) (m : M sdb A) : M sdb A := λ d,
  let '(r, d) := m d in (rwrap pre r, d).

(** A transaction whose [Commit] error is wrapped and whose [BeginTx] error is not. *)
Definition in_tx_commit (pre : string) (body : M sdb unit) : M sdb unit := λ d,
  match begin_tx d with
  | (Err e, d1) => (Err e, d1)
  | (Ok _, d1) =>
      match body d1 with
      | (Err e, d2) => (Err e, mkDb (data d1) (tail (faults d2)))
      | (Ok a, d2) =>
          match faults d2 with
          | Lost e :: fs => (Err (ErrWrap pre e ""), mkDb (data d1) fs)
          | LostReply e :: fs => (Err (ErrWrap pre e ""), mkDb (data d2) fs)
          | fs => (Ok a, mkDb (data d2) (tail fs))
          end
      end
  end.

Definition migration_names : list string :=
  sort_strings (entry_name <$> List.filter (λ e, negb (entry_dir e) && has_suffix ".sql" (entry_name e)) dir).

(** [migrationsFS.ReadFile] *)
Definition body_of (name : string) : result string :=
  match List.find (λ e, bool_decide (entry_name e = name)) dir with
  | Some e => Ok (entry_body e)
  | None => Err (ErrOpaque "file does not exist")
  end.

Definition apply_migration (name body : string) : M sdb unit :=
  in_tx_commit ("commit migration " +:+ name +:+ ": ")
    (wrap_sql ("apply migration " +:+ name +:+ ": ") (stmt (exec_body body));;;
     wrap_sql ("record migration " +:+ name +:+ ": ") (stmt (insert_version name))).

Fixpoint migrate_each (names : list string) : M sdb unit :=
  match names with
  | [] => mret tt
  | name :: names =>
      already <-m stmt (count_version name);;
      if (0 <? already)%nat then migrate_each names else
      body <-m (λ d, (rwrap ("read migration " +:+ name +:+ ": ") (body_of name), d));;
      apply_migration name body;;;
      migrate_each names
  end.

Definition migrate : M sdb unit :=
  wrap_sql "create schema_migrations: " (stmt create_ledger);;; migrate_each migration_names.

(** ** What the boots leave *)

(** The tables after a list of migrations. *)
Fixpoint replay (names : list string) (t : T) : option T :=
  match names with
  | [] => Some t
  | name :: names =>
      match body_of name with
      | Ok body => match exec body t with (Ok _, t') => replay names t' | (Err _, _) => None end
      | Err _ => None
      end
  end.

(** The first [k] migrations have been applied, and nothing else; [P k]: what the
    tables are then. *)
Definition migrated (P : nat → T → Prop) (k : nat) (s : schema T) : Prop :=
  (k ≤ length migration_names)%nat ∧
  (ledger s = Some (take k migration_names) ∨ k = O ∧ ledger s = None) ∧
  P k (tables s).

(** From [t0], by nothing but migrations. *)
Definition replayed (t0 : T) (k : nat) (t : T) : Prop := replay (take k migration_names) t0 = Some t.

(** The next migration takes [P k] to [P (S k)], and can. *)
Definition migration_sound (P : nat → T → Prop) : Prop := ∀ k name body t t',
  migration_names !! k = Some name → body_of name = Ok body → P k t →
  exec body t = (Ok tt, t') → P (S k) t'.
Definition migration_live (P : nat → T → Prop) : Prop := ∀ k name t,
  migration_names !! k = Some name → P k t →
  ∃ body, body_of name = Ok body ∧ (exec body t).1 = Ok tt.

Lemma replay_app l1 l2 t : replay (l1 ++ l2) t = t' ← replay l1 t; replay l2 t'.
Proof.
  revert t. induction l1 as [|n l1 IH]; intros t; [done|]. simpl.
  destruct (body_of n); [|done]. destruct (exec a t) as [[]]; [apply IH|done].
Qed.

Lemma take_snoc_lookup (l : list string) k n : l !! k = Some n → take (S k) l = take k l ++ [n].
Proof. apply take_S_r. Qed.

Lemma replayed_sound t0 : migration_sound (replayed t0).
Proof.
  intros k name body t t' Hn Hb Hr Hx. unfold replayed in *.
  rewrite (take_snoc_lookup _ _ _ Hn), replay_app, Hr. simpl. rewrite Hb. by rewrite Hx.
Qed.

Lemma replayed_live t0 : is_Some (replay migration_names t0) → migration_live (replayed t0).
Proof.
  intros [t' Ht] k name t Hn Hr. unfold replayed in Hr.
  rewrite <- (take_drop_middle _ _ _ Hn), replay_app, Hr in Ht. simpl in Ht.
  destruct (body_of name) as [body|e]; [|done]. exists body. split; [done|].
  by destruct (exec body t) as [[[]|e] t1].
Qed.

(** A success of [m] is a success of [f] on the stored state. *)
Definition ok_runs {A} (m : M sdb A) (f : M (schema T) A) : Prop :=
  ∀ d a d', m d = (Ok a, d') → f (data d) = (Ok a, data d').

Lemma ok_runs_stmt {A} (f : M (schema T) A) : ok_runs (stmt f) f.
Proof. intros d a d' E. by apply stmt_cases in E as [_ [E|(? & ? & _)]]. Qed.

Lemma ok_runs_wrap {A} pre m (f : M (schema T) A) : ok_runs m f → ok_runs (wrap_sql pre m) f.
Proof.
  intros Hm d a d'. unfold wrap_sql. destruct (m d) as [[b|e] d1] eqn:E; [|done]. intros [= <- <-]. by apply Hm.
Qed.

Lemma ok_runs_bind {A B} m f (k : A → M sdb B) g :
  ok_runs m f → (∀ a, ok_runs (k a) (g a)) → ok_runs (mbind m k) (mbind f g).
Proof.
  intros Hm Hk d b d' (a & d1 & E1 & E2)%mbind_Ok_inv. apply Hm in E1. apply Hk in E2.
  unfold mbind. by rewrite E1.
Qed.

(** A transaction changes the state as its body does, or not at all. *)
Lemma in_tx_commit_cases pre (body : M sdb unit) (f : M (schema T) unit) d r d' :
  ok_runs body f → in_tx_commit pre body d = (r, d') →
  (data d' = data d ∧ r ≠ Ok tt) ∨ f (data d) = (Ok tt, data d').
Proof.
  intros Hb. unfold in_tx_commit. destruct (begin_tx d) as [[[]|e] d1] eqn:E1;
    apply stmt_reads in E1 as Hd1; [| done| |done]; cycle 1.
  { intros [= <- <-]. by left. }
  destruct (body d1) as [[[]|e] d2] eqn:E2; [|by intros [= <- <-]; left].
  apply Hb in E2. rewrite Hd1 in E2.
  destruct (faults d2) as [|[|e|e] fs]; intros [= <- <-]; simpl; rewrite ?Hd1; auto.
Qed.

Definition migration_step (name body : string) : M (schema T) unit := exec_body body;;; insert_version name.

Lemma apply_migration_cases name body d r d' :
  apply_migration name body d = (r, d') →
  (data d' = data d ∧ r ≠ Ok tt) ∨ migration_step name body (data d) = (Ok tt, data d').
Proof.
  apply in_tx_commit_cases. apply ok_runs_bind; [|intros _]; apply ok_runs_wrap, ok_runs_stmt.
Qed.

Lemma apply_migration_healthy name body t :
  (migration_step name body t).1 = Ok tt →
  apply_migration name body (mkDb t []) = (Ok tt, mkDb (migration_step name body t).2 []).
Proof.
  unfold migration_step, apply_migration, in_tx_commit, mbind, wrap_sql, begin_tx, stmt. simpl.
  destruct (exec_body body t) as [[[]|e] t1]; [|done]. simpl.
  destruct (insert_version name t1) as [[[]|e] t2]; done.
Qed.

Section Order.
Context (P : nat → T → Prop) (Hsound : migration_sound P) (Hnd : NoDup migration_names).

Lemma migrated_next k name body s s' :
  migrated P k s → ledger s = Some (take k migration_names) → migration_names !! k = Some name → body_of name = Ok body →
  migration_step name body s = (Ok tt, s') → migrated P (S k) s' ∧ ledger s' = Some (take (S k) migration_names).
Proof.
  intros (Hk & _ & Hr) Hl Hn Hb. unfold migration_step, mbind, exec_body, insert_version.
  destruct (exec body (tables s)) as [[[]|e] t1] eqn:Ex; [|done]. simpl. rewrite Hl.
  case_bool_decide as Hin; [done|]. intros [= <-].
  assert (take (S k) migration_names = take k migration_names ++ [name]) as Ht by (by apply take_snoc_lookup).
  assert (P (S k) t1) as Hr' by (by eapply Hsound).
  apply lookup_lt_Some in Hn. simpl. rewrite Ht. split; [|done]. rewrite <- Ht.
  split; [lia|]. split; [by left|done].
Qed.

Lemma version_counted k i name :
  (k ≤ length migration_names)%nat → migration_names !! i = Some name →
  ((0 <? length (filter (λ v, v = name) (take k migration_names)))%nat = true ↔ (i < k)%nat).
Proof.
  intros Hk Hn. rewrite Nat.ltb_lt. split.
  - intros Hl. destruct (filter _ _) as [|v l] eqn:E; [simpl in Hl; lia|].
    assert (v ∈ filter (λ v, v = name) (take k migration_names)) as Hv by (rewrite E; by left).
    apply list_elem_of_filter in Hv as [-> Hv]. apply list_elem_of_lookup in Hv as [j Hj].
    apply lookup_take_Some in Hj as [Hj Hjk]. assert (i = j) as -> by (by eapply NoDup_lookup). done.
  - intros Hik. assert (name ∈ filter (λ v, v = name) (take k migration_names)) as Hv.
    { apply list_elem_of_filter. split; [done|]. apply list_elem_of_lookup. exists i. by apply lookup_take_Some. }
    destruct (filter _ _); [by apply elem_of_nil in Hv|simpl; lia].
Qed.

Lemma migrate_each_steps i k d r d' :
  migrated P k (data d) → ledger (data d) = Some (take k migration_names) → (i ≤ k)%nat →
  migrate_each (drop i migration_names) d = (r, d') →
  ∃ k', (k ≤ k')%nat ∧ migrated P k' (data d') ∧ ledger (data d') = Some (take k' migration_names) ∧
    (r = Ok tt → k' = length migration_names) ∧
    (faults d = [] → migration_live P → r = Ok tt).
Proof.
  remember (drop i migration_names) as rest eqn:Hrest. revert i k d r d' Hrest.
  induction rest as [|name rest IH]; intros i k d r d' Hrest Hm Hl Hik.
  { intros [= <- <-]. exists k. split_and!; try done. intros _.
    symmetry in Hrest. apply (f_equal length) in Hrest. rewrite length_drop in Hrest. simpl in Hrest. destruct Hm. lia. }
  assert (migration_names !! i = Some name) as Hi.
  { pose proof (lookup_drop migration_names i 0) as E. rewrite <- Hrest, Nat.add_0_r in E. by rewrite <- E. }
  assert (rest = drop (S i) migration_names) as Hrest'.
  { change (S i) with (1 + i)%nat. rewrite Nat.add_comm, <- drop_drop, <- Hrest. done. }
  cbn [migrate_each]. unfold mbind at 1. destruct (stmt (count_version name) d) as [r1 d1] eqn:E1.
  assert (data d1 = data d) as Hd1 by (eapply stmt_reads; [|exact E1]; done).
  assert (faults d = [] → faults d1 = [] ∧ r1 = (count_version name (data d)).1) as Hf1.
  { intros Hf. unfold stmt in E1. rewrite Hf in E1. simpl in E1. by injection E1 as <- <-. }
  destruct r1 as [already|e]; cycle 1.
  { intros [= <- <-]. exists k. rewrite Hd1. split_and!; try done. intros Hf _. apply Hf1 in Hf as [_ Hc].
    unfold count_version in Hc. by rewrite Hl in Hc. }
  assert (already = length (filter (λ v, v = name) (take k migration_names))) as ->.
  { apply ok_runs_stmt in E1. unfold count_version in E1. rewrite Hl in E1. by injection E1. }
  destruct (Nat.ltb 0 _) eqn:Ha.
  { apply (version_counted k i name) in Ha; [|by destruct Hm|done]. intros E.
    edestruct (IH (S i) k d1 r d') as (k' & ? & ? & ? & ? & Hok); [done|by rewrite Hd1|by rewrite Hd1|lia|done|].
    exists k'. split_and!; try done. intros Hf. apply Hok. by apply Hf1. }
  assert (i = k) as ->.
  { assert (¬ (i < k)%nat); [|lia]. intros Hlt. apply (version_counted k i name) in Hlt; [congruence|by destruct Hm|done]. }
  unfold mbind at 1. destruct (body_of name) as [body|e] eqn:Eb; simpl; cycle 1.
  { intros [= <- <-]. exists k. rewrite Hd1. split_and!; try done. intros _ Hlive. exfalso.
    destruct (Hlive k name (tables (data d)) Hi) as (body & Hb & _); [apply Hm|]. congruence. }
  unfold mbind at 1. destruct (apply_migration name body d1) as [r2 d2] eqn:E2.
  destruct (apply_migration_cases name body d1 r2 d2 E2) as [[Hd2 Hr2]|Hstep].
  - destruct r2 as [[]|e]; [done|]. intros [= <- <-]. exists k. rewrite Hd2, Hd1. split_and!; try done.
    intros Hf Hlive. exfalso. apply Hf1 in Hf as [Hf _].
    destruct (Hlive k name (tables (data d)) Hi) as (body' & Hb & Hx); [apply Hm|].
    assert (body' = body) as -> by congruence.
    destruct (exec body (tables (data d))) as [r3 t1] eqn:Ex. simpl in Hx. subst r3.
    assert ((migration_step name body (data d1)).1 = Ok tt) as Hs.
    { unfold migration_step, mbind, exec_body, insert_version. rewrite Hd1, Ex. simpl. rewrite Hl.
      rewrite bool_decide_false; [done|]. intros Hin. apply list_elem_of_lookup in Hin as [j Hj].
      apply lookup_take_Some in Hj as [Hj Hjk]. assert (j = k) by (by eapply NoDup_lookup). lia. }
    destruct d1 as [s1 f1]. simpl in Hf. subst f1. rewrite (apply_migration_healthy name body s1 Hs) in E2. done.
  - rewrite Hd1 in Hstep. destruct (migrated_next k name body _ _ Hm Hl Hi Eb Hstep) as [Hm' Hl'].
    destruct r2 as [[]|e]; cycle 1.
    { intros [= <- <-]. exists (S k). split_and!; try done; [lia|]. intros Hf _. apply Hf1 in Hf as [Hf _].
      destruct d1 as [s1 f1]. simpl in Hf, Hd1. subst f1 s1.
      rewrite apply_migration_healthy in E2; [done|]. by rewrite Hstep. }
    intros E. edestruct (IH (S k) (S k) d2 r d') as (k' & ? & ? & ? & ? & Hok); [done..|].
    exists k'. split_and!; try done; [lia|]. intros Hf. apply Hok. apply Hf1 in Hf as [Hf _].
    destruct d1 as [s1 f1]. simpl in Hf, Hd1. subst f1 s1.
    rewrite apply_migration_healthy in E2; [by injection E2 as <-|]. by rewrite Hstep.
Qed.

Lemma migrate_steps k d r d' :
  migrated P k (data d) → migrate d = (r, d') →
  ∃ k', (k ≤ k')%nat ∧ migrated P k' (data d') ∧
    (r = Ok tt → k' = length migration_names ∧ ledger (data d') = Some migration_names) ∧
    (faults d = [] → migration_live P → r = Ok tt).
Proof.
  intros Hm. unfold migrate, mbind, wrap_sql. destruct (stmt create_ledger d) as [r1 d1] eqn:E1.
  assert (migrated P k (data d1) ∧ (r1 = Ok tt → ledger (data d1) = Some (take k migration_names)) ∧
    (faults d = [] → faults d1 = [] ∧ r1 = Ok tt)) as (Hm1 & Hl1 & Hf1).
  { assert (migrated P k (create_ledger (data d)).2 ∧
      ledger (create_ledger (data d)).2 = Some (take k migration_names)) as [Hc Hcl].
    { destruct Hm as (Hk & Hl & Hr). unfold create_ledger. simpl.
      destruct Hl as [Hl|[-> Hl]]; rewrite Hl; (split; [|done]); (split; [done|]); split; auto. }
    apply stmt_cases in E1 as Hs. destruct Hs as [_ Hs]. split_and!.
    - destruct Hs as [Hs|(e & _ & _ & [->| ->])]; [|done|done]. by rewrite <- Hs in Hc.
    - intros ->. destruct Hs as [Hs|(e & [=] & _)]. by rewrite <- Hs in Hcl.
    - intros Hf. unfold stmt in E1. rewrite Hf in E1. by injection E1 as <- <-. }
  destruct r1 as [[]|e]; simpl; cycle 1.
  { intros [= <- <-]. exists k. split_and!; try done. intros Hf. by apply Hf1 in Hf as [_ ?]. }
  intros E. edestruct (migrate_each_steps 0 k d1 r d') as (k' & ? & ? & Hl' & Hok & Hlive); [done|by apply Hl1|lia|done|].
  exists k'. split_and!; try done.
  - intros Hr. split; [by apply Hok|]. by rewrite Hl', (Hok Hr), firstn_all.
  - intros Hf. apply Hlive. by apply Hf1.
Qed.
End Order.
End Migrate.

(** Migrations run once each, in order, and boots converge.  Through any number
    of boots, each stopping wherever the database fails it (statements lost, or done
    with the reply lost, commits included): the migrations applied are always the
    first ones in name order, each once and whole, and the ledger names exactly
    those; a boot that reports success has applied them all; and a boot on which
    the database answers succeeds if the remaining migrations do. *)
Theorem migrations_in_order {T} (exec : string → M T unit) dir t0 boots s s' :
  NoDup (migration_names dir) → ledger s = None → tables s = t0 →
  foldl (λ s fs, data (migrate exec dir (mkDb s fs)).2) s boots = s' →
  ∃ k, (k ≤ length (migration_names dir))%nat ∧
    (ledger s' = Some (take k (migration_names dir)) ∨ k = O ∧ ledger s' = None) ∧
    replay exec dir (take k (migration_names dir)) t0 = Some (tables s') ∧
    ∀ fs r d, migrate exec dir (mkDb s' fs) = (r, d) →
      (r = Ok tt → ledger (data d) = Some (migration_names dir) ∧
         replay exec dir (migration_names dir) t0 = Some (tables (data d))) ∧
      (fs = [] → is_Some (replay exec dir (migration_names dir) t0) → r = Ok tt).
Proof.
  intros Hnd Hl Ht <-.
  assert (∃ k, migrated dir (replayed exec dir t0) k (foldl (λ s fs, data (migrate exec dir (mkDb s fs)).2) s boots)) as [k Hk].
  { assert (∃ k, migrated dir (replayed exec dir t0) k s) as H0.
    { exists O. split; [lia|]. split; [by right|]. unfold replayed. by rewrite take_0, <- Ht. }
    clear Hl Ht. revert s H0. induction boots as [|fs boots IH]; intros s [k Hk]; [by exists k|]. simpl. apply IH.
    destruct (migrate exec dir (mkDb s fs)) as [r d] eqn:E. simpl.
    destruct (migrate_steps exec dir _ (replayed_sound exec dir t0) Hnd k (mkDb s fs) r d Hk E) as (k' & _ & ? & _). by exists k'. }
  pose proof Hk as (H1 & H2 & H3). exists k. split_and!; [done..|].
  intros fs r d E. destruct (migrate_steps exec dir _ (replayed_sound exec dir t0) Hnd k (mkDb _ fs) r d Hk E) as (k' & _ & (_ & _ & Hr) & Hok & Hlive).
  split; [|intros Hf Hsome; apply Hlive; [done|by apply replayed_live]]. intros Hr'. apply Hok in Hr' as [-> Hled]. split; [done|]. unfold replayed in Hr. by rewrite firstn_all in Hr.
Qed.

(** ** Instances: tables as the list of what was executed *)
Module MigrateExamples.

Definition exec (body : string) : M (list string) unit := λ t, (Ok tt, t ++ [body]).
Definition dir : list entry :=
  [mkEntry "0002_b.sql" false "CREATE b"; mkEntry "0001_a.sql" false "CREATE a"; mkEntry "README" false "";
   mkEntry "old.sql" true ""].

(** The first boot loses the reply to the commit of the first migration, the second
    the statement that records the second one. *)
Definition boots : list (list fault) :=
  [[NoFault; NoFault; NoFault; NoFault; NoFault; LostReply (ErrNew "gone")];
   [NoFault; NoFault; NoFault; NoFault; NoFault; Lost (ErrNew "gone")]].
Definition start : schema (list string) := mkSchema None [].
Definition later : schema (list string) :=
  foldl (λ s fs, data (migrate exec dir (mkDb s fs)).2) start boots.

Lemma migrations_in_order_witness :
  ledger later = Some ["0001_a.sql"] ∧
  tables (data (migrate exec dir (mkDb later [])).2) = ["CREATE a"; "CREATE b"].
Proof.
  split; [by vm_compute|].
  destruct (migrations_in_order exec dir [] boots start later) as (k & _ & _ & _ & Hboot);
    [apply (bool_decide_unpack _); by vm_compute|reflexivity|reflexivity|reflexivity|].
  destruct (migrate exec dir (mkDb later [])) as [r d] eqn:E.
  destruct (Hboot [] r d E) as [Hok Hlive].
  destruct Hok as [_ Hr]; [apply Hlive; [done|by vm_compute; eexists]|]. simpl.
  assert (replay exec dir (migration_names dir) [] = Some ["CREATE a"; "CREATE b"]) as E2 by (by vm_compute).
  rewrite E2 in Hr. by injection Hr as <-.
Defined.
End MigrateExamples.
