(* ===== verification/Schema.v ===== *)
(** * Schema: the tables the migrations build

    Models the embedded migrations of [internal/store/sqlite/migrations] and
    [internal/store/postgres/migrations], statement by statement, as syntax over
    typed tables, and [Open] of both packages ([sqlite.go], [postgres.go]) on top
    of [Migrate].  A value is NULL, text or a 64-bit integer; a row maps column
    names to values; a table has columns, a primary key, unique indexes and CHECK
    constraints.  A plain index changes no contents.

    The theorems: a database that conforms to any earlier version of the schema is
    taken to the current one without touching the values it holds
    ([open_upgrades]), and the rows of [Store] are exactly the rows that the
    current schema admits ([rows_fit_schema]). *)

From S2P Require Import Prelude GoText GoTime Keyed Json Policy Krl X509Engine Mtls Store Sql SqlTable SqlStore SqlFacts Migrate.

(** ** Typed tables *)

Inductive coltype := TEXT | INTEGER.
Inductive value := VNull | VText (s : string) | VInt (z : Z).

#[export] Instance coltype_eq_dec : EqDecision coltype.
Proof. solve_decision. Defined.
#[export] Instance value_eq_dec : EqDecision value.
Proof. solve_decision. Defined.

Record column := mkColumn { col_name : string; col_type : coltype; not_null : bool; col_default : value }.

#[export] Instance column_eq_dec : EqDecision column.
Proof. solve_decision. Defined.

Abbreviation row := (gmap string value) (only parsing).

(** [CHECK (a IS NOT NULL OR b IS NOT NULL OR …)] *)
Record check := mkCheck { some_not_null : list string }.

#[export] Instance check_eq_dec : EqDecision check.
Proof. solve_decision. Defined.

(** The structure of a table; [unique]: the primary key, and the columns with a
    unique index over their values that are not NULL. *)
Record structure := mkStructure { columns : list column; unique : list string; checks : list check }.

#[export] Instance structure_eq_dec : EqDecision structure.
Proof. solve_decision. Defined.

Record table := mkTable { struct : structure; rows : list row }.
Abbreviation database := (gmap string table) (only parsing).

(** ** Statements *)

Inductive ddl :=
  | CreateTable (name : string) (s : structure)
  | CreateUniqueIndex (tbl col : string)
  | CreateIndex (tbl col : string)
  | AddColumn (tbl : string) (c : column).

Definition err_sql (what : string) : error := ErrOpaque what.

(** The values of a column that are not NULL. *)
Definition present (col : string) (rs : list row) : list value :=
  omap (λ r, match r !! col with Some VNull | None => None | Some v => Some v end) rs.

Definition has_column (col : string) (s : structure) : bool :=
  existsb (λ c, bool_decide (col_name c = col)) (columns s).

Definition with_column (c : column) (t : table) : table :=
  mkTable (mkStructure (columns (struct t) ++ [c]) (unique (struct t)) (checks (struct t)))
          ((λ r, <[col_name c := col_default c]> r) <$> rows t).

Definition with_unique (col : string) (t : table) : table :=
  mkTable (mkStructure (columns (struct t)) (unique (struct t) ++ [col]) (checks (struct t))) (rows t).

Definition exec_ddl (d : ddl) : M database unit := λ db,
  match d with
  | CreateTable name s =>
      (Ok tt, match db !! name with Some _ => db | None => <[name := mkTable s []]> db end)
  | CreateUniqueIndex tbl col =>
      match db !! tbl with
      | None => (Err (err_sql "no such table"), db)
      | Some t =>
          if negb (has_column col (struct t)) then (Err (err_sql "no such column"), db) else
          if bool_decide (NoDup (present col (rows t))) then (Ok tt, <[tbl := with_unique col t]> db)
          else (Err (err_sql "UNIQUE constraint failed"), db)
      end
  | CreateIndex tbl col =>
      match db !! tbl with
      | None => (Err (err_sql "no such table"), db)
      | Some t => if has_column col (struct t) then (Ok tt, db) else (Err (err_sql "no such column"), db)
      end
  | AddColumn tbl c =>
      match db !! tbl with
      | None => (Err (err_sql "no such table"), db)
      | Some t =>
          if has_column (col_name c) (struct t) then (Err (err_sql "duplicate column name"), db) else
          if not_null c && bool_decide (col_default c = VNull)
          then (Err (err_sql "Cannot add a NOT NULL column with default value NULL"), db)
          else (Ok tt, <[tbl := with_column c t]> db)
      end
  end.

Fixpoint exec_all (ds : list ddl) : M database unit :=
  match ds with
  | [] => mret tt
  | d :: ds => exec_ddl d;;; exec_all ds
  end.

(** ** The migrations *)

(** [name TEXT PRIMARY KEY]: SQLite lets such a column hold NULL, PostgreSQL does
    not. *)
Inductive engine := SQLite | PostgreSQL.
Definition pk_not_null (e : engine) : bool := match e with SQLite => false | PostgreSQL => true end.

Definition text (n : string) : column := mkColumn n TEXT true VNull.
Definition text_default (n d : string) : column := mkColumn n TEXT true (VText d).
Definition text_null (n : string) : column := mkColumn n TEXT false VNull.
Definition int_default (n : string) (d : Z) : column := mkColumn n INTEGER true (VInt d).
Definition text_key (e : engine) (n : string) : column := mkColumn n TEXT (pk_not_null e) VNull.
(** [INTEGER PRIMARY KEY] and [BIGSERIAL PRIMARY KEY]: the database picks the value. *)
Definition serial_key (n : string) : column := mkColumn n INTEGER true VNull.

Definition m0001_roles (e : engine) : list ddl :=
  [CreateTable "roles"
    (mkStructure
      [text_key e "name"; text "group_claim"; text_default "allowed_principals" "[]";
       text_default "host_patterns" "[]"; text_default "spiffe_patterns" "[]";
       text_default "default_extensions" "{}"; int_default "max_user_cert_ttl_seconds" 0;
       int_default "max_host_cert_ttl_seconds" 0; int_default "max_x509_cert_ttl_seconds" 0;
       text "updated_at"] ["name"] []);
   CreateIndex "roles" "group_claim"].

Definition m0002_principals (e : engine) : list ddl :=
  [CreateTable "principals"
    (mkStructure [text_key e "san"; text "name"; text_default "groups" "[]"; text "updated_at"]
      ["san"] []);
   CreateIndex "principals" "name"].

Definition m0003_ssh_revocations (e : engine) : list ddl :=
  [CreateTable "ssh_revocations"
    (mkStructure
      [serial_key "id"; text_null "serial"; text_null "key_id"; text_default "reason" "";
       text_default "revoker" ""; text "revoked_at"]
      ["id"] [mkCheck ["serial"; "key_id"]]);
   CreateUniqueIndex "ssh_revocations" "serial";
   CreateUniqueIndex "ssh_revocations" "key_id"].

Definition m0004_active_workload_cert (e : engine) : list ddl :=
  [CreateTable "active_workload_cert"
    (mkStructure
      [text_key e "identity"; text "current_serial"; text "current_not_after";
       text_null "previous_serial"; text_null "previous_not_after"; text "updated_at"]
      ["identity"] [])].

Definition m0005_active_workload_cert_lock (e : engine) : list ddl :=
  [AddColumn "active_workload_cert" (text_null "locked_at");
   AddColumn "active_workload_cert" (text_null "locked_serial")].

Definition m0006_owner_source (e : engine) : list ddl :=
  [AddColumn "roles" (text_default "source" "config");
   AddColumn "principals" (text_default "source" "config")].

(** The embedded directory.  A file is represented by its name, which stands for
    its statements. *)
Definition migration_files : list string :=
  ["0001_roles.sql"; "0002_principals.sql"; "0003_ssh_revocations.sql";
   "0004_active_workload_cert.sql"; "0005_active_workload_cert_lock.sql"; "0006_owner_source.sql"].
Definition migrations_dir : list entry := (λ n, mkEntry n false n) <$> migration_files.

Definition statements (e : engine) (body : string) : option (list ddl) :=
  (list_to_map (zip migration_files
    [m0001_roles e; m0002_principals e; m0003_ssh_revocations e; m0004_active_workload_cert e;
     m0005_active_workload_cert_lock e; m0006_owner_source e]) : gmap string (list ddl)) !! body.

(** What [ExecContext] does with the text of a file. *)
Definition exec_file (e : engine) (body : string) : M database unit :=
  match statements e body with
  | Some ds => exec_all ds
  | None => mfail (err_sql "syntax error")
  end.

(** ** [Open]

    [connect]: the outcome of [sql.Open] ([openDB] on PostgreSQL).  The state
    carries the number of open handles next to the database. *)
Section Open.
Context {T : Type} (migrate : M (db (schema T)) unit).

Abbreviation sdb := (db (schema T)) (only parsing).
Record world := mkWorld { handles : nat; store : sdb }.

Definition open_handle (w : world) : world := mkWorld (S (handles w)) (store w).
Definition Close (w : world) : world := mkWorld (pred (handles w)) (store w).

Definition on_store {A} (m : M sdb A) : M world A := λ w,
  let '(r, d) := m (store w) in (r, mkWorld (handles w) d).

(** A failure past the connection closes the handle. *)
Definition or_close {A} (m : M world A) : M world A := λ w,
  match m w with
  | (Ok a, w') => (Ok a, w')
  | (Err e, w') => (Err e, Close w')
  end.

Definition Open (pingPre : string) (connect : result unit) : M world unit := λ w,
  match connect with
  | Err e => (Err e, w)
  | Ok _ =>
      or_close (on_store (wrap_sql pingPre (stmt (mret tt));;; wrap_sql "migrate: " migrate))
        (open_handle w)
  end.
End Open.

(** [DB.migrate] of the two packages. *)
Definition engine_migrate (e : engine) : M (db (schema database)) unit := migrate (exec_file e) migrations_dir.
Definition sqlite_migrate : M (db (schema database)) unit := engine_migrate SQLite.
Definition postgres_migrate : M (db (schema database)) unit := engine_migrate PostgreSQL.

Definition sqlite_Open (path : string) (connect : result unit) : M (@world database) unit :=
  Open sqlite_migrate ("ping sqlite " +:+ fmt_q path +:+ ": ")
    (rwrap ("open sqlite " +:+ fmt_q path +:+ ": ") connect).

(** [openDB]: the server name of the TLS configuration, when there is one and it
    names no server, becomes the host of the DSN; the configuration is shared with
    the caller.  [ParseConfig] gives the host. *)
Definition openDB (ParseConfig : string → result string) (dsn : string) (tls : option string)
    : result unit * option string :=
  match ParseConfig dsn with
  | Err e => (Err (ErrWrap "parse postgres dsn: " e ""), tls)
  | Ok host => (Ok tt, (λ name, if str_empty name then host else name) <$> tls)
  end.

Definition postgres_Open (ParseConfig : string → result string) (dsn : string) (tls : option string)
    : M (@world database) unit :=
  Open postgres_migrate "ping postgres: " (openDB ParseConfig dsn tls).1.

(** ** Conforming databases *)

Definition names_of (s : structure) : list string := col_name <$> columns s.

(** The value may stand in the column. *)
Definition typed (c : column) (v : value) : Prop :=
  match v with
  | VNull => not_null c = false
  | VText _ => col_type c = TEXT
  | VInt z => col_type c = INTEGER ∧ int64_ok z
  end.

Definition row_typed (s : structure) (r : row) : Prop :=
  (∀ k, is_Some (r !! k) → k ∈ names_of s) ∧
  ∀ c, c ∈ columns s → ∃ v, r !! col_name c = Some v ∧ typed c v.

Definition check_holds (r : row) (ck : check) : Prop :=
  ∃ col v, col ∈ some_not_null ck ∧ r !! col = Some v ∧ v ≠ VNull.

(** Names are distinct, and the constraints are about columns of the table. *)
Definition struct_ok (s : structure) : Prop :=
  NoDup (names_of s) ∧ unique s ⊆ names_of s ∧
  Forall (λ ck, some_not_null ck ⊆ names_of s) (checks s).

Record table_typed (t : table) : Prop := {
  typed_struct : struct_ok (struct t);
  typed_rows : Forall (row_typed (struct t)) (rows t);
  typed_unique : Forall (λ u, NoDup (present u (rows t))) (unique (struct t));
  typed_checks : Forall (λ ck, Forall (λ r, check_holds r ck) (rows t)) (checks (struct t));
}.

(** The database has the tables of the schema, and they hold what it allows. *)
Definition conforms (S : gmap string structure) (db : database) : Prop :=
  struct <$> db = S ∧ map_Forall (λ _, table_typed) db.

(** Every row is still there, with at least the values it had. *)
Definition keeps_rows (db db' : database) : Prop := ∀ n t, db !! n = Some t →
  ∃ t', db' !! n = Some t' ∧ Forall2 (λ r r' : row, r ⊆ r') (rows t) (rows t').

(** What a statement does to the structures. *)
Definition shape_ddl (S : gmap string structure) (d : ddl) : gmap string structure :=
  match d with
  | CreateTable name s => match S !! name with Some _ => S | None => <[name := s]> S end
  | CreateUniqueIndex tbl col =>
      match S !! tbl with
      | Some s => <[tbl := mkStructure (columns s) (unique s ++ [col]) (checks s)]> S
      | None => S
      end
  | CreateIndex _ _ => S
  | AddColumn tbl c =>
      match S !! tbl with
      | Some s => <[tbl := mkStructure (columns s ++ [c]) (unique s) (checks s)]> S
      | None => S
      end
  end.

Definition migration_ddl (e : engine) : list (list ddl) :=
  [m0001_roles e; m0002_principals e; m0003_ssh_revocations e; m0004_active_workload_cert e;
   m0005_active_workload_cert_lock e; m0006_owner_source e].

(** The schema after the first [k] migrations. *)
Definition schema_at (e : engine) (k : nat) : gmap string structure :=
  foldl shape_ddl ∅ (concat (take k (migration_ddl e))).

(** A statement that keeps a database typed. *)
Definition ddl_typed (d : ddl) : Prop :=
  match d with
  | CreateTable _ s => struct_ok s
  | AddColumn _ c => col_default c ≠ VNull → typed c (col_default c)
  | _ => True
  end.

Lemma keeps_rows_refl db : keeps_rows db db.
Proof. intros n t Ht. exists t. split; [done|]. by apply Forall_Forall2_diag, Forall_forall. Qed.

Lemma keeps_rows_trans db1 db2 db3 : keeps_rows db1 db2 → keeps_rows db2 db3 → keeps_rows db1 db3.
Proof.
  intros H12 H23 n t Ht. destruct (H12 n t Ht) as (t2 & H2 & F2). destruct (H23 n t2 H2) as (t3 & H3 & F3).
  exists t3. split; [done|]. clear -F2 F3. revert F2 F3. generalize (rows t), (rows t2), (rows t3).
  intros l1 l2 l3 H. revert l3. induction H as [|r1 r2 l1 l2 Hr _ IH]; intros l3 H3; inversion H3; subst; [done|].
  constructor; [by etrans|by apply IH].
Qed.

(** Replacing one table. *)
Lemma keeps_rows_insert (db : database) n t t' :
  db !! n = Some t → Forall2 (λ r r' : row, r ⊆ r') (rows t) (rows t') →
  keeps_rows db (<[n := t']> db).
Proof.
  intros Hn Hf m u Hu. destruct (decide (m = n)) as [->|Hne].
  - exists t'. rewrite lookup_insert_eq. split; [done|]. by assert (u = t) as -> by congruence.
  - exists u. rewrite lookup_insert_ne by done. split; [done|]. by apply Forall_Forall2_diag, Forall_forall.
Qed.

Lemma has_column_spec col s : has_column col s = true ↔ col ∈ names_of s.
Proof.
  unfold has_column, names_of. rewrite existsb_exists. setoid_rewrite bool_decide_eq_true.
  rewrite list_elem_of_fmap. setoid_rewrite <- list_elem_of_In. naive_solver.
Qed.

Lemma has_column_false col s : has_column col s = false → col ∉ names_of s.
Proof. intros H Hin. apply has_column_spec in Hin. congruence. Qed.

Lemma row_fresh s r col : row_typed s r → col ∉ names_of s → r !! col = None.
Proof. intros [Hk _] Hn. apply eq_None_not_Some. intros H. by apply Hn, Hk. Qed.

Lemma present_cons u (r : row) rs :
  present u (r :: rs) = match r !! u with Some VNull | None => [] | Some v => [v] end ++ present u rs.
Proof. unfold present. simpl. by destruct (r !! u) as [[]|]. Qed.

Lemma present_insert s rs col v u :
  Forall (row_typed s) rs → col ∉ names_of s → u ∈ names_of s →
  present u ((λ r : row, <[col := v]> r) <$> rs) = present u rs.
Proof.
  intros Hrs Hc Hu. assert (col ≠ u) by (by intros ->).
  induction Hrs as [|r rs Hr _ IH]; [done|]. rewrite fmap_cons, !present_cons, IH.
  by rewrite lookup_insert_ne.
Qed.

Lemma with_column_typed t c :
  table_typed t → has_column (col_name c) (struct t) = false → typed c (col_default c) →
  table_typed (with_column c t).
Proof.
  intros [(Hnd & Hu & Hck) Hrows Huniq Hchecks] Hc%has_column_false Hd.
  assert (∀ l, names_of (mkStructure (columns (struct t) ++ [c]) (unique (struct t)) l) =
    names_of (struct t) ++ [col_name c]) as Hnames by (intros; unfold names_of; simpl; by rewrite fmap_app).
  split; simpl.
  - split; [|split]; simpl; rewrite Hnames.
    + apply NoDup_app. split_and!; [done| |apply NoDup_singleton]. intros x Hx ->%list_elem_of_singleton. done.
    + intros x Hx. apply elem_of_app. left. by apply Hu.
    + eapply Forall_impl; [exact Hck|]. simpl. intros ck Hs x Hx. apply elem_of_app. left. by apply Hs.
  - apply Forall_fmap. eapply Forall_impl; [exact Hrows|]. intros r Hr. split.
    + intros k Hk. rewrite Hnames. apply elem_of_app. destruct (decide (k = col_name c)) as [->|Hne]; [right; by left|].
      left. rewrite lookup_insert_ne in Hk by done. by apply Hr.
    + intros c' [Hin| ->%list_elem_of_singleton]%elem_of_app.
      * destruct Hr as [_ Hr]. destruct (Hr c' Hin) as (v & Hv & Ht). exists v. split; [|done].
        rewrite lookup_insert_ne; [done|]. intros Heq. apply Hc. rewrite Heq. by apply list_elem_of_fmap_2.
      * exists (col_default c). by rewrite lookup_insert_eq.
  - apply Forall_forall. intros u Hin. rewrite (present_insert (struct t)); [|done|done|by apply Hu].
    rewrite Forall_forall in Huniq. by apply Huniq.
  - apply Forall_forall. intros ck Hin. apply Forall_fmap. rewrite Forall_forall in Hchecks, Hck.
    eapply Forall_impl; [by apply Hchecks|]. intros r (col & v & Hcol & Hv & Hne). exists col, v.
    split_and!; [done| |done]. simpl. rewrite lookup_insert_ne; [done|]. intros Heq. apply Hc. rewrite Heq.
    by apply (Hck ck).
Qed.

Lemma with_unique_typed t col :
  table_typed t → has_column col (struct t) = true → NoDup (present col (rows t)) →
  table_typed (with_unique col t).
Proof.
  intros [(Hnd & Hu & Hck) Hrows Huniq Hchecks] Hc%has_column_spec Hn. split; simpl; [|done| |done].
  - split; [done|]. split; [|done]. simpl. intros x [Hx| ->%list_elem_of_singleton]%elem_of_app; [by apply Hu|done].
  - apply Forall_app. split; [done|]. by constructor.
Qed.

(** One statement: the structure it leads to, the typing, the rows. *)
Lemma exec_ddl_sound d db db' :
  ddl_typed d → map_Forall (λ _, table_typed) db → exec_ddl d db = (Ok tt, db') →
  struct <$> db' = shape_ddl (struct <$> db) d ∧ map_Forall (λ _, table_typed) db' ∧ keeps_rows db db'.
Proof.
  intros Hd Hdb. destruct d as [name s|tbl col|tbl col|tbl c]; simpl.
  - rewrite lookup_fmap. destruct (db !! name) as [t|] eqn:E; intros [= <-]; simpl.
    + split_and!; [done|done|apply keeps_rows_refl].
    + rewrite fmap_insert. split_and!; [done| |].
      * apply map_Forall_insert_2; [|done]. split; simpl; [done|constructor|..].
        -- apply Forall_forall. intros. constructor.
        -- apply Forall_forall. intros. constructor.
      * intros n t Ht. exists t. rewrite lookup_insert_ne by (intros <-; congruence). split; [done|].
        by apply Forall_Forall2_diag, Forall_forall.
  - rewrite lookup_fmap. destruct (db !! tbl) as [t|] eqn:E; [|done]. simpl.
    destruct (has_column col (struct t)) eqn:Ec; simpl; [|done]. case_bool_decide as Hn; [|done].
    intros [= <-]. rewrite fmap_insert. split_and!; [done| |].
    + apply map_Forall_insert_2; [|done]. apply with_unique_typed; [by eapply Hdb|done|done].
    + eapply keeps_rows_insert; [done|]. by apply Forall_Forall2_diag, Forall_forall.
  - destruct (db !! tbl) as [t|] eqn:E; [|done]. destruct (has_column col (struct t)); [|done].
    intros [= <-]. split_and!; [done|done|apply keeps_rows_refl].
  - rewrite lookup_fmap. destruct (db !! tbl) as [t|] eqn:E; [|done]. simpl.
    destruct (has_column (col_name c) (struct t)) eqn:Ec; [done|].
    destruct (not_null c && bool_decide (col_default c = VNull)) eqn:En; [done|].
    intros [= <-]. rewrite fmap_insert. split_and!; [done| |].
    + apply map_Forall_insert_2; [|done]. apply with_column_typed; [by eapply Hdb|done|].
      simpl in Hd. destruct (decide (col_default c = VNull)) as [Hv|Hv]; [|by apply Hd].
      rewrite Hv. simpl. rewrite bool_decide_true, andb_true_r in En by done. done.
    + eapply keeps_rows_insert; [done|]. apply Forall2_fmap_r, Forall_Forall2_diag, Forall_forall.
      intros r Hr. apply insert_subseteq. pose proof (Hdb tbl t E) as Ht.
      pose proof (typed_rows t Ht) as Hrows. rewrite Forall_forall in Hrows.
      eapply row_fresh; [by apply Hrows|]. by apply has_column_false.
Qed.

Lemma exec_all_sound ds db db' :
  Forall ddl_typed ds → map_Forall (λ _, table_typed) db → exec_all ds db = (Ok tt, db') →
  struct <$> db' = foldl shape_ddl (struct <$> db) ds ∧ map_Forall (λ _, table_typed) db' ∧ keeps_rows db db'.
Proof.
  intros Hds. revert db. induction Hds as [|d ds Hd _ IH]; intros db Hdb; simpl.
  { intros [= <-]. split_and!; [done|done|apply keeps_rows_refl]. }
  intros ([] & db1 & E1 & E2)%mbind_Ok_inv.
  destruct (exec_ddl_sound d db db1 Hd Hdb E1) as (Hs1 & Ht1 & Hk1).
  destruct (IH db1 Ht1 E2) as (Hs2 & Ht2 & Hk2). rewrite <- Hs1.
  split_and!; [done|done|]. by eapply keeps_rows_trans.
Qed.

(** ** Every migration can run *)

(** The statements run on structures [S] when the tables [E] are empty. *)
Fixpoint runs (S : gmap string structure) (E : gset string) (ds : list ddl) : bool :=
  match ds with
  | [] => true
  | d :: ds =>
      match d with
      | CreateTable name _ => if bool_decide (S !! name = None) then runs (shape_ddl S d) ({[name]} ∪ E) ds
                              else runs S E ds
      | CreateUniqueIndex tbl col =>
          match S !! tbl with Some s => has_column col s | None => false end &&
          bool_decide (tbl ∈ E) && runs (shape_ddl S d) E ds
      | CreateIndex tbl col =>
          match S !! tbl with Some s => has_column col s | None => false end && runs S E ds
      | AddColumn tbl c =>
          match S !! tbl with Some s => negb (has_column (col_name c) s) | None => false end &&
          negb (not_null c && bool_decide (col_default c = VNull)) &&
          bool_decide (tbl ∉ E) && runs (shape_ddl S d) E ds
      end
  end.

Lemma shape_ok d (db db' : database) : exec_ddl d db = (Ok tt, db') → struct <$> db' = shape_ddl (struct <$> db) d.
Proof.
  destruct d as [name s|tbl col|tbl col|tbl c]; simpl; rewrite ?lookup_fmap; intros E.
  - injection E as <-. destruct (db !! name); simpl; [done|]. by rewrite fmap_insert.
  - destruct (db !! tbl) as [t|]; [|done]. simpl. destruct (negb _); [done|]. case_bool_decide; [|done].
    injection E as <-. by rewrite fmap_insert.
  - destruct (db !! tbl) as [t|]; [|done]. destruct (has_column _ _); [|done]. by injection E as <-.
  - destruct (db !! tbl) as [t|]; [|done]. simpl. destruct (has_column _ _); [done|]. destruct (_ && _); [done|].
    injection E as <-. by rewrite fmap_insert.
Qed.

Definition empty_tables (E : gset string) (db : database) : Prop :=
  ∀ n t, n ∈ E → db !! n = Some t → rows t = [].

Lemma exec_all_runs ds (E : gset string) db :
  empty_tables E db → runs (struct <$> db) E ds = true → (exec_all ds db).1 = Ok tt.
Proof.
  revert E db. induction ds as [|d ds IH]; intros E db HE Hr; [done|]. cbn [exec_all]. unfold mbind.
  assert (∀ E' db', exec_ddl d db = (Ok tt, db') → empty_tables E' db' →
    runs (shape_ddl (struct <$> db) d) E' ds = true →
    match exec_ddl d db with (Ok _, db') => exec_all ds db' | (Err e, db') => (Err e, db') end.1 = Ok tt) as Hgo.
  { intros E' db' Ex HE' Hr'. rewrite Ex. apply (IH E'); [done|]. by rewrite (shape_ok _ _ _ Ex). }
  destruct d as [name s|tbl col|tbl col|tbl c]; cbn [runs] in Hr; rewrite ?lookup_fmap in Hr.
  - destruct (db !! name) as [t|] eqn:En; cbn [fmap option_fmap option_map] in Hr.
    + rewrite bool_decide_false in Hr by done. eapply (Hgo E); [simpl; by rewrite En|done|].
      simpl. by rewrite lookup_fmap, En.
    + rewrite bool_decide_true in Hr by done. eapply (Hgo ({[name]} ∪ E)); [simpl; by rewrite En| |done].
      intros n t Hn Ht. destruct (decide (n = name)) as [->|Hne].
      * rewrite lookup_insert_eq in Ht. by injection Ht as <-.
      * rewrite lookup_insert_ne in Ht by done. apply (HE n); [set_solver|done].
  - destruct (db !! tbl) as [t|] eqn:En; cbn [fmap option_fmap option_map] in Hr; [|done].
    apply andb_true_iff in Hr as [[Hc Hin%bool_decide_eq_true]%andb_true_iff Hr].
    eapply (Hgo E); [|intros n t' Hn Ht|done].
    + simpl. rewrite En, Hc. simpl. rewrite (HE tbl t Hin En). by rewrite bool_decide_true by constructor.
    + destruct (decide (n = tbl)) as [->|Hne].
      * rewrite lookup_insert_eq in Ht. injection Ht as <-. by apply (HE tbl t).
      * rewrite lookup_insert_ne in Ht by done. by apply (HE n).
  - destruct (db !! tbl) as [t|] eqn:En; cbn [fmap option_fmap option_map] in Hr; [|done].
    apply andb_true_iff in Hr as [Hc Hr]. eapply (Hgo E); [simpl; by rewrite En, Hc|done|done].
  - destruct (db !! tbl) as [t|] eqn:En; cbn [fmap option_fmap option_map] in Hr; [|done].
    apply andb_true_iff in Hr as [[[Hc Hd]%andb_true_iff Hin%bool_decide_eq_true]%andb_true_iff Hr].
    eapply (Hgo E); [simpl; rewrite En; apply negb_true_iff in Hc, Hd; by rewrite Hc, Hd| |done].
    intros n t' Hn Ht. assert (n ≠ tbl) by (by intros ->). rewrite lookup_insert_ne in Ht by done. by apply (HE n).
Qed.

(** ** Opening a database *)

#[export] Instance struct_ok_dec s : Decision (struct_ok s).
Proof. unfold struct_ok. apply _. Defined.
#[export] Instance typed_dec c v : Decision (typed c v).
Proof. unfold typed, int64_ok. destruct v; apply _. Defined.
#[export] Instance ddl_typed_dec d : Decision (ddl_typed d).
Proof. destruct d; simpl; apply _. Defined.

Section Upgrade.
Context (e : engine).

Lemma migrations_typed : Forall (Forall ddl_typed) (migration_ddl e).
Proof. apply (bool_decide_unpack _). by destruct e; vm_compute. Qed.

Lemma names_in_order : migration_names migrations_dir = migration_files.
Proof. by vm_compute. Qed.

Lemma body_of_file name body : body_of migrations_dir name = Ok body → body = name.
Proof.
  unfold body_of, migrations_dir. destruct (List.find _ _) as [x|] eqn:E; [|done].
  apply List.find_some in E as [Hin%list_elem_of_In Hn%bool_decide_eq_true].
  apply list_elem_of_fmap in Hin as (n & -> & _). simpl in *. congruence.
Qed.

Lemma file_statements k name :
  migration_files !! k = Some name →
  ∃ ds, migration_ddl e !! k = Some ds ∧ exec_file e name = exec_all ds.
Proof.
  intros Hk. do 6 (destruct k as [|k]; [injection Hk as <-; eexists; split; [reflexivity|by destruct e]|]).
  by destruct k.
Qed.

Lemma schema_at_S k ds :
  migration_ddl e !! k = Some ds → schema_at e (S k) = foldl shape_ddl (schema_at e k) ds.
Proof.
  intros Hk. unfold schema_at. rewrite (take_S_r _ _ _ Hk), concat_app, foldl_app. simpl.
  by rewrite app_nil_r.
Qed.

Lemma statements_typed k ds : migration_ddl e !! k = Some ds → Forall ddl_typed ds.
Proof.
  intros Hk. pose proof migrations_typed as H. rewrite Forall_forall in H.
  by apply H, (list_elem_of_lookup_2 _ k).
Qed.

Lemma statements_run k ds : migration_ddl e !! k = Some ds → runs (schema_at e k) ∅ ds = true.
Proof.
  intros Hk. do 6 (destruct k as [|k]; [injection Hk as <-; destruct e; vm_compute; reflexivity|]).
  by destruct k.
Qed.

(** The rows of a table belong to the role file. *)
Definition owned_by_config (n : string) (db : database) : Prop :=
  ∀ t r, db !! n = Some t → r ∈ rows t → r !! "source" = Some (VText SourceConfig).

Lemma owned_keeps n db db' :
  keeps_rows db db' → is_Some (db !! n) → owned_by_config n db → owned_by_config n db'.
Proof.
  intros Hk [t Ht] Ho t' r' Ht' Hr'. destruct (Hk n t Ht) as (t2 & Ht2 & Hf).
  assert (t2 = t') as -> by congruence. apply list_elem_of_lookup in Hr' as [i Hi].
  eapply Forall2_lookup_r in Hf as (r & Hr & Hsub); [|done].
  eapply lookup_weaken; [|done]. eapply Ho; [done|]. by eapply list_elem_of_lookup_2.
Qed.

Lemma add_column_owned n db db' :
  exec_ddl (AddColumn n (text_default "source" SourceConfig)) db = (Ok tt, db') → owned_by_config n db'.
Proof.
  simpl. destruct (db !! n) as [t|]; [|done]. destruct (has_column _ _); [done|].
  intros [= <-] t' r Ht Hr. rewrite lookup_insert_eq in Ht. injection Ht as <-. simpl in Hr.
  apply list_elem_of_fmap in Hr as (r0 & -> & _). by rewrite lookup_insert_eq.
Qed.

Lemma add_column_there n c db db' : exec_ddl (AddColumn n c) db = (Ok tt, db') → is_Some (db' !! n).
Proof.
  simpl. destruct (db !! n) as [t|]; [|done]. destruct (has_column _ _); [done|].
  destruct (_ && _); [done|]. intros [= <-]. by rewrite lookup_insert_eq.
Qed.

Lemma owner_migration_owned db db' :
  map_Forall (λ _, table_typed) db → exec_all (m0006_owner_source e) db = (Ok tt, db') →
  owned_by_config "roles" db' ∧ owned_by_config "principals" db'.
Proof.
  intros Hdb ([] & db1 & E1 & ([] & db2 & E2 & [= <-])%mbind_Ok_inv)%mbind_Ok_inv.
  assert (∀ n, ddl_typed (AddColumn n (text_default "source" "config"))) as Hd by done.
  destruct (exec_ddl_sound _ _ _ (Hd "roles") Hdb E1) as (_ & Ht1 & _).
  destruct (exec_ddl_sound _ _ _ (Hd "principals") Ht1 E2) as (_ & _ & Hk2).
  split; [|by eapply add_column_owned].
  eapply owned_keeps; [exact Hk2|by eapply add_column_there|by eapply add_column_owned].
Qed.

(** What the tables are at version [k], when they were [db0] at version [j]. *)
Definition upgraded (j : nat) (db0 : database) (k : nat) (db : database) : Prop :=
  (j ≤ k)%nat ∧ conforms (schema_at e k) db ∧ keeps_rows db0 db ∧
  ((j < 6)%nat → k = 6%nat → owned_by_config "roles" db ∧ owned_by_config "principals" db).

Lemma upgraded_sound j db0 : migration_sound (exec_file e) migrations_dir (upgraded j db0).
Proof.
  intros k name body db db' Hn Hb (Hj & [Hs Ht] & Hk & Ho) Hx.
  apply body_of_file in Hb as ->. rewrite names_in_order in Hn.
  destruct (file_statements k name Hn) as (ds & Hds & Hex). rewrite Hex in Hx.
  destruct (exec_all_sound ds db db' (statements_typed k ds Hds) Ht Hx) as (Hs' & Ht' & Hk').
  split; [lia|]. split; [|split].
  - split; [|done]. by rewrite Hs', Hs, (schema_at_S k ds Hds).
  - by eapply keeps_rows_trans.
  - intros Hj6 [= ->]. injection Hds as <-. by apply (owner_migration_owned db).
Qed.

Lemma upgraded_live j db0 : migration_live (exec_file e) migrations_dir (upgraded j db0).
Proof.
  intros k name db Hn (_ & [Hs _] & _). rewrite names_in_order in Hn.
  destruct (file_statements k name Hn) as (ds & Hds & Hex). exists name. split.
  - clear -Hn. do 6 (destruct k as [|k]; [by injection Hn as <-|]). by destruct k.
  - rewrite Hex. apply (exec_all_runs ds ∅); [done|]. rewrite Hs. by apply statements_run.
Qed.

(** A database at some version no older than [j], with the rows of [db0]. *)
Definition at_version (j : nat) (db0 : database) (k : nat) (s : schema database) : Prop :=
  (j ≤ k ≤ 6)%nat ∧
  (ledger s = Some (take k migration_files) ∨ k = O ∧ ledger s = None) ∧
  conforms (schema_at e k) (tables s) ∧ keeps_rows db0 (tables s) ∧
  ((j < 6)%nat → k = 6%nat → owned_by_config "roles" (tables s) ∧ owned_by_config "principals" (tables s)).

Lemma migrated_version j db0 k s :
  migrated migrations_dir (upgraded j db0) k s → at_version j db0 k s.
Proof.
  intros (Hk & Hl & Hj & Hc & Hr & Ho). rewrite names_in_order in *. simpl in Hk.
  split; [lia|]. split; [done|]. split; [done|]. by split.
Qed.

(** The ping and the migrations, on the database. *)
Lemma open_store_version pingPre j db0 d r d' :
  migrated migrations_dir (upgraded j db0) j (data d) →
  (wrap_sql pingPre (stmt (mret tt));;; wrap_sql "migrate: " (engine_migrate e)) d = (r, d') →
  ∃ k, at_version j db0 k (data d') ∧ (r = Ok tt → k = 6%nat) ∧ (faults d = [] → r = Ok tt).
Proof.
  intros Hm. unfold mbind, wrap_sql. destruct (stmt (mret tt) d) as [[u|err] d1] eqn:Ep;
    pose proof (stmt_reads (mret tt) d _ d1 (λ _, eq_refl) Ep) as Hd1.
  - assert (faults d = [] → faults d1 = []) as Hf1.
    { intros Hf. unfold stmt in Ep. rewrite Hf in Ep. by injection Ep as _ <-. }
    cbn [rwrap]. destruct (engine_migrate e d1) as [r2 d2] eqn:E2. intros [= <- <-].
    rewrite <- Hd1 in Hm.
    destruct (migrate_steps (exec_file e) migrations_dir _ (upgraded_sound j db0)
      ltac:(apply (bool_decide_unpack _); by vm_compute) j d1 r2 d2 Hm E2) as (k & Hk & Hm2 & Hok & Hlive).
    exists k. split; [by apply migrated_version|]. split.
    + intros Hr. assert (r2 = Ok tt) as Hr2 by (by destruct r2 as [[]|]).
      destruct (Hok Hr2) as [-> _]. by rewrite names_in_order.
    + intros Hf. rewrite Hlive; [done|by apply Hf1|apply upgraded_live].
  - intros [= <- <-]. exists j. rewrite Hd1. split; [by apply migrated_version|]. split; [done|].
    intros Hf. unfold stmt in Ep. by rewrite Hf in Ep.
Qed.

(** C20: opening the database upgrades it, and loses nothing.  Take a database of
    any version [j] of the schema, a fresh one included, holding any rows that
    version allows.  However the database fails the opening, it is left at some
    version [k] no older than [j], whole: the ledger names the first [k] migrations,
    every table has the columns, types, NOT NULL, unique and CHECK constraints of
    version [k] and its rows satisfy them, and every row keeps the values it had.
    Roles and principals from before the owner column are then marked as coming
    from the configuration files.  An opening that succeeds is at the current
    version with one more open handle, a failed one leaves no handle open, and when
    the database answers the opening succeeds. *)
Theorem open_upgrades pingPre connect j w r w' :
  (ledger (data (store w)) = Some (take j migration_files) ∨ j = O ∧ ledger (data (store w)) = None) →
  (j ≤ 6)%nat → conforms (schema_at e j) (tables (data (store w))) →
  Open (engine_migrate e) pingPre connect w = (r, w') →
  ∃ k, at_version j (tables (data (store w))) k (data (store w')) ∧
    (r = Ok tt → k = 6%nat ∧ handles w' = S (handles w)) ∧
    (∀ err, r = Err err → handles w' = handles w) ∧
    (connect = Ok tt → faults (store w) = [] → r = Ok tt).
Proof.
  intros Hled Hj Hc E. set (db0 := tables (data (store w))) in *.
  assert (migrated migrations_dir (upgraded j db0) j (data (store w))) as Hm.
  { split; [by rewrite names_in_order|]. rewrite names_in_order. split; [done|].
    split; [done|]. split; [done|]. split; [apply keeps_rows_refl|]. lia. }
  unfold Open in E. destruct connect as [u|err].
  - unfold or_close, on_store, open_handle in E. cbn [store handles] in E.
    destruct ((wrap_sql pingPre (stmt (mret tt));;; wrap_sql "migrate: " (engine_migrate e)) (store w))
      as [r1 d1] eqn:E1.
    destruct (open_store_version pingPre j db0 (store w) r1 d1 Hm E1) as (k & Hv & Hok & Hlive).
    exists k. destruct r1 as [[]|err]; injection E as <- <-; cbn [store handles Close pred].
    + split; [done|]. split; [by intros _; split; [apply Hok|]|]. by split.
    + split; [done|]. split; [done|]. split; [done|]. intros _ Hf. by specialize (Hlive Hf).
  - injection E as <- <-. exists j. split; [by apply migrated_version|]. by repeat split.
Qed.
End Upgrade.

(** ** Rows of the stores *)

(** The column lists of [store.go], and the values bound to them. *)
Definition RoleColumns : list string :=
  ["name"; "group_claim"; "allowed_principals"; "host_patterns"; "spiffe_patterns";
   "default_extensions"; "max_user_cert_ttl_seconds"; "max_host_cert_ttl_seconds";
   "max_x509_cert_ttl_seconds"].
Definition PrincipalColumns : list string := ["san"; "name"; "groups"].
Definition RevocationColumns : list string := ["serial"; "key_id"; "reason"; "revoker"; "revoked_at"].
Definition ActiveCertColumns : list string :=
  ["identity"; "current_serial"; "current_not_after"; "previous_serial"; "previous_not_after"].
Definition ActiveCertSelectColumns : list string := ActiveCertColumns ++ ["locked_at"; "locked_serial"].

Definition nullable (o : option string) : value := match o with Some s => VText s | None => VNull end.

Definition row_of (cols : list string) (vs : list value) : row := list_to_map (zip cols vs).

(** [INSERT INTO roles (…, updated_at, source)] and its siblings; the row of a
    revocation gets an id from the database, and a lock writes its two columns by
    [UPDATE]. *)
Definition role_row (r : RoleRow) : row :=
  row_of (RoleColumns ++ ["updated_at"; "source"])
    [VText (c_name r); VText (c_group_claim r); VText (c_allowed_principals r);
     VText (c_host_patterns r); VText (c_spiffe_patterns r); VText (c_default_extensions r);
     VInt (c_max_user r); VInt (c_max_host r); VInt (c_max_x509 r);
     VText (c_updated_at r); VText (c_source r)].

Definition principal_row (p : PrincipalRow) : row :=
  row_of (PrincipalColumns ++ ["updated_at"; "source"])
    [VText (c_san p); VText (c_pname p); VText (c_groups p); VText (c_pupdated_at p); VText (c_psource p)].

Definition revocation_row (x : Z * RevocationRow) : row :=
  row_of ("id" :: RevocationColumns)
    [VInt x.1; nullable (c_serial x.2); nullable (c_key_id x.2); VText (c_reason x.2);
     VText (c_revoker x.2); VText (c_revoked_at x.2)].

Definition active_cert_row (x : string * ActiveCertRow) : row :=
  row_of (ActiveCertColumns ++ ["updated_at"; "locked_at"; "locked_serial"])
    [VText (c_identity x.2); VText (c_current_serial x.2); VText (c_current_not_after x.2);
     nullable (c_previous_serial x.2); nullable (c_previous_not_after x.2); VText x.1;
     nullable (c_locked_at x.2); nullable (c_locked_serial x.2)].

(** The current structure of a table. *)
Definition current (e : engine) (n : string) : structure :=
  default (mkStructure [] [] []) (schema_at e 6 !! n).

(** A row is its values in the order of the columns. *)
Lemma row_of_lookup cols vs i c v :
  NoDup cols → cols !! i = Some c → vs !! i = Some v → row_of cols vs !! c = Some v.
Proof.
  intros Hnd Hc Hv. unfold row_of. apply elem_of_list_to_map_1'.
  - intros v' Hin. apply list_elem_of_lookup in Hin as [j Hj].
    apply lookup_zip_Some in Hj as [Hj1 Hj2]. assert (i = j) as -> by (by eapply NoDup_lookup). congruence.
  - apply list_elem_of_lookup. exists i. by apply lookup_zip_Some.
Qed.

Lemma row_of_None cols vs c : c ∉ cols → row_of cols vs !! c = None.
Proof.
  intros Hc. apply not_elem_of_list_to_map_1. intros Hin. apply list_elem_of_fmap in Hin as ([c' v] & -> & Hin).
  apply elem_of_zip_l in Hin. done.
Qed.

Lemma row_typed_values s (r : row) :
  NoDup (names_of s) →
  row_typed s r ↔ ∃ vs, Forall2 typed (columns s) vs ∧ r = row_of (names_of s) vs.
Proof.
  intros Hnd. split.
  - intros [Hk Hc].
    assert (∃ vs, Forall2 (λ c v, r !! col_name c = Some v ∧ typed c v) (columns s) vs) as [vs Hvs].
    { clear Hnd Hk. induction (columns s) as [|c cs IH]; [by exists []|].
      destruct (Hc c ltac:(by left)) as (v & Hv). destruct IH as [vs Hvs]; [intros; apply Hc; by right|].
      exists (v :: vs). by constructor. }
    exists vs. split; [eapply Forall2_impl; [exact Hvs|]; by intros ? ? [_ ?]|].
    apply map_eq. intros k. destruct (decide (k ∈ names_of s)) as [Hin|Hn].
    + apply list_elem_of_lookup in Hin as [i Hi]. pose proof Hi as Hi'. unfold names_of in Hi'.
      rewrite list_lookup_fmap in Hi'. apply fmap_Some in Hi' as (c & Hci & ->).
      destruct (Forall2_lookup_l _ _ _ _ _ Hvs Hci) as (v & Hv & Hr & _).
      rewrite Hr. symmetry. by eapply row_of_lookup.
    + rewrite row_of_None by done. apply eq_None_not_Some. intros Hs. by apply Hn, Hk.
  - intros (vs & Hvs & ->). split.
    + intros k Hk. destruct (decide (k ∈ names_of s)) as [?|Hn]; [done|]. rewrite row_of_None in Hk by done.
      by destruct Hk.
    + intros c Hin. apply list_elem_of_lookup in Hin as [i Hi].
      destruct (Forall2_lookup_l _ _ _ _ _ Hvs Hi) as (v & Hv & Ht). exists v. split; [|done].
      eapply row_of_lookup; [done| |done]. unfold names_of. by rewrite list_lookup_fmap, Hi.
Qed.

(** The rows of a table, all at once: [enc] is a record's values. *)
Lemma rows_typed_values {R} s (enc : R → row) (vals : R → list value) (good : R → Prop) (keyed : row → Prop) rs :
  NoDup (names_of s) → (∀ x, enc x = row_of (names_of s) (vals x)) →
  (∀ x, good x → Forall2 typed (columns s) (vals x)) →
  (∀ vs, Forall2 typed (columns s) vs → keyed (row_of (names_of s) vs) → ∃ x, good x ∧ vs = vals x) →
  Forall keyed rs →
  Forall (row_typed s) rs ↔ ∃ t, rs = enc <$> t ∧ Forall good t.
Proof.
  intros Hnd Henc Hty Honto Hkeyed. split.
  - intros Hrs. induction Hrs as [|r rs Hr _ IH]; [by exists []|].
    apply Forall_cons in Hkeyed as [Hkr Hk]. destruct (IH Hk) as (t & -> & Ht).
    apply row_typed_values in Hr as (vs & Hvs & ->); [|done].
    destruct (Honto vs Hvs Hkr) as (x & Hx & ->). exists (x :: t). rewrite fmap_cons, Henc. split; [done|].
    by constructor.
  - intros (t & -> & Ht). apply Forall_fmap. eapply Forall_impl; [exact Ht|]. intros x Hx. simpl.
    apply row_typed_values; [done|]. exists (vals x). split; [by apply Hty|apply Henc].
Qed.

(** A key column of the stores holds text. *)
Definition keyed (col : string) (r : row) : Prop := r !! col ≠ Some VNull.

Ltac split_values := repeat match goal with
  | H : Forall2 typed (_ :: _) _ |- _ => inversion H; clear H; subst
  | H : Forall2 typed [] _ |- _ => inversion H; clear H; subst
  end.
(** Read off what each column's type says about its value. *)
Ltac read_values := repeat match goal with
  | H : typed _ ?v |- _ => is_var v; destruct v;
      cbv [typed not_null col_type text text_default text_null int_default serial_key text_key] in H;
      try discriminate H; try (case H; discriminate)
  | H : INTEGER = INTEGER ∧ _ |- _ => apply proj2 in H
  end.

Lemma present_fmap {A} u (f : A → row) (g : A → string) (t : list A) :
  (∀ x, f x !! u = Some (VText (g x))) → present u (f <$> t) = VText <$> (g <$> t).
Proof.
  intros Hf. induction t as [|x t IH]; [done|]. rewrite !fmap_cons, present_cons, Hf, IH. done.
Qed.

Lemma present_nullable {A} u (f : A → row) (g : A → option string) (t : list A) :
  (∀ x, f x !! u = Some (nullable (g x))) → present u (f <$> t) = VText <$> (omap g t).
Proof.
  intros Hf. induction t as [|x t IH]; [done|]. rewrite fmap_cons, present_cons, Hf, IH. simpl.
  by destruct (g x).
Qed.

Lemma present_int {A} u (f : A → row) (g : A → Z) (t : list A) :
  (∀ x, f x !! u = Some (VInt (g x))) → present u (f <$> t) = VInt <$> (g <$> t).
Proof.
  intros Hf. induction t as [|x t IH]; [done|]. rewrite !fmap_cons, present_cons, Hf, IH. done.
Qed.

Lemma table_typed_iff s rs :
  struct_ok s →
  table_typed (mkTable s rs) ↔
  Forall (row_typed s) rs ∧ Forall (λ u, NoDup (present u rs)) (unique s) ∧
  Forall (λ ck, Forall (λ r, check_holds r ck) rs) (checks s).
Proof. intros Hs. split; [by intros [_ ? ? ?]|by intros (? & ? & ?); split]. Qed.

Lemma current_ok e n :
  n ∈ ["roles"; "principals"; "ssh_revocations"; "active_workload_cert"] → struct_ok (current e n).
Proof.
  intros Hn. repeat (apply elem_of_cons in Hn as [->|Hn];
    [apply (bool_decide_unpack _); by destruct e; vm_compute|]). by apply elem_of_nil in Hn.
Qed.

Lemma NoDup_fmap_iff {A B} (f : A → B) `{!Inj (=) (=) f} (l : list A) : NoDup (f <$> l) ↔ NoDup l.
Proof. split; [apply NoDup_fmap_1|by apply NoDup_fmap_2]. Qed.

#[export] Instance VText_inj : Inj (=) (=) VText.
Proof. by intros ? ? [=]. Qed.
#[export] Instance VInt_inj : Inj (=) (=) VInt.
Proof. by intros ? ? [=]. Qed.

Lemma ex_and_iff {A} (P Q R : A → Prop) (X : Prop) :
  (∀ t, P t → (X ↔ R t)) → ((∃ t, P t ∧ Q t) ∧ X ↔ ∃ t, P t ∧ R t ∧ Q t).
Proof. firstorder. Qed.

(** The current tables, column by column. *)
Lemma roles_columns e : columns (current e "roles") =
  [text_key e "name"; text "group_claim"; text_default "allowed_principals" "[]";
   text_default "host_patterns" "[]"; text_default "spiffe_patterns" "[]";
   text_default "default_extensions" "{}"; int_default "max_user_cert_ttl_seconds" 0;
   int_default "max_host_cert_ttl_seconds" 0; int_default "max_x509_cert_ttl_seconds" 0;
   text "updated_at"; text_default "source" "config"].
Proof. by destruct e; vm_compute. Qed.
Lemma principals_columns e : columns (current e "principals") =
  [text_key e "san"; text "name"; text_default "groups" "[]"; text "updated_at"; text_default "source" "config"].
Proof. by destruct e; vm_compute. Qed.
Lemma revocations_columns e : columns (current e "ssh_revocations") =
  [serial_key "id"; text_null "serial"; text_null "key_id"; text_default "reason" "";
   text_default "revoker" ""; text "revoked_at"].
Proof. by destruct e; vm_compute. Qed.
Lemma active_certs_columns e : columns (current e "active_workload_cert") =
  [text_key e "identity"; text "current_serial"; text "current_not_after"; text_null "previous_serial";
   text_null "previous_not_after"; text "updated_at"; text_null "locked_at"; text_null "locked_serial"].
Proof. by destruct e; vm_compute. Qed.

(** Values given in column order have the columns' types. *)
Ltac values_typed := repeat (constructor; [first [reflexivity|split; [reflexivity|assumption]|done]|]); constructor.

Definition role_ints (r : RoleRow) : Prop :=
  int64_ok (c_max_user r) ∧ int64_ok (c_max_host r) ∧ int64_ok (c_max_x509 r).

Lemma roles_typed e rs :
  Forall (keyed "name") rs →
  table_typed (mkTable (current e "roles") rs) ↔
  ∃ t, rs = role_row <$> t ∧ keys_unique c_name t ∧ Forall role_ints t.
Proof.
  intros Hkey. rewrite table_typed_iff by (apply current_ok; set_solver).
  rewrite (rows_typed_values _ role_row (λ r,
    [VText (c_name r); VText (c_group_claim r); VText (c_allowed_principals r);
     VText (c_host_patterns r); VText (c_spiffe_patterns r); VText (c_default_extensions r);
     VInt (c_max_user r); VInt (c_max_host r); VInt (c_max_x509 r);
     VText (c_updated_at r); VText (c_source r)]) role_ints (keyed "name") rs).
  - rewrite (ex_and_iff _ _ (λ t, keys_unique c_name t)); [done|]. intros t ->.
    assert (unique (current e "roles") = ["name"]) as -> by (by destruct e; vm_compute).
    assert (checks (current e "roles") = []) as -> by (by destruct e; vm_compute).
    rewrite Forall_singleton, (present_fmap "name" role_row c_name) by (intros x; by vm_compute).
    rewrite (NoDup_fmap_iff VText). unfold keys_unique. split; [by intros [? _]|]. intros ?. split; [done|constructor].
  - by apply current_ok; set_solver.
  - intros x. destruct e; reflexivity.
  - intros x (? & ? & ?). rewrite roles_columns. values_typed.
  - intros vs Hvs Hk. rewrite roles_columns in Hvs. split_values. read_values.
    all: try (exfalso; apply Hk; clear; by destruct e).
    match goal with |- ∃ x, _ ∧ [VText ?a; VText ?b; VText ?c; VText ?d; VText ?f; VText ?g; VInt ?h; VInt ?i; VInt ?j; VText ?k; VText ?l] = _ =>
      by exists (mkRoleRow a b c d f g h i j k l) end.
  - done.
Qed.

Lemma principals_typed e rs :
  Forall (keyed "san") rs →
  table_typed (mkTable (current e "principals") rs) ↔
  ∃ t, rs = principal_row <$> t ∧ keys_unique c_san t.
Proof.
  intros Hkey. rewrite table_typed_iff by (apply current_ok; set_solver).
  rewrite (rows_typed_values _ principal_row (λ p,
    [VText (c_san p); VText (c_pname p); VText (c_groups p); VText (c_pupdated_at p); VText (c_psource p)])
    (λ _, True) (keyed "san") rs).
  - rewrite (ex_and_iff _ _ (λ t, keys_unique c_san t)).
    { split; intros (t & ? & H); exists t; [by destruct H|]. split; [done|]. split; [done|].
      by apply Forall_forall. }
    intros t ->.
    assert (unique (current e "principals") = ["san"]) as -> by (by destruct e; vm_compute).
    assert (checks (current e "principals") = []) as -> by (by destruct e; vm_compute).
    rewrite Forall_singleton, (present_fmap "san" principal_row c_san) by (intros x; by vm_compute).
    rewrite (NoDup_fmap_iff VText). unfold keys_unique. split; [by intros [? _]|]. intros ?. split; [done|constructor].
  - by apply current_ok; set_solver.
  - intros x. destruct e; reflexivity.
  - intros x _. rewrite principals_columns. values_typed.
  - intros vs Hvs Hk. rewrite principals_columns in Hvs. split_values. read_values.
    all: try (exfalso; apply Hk; clear; by destruct e).
    match goal with |- ∃ x, _ ∧ [VText ?a; VText ?b; VText ?c; VText ?d; VText ?f] = _ =>
      by exists (mkPrincipalRow a b c d f) end.
  - done.
Qed.

(** What the unique indexes and the CHECK say of revocations. *)
Definition revocations_unique (t : list (Z * RevocationRow)) : Prop :=
  NoDup t.*1 ∧ NoDup (omap c_serial t.*2) ∧ NoDup (omap c_key_id t.*2) ∧
  Forall (λ r, ¬ (c_serial r = None ∧ c_key_id r = None)) t.*2.

Lemma omap_snd {A B C} (g : B → option C) (t : list (A * B)) : omap (λ x, g x.2) t = omap g t.*2.
Proof.
  induction t as [|[a b] t IH]; [done|].
  change (omap (λ x, g x.2) ((a, b) :: t)) with
    (match g b with Some y => y :: omap (λ x, g x.2) t | None => omap (λ x, g x.2) t end).
  change (omap g ((a, b) :: t).*2) with
    (match g b with Some y => y :: omap g t.*2 | None => omap g t.*2 end).
  by rewrite IH.
Qed.

Lemma revocation_check x :
  check_holds (revocation_row x) (mkCheck ["serial"; "key_id"]) ↔ ¬ (c_serial x.2 = None ∧ c_key_id x.2 = None).
Proof.
  assert (revocation_row x !! "serial" = Some (nullable (c_serial x.2))) as Hs by reflexivity.
  assert (revocation_row x !! "key_id" = Some (nullable (c_key_id x.2))) as Hk by reflexivity.
  split.
  - intros (col & v & Hin & Hv & Hne) [E1 E2]. rewrite E1 in Hs. rewrite E2 in Hk. simpl in Hin.
    apply elem_of_cons in Hin as [->|[->|[]%elem_of_nil]%elem_of_cons].
    + rewrite Hs in Hv. by injection Hv as <-.
    + rewrite Hk in Hv. by injection Hv as <-.
  - intros H. destruct (c_serial x.2) as [s|].
    + exists "serial", (VText s). split; [by left|]. by rewrite Hs.
    + destruct (c_key_id x.2) as [k|]; [|by destruct H]. exists "key_id", (VText k).
      split; [right; by left|]. by rewrite Hk.
Qed.

Lemma revocations_typed e rs :
  table_typed (mkTable (current e "ssh_revocations") rs) ↔
  ∃ t, rs = revocation_row <$> t ∧ revocations_unique t ∧ Forall (λ x, int64_ok x.1) t.
Proof.
  rewrite table_typed_iff by (apply current_ok; set_solver).
  rewrite (rows_typed_values _ revocation_row (λ x,
    [VInt x.1; nullable (c_serial x.2); nullable (c_key_id x.2); VText (c_reason x.2);
     VText (c_revoker x.2); VText (c_revoked_at x.2)]) (λ x, int64_ok x.1) (λ _, True) rs).
  - rewrite (ex_and_iff _ _ revocations_unique); [done|]. intros t ->.
    assert (unique (current e "ssh_revocations") = ["id"; "serial"; "key_id"]) as -> by (by destruct e; vm_compute).
    assert (checks (current e "ssh_revocations") = [mkCheck ["serial"; "key_id"]]) as -> by (by destruct e; vm_compute).
    rewrite !Forall_cons, !Forall_nil.
    rewrite (present_int "id" revocation_row fst) by (intros x; by vm_compute).
    rewrite (present_nullable "serial" revocation_row (λ x, c_serial x.2)) by (intros x; reflexivity).
    rewrite (present_nullable "key_id" revocation_row (λ x, c_key_id x.2)) by (intros x; reflexivity).
    rewrite (NoDup_fmap_iff VInt), !(NoDup_fmap_iff VText), !omap_snd, Forall_fmap. unfold revocations_unique.
    rewrite Forall_fmap.
    assert (Forall ((λ r, check_holds r (mkCheck ["serial"; "key_id"])) ∘ revocation_row) t ↔
      Forall ((λ r, ¬ (c_serial r = None ∧ c_key_id r = None)) ∘ snd) t) as ->.
    { apply Forall_iff. intros x. apply revocation_check. }
    tauto.
  - by apply current_ok; set_solver.
  - intros x. destruct e; reflexivity.
  - intros [n r] Hn. rewrite revocations_columns. cbn [fst snd]. constructor; [split; [reflexivity|exact Hn]|].
    constructor; [by destruct (c_serial r)|]. constructor; [by destruct (c_key_id r)|]. values_typed.
  - intros vs Hvs _. rewrite revocations_columns in Hvs. split_values. read_values.
    all: match goal with |- ∃ x, _ ∧ [VInt ?a; ?b; ?c; VText ?d; VText ?f; VText ?g] = _ =>
      exists (a, mkRevocationRow match b with VText s => Some s | _ => None end
                  match c with VText s => Some s | _ => None end d f g); split; [assumption|reflexivity] end.
  - by apply Forall_forall.
Qed.

Lemma active_certs_typed e rs :
  Forall (keyed "identity") rs →
  table_typed (mkTable (current e "active_workload_cert") rs) ↔
  ∃ t, rs = active_cert_row <$> t ∧ keys_unique c_identity t.*2.
Proof.
  intros Hkey. rewrite table_typed_iff by (apply current_ok; set_solver).
  rewrite (rows_typed_values _ active_cert_row (λ x,
    [VText (c_identity x.2); VText (c_current_serial x.2); VText (c_current_not_after x.2);
     nullable (c_previous_serial x.2); nullable (c_previous_not_after x.2); VText x.1;
     nullable (c_locked_at x.2); nullable (c_locked_serial x.2)])
    (λ _, True) (keyed "identity") rs).
  - rewrite (ex_and_iff _ _ (λ t, keys_unique c_identity t.*2)).
    { split; intros (t & ? & H); exists t; [by destruct H|]. split; [done|]. split; [done|].
      by apply Forall_forall. }
    intros t ->.
    assert (unique (current e "active_workload_cert") = ["identity"]) as -> by (by destruct e; vm_compute).
    assert (checks (current e "active_workload_cert") = []) as -> by (by destruct e; vm_compute).
    rewrite Forall_singleton, (present_fmap "identity" active_cert_row (λ x, c_identity x.2)) by (intros x; reflexivity).
    rewrite (NoDup_fmap_iff VText). unfold keys_unique. rewrite <- list_fmap_compose.
    split; [by intros [? _]|]. intros ?. split; [done|constructor].
  - by apply current_ok; set_solver.
  - intros x. destruct e; reflexivity.
  - intros [u r] _. rewrite active_certs_columns. cbn [fst snd].
    do 3 (constructor; [done|]). constructor; [by destruct (c_previous_serial r)|].
    constructor; [by destruct (c_previous_not_after r)|]. constructor; [done|].
    constructor; [by destruct (c_locked_at r)|]. constructor; [by destruct (c_locked_serial r)|]. constructor.
  - intros vs Hvs Hk. rewrite active_certs_columns in Hvs. split_values. read_values.
    all: try (exfalso; apply Hk; clear; by destruct e).
    all: match goal with |- ∃ x, _ ∧ [VText ?a; VText ?b; VText ?c; ?d; ?f; VText ?g; ?h; ?i] = _ =>
      exists (g, mkActiveCertRow a b c match d with VText s => Some s | _ => None end
                  match f with VText s => Some s | _ => None end
                  match h with VText s => Some s | _ => None end
                  match i with VText s => Some s | _ => None end); by split end.
  - done.
Qed.

(** PostgreSQL's keys are never NULL. *)
Lemma pg_keyed n col rs :
  text_key PostgreSQL col ∈ columns (current PostgreSQL n) →
  table_typed (mkTable (current PostgreSQL n) rs) → Forall (keyed col) rs.
Proof.
  intros Hin Ht. eapply Forall_impl; [exact (typed_rows _ Ht)|]. intros r [_ Hr].
  destruct (Hr _ Hin) as (v & Hv & Hty). simpl in Hv. unfold keyed. rewrite Hv. intros [= ->].
  discriminate Hty.
Qed.

Lemma typed_keyed_iff (P : Prop) (K : Prop) (Q : Prop) : (K → (P ↔ Q)) → (Q → K) → (P ∧ K ↔ Q).
Proof. tauto. Qed.

(** C21: the rows the stores read and write are exactly those of the current
    schema.  On both engines: the tables with the schema's columns, types, NOT NULL,
    unique and CHECK constraints whose key column is not NULL are the lists of role,
    principal, revocation and active-certificate rows that the row mappings know,
    with distinct keys, distinct revoked serials and key IDs, no revocation without
    either, and numbers of 64 bits.  So an INSERT of such a row is refused for its
    key only, and no scan meets a NULL or a number where it expects text.
    PostgreSQL keeps NULL out of the key columns itself; on SQLite that is what the
    inserts of the stores do. *)
Theorem rows_fit_schema e :
  (∀ rs, table_typed (mkTable (current e "roles") rs) ∧ Forall (keyed "name") rs ↔
     ∃ t, rs = role_row <$> t ∧ keys_unique c_name t ∧ Forall role_ints t) ∧
  (∀ rs, table_typed (mkTable (current e "principals") rs) ∧ Forall (keyed "san") rs ↔
     ∃ t, rs = principal_row <$> t ∧ keys_unique c_san t) ∧
  (∀ rs, table_typed (mkTable (current e "ssh_revocations") rs) ↔
     ∃ t, rs = revocation_row <$> t ∧ revocations_unique t ∧ Forall (λ x, int64_ok x.1) t) ∧
  (∀ rs, table_typed (mkTable (current e "active_workload_cert") rs) ∧ Forall (keyed "identity") rs ↔
     ∃ t, rs = active_cert_row <$> t ∧ keys_unique c_identity t.*2) ∧
  (∀ n col rs, (n, col) ∈ [("roles", "name"); ("principals", "san"); ("active_workload_cert", "identity")] →
     table_typed (mkTable (current PostgreSQL n) rs) → Forall (keyed col) rs).
Proof.
  split; [|split; [|split; [|split]]].
  - intros rs. apply typed_keyed_iff; [apply roles_typed|]. intros (t & -> & _).
    apply Forall_fmap, Forall_forall. by intros x _ [=].
  - intros rs. apply typed_keyed_iff; [apply principals_typed|]. intros (t & -> & _).
    apply Forall_fmap, Forall_forall. by intros x _ [=].
  - intros rs. apply revocations_typed.
  - intros rs. apply typed_keyed_iff; [apply active_certs_typed|]. intros (t & -> & _).
    apply Forall_fmap, Forall_forall. by intros x _ [=].
  - intros n col rs Hin. apply pg_keyed.
    repeat (apply elem_of_cons in Hin as [[= -> ->]|Hin];
      [rewrite ?roles_columns, ?principals_columns, ?active_certs_columns; by left|]).
    by apply elem_of_nil in Hin.
Qed.

(** ** Instances: a PostgreSQL database from before the owner column, with a role *)
Module SchemaExamples.

Definition roles_v5 : structure := default (mkStructure [] [] []) (schema_at PostgreSQL 5 !! "roles").
Definition old_values : list value :=
  [VText "ops"; VText "platform"; VText "[]"; VText "[]"; VText "[]"; VText "{}"; VInt 3600; VInt 0; VInt 0;
   VText "2025-01-01T00:00:00Z"].
Definition old_role : row := row_of (names_of roles_v5) old_values.
Definition empty_v5 : database := (exec_all (concat (take 5 (migration_ddl PostgreSQL))) ∅).2.
Definition db_v5 : database := <["roles" := mkTable roles_v5 [old_role]]> empty_v5.

Lemma roles_v5_ok : struct_ok roles_v5.
Proof. apply (bool_decide_unpack _). by vm_compute. Qed.

Lemma db_v5_conforms : conforms (schema_at PostgreSQL 5) db_v5.
Proof.
  assert (columns roles_v5 =
    [text_key PostgreSQL "name"; text "group_claim"; text_default "allowed_principals" "[]";
     text_default "host_patterns" "[]"; text_default "spiffe_patterns" "[]";
     text_default "default_extensions" "{}"; int_default "max_user_cert_ttl_seconds" 0;
     int_default "max_host_cert_ttl_seconds" 0; int_default "max_x509_cert_ttl_seconds" 0;
     text "updated_at"]) as Hcols by (by vm_compute).
  split; [apply (bool_decide_unpack _); vm_compute; exact I|]. apply map_Forall_insert_2.
  - apply table_typed_iff; [apply roles_v5_ok|]. split; [|split].
    + constructor; [|constructor]. apply row_typed_values; [apply roles_v5_ok|]. exists old_values.
      split; [|done]. rewrite Hcols. unfold old_values.
      do 6 (constructor; [reflexivity|]).
      do 3 (constructor; [split; [reflexivity|split; [by vm_compute|reflexivity]]|]). values_typed.
    + apply (bool_decide_unpack _). by vm_compute.
    + assert (checks roles_v5 = []) as -> by (by vm_compute). constructor.
  - apply (exec_all_sound (concat (take 5 (migration_ddl PostgreSQL))) ∅ empty_v5).
    + apply (bool_decide_unpack _). by vm_compute.
    + apply map_Forall_empty.
    + assert ((exec_all (concat (take 5 (migration_ddl PostgreSQL))) ∅).1 = Ok tt) as Hok by (vm_compute; reflexivity).
      unfold empty_v5. destruct (exec_all _ _) as [r d]. simpl in Hok. by subst r.
Qed.

(** The disk of an older binary, and two openings: the first loses the reply to its
    last commit. *)
Definition before : @world database :=
  mkWorld O (mkDb (mkSchema (Some (take 5 migration_files)) db_v5)
    (replicate 11 NoFault ++ [LostReply (ErrOpaque "gone")])).
Definition first_open := postgres_Open (λ _, Ok "db") "postgres://db/certd" None before.

Lemma open_upgrades_witness :
  is_ok first_open.1 = false ∧ handles first_open.2 = O ∧
  ledger (data (store first_open.2)) = Some migration_files ∧
  owned_by_config "roles" (tables (data (store first_open.2))).
Proof.
  assert (ledger (data (store first_open.2)) = Some migration_files) as Hl by (by vm_compute).
  assert (is_ok first_open.1 = false) as Hr by (by vm_compute).
  destruct (open_upgrades PostgreSQL "ping postgres: " (Ok tt) 5 before first_open.1 first_open.2)
    as (k & (Hk & Hled & _ & _ & Ho) & _ & Herr & _).
  - by left.
  - lia.
  - exact db_v5_conforms.
  - apply surjective_pairing.
  - assert (k = 6%nat) as ->.
    { rewrite Hl in Hled. destruct Hled as [[= Hlen%(f_equal length)]|[-> _]]; [|lia].
      rewrite length_take in Hlen. simpl in Hlen. lia. }
    split; [exact Hr|]. split; [|split; [exact Hl|apply Ho; [lia|done]]].
    destruct first_open.1 as [[]|err] eqn:E; [done|]. by apply (Herr err).
Defined.
End SchemaExamples.
