(* ===== verification/Http.v ===== *)
(** * Http: requests, responses and audit entries

    The parts of [net/http], [net] and [internal/audit] the API handlers share:
    the request as the handlers read it, the early-return style of a handler as a
    monad over the server's state, the audit entry, and the helpers of
    [internal/server/api/sign_ssh.go] that look at the request.

    The JSON decoder's own verdict on a body is an input ([result A]): the
    handlers' types fix the shape it decodes to.  The JSON text of audit metadata
    is not rendered: an entry keeps the map it is rendered from. *)

From S2P Require Import Prelude X509Engine.

(** ** Requests *)

Record Request := mkRequest {
  (** [r.Header.Get]: the first value of a header, or the empty string. *)
  header : string → string;
  RemoteAddr : string;
  (** [r.TLS]'s peer certificates, leaf first; absent on plain text. *)
  TLS : option (list Certificate);
}.

(** [strings.Contains] *)
Fixpoint str_contains (needle s : string) : bool :=
  String.prefix needle s ||
  match s with "" => false | String _ s' => str_contains needle s' end.

Fixpoint str_has (c : ascii) (s : string) : bool :=
  match s with "" => false | String x s' => bool_decide (x = c) || str_has c s' end.

(** The parts before and after the last [c]. *)
Fixpoint cut_last (c : ascii) (s : string) : option (string * string) :=
  match s with
  | "" => None
  | String x s' =>
      match cut_last c s' with
      | Some (b, a) => Some (String x b, a)
      | None => if bool_decide (x = c) then Some ("", s') else None
      end
  end.

(** [net.SplitHostPort]'s host. *)
Definition SplitHost (hostport : string) : option string :=
  match cut_last ":" hostport with
  | None => None
  | Some (host, port) =>
      match hostport with
      | String "[" rest =>
          let '(inside, after, found) := cut_byte "]" rest in
          if found && bool_decide (after = String ":" port) &&
             negb (str_has "[" rest) && negb (str_has "]" after)
          then Some inside else None
      | _ => if str_has ":" host || str_has "[" hostport || str_has "]" hostport
             then None else Some host
      end
  end.

Definition clientIP (r : Request) : string :=
  let xff := header r "X-Forwarded-For" in
  if negb (str_empty xff) then
    let '(first, _, _) := cut_byte "," xff in TrimSpace first
  else match SplitHost (RemoteAddr r) with Some host => host | None => RemoteAddr r end.

(** [strings.EqualFold(s, "Bearer")]; no letter of "Bearer" has a fold outside
    ASCII. *)
Definition extractBearerToken (r : Request) : option string :=
  let h := header r "Authorization" in
  if str_empty h then None else
  let '(scheme, rest, found) := cut_byte " " h in
  if negb found || negb (bool_decide (str_lower scheme = "bearer")) then None else
  let tok := TrimSpace rest in
  if str_empty tok then None else Some tok.

(** ** Bodies *)

Definition maxSignRequestBytes : Z := 64 * 1024.

Definition ErrUnexpectedEOF : error := ErrSentinel "io.ErrUnexpectedEOF" "unexpected EOF".

(** [decodeRequest], given the decoder's verdict. *)
Definition decodeRequest {A} (decoded : result A) : result A :=
  match decoded with
  | Ok a => Ok a
  | Err e =>
      if err_is e "io.ErrUnexpectedEOF" || str_contains "http: request body too large" (err_text e)
      then Err (ErrNew "request body too large (max 65536 bytes)")
      else Err (ErrWrap "invalid JSON: " e "")
  end.

(** ** Audit entries *)

Module Audit.
Definition ActionSSHUserCertSigned : string := "ssh.user_cert.signed".
Definition ActionSSHHostCertSigned : string := "ssh.host_cert.signed".
Definition ActionSSHUserCertDenied : string := "ssh.user_cert.denied".
Definition ActionSSHHostCertDenied : string := "ssh.host_cert.denied".
Definition ActionX509WorkloadCertSigned : string := "x509.workload_cert.signed".
Definition ActionX509WorkloadCertDenied : string := "x509.workload_cert.denied".
Definition ActionX509WorkloadCertLocked : string := "x509.workload_cert.locked".
Definition ActionX509WorkloadCertReenroll : string := "x509.workload_cert.reenroll".
Definition ActionSSHCertRevoked : string := "ssh.cert.revoked".

Definition CallerPrefixOIDC : string := "oidc:".
Definition CallerPrefixMTLS : string := "mtls:".
Definition CallerAnonymous : string := "anonymous".
Definition CallerPrefixPortal : string := "portal:".

(** The values the handlers put in a metadata map. *)
Inductive value :=
  | VStr (s : string) | VStrs (l : list string) | VInt (n : Z) | VTime (t : time) | VBool (b : bool)
  | VDuration (d : duration).

Record Entry := mkEntry {
  ID : string;
  Action : string;
  Subject : string;
  Caller : string;
  Serial : Z;
  IP : string;
  UserAgent : string;
  Metadata : list (string * value);
  OccurredAt : time;
}.
End Audit.

(** ** Handlers

    A handler runs on a state [W] and either returns a response early or goes on
    with a value. *)
Definition Handler (W R A : Type) : Type := W → (R + A) * W.

Definition hret {W R A} (a : A) : Handler W R A := λ w, (inr a, w).
Definition reply {W R A} (r : R) : Handler W R A := λ w, (inl r, w).
Definition hbind {W R A B} (m : Handler W R A) (k : A → Handler W R B) : Handler W R B := λ w,
  match m w with
  | (inr a, w') => k a w'
  | (inl r, w') => (inl r, w')
  end.
(** A step that always continues. *)
Definition act {W R} (f : W → W) : Handler W R unit := λ w, (inr tt, f w).

Notation "x <-h m ;; k" := (hbind m (λ x, k))
  (at level 100, m at next level, right associativity) : ca_scope.
Notation "'do' m ;; k" := (hbind m (λ _, k))
  (at level 100, m at next level, right associativity) : ca_scope.
Notation "'when' c 'respond' r ;; k" := (if c then reply r else k)
  (at level 100, c at level 99, r at level 99, right associativity) : ca_scope.

(** [v, err := m; if err != nil { return onErr }] *)
Definition try {W R A} (m : result A) (onErr : error → R) : Handler W R A := λ w,
  match m with Ok a => (inr a, w) | Err e => (inl (onErr e), w) end.

(** A complete handler ends in a response. *)
Definition serve {W R} (h : Handler W R R) (w : W) : R * W :=
  match h w with (inl r, w') | (inr r, w') => (r, w') end.

(** ** Reasoning about handlers

    [steady]: going on leaves the state alone.  [exits m P]: an early response and
    the state it leaves satisfy [P]. *)
Definition steady {W R A} (m : Handler W R A) : Prop :=
  ∀ w a w', m w = (inr a, w') → w' = w.
Definition exits {W R A} (m : Handler W R A) (P : W → R → W → Prop) : Prop :=
  ∀ w r w', m w = (inl r, w') → P w r w'.

Section Rules.
Context {W R : Type}.

Lemma hbind_inr {A B} (m : Handler W R A) (k : A → Handler W R B) w b w' :
  hbind m k w = (inr b, w') ↔ ∃ a w1, m w = (inr a, w1) ∧ k a w1 = (inr b, w').
Proof. unfold hbind. destruct (m w) as [[r|a] w1]; naive_solver. Qed.

Lemma hbind_inl {A B} (m : Handler W R A) (k : A → Handler W R B) w r w' :
  hbind m k w = (inl r, w') ↔
  m w = (inl r, w') ∨ ∃ a w1, m w = (inr a, w1) ∧ k a w1 = (inl r, w').
Proof. unfold hbind. destruct (m w) as [[r'|a] w1]; naive_solver. Qed.

Lemma try_inr {A} (m : result A) (f : error → R) (w : W) a w' :
  try m f w = (inr a, w') ↔ m = Ok a ∧ w' = w.
Proof. unfold try. destruct m; naive_solver. Qed.

Lemma steady_try {A} (m : result A) (f : error → R) : steady (W:=W) (try m f).
Proof. by intros w a w' [_ ->]%try_inr. Qed.

Lemma exits_try {A} (m : result A) (f : error → R) (P : W → R → W → Prop) :
  (∀ e w, m = Err e → P w (f e) w) → exits (try m f) P.
Proof. intros H w r w'. unfold try. destruct m; [done|]. intros [= <- <-]. by apply H. Qed.

Lemma exits_reply {A} (r : R) (P : W → R → W → Prop) :
  (∀ w, P w r w) → exits (reply (A:=A) r) P.
Proof. intros H w r' w' [= <- <-]. apply H. Qed.

Lemma exits_ret {A} (a : A) (P : W → R → W → Prop) : exits (hret a) P.
Proof. by intros w r w'. Qed.

Lemma exits_act f (P : W → R → W → Prop) : exits (act (R:=R) f) P.
Proof. by intros w r w'. Qed.

Lemma exits_bind {A B} (m : Handler W R A) (k : A → Handler W R B) P :
  steady m → exits m P → (∀ a, exits (k a) P) → exits (hbind m k) P.
Proof.
  intros Hs Hm Hk w r w' [H|(a & w1 & H1 & H2)]%hbind_inl; [by apply Hm|].
  rewrite (Hs _ _ _ H1) in H2. by apply (Hk a).
Qed.

Lemma exits_act_bind {A} f (k : unit → Handler W R A) P :
  exits (k tt) (λ w r w', ∀ w0, f w0 = w → P w0 r w') → exits (hbind (act f) k) P.
Proof. intros Hk w r w'. unfold hbind, act. intros H. by eapply Hk. Qed.

Lemma serve_cases (h : Handler W R R) w r w' :
  serve h w = (r, w') ↔ h w = (inl r, w') ∨ h w = (inr r, w').
Proof. unfold serve. destruct (h w) as [[r'|r'] w1]; naive_solver. Qed.
End Rules.

Lemma hbind_cases {W R A B} (m : Handler W R A) (k : A → Handler W R B) w out w' :
  hbind m k w = (out, w') →
  (∃ r, m w = (inl r, w') ∧ out = inl r) ∨ ∃ a w1, m w = (inr a, w1) ∧ k a w1 = (out, w').
Proof. unfold hbind. destruct (m w) as [[r|a] w1]; [intros [= <- <-]; left; eauto|right; eauto]. Qed.

Lemma try_inl {W R A} (m : result A) (f : error → R) (w : W) r w' :
  try m f w = (inl r, w') → w' = w ∧ ∃ e, m = Err e ∧ r = f e.
Proof. unfold try. destruct m; [done|]. intros [= <- <-]. split; [done|by eexists]. Qed.
