(* ===== verification/Conformance.v ===== *)
(** * Conformance: the acceptance suites of the store interfaces

    Models [internal/store/storetest/storetest.go]: the subtests every backend of
    [RoleStore], [PrincipalStore], [RevocationStore] and [ActiveCertStore] is run
    against, as programs over the operation records of [SqlStore] and the class of
    [Store].  A subtest runs on a fresh store of its own; each call of the store
    reads the clock once.  [t.Fatal] ends the subtest, [t.Error] records the
    failure and goes on; a failure is kept as its message without the arguments.
    The theorem: the SQLite and the PostgreSQL stores pass all of them, whatever
    the clock reads and the collation of the database says. *)

From S2P Require Import Prelude GoText GoTime Keyed Policy Krl X509Engine Mtls Json Store Sql SqlTable SqlStore SqlFacts SqlCorrect Http.

(** ** Subtests *)

Record env (S : Type) := mkEnv { ticks : nat; store : S; failed : list string }.
Arguments mkEnv {S} ticks store failed.
Arguments ticks {S} e.
Arguments store {S} e.
Arguments failed {S} e.

(** A step of a subtest; [None] when it called [FailNow]. *)
Definition T (S A : Type) : Type := env S → option A * env S.

Definition tret {S A} (a : A) : T S A := λ e, (Some a, e).
Definition tbind {S A B} (m : T S A) (k : A → T S B) : T S B := λ e,
  match m e with
  | (Some a, e') => k a e'
  | (None, e') => (None, e')
  end.
Notation "x <-t m ;; k" := (tbind m (λ x, k))
  (at level 100, m at next level, right associativity) : ca_scope.
Notation "m ;t; k" := (tbind m (λ _, k)) (at level 100, right associativity) : ca_scope.

(** [t.Errorf] and [t.Fatalf]. *)
Definition Errorf {S} (msg : string) : T S unit := λ e,
  (Some tt, mkEnv (ticks e) (store e) (failed e ++ [msg])).
Definition Fatalf {S A} (msg : string) : T S A := λ e,
  (None, mkEnv (ticks e) (store e) (failed e ++ [msg])).

Definition whenb {S} (c : bool) (m : T S unit) : T S unit := if c then m else tret tt.

Definition is_err {A} (r : result A) : bool := negb (is_ok r).
(** [err == nil] and the value is [a]. *)
Definition is_val {A} `{EqDecision A} (a : A) (r : result A) : bool := bool_decide (r = Ok a).
(** [errors.Is(err, …)] *)
Definition errors_Is {A} (r : result A) (name : string) : bool :=
  match r with Ok _ => false | Err e => err_is e name end.

Section Calls.
Context {S : Type} (clk : nat → time).

(** A call of the store, without and with a reading of the clock. *)
Definition call {A} (f : S → A * S) : T S A := λ e,
  let '(a, s) := f (store e) in (Some a, mkEnv (ticks e) s (failed e)).
Definition call_at {A} (f : time → S → A * S) : T S A := λ e,
  let '(a, s) := f (clk (ticks e)) (store e) in
  (Some a, mkEnv (Datatypes.S (ticks e)) s (failed e)).

(** [t.Run(name, …)] on the store [newStore] gives. *)
Definition Run (newStore : S) (sub : string * T S unit) : string * list string :=
  (sub.1, failed (sub.2 (mkEnv 0 newStore [])).2).
Definition RunAll (newStore : S) (subs : list (string * T S unit)) : list (string * list string) :=
  Run newStore <$> subs.

End Calls.

Definition passed (report : list (string * list string)) : Prop :=
  Forall (λ p, p.2 = []) report.

(** ** Roles *)

Definition sampleRole : Role :=
  mkRole "workload-issuer" "platform" ["deploy"; "ops"] ["*.svc.internal"; "db-?"]
    ["spiffe://demo/workload/*"] 3600 7200 600 {["permit-pty" := ""]}.

(** [policy.Role{Name: …, GroupClaim: …}] and its siblings. *)
Definition role_of (name group : string) : Role := mkRole name group [] [] [] 0 0 0 ∅.

Definition names (roles : list Role) : list string := sort_strings (Policy.Name <$> roles).

Section RoleSuite.
Context {S : Type} (clk : nat → time) (rs : RoleStore S).

Definition mustAddRole (r : Role) : T S unit :=
  err <-t call_at clk (λ now, rs_Add S rs now r SourceConfig);;
  whenb (is_err err) (Fatalf "Add %s: %v").

Definition role_AddRoundTrip : T S unit :=
  let want := sampleRole in
  err <-t call_at clk (λ now, rs_Add S rs now want SourcePortal);;
  whenb (is_err err) (Fatalf "Add: %v");t;
  got <-t call (rs_ByName S rs (Policy.Name want));;
  match got with
  | None => Fatalf "ByName: role not found after Add"
  | Some got =>
      whenb (negb (bool_decide (got = want))) (Errorf "round-trip mismatch");t;
      recs <-t call (rs_AllWithSource S rs);;
      match recs with
      | Err _ => Fatalf "AllWithSource: %v"
      | Ok recs =>
          whenb (negb match recs with [r] => bool_decide (RecSource r = SourcePortal) | _ => false end)
            (Errorf "AllWithSource = %+v, want one row sourced %q")
      end
  end.

Fixpoint addEach (roles : list Role) : T S unit :=
  match roles with
  | [] => tret tt
  | r :: roles =>
      err <-t call_at clk (λ now, rs_Add S rs now r SourceConfig);;
      whenb (is_err err) (Fatalf "Add %s: %v");t; addEach roles
  end.

Definition role_RolesForGroups : T S unit :=
  addEach [mkRole "a" "platform" ["deploy"] [] [] 0 0 0 ∅;
           mkRole "b" "platform" [] ["*.internal"] [] 0 0 0 ∅;
           role_of "c" "audit"];t;
  got <-t call (rs_RolesForGroups S rs ["platform"; "platform"]);;
  whenb (negb (bool_decide (names got = ["a"; "b"]))) (Errorf "RolesForGroups(platform) = %v, want %v");t;
  got <-t call (rs_RolesForGroups S rs ["audit"; "nope"]);;
  whenb (negb (bool_decide (names got = ["c"]))) (Errorf "RolesForGroups(audit) = %v, want %v");t;
  r <-t call (rs_RolesForGroups S rs []);;
  whenb (negb (bool_decide (r = []))) (Errorf "RolesForGroups(nil) = %v, want nil").

Definition role_AddDuplicate : T S unit :=
  let r := sampleRole in
  err <-t call_at clk (λ now, rs_Add S rs now r SourceConfig);;
  whenb (is_err err) (Fatalf "first Add: %v");t;
  err <-t call_at clk (λ now, rs_Add S rs now r SourceConfig);;
  whenb (negb (errors_Is err "policy.ErrRoleExists")) (Errorf "duplicate Add err = %v, want ErrRoleExists");t;
  err <-t call_at clk (λ now, rs_Add S rs now (role_of "" "") SourceConfig);;
  whenb (is_ok err) (Errorf "Add with empty name: want error, got nil").

Definition role_Replace : T S unit :=
  mustAddRole (role_of "old" "g1");t;
  mustAddRole (role_of "other" "g2");t;
  err <-t call_at clk (λ now, rs_Replace S rs now "old" (role_of "new" "g3") SourcePortal);;
  whenb (is_err err) (Fatalf "Replace rename: %v");t;
  got <-t call (rs_ByName S rs "old");;
  whenb (bool_decide (is_Some got)) (Errorf "old name still present after rename");t;
  got <-t call (rs_ByName S rs "new");;
  whenb (negb match got with Some r => bool_decide (GroupClaim r = "g3") | None => false end)
    (Errorf "renamed role = %+v ok=%v, want GroupClaim g3");t;
  err <-t call_at clk (λ now, rs_Replace S rs now "new" (role_of "other" "") SourcePortal);;
  whenb (negb (errors_Is err "policy.ErrRoleExists")) (Errorf "collision Replace err = %v, want ErrRoleExists");t;
  err <-t call_at clk (λ now, rs_Replace S rs now "ghost" (role_of "ghost" "") SourcePortal);;
  whenb (negb (errors_Is err "policy.ErrRoleNotFound")) (Errorf "absent Replace err = %v, want ErrRoleNotFound").

Definition role_Delete : T S unit :=
  mustAddRole (role_of "doomed" "g");t;
  err <-t call (rs_Delete S rs "doomed");;
  whenb (is_err err) (Fatalf "Delete: %v");t;
  got <-t call (rs_ByName S rs "doomed");;
  whenb (bool_decide (is_Some got)) (Errorf "role present after Delete");t;
  err <-t call (rs_Delete S rs "doomed");;
  whenb (negb (errors_Is err "policy.ErrRoleNotFound")) (Errorf "second Delete err = %v, want ErrRoleNotFound").

Definition role_SeedRolesIfEmpty : T S unit :=
  seeded <-t call_at clk (λ now, rs_SeedRolesIfEmpty S rs now [role_of "a" "g1"; role_of "b" "g2"]);;
  whenb (negb (is_val true seeded)) (Fatalf "first SeedRolesIfEmpty: seeded=%v err=%v, want true/nil");t;
  all <-t call (rs_All S rs);;
  whenb (negb (bool_decide (length all = 2%nat))) (Fatalf "after seed, All() len = %d, want 2");t;
  seeded <-t call_at clk (λ now, rs_SeedRolesIfEmpty S rs now [role_of "c" "g3"]);;
  whenb (negb (is_val false seeded)) (Fatalf "second SeedRolesIfEmpty: seeded=%v err=%v, want false/nil");t;
  all <-t call (rs_All S rs);;
  whenb (negb (bool_decide (length all = 2%nat))) (Errorf "after no-op seed, All() len = %d, want 2").

Definition RunRoleStoreSuite (newStore : S) : list (string * list string) :=
  RunAll newStore
    [("AddRoundTrip", role_AddRoundTrip); ("RolesForGroups", role_RolesForGroups);
     ("AddDuplicate", role_AddDuplicate); ("Replace", role_Replace); ("Delete", role_Delete);
     ("SeedRolesIfEmpty", role_SeedRolesIfEmpty)].

End RoleSuite.

(** ** Principals *)

Definition seed : list Principal :=
  [mkPrincipal "app" "spiffe://demo/workload/app" ["workload"];
   mkPrincipal "nats" "spiffe://demo/workload/nats" ["workload"; "nats"]].

Definition sans (ps : list Principal) : list string := sort_strings (MatchedSAN <$> ps).

Section PrincipalSuite.
Context {S : Type} (clk : nat → time) (ps : PrincipalStore S).

Definition mustAddPrincipal (p : Principal) : T S unit :=
  err <-t call_at clk (λ now, ps_Add S ps now p SourceConfig);;
  whenb (is_err err) (Fatalf "Add %s: %v").

Definition principal_SeedAndAll : T S unit :=
  seeded <-t call_at clk (λ now, ps_SeedPrincipalsIfEmpty S ps now seed);;
  whenb (negb (is_val true seeded)) (Fatalf "SeedPrincipalsIfEmpty: seeded=%v err=%v, want true/nil");t;
  all <-t call (ps_All S ps);;
  whenb (negb (bool_decide (sans all = ["spiffe://demo/workload/app"; "spiffe://demo/workload/nats"])))
    (Errorf "All sans = %v");t;
  seeded <-t call_at clk (λ now, ps_SeedPrincipalsIfEmpty S ps now [mkPrincipal "x" "z" []]);;
  whenb (negb (is_val false seeded)) (Fatalf "second seed: seeded=%v err=%v, want false/nil").

Definition principal_Lookup : T S unit :=
  err <-t call_at clk (λ now, ps_SeedPrincipalsIfEmpty S ps now seed);;
  whenb (is_err err) (Fatalf "%v");t;
  p <-t call (ps_Lookup S ps ["spiffe://nope"; "spiffe://demo/workload/nats"]);;
  match p with
  | Err _ => Fatalf "Lookup: %v"
  | Ok p =>
      whenb (negb (bool_decide (PName p = "nats")) ||
            negb (bool_decide (MatchedSAN p = "spiffe://demo/workload/nats")))
        (Errorf "Lookup = %+v, want nats/its SAN");t;
      whenb (negb (bool_decide (Mtls.Groups p = ["workload"; "nats"]))) (Errorf "Lookup groups = %v");t;
      err <-t call (ps_Lookup S ps ["spiffe://unknown"]);;
      whenb (negb (errors_Is err "mtls.ErrUnknownPrincipal"))
        (Errorf "unknown Lookup err = %v, want ErrUnknownPrincipal");t;
      err <-t call (ps_Lookup S ps []);;
      whenb (negb (errors_Is err "mtls.ErrNoClientCert"))
        (Errorf "empty Lookup err = %v, want ErrNoClientCert")
  end.

Definition principal_AddBySANRoundTrip : T S unit :=
  let want := mkPrincipal "app" "spiffe://demo/app" ["workload"] in
  err <-t call_at clk (λ now, ps_Add S ps now want SourcePortal);;
  whenb (is_err err) (Fatalf "Add: %v");t;
  got <-t call (ps_BySAN S ps (MatchedSAN want));;
  whenb (negb (bool_decide (got = Some want))) (Errorf "BySAN = %+v ok=%v, want %+v");t;
  got <-t call (ps_BySAN S ps "spiffe://absent");;
  whenb (bool_decide (is_Some got)) (Errorf "BySAN(absent) = true, want false");t;
  recs <-t call (ps_AllWithSource S ps);;
  match recs with
  | Err _ => Fatalf "AllWithSource: %v"
  | Ok recs =>
      whenb (negb match recs with [r] => bool_decide (RecPSource r = SourcePortal) | _ => false end)
        (Errorf "AllWithSource = %+v, want one row sourced %q")
  end.

Definition principal_AddDuplicate : T S unit :=
  let p := mkPrincipal "app" "spiffe://demo/app" [] in
  err <-t call_at clk (λ now, ps_Add S ps now p SourceConfig);;
  whenb (is_err err) (Fatalf "first Add: %v");t;
  err <-t call_at clk (λ now, ps_Add S ps now p SourceConfig);;
  whenb (negb (errors_Is err "mtls.ErrPrincipalExists"))
    (Errorf "duplicate Add err = %v, want ErrPrincipalExists");t;
  err <-t call_at clk (λ now, ps_Add S ps now (mkPrincipal "no-san" "" []) SourceConfig);;
  whenb (is_ok err) (Errorf "Add with empty SAN: want error, got nil").

Definition principal_Replace : T S unit :=
  mustAddPrincipal (mkPrincipal "old" "spiffe://demo/old" []);t;
  mustAddPrincipal (mkPrincipal "other" "spiffe://demo/other" []);t;
  err <-t call_at clk (λ now, ps_Replace S ps now "spiffe://demo/old"
            (mkPrincipal "new" "spiffe://demo/new" ["g"]) SourcePortal);;
  whenb (is_err err) (Fatalf "Replace re-key: %v");t;
  got <-t call (ps_BySAN S ps "spiffe://demo/old");;
  whenb (bool_decide (is_Some got)) (Errorf "old SAN still present after re-key");t;
  got <-t call (ps_BySAN S ps "spiffe://demo/new");;
  whenb (negb match got with Some p => bool_decide (PName p = "new") | None => false end)
    (Errorf "re-keyed principal = %+v ok=%v, want name new");t;
  err <-t call_at clk (λ now, ps_Replace S ps now "spiffe://demo/new"
            (mkPrincipal "x" "spiffe://demo/other" []) SourcePortal);;
  whenb (negb (errors_Is err "mtls.ErrPrincipalExists"))
    (Errorf "collision Replace err = %v, want ErrPrincipalExists");t;
  err <-t call_at clk (λ now, ps_Replace S ps now "spiffe://ghost"
            (mkPrincipal "g" "spiffe://ghost2" []) SourcePortal);;
  whenb (negb (errors_Is err "mtls.ErrPrincipalNotFound"))
    (Errorf "absent Replace err = %v, want ErrPrincipalNotFound").

Definition principal_Delete : T S unit :=
  mustAddPrincipal (mkPrincipal "doomed" "spiffe://demo/doomed" []);t;
  err <-t call (ps_Delete S ps "spiffe://demo/doomed");;
  whenb (is_err err) (Fatalf "Delete: %v");t;
  got <-t call (ps_BySAN S ps "spiffe://demo/doomed");;
  whenb (bool_decide (is_Some got)) (Errorf "principal present after Delete");t;
  err <-t call (ps_Delete S ps "spiffe://demo/doomed");;
  whenb (negb (errors_Is err "mtls.ErrPrincipalNotFound"))
    (Errorf "second Delete err = %v, want ErrPrincipalNotFound").

Definition RunPrincipalStoreSuite (newStore : S) : list (string * list string) :=
  RunAll newStore
    [("SeedAndAll", principal_SeedAndAll); ("Lookup", principal_Lookup);
     ("AddBySANRoundTrip", principal_AddBySANRoundTrip); ("AddDuplicate", principal_AddDuplicate);
     ("Replace", principal_Replace); ("Delete", principal_Delete)].

End PrincipalSuite.

(** ** Revocations *)

Section RevocationSuite.
Context {S : Type} (clk : nat → time) (rs : RevocationStore S).

Definition rev_RevokeCheckSnapshot : T S unit :=
  err <-t call_at clk (λ now, vs_Revoke S rs now (mkRevocation 0 "" "" "" zero_time));;
  whenb (negb (errors_Is err "krl.ErrEmptyRevocation")) (Errorf "empty Revoke err = %v, want ErrEmptyRevocation");t;
  err <-t call_at clk (λ now, vs_Revoke S rs now (mkRevocation 42 "" "compromised" "admin" zero_time));;
  whenb (is_err err) (Fatalf "Revoke serial: %v");t;
  err <-t call_at clk (λ now, vs_Revoke S rs now (mkRevocation 0 "user:alice" "left" "" zero_time));;
  whenb (is_err err) (Fatalf "Revoke keyid: %v");t;
  b <-t call (vs_IsRevoked S rs 42 "");;
  whenb (negb b) (Errorf "IsRevoked(42) = false, want true");t;
  b <-t call (vs_IsRevoked S rs 43 "");;
  whenb b (Errorf "IsRevoked(43) = true, want false");t;
  b <-t call (vs_IsRevoked S rs 0 "user:alice");;
  whenb (negb b) (Errorf "IsRevoked(alice) = false, want true");t;
  b <-t call (vs_IsRevoked S rs 0 "user:bob");;
  whenb b (Errorf "IsRevoked(bob) = true, want false");t;
  snap <-t call_at clk (vs_Snapshot S rs);;
  whenb (negb (bool_decide (length (Krl.Snapshot.Entries snap) = 2%nat)))
    (Fatalf "Snapshot entries = %d, want 2").

Definition rev_RevokeIdempotent : T S unit :=
  err <-t call_at clk (λ now, vs_Revoke S rs now (mkRevocation 7 "" "first" "" zero_time));;
  whenb (is_err err) (Fatalf "%v");t;
  err <-t call_at clk (λ now, vs_Revoke S rs now (mkRevocation 7 "" "second" "" zero_time));;
  whenb (is_err err) (Fatalf "%v");t;
  snap <-t call_at clk (vs_Snapshot S rs);;
  match Krl.Snapshot.Entries snap with
  | [e] => whenb (negb (bool_decide (Reason e = "second"))) (Errorf "reason = %q, want overwritten to %q")
  | _ => Fatalf "re-revoke produced %d entries, want 1 (idempotent)"
  end.

Definition rev_MarshalSpec : T S unit :=
  err <-t call_at clk (λ now, vs_Revoke S rs now (mkRevocation 42 "" "" "" zero_time));;
  whenb (is_err err) (Fatalf "%v");t;
  err <-t call_at clk (λ now, vs_Revoke S rs now (mkRevocation 0 "user:alice" "" "" zero_time));;
  whenb (is_err err) (Fatalf "%v");t;
  spec <-t call_at clk (vs_MarshalSpec S rs);;
  whenb (negb (str_contains "serial: 42" spec)) (Errorf "spec missing serial line:\n%s");t;
  whenb (negb (str_contains "id: user:alice" spec)) (Errorf "spec missing id line:\n%s").

Definition RunRevocationStoreSuite (newStore : S) : list (string * list string) :=
  RunAll newStore
    [("RevokeCheckSnapshot", rev_RevokeCheckSnapshot); ("RevokeIdempotent", rev_RevokeIdempotent);
     ("MarshalSpec", rev_MarshalSpec)].

End RevocationSuite.

(** ** Active workload certificates *)

(** [time.Date(2026, 6, 4, 12, 0, 0, 0, time.UTC)] and ten minutes before. *)
Definition cur : time := (days_from_civil 2026 6 4 * 86400 + 12 * 3600) * ns_per_sec.
Definition prev : time := time_add cur (-10 * minute).

(** [store.ActiveCert{…}] of a current certificate only, and the zero value. *)
Definition cert_of (identity serial : string) (notAfter : time) : ActiveCert :=
  mkActiveCert identity serial notAfter "" zero_time zero_time "".
Definition cert_with_previous (identity cs : string) (cna : time) (ps : string) (pna : time) : ActiveCert :=
  mkActiveCert identity cs cna ps pna zero_time "".

Section ActiveCertSuite.
Context {S : Type} `{ActiveCertStore S} (clk : nat → time).

(** [got, _, _ := as.Get(id)] *)
Definition got_or_zero (r : result (option ActiveCert)) : ActiveCert :=
  match r with Ok (Some ac) => ac | _ => cert_of "" "" zero_time end.

Definition ac_UpsertGet : T S unit :=
  r <-t call (Get "spiffe://demo/x");;
  whenb (negb (is_val None r)) (Fatalf "empty Get: ok=%v err=%v, want false/nil");t;
  err <-t call (Upsert (cert_with_previous "spiffe://demo/x" "123" cur "122" prev));;
  whenb (is_err err) (Fatalf "Upsert: %v");t;
  r <-t call (Get "spiffe://demo/x");;
  match r with
  | Ok (Some got) =>
      whenb (negb (bool_decide (CurrentSerial got = "123")) || negb (bool_decide (PreviousSerial got = "122")))
        (Errorf "serials = %q/%q, want 123/122");t;
      whenb (negb (bool_decide (CurrentNotAfter got = cur)) || negb (bool_decide (PreviousNotAfter got = prev)))
        (Errorf "not_after round-trip mismatch: %v / %v")
  | _ => Fatalf "Get after upsert: ok=%v err=%v"
  end.

Definition ac_CollapsePrevious : T S unit :=
  err <-t call (Upsert (cert_with_previous "id" "9" cur "8" prev));;
  whenb (is_err err) (Fatalf "%v");t;
  err <-t call (Upsert (cert_of "id" "9" cur));;
  whenb (is_err err) (Fatalf "%v");t;
  r <-t call (Get "id");;
  match r with
  | Ok (Some got) =>
      whenb (negb (str_empty (PreviousSerial got)) || negb (time_is_zero (PreviousNotAfter got)))
        (Errorf "previous not collapsed: serial=%q not_after=%v")
  | _ => Fatalf "Get: ok=%v err=%v"
  end.

Definition ac_Delete : T S unit :=
  err <-t call (Upsert (cert_of "doomed" "1" cur));;
  whenb (is_err err) (Fatalf "%v");t;
  err <-t call (Store.Delete "doomed");;
  whenb (is_err err) (Fatalf "Delete: %v");t;
  r <-t call (Get "doomed");;
  whenb (match r with Ok (Some _) => true | _ => false end) (Errorf "row present after Delete");t;
  err <-t call (Store.Delete "doomed");;
  whenb (is_err err) (Errorf "Delete absent: %v, want nil (idempotent)").

Definition ac_Lock : T S unit :=
  err <-t call (Upsert (cert_of "id" "9" cur));;
  whenb (is_err err) (Fatalf "%v");t;
  r <-t call (Get "id");;
  whenb (negb (time_is_zero (LockedAt (got_or_zero r))) || negb (str_empty (LockedSerial (got_or_zero r))))
    (Fatalf "fresh row locked: at=%v serial=%q");t;
  err <-t call_at clk (λ now, Lock now "id" "666");;
  whenb (is_err err) (Fatalf "Lock: %v");t;
  r <-t call (Get "id");;
  match r with
  | Ok (Some got) =>
      whenb (time_is_zero (LockedAt got)) (Errorf "locked_at not set after Lock");t;
      whenb (negb (bool_decide (LockedSerial got = "666"))) (Errorf "locked_serial = %q, want 666");t;
      whenb (negb (bool_decide (CurrentSerial got = "9"))) (Errorf "current_serial mutated by Lock: %q");t;
      err <-t call_at clk (λ now, Lock now "ghost" "1");;
      whenb (is_err err) (Errorf "Lock absent: %v, want nil")
  | _ => Fatalf "Get after lock: ok=%v err=%v"
  end.

Definition ac_AdoptCurrent : T S unit :=
  err <-t call (Upsert (cert_with_previous "id" "9" cur "8" prev));;
  whenb (is_err err) (Fatalf "%v");t;
  r <-t call (AdoptCurrent "id" "8");;
  whenb (negb (is_val false r)) (Fatalf "Adopt non-current: ok=%v err=%v, want false/nil");t;
  r <-t call (Get "id");;
  whenb (negb (bool_decide (PreviousSerial (got_or_zero r) = "8")))
    (Errorf "previous collapsed by a non-current adopt: %q");t;
  r <-t call (AdoptCurrent "id" "9");;
  whenb (negb (is_val true r)) (Fatalf "Adopt current: ok=%v err=%v, want true/nil");t;
  r <-t call (Get "id");;
  whenb (negb (str_empty (PreviousSerial (got_or_zero r))) ||
         negb (time_is_zero (PreviousNotAfter (got_or_zero r))))
    (Errorf "previous not collapsed: serial=%q not_after=%v");t;
  whenb (negb (bool_decide (CurrentSerial (got_or_zero r) = "9"))) (Errorf "current mutated by adopt: %q");t;
  err <-t call_at clk (λ now, Lock now "id" "666");;
  whenb (is_err err) (Fatalf "%v");t;
  r <-t call (AdoptCurrent "id" "9");;
  whenb (match r with Ok b => b | Err _ => false end) (Errorf "Adopt collapsed a locked row");t;
  r <-t call (AdoptCurrent "ghost" "1");;
  whenb (negb (is_val false r)) (Errorf "Adopt absent: ok=%v err=%v, want false/nil").

Definition RunActiveCertStoreSuite (newStore : S) : list (string * list string) :=
  RunAll newStore
    [("UpsertGet", ac_UpsertGet); ("CollapsePrevious", ac_CollapsePrevious); ("Delete", ac_Delete);
     ("Lock", ac_Lock); ("AdoptCurrent", ac_AdoptCurrent)].

End ActiveCertSuite.

(** ** Running a subtest by its steps

    The store between two calls is kept as the application that produced it: the
    rows hold the text of the clock's readings, which no check looks at. *)

Lemma call_eq {S A} (f : S → A * S) e :
  call f e = (Some (f (store e)).1, mkEnv (ticks e) (f (store e)).2 (failed e)).
Proof. unfold call. by destruct (f (store e)). Qed.

Lemma call_at_eq {S A} clk (f : time → S → A * S) e :
  call_at clk f e = (Some (f (clk (ticks e)) (store e)).1,
    mkEnv (Datatypes.S (ticks e)) (f (clk (ticks e)) (store e)).2 (failed e)).
Proof. unfold call_at. by destruct (f _ (store e)). Qed.

Lemma tbind_Some {S A B} (m : T S A) (k : A → T S B) e a e' :
  m e = (Some a, e') → tbind m k e = k a e'.
Proof. unfold tbind. by intros ->. Qed.

Lemma whenb_pass {S A} c (m : T S unit) (k : T S A) e :
  c = false → tbind (whenb c m) (λ _, k) e = k e.
Proof. by intros ->. Qed.

Lemma whenb_last {S} c (m : T S unit) e : c = false → (whenb c m e).2 = e.
Proof. by intros ->. Qed.

Ltac test_step := first [erewrite tbind_Some by apply call_at_eq|erewrite tbind_Some by apply call_eq];
  cbn [ticks store failed].
Ltac computed := vm_compute; reflexivity.
Ltac test_pass := first [rewrite whenb_pass by computed|rewrite whenb_last by computed].

Lemma passed_cons {S} (new : S) name t subs :
  failed (t (mkEnv 0 new [])).2 = [] → passed (RunAll new subs) →
  passed (RunAll new ((name, t) :: subs)).
Proof. intros Ht Hs. by constructor. Qed.

Lemma passed_nil {S} (new : S) : passed (RunAll new []).
Proof. constructor. Qed.

(** A table whose rows scan is read back in some order. *)
Lemma scan_all_perm {R A} (scan : R → result A) rows rows' l :
  rows ≡ₚ rows' → scan_all scan rows = Ok l → ∃ l', scan_all scan rows' = Ok l' ∧ l ≡ₚ l'.
Proof.
  intros Hp. revert l.
  induction Hp as [|row rows rows' _ IH|r1 r2 rows|k1 k2 k3 _ IH1 _ IH2]; intros l; simpl.
  - intros [= <-]. by exists [].
  - intros (a & -> & (l1 & Hl1 & [= <-])%rbind_Ok)%rbind_Ok.
    destruct (IH l1 Hl1) as (l' & -> & ?). exists (a :: l'). split; [done|by constructor].
  - intros (a & Ha & (l1 & (b & -> & (l2 & -> & [= <-])%rbind_Ok)%rbind_Ok & [= <-])%rbind_Ok)%rbind_Ok.
    rewrite Ha. simpl. eexists. split; [done|constructor].
  - intros (l' & (l'' & ? & ?)%IH2 & ?)%IH1. exists l''. split; [done|by etrans].
Qed.

(** What [f] extracts of the records of a table, up to order. *)
Definition scanned {R A B} (scan : R → result A) (f : A → B) (t : list R) : option (list B) :=
  match scan_all scan t with Ok l => Some (f <$> l) | Err _ => None end.

Lemma scanned_all {R A B} (scan : R → result A) (f : A → B) (rkey : R → string) dl d l :
  faults d = [] → scanned scan f (data d) = Some l →
  ∃ rows l', select_all rkey dl d = (Ok rows, d) ∧ scan_all scan rows = Ok l' ∧ l ≡ₚ f <$> l'.
Proof.
  destruct d as [t fs]. simpl. intros -> Hs. unfold scanned in Hs.
  destruct (scan_all scan t) as [l0|e] eqn:E; [|done]. injection Hs as <-.
  destruct (scan_all_perm scan t (merge_sort (row_le rkey dl) t) l0) as (l' & Hl & Hp); [|done|].
  { symmetry. apply merge_sort_Permutation. }
  exists (merge_sort (row_le rkey dl) t), l'. split; [done|]. split; [done|]. by rewrite Hp.
Qed.

Lemma role_All_scanned dl d l :
  faults d = [] → scanned ScanRole Policy.Name (data d) = Some l →
  ∃ l', SqlStore.Roles.All dl d = (l', d) ∧ l ≡ₚ Policy.Name <$> l'.
Proof.
  intros Hf Hs. destruct (scanned_all _ _ c_name dl d l Hf Hs) as (rows & l' & Hr & Hl & Hp).
  exists l'. split; [|done]. unfold Roles.All. rewrite Hr. unfold ScanRoles. by rewrite Hl.
Qed.

Lemma principal_All_scanned dl d l :
  faults d = [] → scanned ScanPrincipal MatchedSAN (data d) = Some l →
  ∃ l', SqlStore.Principals.All dl d = (l', d) ∧ l ≡ₚ MatchedSAN <$> l'.
Proof.
  intros Hf Hs. destruct (scanned_all _ _ c_san dl d l Hf Hs) as (rows & l' & Hr & Hl & Hp).
  exists l'. split; [|done]. unfold Principals.All. rewrite Hr. unfold ScanPrincipals. by rewrite Hl.
Qed.

Section Passing.
Context (clk : nat → time) (dl : Dialect).

Lemma role_seed_passes :
  failed (role_SeedRolesIfEmpty clk (role_store dl) (mkEnv 0 (mkDb [] []) [])).2 = [].
Proof.
  unfold role_SeedRolesIfEmpty. test_step. test_pass.
  cbn [role_store rs_SeedRolesIfEmpty rs_All]. set (d1 := (Roles.SeedRolesIfEmpty _ _ _).2).
  destruct (role_All_scanned dl d1 ["a"; "b"]) as (l1 & HA1 & Hp1); [computed|computed|].
  test_step. rewrite HA1. cbn [fst snd]. rewrite whenb_pass.
  2: { apply negb_false_iff, bool_decide_eq_true. by rewrite <- (length_fmap Policy.Name), <- Hp1. }
  test_step. set (d2 := (Roles.SeedRolesIfEmpty _ _ d1).2). test_pass.
  destruct (role_All_scanned dl d2 ["a"; "b"]) as (l2 & HA2 & Hp2); [computed|computed|].
  test_step. rewrite HA2. cbn [fst snd]. rewrite whenb_last; [done|].
  apply negb_false_iff, bool_decide_eq_true. by rewrite <- (length_fmap Policy.Name), <- Hp2.
Qed.

Lemma role_suite_passes : passed (RunRoleStoreSuite clk (role_store dl) (mkDb [] [])).
Proof.
  unfold RunRoleStoreSuite.
  do 5 (apply passed_cons; [computed|]).
  apply passed_cons; [apply role_seed_passes|apply passed_nil].
Qed.

Lemma principal_seed_passes :
  failed (principal_SeedAndAll clk (principal_store dl) (mkEnv 0 (mkDb [] []) [])).2 = [].
Proof.
  unfold principal_SeedAndAll. test_step. test_pass.
  cbn [principal_store ps_SeedPrincipalsIfEmpty ps_All]. set (d1 := (Principals.SeedPrincipalsIfEmpty _ _ _).2).
  destruct (principal_All_scanned dl d1 (MatchedSAN <$> seed)) as (l1 & HA1 & Hp1); [computed|computed|].
  test_step. rewrite HA1. cbn [fst snd]. rewrite whenb_pass.
  2: { apply negb_false_iff, bool_decide_eq_true. unfold sans. by rewrite <- (sort_strings_perm _ _ Hp1). }
  test_step. by test_pass.
Qed.

Lemma principal_suite_passes : passed (RunPrincipalStoreSuite clk (principal_store dl) (mkDb [] [])).
Proof.
  unfold RunPrincipalStoreSuite. apply passed_cons; [apply principal_seed_passes|].
  do 5 (apply passed_cons; [computed|]). apply passed_nil.
Qed.

End Passing.

(** ** The revocation suite *)

Section RevocationPassing.
Import SqlStore.Revocations.
Context (clk : nat → time) (dl : Dialect).
Hypothesis clk_ok : ∀ n, year_ok (clk n).

(** The table holds these revocations and the script has no faults. *)
Definition holds (rs : list Revocation) (d : db table) : Prop :=
  represents (data d) rs ∧ faults d = [].

Lemma Revoke_holds n r rs d :
  holds rs d → uint64_ok (Serial r) → Revoked r = zero_time →
  (Revoke (clk n) r d).1 = (spec_revoke (clk n) r rs).1 ∧
  holds (spec_revoke (clk n) r rs).2 (Revoke (clk n) r d).2.
Proof.
  intros [Hr Hf] Hs Hz. destruct (Revoke (clk n) r d) as [res d'] eqn:E.
  destruct (Revoke_faultless (clk n) r rs d res d' Hr Hf) as (-> & ? & ?); [|done|done].
  unfold revoke_ok. simpl. rewrite Hz. split; [done|]. split; [by vm_compute|apply clk_ok].
Qed.

Lemma IsRevoked_holds serial keyID rs d :
  holds rs d → uint64_ok serial → existsb (SqlFacts.names serial keyID) rs = (IsRevoked serial keyID d).1 ∧
  holds rs (IsRevoked serial keyID d).2.
Proof.
  intros [Hr Hf] Hs. destruct d as [t fs]. simpl in Hf. subst fs. simpl in Hr.
  rewrite <- (represents_names t rs serial keyID Hr Hs). unfold IsRevoked, stmt. simpl.
  destruct ((serial =? 0) && str_empty keyID) eqn:E; [|done].
  apply andb_true_iff in E as [E1 E2]. split; [|done]. simpl. unfold matches. rewrite E1, E2. simpl.
  clear. by induction t.
Qed.

Lemma Snapshot_holds n rs d :
  holds rs d → Krl.Snapshot.Entries (Snapshot dl (clk n) d).1 ≡ₚ rs.
Proof.
  intros [Hr Hf]. destruct d as [t fs]. simpl in *. subst fs. by apply Snapshot_represents.
Qed.

Lemma Snapshot_captured n (d : db table) : Krl.Snapshot.CapturedAt (Snapshot dl (clk n) d).1 = clk n.
Proof. unfold Snapshot. by destruct (stmt _ d) as [[?|?] ?]. Qed.

Lemma holds_empty : holds [] (mkDb [] []).
Proof. by repeat constructor. Qed.

Ltac abstract_store Hd :=
  match type of Hd with holds _ ?d => let s := fresh "d" in set (s := d) in *; clearbody s end.
(** The next call of the suite: what it returns, and what the table holds then. *)
Ltac revoke_call n r Hd Hd' :=
  let E := fresh "E" in
  destruct (Revoke_holds n r _ _ Hd ltac:(vm_compute; done) eq_refl) as [E Hd'];
  test_step; cbn [revocation_store vs_Revoke vs_Snapshot vs_MarshalSpec vs_IsRevoked]; rewrite E;
  abstract_store Hd'.
Ltac revoked_call serial key Hd Hd' :=
  let E := fresh "E" in
  destruct (IsRevoked_holds serial key _ _ Hd ltac:(vm_compute; done)) as [E Hd'];
  test_step; cbn [revocation_store vs_Revoke vs_Snapshot vs_MarshalSpec vs_IsRevoked]; rewrite <- E;
  test_pass; abstract_store Hd'.

Lemma rev_check_passes :
  failed (rev_RevokeCheckSnapshot clk (revocation_store dl) (mkEnv 0 (mkDb [] []) [])).2 = [].
Proof.
  unfold rev_RevokeCheckSnapshot. pose proof holds_empty as K0.
  revoke_call 0%nat (mkRevocation 0 "" "" "" zero_time) K0 K1. test_pass.
  revoke_call 1%nat (mkRevocation 42 "" "compromised" "admin" zero_time) K1 K2. test_pass.
  revoke_call 2%nat (mkRevocation 0 "user:alice" "left" "" zero_time) K2 K3. test_pass.
  revoked_call 42 "" K3 K4. revoked_call 43 "" K4 K5.
  revoked_call 0 "user:alice" K5 K6. revoked_call 0 "user:bob" K6 K7.
  test_step. pose proof (Snapshot_holds 3 _ _ K7) as Hp. rewrite whenb_last; [done|].
  apply negb_false_iff, bool_decide_eq_true. cbn [revocation_store vs_Snapshot]. rewrite Hp. computed.
Qed.

Lemma rev_idempotent_passes :
  failed (rev_RevokeIdempotent clk (revocation_store dl) (mkEnv 0 (mkDb [] []) [])).2 = [].
Proof.
  unfold rev_RevokeIdempotent. pose proof holds_empty as K0.
  revoke_call 0%nat (mkRevocation 7 "" "first" "" zero_time) K0 K1. test_pass.
  revoke_call 1%nat (mkRevocation 7 "" "second" "" zero_time) K1 K2. test_pass.
  test_step. pose proof (Snapshot_holds 2 _ _ K2) as Hp. cbn [revocation_store vs_Snapshot].
  set (rs := (spec_revoke _ _ _).2) in Hp. vm_compute in (value of rs). subst rs.
  apply Permutation_singleton_r in Hp. rewrite Hp. by test_pass.
Qed.

Lemma str_contains_app_r needle s t : str_contains needle t = true → str_contains needle (s +:+ t) = true.
Proof.
  intros Ht. induction s as [|c s IH]; [done|]. rewrite str_app_cons. cbn [str_contains].
  rewrite IH. apply orb_true_r.
Qed.

Lemma rev_spec_passes :
  failed (rev_MarshalSpec clk (revocation_store dl) (mkEnv 0 (mkDb [] []) [])).2 = [].
Proof.
  unfold rev_MarshalSpec. pose proof holds_empty as K0.
  revoke_call 0%nat (mkRevocation 42 "" "" "" zero_time) K0 K1. test_pass.
  revoke_call 1%nat (mkRevocation 0 "user:alice" "" "" zero_time) K1 K2. test_pass.
  test_step. pose proof (Snapshot_holds 2 _ _ K2) as Hp. cbn [revocation_store vs_MarshalSpec].
  unfold MarshalSpec. destruct (Snapshot dl (clk 2) _) as [snap d']. cbn [fst snd] in *.
  set (rs := (spec_revoke _ _ _).2) in Hp. vm_compute in (value of rs). subst rs.
  assert (∀ needle, str_contains needle ("serial: 42" +:+ nl +:+ "id: user:alice" +:+ nl) = true →
    str_contains needle (Krl.MarshalSpec snap) = true) as Hc.
  { intros needle Hn. destruct snap as [at_ es]. simpl in Hp. unfold Krl.MarshalSpec.
    cbn [Krl.Snapshot.CapturedAt]. do 5 apply str_contains_app_r.
    symmetry in Hp. apply Permutation_length_2_inv in Hp as [->| ->];
      match type of Hn with str_contains _ ?t = _ =>
        match goal with |- str_contains _ ?u = _ => assert (u = t) as -> by computed end end;
      exact Hn. }
  rewrite whenb_pass by (by rewrite Hc). rewrite whenb_last by (by rewrite Hc). done.
Qed.

Lemma revocation_suite_passes :
  passed (RunRevocationStoreSuite clk (revocation_store dl) (mkDb [] [])).
Proof.
  unfold RunRevocationStoreSuite. apply passed_cons; [apply rev_check_passes|].
  apply passed_cons; [apply rev_idempotent_passes|].
  apply passed_cons; [apply rev_spec_passes|apply passed_nil].
Qed.

End RevocationPassing.

(** ** The active-certificate suite *)

Section ActiveCertPassing.
Context (clk : nat → time).
Hypothesis clk_ok : ∀ n, clock_ok (clk n).

(** The row a lock leaves behind reads back as locked. *)
Lemma locked_get (at_ : string) id serial (row : ActiveCertRow) ac now d :
  at_ = ActiveCerts.nowRFC3339 now → clock_ok now → serial ≠ "" →
  ScanActiveCert row = Ok ac →
  ActiveCerts.select_row id d = (Ok (Some (ActiveCerts.set_lock at_ (Some serial) row)), d) →
  Get (S:=db ActiveCerts.rows) id d = (Ok (Some (with_lock ac (truncate_second now) serial)), d).
Proof.
  intros -> Hnow Hs Hac Hsel. cbn [Get certs_db_Store]. unfold ActiveCerts.Get. rewrite Hsel.
  pose proof (lock_scan now serial row ac Hnow Hac) as Hl. unfold str_empty in Hl.
  rewrite bool_decide_false in Hl by done. by rewrite Hl.
Qed.

Lemma ac_lock_passes :
  failed (ac_Lock (S:=db ActiveCerts.rows) clk (mkEnv 0 (mkDb [] []) [])).2 = [].
Proof.
  unfold ac_Lock. test_step. test_pass. set (d0 := (Upsert _ _).2). vm_compute in (value of d0).
  test_step. test_pass. change (Get "id" d0).2 with d0. test_step. test_pass.
  set (d1 := (Lock (clk 0) "id" "666" _).2). test_step.
  rewrite (locked_get (ActiveCerts.nowRFC3339 (clk 0)) "id" "666" (ActiveCertUpsertArgs (cert_of "id" "9" cur))
    (cert_of "id" "9" cur) (clk 0) d1); [|done|done|done|by vm_compute|].
  2: { subst d1. cbn [Lock certs_db_Store]. unfold ActiveCerts.Lock.
       generalize (ActiveCerts.nowRFC3339 (clk 0)). intros s. computed. }
  cbn [fst snd]. rewrite whenb_pass.
  2: { apply Z.eqb_neq. simpl. by apply lock_locked. }
  do 2 test_pass. test_step. by test_pass.
Qed.

Lemma active_cert_suite_passes :
  passed (RunActiveCertStoreSuite (S:=db ActiveCerts.rows) clk (mkDb [] [])).
Proof.
  unfold RunActiveCertStoreSuite. do 3 (apply passed_cons; [computed|]).
  apply passed_cons; [apply ac_lock_passes|]. apply passed_cons; [computed|apply passed_nil].
Qed.
End ActiveCertPassing.

(** ** The theorem *)

(** Both database backends pass the acceptance suites of the store
    interfaces.  Every subtest of the role, principal, revocation and
    active-certificate suites runs without a failure on a fresh SQLite store and
    on a fresh PostgreSQL store, whatever the collation of the PostgreSQL database
    orders its text by and whatever the clock reads at each call, as long as its
    readings are after the epoch and within the years the text columns can hold,
    and no request to the database is lost. *)
Theorem backends_conform clk collation :
  (∀ n, clock_ok (clk n)) →
  (passed (RunRoleStoreSuite clk Sqlite.roleStore (mkDb [] [])) ∧
   passed (RunRoleStoreSuite clk (Postgres.roleStore collation) (mkDb [] []))) ∧
  (passed (RunPrincipalStoreSuite clk Sqlite.principalStore (mkDb [] [])) ∧
   passed (RunPrincipalStoreSuite clk (Postgres.principalStore collation) (mkDb [] []))) ∧
  (passed (RunRevocationStoreSuite clk Sqlite.revocationStore (mkDb [] [])) ∧
   passed (RunRevocationStoreSuite clk (Postgres.revocationStore collation) (mkDb [] []))) ∧
  passed (RunActiveCertStoreSuite (H:=Postgres.activeCertStore) clk (mkDb [] [])).
Proof.
  intros Hclk. assert (∀ n, year_ok (clk n)) as Hy by (intros n; apply Hclk).
  split; [split; apply role_suite_passes|]. split; [split; apply principal_suite_passes|].
  split; [split; by apply revocation_suite_passes|]. by apply active_cert_suite_passes.
Qed.

(** On a clock that ticks by the second from June 2026, and a database that
    orders its text backwards. *)
Lemma backends_conform_witness :
  passed (RunRoleStoreSuite (λ n, cur + Z.of_nat n mod 86400 * second)
    (Postgres.roleStore (λ a b, bool_decide (String.le b a))) (mkDb [] [])).
Proof.
  refine (proj2 (proj1 (backends_conform (λ n, cur + Z.of_nat n mod 86400 * second)
    (λ a b, bool_decide (String.le b a)) _))).
  intros n. pose proof (Z.mod_pos_bound (Z.of_nat n) 86400 ltac:(done)).
  assert (clock_ok cur ∧ clock_ok (cur + 86400 * second)) as [[? ?] [? ?]]
    by (split; (split; [vm_compute; discriminate|split; vm_compute; congruence])).
  unfold clock_ok, year_ok, cur, second, ns_per_sec in *. lia.
Defined.

(** ** The in-memory and the database role stores *)

Section RoleEquivalence.
Import Policy.InMemoryTrace Policy.InMemoryStore Policy.InMemoryFacts.

(** The same operation on the in-memory store, which keeps no owner marker and no
    time of change. *)
Definition forget (o : role_op) : op :=
  match o with
  | RAdd _ r _ => OpAdd r
  | RReplace _ old r _ => OpReplace old r
  | RDelete name => OpDelete name
  end.

Lemma spec_forget o m :
  let '(r, m') := spec_role o m in spec_op (forget o) (RecRole <$> m) = (r, RecRole <$> m').
Proof.
  destruct o as [now r src|now old r src|name]; cbn [spec_role forget spec_op].
  - unfold spec_add. change (Roles.key (Roles.record r src)) with (Name r).
    destruct (str_empty (Name r)); [done|].
    rewrite lookup_fmap. destruct (m !! Name r); cbn [fmap option_fmap option_map]; [done|].
    by rewrite fmap_insert.
  - unfold spec_replace. change (Roles.key (Roles.record r src)) with (Name r).
    destruct (str_empty (Name r)); [done|].
    rewrite lookup_fmap. destruct (m !! old); cbn [fmap option_fmap option_map]; [|done].
    assert (bool_decide (is_Some ((RecRole <$> m) !! Name r)) = bool_decide (is_Some (m !! Name r))) as ->
      by (apply bool_decide_ext; by rewrite lookup_fmap, fmap_is_Some).
    destruct (_ && _); [done|]. by rewrite fmap_insert, fmap_delete.
  - unfold spec_delete. rewrite lookup_fmap.
    destruct (m !! name); cbn [fmap option_fmap option_map]; [|done]. by rewrite fmap_delete.
Qed.

Lemma run_forget ops m :
  let '(rs, m') := run_list spec_role ops m in
  run_list spec_op (forget <$> ops) (RecRole <$> m) = (rs, RecRole <$> m').
Proof.
  revert m. induction ops as [|o ops IH]; intros m; [done|]. cbn [run_list fmap list_fmap].
  pose proof (spec_forget o m) as Ho. destruct (spec_role o m) as [r m1]. rewrite Ho.
  specialize (IH m1). destruct (run_list spec_role ops m1) as [rs m2]. by rewrite IH.
Qed.

(** C22: the in-memory and the database role stores cannot be told apart.  From
    the same roles, and on a database that answers, every sequence of Add, Replace
    and Delete returns the same results from both, sentinel for sentinel; and then
    every lookup by name finds the same role and every group list the same roles. *)
Theorem role_stores_equivalent roles ops d rs d' rs' s :
  keys_unique Name roles →
  roles_ok (data d) → faults d = [] → RecRole <$> roles_view (data d) = to_map Name roles →
  Forall role_op_ok ops →
  run_list exec_role ops d = (rs, d') →
  run_list do_op (forget <$> ops) (NewInMemoryStore roles) = (rs', s) →
  rs = rs' ∧
  (∀ name, (Roles.ByName name (mkDb (data d') [])).1 = ByName s name) ∧
  (∀ groups r, r ∈ (Roles.RolesForGroups groups (mkDb (data d') [])).1 ↔ r ∈ RolesForGroups s groups).
Proof.
  intros Hu Hok Hf Hv Hops Ed Em.
  destruct (run_refines c_name Roles.key ScanRoleRecord exec_role spec_role role_op_ok
    exec_role_refines exec_role_suffix ops d rs d' Hok Hops Ed) as [Hok' Hrun].
  apply (abs_run_weaken _ _ (λ _, False)) in Hrun.
  2: { intros e [He|He]; rewrite Hf in He; by apply elem_of_nil in He. }
  apply abs_run_done in Hrun. pose proof (run_forget ops (roles_view (data d))) as Hfor.
  unfold roles_view at 1 in Hfor. rewrite <- Hrun in Hfor. fold (roles_view (data d')) in Hfor.
  rewrite Hv in Hfor.
  pose proof (run_simulates (forget <$> ops) (NewInMemoryStore roles) eq_refl Hu) as Hsim.
  change (table (NewInMemoryStore roles)) with (to_map Name roles) in Hsim.
  rewrite Em, Hfor in Hsim. destruct Hsim as (-> & Ht & Hi & Hus). split; [done|].
  assert (∀ name, RecRole <$> roles_view (data d') !! name = table s !! name) as Hlook.
  { intros name. by rewrite Ht, lookup_fmap. }
  split.
  - intros name. rewrite ByName_view by done. rewrite Hlook. symmetry. by apply ByName_table.
  - intros groups r. rewrite RolesForGroups_view by done.
    rewrite (elem_of_RolesForGroups s groups r Hi). rewrite (and_comm (r ∈ all s)).
    apply and_iff_compat_l. split.
    + intros (name & rec & Hrec & <-). pose proof (Hlook name) as Hl. rewrite Hrec in Hl.
      symmetry in Hl. by apply to_map_Some in Hl as [? _].
    + intros Hr. assert (table s !! Name r = Some r) as Hl by (by apply to_map_Some).
      rewrite <- Hlook in Hl. apply fmap_Some in Hl as (rec & ? & ->). by exists (Name (RecRole rec)), rec.
Qed.
End RoleEquivalence.

(** Two roles added, a colliding and a successful rename, and a deletion. *)
Lemma role_stores_equivalent_witness :
  let ops := [RAdd 0 (role_of "a" "g") ""; RAdd 1 sampleRole SourcePortal;
              RReplace 2 "a" (role_of "workload-issuer" "h") ""; RReplace 3 "a" (role_of "b" "h") "";
              RDelete "workload-issuer"; RDelete "a"] in
  (run_list exec_role ops (mkDb [] [])).1 =
    (run_list InMemoryTrace.do_op (forget <$> ops) (Policy.InMemoryStore.NewInMemoryStore [])).1.
Proof.
  intros ops.
  refine (proj1 (role_stores_equivalent [] ops (mkDb [] []) (run_list exec_role ops (mkDb [] [])).1
    (run_list exec_role ops (mkDb [] [])).2
    (run_list InMemoryTrace.do_op (forget <$> ops) (Policy.InMemoryStore.NewInMemoryStore [])).1
    (run_list InMemoryTrace.do_op (forget <$> ops) (Policy.InMemoryStore.NewInMemoryStore [])).2
    _ _ eq_refl eq_refl _ _ _)).
  - constructor.
  - by repeat constructor.
  - assert (∀ n g, role_ok (role_of n g)) as Hr.
    { intros n g. repeat split; try constructor; cbn in *; intros; by rewrite lookup_empty in *. }
    assert (role_ok sampleRole) as Hs.
    { unfold role_ok, strings_ok. cbn. split; [by repeat constructor|]. split; [by repeat constructor|].
      split; [by repeat constructor|]. intros k v [<- <-]%lookup_singleton_Some. by vm_compute. }
    subst ops. repeat (apply List.Forall_cons; [first [apply Hr|exact Hs|exact I]|]). constructor.
  - apply surjective_pairing.
  - apply surjective_pairing.
Defined.
