(* ===== verification/Api.v ===== *)
(** * Api: the server's state and the helpers of its handlers

    Models [internal/server/api/server.go] and the helpers of [sign_ssh.go]: the
    server and its constructor, caller authentication, audit emission, TTLs and
    serials.  The stores are used through their interfaces ([Policy.Store],
    [Mtls.Store], [ActiveCertStore], [KrlStore]); the OIDC verifier and
    [golang.org/x/crypto/ssh] are parameters. *)

From S2P Require Import Prelude GoTime Policy Krl Signer SshEngine X509Engine Mtls Store Http.

(** ** The revocation store interface *)
Class KrlStore (S : Type) := {
  Revoke : time → Revocation → M S unit;
  Snapshot : time → S → Krl.Snapshot.t * S;
  IsRevoked : Z → string → S → bool * S;
  (** Absent when the store has no [MarshalSpec] method. *)
  MarshalSpec : option (time → S → string * S);
}.

(** A revocation that was accepted is in force. *)
Class KrlLaws (S : Type) `{KrlStore S} := {
  krl_ok : S → Prop;
  krl_names : S → Z → string → bool;
  krl_revoke now r s res s' :
    krl_ok s → uint64_ok (Krl.Serial r) → year_ok (Revoked r) → year_ok now →
    Revoke now r s = (res, s') →
    krl_ok s' ∧
    (res = Ok tt →
       empty_revocation r = false ∧
       ∀ serial keyID, (serial ≠ 0 ∧ serial = Krl.Serial r ∨ keyID ≠ "" ∧ keyID = KeyID r) →
         krl_names s' serial keyID = true);
  krl_is_revoked serial keyID s b s' :
    krl_ok s → uint64_ok serial → IsRevoked serial keyID s = (b, s') →
    krl_ok s' ∧ (krl_names s serial keyID = true → b = true);
}.

(** [oidc.Claims] *)
Record Claims := mkClaims { ClaimSubject : string; Email : string; ClaimGroups : list string }.

(** What the code uses of [golang.org/x/crypto/ssh] besides signing. *)
Class SshText := {
  ParseAuthorizedKey : string → result SshKey;
  (** [ssh.MarshalAuthorizedKey] of a certificate and of a key. *)
  MarshalCert : SshEngine.Certificate → string;
  MarshalKey : SshKey → string;
  NewPublicKey : PublicKey → result SshKey;
  FingerprintSHA256 : SshKey → string;
}.

(** ** The server

    [PS] and [MS] are the role table and the registry as they stand during a
    request. [issuerReload] is what the reload getter returns for this request. *)
Record Server (PS MS : Type) := mkServer {
  caSigner : Signer;
  x509Signer : Signer;
  x509IssuerCert : option X509Engine.Certificate;
  x509IssuerReload : option (option X509Engine.Certificate);
  trustBundlePath : string;
  sshCAKeysPath : string;
  policy : option PS;
  oidc : option (string → result Claims);
  mtls : option MS;
  (** A store is wired; its state is in the world. *)
  krl : bool;
  activeCerts : bool;
  auditActive : bool;
  version : string;
}.
Arguments mkServer {PS MS}.
Arguments caSigner {PS MS} _.
Arguments x509Signer {PS MS} _.
Arguments x509IssuerCert {PS MS} _.
Arguments x509IssuerReload {PS MS} _.
Arguments trustBundlePath {PS MS} _.
Arguments sshCAKeysPath {PS MS} _.
Arguments policy {PS MS} _.
Arguments oidc {PS MS} _.
Arguments mtls {PS MS} _.
Arguments krl {PS MS} _.
Arguments activeCerts {PS MS} _.
Arguments auditActive {PS MS} _.
Arguments version {PS MS} _.

Module Config.
Record t (PS MS : Type) := mk {
  Log : bool;
  CASigner : option Signer;
  X509Signer : option Signer;
  X509IssuerCert : option X509Engine.Certificate;
  X509IssuerReload : option (option X509Engine.Certificate);
  TrustBundlePath : string;
  SSHCAKeysPath : string;
  Policy : option PS;
  OIDCVerifier : option (string → result Claims);
  MTLSStore : option MS;
  Audit : bool;
  KRL : bool;
  ActiveCertStore : bool;
  Version : string;
}.
End Config.

(** [New]; the rate limiter and the portal are separate handlers. *)
Definition New {PS MS} (cfg : Config.t PS MS) : result (Server PS MS) :=
  if negb (Config.Log _ _ cfg) then Err (ErrNew "api.New: Log is required") else
  match Config.CASigner _ _ cfg with
  | None => Err (ErrNew "api.New: CASigner is required")
  | Some ca => Ok (mkServer ca
      (match Config.X509Signer _ _ cfg with Some s => s | None => ca end)
      (Config.X509IssuerCert _ _ cfg) (Config.X509IssuerReload _ _ cfg)
      (Config.TrustBundlePath _ _ cfg) (Config.SSHCAKeysPath _ _ cfg) (Config.Policy _ _ cfg)
      (Config.OIDCVerifier _ _ cfg) (Config.MTLSStore _ _ cfg) (Config.KRL _ _ cfg)
      (Config.ActiveCertStore _ _ cfg) (Config.Audit _ _ cfg) (Config.Version _ _ cfg))
  end.

Definition issuerCert {PS MS} (s : Server PS MS) : option X509Engine.Certificate :=
  match x509IssuerReload s with
  | Some c => c
  | None => x509IssuerCert s
  end.

(** ** What a request brings in, and what it changes

    The call sites of [time.Now] in the handlers, and of the stores' own clocks. *)
Inductive clock_site := AtIssue | AtGuard | AtAudit | AtLock | AtRevoke | AtSnapshot.

Record Inputs := mkInputs {
  clock : clock_site → time;
  (** The bytes [crypto/rand] delivers to this request. *)
  rand : string;
  uuid : string;
}.

Record World (AS KS : Type) := mkWorld {
  certs : AS;
  krls : KS;
  (** The entries handed to the audit sink, oldest first. *)
  log : list Audit.Entry;
}.
Arguments mkWorld {AS KS}.
Arguments certs {AS KS} _.
Arguments krls {AS KS} _.
Arguments log {AS KS} _.

(** ** Responses *)
Record signResponse := mkSignResponse {
  Certificate : string; RespSerial : Z; RespKeyID : string; RespPrincipals : list string;
  RespValidAfter : time; RespValidBefore : time }.

Record signX509Response := mkSignX509Response {
  X509Certificate : string; Chain : string; X509Serial : string; SPIFFEURI : string;
  X509ValidAfter : time; X509ValidBefore : time }.

Record healthzResponse := mkHealthz {
  Status : string; Version : string; CASignerInfo : string; CAPublicKey : string;
  AuditActive : bool; PolicyActive : bool; OIDCActive : bool; MTLSActive : bool;
  X509Active : bool; HealthX509Signer : string; X509IssuerNotAfter : string }.

Inductive body :=
  | BError (msg : string)
  | BSign (r : signResponse)
  | BX509 (r : signX509Response)
  | BAdopt (adopted : bool)
  | BRevoked
  | BSnapshot (s : Krl.Snapshot.t)
  | BText (t : string)
  | BBundle (pem : string)
  | BCAKeys (keys : string)
  | BHealth (h : healthzResponse).

Record Response := mkResponse { status : Z; payload : body }.

Definition writeError (st : Z) (msg : string) : Response := mkResponse st (BError msg).
Definition writeJSON (st : Z) (b : body) : Response := mkResponse st b.

Definition StatusOK : Z := 200.
Definition StatusBadRequest : Z := 400.
Definition StatusUnauthorized : Z := 401.
Definition StatusForbidden : Z := 403.
Definition StatusInternalServerError : Z := 500.
Definition StatusNotImplemented : Z := 501.
Definition StatusServiceUnavailable : Z := 503.

(** ** TTLs and serials *)

Definition defaultUserCertTTL : duration := 1 * hour.
Definition maxUserCertTTL : duration := 24 * hour.
Definition defaultHostCertTTL : duration := 7 * 24 * hour.
Definition maxHostCertTTL : duration := 30 * 24 * hour.
Definition defaultX509CertTTL : duration := 1 * hour.
Definition maxX509CertTTL : duration := 24 * hour.

Definition resolveTTL (seconds : Z) (def max : duration) (kind : string) : result duration :=
  if seconds <=? 0 then Ok def else
  let ttl := seconds_to_duration seconds in
  if max <? ttl then Err (ErrNew ("ttl_seconds " +:+ GoText.FormatInt seconds +:+ " exceeds " +:+ kind +:+
    "-cert maximum " +:+ GoText.FormatInt (duration_seconds max)))
  else Ok ttl.

(** Eight bytes, big-endian, with the top bit cleared; 0 becomes 1. *)
Definition generateSerial (rnd : string) : result (Z * string) :=
  match be_bytes 8 0 rnd with
  | None => Err (ErrSentinel "io.EOF" "EOF")
  | Some (b, rest) =>
      let n := Z.land b (2^63 - 1) in
      Ok (if n =? 0 then 1 else n, rest)
  end.

(** ** Callers *)

Record callerIdentity := mkCaller { Groups : list string; Caller : string }.

Definition oidcCallerString (c : option Claims) : string :=
  match c with
  | None => Audit.CallerPrefixOIDC +:+ "unknown"
  | Some c => Audit.CallerPrefixOIDC +:+
      (if negb (str_empty (Email c)) then Email c else ClaimSubject c)
  end.

Definition mtlsCallerString (p : option Principal) : string :=
  match p with
  | None => Audit.CallerPrefixMTLS +:+ "unknown"
  | Some p => Audit.CallerPrefixMTLS +:+
      (if negb (str_empty (PName p)) then PName p else MatchedSAN p)
  end.

Section Server.
Context {PS MS AS KS : Type} `{Mtls.Store MS}.
Context (srv : Server PS MS) (inp : Inputs) (r : Request).

Abbreviation HM A := (Handler (World AS KS) Response A) (only parsing).

Definition with_log (f : list Audit.Entry → list Audit.Entry) (w : World AS KS) : World AS KS :=
  mkWorld (certs w) (krls w) (f (log w)).

(** [emitAudit]: the sink's verdict is logged and otherwise ignored. *)
Definition emitAudit (action subject caller : string) (serial : Z)
    (metadata : list (string * Audit.value)) : HM unit :=
  act (with_log (λ l, l ++ [Audit.mkEntry (uuid inp) action subject caller serial (clientIP r)
    (header r "User-Agent") metadata (clock inp AtAudit)])).

(** The store operations, on their part of the world. *)
Definition on_certs {A} (m : M AS A) : World AS KS → result A * World AS KS := λ w,
  let '(res, a) := m (certs w) in (res, mkWorld a (krls w) (log w)).
Definition on_krl {A} (m : KS → A * KS) : World AS KS → A * World AS KS := λ w,
  let '(res, k) := m (krls w) in (res, mkWorld (certs w) k (log w)).

(** Any step on the world. *)
Definition step {A} (f : World AS KS → A * World AS KS) : HM A := λ w,
  let '(a, w') := f w in (inr a, w').

Definition authenticate (bodyGroups : list string) : HM callerIdentity :=
  let via_mtls : HM callerIdentity :=
    let neither := reply (writeError StatusUnauthorized
      "authentication required (bearer token or client cert)") in
    match mtls srv with
    | None => neither
    | Some store =>
        match ExtractSANs (TLS r) with
        | [] => neither
        | sans =>
            match Lookup store sans with
            | Ok p => hret (mkCaller (Mtls.Groups p) (mtlsCallerString (Some p)))
            | Err e =>
                if err_is e "mtls.ErrUnknownPrincipal"
                then reply (writeError StatusUnauthorized "unknown cert principal")
                else reply (writeError StatusInternalServerError "auth backend failure")
            end
        end
    end in
  match oidc srv, mtls srv with
  | None, None => hret (mkCaller bodyGroups Audit.CallerAnonymous)
  | Some verify, _ =>
      match extractBearerToken r with
      | Some raw =>
          match verify raw with
          | Err _ => reply (writeError StatusUnauthorized "invalid bearer token")
          | Ok claims => hret (mkCaller (ClaimGroups claims) (oidcCallerString (Some claims)))
          end
      | None => via_mtls
      end
  | None, Some _ => via_mtls
  end.
End Server.

Definition mergeExtensions (roleDefaults requestExts : gmap string string) : gmap string string :=
  requestExts ∪ roleDefaults.

Section Text.
Context `{SshText}.

Definition parseSSHPublicKey (raw : string) : result SshKey :=
  let trimmed := TrimSpace raw in
  if str_empty trimmed then Err (ErrNew "public_key is required") else ParseAuthorizedKey trimmed.

(** Both paths of the code wrap the same key the same way. *)
Definition caPublicKeyFingerprint (s : Signer) : string :=
  match NewPublicKey (Public s) with
  | Ok k => FingerprintSHA256 k
  | Err _ => ""
  end.

Definition handleHealthz {PS MS} (srv : Server PS MS) : Response :=
  writeJSON StatusOK (BHealth (mkHealthz "ok" (version srv) (Description (caSigner srv))
    (caPublicKeyFingerprint (caSigner srv)) (auditActive srv)
    (bool_decide (is_Some (policy srv))) (bool_decide (is_Some (oidc srv)))
    (bool_decide (is_Some (mtls srv))) (bool_decide (is_Some (issuerCert srv)))
    (Description (x509Signer srv))
    (match issuerCert srv with Some c => GoTime.format_rfc3339 (NotAfter c) | None => "" end))).

Definition sshCAAuthorizedKey (s : Signer) : result string :=
  pub <-r NewPublicKey (Public s);; Ok (MarshalKey pub).

(** [file]: what [os.ReadFile] returned. *)
Definition handleSSHCAKeys {PS MS} (srv : Server PS MS) (file : result string) : Response :=
  let live :=
    match sshCAAuthorizedKey (caSigner srv) with
    | Err _ => writeError StatusInternalServerError "ssh ca key unavailable"
    | Ok k => writeJSON StatusOK (BCAKeys k)
    end in
  if negb (str_empty (sshCAKeysPath srv)) then
    match file with
    | Err _ => live
    | Ok data => if str_empty (TrimSpace data) then live else writeJSON StatusOK (BCAKeys data)
    end
  else live.

Definition handleTrustBundle {PS MS} (srv : Server PS MS) (file : result string) : Response :=
  if str_empty (trustBundlePath srv)
  then writeError StatusServiceUnavailable "trust bundle not configured" else
  match file with
  | Err _ => writeError StatusInternalServerError "trust bundle unavailable"
  | Ok data => writeJSON StatusOK (BBundle data)
  end.
End Text.

(** ** Who the caller is

    The declarative reading of [authenticate]. *)
Section Callers.
Context {PS MS AS KS : Type} `{Mtls.Store MS}.
Context (srv : Server PS MS) (r : Request) (bodyGroups : list string).

Inductive authenticated : callerIdentity → Prop :=
  | auth_open :
      oidc srv = None → mtls srv = None →
      authenticated (mkCaller bodyGroups Audit.CallerAnonymous)
  | auth_bearer verify raw claims :
      oidc srv = Some verify → extractBearerToken r = Some raw → verify raw = Ok claims →
      authenticated (mkCaller (ClaimGroups claims) (oidcCallerString (Some claims)))
  | auth_cert store p :
      mtls srv = Some store → (oidc srv = None ∨ extractBearerToken r = None) →
      ExtractSANs (TLS r) ≠ [] → Lookup store (ExtractSANs (TLS r)) = Ok p →
      authenticated (mkCaller (Mtls.Groups p) (mtlsCallerString (Some p))).

(** A refusal of [authenticate]. *)
Definition auth_refusal (resp : Response) : Prop :=
  (∃ msg, payload resp = BError msg) ∧
  (status resp = StatusUnauthorized ∨ status resp = StatusInternalServerError).

Lemma authenticate_spec (w : World AS KS) out w' :
  authenticate srv r bodyGroups w = (out, w') →
  w' = w ∧
  match out with
  | inr c => authenticated c
  | inl resp => auth_refusal resp ∧ ∀ c, ¬ authenticated c
  end.
Proof.
  unfold authenticate, auth_refusal, hret, reply.
  destruct (oidc srv) as [verify|] eqn:Eo, (mtls srv) as [store|] eqn:Em;
    [destruct (extractBearerToken r) as [raw|] eqn:Eb; [destruct (verify raw) as [claims|e] eqn:Ev|]..| |];
    try (destruct (ExtractSANs (TLS r)) as [|san sans] eqn:Es;
         [|destruct (Lookup store _) as [p|e] eqn:El; [|destruct (err_is e _)]]);
    intros [= <- <-]; (split; [done|]);
    first
      [ by apply auth_open
      | by eapply auth_bearer
      | eapply auth_cert; rewrite ?Es; solve [done | by left | by right]
      | split; [split; [by eexists|by (left + right)]|];
        intros c Hc; inversion Hc; subst; simplify_eq/=; try congruence; destruct_or?; congruence ].
Qed.

Lemma steady_authenticate : steady (authenticate (AS:=AS) (KS:=KS) srv r bodyGroups).
Proof. by intros w a w' [-> _]%authenticate_spec. Qed.
End Callers.

(** A role of the table the caller's groups claim. *)
Definition role_of {PS MS} `{Policy.StoreLaws PS} (srv : Server PS MS) (caller : callerIdentity)
    (role : Role) : Prop :=
  ∃ ps, policy srv = Some ps ∧ role ∈ ps_table ps ∧ GroupClaim role ∈ Groups caller.

Lemma decodeRequest_Ok {A} (d : result A) a : decodeRequest d = Ok a → d = Ok a.
Proof. unfold decodeRequest. destruct d; [done|]. case_match; naive_solver. Qed.

(** The bound of the code is on the wrapped product. *)
Lemma resolveTTL_Ok seconds def max kind ttl :
  resolveTTL seconds def max kind = Ok ttl →
  (seconds ≤ 0 ∧ ttl = def) ∨ (0 < seconds ∧ ttl = seconds_to_duration seconds ∧ ttl ≤ max).
Proof.
  unfold resolveTTL. destruct (Z.leb_spec seconds 0); [intros [= <-]; by left|].
  destruct (Z.ltb_spec max (seconds_to_duration seconds)); [done|]. intros [= <-]. by right.
Qed.
