(* ===== verification/ApiSsh.v ===== *)
(** * ApiSsh: the SSH signing endpoints

    Models [handleSignUserCert] and [handleSignHostCert] of
    [internal/server/api/sign_ssh.go] in full: decoding, key parsing, the TTL, the
    caller, the role-table decision, the serial, the signature, the audit entry
    and the response.  The theorems say who obtains what from them. *)

From S2P Require Import Prelude GoText Policy Signer X509Engine SshEngine Mtls Store Http Api.

Record signUserRequest := mkSignUser {
  UserPublicKey : string; UserKeyID : string; UserPrincipals : list string;
  UserGroups : list string; ReqExtensions : gmap string string;
  ReqCriticalOptions : gmap string string; UserTTLSeconds : Z }.

Record signHostRequest := mkSignHost {
  HostPublicKey : string; HostKeyID : string; HostPrincipals : list string;
  HostGroups : list string; HostTTLSeconds : Z }.

(** [time.Unix(int64(v), 0)] *)
Definition unix_time (v : Z) : time := int64_wrap v * ns_per_sec.

(** [strings.TrimRight(s, "\n")] *)
Fixpoint trim_newlines_rev (s : string) : string :=
  match s with
  | String c s' => if bool_decide (c = newline) then trim_newlines_rev s' else s
  | "" => ""
  end.
Definition TrimRightNewline (s : string) : string := str_rev (trim_newlines_rev (str_rev s)).

Section Handlers.
Context `{SshLib, SshText} {PS MS AS KS : Type} `{Policy.Store PS} `{Mtls.Store MS}.
Context (srv : Server PS MS) (inp : Inputs) (r : Request).

Abbreviation HM A := (Handler (World AS KS) Response A) (only parsing).

Definition sign_response (cert : SshEngine.Certificate) : Response :=
  writeJSON StatusOK (BSign (mkSignResponse (TrimRightNewline (MarshalCert cert))
    (CertSerial cert) (KeyId cert) (ValidPrincipals cert)
    (unix_time (ValidAfter cert)) (unix_time (ValidBefore cert)))).

Definition bad_request (e : error) : Response := writeError StatusBadRequest (err_text e).

(** The policy errors that are denials. *)
Definition is_denial (e : error) : bool :=
  err_is e "policy.ErrNoRole" || err_is e "policy.ErrEmptyDecision".

(** What a policy error does: an audited 403 for a denial, a 500 otherwise. *)
Definition policy_failed {A} (action subject caller : string)
    (metadata : list (string * Audit.value)) (e : error) : HM A :=
  if is_denial e then
    do emitAudit inp r action subject caller 0 metadata;;
    reply (writeError StatusForbidden (err_text e))
  else reply (writeError StatusInternalServerError "policy evaluation failed").

Definition denied_metadata (principals groups : list string) (e : error)
    : list (string * Audit.value) :=
  [("requested_principals", Audit.VStrs principals); ("groups", Audit.VStrs groups);
   ("reason", Audit.VStr (err_text e))].

Definition signed_metadata (cert : SshEngine.Certificate) (ttl : duration)
    : list (string * Audit.value) :=
  [("principals", Audit.VStrs (ValidPrincipals cert));
   ("ttl_seconds", Audit.VInt (duration_seconds ttl));
   ("valid_before", Audit.VTime (unix_time (ValidBefore cert)))].

(** The decision part of [handleSignUserCert]: principals, extensions and TTL. *)
Definition decide_user (req : signUserRequest) (caller : callerIdentity) (ttl : duration)
    : HM (list string * gmap string string * duration) :=
  match policy srv with
  | None => hret (UserPrincipals req, ReqExtensions req, ttl)
  | Some ps =>
      when bool_decide (Groups caller = []) respond
        writeError StatusBadRequest "groups is required when policy is active";;
      match EvaluateUserCert ps (Groups caller)
              (CertRequest.mk (UserPrincipals req) ttl maxUserCertTTL) with
      | Err e => policy_failed Audit.ActionSSHUserCertDenied ("user:" +:+ UserKeyID req)
                   (Caller caller) (denied_metadata (UserPrincipals req) (Groups caller) e) e
      | Ok d => hret (UserCertDecision.Principals d,
                      mergeExtensions (UserCertDecision.Extensions d) (ReqExtensions req),
                      UserCertDecision.TTL d)
      end
  end.

Definition user_params (req : signUserRequest) (pub : SshKey) (principals : list string)
    (exts : gmap string string) (ttl : duration) (serial : Z) : UserCertParams.t :=
  let now := clock inp AtIssue in
  UserCertParams.mk (Some pub) (UserKeyID req) principals exts (ReqCriticalOptions req)
    now (time_add now ttl) serial.

Definition handleSignUserCert (decoded : result signUserRequest) : HM Response :=
  req <-h try (decodeRequest decoded) bad_request;;
  pub <-h try (parseSSHPublicKey (UserPublicKey req))
    (λ e, writeError StatusBadRequest ("invalid public_key: " +:+ err_text e));;
  ttl <-h try (resolveTTL (UserTTLSeconds req) defaultUserCertTTL maxUserCertTTL "user") bad_request;;
  caller <-h authenticate srv r (UserGroups req);;
  d <-h decide_user req caller ttl;;
  let '(principals, exts, ttl) := d in
  s <-h try (generateSerial (rand inp))
    (λ _, writeError StatusInternalServerError "serial generation failed");;
  let '(serial, rnd) := s in
  cert <-h try (SignUserCert rnd (caSigner srv) (user_params req pub principals exts ttl serial))
    bad_request;;
  do emitAudit inp r Audit.ActionSSHUserCertSigned ("user:" +:+ KeyId cert) (Caller caller)
    (CertSerial cert) (signed_metadata cert ttl);;
  hret (sign_response cert).

Definition decide_host (req : signHostRequest) (caller : callerIdentity) (ttl : duration)
    : HM (list string * duration) :=
  match policy srv with
  | None => hret (HostPrincipals req, ttl)
  | Some ps =>
      when bool_decide (Groups caller = []) respond
        writeError StatusBadRequest "groups is required when policy is active";;
      match EvaluateHostCert ps (Groups caller)
              (CertRequest.mk (HostPrincipals req) ttl maxHostCertTTL) with
      | Err e => policy_failed Audit.ActionSSHHostCertDenied ("host:" +:+ HostKeyID req)
                   (Caller caller) (denied_metadata (HostPrincipals req) (Groups caller) e) e
      | Ok d => hret (HostCertDecision.Principals d, HostCertDecision.TTL d)
      end
  end.

Definition host_params (req : signHostRequest) (pub : SshKey) (principals : list string)
    (ttl : duration) (serial : Z) : HostCertParams.t :=
  let now := clock inp AtIssue in
  HostCertParams.mk (Some pub) (HostKeyID req) principals now (time_add now ttl) serial.

Definition handleSignHostCert (decoded : result signHostRequest) : HM Response :=
  req <-h try (decodeRequest decoded) bad_request;;
  pub <-h try (parseSSHPublicKey (HostPublicKey req))
    (λ e, writeError StatusBadRequest ("invalid public_key: " +:+ err_text e));;
  ttl <-h try (resolveTTL (HostTTLSeconds req) defaultHostCertTTL maxHostCertTTL "host") bad_request;;
  caller <-h authenticate srv r (HostGroups req);;
  d <-h decide_host req caller ttl;;
  let '(principals, ttl) := d in
  s <-h try (generateSerial (rand inp))
    (λ _, writeError StatusInternalServerError "serial generation failed");;
  let '(serial, rnd) := s in
  cert <-h try (SignHostCert rnd (caSigner srv) (host_params req pub principals ttl serial))
    bad_request;;
  do emitAudit inp r Audit.ActionSSHHostCertSigned ("host:" +:+ KeyId cert) (Caller caller)
    (CertSerial cert) (signed_metadata cert ttl);;
  hret (sign_response cert).
End Handlers.

(** ** What the handlers do *)

Lemma generateSerial_range rnd serial rest :
  generateSerial rnd = Ok (serial, rest) → 0 < serial < 2^63.
Proof.
  unfold generateSerial. destruct (be_bytes 8 0 rnd) as [[b t]|]; [|done].
  pose proof (Z.land_ones b 63 ltac:(lia)) as Hl. change (Z.ones 63) with (2^63 - 1) in Hl.
  pose proof (Z.mod_pos_bound b (2^63) ltac:(lia)).
  destruct (Z.eqb_spec (Z.land b (2^63 - 1)) 0); intros [= <- _]; lia.
Qed.

Section Shapes.
Context `{SshLib, SshText} {PS MS AS KS : Type} `{Policy.Store PS} `{Mtls.Store MS}.
Context (srv : Server PS MS) (inp : Inputs) (r : Request).

Abbreviation W := (World AS KS) (only parsing).

(** The entry a handler hands to the audit sink. *)
Definition audit_entry (action subject caller : string) (serial : Z)
    (metadata : list (string * Audit.value)) : Audit.Entry :=
  Audit.mkEntry (uuid inp) action subject caller serial (clientIP r) (header r "User-Agent")
    metadata (clock inp AtAudit).

Definition logged (e : Audit.Entry) (w w' : W) : Prop :=
  certs w' = certs w ∧ krls w' = krls w ∧ log w' = log w ++ [e].

Lemma emitAudit_inr action subject caller serial md (w : W) u w' :
  emitAudit inp r action subject caller serial md w = (inr u, w') →
  logged (audit_entry action subject caller serial md) w w'.
Proof. by intros [= <- <-]. Qed.

Lemma steady_decide_user req caller ttl : steady (decide_user (AS:=AS) (KS:=KS) srv inp r req caller ttl).
Proof.
  intros w a w'. unfold decide_user. destruct (policy srv); [|by intros [= _ <-]].
  case_bool_decide; [done|]. destruct (EvaluateUserCert _ _ _); [by intros [= _ <-]|].
  unfold policy_failed. destruct (is_denial e); [|done]. by intros (? & ? & _ & [=])%hbind_inr.
Qed.

Lemma steady_decide_host req caller ttl : steady (decide_host (AS:=AS) (KS:=KS) srv inp r req caller ttl).
Proof.
  intros w a w'. unfold decide_host. destruct (policy srv); [|by intros [= _ <-]].
  case_bool_decide; [done|]. destruct (EvaluateHostCert _ _ _); [by intros [= _ <-]|].
  unfold policy_failed. destruct (is_denial e); [|done]. by intros (? & ? & _ & [=])%hbind_inr.
Qed.

Lemma handleSignUserCert_inr decoded (w : W) resp w' :
  handleSignUserCert srv inp r decoded w = (inr resp, w') →
  ∃ req pub ttl0 caller principals exts ttl serial rnd cert,
    decoded = Ok req ∧ parseSSHPublicKey (UserPublicKey req) = Ok pub ∧
    resolveTTL (UserTTLSeconds req) defaultUserCertTTL maxUserCertTTL "user" = Ok ttl0 ∧
    authenticated srv r (UserGroups req) caller ∧
    decide_user srv inp r req caller ttl0 w = (inr (principals, exts, ttl), w) ∧
    generateSerial (rand inp) = Ok (serial, rnd) ∧
    SignUserCert rnd (caSigner srv) (user_params inp req pub principals exts ttl serial) = Ok cert ∧
    resp = sign_response cert ∧
    logged (audit_entry Audit.ActionSSHUserCertSigned ("user:" +:+ KeyId cert) (Caller caller)
      (CertSerial cert) (signed_metadata cert ttl)) w w'.
Proof.
  unfold handleSignUserCert.
  intros (req & w1 & [Hd%decodeRequest_Ok ->]%try_inr & E)%hbind_inr.
  apply hbind_inr in E as (pub & w1 & [Hp ->]%try_inr & E).
  apply hbind_inr in E as (ttl0 & w1 & [Ht ->]%try_inr & E).
  apply hbind_inr in E as (caller & w1 & [-> Ha]%authenticate_spec & E).
  apply hbind_inr in E as ([[principals exts] ttl] & w1 & Hdec & E).
  pose proof (steady_decide_user _ _ _ _ _ _ Hdec) as ->.
  apply hbind_inr in E as ([serial rnd] & w1 & [Hs ->]%try_inr & E).
  apply hbind_inr in E as (cert & w1 & [Hc ->]%try_inr & E).
  apply hbind_inr in E as (u & w1 & Hl%emitAudit_inr & [= <- <-]).
  exists req, pub, ttl0, caller, principals, exts, ttl, serial, rnd, cert. by split_and!.
Qed.

Lemma handleSignHostCert_inr decoded (w : W) resp w' :
  handleSignHostCert srv inp r decoded w = (inr resp, w') →
  ∃ req pub ttl0 caller principals ttl serial rnd cert,
    decoded = Ok req ∧ parseSSHPublicKey (HostPublicKey req) = Ok pub ∧
    resolveTTL (HostTTLSeconds req) defaultHostCertTTL maxHostCertTTL "host" = Ok ttl0 ∧
    authenticated srv r (HostGroups req) caller ∧
    decide_host srv inp r req caller ttl0 w = (inr (principals, ttl), w) ∧
    generateSerial (rand inp) = Ok (serial, rnd) ∧
    SignHostCert rnd (caSigner srv) (host_params inp req pub principals ttl serial) = Ok cert ∧
    resp = sign_response cert ∧
    logged (audit_entry Audit.ActionSSHHostCertSigned ("host:" +:+ KeyId cert) (Caller caller)
      (CertSerial cert) (signed_metadata cert ttl)) w w'.
Proof.
  unfold handleSignHostCert.
  intros (req & w1 & [Hd%decodeRequest_Ok ->]%try_inr & E)%hbind_inr.
  apply hbind_inr in E as (pub & w1 & [Hp ->]%try_inr & E).
  apply hbind_inr in E as (ttl0 & w1 & [Ht ->]%try_inr & E).
  apply hbind_inr in E as (caller & w1 & [-> Ha]%authenticate_spec & E).
  apply hbind_inr in E as ([principals ttl] & w1 & Hdec & E).
  pose proof (steady_decide_host _ _ _ _ _ _ Hdec) as ->.
  apply hbind_inr in E as ([serial rnd] & w1 & [Hs ->]%try_inr & E).
  apply hbind_inr in E as (cert & w1 & [Hc ->]%try_inr & E).
  apply hbind_inr in E as (u & w1 & Hl%emitAudit_inr & [= <- <-]).
  exists req, pub, ttl0, caller, principals, ttl, serial, rnd, cert. by split_and!.
Qed.

(** Early responses: an audited denial, or an error that leaves no trace. *)
Definition denied_by (action : string) (w : W) (resp : Response) (w' : W) : Prop :=
  (∃ msg, payload resp = BError msg) ∧
  (status resp = StatusForbidden ∧
     (∃ e, logged e w w' ∧ Audit.Action e = action ∧ Audit.Serial e = 0) ∨
   (status resp ≠ StatusOK ∧ status resp ≠ StatusForbidden) ∧ w' = w).

Lemma denied_error action st msg (w : W) :
  st ≠ StatusOK ∧ st ≠ StatusForbidden → denied_by action w (writeError st msg) w.
Proof. intros Hst. split; [by exists msg|]. by right. Qed.

Lemma exits_policy_failed {A} action subject caller md e :
  exits (policy_failed (A:=A) inp r action subject caller md e) (denied_by action).
Proof.
  unfold policy_failed. destruct (is_denial e).
  - apply exits_act_bind, exits_reply. intros w w0 <-. split; [by eexists|]. left.
    split; [done|]. by exists (audit_entry action subject caller 0 md).
  - apply exits_reply. intros w. by apply denied_error.
Qed.

Lemma exits_authenticate action groups :
  exits (authenticate (AS:=AS) (KS:=KS) srv r groups) (denied_by action).
Proof.
  intros w resp w' [-> [[Hm Hs] _]]%authenticate_spec. split; [done|]. right.
  split; [|done]. by destruct Hs as [-> | ->].
Qed.

Lemma exits_bad_request {A} action (m : result A) (f : error → string) st :
  st ≠ StatusOK ∧ st ≠ StatusForbidden →
  exits (try m (λ e, writeError st (f e))) (denied_by action).
Proof. intros Hst. apply exits_try. intros e w _. by apply denied_error. Qed.

Lemma exits_decide_user req caller ttl :
  exits (decide_user srv inp r req caller ttl) (denied_by Audit.ActionSSHUserCertDenied).
Proof.
  unfold decide_user. destruct (policy srv); [|apply exits_ret].
  case_bool_decide; [apply exits_reply; intros w; by apply denied_error|].
  destruct (EvaluateUserCert _ _ _); [apply exits_ret|apply exits_policy_failed].
Qed.

Lemma exits_decide_host req caller ttl :
  exits (decide_host srv inp r req caller ttl) (denied_by Audit.ActionSSHHostCertDenied).
Proof.
  unfold decide_host. destruct (policy srv); [|apply exits_ret].
  case_bool_decide; [apply exits_reply; intros w; by apply denied_error|].
  destruct (EvaluateHostCert _ _ _); [apply exits_ret|apply exits_policy_failed].
Qed.

Lemma exits_emit_ret {A} action subject caller serial md (a : A) P :
  exits (do emitAudit (AS:=AS) (KS:=KS) inp r action subject caller serial md;; hret a) P.
Proof. by intros w resp w' [[=]|(? & ? & _ & [=])]%hbind_inl. Qed.

Lemma handleSignUserCert_inl decoded :
  exits (handleSignUserCert srv inp r decoded) (denied_by Audit.ActionSSHUserCertDenied).
Proof.
  unfold handleSignUserCert, bad_request.
  apply exits_bind; [apply steady_try|by apply exits_bad_request|intros req].
  apply exits_bind; [apply steady_try|by apply exits_bad_request|intros pub].
  apply exits_bind; [apply steady_try|by apply exits_bad_request|intros ttl0].
  apply exits_bind; [apply steady_authenticate|apply exits_authenticate|intros caller].
  apply exits_bind; [apply steady_decide_user|apply exits_decide_user|intros [[principals exts] ttl]].
  apply exits_bind; [apply steady_try|by apply exits_bad_request|intros [serial rnd]].
  apply exits_bind; [apply steady_try|by apply exits_bad_request|intros cert].
  apply exits_emit_ret.
Qed.

Lemma handleSignHostCert_inl decoded :
  exits (handleSignHostCert srv inp r decoded) (denied_by Audit.ActionSSHHostCertDenied).
Proof.
  unfold handleSignHostCert, bad_request.
  apply exits_bind; [apply steady_try|by apply exits_bad_request|intros req].
  apply exits_bind; [apply steady_try|by apply exits_bad_request|intros pub].
  apply exits_bind; [apply steady_try|by apply exits_bad_request|intros ttl0].
  apply exits_bind; [apply steady_authenticate|apply exits_authenticate|intros caller].
  apply exits_bind; [apply steady_decide_host|apply exits_decide_host|intros [principals ttl]].
  apply exits_bind; [apply steady_try|by apply exits_bad_request|intros [serial rnd]].
  apply exits_bind; [apply steady_try|by apply exits_bad_request|intros cert].
  apply exits_emit_ret.
Qed.
End Shapes.

(** ** What the decisions grant *)
Section Decisions.
Context {PS MS AS KS : Type} `{Policy.StoreLaws PS}.
Context (srv : Server PS MS) (inp : Inputs) (r : Request).

Hypothesis policy_valid : ∀ ps, policy srv = Some ps → ps_valid ps.

Lemma decide_user_granted req caller ttl0 (w : World AS KS) principals exts ttl :
  decide_user srv inp r req caller ttl0 w = (inr (principals, exts, ttl), w) →
  principals ⊆ UserPrincipals req ∧ ttl ≤ ttl0 ∧
  (policy srv ≠ None →
   Groups caller ≠ [] ∧
   (∀ p, p ∈ principals → ∃ role, role_of srv caller role ∧ p ∈ AllowedPrincipals role) ∧
   (∀ k v, exts !! k = Some v → ReqExtensions req !! k = Some v ∨
      (ReqExtensions req !! k = None ∧ ∃ role, role_of srv caller role ∧ DefaultExtensions role !! k = Some v))) ∧
  (policy srv = None → principals = UserPrincipals req ∧ exts = ReqExtensions req ∧ ttl = ttl0).
Proof.
  unfold decide_user. destruct (policy srv) as [ps|] eqn:Ep; [|by intros [= <- <- <-]].
  case_bool_decide as Hg; [done|]. destruct (EvaluateUserCert _ _ _) as [d|e] eqn:Ed; cycle 1.
  { unfold policy_failed. destruct (is_denial e); [|done]. by intros (? & ? & _ & [=])%hbind_inr. }
  intros [= <- <- <-]. apply user_decision_shape in Ed as (Hne & Hp & Ht & He).
  assert (∀ role, role ∈ RolesForGroups ps (Groups caller) → role_of srv caller role) as Hrole.
  { intros role Hr. destruct (ps_sound _ _ _ (policy_valid ps eq_refl) Hr). by exists ps. }
  split_and!; [|rewrite Ht; simpl; lia| |done].
  - intros p. rewrite Hp, elem_of_filter_bool. by intros [? _].
  - intros _. split_and!; [done| |].
    + intros p. rewrite Hp, elem_of_filter_bool, bool_decide_eq_true, elem_of_allowed_set.
      intros (_ & role & Hr & ?). exists role. split; [by apply Hrole|done].
    + intros k v. unfold mergeExtensions. rewrite lookup_union_Some_raw.
      intros [?|[? Hk]]; [by left|]. right. split; [done|]. rewrite He in Hk.
      apply merged_extensions in Hk as [Hk|(role & Hr & Hk)]; [by rewrite lookup_empty in Hk|].
      exists role. split; [by apply Hrole|done].
Qed.

Lemma decide_host_granted req caller ttl0 (w : World AS KS) principals ttl :
  decide_host srv inp r req caller ttl0 w = (inr (principals, ttl), w) →
  principals ⊆ HostPrincipals req ∧ ttl ≤ ttl0 ∧
  (policy srv ≠ None →
   Groups caller ≠ [] ∧
   ∀ h, h ∈ principals → ∃ role p, role_of srv caller role ∧ p ∈ HostPatterns role ∧ Glob.glob_matches p h) ∧
  (policy srv = None → principals = HostPrincipals req ∧ ttl = ttl0).
Proof.
  unfold decide_host. destruct (policy srv) as [ps|] eqn:Ep; [|by intros [= <- <-]].
  case_bool_decide as Hg; [done|]. destruct (EvaluateHostCert _ _ _) as [d|e] eqn:Ed; cycle 1.
  { unfold policy_failed. destruct (is_denial e); [|done]. by intros (? & ? & _ & [=])%hbind_inr. }
  intros [= <- <-]. apply host_decision_shape in Ed as (patterns & Hc & Hne & Hp & Ht).
  split_and!; [|rewrite Ht; simpl; lia| |done].
  - intros h. rewrite Hp, elem_of_filter_bool. by intros [? _].
  - intros _. split; [done|]. intros h. rewrite Hp, elem_of_filter_bool, matchesAny_spec.
    intros (_ & p & Hin & Hm).
    destruct (collected_pattern _ _ _ _ _ _ _ (policy_valid ps eq_refl) Hc Hin Hm) as (role & ? & ? & ? & ?).
    exists role, p. split_and!; [by exists ps|done|done].
Qed.
End Decisions.

(** ** Properties *)

Section Issuance.
Context `{SshLaws, SshText} {PS MS AS KS : Type} `{Policy.StoreLaws PS} `{Mtls.Store MS}.

(** What every SSH certificate of a 200 response has: the requested subject key
    under the CA key, a positive 63-bit serial, a window that starts now and ends
    within the endpoint's ceiling. *)
Definition ssh_certificate (srv : Server PS MS) (inp : Inputs) (raw keyID : string) (ty : Z)
    (ceiling : duration) (cert : SshEngine.Certificate) : Prop :=
  parseSSHPublicKey raw = Ok (Key cert) ∧ CertType cert = ty ∧ KeyId cert = keyID ∧ keyID ≠ "" ∧
  ValidPrincipals cert ≠ [] ∧ 0 < CertSerial cert < 2^63 ∧
  (∃ ss, NewSignerFromSigner (caSigner srv) = Ok ss ∧ SignatureKey cert = Some (ssh_signer_key ss)) ∧
  ValidAfter cert = time_unix (clock inp AtIssue) ∧
  ValidAfter cert ≤ ValidBefore cert ∧
  ValidBefore cert * ns_per_sec ≤ clock inp AtIssue + ceiling.

Definition clock_in_range (inp : Inputs) : Prop := 0 ≤ clock inp AtIssue < 2^63 * ns_per_sec.

Lemma unsigned_fields c k serial ty id ps va vb opts exts :
  unsigned c = mkCertificate k serial ty id ps va vb opts exts None "" →
  Key c = k ∧ CertSerial c = serial ∧ CertType c = ty ∧ KeyId c = id ∧ ValidPrincipals c = ps ∧
  ValidAfter c = va ∧ ValidBefore c = vb ∧ CriticalOptions c = opts ∧ Extensions c = exts.
Proof. unfold unsigned. by intros [= -> -> -> -> -> -> -> -> ->]. Qed.

Lemma ssh_certificate_intro srv inp raw keyID ty ceiling cert rnd pub principals exts opts ttl serial rest :
  clock_in_range inp → ttl ≤ ceiling → ceiling ≤ maxHostCertTTL →
  parseSSHPublicKey raw = Ok pub → generateSerial (rand inp) = Ok (serial, rest) →
  validateCommon (Some pub) keyID principals (clock inp AtIssue)
    (time_add (clock inp AtIssue) ttl) = Ok pub →
  signCert rnd (caSigner srv) ty pub keyID principals exts opts (clock inp AtIssue)
    (time_add (clock inp AtIssue) ttl) serial = Ok cert →
  ssh_certificate srv inp raw keyID ty ceiling cert ∧
  ValidPrincipals cert = principals ∧ Extensions cert = exts ∧ CriticalOptions cert = opts ∧
  CertSerial cert = serial.
Proof.
  unfold clock_in_range, time_add. set (now := clock inp AtIssue).
  intros Hc Ht Hce Hp Hs (_ & Hid & Hps & _ & Hw)%validateCommon_Ok [Hu Hk]%signCert_Ok.
  apply unsigned_fields in Hu as (Hkey & Hser & Hty & Hkid & Hvp & Hva & Hvb & Hopt & Hext).
  assert (now + ttl < 2^64 * ns_per_sec) as Hb by (unfold maxHostCertTTL, hour, minute, second, ns_per_sec in *; lia).
  destruct (unix_window now (now + ttl) ltac:(lia) Hw Hb) as (Hle & Hend & _).
  split; [|done]. unfold ssh_certificate. rewrite Hkey, Hser, Hvp, Hva, Hvb.
  split_and!; try done; try (by apply generateSerial_range in Hs; lia).
  unfold unix_uint64. apply uint64_wrap_id. unfold uint64_ok, time_unix, ns_per_sec in *.
  split; [apply Z.div_pos; lia|apply Z.div_lt_upper_bound; lia].
Qed.

(** What either handler did when it returned a certificate. *)
Lemma user_issued (srv : Server PS MS) inp r decoded (w : World AS KS) resp w' :
  (∀ ps, policy srv = Some ps → ps_valid ps) → clock_in_range inp →
  handleSignUserCert srv inp r decoded w = (inr resp, w') →
  ∃ req caller cert ttl0 ttl,
    decoded = Ok req ∧ authenticated srv r (UserGroups req) caller ∧ resp = sign_response cert ∧
    decide_user srv inp r req caller ttl0 w = (inr (ValidPrincipals cert, Extensions cert, ttl), w) ∧
    ssh_certificate srv inp (UserPublicKey req) (UserKeyID req) UserCert maxUserCertTTL cert ∧
    CriticalOptions cert = ReqCriticalOptions req ∧ 0 < ttl ≤ maxUserCertTTL ∧
    logged (audit_entry inp r Audit.ActionSSHUserCertSigned ("user:" +:+ KeyId cert)
      (Caller caller) (CertSerial cert) (signed_metadata cert ttl)) w w'.
Proof.
  intros Hpol Hc (req & pub & ttl0 & caller & principals & exts & ttl & serial &
    rnd & cert & Hd & Hp & Ht & Ha & Hdec & Hs & Hcert & -> & Hl)%handleSignUserCert_inr.
  destruct (decide_user_granted srv inp r Hpol req caller ttl0 w principals exts ttl Hdec) as (_ & Hle & _).
  assert (ttl0 ≤ maxUserCertTTL) as Hmax
    by (apply resolveTTL_Ok in Ht as [[_ ->]|(_ & _ & ?)]; [done|lia]).
  unfold SignUserCert in Hcert. apply rbind_Ok in Hcert as (k & Hv & Hsig). cbn [user_params
    UserCertParams.PublicKey UserCertParams.KeyID UserCertParams.Principals UserCertParams.ValidAfter
    UserCertParams.ValidBefore UserCertParams.Extensions UserCertParams.CriticalOptions
    UserCertParams.Serial] in *.
  pose proof Hv as ([= ->] & _ & _ & _ & Hpos)%validateCommon_Ok.
  destruct (ssh_certificate_intro srv inp (UserPublicKey req) (UserKeyID req) UserCert maxUserCertTTL
    cert rnd k principals exts (ReqCriticalOptions req) ttl serial rnd Hc ltac:(lia) ltac:(done)
    Hp Hs Hv Hsig) as (Hcrt & <- & <- & Hop & _).
  exists req, caller, cert, ttl0, ttl. unfold time_add in Hpos. by split_and!; try done; lia.
Qed.

Lemma host_issued (srv : Server PS MS) inp r decoded (w : World AS KS) resp w' :
  (∀ ps, policy srv = Some ps → ps_valid ps) → clock_in_range inp →
  handleSignHostCert srv inp r decoded w = (inr resp, w') →
  ∃ req caller cert ttl0 ttl,
    decoded = Ok req ∧ authenticated srv r (HostGroups req) caller ∧ resp = sign_response cert ∧
    decide_host srv inp r req caller ttl0 w = (inr (ValidPrincipals cert, ttl), w) ∧
    ssh_certificate srv inp (HostPublicKey req) (HostKeyID req) HostCert maxHostCertTTL cert ∧
    Extensions cert = ∅ ∧ CriticalOptions cert = ∅ ∧ 0 < ttl ≤ maxHostCertTTL ∧
    logged (audit_entry inp r Audit.ActionSSHHostCertSigned ("host:" +:+ KeyId cert)
      (Caller caller) (CertSerial cert) (signed_metadata cert ttl)) w w'.
Proof.
  intros Hpol Hc (req & pub & ttl0 & caller & principals & ttl & serial &
    rnd & cert & Hd & Hp & Ht & Ha & Hdec & Hs & Hcert & -> & Hl)%handleSignHostCert_inr.
  destruct (decide_host_granted srv inp r Hpol req caller ttl0 w principals ttl Hdec) as (_ & Hle & _).
  assert (ttl0 ≤ maxHostCertTTL) as Hmax
    by (apply resolveTTL_Ok in Ht as [[_ ->]|(_ & _ & ?)]; [done|lia]).
  unfold SignHostCert in Hcert. apply rbind_Ok in Hcert as (k & Hv & Hsig). cbn [host_params
    HostCertParams.PublicKey HostCertParams.KeyID HostCertParams.Principals HostCertParams.ValidAfter
    HostCertParams.ValidBefore HostCertParams.Serial] in *.
  pose proof Hv as ([= ->] & _ & _ & _ & Hpos)%validateCommon_Ok.
  destruct (ssh_certificate_intro srv inp (HostPublicKey req) (HostKeyID req) HostCert maxHostCertTTL
    cert rnd k principals ∅ ∅ ttl serial rnd Hc ltac:(lia) ltac:(done) Hp Hs Hv Hsig)
    as (Hcrt & <- & Hex & Hop & _).
  exists req, caller, cert, ttl0, ttl. unfold time_add in Hpos. by split_and!; try done; lia.
Qed.

(** C3: who obtains an SSH user certificate.  A 200 from the endpoint means: the
    caller was authenticated (by a verified bearer token, else by a registered
    client certificate, or the server has no authentication at all); the response
    carries a certificate of the presented key signed by the CA key, for the
    requested key ID, within 24 hours and with a positive 63-bit serial; it names
    only requested principals; with a role table, each of them is allowed by a
    role of the caller's groups and every extension was either requested or is a
    default of such a role; and exactly this issuance, with its caller and
    serial, was handed to the audit sink. *)
Theorem ssh_user_cert_issued (srv : Server PS MS) inp r decoded (w : World AS KS) resp w' :
  (∀ ps, policy srv = Some ps → ps_valid ps) → clock_in_range inp →
  serve (handleSignUserCert srv inp r decoded) w = (resp, w') → status resp = StatusOK →
  ∃ req caller cert ttl,
    decoded = Ok req ∧ authenticated srv r (UserGroups req) caller ∧ resp = sign_response cert ∧
    ssh_certificate srv inp (UserPublicKey req) (UserKeyID req) UserCert maxUserCertTTL cert ∧
    ValidPrincipals cert ⊆ UserPrincipals req ∧ CriticalOptions cert = ReqCriticalOptions req ∧
    (policy srv ≠ None →
     (∀ p, p ∈ ValidPrincipals cert →
        ∃ role, role_of srv caller role ∧ p ∈ AllowedPrincipals role) ∧
     (∀ k v, Extensions cert !! k = Some v → ReqExtensions req !! k = Some v ∨
        (ReqExtensions req !! k = None ∧
         ∃ role, role_of srv caller role ∧ DefaultExtensions role !! k = Some v))) ∧
    logged (audit_entry inp r Audit.ActionSSHUserCertSigned ("user:" +:+ UserKeyID req)
      (Caller caller) (CertSerial cert) (signed_metadata cert ttl)) w w'.
Proof.
  intros Hpol Hc [E|E]%serve_cases Hst; [by apply handleSignUserCert_inl in E as [_ [[Hs _]|[[Hs _] _]]]; rewrite Hst in Hs|].
  destruct (user_issued srv inp r decoded w resp w' Hpol Hc E)
    as (req & caller & cert & ttl0 & ttl & Hd & Ha & -> & Hdec & Hcrt & Hop & _ & Hl).
  destruct (decide_user_granted srv inp r Hpol req caller ttl0 w _ _ ttl Hdec) as (Hsub & _ & Hon & _).
  exists req, caller, cert, ttl. split_and!; [done|done|done|done|done|done|intros Hne; by apply Hon|].
  by destruct Hcrt as (_ & _ & <- & _).
Qed.

(** C4: who obtains an SSH host certificate.  As for users, within 30 days; with a
    role table, every host name in the certificate matches, in the declarative
    reading of [path.Match], a host pattern of a role of the caller's groups; and
    the certificate has no extensions and no critical options. *)
Theorem ssh_host_cert_issued (srv : Server PS MS) inp r decoded (w : World AS KS) resp w' :
  (∀ ps, policy srv = Some ps → ps_valid ps) → clock_in_range inp →
  serve (handleSignHostCert srv inp r decoded) w = (resp, w') → status resp = StatusOK →
  ∃ req caller cert ttl,
    decoded = Ok req ∧ authenticated srv r (HostGroups req) caller ∧ resp = sign_response cert ∧
    ssh_certificate srv inp (HostPublicKey req) (HostKeyID req) HostCert maxHostCertTTL cert ∧
    ValidPrincipals cert ⊆ HostPrincipals req ∧ Extensions cert = ∅ ∧ CriticalOptions cert = ∅ ∧
    (policy srv ≠ None → ∀ h, h ∈ ValidPrincipals cert →
      ∃ role p, role_of srv caller role ∧ p ∈ HostPatterns role ∧ Glob.glob_matches p h) ∧
    logged (audit_entry inp r Audit.ActionSSHHostCertSigned ("host:" +:+ HostKeyID req)
      (Caller caller) (CertSerial cert) (signed_metadata cert ttl)) w w'.
Proof.
  intros Hpol Hc [E|E]%serve_cases Hst; [by apply handleSignHostCert_inl in E as [_ [[Hs _]|[[Hs _] _]]]; rewrite Hst in Hs|].
  destruct (host_issued srv inp r decoded w resp w' Hpol Hc E)
    as (req & caller & cert & ttl0 & ttl & Hd & Ha & -> & Hdec & Hcrt & Hex & Hop & _ & Hl).
  destruct (decide_host_granted srv inp r Hpol req caller ttl0 w _ ttl Hdec) as (Hsub & _ & Hon & _).
  exists req, caller, cert, ttl. split_and!; [done|done|done|done|done|done|done|intros Hne; by apply Hon|].
  by destruct Hcrt as (_ & _ & <- & _).
Qed.
End Issuance.

Section AuditTrail.
Context `{SshLib, SshText} {PS MS AS KS : Type} `{Policy.Store PS} `{Mtls.Store MS}.

(** Either endpoint, by the body it decoded. *)
Definition handleSSH (srv : Server PS MS) (inp : Inputs) (r : Request)
    (decoded : result signUserRequest + result signHostRequest)
    : Handler (World AS KS) Response Response :=
  match decoded with
  | inl d => handleSignUserCert srv inp r d
  | inr d => handleSignHostCert srv inp r d
  end.

Definition signed_action (d : result signUserRequest + result signHostRequest) : string :=
  if d then Audit.ActionSSHUserCertSigned else Audit.ActionSSHHostCertSigned.
Definition denied_action (d : result signUserRequest + result signHostRequest) : string :=
  if d then Audit.ActionSSHUserCertDenied else Audit.ActionSSHHostCertDenied.

(** C12: the audit trail of the SSH endpoints is exact.  Whatever the request and
    the configuration, a request leaves the stores alone and either returns a
    certificate and hands one "signed" entry with its serial to the audit sink, or
    is a 403 and hands over one "denied" entry, or is another error and leaves no
    entry: no certificate goes out unrecorded and no entry is written for an
    issuance that did not happen. *)
Theorem ssh_audit_exact (srv : Server PS MS) inp r decoded (w : World AS KS) :
  let '(resp, w') := serve (handleSSH srv inp r decoded) w in
  (status resp = StatusOK ∧ ∃ cert e, resp = sign_response cert ∧ logged e w w' ∧
     Audit.Action e = signed_action decoded ∧ Audit.Serial e = CertSerial cert) ∨
  (status resp = StatusForbidden ∧ ∃ e, logged e w w' ∧
     Audit.Action e = denied_action decoded ∧ Audit.Serial e = 0) ∨
  (status resp ≠ StatusOK ∧ status resp ≠ StatusForbidden ∧ w' = w).
Proof.
  destruct (serve _ w) as [resp w'] eqn:E. apply serve_cases in E as [E|E].
  - right. destruct decoded as [d|d];
      [apply handleSignUserCert_inl in E|apply handleSignHostCert_inl in E];
      destruct E as (_ & [?|[[??] ?]]); [by left|by right|by left|by right].
  - left. destruct decoded as [d|d].
    + apply handleSignUserCert_inr in E as (? & ? & ? & ? & ? & ? & ? & ? & ? & cert &
        _ & _ & _ & _ & _ & _ & _ & -> & Hl). split; [done|]. eexists cert, _. split_and!; [done|exact Hl|done|done].
    + apply handleSignHostCert_inr in E as (? & ? & ? & ? & ? & ? & ? & ? & cert &
        _ & _ & _ & _ & _ & _ & _ & -> & Hl). split; [done|]. eexists cert, _. split_and!; [done|exact Hl|done|done].
Qed.
End AuditTrail.

(** The ceiling is compared after the multiplication by a second has wrapped: a
    request for 584 years and a minute is accepted as one of a minute. *)
Lemma resolveTTL_overflow :
  resolveTTL 18446744133 defaultUserCertTTL maxUserCertTTL "user" = Ok 59290448384.
Proof. by vm_compute. Qed.

(** ** Instances *)
Module SshApiExamples.
Import SshExamples.

#[local] Instance toy : SshLib := toyLib.
#[local] Instance toy_laws : SshLaws := toyLaws.
#[local] Instance toyText : SshText := {|
  ParseAuthorizedKey t := Ok (mkSshKey "ssh-ed25519" t);
  MarshalCert c := "cert " +:+ KeyId c;
  MarshalKey k := wire k;
  NewPublicKey k := Ok (mkSshKey "ssh-ed25519" (key_bytes k));
  FingerprintSHA256 k := wire k;
|}.

Definition ops : Role := mkRole "ops" "grp-ops" ["deploy"] ["*.prod"] [] 600 600 0 {["permit-pty" := ""]}.

Definition srv : Server Policy.InMemoryStore.t Mtls.InMemoryStore.t :=
  mkServer toySigner toySigner None None "" "" (Some (Policy.InMemoryStore.NewInMemoryStore [ops]))
    (Some (λ tok, if bool_decide (tok = "good") then Ok (mkClaims "sub" "alice@x" ["grp-ops"])
                  else Err (ErrOpaque "bad token"))) None true false true "v1".

Definition inp : Inputs := mkInputs (λ _, 1700000000 * ns_per_sec) "ABCDEFGHnonce" "id-1".
Definition req : Request :=
  mkRequest (λ h, if bool_decide (h = "Authorization") then "Bearer good" else "") "10.0.0.1:99" None.
Definition w0 : World unit unit := mkWorld () () [].

Definition user_body : result signUserRequest :=
  Ok (mkSignUser "ssh-ed25519 AAAA" "alice" ["root"; "deploy"] [] ∅ ∅ 0).
Definition host_body : result signHostRequest :=
  Ok (mkSignHost "ssh-ed25519 BBBB" "web" ["web.prod"; "db.test"] [] 3600).

Lemma policy_ok ps : policy srv = Some ps → ps_valid ps.
Proof. by intros [= <-]. Qed.

Lemma ssh_user_cert_issued_witness :
  ∃ req' caller cert ttl,
    user_body = Ok req' ∧ ValidPrincipals cert ⊆ UserPrincipals req' ∧
    (serve (handleSignUserCert srv inp req user_body) w0).1 = sign_response cert ∧
    logged (audit_entry inp req Audit.ActionSSHUserCertSigned ("user:" +:+ UserKeyID req')
      (Caller caller) (CertSerial cert) (signed_metadata cert ttl)) w0
      (serve (handleSignUserCert srv inp req user_body) w0).2.
Proof.
  destruct (ssh_user_cert_issued srv inp req user_body w0
    (serve (handleSignUserCert srv inp req user_body) w0).1
    (serve (handleSignUserCert srv inp req user_body) w0).2)
    as (req' & caller & cert & ttl & Hd & _ & Hr & _ & Hsub & _ & _ & Hl).
  - exact policy_ok.
  - split; by vm_compute.
  - apply surjective_pairing.
  - by vm_compute.
  - exists req', caller, cert, ttl. by split_and!.
Defined.

Lemma ssh_host_cert_issued_witness :
  ∃ req' caller cert ttl,
    host_body = Ok req' ∧ ValidPrincipals cert ⊆ HostPrincipals req' ∧
    (serve (handleSignHostCert srv inp req host_body) w0).1 = sign_response cert ∧
    logged (audit_entry inp req Audit.ActionSSHHostCertSigned ("host:" +:+ HostKeyID req')
      (Caller caller) (CertSerial cert) (signed_metadata cert ttl)) w0
      (serve (handleSignHostCert srv inp req host_body) w0).2.
Proof.
  destruct (ssh_host_cert_issued srv inp req host_body w0
    (serve (handleSignHostCert srv inp req host_body) w0).1
    (serve (handleSignHostCert srv inp req host_body) w0).2)
    as (req' & caller & cert & ttl & Hd & _ & Hr & _ & Hsub & _ & _ & _ & Hl).
  - exact policy_ok.
  - split; by vm_compute.
  - apply surjective_pairing.
  - by vm_compute.
  - exists req', caller, cert, ttl. by split_and!.
Defined.
End SshApiExamples.
