(* ===== verification/ApiX509.v ===== *)
(** * ApiX509: the X.509 signing endpoint and its renewal guard

    Models [handleSignX509WorkloadCert] of [internal/server/api/sign_x509.go] in
    full, and [handleAdoptX509] of [adopt.go]: the issuer check, the role-table
    decision, the issuer's remaining life, the renewal guard over the active-cert
    store, the signature, the record of the rotation and the audit entries. *)

From S2P Require Import Prelude GoText GoTime Policy Signer X509Engine Mtls Store Http Api.

Record signX509Request := mkSignX509 {
  X509PublicKey : string; ReqSPIFFEURI : string; ReqSubjectCommonName : string;
  ReqDNSNames : list string; X509Groups : list string; X509TTLSeconds : Z;
  ReqCurrentSerial : string }.

Record adoptRequest := mkAdopt { AdoptSPIFFEURI : string; AdoptSerial : string }.

Section Handlers.
Context `{CryptoLib, X509Lib, PkixLib} {PS MS AS KS : Type}.
Context `{Policy.Store PS} `{Mtls.Store MS} `{ActiveCertStore AS}.
Context (srv : Server PS MS) (inp : Inputs) (r : Request).

Abbreviation HM A := (Handler (World AS KS) Response A) (only parsing).

Definition parseX509PublicKey (raw : string) : result PublicKey :=
  match pem_decode raw with
  | None => Err (ErrNew "no PEM block found")
  | Some (ty, bytes) =>
      if negb (bool_decide (ty = "PUBLIC KEY")) && negb (bool_decide (ty = "RSA PUBLIC KEY"))
      then Err (ErrNew "expected PEM type 'PUBLIC KEY'")
      else ParsePKIXPublicKey bytes
  end.

Definition bad_request (e : error) : Response := writeError StatusBadRequest (err_text e).

(** The audit calls of this handler all name the workload and no serial. *)
Definition audit_x509 (action uri : string) (caller : callerIdentity)
    (metadata : list (string * Audit.value)) : HM unit :=
  emitAudit inp r action ("workload:" +:+ uri) (Caller caller) 0 metadata.

(** ** The role-table decision *)

Definition decide_x509 (req : signX509Request) (caller : callerIdentity) (ttl : duration)
    : HM (string * duration) :=
  match policy srv with
  | None => hret (ReqSPIFFEURI req, ttl)
  | Some ps =>
      when bool_decide (Groups caller = []) respond
        writeError StatusBadRequest "groups is required when policy is active";;
      match EvaluateX509Cert ps (Groups caller)
              (X509CertRequest.mk (ReqSPIFFEURI req) ttl maxX509CertTTL) with
      | Err e =>
          if err_is e "policy.ErrNoRole" || err_is e "policy.ErrEmptyDecision" then
            do audit_x509 Audit.ActionX509WorkloadCertDenied (ReqSPIFFEURI req) caller
              [("requested_spiffe_uri", Audit.VStr (ReqSPIFFEURI req));
               ("groups", Audit.VStrs (Groups caller)); ("reason", Audit.VStr (err_text e))];;
            reply (writeError StatusForbidden (err_text e))
          else reply (writeError StatusInternalServerError "policy evaluation failed")
      | Ok d => hret (X509CertDecision.SPIFFEURI d, X509CertDecision.TTL d)
      end
  end.

(** A leaf is not issued when its issuer is within one maximum TTL of expiry. *)
Definition check_issuer (issuer : X509Engine.Certificate) (uri : string) (caller : callerIdentity)
    : HM unit :=
  let remaining := time_sub (NotAfter issuer) (clock inp AtIssue) in
  if remaining <? maxX509CertTTL then
    do audit_x509 Audit.ActionX509WorkloadCertDenied uri caller
      [("spiffe_uri", Audit.VStr uri); ("reason", Audit.VStr "issuer near expiry");
       ("issuer_not_after", Audit.VTime (NotAfter issuer));
       ("issuer_remaining", Audit.VDuration remaining)];;
    reply (writeError StatusServiceUnavailable
      "issuer cert is near expiry; rotate the CA issuer before issuing new workload certs")
  else hret tt.

(** ** The renewal guard

    What the recorded row says of a presented serial. *)
Inductive verdict :=
  | AlreadyLocked
  | Rotate (prevSerial : string) (prevNotAfter : time)
  | Reenroll
  | NoSerial
  | Clone.

Definition judge (existing : ActiveCert) (presented : string) (now : time) : verdict :=
  if negb (time_is_zero (LockedAt existing)) then AlreadyLocked else
  if negb (str_empty presented) && (bool_decide (presented = CurrentSerial existing) ||
                                    bool_decide (presented = PreviousSerial existing))
  then Rotate presented (if bool_decide (presented = CurrentSerial existing)
                         then CurrentNotAfter existing else PreviousNotAfter existing) else
  if time_after now (CurrentNotAfter existing) then Reenroll else
  if str_empty presented then NoSerial else Clone.

Definition msg_locked : string := "identity is locked after a suspected clone (reuse detected); an operator must clear its active-cert record to re-enroll".
Definition msg_no_serial : string := "no current serial presented while a valid certificate is recorded for this identity; retry after it expires (re-enroll) or have an operator clear its active-cert record".
Definition msg_clone : string := "presented serial is not the current or previous serial for this identity (possible clone); identity LOCKED — an operator must clear its active-cert record to re-enroll".

(** The answers of the guard to a row that is recorded. *)
Definition deny_locked (existing : ActiveCert) (uri presented : string) (caller : callerIdentity)
    : HM (string * time) :=
  do audit_x509 Audit.ActionX509WorkloadCertLocked uri caller
    [("spiffe_uri", Audit.VStr uri); ("presented_serial", Audit.VStr presented);
     ("locked_at", Audit.VTime (LockedAt existing));
     ("locked_serial", Audit.VStr (LockedSerial existing));
     ("already_locked", Audit.VBool true)];;
  reply (writeError StatusForbidden msg_locked).

Definition allow_reenroll (existing : ActiveCert) (uri presented : string) (caller : callerIdentity)
    : HM (string * time) :=
  do audit_x509 Audit.ActionX509WorkloadCertReenroll uri caller
    [("spiffe_uri", Audit.VStr uri); ("presented_serial", Audit.VStr presented);
     ("expired_serial", Audit.VStr (CurrentSerial existing));
     ("expired_not_after", Audit.VTime (CurrentNotAfter existing))];;
  hret ("", zero_time).

Definition deny_no_serial (existing : ActiveCert) (uri : string) (caller : callerIdentity)
    : HM (string * time) :=
  do audit_x509 Audit.ActionX509WorkloadCertDenied uri caller
    [("spiffe_uri", Audit.VStr uri);
     ("reason", Audit.VStr "empty current_serial while recorded cert still valid");
     ("current_serial", Audit.VStr (CurrentSerial existing));
     ("current_not_after", Audit.VTime (CurrentNotAfter existing))];;
  reply (writeError StatusForbidden msg_no_serial).

Definition deny_clone (existing : ActiveCert) (uri presented : string) (caller : callerIdentity)
    : HM (string * time) :=
  do audit_x509 Audit.ActionX509WorkloadCertLocked uri caller
    [("spiffe_uri", Audit.VStr uri); ("presented_serial", Audit.VStr presented);
     ("current_serial", Audit.VStr (CurrentSerial existing));
     ("previous_serial", Audit.VStr (PreviousSerial existing));
     ("escalated", Audit.VBool true)];;
  reply (writeError StatusForbidden msg_clone).

Definition msg_store_down : string := "active-cert store unavailable".

Definition guard (uri presented : string) (caller : callerIdentity) : HM (string * time) :=
  if negb (activeCerts srv) then hret ("", zero_time) else
  got <-h step (on_certs (Get uri));;
  match got with
  | Err _ => reply (writeError StatusServiceUnavailable msg_store_down)
  | Ok None => hret ("", zero_time)
  | Ok (Some existing) =>
      match judge existing presented (clock inp AtGuard) with
      | AlreadyLocked => deny_locked existing uri presented caller
      | Rotate s na => hret (s, na)
      | Reenroll => allow_reenroll existing uri presented caller
      | NoSerial => deny_no_serial existing uri caller
      | Clone =>
          (* a failed lock is logged; the request is denied all the same *)
          do step (on_certs (Lock (clock inp AtLock) uri presented));;
          deny_clone existing uri presented caller
      end
  end.

(** ** Issuance *)

Definition workload_params (req : signX509Request) (pub : PublicKey) (uri : string)
    (ttl : duration) (serial : Z) : WorkloadCertParams.t :=
  let now := clock inp AtIssue in
  WorkloadCertParams.mk (Some pub) uri (ReqSubjectCommonName req) (ReqDNSNames req)
    now (time_add now ttl) (Some serial).

(** The row recorded for an issued certificate. *)
Definition rotation (uri : string) (cert : X509Engine.Certificate) (prev : string * time) : ActiveCert :=
  mkActiveCert uri (FormatInt (SerialNumber cert)) (NotAfter cert) prev.1 prev.2 zero_time "".

Definition record_rotation (uri : string) (cert : X509Engine.Certificate) (prev : string * time)
    : HM unit :=
  if negb (activeCerts srv) then hret tt else
  res <-h step (on_certs (Upsert (rotation uri cert prev)));;
  match res with
  | Err _ => reply (writeError StatusInternalServerError "failed to record cert issuance")
  | Ok _ => hret tt
  end.

Definition x509_response (issuer cert : X509Engine.Certificate) (uri : string) : Response :=
  writeJSON StatusOK (BX509 (mkSignX509Response (pem_encode "CERTIFICATE" (Raw cert))
    (ChainPEMForLeaf (Some issuer)) (FormatInt (SerialNumber cert)) uri
    (NotBefore cert) (NotAfter cert))).

Definition signed_metadata (cert : X509Engine.Certificate) (uri : string) (ttl : duration)
    : list (string * Audit.value) :=
  [("spiffe_uri", Audit.VStr uri); ("serial", Audit.VStr (FormatInt (SerialNumber cert)));
   ("ttl_seconds", Audit.VInt (duration_seconds ttl));
   ("valid_before", Audit.VTime (truncate_second (NotAfter cert)))].

(** What a request that passed every check in front of the guard goes on with:
    the request, its key, the issuer, the caller, the granted URI and lifetime. *)
Abbreviation grant := (signX509Request * PublicKey * X509Engine.Certificate *
                       callerIdentity * string * duration)%type (only parsing).

Definition checks (decoded : result signX509Request) : HM grant :=
  match issuerCert srv with
  | None => reply (writeError StatusServiceUnavailable "x509 issuance not configured (no CA cert)")
  | Some issuer =>
      req <-h try (decodeRequest decoded) bad_request;;
      pub <-h try (parseX509PublicKey (X509PublicKey req))
        (λ e, writeError StatusBadRequest ("invalid public_key: " +:+ err_text e));;
      when str_empty (ReqSPIFFEURI req) respond
        writeError StatusBadRequest "spiffe_uri is required";;
      ttl <-h try (resolveTTL (X509TTLSeconds req) defaultX509CertTTL maxX509CertTTL "x509") bad_request;;
      caller <-h authenticate srv r (X509Groups req);;
      d <-h decide_x509 req caller ttl;;
      let '(uri, ttl) := d in
      do check_issuer issuer uri caller;;
      hret (req, pub, issuer, caller, uri, ttl)
  end.

(** The serial is drawn and the certificate signed. *)
Definition mint (req : signX509Request) (pub : PublicKey) (issuer : X509Engine.Certificate)
    (uri : string) (ttl : duration) : HM X509Engine.Certificate :=
  s <-h try (RandomSerial (rand inp))
    (λ _, writeError StatusInternalServerError "serial generation failed");;
  let '(serial, rnd) := s in
  try (SignWorkloadCert rnd (x509Signer srv) (Some issuer)
         (workload_params req pub uri ttl serial)) bad_request.

(** The stages behind the checks. *)
Definition issue (g : grant) : HM Response :=
  let '(req, pub, issuer, caller, uri, ttl) := g in
  prev <-h guard uri (ReqCurrentSerial req) caller;;
  cert <-h mint req pub issuer uri ttl;;
  do record_rotation uri cert prev;;
  do audit_x509 Audit.ActionX509WorkloadCertSigned uri caller (signed_metadata cert uri ttl);;
  hret (x509_response issuer cert uri).

Definition handleSignX509WorkloadCert (decoded : result signX509Request) : HM Response :=
  g <-h checks decoded;; issue g.

(** ** Adoption *)
Definition handleAdoptX509 (decoded : result adoptRequest) : HM Response :=
  req <-h try (decodeRequest decoded) bad_request;;
  when str_empty (AdoptSPIFFEURI req) || str_empty (AdoptSerial req) respond
    writeError StatusBadRequest "spiffe_uri and serial are required";;
  do authenticate srv r [];;
  if negb (activeCerts srv) then reply (writeJSON StatusOK (BAdopt false)) else
  res <-h step (on_certs (AdoptCurrent (AdoptSPIFFEURI req) (AdoptSerial req)));;
  match res with
  | Err _ => reply (writeError StatusServiceUnavailable msg_store_down)
  | Ok adopted => hret (writeJSON StatusOK (BAdopt adopted))
  end.
End Handlers.

(** ** What the guard does *)

(** The rows that let a request through, and what is remembered of the old serial. *)
Definition admits (row : option ActiveCert) (presented : string) (now : time)
    (prev : string * time) : Prop :=
  match row with
  | None => prev = ("", zero_time)
  | Some ex => judge ex presented now = Rotate prev.1 prev.2 ∨
               (judge ex presented now = Reenroll ∧ prev = ("", zero_time))
  end.

(** [w'] differs from [w] at most in the active certificates and in entries added
    to the audit log. *)
Definition grows {AS KS} (w w' : World AS KS) : Prop :=
  krls w' = krls w ∧ log w `prefix_of` log w'.

Lemma grows_refl {AS KS} (w : World AS KS) : grows w w.
Proof. by split. Qed.
Lemma grows_trans {AS KS} (w1 w2 w3 : World AS KS) : grows w1 w2 → grows w2 w3 → grows w1 w3.
Proof. intros [? ?] [? ?]. split; [congruence|by etrans]. Qed.

Lemma judge_rotate ex presented now s na :
  judge ex presented now = Rotate s na →
  locked ex = false ∧ presented ≠ "" ∧ s = presented ∧
  (presented = CurrentSerial ex ∧ na = CurrentNotAfter ex ∨
   presented ≠ CurrentSerial ex ∧ presented = PreviousSerial ex ∧ na = PreviousNotAfter ex).
Proof.
  unfold judge, locked, str_empty. destruct (negb (time_is_zero (LockedAt ex))); [done|].
  case_bool_decide as Hp; simpl; [by repeat case_match|].
  case_bool_decide; simpl; [intros [= <- <-]; naive_solver|].
  case_bool_decide; simpl; [intros [= <- <-]; naive_solver|]. by repeat case_match.
Qed.

Lemma judge_reenroll ex presented now :
  judge ex presented now = Reenroll → locked ex = false ∧ CurrentNotAfter ex < now.
Proof.
  unfold judge, locked, time_after. destruct (negb (time_is_zero (LockedAt ex))); [done|].
  destruct (negb (str_empty presented) && _); [done|].
  destruct (Z.ltb_spec (CurrentNotAfter ex) now); [done|]. by destruct (str_empty presented).
Qed.

Lemma admits_unlocked ex presented now prev :
  admits (Some ex) presented now prev → locked ex = false.
Proof. intros [[? _]%judge_rotate|[[? _]%judge_reenroll _]]; done. Qed.

Section GuardFacts.
Context {PS MS AS KS : Type} `{ActiveCertLaws AS}.
Context (srv : Server PS MS) (inp : Inputs) (r : Request).

Abbreviation W := (World AS KS) (only parsing).

Lemma audit_x509_inr action uri caller md (w : W) u w' :
  audit_x509 inp r action uri caller md w = (inr u, w') → grows w w' ∧ certs w' = certs w.
Proof. intros [= <- <-]. split; [|done]. split; [done|]. simpl. by apply prefix_app_r. Qed.

Lemma audit_reply {A} action uri caller md resp (w : W) out w' :
  (do audit_x509 inp r action uri caller md;; reply (A:=A) resp) w = (out, w') →
  out = inl resp ∧ grows w w' ∧ certs w' = certs w.
Proof.
  unfold hbind. destruct (audit_x509 _ _ _ _ _ _ w) as [[?|u] w1] eqn:E; [done|].
  intros [= <- <-]. by apply audit_x509_inr in E.
Qed.

Lemma step_certs {A} (m : M AS A) (w : W) out w' :
  step (on_certs (KS:=KS) m) w = (out, w') →
  ∃ res, out = inr res ∧ m (certs w) = (res, certs w') ∧ grows w w'.
Proof.
  unfold step, on_certs. destruct (m (certs w)) as [res a] eqn:E. intros [= <- <-].
  exists res. by split_and!.
Qed.

Lemma guard_spec uri presented caller (w : W) out w' :
  ac_ok (certs w) → clock_ok (clock inp AtLock) →
  guard srv inp r uri presented caller w = (out, w') →
  grows w w' ∧ ac_ok (certs w') ∧
  match out with
  | inr prev =>
      ac_view (certs w') = ac_view (certs w) ∧
      if activeCerts srv then admits (ac_view (certs w) !! uri) presented (clock inp AtGuard) prev
      else certs w' = certs w ∧ prev = ("", zero_time)
  | inl resp =>
      activeCerts srv = true ∧ (∃ msg, payload resp = BError msg) ∧
      (status resp = StatusForbidden ∨ status resp = StatusServiceUnavailable) ∧
      (ac_view (certs w') = ac_view (certs w) ∨
       ∃ ex, ac_view (certs w) !! uri = Some ex ∧
         judge ex presented (clock inp AtGuard) = Clone ∧
         ac_view (certs w') = spec_lock (clock inp AtLock) uri presented (ac_view (certs w)))
  end.
Proof.
  intros Hok Hclk. unfold guard. destruct (activeCerts srv) eqn:Ea; simpl; cycle 1.
  { intros [= <- <-]. by split_and!. }
  unfold hbind at 1. destruct (step _ w) as [out1 w1] eqn:E1.
  apply step_certs in E1 as (res & -> & Hget & Hg1).
  destruct (get_spec uri _ _ _ Hok Hget) as (Hok1 & Hv1 & Hres).
  assert (∀ resp msg st, resp = writeError st msg → (st = StatusForbidden ∨ st = StatusServiceUnavailable) →
    (∃ msg, payload resp = BError msg) ∧
    (status resp = StatusForbidden ∨ status resp = StatusServiceUnavailable)) as Hresp.
  { intros ? msg st -> Hst. split; [by exists msg|done]. }
  destruct res as [[ex|]|e].
  - specialize (Hres _ eq_refl). destruct (judge ex presented _) as [|s na| | |] eqn:Ej.
    + intros (-> & Hg & Hc)%audit_reply. rewrite Hc. split_and!; try done; [by eapply grows_trans|..].
      * by eexists. * by left. * by left.
    + intros [= <- <-]. split_and!; [done|done|done|]. rewrite <- Hres. by left.
    + intros E. unfold allow_reenroll, hbind in E. destruct (audit_x509 _ _ _ _ _ _ w1) as [[?|u] w2] eqn:E2; [done|].
      injection E as <- <-. apply audit_x509_inr in E2 as [Hg Hc]. rewrite Hc.
      split_and!; [by eapply grows_trans|done|done|]. rewrite <- Hres. by right.
    + intros (-> & Hg & Hc)%audit_reply. rewrite Hc. split_and!; try done; [by eapply grows_trans|..].
      * by eexists. * by left. * by left.
    + unfold hbind at 1. destruct (step _ w1) as [out2 w2] eqn:E2.
      apply step_certs in E2 as (res2 & -> & Hlock & Hg2).
      destruct (lock_spec _ _ _ _ _ _ Hok1 Hclk Hlock) as (Hok2 & Hv2).
      intros (-> & Hg & Hc)%audit_reply. rewrite Hc.
      split_and!; [by do 2 (eapply grows_trans; [done|])|done|done|by eexists|by left|].
      rewrite Hv1 in Hv2. destruct res2; simpl in Hv2; [right|destruct Hv2; [by left|right]]; by exists ex.
  - intros [= <- <-]. split_and!; [done|done|done|]. by rewrite <- (Hres _ eq_refl).
  - intros [= <- <-]. split_and!; try done; [by eexists|by right|by left].
Qed.

Lemma record_rotation_spec uri cert prev (w : W) out w' :
  ac_ok (certs w) → active_cert_ok (rotation uri cert prev) →
  record_rotation srv uri cert prev w = (out, w') →
  grows w w' ∧ ac_ok (certs w') ∧
  match out with
  | inr _ => if activeCerts srv
             then ac_view (certs w') = spec_upsert (rotation uri cert prev) (ac_view (certs w))
             else certs w' = certs w
  | inl resp => activeCerts srv = true ∧ status resp = StatusInternalServerError ∧
      (∃ msg, payload resp = BError msg) ∧
      outcome (A:=unit) (Err (ErrNew "")) (ac_view (certs w))
        (spec_upsert (rotation uri cert prev) (ac_view (certs w))) (ac_view (certs w'))
  end.
Proof.
  intros Hok Hrow. unfold record_rotation. destruct (activeCerts srv) eqn:Ea; simpl; cycle 1.
  { intros [= <- <-]. by split_and!. }
  unfold hbind. destruct (step _ w) as [out1 w1] eqn:E1.
  apply step_certs in E1 as (res & -> & Hup & Hg1).
  destruct (upsert_spec _ _ _ _ Hok Hrow Hup) as (Hok1 & Hv1).
  destruct res; intros [= <- <-]; split_and!; try done. by eexists.
Qed.
End GuardFacts.

(** ** The course of a request *)
Section Course.
Context `{CryptoLib, X509Lib, PkixLib} {PS MS AS KS : Type}.
Context `{Policy.Store PS} `{Mtls.Store MS} `{ActiveCertStore AS}.
Context (srv : Server PS MS) (inp : Inputs) (r : Request).

Abbreviation W := (World AS KS) (only parsing).

(** A request that passed every check in front of the guard. *)
Record cleared (decoded : result signX509Request) (req : signX509Request) (pub : PublicKey)
    (issuer : X509Engine.Certificate) (caller : callerIdentity) (uri : string) (ttl : duration)
    (w : W) : Prop := {
  cl_decoded : decoded = Ok req;
  cl_issuer : issuerCert srv = Some issuer;
  cl_pub : parseX509PublicKey (X509PublicKey req) = Ok pub;
  cl_caller : authenticated srv r (X509Groups req) caller;
  cl_ttl : ∃ ttl0, resolveTTL (X509TTLSeconds req) defaultX509CertTTL maxX509CertTTL "x509" = Ok ttl0 ∧
    decide_x509 srv inp r req caller ttl0 w = (inr (uri, ttl), w);
  cl_life : maxX509CertTTL ≤ time_sub (NotAfter issuer) (clock inp AtIssue);
}.

Definition quiet_refusal (w : W) (resp : Response) (w' : W) : Prop :=
  (∃ msg, payload resp = BError msg) ∧ status resp ≠ StatusOK ∧ certs w' = certs w ∧ grows w w'.

Lemma quiet_error st msg (w : W) :
  st ≠ StatusOK → quiet_refusal w (writeError st msg) w.
Proof. intros Hst. split_and!; [by exists msg|done|done|apply grows_refl]. Qed.

Lemma audited_refusal {A} action uri caller md st msg (w : W) out w' :
  st ≠ StatusOK →
  (do audit_x509 inp r action uri caller md;; reply (A:=A) (writeError st msg)) w = (out, w') →
  out = inl (writeError st msg) ∧ quiet_refusal w (writeError st msg) w'.
Proof. intros Hst (-> & ? & ?)%audit_reply. split; [done|]. split_and!; [by exists msg|done..]. Qed.

Lemma decide_x509_spec req caller ttl0 (w : W) out w' :
  decide_x509 srv inp r req caller ttl0 w = (out, w') →
  match out with inl resp => quiet_refusal w resp w' | inr _ => w' = w end.
Proof.
  unfold decide_x509. destruct (policy srv); [|by intros [= <- <-]].
  case_bool_decide; [intros [= <- <-]; by apply quiet_error|].
  destruct (EvaluateX509Cert _ _ _); [by intros [= <- <-]|]. case_match.
  - intros [-> ?]%audited_refusal; done.
  - intros [= <- <-]. by apply quiet_error.
Qed.

Lemma check_issuer_spec issuer uri caller (w : W) out w' :
  check_issuer inp r issuer uri caller w = (out, w') →
  match out with
  | inl resp => quiet_refusal w resp w'
  | inr _ => w' = w ∧ maxX509CertTTL ≤ time_sub (NotAfter issuer) (clock inp AtIssue)
  end.
Proof.
  unfold check_issuer. case_match eqn:E.
  - intros [-> ?]%audited_refusal; done.
  - intros [= <- <-]. apply Z.ltb_ge in E. done.
Qed.

Lemma quiet_authenticate groups (w : W) resp w' :
  authenticate srv r groups w = (inl resp, w') → quiet_refusal w resp w'.
Proof.
  intros [-> [[Hm Hs] _]]%authenticate_spec. split_and!; [done| |done|apply grows_refl].
  by destruct Hs as [-> | ->].
Qed.

Lemma checks_spec decoded (w : W) out w' :
  checks srv inp r decoded w = (out, w') →
  match out with
  | inl resp => quiet_refusal w resp w'
  | inr (req, pub, issuer, caller, uri, ttl) =>
      w' = w ∧ cleared decoded req pub issuer caller uri ttl w
  end.
Proof.
  unfold checks. destruct (issuerCert srv) as [issuer|] eqn:Ei; cycle 1.
  { intros [= <- <-]. by apply quiet_error. }
  intros [(resp & [-> (e & _ & ->)]%try_inl & ->)|(req & w1 & [Hd ->]%try_inr & E)]%hbind_cases.
  { by apply quiet_error. }
  apply hbind_cases in E as [(resp & [-> (e & _ & ->)]%try_inl & ->)|(pub & w1 & [Hp ->]%try_inr & E)].
  { by apply quiet_error. }
  destruct (str_empty (ReqSPIFFEURI req)).
  { injection E as <- <-. by apply quiet_error. }
  apply hbind_cases in E as [(resp & [-> (e & _ & ->)]%try_inl & ->)|(ttl0 & w1 & [Ht ->]%try_inr & E)].
  { by apply quiet_error. }
  apply hbind_cases in E as [(resp & Ha & ->)|(caller & w1 & [-> Ha]%authenticate_spec & E)].
  { by eapply quiet_authenticate. }
  apply hbind_cases in E as [(resp & Hdec%decide_x509_spec & ->)|([uri ttl] & w1 & Hdec & E)]; [done|].
  pose proof (decide_x509_spec _ _ _ _ _ _ Hdec) as Hw1. simpl in Hw1. subst w1.
  apply hbind_cases in E as [(resp & Hi%check_issuer_spec & ->)|(u & w1 & [-> Hi]%check_issuer_spec & E)]; [done|].
  injection E as <- <-. split; [done|]. split; [|done|done|done|by exists ttl0|done].
  unfold decodeRequest in Hd. destruct decoded; [done|]. by case_match.
Qed.

Lemma handle_x509_course decoded (w : W) out w' :
  handleSignX509WorkloadCert srv inp r decoded w = (out, w') →
  (∃ resp, out = inl resp ∧ quiet_refusal w resp w') ∨
  ∃ req pub issuer caller uri ttl,
    cleared decoded req pub issuer caller uri ttl w ∧
    issue srv inp r (req, pub, issuer, caller, uri, ttl) w = (out, w').
Proof.
  intros [(resp & Hc%checks_spec & ->)|([[[[[req pub] issuer] caller] uri] ttl] & w1 & [-> Hc]%checks_spec & E)]%hbind_cases.
  - left. by eexists.
  - right. by exists req, pub, issuer, caller, uri, ttl.
Qed.

Lemma mint_spec req pub issuer uri ttl (w : W) out w' :
  mint srv inp req pub issuer uri ttl w = (out, w') →
  w' = w ∧
  match out with
  | inl resp => status resp ≠ StatusOK
  | inr cert => ∃ serial rest, RandomSerial (rand inp) = Ok (serial, rest) ∧
      SignWorkloadCert rest (x509Signer srv) (Some issuer)
        (workload_params inp req pub uri ttl serial) = Ok cert
  end.
Proof.
  intros [(resp & [-> (e & _ & ->)]%try_inl & ->)|([serial rest] & w1 & [Hs ->]%try_inr & E)]%hbind_cases;
    [done|].
  destruct out as [resp|cert]; [by apply try_inl in E as [-> (e & _ & ->)]|].
  apply try_inr in E as [Hc ->]. split; [done|]. by exists serial, rest.
Qed.
End Course.

(** ** Issuance against the store's contract *)
Section Contract.
Context `{CryptoLib, X509Laws, PkixLib} {PS MS AS KS : Type}.
Context `{Policy.Store PS} `{Mtls.Store MS} `{ActiveCertLaws AS}.
Context (srv : Server PS MS) (inp : Inputs) (r : Request).

Abbreviation W := (World AS KS) (only parsing).

(** The instants of a request: a clock after the epoch, four-digit years. *)
Definition clocks_ok : Prop := clock_ok (clock inp AtIssue) ∧ clock_ok (clock inp AtLock).
Definition view_ok (t : gmap string ActiveCert) : Prop := ∀ id ac, t !! id = Some ac → active_cert_ok ac.
Definition issuer_ok : Prop := ∀ c, issuerCert srv = Some c → year_ok (NotAfter c).

(** What a 200 certifies of the certificate in the response. *)
Definition x509_certificate (req : signX509Request) (pub : PublicKey)
    (issuer : X509Engine.Certificate) (uri : string) (cert : X509Engine.Certificate) : Prop :=
  CertPublicKey cert = Some pub ∧ IsCA issuer = true ∧ IsCA cert = false ∧
  (∃ u, url_parse uri = Ok u ∧ str_lower (Scheme u) = SPIFFEURIScheme ∧ Host u ≠ "" ∧
     URLString <$> URIs cert = [URLString u]) ∧
  DNSNames cert = ReqDNSNames req ∧
  NotBefore cert ≤ NotAfter cert ∧ NotAfter cert ≤ NotAfter issuer ∧
  NotAfter cert ≤ clock inp AtIssue + maxX509CertTTL ∧ 0 < SerialNumber cert.

Lemma x509_certificate_intro req pub issuer uri ttl serial rnd rest cert :
  RandomSerial (rand inp) = Ok (serial, rest) → ttl ≤ maxX509CertTTL →
  SignWorkloadCert rnd (x509Signer srv) (Some issuer) (workload_params inp req pub uri ttl serial) = Ok cert →
  x509_certificate req pub issuer uri cert ∧ SerialNumber cert = serial.
Proof.
  intros Hs Ht (ca & u & [= <-] & Hca & Hu & Hsch & Hh & Huris & Hpub & Hser & Hdns & Hleaf & _ & Hw &
    Hna & Hvb & Hnb)%workload_cert_sound.
  apply RandomSerial_range in Hs. cbn in Hpub, Hser, Hdns, Hvb. injection Hser as Hser.
  unfold time_add in Hvb. rewrite Hser.
  split; [|done]. unfold x509_certificate. rewrite Hser. split_and!; try done; [by exists u|lia|lia].
Qed.

Lemma minted_year req pub issuer uri ttl serial rnd cert :
  clock_ok (clock inp AtIssue) → year_ok (NotAfter issuer) →
  SignWorkloadCert rnd (x509Signer srv) (Some issuer) (workload_params inp req pub uri ttl serial) = Ok cert →
  year_ok (NotAfter cert).
Proof.
  intros [Hc0 _] Hy (ca & u & [= <-] & _ & _ & _ & _ & _ & _ & _ & _ & _ & _ & Hw & Hna & _ & Hnb)%workload_cert_sound.
  cbn in Hnb. unfold year_ok in *. unfold truncate_second in Hnb.
  pose proof (Z.div_pos (clock inp AtIssue) ns_per_sec Hc0 ltac:(done)).
  unfold ns_per_sec in *. lia.
Qed.

Lemma admitted_year (t : gmap string ActiveCert) uri presented now prev :
  view_ok t → admits (t !! uri) presented now prev → year_ok prev.2.
Proof.
  intros Hv Ha. destruct (t !! uri) as [ex|] eqn:Eu; [|by rewrite Ha].
  destruct (Hv _ _ Eu) as [Hcur Hprev]. destruct Ha as [Hj|[_ ->]]; [|done].
  apply judge_rotate in Hj as (_ & _ & _ & [[_ ->]|(_ & _ & ->)]); done.
Qed.

Lemma rotation_ok req pub issuer caller decoded uri ttl serial rnd cert prev (w : W) :
  clocks_ok → issuer_ok → view_ok (ac_view (certs w)) →
  cleared srv inp r decoded req pub issuer caller uri ttl w →
  SignWorkloadCert rnd (x509Signer srv) (Some issuer) (workload_params inp req pub uri ttl serial) = Ok cert →
  admits (ac_view (certs w) !! uri) (ReqCurrentSerial req) (clock inp AtGuard) prev →
  active_cert_ok (rotation uri cert prev).
Proof.
  intros [Hc _] Hi Hv Hcl Hs Ha. split; simpl.
  - by eapply minted_year; [| |exact Hs]; [|apply Hi, (cl_issuer _ _ _ _ _ _ _ _ _ _ _ Hcl)].
  - by eapply admitted_year.
Qed.

(** The effect of a request for [uri] on the recorded rows, with its response. *)
Inductive effect (uri presented : string) (now : time) (t : gmap string ActiveCert)
    : Response → gmap string ActiveCert → Prop :=
  | eff_issued issuer cert prev rest :
      RandomSerial (rand inp) = Ok (SerialNumber cert, rest) →
      admits (t !! uri) presented now prev → active_cert_ok (rotation uri cert prev) →
      (∃ der, ParseCertificate der = Ok cert) →
      effect uri presented now t (x509_response issuer cert uri) (spec_upsert (rotation uri cert prev) t)
  | eff_unrecorded resp cert prev rest :
      status resp = StatusInternalServerError →
      RandomSerial (rand inp) = Ok (SerialNumber cert, rest) →
      admits (t !! uri) presented now prev → active_cert_ok (rotation uri cert prev) →
      effect uri presented now t resp (spec_upsert (rotation uri cert prev) t)
  | eff_locked resp ex :
      status resp ≠ StatusOK → t !! uri = Some ex → judge ex presented now = Clone →
      effect uri presented now t resp (spec_lock (clock inp AtLock) uri presented t)
  | eff_none resp : status resp ≠ StatusOK → effect uri presented now t resp t.

Lemma effect_refused uri presented now t t' resp :
  status resp ≠ StatusOK →
  (t' = t ∨ ∃ ex, t !! uri = Some ex ∧ judge ex presented now = Clone ∧
     t' = spec_lock (clock inp AtLock) uri presented t) →
  effect uri presented now t resp t'.
Proof. intros Hst [->|(ex & Ht & Hj & ->)]; [by apply eff_none|by eapply eff_locked]. Qed.

(** The stages behind the checks: with a guard, the outcome is an effect on the
    recorded rows; a certificate in the response is sound and was recorded. *)
Lemma issue_spec decoded req pub issuer caller uri ttl (w : W) out w' :
  ac_ok (certs w) → clocks_ok → issuer_ok → view_ok (ac_view (certs w)) →
  ttl ≤ maxX509CertTTL →
  cleared srv inp r decoded req pub issuer caller uri ttl w →
  issue srv inp r (req, pub, issuer, caller, uri, ttl) w = (out, w') →
  let resp := match out with inl resp | inr resp => resp end in
  let row := ac_view (certs w) !! uri in
  grows w w' ∧ ac_ok (certs w') ∧
  (status resp = StatusOK → out = inr resp) ∧
  (activeCerts srv = false → certs w' = certs w) ∧
  (activeCerts srv = true →
     effect uri (ReqCurrentSerial req) (clock inp AtGuard) (ac_view (certs w))
       resp (ac_view (certs w'))) ∧
  (out = inr resp → status resp = StatusOK ∧
    ∃ serial rest cert prev,
      RandomSerial (rand inp) = Ok (serial, rest) ∧ SerialNumber cert = serial ∧
      SignWorkloadCert rest (x509Signer srv) (Some issuer)
        (workload_params inp req pub uri ttl serial) = Ok cert ∧
      x509_certificate req pub issuer uri cert ∧ resp = x509_response issuer cert uri ∧
      (activeCerts srv = true →
         admits row (ReqCurrentSerial req) (clock inp AtGuard) prev ∧
         ac_view (certs w') = spec_upsert (rotation uri cert prev) (ac_view (certs w))) ∧
      ∃ l, log w' = l ++ [Audit.mkEntry (uuid inp) Audit.ActionX509WorkloadCertSigned
        ("workload:" +:+ uri) (Caller caller) 0 (clientIP r) (header r "User-Agent")
        (signed_metadata cert uri ttl) (clock inp AtAudit)]).
Proof.
  intros Hok Hck Hiss Hview Httl Hcl. unfold issue.
  intros [(resp & Hg & ->)|(prev & w1 & Hg & E)]%hbind_cases;
    apply guard_spec in Hg as (Hg1 & Hok1 & Hg); try done; try apply Hck.
  { destruct Hg as (Ha & _ & Hst & Hv). simpl.
    assert (status resp ≠ StatusOK) by (by destruct Hst as [-> | ->]).
    split_and!; try done; [by rewrite Ha|intros _; by apply effect_refused]. }
  destruct Hg as [Hv1 Hadm].
  assert (∀ resp', status resp' ≠ StatusOK → out = inl resp' → w' = w1 →
    let resp := match out with inl resp | inr resp => resp end in
    grows w w' ∧ ac_ok (certs w') ∧ (status resp = StatusOK → out = inr resp) ∧
    (activeCerts srv = false → certs w' = certs w) ∧
    (activeCerts srv = true → effect uri (ReqCurrentSerial req) (clock inp AtGuard)
       (ac_view (certs w)) resp (ac_view (certs w'))) ∧ out ≠ inr resp) as Hstop.
  { intros resp' Hst -> ->. simpl. split_and!; try done; [|intros _; rewrite Hv1; by apply eff_none].
    intros Ha. rewrite Ha in Hadm. by apply Hadm. }
  apply hbind_cases in E as [(resp & [-> Hst]%mint_spec & ->)|(cert & w2 & [-> (serial & rest & Hs & Hc)]%mint_spec & E)].
  { destruct (Hstop resp) as (?&?&?&?&?&?); done. }
  clear Hstop. destruct (x509_certificate_intro req pub issuer uri ttl serial rest rest cert Hs Httl Hc)
    as [Hcert Hser].
  apply hbind_cases in E as [(resp & Hr & ->)|(u & w2 & Hr & E)].
  - assert (activeCerts srv = true) as Ha
      by (unfold record_rotation in Hr; by destruct (activeCerts srv)).
    rewrite Ha in Hadm. pose proof (rotation_ok _ _ _ _ _ _ _ _ _ _ _ _ Hck Hiss Hview Hcl Hc Hadm) as Hrow.
    apply record_rotation_spec in Hr as (Hg2 & Hok2 & _ & Hst & _ & Hv2); [|done|done].
    simpl. rewrite Hv1 in Hv2. split_and!; [by eapply grows_trans|done|by rewrite Hst|by rewrite Ha| |done].
    intros _. destruct Hv2 as [-> | ->]; [apply eff_none; by rewrite Hst|].
    apply (eff_unrecorded _ _ _ _ _ _ _ rest); [done|by rewrite Hser|done|done].
  - apply hbind_cases in E as [(resp & [=] & _)|([] & w3 & Hl & [= <- <-])].
    assert (log w3 = log w2 ++ [Audit.mkEntry (uuid inp) Audit.ActionX509WorkloadCertSigned
      ("workload:" +:+ uri) (Caller caller) 0 (clientIP r) (header r "User-Agent")
      (signed_metadata cert uri ttl) (clock inp AtAudit)]) as Hlog by (by injection Hl as <-).
    apply audit_x509_inr in Hl as [Hg3 Hc3]. simpl. rewrite Hc3.
    destruct (activeCerts srv) eqn:Ha.
    + pose proof (rotation_ok _ _ _ _ _ _ _ _ _ _ _ _ Hck Hiss Hview Hcl Hc Hadm) as Hrow.
      apply record_rotation_spec in Hr as (Hg2 & Hok2 & Hv2); [|done|done]. rewrite Ha, Hv1 in Hv2.
      split_and!; try done; [exact (grows_trans _ _ _ Hg1 (grows_trans _ _ _ Hg2 Hg3))|
        intros _; rewrite Hv2; apply (eff_issued _ _ _ _ _ _ _ rest); [by rewrite Hser|done|done|by eapply SignWorkloadCert_parsed]|].
      intros _. split; [done|]. exists serial, rest, cert, prev. split_and!; try done. by eexists.
    + unfold record_rotation in Hr. rewrite Ha in Hr. injection Hr as <- <-.
      destruct Hadm as [Hc1 Hprev].
      split_and!; try done; [exact (grows_trans _ _ _ Hg1 Hg3)|]. intros _. split; [done|].
      exists serial, rest, cert, prev. split_and!; try done. by eexists.
Qed.

Lemma decide_x509_bounds req caller ttl0 (w : W) uri ttl :
  decide_x509 srv inp r req caller ttl0 w = (inr (uri, ttl), w) →
  uri = ReqSPIFFEURI req ∧ ttl ≤ ttl0.
Proof.
  unfold decide_x509. destruct (policy srv) as [ps|]; [|by intros [= <- <-]].
  case_bool_decide; [done|]. destruct (EvaluateX509Cert _ _ _) as [d|e] eqn:Ed; cycle 1.
  { case_match; [|done]. by intros (? & ? & _ & [=])%hbind_inr. }
  intros [= <- <-]. apply x509_decision_shape in Ed as (patterns & _ & _ & Hu & Ht).
  split; [done|rewrite Ht; simpl; lia].
Qed.

Lemma cleared_bounds decoded req pub issuer caller uri ttl (w : W) :
  cleared srv inp r decoded req pub issuer caller uri ttl w →
  uri = ReqSPIFFEURI req ∧ ttl ≤ maxX509CertTTL.
Proof.
  intros Hcl. destruct (cl_ttl _ _ _ _ _ _ _ _ _ _ _ Hcl) as (ttl0 & Ht & Hd).
  apply decide_x509_bounds in Hd as [-> Hle]. split; [done|].
  apply resolveTTL_Ok in Ht as [[_ ->]|(_ & _ & ?)]; [|lia].
  unfold maxX509CertTTL, defaultX509CertTTL, hour, minute, second, ns_per_sec in *. lia.
Qed.

(** A whole request, guard active, as an effect on the recorded rows. *)
Lemma sign_effect decoded (w : W) resp w' :
  activeCerts srv = true → ac_ok (certs w) → clocks_ok → issuer_ok → view_ok (ac_view (certs w)) →
  serve (handleSignX509WorkloadCert srv inp r decoded) w = (resp, w') →
  ac_ok (certs w') ∧
  ((status resp ≠ StatusOK ∧ ac_view (certs w') = ac_view (certs w)) ∨
   ∃ req, decoded = Ok req ∧
     effect (ReqSPIFFEURI req) (ReqCurrentSerial req) (clock inp AtGuard)
       (ac_view (certs w)) resp (ac_view (certs w'))).
Proof.
  intros Ha Hok Hck Hiss Hview E. unfold serve in E.
  destruct (handleSignX509WorkloadCert srv inp r decoded w) as [out w1] eqn:Eh.
  apply handle_x509_course in Eh as [(resp' & -> & _ & Hne & Hc & _)|(req & pub & issuer & caller & uri & ttl & Hcl & Ei)].
  { injection E as <- <-. rewrite Hc. split; [done|by left]. }
  destruct (cleared_bounds _ _ _ _ _ _ _ _ Hcl) as [-> Httl].
  apply (issue_spec decoded) in Ei as (_ & Hok' & _ & _ & Heff & _); [|done..].
  assert (match out with inl x | inr x => x end = resp ∧ w1 = w') as [Hr ->]
    by (destruct out; by injection E as <- <-).
  rewrite Hr in Heff. split; [done|]. right. exists req.
  split; [apply Hcl|by apply Heff].
Qed.

(** ** Who obtains a workload certificate *)

Context `{!Policy.StoreLaws PS}.

Lemma decide_x509_granted req caller ttl0 (w : W) uri ttl :
  (∀ ps, policy srv = Some ps → ps_valid ps) →
  decide_x509 srv inp r req caller ttl0 w = (inr (uri, ttl), w) →
  policy srv ≠ None → ∃ role p, role_of srv caller role ∧ p ∈ SPIFFEPatterns role ∧
     Glob.glob_matches p uri.
Proof.
  intros Hpol. unfold decide_x509. destruct (policy srv) as [ps|] eqn:Ep; [|by intros [= <- <-]].
  case_bool_decide; [done|]. destruct (EvaluateX509Cert _ _ _) as [d|e] eqn:Ed; cycle 1.
  { case_match; [|done]. by intros (? & ? & _ & [=])%hbind_inr. }
  intros [= <- <-]. apply x509_decision_shape in Ed as (patterns & Hc & Hm & Hu & Ht). intros _.
  apply matchesAny_spec in Hm as (p & Hin & Hm). rewrite Hu.
  destruct (collected_pattern _ _ _ _ _ _ _ (Hpol ps eq_refl) Hc Hin Hm) as (role & ? & ? & ? & ?).
  exists role, p. split_and!; [by exists ps|done|done].
Qed.

(** C1: who obtains a workload certificate.  A 200 from the signing endpoint
    means: the caller was authenticated; the issuer has at least one maximum TTL
    left; the certificate is a leaf for exactly the requested SPIFFE URI and key,
    with a positive serial, ending neither after 24 hours nor after its issuer;
    with a role table, a SPIFFE pattern of a role of the caller's groups matches
    the URI; with the renewal guard, the identity has no record, or its unlocked
    record names the presented serial as current or previous, or that record has
    expired, and the new serial is now recorded as current; and the last entry
    handed to the audit sink is this issuance. *)
Theorem x509_cert_issued decoded (w : W) resp w' :
  (∀ ps, policy srv = Some ps → ps_valid ps) →
  ac_ok (certs w) → clocks_ok → issuer_ok → view_ok (ac_view (certs w)) →
  serve (handleSignX509WorkloadCert srv inp r decoded) w = (resp, w') → status resp = StatusOK →
  ∃ req pub issuer caller cert prev,
    let uri := ReqSPIFFEURI req in
    decoded = Ok req ∧ issuerCert srv = Some issuer ∧
    authenticated srv r (X509Groups req) caller ∧
    parseX509PublicKey (X509PublicKey req) = Ok pub ∧
    maxX509CertTTL ≤ NotAfter issuer - clock inp AtIssue ∧
    resp = x509_response issuer cert uri ∧ x509_certificate req pub issuer uri cert ∧
    (policy srv ≠ None → ∃ role p, role_of srv caller role ∧ p ∈ SPIFFEPatterns role ∧
       Glob.glob_matches p uri) ∧
    (activeCerts srv = true →
       admits (ac_view (certs w) !! uri) (ReqCurrentSerial req) (clock inp AtGuard) prev ∧
       ac_view (certs w') = spec_upsert (rotation uri cert prev) (ac_view (certs w))) ∧
    ∃ l ttl, log w' = l ++ [Audit.mkEntry (uuid inp) Audit.ActionX509WorkloadCertSigned
      ("workload:" +:+ uri) (Caller caller) 0 (clientIP r) (header r "User-Agent")
      (signed_metadata cert uri ttl) (clock inp AtAudit)].
Proof.
  intros Hpol Hok Hck Hiss Hview E Hst. unfold serve in E.
  destruct (handleSignX509WorkloadCert srv inp r decoded w) as [out w1] eqn:Eh.
  apply handle_x509_course in Eh as [(resp' & -> & _ & Hne & _)|(req & pub & issuer & caller & uri & ttl & Hcl & Ei)].
  { injection E as <- <-. done. }
  destruct (cleared_bounds _ _ _ _ _ _ _ _ Hcl) as [-> Httl].
  destruct (cl_ttl _ _ _ _ _ _ _ _ _ _ _ Hcl) as (ttl0 & _ & Hdec).
  pose proof (decide_x509_granted _ _ _ _ _ _ Hpol Hdec) as Hrole.
  apply (issue_spec decoded) in Ei as (_ & _ & Hout & _ & _ & Hres); [|done..].
  assert (out = inr resp ∧ w1 = w') as [-> ->] by (destruct out; injection E as <- <-; naive_solver).
  destruct (Hres eq_refl) as (_ & serial & rest & cert & prev & _ & _ & _ & Hcert & -> & Hg & l & Hl).
  exists req, pub, issuer, caller, cert, prev. simpl.
  split_and!; try done; try apply Hcl; [|by exists l, ttl].
  pose proof (cl_life _ _ _ _ _ _ _ _ _ _ _ Hcl). unfold time_sub in *.
  unfold maxX509CertTTL, hour, minute, second, ns_per_sec in *. lia.
Qed.
End Contract.
