(* ===== verification/Guard.v ===== *)
(** * Guard: the renewal protocol across requests

    The signing and adoption endpoints as a transition system over the recorded
    rows, proved against the active-cert interface: whatever the database loses,
    a locked identity stays locked, a superseded serial stays useless while the
    recorded certificate lives, and an agent that renews one request at a time is
    never taken for a clone.  [duplicate_locks_agent] shows what the last claim
    does not cover. *)

From S2P Require Import Prelude GoText GoTime Policy Signer X509Engine Mtls Store Sql SqlStore SqlFacts Http Api ApiX509.

Section Protocol.
Context `{CryptoLib, X509Laws, PkixLib} {PS MS AS KS : Type}.
Context `{Policy.Store PS} `{Mtls.Store MS} `{ActiveCertLaws AS}.

Abbreviation W := (World AS KS) (only parsing).
Abbreviation rows := (gmap string ActiveCert) (only parsing).

(** A request to either endpoint, with the server as configured at that time. *)
Inductive event :=
  | ESign (srv : Server PS MS) (inp : Inputs) (r : Request) (decoded : result signX509Request)
  | EAdopt (srv : Server PS MS) (inp : Inputs) (r : Request) (decoded : result adoptRequest).

Definition exec (e : event) (w : W) : Response * W :=
  match e with
  | ESign srv inp r d => serve (handleSignX509WorkloadCert srv inp r d) w
  | EAdopt srv inp r d => serve (handleAdoptX509 srv r d) w
  end.

(** The guard is active, the clock is after the epoch and the issuer's expiry has a
    four-digit year. *)
Definition event_ok (e : event) : Prop :=
  match e with
  | ESign srv inp _ _ => activeCerts srv = true ∧ clocks_ok inp ∧ issuer_ok srv
  | EAdopt srv _ _ _ => activeCerts srv = true
  end.

Definition rows_ok (w : W) : Prop := ac_ok (certs w) ∧ view_ok (ac_view (certs w)).

(** ** One event, on the rows *)

(** The identity and serial a signing request presents. *)
Definition presents (e : event) (id serial : string) (now : time) : Prop :=
  match e with
  | ESign _ inp _ (Ok req) =>
      ReqSPIFFEURI req = id ∧ ReqCurrentSerial req = serial ∧ clock inp AtGuard = now
  | _ => False
  end.

Inductive change : event → rows → Response → rows → Prop :=
  | ch_none e t resp :
      (∀ id s now, presents e id s now → status resp ≠ StatusOK) → change e t resp t
  | ch_adopted srv inp r req t resp :
      change (EAdopt srv inp r (Ok req)) t resp (spec_adopt (AdoptSPIFFEURI req) (AdoptSerial req) t)
  | ch_sign srv inp r req t resp t' :
      clock_ok (clock inp AtLock) →
      effect inp (ReqSPIFFEURI req) (ReqCurrentSerial req) (clock inp AtGuard) t resp t' →
      change (ESign srv inp r (Ok req)) t resp t'.

Lemma adopt_change srv inp r decoded (w : W) resp w' :
  ac_ok (certs w) → serve (handleAdoptX509 srv r decoded) w = (resp, w') →
  ac_ok (certs w') ∧ change (EAdopt srv inp r decoded) (ac_view (certs w)) resp (ac_view (certs w')).
Proof.
  intros Hok E. unfold serve in E. destruct (handleAdoptX509 srv r decoded w) as [out w0] eqn:Eh.
  assert (w0 = w') as -> by (destruct out; by injection E as _ <-). clear E. rename Eh into E.
  assert (∀ w1, certs w1 = certs w → w' = w1 → ac_ok (certs w') ∧
    change (EAdopt srv inp r decoded) (ac_view (certs w)) resp (ac_view (certs w'))) as Hsame.
  { intros w1 Hw ->. rewrite Hw. split; [done|]. by apply ch_none. }
  unfold handleAdoptX509 in E.
  apply hbind_cases in E as [(? & [-> _]%try_inl & _)|(req & w1 & [Hd%decodeRequest_Ok ->]%try_inr & E)];
    [by eapply Hsame|]. subst decoded.
  destruct (str_empty (AdoptSPIFFEURI req) || str_empty (AdoptSerial req)).
  { injection E as _ <-. by eapply Hsame. }
  apply hbind_cases in E as [(? & [-> _]%authenticate_spec & _)|(? & w1 & [-> _]%authenticate_spec & E)]; [by eapply Hsame|].
  destruct (negb (activeCerts srv)); [injection E as _ <-; by eapply Hsame|].
  apply hbind_cases in E as [(? & Hs & _)|(res & w1 & Hs & E)];
    apply step_certs in Hs as (res' & Hr & Hadopt & _); [done|]. injection Hr as <-.
  destruct (adopt_spec _ _ _ _ _ Hok Hadopt) as (Hok' & Hv & _).
  assert (w1 = w') as -> by (destruct res; by injection E as _ <-).
  split; [done|]. destruct res; simpl in Hv.
  - rewrite Hv. apply ch_adopted.
  - destruct Hv as [-> | ->]; [by apply ch_none|apply ch_adopted].
Qed.

Lemma exec_change e (w : W) resp w' :
  event_ok e → rows_ok w → exec e w = (resp, w') →
  ac_ok (certs w') ∧ change e (ac_view (certs w)) resp (ac_view (certs w')).
Proof.
  intros He [Hok Hview]. destruct e as [srv inp r d|srv inp r d]; simpl; [|intros E; by eapply adopt_change].
  destruct He as (Ha & Hck & Hi). intros E.
  destruct (sign_effect srv inp r d w resp w' Ha Hok Hck Hi Hview E) as (Hok' & [[Hst ->]|(req & Hd & Heff)]).
  - split; [done|]. by apply ch_none.
  - split; [done|]. rewrite Hd. apply ch_sign; [apply Hck|done].
Qed.

(** ** Rows after a change *)

Lemma spec_upsert_lookup uri cert prev (t : rows) id :
  spec_upsert (rotation uri cert prev) t !! id =
  if bool_decide (id = uri) then
    Some (match t !! uri with
          | Some old => with_lock (rotation uri cert prev) (LockedAt old) (LockedSerial old)
          | None => with_lock (rotation uri cert prev) zero_time ""
          end)
  else t !! id.
Proof.
  unfold spec_upsert. simpl. case_bool_decide as E.
  - subst. destruct (t !! uri); by rewrite lookup_insert_eq.
  - destruct (t !! uri); by rewrite lookup_insert_ne.
Qed.

Lemma spec_lock_lookup now uri serial (t : rows) id :
  spec_lock now uri serial t !! id =
  if bool_decide (id = uri) then (λ ac, with_lock ac (truncate_second now) serial) <$> t !! uri
  else t !! id.
Proof.
  unfold spec_lock. case_bool_decide as E.
  - subst. destruct (t !! uri) eqn:Et; [by rewrite lookup_insert_eq|by rewrite Et].
  - destruct (t !! uri); [by rewrite lookup_insert_ne|done].
Qed.

Lemma spec_adopt_lookup uri serial (t : rows) id :
  spec_adopt uri serial t !! id =
  if bool_decide (id = uri) && adoptable uri serial t then collapse <$> t !! uri else t !! id.
Proof.
  unfold spec_adopt. destruct (adoptable uri serial t) eqn:Ea; cycle 1.
  { by rewrite andb_false_r. }
  rewrite andb_true_r. unfold adoptable in Ea. case_bool_decide as E.
  - subst. destruct (t !! uri) eqn:Et; [by rewrite lookup_insert_eq|done].
  - destruct (t !! uri); [by rewrite lookup_insert_ne|done].
Qed.

Lemma change_view_ok e t resp t' : view_ok t → change e t resp t' → view_ok t'.
Proof.
  intros Ht Hc id ac. destruct Hc as [|srv inp r req t resp|srv inp r req t resp t' Hl Heff].
  - apply Ht.
  - rewrite spec_adopt_lookup. case_match; [|apply Ht].
    intros (old & Hold & ->)%fmap_Some. split; [by apply (Ht _ _ Hold)|apply zero_year_ok].
  - destruct Heff as [issuer cert prev rest _ _ Hok|resp cert prev rest _ _ _ Hok|resp ex _ Hex _|];
      [rewrite spec_upsert_lookup|rewrite spec_upsert_lookup|rewrite spec_lock_lookup|apply Ht];
      (case_bool_decide; [|apply Ht]).
    + intros [= <-]. by case_match.
    + intros [= <-]. by case_match.
    + intros (old & Hold & ->)%fmap_Some. apply (Ht _ _ Hold).
Qed.

Lemma exec_rows_ok e (w : W) : event_ok e → rows_ok w → rows_ok (exec e w).2.
Proof.
  intros He Hok. destruct (exec e w) as [resp w1] eqn:E.
  destruct (exec_change e w resp w1 He Hok E) as [? Hc]. split; [done|].
  eapply change_view_ok; [apply Hok|done].
Qed.

(** ** Sequences of requests *)

(** An invariant of the rows, and what it says of every response. *)
Lemma run_invariant (I : rows → Prop) (P : event → Response → Prop) es (w : W) rs w' :
  (∀ e t resp t', e ∈ es → event_ok e → I t → change e t resp t' → I t' ∧ P e resp) →
  rows_ok w → I (ac_view (certs w)) → Forall event_ok es → run_list exec es w = (rs, w') →
  rows_ok w' ∧ I (ac_view (certs w')) ∧ Forall2 P es rs.
Proof.
  intros Hstep Hok HI Hes. revert w rs Hok HI.
  induction Hes as [|e es He _ IH]; intros w rs Hok HI; simpl.
  { by intros [= <- <-]. }
  destruct (exec e w) as [resp w1] eqn:E1. destruct (run_list exec es w1) as [rs1 w2] eqn:E2.
  intros [= <- <-]. destruct (exec_change e w resp w1 He Hok E1) as [Hok1 Hc].
  destruct (Hstep e _ _ _ (list_elem_of_here _ _) He HI Hc) as [HI1 HP].
  destruct (IH (λ e' t r t' Hin, Hstep e' t r t' (list_elem_of_further _ _ _ Hin)) w1 rs1) as (? & ? & ?).
  - split; [done|]. eapply change_view_ok; [apply Hok|done].
  - done.
  - done.
  - split_and!; [done|done|by constructor].
Qed.

(** ** Locks *)

(** The identity is locked, since [at_] and on account of [serial]. *)
Definition locked_row (id : string) (at_ : time) (serial : string) (t : rows) : Prop :=
  ∃ ac, t !! id = Some ac ∧ locked ac = true ∧ LockedAt ac = at_ ∧ LockedSerial ac = serial.

Lemma locked_not_admitted id at_ serial (t : rows) presented now prev :
  locked_row id at_ serial t → ¬ admits (t !! id) presented now prev.
Proof. intros (ac & -> & Hl & _) Ha%admits_unlocked. congruence. Qed.

Lemma locked_not_clone ac presented now : locked ac = true → judge ac presented now = AlreadyLocked.
Proof. unfold judge, locked. by intros ->. Qed.

Lemma change_locked id at_ serial e t resp t' :
  locked_row id at_ serial t → change e t resp t' →
  locked_row id at_ serial t' ∧ (∀ s now, presents e id s now → status resp ≠ StatusOK).
Proof.
  intros Hlk Hc. pose proof Hlk as (ac & Hac & Hl & Hat & Hser).
  destruct Hc as [e t resp Hst|srv inp r req t resp|srv inp r req t resp t' Hclk Heff].
  - split; [done|]. intros s now. apply Hst.
  - split; [|done]. unfold locked_row. rewrite spec_adopt_lookup. case_bool_decide as E; simpl; [|done].
    subst. unfold adoptable. rewrite Hac, Hl, andb_false_r. by exists ac.
  - simpl. destruct Heff as [issuer cert prev rest _ Ha Hok|resp cert prev rest Hst _ Ha Hok|resp ex Hst Hex Hj|].
    + destruct (decide (ReqSPIFFEURI req = id)) as [E|Hne]; [subst id; destruct (locked_not_admitted _ _ _ _ _ _ _ Hlk Ha)|].
      split; [|by intros s now [? _]]. unfold locked_row. rewrite spec_upsert_lookup, bool_decide_false by done.
      by exists ac.
    + destruct (decide (ReqSPIFFEURI req = id)) as [E|Hne]; [subst id; destruct (locked_not_admitted _ _ _ _ _ _ _ Hlk Ha)|].
      split; [|by intros s now [? _]]. unfold locked_row. rewrite spec_upsert_lookup, bool_decide_false by done.
      by exists ac.
    + split; [|done]. unfold locked_row. rewrite spec_lock_lookup. case_bool_decide as E; [|by exists ac].
      subst. rewrite Hac in Hex. injection Hex as <-. by rewrite locked_not_clone in Hj.
    + split; [done|]. done.
Qed.

(** A lock is final.  Once an identity's record is locked, whatever signing
    and adoption requests follow, from whomever, for whatever identity and
    serial, before or after the record expires, and whatever the database loses:
    the record stays locked, with the instant and serial of the lock, and no
    request for the identity obtains a certificate. *)
Theorem locked_is_final id at_ serial es (w : W) rs w' :
  rows_ok w → Forall event_ok es → locked_row id at_ serial (ac_view (certs w)) →
  run_list exec es w = (rs, w') →
  locked_row id at_ serial (ac_view (certs w')) ∧
  Forall2 (λ e resp, ∀ s now, presents e id s now → status resp ≠ StatusOK) es rs.
Proof.
  intros Hok Hes Hl E.
  destruct (run_invariant (locked_row id at_ serial)
    (λ e resp, ∀ s now, presents e id s now → status resp ≠ StatusOK) es w rs w') as (_ & ? & ?);
    [|done..|by split].
  intros e t resp t' _ _. apply change_locked.
Qed.

(** ** Superseded serials *)

(** The record names neither this serial as current nor as previous. *)
Definition superseded (id s : string) (t : rows) : Prop :=
  ∃ ac, t !! id = Some ac ∧ CurrentSerial ac ≠ s ∧ PreviousSerial ac ≠ s.

(** The event does not draw this serial for a new certificate, nor present it. *)
Definition avoids (id s : string) (e : event) : Prop :=
  match e with
  | ESign _ inp _ d =>
      (∀ n rest, RandomSerial (rand inp) = Ok (n, rest) → FormatInt n ≠ s) ∧
      (∀ req, d = Ok req → ReqSPIFFEURI req = id → ReqCurrentSerial req ≠ s)
  | EAdopt _ _ _ _ => True
  end.

Lemma admits_prev row presented now prev s :
  s ≠ "" → presented ≠ s → admits row presented now prev → prev.1 ≠ s.
Proof.
  intros Hs Hp. destruct row as [ex|]; simpl; [|intros ->; simpl; congruence].
  intros [(_ & _ & -> & _)%judge_rotate|[_ ->]]; simpl; congruence.
Qed.

Lemma superseded_upsert id s uri cert prev presented now (t : rows) :
  s ≠ "" → superseded id s t → FormatInt (SerialNumber cert) ≠ s → (uri = id → presented ≠ s) →
  admits (t !! uri) presented now prev →
  superseded id s (spec_upsert (rotation uri cert prev) t).
Proof.
  intros Hs (ac & Hac & Hcur & Hprev) Hn Hp Ha. unfold superseded. rewrite spec_upsert_lookup.
  case_bool_decide as E; [|by exists ac]. subst. eexists. split; [done|].
  assert (prev.1 ≠ s) by (eapply admits_prev; [done|by apply Hp|done]).
  by case_match.
Qed.

Lemma change_superseded id s e t resp t' :
  s ≠ "" → avoids id s e → superseded id s t → change e t resp t' → superseded id s t'.
Proof.
  intros Hs Hav Hsup Hc. pose proof Hsup as (ac & Hac & Hcur & Hprev).
  destruct Hc as [e t resp Hst|srv inp r req t resp|srv inp r req t resp t' Hclk Heff]; [done|..].
  - unfold superseded. rewrite spec_adopt_lookup. case_match eqn:Eb; [|by exists ac].
    apply andb_true_iff in Eb as [->%bool_decide_eq_true _]. rewrite Hac. simpl.
    eexists. split; [done|]. simpl. done.
  - destruct Hav as [Hdraw Hpres].
    destruct Heff as [issuer cert prev rest Hn Ha Hok|resp cert prev rest Hst Hn Ha Hok|resp ex Hst Hex Hj|]; [..|done].
    + eapply superseded_upsert; [done|done|by eapply Hdraw|by apply Hpres|done].
    + eapply superseded_upsert; [done|done|by eapply Hdraw|by apply Hpres|done].
    + unfold superseded. rewrite spec_lock_lookup. case_bool_decide as E; [|by exists ac].
      subst. rewrite Hac. simpl. by eexists.
Qed.

(** C9: a superseded serial is useless.  When the record of an identity names a
    serial neither as current nor as previous, then after any sequence of other
    requests (none of which draws that serial again), a request presenting it
    obtains no certificate as long as the certificate recorded at that time has
    not expired: a thief who took a workload's key and certificate cannot renew
    once the workload has renewed twice, or renewed once and adopted. *)
Theorem superseded_serial_dead id s es (w : W) rs w1 e now resp w2 :
  rows_ok w → Forall event_ok es → s ≠ "" → superseded id s (ac_view (certs w)) →
  Forall (avoids id s) es → run_list exec es w = (rs, w1) →
  event_ok e → presents e id s now → exec e w1 = (resp, w2) →
  superseded id s (ac_view (certs w1)) ∧
  ∀ ac, ac_view (certs w1) !! id = Some ac → now ≤ CurrentNotAfter ac → status resp ≠ StatusOK.
Proof.
  intros Hok Hes Hs Hsup Hav E He Hp E2.
  destruct (run_invariant (superseded id s) (λ _ _, True) es w rs w1) as (Hok1 & Hsup1 & _); [|done..|].
  { intros e' t r t' Hin _ Ht Hc. split; [|done]. rewrite Forall_forall in Hav.
    by eapply change_superseded; [|apply Hav| |]. }
  split; [done|]. destruct Hsup1 as (ac & Hac & Hcur & Hprev).
  intros ac' Hac' Hnow. rewrite Hac in Hac'. injection Hac' as <-.
  destruct (exec_change e w1 resp w2 He Hok1 E2) as [_ Hc].
  destruct Hc as [e t resp Hst|srv inp r req t resp|srv inp r req t resp t' Hclk Heff];
    [by eapply Hst|done|]. destruct Hp as (<- & <- & <-).
  destruct Heff as [issuer cert prev rest Hn Ha _|resp cert prev rest Hst _ _ _|resp ex Hst _ _|resp Hst];
    [|by rewrite Hst|done|done].
  rewrite Hac in Ha. destruct Ha as [(_ & _ & _ & [[Hx _]|(_ & Hx & _)])%judge_rotate|[[_ Hx]%judge_reenroll _]];
    [congruence|congruence|lia].
Qed.

(** ** An agent that renews one request at a time *)

(** The agent holds a serial the record knows, and is not locked. *)
Definition in_step (id h : string) (t : rows) : Prop :=
  h ≠ "" ∧ ∃ ac, t !! id = Some ac ∧ locked ac = false ∧ (CurrentSerial ac = h ∨ PreviousSerial ac = h).

(** The serial held after a response that was delivered, or was not. *)
Definition received (delivered : bool) (resp : Response) (h : string) : string :=
  if delivered && (status resp =? StatusOK)
  then match payload resp with BX509 x => X509Serial x | _ => h end else h.

Definition elsewhere (id : string) (e : event) : Prop :=
  match e with
  | ESign _ _ _ (Ok req) => ReqSPIFFEURI req ≠ id
  | EAdopt _ _ _ (Ok req) => AdoptSPIFFEURI req ≠ id
  | _ => True
  end.

Definition adopts (e : event) (id serial : string) : Prop :=
  match e with
  | EAdopt _ _ _ (Ok req) => AdoptSPIFFEURI req = id ∧ AdoptSerial req = serial
  | _ => False
  end.

(** The agent of [id] sends its requests one after the other, presenting what it
    holds; any response may fail to reach it; other identities' requests come in
    between. *)
Inductive agent_run (id : string) : string → W → string → W → Prop :=
  | ar_done h w : agent_run id h w h w
  | ar_other h w e resp w1 h' w' :
      event_ok e → elsewhere id e → exec e w = (resp, w1) →
      agent_run id h w1 h' w' → agent_run id h w h' w'
  | ar_renew h w e now resp w1 delivered h' w' :
      event_ok e → presents e id h now → exec e w = (resp, w1) →
      agent_run id (received delivered resp h) w1 h' w' → agent_run id h w h' w'
  | ar_adopt h w e resp w1 h' w' :
      event_ok e → adopts e id h → exec e w = (resp, w1) →
      agent_run id h w1 h' w' → agent_run id h w h' w'.

Lemma in_step_rotates (id h : string) ac now :
  h ≠ "" → locked ac = false → CurrentSerial ac = h ∨ PreviousSerial ac = h →
  ∃ na, judge ac h now = Rotate h na.
Proof.
  unfold judge, locked, str_empty. intros Hh -> Hs. rewrite bool_decide_false by done. simpl.
  destruct Hs as [<-|<-].
  - rewrite bool_decide_true by done. by eexists.
  - rewrite (bool_decide_true (PreviousSerial ac = PreviousSerial ac)), orb_true_r by done. by eexists.
Qed.

Lemma in_step_elsewhere (id h : string) e t resp t' :
  elsewhere id e → in_step id h t → change e t resp t' → in_step id h t'.
Proof.
  intros He [Hh (ac & Hac & Hl & Hs)] Hc. split; [done|]. exists ac. split; [|done].
  destruct Hc as [e t resp Hst|srv inp r req t resp|srv inp r req t resp t' Hclk Heff]; simpl in He; [done|..].
  - rewrite spec_adopt_lookup, bool_decide_false by done. done.
  - destruct Heff; rewrite ?spec_upsert_lookup, ?spec_lock_lookup, ?bool_decide_false by done; done.
Qed.

Lemma in_step_adopt (id h : string) e t resp t' :
  adopts e id h → in_step id h t → change e t resp t' → in_step id h t'.
Proof.
  intros He Hin Hc. pose proof Hin as [Hh (ac & Hac & Hl & Hs)].
  destruct Hc as [e t resp Hst|srv inp r req t resp|srv inp r req t resp t' Hclk Heff]; [done| |done].
  destruct He as [<- <-]. split; [done|]. rewrite spec_adopt_lookup, bool_decide_true by done. simpl.
  unfold adoptable. rewrite Hac. case_bool_decide as Hcur; simpl; [|by exists ac].
  rewrite Hl. simpl. eexists. split; [done|]. split; [done|]. by left.
Qed.

Lemma in_step_upsert (id h new : string) cert prev (t : rows) ac :
  t !! id = Some ac → locked ac = false → FormatInt (SerialNumber cert) ≠ "" →
  new ≠ "" → new = FormatInt (SerialNumber cert) ∨ new = prev.1 →
  in_step id new (spec_upsert (rotation id cert prev) t).
Proof.
  intros Hac Hl Hn Hne Hnew. split; [done|]. rewrite spec_upsert_lookup, bool_decide_true by done.
  rewrite Hac. eexists. split; [done|]. split; [exact Hl|]. simpl. destruct Hnew as [->| ->]; [by left|by right].
Qed.

Lemma in_step_renew (id h : string) e now t resp t' delivered :
  presents e id h now → in_step id h t → change e t resp t' →
  in_step id (received delivered resp h) t'.
Proof.
  intros Hp Hin Hc. pose proof Hin as [Hh (ac & Hac & Hl & Hs)].
  destruct (in_step_rotates id h ac now Hh Hl Hs) as [na Hj].
  assert (∀ resp t', status resp ≠ StatusOK → in_step id h t' →
    in_step id (received delivered resp h) t') as Hkeep.
  { intros resp0 t0 Hst Hi. unfold received. apply Z.eqb_neq in Hst. by rewrite Hst, andb_false_r. }
  destruct Hc as [e t resp Hst|srv inp r req t resp|srv inp r req t resp t' Hclk Heff];
    [apply Hkeep; [by eapply Hst|done]|done|]. destruct Hp as (<- & <- & <-).
  assert (∀ prev, admits (t !! ReqSPIFFEURI req) (ReqCurrentSerial req) (clock inp AtGuard) prev →
    prev = (ReqCurrentSerial req, na)) as Hprev.
  { intros [s' na']. rewrite Hac. unfold admits. rewrite Hj. by intros [[= <- <-]|[[=] _]]. }
  destruct Heff as [issuer cert prev rest Hn Ha _|resp cert prev rest Hst Hn Ha _|resp ex Hst Hex Hj'|resp Hst].
  - rewrite (Hprev prev Ha). apply RandomSerial_range in Hn.
    assert (FormatInt (SerialNumber cert) ≠ "") as Hne by (apply FormatInt_nonempty; lia).
    unfold received. simpl. destruct delivered; simpl; eapply in_step_upsert; try done; [by left|by right].
  - rewrite (Hprev prev Ha). apply RandomSerial_range in Hn. apply Hkeep; [by rewrite Hst|].
    assert (FormatInt (SerialNumber cert) ≠ "") as Hne by (apply FormatInt_nonempty; lia).
    eapply in_step_upsert; try done. by right.
  - rewrite Hac in Hex. injection Hex as <-. congruence.
  - by apply Hkeep.
Qed.

(** An agent that renews one request at a time is never taken for a clone.
    From the moment it holds a serial the record knows, through any number of its
    renewals and adoptions, with other identities' requests in between, whatever
    responses are lost on the way and whatever the database loses: its identity is
    never locked, and the serial it holds is always current or previous, so the
    guard will admit its next renewal, at any time. *)
Theorem honest_agent_in_step (id h : string) (w : W) (h' : string) w' :
  rows_ok w → in_step id h (ac_view (certs w)) → agent_run id h w h' w' →
  in_step id h' (ac_view (certs w')) ∧
  ∀ now, ∃ prev, admits (ac_view (certs w') !! id) h' now prev.
Proof.
  intros Hok Hin Hrun.
  assert (in_step id h' (ac_view (certs w'))) as Hend.
  { assert (∀ e w1 w2 resp, rows_ok w1 → event_ok e → exec e w1 = (resp, w2) →
      change e (ac_view (certs w1)) resp (ac_view (certs w2)) ∧ rows_ok w2) as Hstep.
    { intros e w1 w2 resp Hok1 He E. destruct (exec_change e w1 resp w2 He Hok1 E) as [? Hc].
      split; [done|]. split; [done|]. eapply change_view_ok; [apply Hok1|done]. }
    induction Hrun as [h w|h w e resp w1 h' w' He Hel E _ IH|h w e now resp w1 d h' w' He Hp E _ IH|
      h w e resp w1 h' w' He Had E _ IH]; [done|..];
      destruct (Hstep _ _ _ _ Hok He E) as [Hc Hok1]; apply IH; try done.
    - by eapply in_step_elsewhere.
    - by eapply in_step_renew.
    - by eapply in_step_adopt. }
  split; [done|]. intros now. destruct Hend as [Hh (ac & Hac & Hl & Hs)].
  destruct (in_step_rotates id h' ac now Hh Hl Hs) as [na Hj]. exists (h', na).
  rewrite Hac. by left.
Qed.
End Protocol.

(** ** Instances: one workload, the database store, an X.509 library that signs
    the leaves of that workload *)
Module GuardExamples.
Import X509Examples.

Definition T : time := 1700000000 * ns_per_sec.
Definition web : string := "spiffe://corp/web".
Definition leaf_t (n : Z) : X509Engine.Certificate :=
  template n web T (time_add T hour) 1 [ExtKeyUsageClientAuth; ExtKeyUsageServerAuth]
    false false 0 [] [] [spiffe].

#[local] Instance lib : X509Lib := {|
  url_parse s := if bool_decide (s = web) then Ok spiffe else Err (ErrNew "url");
  CreateCertificate _ t _ p _ :=
    if bool_decide (t = leaf_t (SerialNumber t) ∧ p = pub "k" ∧ 0 ≤ SerialNumber t < 2^63)
    then Ok (FormatInt (SerialNumber t)) else Err (ErrNew "toy");
  ParseCertificate d := n <-r ParseInt d;; Ok (parsed (leaf_t n) "k" d);
  CheckSignatureFrom a b := false;
|}.

#[local] Instance lib_laws : X509Laws.
Proof.
  split. intros rnd t parent p s der c. simpl.
  case_bool_decide as Hb; [|done]. destruct Hb as (Ht & -> & Hn). intros [= <-].
  unfold ParseInt. rewrite ParseInt_FormatInt by (unfold int64_ok; lia). intros [= <-]. by rewrite Ht.
Qed.

#[local] Instance crypto : CryptoLib := {|
  public_of k := mkPublicKey (priv_algo k) (priv_bytes k);
  raw_sign k m := Ok m;
  can_sign k := true;
  pem_decode s := Some ("PUBLIC KEY", s);
  pem_encode ty b := b;
  ParsePKCS8PrivateKey b := Ok (mkPrivateKey Ed25519 b);
|}.
#[local] Instance pkix : PkixLib := {| ParsePKIXPublicKey b := Ok (mkPublicKey Ed25519 b) |}.

Definition issuer : X509Engine.Certificate :=
  parsed (template 7 "inter" 0 (time_add T (100 * hour)) 97 [] true true 0 [] [] []) "ca" "CA".

Definition srv : Server Policy.InMemoryStore.t Mtls.InMemoryStore.t :=
  mkServer (signer "ca") (signer "ca") (Some issuer) None "" "" None None None true true true "v1".

(** The request that draws serial [n], with the clock at [T]. *)
Definition inp (n : nat) : Inputs :=
  mkInputs (λ _, T) (String.concat "" (repeat (String (ascii_of_nat 0) "") 15) +:+ String (ascii_of_nat n) "") "id".
Definition req : Request := mkRequest (λ _, "") "10.0.0.1:99" None.
Definition renew (n : nat) (presented : string) : event (PS:=Policy.InMemoryStore.t) (MS:=Mtls.InMemoryStore.t) :=
  ESign srv (inp n) req (Ok (mkSignX509 "k" web "" [] [] 0 presented)).

Abbreviation world := (World (db (list ActiveCertRow)) unit) (only parsing).
Definition w0 : world := mkWorld (mkDb [] []) () [].
Definition enrolled : world := (exec (renew 1 "") w0).2.

Lemma renew_ok n presented : event_ok (renew n presented).
Proof. split; [done|]. split; [split; split; by vm_compute|]. intros c [= <-]. by vm_compute. Qed.

Lemma enrolled_ok : rows_ok enrolled.
Proof.
  apply exec_rows_ok; [apply renew_ok|]. split; [by repeat constructor|].
  intros id ac Hac. assert (ac_view (certs w0) = ∅) as E by done. by rewrite E, lookup_empty in Hac.
Qed.

Lemma honest_agent_in_step_witness :
  in_step web "2" (ac_view (certs (exec (renew 2 "1") enrolled).2)).
Proof.
  apply (honest_agent_in_step (PS:=Policy.InMemoryStore.t) (MS:=Mtls.InMemoryStore.t) web "1" enrolled "2" (exec (renew 2 "1") enrolled).2).
  - exact enrolled_ok.
  - split; [done|]. eexists. split; [by vm_compute|]. split; [by vm_compute|]. by left.
  - eapply (ar_renew web "1" enrolled (renew 2 "1") T _ _ true); [apply renew_ok|done|apply surjective_pairing|].
    replace (received true (exec (renew 2 "1") enrolled).1 "1") with "2" by (by vm_compute). constructor.
Defined.

Definition renewal (w : world) : Response * world :=
  serve (handleSignX509WorkloadCert srv (inp 2) req (Ok (mkSignX509 "k" web "" [] [] 0 "1"))) w.

Lemma x509_cert_issued_witness :
  ∃ cert prev, (renewal enrolled).1 = x509_response issuer cert web ∧
    NotAfter cert ≤ NotAfter issuer ∧
    ac_view (certs (renewal enrolled).2) =
      spec_upsert (rotation web cert prev) (ac_view (certs enrolled)).
Proof.
  destruct enrolled_ok as [Hok Hview].
  destruct (x509_cert_issued srv (inp 2) req (Ok (mkSignX509 "k" web "" [] [] 0 "1")) enrolled
    (renewal enrolled).1 (renewal enrolled).2)
    as (q & k & i & caller & cert & prev & Hq & Hi & _ & _ & _ & Hr & Hc & _ & Hg & _).
  - done.
  - exact Hok.
  - apply (renew_ok 2 "1").
  - apply (renew_ok 2 "1").
  - exact Hview.
  - apply surjective_pairing.
  - by vm_compute.
  - injection Hq as <-. injection Hi as <-. exists cert, prev. split; [exact Hr|].
    split; [apply Hc|]. exact (proj2 (Hg eq_refl)).
Defined.

(** A serial nobody issued locks the identity. *)
Definition stolen : world := (exec (renew 2 "99") enrolled).2.

Lemma locked_is_final_witness :
  locked_row web T "99" (ac_view (certs (exec (renew 3 "1") stolen).2)).
Proof.
  destruct (locked_is_final web T "99" [renew 3 "1"] stolen [(exec (renew 3 "1") stolen).1]
    (exec (renew 3 "1") stolen).2) as [H _].
  - apply exec_rows_ok; [apply renew_ok|exact enrolled_ok].
  - constructor; [apply renew_ok|constructor].
  - eexists. split; [by vm_compute|]. split_and!; by vm_compute.
  - apply run_list_single.
  - exact H.
Defined.

(** Two renewals later the first serial is dead. *)
Definition moved_on : world := (exec (renew 3 "2") (exec (renew 2 "1") enrolled).2).2.

Lemma superseded_serial_dead_witness :
  status (exec (renew 4 "1") moved_on).1 ≠ StatusOK.
Proof.
  destruct (superseded_serial_dead web "1" [] moved_on [] moved_on (renew 4 "1") T
    (exec (renew 4 "1") moved_on).1 (exec (renew 4 "1") moved_on).2) as [_ H].
  - apply exec_rows_ok; [apply renew_ok|]. apply exec_rows_ok; [apply renew_ok|exact enrolled_ok].
  - constructor.
  - done.
  - eexists. split; [by vm_compute|]. split; by vm_compute.
  - constructor.
  - done.
  - apply renew_ok.
  - done.
  - apply surjective_pairing.
  - eapply H; [by vm_compute|by vm_compute].
Defined.

(** A request that arrives twice, the copy after the reply to the original was
    delivered: the copy moves the record on, the agent's next renewal presents a
    serial that is neither current nor previous, and its identity is locked. *)
Lemma duplicate_locks_agent :
  let '(resp2, w2) := exec (renew 2 "1") enrolled in
  let '(_, w3) := exec (renew 3 "1") w2 in
  let '(resp4, w4) := exec (renew 4 (received true resp2 "1")) w3 in
  status resp2 = StatusOK ∧ status resp4 = StatusForbidden ∧
  locked_row web T "2" (ac_view (certs w4)).
Proof. vm_compute. split; [done|]. split; [done|]. eexists. by split_and!. Qed.
End GuardExamples.
