(* ===== verification/Threads.v ===== *)
(** * Threads: requests that take turns on a shared state

    A handler that reaches a database several times is not atomic: the server runs
    every request in a goroutine of its own, and between two of its statements any
    statement of another request may run.  A [thread] is a handler cut at those
    points; a [pool] is what is in flight at one time; a schedule is a list of turns,
    so every interleaving of the requests is a schedule, and an example can name its
    own.  [alone] runs a thread with nobody else about.

    Two ways to reason about a pool: [respects], for what every thread keeps
    whatever the others do, and [owns], for a thread with a part of the state to
    itself, which the others are shown to leave alone. *)

From S2P Require Import Prelude Http.

(** A finished thread, or a step on the shared state and what it reads from it. *)
Inductive thread (W E A : Type) :=
  | Done (out : E + A)
  | Turn (effect : W → W) (next : W → thread W E A).
Arguments Done {W E A} out.
Arguments Turn {W E A} effect next.

Section Operations.
Context {W E : Type}.

Definition tret {A} (a : A) : thread W E A := Done (inr a).

(** A piece of a handler that no other request can interrupt. *)
Definition atomic {A} (h : Handler W E A) : thread W E A :=
  Turn (λ w, (h w).2) (λ w, Done (h w).1).

Fixpoint tbind {A B} (t : thread W E A) (k : A → thread W E B) : thread W E B :=
  match t with
  | Done (inl e) => Done (inl e)
  | Done (inr a) => k a
  | Turn f n => Turn f (λ w, tbind (n w) k)
  end.

(** The outcome as a value, for a caller that goes on after an early return. *)
Fixpoint settle {A} (t : thread W E A) : thread W E (E + A) :=
  match t with
  | Done out => Done (inr out)
  | Turn f n => Turn f (λ w, settle (n w))
  end.

Fixpoint alone {A} (t : thread W E A) : Handler W E A :=
  match t with
  | Done out => λ w, (out, w)
  | Turn f n => λ w, alone (n w) (f w)
  end.

(** The thread has at most this many turns left. *)
Inductive within {A} : nat → thread W E A → Prop :=
  | within_done n out : within n (Done out)
  | within_turn n f nx : (∀ w, within n (nx w)) → within (S n) (Turn f nx).

Record pool (A : Type) := mkPool { threads : list (thread W E A); shared : W }.
Arguments mkPool {A}.
Arguments threads {A} _.
Arguments shared {A} _.

(** A turn of thread [i]; a finished thread has none left. *)
Definition turn {A} (p : pool A) (i : nat) : pool A :=
  match threads p !! i with
  | Some (Turn f n) => mkPool (<[i := n (shared p)]> (threads p)) (f (shared p))
  | _ => p
  end.

Definition interleave {A} (sched : list nat) (p : pool A) : pool A := foldl turn p sched.

(** How often thread [i] is scheduled. *)
Definition turns_of (i : nat) (sched : list nat) : nat := length (filter (.= i) sched).
End Operations.
Arguments pool : clear implicits.
Arguments mkPool {W E A}.
Arguments threads {W E A} _.
Arguments shared {W E A} _.

Notation "x <-t m ;; k" := (tbind m (λ x, k))
  (at level 100, m at next level, right associativity) : ca_scope.
Notation "'tdo' m ;; k" := (tbind m (λ _, k))
  (at level 100, m at next level, right associativity) : ca_scope.

(** ** A thread alone is its handler *)
Section Alone.
Context {W E : Type}.

Lemma alone_atomic {A} (h : Handler W E A) w : alone (atomic h) w = h w.
Proof. simpl. by destruct (h w). Qed.

Lemma alone_bind {A B} (t : thread W E A) (k : A → thread W E B) w :
  alone (tbind t k) w = hbind (alone t) (λ a, alone (k a)) w.
Proof.
  revert w. induction t as [[e|a]|f n IH]; intros w; simpl; [done|done|].
  rewrite IH. unfold hbind. done.
Qed.

Lemma hbind_ext {A B} (m1 m2 : Handler W E A) (k1 k2 : A → Handler W E B) w :
  m1 w = m2 w → (∀ a w', m1 w = (inr a, w') → k1 a w' = k2 a w') → hbind m1 k1 w = hbind m2 k2 w.
Proof. unfold hbind. intros <- Hk. destruct (m1 w) as [[e|a] w']; [done|]. by apply Hk. Qed.

Lemma hbind_assoc {A B C} (m : Handler W E A) (k : A → Handler W E B) (l : B → Handler W E C) w :
  hbind (hbind m k) l w = hbind m (λ a, hbind (k a) l) w.
Proof. unfold hbind. by destruct (m w) as [[e|a] w']. Qed.
End Alone.

(** ** What every thread respects *)
Section Keeps.
Context {W E : Type}.

(** From a state with [I], a turn keeps [I] and relates its two states by [G];
    what the thread ends with satisfies [Q]. *)
Inductive respects (I : W → Prop) (G : W → W → Prop) {A} (Q : E + A → Prop) : thread W E A → Prop :=
  | respects_done out : Q out → respects I G Q (Done out)
  | respects_turn f n :
      (∀ w, I w → I (f w) ∧ G w (f w)) → (∀ w, I w → respects I G Q (n w)) → respects I G Q (Turn f n).

(** No guarantee but the invariant. *)
Definition free : W → W → Prop := λ _ _, True.

#[export] Instance free_preorder : PreOrder free.
Proof. by split. Qed.

Context (I : W → Prop) (G : W → W → Prop).

Lemma respects_atomic {A} (h : Handler W E A) (Q : E + A → Prop) :
  (∀ w out w', I w → h w = (out, w') → I w' ∧ G w w' ∧ Q out) → respects I G Q (atomic h).
Proof.
  intros Hh. constructor; intros w Hw; destruct (h w) as [out w'] eqn:Eh;
    destruct (Hh _ _ _ Hw Eh) as (? & ? & ?); [done|by constructor].
Qed.

Lemma respects_bind {A B} (Q : E + A → Prop) (P : E + B → Prop) (t : thread W E A) (k : A → thread W E B) :
  respects I G Q t → (∀ e, Q (inl e) → P (inl e)) → (∀ a, Q (inr a) → respects I G P (k a)) →
  respects I G P (tbind t k).
Proof.
  intros Ht He Ha. induction Ht as [[e|a] Hq|f n Hf _ IH]; simpl; [constructor; auto|auto|].
  by constructor.
Qed.

Lemma respects_mono {A} (Q P : E + A → Prop) (t : thread W E A) :
  (∀ out, Q out → P out) → respects I G Q t → respects I G P t.
Proof. intros HQ Ht. induction Ht; constructor; auto. Qed.

Lemma respects_weaken {A} (G1 : W → W → Prop) (Q : E + A → Prop) (t : thread W E A) :
  (∀ w w', G1 w w' → G w w') → respects I G1 Q t → respects I G Q t.
Proof.
  intros HG Ht. induction Ht as [out Hq|f n Hf _ IH]; constructor; [done| |done].
  intros w Hw. destruct (Hf w Hw). auto.
Qed.

Lemma respects_settle {A} (Q : E + A → Prop) (t : thread W E A) :
  respects I G Q t → respects I G (λ out, ∃ x, out = inr x ∧ Q x) (settle t).
Proof. intros Ht. induction Ht as [out Hq|f n Hf _ IH]; constructor; [by exists out|done|done]. Qed.

(** A property that the guarantee preserves may join the invariant. *)
Lemma respects_conj {A} (K : W → Prop) (Q : E + A → Prop) (t : thread W E A) :
  (∀ w w', K w → G w w' → K w') → respects I G Q t → respects (λ w, I w ∧ K w) G Q t.
Proof.
  intros HK Ht. induction Ht as [out Hq|f n Hf _ IH]; constructor; [done|..]; intros w [Hw Hkw].
  - destruct (Hf w Hw). eauto.
  - auto.
Qed.

(** Whatever the schedule, the invariant holds, every thread goes on respecting it,
    and the states before and after are related. *)
Lemma respects_interleave `{!PreOrder G} {A} (Q : nat → E + A → Prop) sched (p : pool W E A) :
  I (shared p) → (∀ i t, threads p !! i = Some t → respects I G (Q i) t) →
  let p' := interleave sched p in
  I (shared p') ∧ G (shared p) (shared p') ∧
  (∀ i t, threads p' !! i = Some t → respects I G (Q i) t).
Proof.
  revert p. induction sched as [|j sched IH]; intros p HI Hts; simpl.
  { split_and!; [done|reflexivity|done]. }
  unfold turn. destruct (threads p !! j) as [[out|f n]|] eqn:Ej; [by apply IH| |by apply IH].
  pose proof (Hts _ _ Ej) as Hj. inversion_clear Hj as [|? ? Hf Hn].
  destruct (Hf _ HI) as [HI' HG].
  destruct (IH (mkPool (<[j := n (shared p)]> (threads p)) (f (shared p)))) as (H1 & H2 & H3); simpl.
  - done.
  - intros i t [(-> & <- & _)|(_ & Ht)]%list_lookup_insert_Some; [by apply Hn|by apply Hts].
  - split_and!; [done| |done]. by transitivity (f (shared p)).
Qed.
End Keeps.

(** ** Schedules *)
Section Schedules.
Context {W E A : Type}.

Lemma interleave_app s1 s2 (p : pool W E A) : interleave (s1 ++ s2) p = interleave s2 (interleave s1 p).
Proof. apply foldl_app. Qed.

Lemma turn_other i j (p : pool W E A) : j ≠ i → threads (turn p j) !! i = threads p !! i.
Proof.
  intros Hne. unfold turn. destruct (threads p !! j) as [[out|f n]|]; [done| |done]. simpl.
  by rewrite list_lookup_insert_ne.
Qed.

(** A thread that was never scheduled is as it was. *)
Lemma interleave_idle i sched (p : pool W E A) :
  turns_of i sched = 0%nat → threads (interleave sched p) !! i = threads p !! i.
Proof.
  unfold turns_of. revert p. induction sched as [|j sched IH]; intros p; simpl; [done|].
  rewrite filter_cons. case_decide as Hij; [done|]. intros Hs. by rewrite IH, turn_other.
Qed.
End Schedules.

(** ** Termination *)
Section Within.
Context {W E : Type}.

Lemma within_mono {A} n m (t : thread W E A) : (n ≤ m)%nat → within n t → within m t.
Proof.
  intros Hle Ht. revert m Hle. induction Ht as [|n f nx _ IH]; intros m Hle; [constructor|].
  destruct m as [|m]; [by apply Nat.nle_succ_0 in Hle|]. constructor. intros w. apply IH.
  by apply le_S_n.
Qed.

Lemma within_atomic {A} (h : Handler W E A) : within 1 (atomic h).
Proof. constructor. intros w. constructor. Qed.

Lemma within_bind {A B} n m (t : thread W E A) (k : A → thread W E B) :
  within n t → (∀ a, within m (k a)) → within (n + m) (tbind t k).
Proof.
  intros Ht Hk. induction Ht as [n [e|a]|n f nx _ IH]; simpl.
  - constructor.
  - eapply within_mono, Hk. apply Nat.le_add_l.
  - by constructor.
Qed.

Lemma within_settle {A} n (t : thread W E A) : within n t → within n (settle t).
Proof. induction 1; by constructor. Qed.

(** A thread scheduled that often has finished, whatever the others do. *)
Lemma within_interleave {A} i n sched (p : pool W E A) t :
  threads p !! i = Some t → within n t → (n ≤ turns_of i sched)%nat →
  ∃ out, threads (interleave sched p) !! i = Some (Done out).
Proof.
  revert n p t. induction sched as [|j sched IH]; intros n p t Ht Hw Hle; unfold turns_of in Hle; simpl in *.
  { apply Nat.le_0_r in Hle. subst. inversion Hw. subst. by eexists. }
  rewrite filter_cons in Hle. case_decide as Hij.
  - subst j. unfold turn. rewrite Ht. destruct t as [out|f nx].
    { eapply (IH 0%nat); [done|constructor|apply Nat.le_0_l]. }
    inversion Hw as [|m ? ? Hnx]; subst. eapply (IH m); simpl.
    + apply list_lookup_insert_eq. by eapply lookup_lt_Some.
    + apply Hnx.
    + by apply le_S_n.
  - eapply (IH n); [|done|done]. by rewrite turn_other.
Qed.
End Within.

(** ** A thread with a part of the state to itself *)
Section Owns.
Context {W E O : Type} (I : W → Prop) (own : W → O) (J : O → Prop).

(** With [o] in the owned part, each turn leaves [J] there, and the thread ends
    with [Q] of its outcome and what it leaves. *)
Inductive owns {A} (Q : E + A → O → Prop) : thread W E A → O → Prop :=
  | owns_done out o : J o → Q out o → owns Q (Done out) o
  | owns_turn f n o : J o →
      (∀ w, I w → own w = o → I (f w)) → (∀ w, I w → own w = o → owns Q (n w) (own (f w))) →
      owns Q (Turn f n) o.

Lemma owns_now {A} (Q : E + A → O → Prop) t o : owns Q t o → J o.
Proof. by destruct 1. Qed.

Lemma owns_atomic {A} (h : Handler W E A) (Q : E + A → O → Prop) o :
  J o → (∀ w out w', I w → own w = o → h w = (out, w') → I w' ∧ J (own w') ∧ Q out (own w')) →
  owns Q (atomic h) o.
Proof.
  intros Ho Hh. constructor; [done|..]; intros w Hw Hown; destruct (h w) as [out w'] eqn:Eh;
    destruct (Hh _ _ _ Hw Hown Eh) as (? & ? & ?); [done|by constructor].
Qed.

Lemma owns_bind {A B} (Q : E + A → O → Prop) (P : E + B → O → Prop) t (k : A → thread W E B) o :
  owns Q t o → (∀ e o', J o' → Q (inl e) o' → P (inl e) o') →
  (∀ a o', J o' → Q (inr a) o' → owns P (k a) o') → owns P (tbind t k) o.
Proof.
  intros Ht He Ha. induction Ht as [[e|a] o Ho Hq|f n o Ho Hf _ IH]; simpl; [constructor; auto|auto|].
  by constructor.
Qed.

Lemma owns_mono {A} (Q P : E + A → O → Prop) t o :
  (∀ out o', J o' → Q out o' → P out o') → owns Q t o → owns P t o.
Proof. intros HQ Ht. induction Ht; constructor; auto. Qed.

Lemma owns_settle {A} (Q : E + A → O → Prop) t o :
  owns Q t o → owns (λ out o', ∃ x, out = inr x ∧ Q x o') (settle t) o.
Proof. intros Ht. induction Ht as [out o Ho Hq|f n o Ho Hf _ IH]; constructor; [done|by exists out|done..]. Qed.

(** Among threads that leave the owned part alone, the owner finds what it left. *)
Lemma owns_interleave {A} (Q : E + A → O → Prop) i sched (p : pool W E A) t :
  I (shared p) → threads p !! i = Some t → owns Q t (own (shared p)) →
  (∀ j t', j ≠ i → threads p !! j = Some t' → respects I (λ w w', own w' = own w) (λ _, True) t') →
  let p' := interleave sched p in
  I (shared p') ∧ ∃ t', threads p' !! i = Some t' ∧ owns Q t' (own (shared p')).
Proof.
  revert p t. induction sched as [|j sched IH]; intros p t HI Ht Hown Hoth; simpl.
  { split; [done|]. by exists t. }
  unfold turn. destruct (threads p !! j) as [[out|f n]|] eqn:Ej; [by eapply IH| |by eapply IH].
  destruct (decide (j = i)) as [->|Hne].
  - rewrite Ht in Ej. injection Ej as ->. inversion Hown as [|? ? ? _ Hf Hn]; subst.
    eapply IH; simpl.
    + by apply Hf.
    + apply list_lookup_insert_eq. by eapply lookup_lt_Some.
    + by apply Hn.
    + intros l t' Hl. rewrite list_lookup_insert_ne by done. by apply Hoth.
  - pose proof (Hoth _ _ Hne Ej) as Hj. inversion_clear Hj as [|? ? Hf Hn].
    destruct (Hf _ HI) as [HI' Heq]. eapply IH; simpl.
    + done.
    + by rewrite list_lookup_insert_ne.
    + by rewrite Heq.
    + intros l t' Hl [(-> & <- & _)|(_ & Hl')]%list_lookup_insert_Some; [by apply Hn|by eapply Hoth].
Qed.

(** The owner has at most this many turns left. *)
Inductive ends_in {A} : nat → thread W E A → O → Prop :=
  | ends_done n out o : ends_in n (Done out) o
  | ends_turn n f nx o :
      (∀ w, I w → own w = o → ends_in n (nx w) (own (f w))) → ends_in (S n) (Turn f nx) o.

Lemma within_ends {A} n (t : thread W E A) o : within n t → ends_in n t o.
Proof. intros Ht. revert o. induction Ht; constructor; auto. Qed.

Lemma ends_mono {A} n m (t : thread W E A) o : (n ≤ m)%nat → ends_in n t o → ends_in m t o.
Proof.
  intros Hle Ht. revert m Hle. induction Ht as [n out o|n f nx o _ IH]; intros m Hle; [constructor|].
  destruct m as [|m]; [by apply Nat.nle_succ_0 in Hle|]. constructor. intros w Hw Ho.
  apply IH; [done|done|by apply le_S_n].
Qed.

Lemma ends_bind {A B} (Q : E + A → O → Prop) n m t (k : A → thread W E B) o :
  owns Q t o → ends_in n t o → (∀ a o', J o' → Q (inr a) o' → ends_in m (k a) o') →
  ends_in (n + m) (tbind t k) o.
Proof.
  intros Ht He Hk. induction He as [n [e|a] o|n f nx o _ IH]; simpl; [constructor|..].
  - inversion_clear Ht. eapply ends_mono; [apply Nat.le_add_l|by apply Hk].
  - inversion_clear Ht as [|? ? ? ? _ Hn]. constructor. intros w Hw Ho. apply IH; [done|done|]. by apply Hn.
Qed.

(** An owner scheduled that often has finished. *)
Lemma ends_interleave {A} (Q : E + A → O → Prop) i n sched (p : pool W E A) t :
  I (shared p) → threads p !! i = Some t → owns Q t (own (shared p)) → ends_in n t (own (shared p)) →
  (∀ j t', j ≠ i → threads p !! j = Some t' → respects I (λ w w', own w' = own w) (λ _, True) t') →
  (n ≤ turns_of i sched)%nat → ∃ out, threads (interleave sched p) !! i = Some (Done out).
Proof.
  revert n p t. induction sched as [|j sched IH]; intros n p t HI Ht Hown Hend Hoth Hle.
  { apply Nat.le_0_r in Hle. subst n. inversion Hend. subst. by eexists. }
  unfold turns_of in Hle. rewrite filter_cons in Hle. simpl interleave. case_decide as Hij.
  - subst j. unfold turn. rewrite Ht. destruct t as [out|f nx].
    { apply (IH 0%nat p (Done out)); [done|done|done|constructor|done|apply Nat.le_0_l]. }
    inversion Hown as [|? ? ? _ Hf Hn]; subst. inversion Hend as [|m ? ? ? He]; subst.
    apply (IH m _ (nx (shared p))); simpl.
    + by apply Hf.
    + apply list_lookup_insert_eq. by eapply lookup_lt_Some.
    + by apply Hn.
    + by apply He.
    + intros l t' Hl. rewrite list_lookup_insert_ne by done. by apply Hoth.
    + by apply le_S_n.
  - unfold turn. destruct (threads p !! j) as [[out|f nx]|] eqn:Ej; [by eapply IH| |by eapply IH].
    pose proof (Hoth _ _ Hij Ej) as Hj. inversion_clear Hj as [|? ? Hf Hn].
    destruct (Hf _ HI) as [HI' Heq]. apply (IH n _ t); simpl.
    + done.
    + by rewrite list_lookup_insert_ne.
    + by rewrite Heq.
    + by rewrite Heq.
    + intros l t' Hl [(-> & <- & _)|(_ & Hl')]%list_lookup_insert_Some; [by apply Hn|by eapply Hoth].
    + done.
Qed.
End Owns.
