(* ===== verification/Interleave.v ===== *)
(** * Interleave: requests in flight together

    The server runs every request in a goroutine of its own, and the signing
    endpoint ([internal/server/api/sign_x509.go]) reaches the active-cert store more
    than once: it reads the record, decides, signs, and writes the record, or locks
    it.  Here the handlers of [ApiX509] are cut at those statements, each of which
    the database runs as one; a handler that runs alone is the handler itself
    ([runs_alone]).  Against every schedule of any number of requests: a lock is
    kept by everything still in flight and no request that comes in under it obtains a
    certificate, and an agent that waits for its answers stays in step whatever the
    requests of other identities do in between.

    [late_request_locks_agent] and [late_request_revives] show what does not survive
    two requests for one identity in flight together: the write does not look at
    whether the record is still the one that was read. *)

From S2P Require Import Prelude GoText GoTime Policy Signer X509Engine Mtls Store Sql SqlStore SqlFacts Http Api ApiX509 Guard Threads.

Section Requests.
Context `{CryptoLib, X509Lib, PkixLib} {PS MS AS KS : Type}.
Context `{Policy.Store PS} `{Mtls.Store MS} `{ActiveCertStore AS}.

Abbreviation W := (World AS KS) (only parsing).
Abbreviation T A := (thread (World AS KS) Response A) (only parsing).

Section Handlers.
Context (srv : Server PS MS) (inp : Inputs) (r : Request).

(** The guard: a turn for the read, one for the lock, one for each audit entry. *)
Definition guard_turns (uri presented : string) (caller : callerIdentity) : T (string * time) :=
  if negb (activeCerts srv) then tret ("", zero_time) else
  got <-t atomic (step (on_certs (Get uri)));;
  match got with
  | Err _ => Done (inl (writeError StatusServiceUnavailable msg_store_down))
  | Ok None => tret ("", zero_time)
  | Ok (Some existing) =>
      match judge existing presented (clock inp AtGuard) with
      | AlreadyLocked => atomic (deny_locked inp r existing uri presented caller)
      | Rotate s na => tret (s, na)
      | Reenroll => atomic (allow_reenroll inp r existing uri presented caller)
      | NoSerial => atomic (deny_no_serial inp r existing uri caller)
      | Clone =>
          tdo atomic (step (on_certs (Lock (clock inp AtLock) uri presented)));;
          atomic (deny_clone inp r existing uri presented caller)
      end
  end.

Definition issue_turns (g : signX509Request * PublicKey * X509Engine.Certificate *
                            callerIdentity * string * duration) : T Response :=
  let '(req, pub, issuer, caller, uri, ttl) := g in
  prev <-t guard_turns uri (ReqCurrentSerial req) caller;;
  cert <-t atomic (mint srv inp req pub issuer uri ttl);;
  tdo atomic (record_rotation srv uri cert prev);;
  tdo atomic (audit_x509 inp r Audit.ActionX509WorkloadCertSigned uri caller (signed_metadata cert uri ttl));;
  tret (x509_response issuer cert uri).

Definition sign_turns (decoded : result signX509Request) : T Response :=
  g <-t atomic (checks srv inp r decoded);; issue_turns g.

Lemma guard_alone uri presented caller (w : W) :
  alone (guard_turns uri presented caller) w = guard srv inp r uri presented caller w.
Proof.
  unfold guard_turns, guard. destruct (activeCerts srv); cbn [negb]; [|done].
  rewrite alone_bind. apply hbind_ext; [apply alone_atomic|]. intros [[ex|]|e] w1 _; [|done|done].
  destruct (judge ex presented _); [apply alone_atomic|done|apply alone_atomic|apply alone_atomic|].
  rewrite alone_bind. apply hbind_ext; [apply alone_atomic|]. intros a w2 _. apply alone_atomic.
Qed.

Lemma issue_alone g (w : W) : alone (issue_turns g) w = issue srv inp r g w.
Proof.
  destruct g as [[[[[req pub] issuer] caller] uri] ttl]. unfold issue_turns, issue.
  rewrite alone_bind. apply hbind_ext; [apply guard_alone|]. intros prev w1 _.
  rewrite alone_bind. apply hbind_ext; [apply alone_atomic|]. intros cert w2 _.
  rewrite alone_bind. apply hbind_ext; [apply alone_atomic|]. intros [] w3 _.
  rewrite alone_bind. by apply hbind_ext; [apply alone_atomic|].
Qed.

Lemma sign_alone decoded (w : W) :
  alone (sign_turns decoded) w = handleSignX509WorkloadCert srv inp r decoded w.
Proof.
  unfold sign_turns, handleSignX509WorkloadCert. rewrite alone_bind.
  apply hbind_ext; [apply alone_atomic|]. intros g w1 _. apply issue_alone.
Qed.

Lemma guard_within uri presented caller : within 3 (guard_turns uri presented caller).
Proof.
  unfold guard_turns. destruct (negb _); [constructor|].
  apply (within_bind 1 2); [apply within_atomic|]. intros [[ex|]|e]; [|constructor|constructor].
  destruct (judge ex presented _); try (eapply within_mono, within_atomic; by repeat constructor);
    [constructor|].
  apply (within_bind 1 1); [apply within_atomic|]. intros []; apply within_atomic.
Qed.

Lemma sign_within decoded : within 7 (sign_turns decoded).
Proof.
  apply (within_bind 1 6); [apply within_atomic|]. intros [[[[[req pub] issuer] caller] uri] ttl].
  apply (within_bind 3 3); [apply guard_within|]. intros prev.
  apply (within_bind 1 2); [apply within_atomic|]. intros cert.
  apply (within_bind 1 1); [apply within_atomic|]. intros _.
  apply (within_bind 1 0); [apply within_atomic|]. intros _. constructor.
Qed.
End Handlers.

(** The adoption endpoint has one statement. *)
Definition turns (e : event (PS:=PS) (MS:=MS)) : T Response :=
  match e with
  | ESign srv inp r d => sign_turns srv inp r d
  | EAdopt srv _ r d => atomic (handleAdoptX509 srv r d)
  end.

Definition response (out : Response + Response) : Response := match out with inl r | inr r => r end.

(** A request with nothing else in flight runs as its handler does. *)
Lemma runs_alone e (w : W) :
  (response (alone (turns e) w).1, (alone (turns e) w).2) = exec e w.
Proof.
  destruct e as [srv inp r d|srv inp r d]; cbn [turns exec]; [rewrite sign_alone|rewrite alone_atomic];
    unfold serve; [destruct (handleSignX509WorkloadCert _ _ _ _ _) as [[?|?] ?]
                  |destruct (handleAdoptX509 _ _ _ _) as [[?|?] ?]]; done.
Qed.

Lemma turns_within e : within 7 (turns e).
Proof.
  destruct e; [apply sign_within|]. eapply within_mono, within_atomic. by repeat constructor.
Qed.
End Requests.

(** ** What a request does to the records, turn by turn *)
Section Interleaving.
Context `{CryptoLib, X509Laws, PkixLib} {PS MS AS KS : Type}.
Context `{Policy.Store PS} `{Mtls.Store MS} `{ActiveCertLaws AS}.

Abbreviation W := (World AS KS) (only parsing).
Abbreviation T A := (thread (World AS KS) Response A) (only parsing).
Abbreviation rows := (gmap string ActiveCert) (only parsing).
Abbreviation event := (Guard.event (PS:=PS) (MS:=MS)) (only parsing).

Definition recs (w : W) : rows := ac_view (certs w).

(** One statement on the record of [id]. *)
Inductive touch (id : string) (t : rows) : rows → Prop :=
  | touch_none : touch id t t
  | touch_lock now serial : clock_ok now → touch id t (spec_lock now id serial t)
  | touch_upsert cert prev : active_cert_ok (rotation id cert prev) →
      touch id t (spec_upsert (rotation id cert prev) t)
  | touch_adopt serial : touch id t (spec_adopt id serial t).

(** The identity a request is for. *)
Definition target (e : event) : string :=
  match e with
  | ESign _ _ _ (Ok req) => ReqSPIFFEURI req
  | EAdopt _ _ _ (Ok req) => AdoptSPIFFEURI req
  | _ => ""
  end.

Definition is_locked (id : string) (t : rows) : Prop := ∃ ac, t !! id = Some ac ∧ locked ac = true.

Lemma touch_frame id t t' id' : touch id t t' → id' ≠ id → t' !! id' = t !! id'.
Proof.
  intros [|now serial _|cert prev _|serial] Hne; [done|..];
    rewrite ?spec_lock_lookup, ?spec_upsert_lookup, ?spec_adopt_lookup, ?bool_decide_false by done; done.
Qed.

Lemma touch_locked id t t' id' : touch id t t' → is_locked id' t → is_locked id' t'.
Proof.
  intros Ht (ac & Hac & Hl). destruct (decide (id' = id)) as [->|Hne]; cycle 1.
  { exists ac. by rewrite (touch_frame id t t' id' Ht Hne). }
  unfold is_locked.
  destruct Ht as [|now serial Hclk|cert prev _|serial]; [by exists ac|..];
    rewrite ?spec_lock_lookup, ?spec_upsert_lookup, ?spec_adopt_lookup, bool_decide_true by done.
  - rewrite Hac. eexists. split; [done|]. unfold locked. simpl. apply negb_true_iff, Z.eqb_neq.
    by apply lock_locked.
  - rewrite Hac. by eexists.
  - unfold adoptable. rewrite Hac, Hl, andb_false_r. by exists ac.
Qed.

Lemma touch_view_ok id t t' : touch id t t' → view_ok t → view_ok t'.
Proof.
  intros Ht Hv id' ac. destruct (decide (id' = id)) as [->|Hne]; cycle 1.
  { rewrite (touch_frame _ _ _ _ Ht Hne). apply Hv. }
  destruct Ht as [|now serial Hclk|cert prev Hok|serial]; [apply Hv|..];
    rewrite ?spec_lock_lookup, ?spec_upsert_lookup, ?spec_adopt_lookup, bool_decide_true by done.
  - intros (old & Hold & ->)%fmap_Some. apply (Hv _ _ Hold).
  - intros [= <-]. by case_match.
  - destruct (true && _); [|apply Hv]. intros (old & Hold & ->)%fmap_Some.
    split; [by apply (Hv _ _ Hold)|apply zero_year_ok].
Qed.

(** The guarantee of a request for [id]. *)
Definition moves (id : string) (w w' : W) : Prop := touch id (recs w) (recs w').

(** *** The statements *)
Lemma stay_rows_ok (w w' : W) : certs w' = certs w → rows_ok w → rows_ok w' ∧ recs w' = recs w.
Proof. unfold rows_ok, recs. by intros ->. Qed.

Lemma get_turn uri (w : W) out w' :
  rows_ok w → step (on_certs (KS:=KS) (Get uri)) w = (out, w') →
  rows_ok w' ∧ recs w' = recs w ∧ ∃ res, out = inr res ∧ ∀ o, res = Ok o → o = recs w !! uri.
Proof.
  intros [Hok Hv] (res & -> & Hg & _)%step_certs.
  destruct (get_spec _ _ _ _ Hok Hg) as (Hok' & Hv' & Hres). unfold rows_ok, recs. rewrite Hv'.
  split; [by split|]. split; [done|]. by exists res.
Qed.

Lemma lock_turn now uri serial (w : W) out w' :
  rows_ok w → clock_ok now → step (on_certs (KS:=KS) (Lock now uri serial)) w = (out, w') →
  rows_ok w' ∧ moves uri w w'.
Proof.
  intros [Hok Hv] Hclk (res & -> & Hl & _)%step_certs.
  destruct (lock_spec _ _ _ _ _ _ Hok Hclk Hl) as (Hok' & Hv').
  assert (moves uri w w') as Hm.
  { unfold moves, recs. destruct res; [rewrite Hv'|destruct Hv' as [-> | ->]]; by constructor. }
  split; [|done]. split; [done|]. by eapply touch_view_ok.
Qed.

Lemma record_turn (srv : Server PS MS) uri cert prev (w : W) out w' :
  rows_ok w → active_cert_ok (rotation uri cert prev) →
  record_rotation srv uri cert prev w = (out, w') →
  rows_ok w' ∧ moves uri w w' ∧
  match out with
  | inl resp => status resp = StatusInternalServerError ∧
      (recs w' = recs w ∨ recs w' = spec_upsert (rotation uri cert prev) (recs w))
  | inr _ => activeCerts srv = true → recs w' = spec_upsert (rotation uri cert prev) (recs w)
  end.
Proof.
  intros [Hok Hv] Hrow Hr. destruct (record_rotation_spec _ _ _ _ _ _ _ Hok Hrow Hr) as (_ & Hok' & Hv').
  assert (moves uri w w') as Hm.
  { unfold moves, recs. destruct out.
    - destruct Hv' as (_ & _ & _ & Hv'). destruct Hv' as [-> | ->]; by constructor.
    - destruct (activeCerts srv); rewrite Hv'; by constructor. }
  split_and!; [|done|].
  - split; [done|]. by eapply touch_view_ok.
  - destruct out; [|intros Ha; by rewrite Ha in Hv']. destruct Hv' as (_ & Hst & _ & Hv'). by split.
Qed.

(** *** Through a request *)
Section Request.
Context (srv : Server PS MS) (inp : Inputs) (r : Request).
Context (Hck : clocks_ok inp) (Hiss : issuer_ok srv).

(** What the checks hand on. *)
Definition granted (decoded : result signX509Request)
    (g : signX509Request * PublicKey * X509Engine.Certificate * callerIdentity * string * duration) : Prop :=
  let '(req, pub, issuer, caller, uri, ttl) := g in
  decoded = Ok req ∧ uri = ReqSPIFFEURI req ∧ year_ok (NotAfter issuer).

Lemma checks_turn decoded (w : W) out w' :
  rows_ok w → checks srv inp r decoded w = (out, w') →
  rows_ok w' ∧ recs w' = recs w ∧
  match out with inl resp => status resp ≠ StatusOK | inr g => granted decoded g end.
Proof.
  intros Hok Hc%checks_spec. destruct out as [resp|[[[[[req pub] issuer] caller] uri] ttl]].
  - destruct Hc as (_ & Hst & Hcerts & _). by destruct (stay_rows_ok w w' Hcerts Hok).
  - destruct Hc as [-> Hcl]. split; [done|]. split; [done|]. unfold granted. split_and!; [apply Hcl| |].
    + by destruct (cleared_bounds _ _ _ _ _ _ _ _ _ _ _ Hcl).
    + apply Hiss, (cl_issuer _ _ _ _ _ _ _ _ _ _ _ Hcl).
Qed.

Lemma mint_turn req pub issuer uri ttl (w : W) out w' :
  year_ok (NotAfter issuer) → mint srv inp req pub issuer uri ttl w = (out, w') →
  w' = w ∧
  match out with
  | inl resp => status resp ≠ StatusOK
  | inr cert => year_ok (NotAfter cert) ∧ FormatInt (SerialNumber cert) ≠ ""
  end.
Proof.
  intros Hy [-> Hm]%mint_spec. split; [done|]. destruct out as [resp|cert]; [done|].
  destruct Hm as (serial & rest & Hs & Hc). split.
  - by eapply minted_year; [apply Hck| |exact Hc].
  - destruct (workload_cert_sound _ _ _ _ _ Hc) as (ca & u & _ & _ & _ & _ & _ & _ & _ & Hser & _).
    cbn in Hser. injection Hser as Hser. rewrite Hser. apply FormatInt_nonempty.
    apply RandomSerial_range in Hs. lia.
Qed.

(** What the guard remembers can be written. *)
Definition remembered (out : Response + string * time) : Prop :=
  match out with inl resp => status resp ≠ StatusOK | inr prev => year_ok prev.2 end.

Lemma guard_respects uri presented caller :
  respects rows_ok (moves uri) remembered (guard_turns (AS:=AS) (KS:=KS) srv inp r uri presented caller).
Proof.
  unfold guard_turns. destruct (negb _); [by constructor|].
  apply (respects_bind _ _ (λ out, match out with
    | inl _ => False
    | inr (Ok (Some ex)) => active_cert_ok ex
    | _ => True end)); [|done|].
  - apply respects_atomic. intros w out w' Hok Hg.
    destruct (get_turn uri w out w' Hok Hg) as (Hok' & Hr & res & -> & Hres).
    split_and!; [done|unfold moves; rewrite Hr; by constructor|].
    destruct res as [[ex|]|]; [|done|done]. eapply (proj2 Hok). symmetry. by apply Hres.
  - intros [[ex|]|e] Hex; [|by constructor|by constructor].
    assert (∀ h : Handler W Response (string * time),
      (∀ w out w', h w = (out, w') → certs w' = certs w ∧ remembered out) →
      respects rows_ok (moves uri) remembered (atomic h)) as Hquiet.
    { intros h Hh. apply respects_atomic. intros w out w' Hok [Hc Hout]%Hh.
      destruct (stay_rows_ok w w' Hc Hok) as [? Hr]. split_and!; [done| |done].
      unfold moves. rewrite Hr. constructor. }
    destruct (judge ex presented _) as [|s na| | |] eqn:Ej.
    + apply Hquiet. by intros w out w' (-> & _ & ?)%audit_reply.
    + constructor. simpl. destruct Hex.
      apply judge_rotate in Ej as (_ & _ & _ & [[_ ->]|(_ & _ & ->)]); done.
    + apply Hquiet. by intros w out w' [= <- <-].
    + apply Hquiet. by intros w out w' (-> & _ & ?)%audit_reply.
    + apply (respects_bind _ _ (λ out, ∃ a, out = inr a)); [|by intros ? [? ?]|intros _ _].
      * apply respects_atomic. intros w out w' Hok Hl.
        destruct (lock_turn _ _ _ w out w' Hok (proj2 Hck) Hl).
        destruct (step_certs _ _ _ _ Hl) as (res & -> & _). split_and!; [done|done|by eexists].
      * apply Hquiet. by intros w out w' (-> & _ & ?)%audit_reply.
Qed.

Lemma issue_respects decoded g :
  granted decoded g → respects rows_ok (moves (target (ESign srv inp r decoded))) (λ _, True)
    (issue_turns (AS:=AS) (KS:=KS) srv inp r g).
Proof.
  destruct g as [[[[[req pub] issuer] caller] uri] ttl]. intros (-> & -> & Hy). cbn [target]. unfold issue_turns.
  eapply respects_bind; [apply guard_respects|done|]. intros prev Hprev.
  eapply (respects_bind _ _ (λ out, match out with inl _ => True | inr cert => year_ok (NotAfter cert) end)); [|done|].
  { apply respects_atomic. intros w out w' Hok [-> Hm]%mint_turn; [|done].
    split_and!; [done|unfold moves; constructor|]. by destruct out as [|cert]; [|destruct Hm]. }
  intros cert Hcert. apply (respects_bind _ _ (λ _, True)); [|done|intros _ _].
  { apply respects_atomic. intros w out w' Hok Hr.
    destruct (record_turn srv _ cert prev w out w' Hok (conj Hcert Hprev) Hr) as (? & ? & _). done. }
  apply (respects_bind _ _ (λ _, True)); [|done|intros _ _; by constructor].
  apply respects_atomic. intros w out w' Hok Ha. injection Ha as <- <-.
  split_and!; [done|unfold moves; constructor|done].
Qed.

Lemma sign_respects decoded :
  respects rows_ok (moves (target (ESign srv inp r decoded))) (λ _, True)
    (sign_turns (AS:=AS) (KS:=KS) srv inp r decoded).
Proof.
  eapply (respects_bind _ _ (λ out, match out with inl _ => True | inr g => granted decoded g end));
    [|done|intros g Hg; by apply issue_respects].
  apply respects_atomic. intros w out w' Hok Hc. destruct (checks_turn _ _ _ _ Hok Hc) as (Hok' & Hr & Hout).
  split_and!; [done|unfold moves; rewrite Hr; constructor|by destruct out].
Qed.

(** *** Under a lock *)
Definition under_lock (id : string) (w : W) : Prop := rows_ok w ∧ is_locked id (recs w).

Definition refused (out : Response + string * time) : Prop :=
  match out with inl resp => status resp ≠ StatusOK | inr _ => False end.

Lemma guard_refuses uri presented caller :
  activeCerts srv = true →
  respects (under_lock uri) free refused (guard_turns (AS:=AS) (KS:=KS) srv inp r uri presented caller).
Proof.
  intros Ha. unfold guard_turns. rewrite Ha. cbn [negb].
  apply (respects_bind _ _ (λ out, match out with
    | inl _ => False
    | inr (Ok o) => ∃ ac, o = Some ac ∧ locked ac = true
    | inr (Err _) => True end)); [|done|].
  - apply respects_atomic. intros w out w' [Hok Hl] Hg.
    destruct (get_turn uri w out w' Hok Hg) as (Hok' & Hr & res & -> & Hres).
    split_and!; [by split; [|rewrite Hr]|done|]. destruct res as [o|]; [|done].
    destruct Hl as (ac & Hac & Hl). exists ac. by rewrite (Hres o eq_refl).
  - intros [o|e] Ho; [|by constructor]. destruct Ho as (ac & -> & Hl). rewrite locked_not_clone by done.
    apply respects_atomic. intros w out w' [Hok Hlk] (-> & _ & Hc)%audit_reply.
    destruct (stay_rows_ok w w' Hc Hok) as [Hok' Hr]. split_and!; [by split; [|rewrite Hr]|done|done].
Qed.

Lemma sign_refused decoded id :
  activeCerts srv = true → (∀ req, decoded = Ok req → ReqSPIFFEURI req = id) →
  respects (under_lock id) free (λ out, status (response out) ≠ StatusOK)
    (sign_turns (AS:=AS) (KS:=KS) srv inp r decoded).
Proof.
  intros Ha Hid.
  apply (respects_bind _ _ (λ out, match out with inl resp => status resp ≠ StatusOK | inr g => granted decoded g end)).
  - apply respects_atomic. intros w out w' [Hok Hl] Hc.
    destruct (checks_turn _ _ _ _ Hok Hc) as (Hok' & Hr & Hout). by split_and!; [split; [|rewrite Hr]|..].
  - done.
  - intros [[[[[req pub] issuer] caller] uri] ttl] (-> & -> & _). rewrite (Hid req eq_refl). unfold issue_turns.
    eapply respects_bind; [by apply guard_refuses|done|done].
Qed.
End Request.

(** ** Locks, whatever is in flight *)
Definition pool := (Threads.pool (World AS KS) Response Response).

(** What every request guarantees: a lock stays. *)
Definition locks_stay (w w' : W) : Prop := ∀ id, is_locked id (recs w) → is_locked id (recs w').

#[local] Instance locks_stay_preorder : PreOrder locks_stay.
Proof. split; [by intros w id|]. intros w1 w2 w3 H12 H23 id Hl. by apply H23, H12. Qed.

Lemma turns_respect e :
  event_ok e → respects rows_ok (moves (target e)) (λ _, True) (turns (AS:=AS) (KS:=KS) e).
Proof.
  destruct e as [srv inp r d|srv inp r d]; [intros (Ha & Hck & Hi); by apply sign_respects|intros Ha].
  apply respects_atomic. intros w out w' Hok Hd. set (resp := response out).
  assert (serve (handleAdoptX509 srv r d) w = (resp, w')) as Hs
    by (unfold serve, resp; rewrite Hd; by destruct out).
  destruct (adopt_change srv inp r d w resp w' (proj1 Hok) Hs) as [Hok' Hc].
  assert (moves (target (EAdopt srv inp r d)) w w') as Hm.
  { unfold moves, recs. inversion Hc; subst; [constructor|]. apply touch_adopt. }
  split_and!; [split; [done|]|done|done]. by eapply touch_view_ok; [apply Hm|apply Hok].
Qed.

Lemma turns_respect_locks e :
  event_ok e → respects rows_ok locks_stay (λ _, True) (turns (AS:=AS) (KS:=KS) e).
Proof.
  intros He. eapply respects_weaken, turns_respect; [|done].
  intros w w' Hm id. by eapply touch_locked.
Qed.

(** A request taken up under a lock. *)
Lemma turns_under_lock id e :
  event_ok e → respects (under_lock id) free
    (λ out, (∃ serial now, presents e id serial now) → status (response out) ≠ StatusOK)
    (turns (AS:=AS) (KS:=KS) e).
Proof.
  intros He.
  assert ((∀ serial now, ¬ presents e id serial now) → respects (under_lock id) free
    (λ out, (∃ serial now, presents e id serial now) → status (response out) ≠ StatusOK)
    (turns (AS:=AS) (KS:=KS) e)) as Hother.
  { intros Hno. apply (respects_mono _ _ (λ _, True)); [by intros ? _ (serial & now & []%Hno)|].
    apply (respects_weaken _ _ locks_stay); [done|].
    apply respects_conj; [|by apply turns_respect_locks]. intros w1 w2 Hw Hg. by apply Hg. }
  destruct e as [srv inp r [req|]|]; [|by apply Hother; intros ? ? []..].
  destruct (decide (ReqSPIFFEURI req = id)) as [Hid|Hne]; [|by apply Hother; intros ? ? [? _]].
  destruct He as (Ha & Hck & Hi). eapply respects_mono; [|by apply (sign_refused srv inp r Hi (Ok req) id Ha); intros ? [= <-]].
  by intros out Hst _.
Qed.

(** C8: a lock binds everything in flight.  Any number of signing and adoption
    requests are in flight together, their statements in any order, and the database
    may lose any of them.  Once the record of an identity is locked at some point,
    it is locked at every later point, whatever the requests that read it before
    still write; and no request for the identity that certd takes up from then on
    obtains a certificate. *)
Theorem lock_binds_in_flight id es (w : W) sched1 sched2 :
  let p := mkPool (turns <$> es) w : pool in
  let p1 := interleave sched1 p in
  let p2 := interleave (sched1 ++ sched2) p in
  rows_ok w → Forall event_ok es → is_locked id (recs (shared p1)) →
  rows_ok (shared p2) ∧ is_locked id (recs (shared p2)) ∧
  ∀ i e serial now out,
    es !! i = Some e → presents e id serial now → turns_of i sched1 = 0%nat →
    threads p2 !! i = Some (Done out) → status (response out) ≠ StatusOK.
Proof.
  intros p p1 p2 Hok Hes Hl. rewrite Forall_forall in Hes.
  destruct (respects_interleave rows_ok locks_stay (λ _ _, True) sched1 p Hok) as (Hok1 & _ & Hts).
  { intros i t. simpl. rewrite list_lookup_fmap. intros (e & He & ->)%fmap_Some_1.
    apply turns_respect_locks, Hes. by eapply list_elem_of_lookup_2. }
  set (late i := ∃ e serial now, es !! i = Some e ∧ presents e id serial now ∧ turns_of i sched1 = 0%nat).
  destruct (respects_interleave (under_lock id) free
    (λ i out, late i → status (response out) ≠ StatusOK) sched2 p1) as ([Hok2 Hl2] & _ & Hend); [by split| |].
  { intros i t Ht. destruct (decide (turns_of i sched1 = 0%nat)) as [Hz|Hz]; cycle 1.
    { apply (respects_mono _ _ (λ _, True)); [by intros ? _ (? & ? & ? & _ & _ & ?)|].
      apply (respects_weaken _ _ locks_stay); [done|]. apply respects_conj; [|by eapply Hts].
      intros w1 w2 Hw Hg. by apply Hg. }
    unfold p1 in Ht. rewrite interleave_idle in Ht by done. simpl in Ht.
    rewrite list_lookup_fmap in Ht. apply fmap_Some_1 in Ht as (e & He & ->).
    eapply respects_mono, turns_under_lock, Hes; [|by eapply list_elem_of_lookup_2].
    intros out Hq (e' & serial & now & He' & Hp & _). apply Hq. rewrite He in He'. injection He' as <-.
    by exists serial, now. }
  assert (p2 = interleave sched2 p1) as -> by apply interleave_app.
  split_and!; [done..|]. intros i e serial now out He Hp Hz Hd. specialize (Hend _ _ Hd). inversion_clear Hend as [? Hq|].
  apply Hq. by exists e, serial, now.
Qed.

(** ** An agent among others *)

Definition row_of (id : string) (w : W) : option ActiveCert := recs w !! id.
Definition unlocked (o : option ActiveCert) : Prop := ∃ ac, o = Some ac ∧ locked ac = false.

(** [in_step], of one record. *)
Definition row_in_step (h : string) (o : option ActiveCert) : Prop :=
  h ≠ "" ∧ ∃ ac, o = Some ac ∧ locked ac = false ∧ (CurrentSerial ac = h ∨ PreviousSerial ac = h).

Lemma row_in_step_unlocked h o : row_in_step h o → unlocked o.
Proof. intros (_ & ac & ? & ? & _). by exists ac. Qed.

Abbreviation owning id := (owns rows_ok (row_of id) unlocked) (only parsing).

Section Renewal.
Context (srv : Server PS MS) (inp : Inputs) (r : Request) (id h : string).
Context (Ha : activeCerts srv = true) (Hck : clocks_ok inp) (Hiss : issuer_ok srv).

(** A piece that does not touch the records. *)
Lemma owns_quiet {A} (h0 : Handler W Response A) (Q : Response + A → Prop) o :
  row_in_step h o → (∀ w out w', rows_ok w → h0 w = (out, w') → certs w' = certs w ∧ Q out) →
  owning id (λ out o', o' = o ∧ Q out) (atomic h0) o.
Proof.
  intros Ho Hh. apply owns_atomic; [by eapply row_in_step_unlocked|].
  intros w out w' Hok Hown Hr. destruct (Hh _ _ _ Hok Hr) as [Hc Hq].
  destruct (stay_rows_ok w w' Hc Hok) as [Hok' Hrec].
  assert (row_of id w' = o) as -> by (unfold row_of; by rewrite Hrec).
  split_and!; [done|by eapply row_in_step_unlocked|done|done].
Qed.

Lemma guard_owns caller o :
  row_in_step h o →
  owning id (λ out o', o' = o ∧ ∃ na, year_ok na ∧ (out = inr (h, na) ∨ ∃ resp, out = inl resp ∧ status resp ≠ StatusOK))
    (guard_turns (AS:=AS) (KS:=KS) srv inp r id h caller) o.
Proof.
  intros Ho. pose proof Ho as (Hh & ac & -> & Hl & Hs). unfold guard_turns. rewrite Ha. cbn [negb].
  apply (owns_bind _ _ _ (λ out o', o' = Some ac ∧ ∃ res, out = inr res ∧
    ∀ x, res = Ok x → x = Some ac ∧ active_cert_ok ac)); [|by intros ? ? _ [_ (? & ? & _)]|].
  - apply owns_atomic; [by eapply row_in_step_unlocked|]. intros w out w' Hok Hown Hg.
    destruct (get_turn id w out w' Hok Hg) as (Hok' & Hrec & res & -> & Hres).
    assert (row_of id w' = Some ac) as -> by (unfold row_of; by rewrite Hrec).
    split_and!; [done|by exists ac|done|]. exists res. split; [done|]. intros x Hx.
    split; [by rewrite (Hres x Hx)|]. by eapply (proj2 Hok).
  - intros [x|e] o' _ [-> (res & [= <-] & Hres)]; cycle 1.
    { constructor; [by exists ac|]. split; [done|]. exists zero_time. split; [apply zero_year_ok|]. right. by eexists. }
    destruct (Hres x eq_refl) as [-> Hac]. destruct (in_step_rotates id h ac (clock inp AtGuard) Hh Hl Hs) as [na Hj].
    rewrite Hj. constructor; [by exists ac|]. split; [done|]. exists na. split; [|by left].
    destruct Hac. apply judge_rotate in Hj as (_ & _ & _ & [[_ ->]|(_ & _ & ->)]); done.
Qed.

Lemma received_refused d resp : status resp ≠ StatusOK → received d resp h = h.
Proof. intros Hst%Z.eqb_neq. unfold received. by rewrite Hst, andb_false_r. Qed.

Lemma issue_owns decoded g o :
  granted decoded g → (∀ req, decoded = Ok req → ReqSPIFFEURI req = id ∧ ReqCurrentSerial req = h) →
  row_in_step h o →
  owning id (λ out o', ∀ d, row_in_step (received d (response out) h) o')
    (issue_turns (AS:=AS) (KS:=KS) srv inp r g) o.
Proof.
  destruct g as [[[[[req pub] issuer] caller] uri] ttl]. intros (Hd & -> & Hy) Hreq Ho.
  destruct (Hreq req Hd) as [-> Hser]. unfold issue_turns. rewrite Hser.
  assert (∀ resp o', status resp ≠ StatusOK → o' = o → ∀ d, row_in_step (received d resp h) o') as Hkeep.
  { intros resp o' Hst -> d. by rewrite received_refused. }
  eapply owns_bind; [by apply guard_owns| |].
  { intros resp o' _ [-> (na & _ & [[=]|(? & [= <-] & Hst)])]. by apply Hkeep. }
  intros prev o' _ [-> (na & Hna & [[= ->]|(? & [=] & _)])].
  eapply owns_bind; [apply (owns_quiet _ (λ out, match out with
    | inl resp => status resp ≠ StatusOK
    | inr cert => year_ok (NotAfter cert) ∧ FormatInt (SerialNumber cert) ≠ "" end)); [done|]| |].
  { intros w out w' Hok Hm. destruct (mint_turn srv inp Hck _ _ _ _ _ w out w' Hy Hm) as [-> ?]. by split. }
  { intros resp o' _ [-> Hst]. by apply Hkeep. }
  intros cert o' _ [-> [Hcy Hn]].
  set (new := FormatInt (SerialNumber cert)).
  eapply (owns_bind _ _ _ (λ out o', match out with
    | inl resp => status resp ≠ StatusOK ∧ row_in_step h o'
    | inr _ => row_in_step new o' ∧ row_in_step h o' end)).
  { apply owns_atomic; [by eapply row_in_step_unlocked|]. intros w out w' Hok Hown Hr.
    destruct (record_turn srv id cert (h, na) w out w' Hok (conj Hcy Hna) Hr) as (Hok' & Hm & Hout).
    assert (in_step id h (recs w)) as Hin by (unfold in_step; rewrite <- Hown in Ho; exact Ho).
    pose proof Hin as (Hh & ac & Hac & Hl & Hs).
    assert (∀ s, s ≠ "" → s = new ∨ s = h →
      row_in_step s (spec_upsert (rotation id cert (h, na)) (recs w) !! id)) as Hup.
    { intros s Hs0 Hs1. by apply (in_step_upsert id h s cert (h, na) _ ac). }
    pose proof (Hup new Hn (or_introl eq_refl)) as Hnew. pose proof (Hup h Hh (or_intror eq_refl)) as Hold.
    unfold row_of. split_and!; [done|..]; destruct out as [resp|].
    - destruct Hout as [_ [-> | ->]]; [by exists ac|by eapply row_in_step_unlocked].
    - rewrite (Hout Ha). by eapply row_in_step_unlocked.
    - destruct Hout as [-> [-> | ->]]; split; done.
    - by rewrite (Hout Ha). }
  { intros resp o' _ [Hst Ho'] d. by rewrite received_refused. }
  intros _ o' _ [Hnew Hold].
  eapply owns_bind; [apply (owns_quiet _ (λ out, out = inr tt)); [done|]| |].
  { by intros w out w' _ [= <- <-]. }
  { by intros resp o'' _ [_ [=]]. }
  intros _ o'' _ [-> _]. constructor; [by eapply row_in_step_unlocked|]. intros d.
  unfold received. simpl. by destruct d.
Qed.

Lemma sign_owns decoded o :
  (∀ req, decoded = Ok req → ReqSPIFFEURI req = id ∧ ReqCurrentSerial req = h) →
  row_in_step h o →
  owning id (λ out o', ∀ d, row_in_step (received d (response out) h) o')
    (sign_turns (AS:=AS) (KS:=KS) srv inp r decoded) o.
Proof.
  intros Hreq Ho. unfold sign_turns.
  eapply owns_bind; [apply (owns_quiet _ (λ out, match out with
    | inl resp => status resp ≠ StatusOK | inr g => granted decoded g end)); [done|]| |].
  - intros w out w' Hok Hc.
    destruct (checks_turn srv inp r Hiss _ _ _ _ Hok Hc) as (_ & _ & Hout). split; [|done].
    pose proof (checks_spec _ _ _ _ _ _ _ Hc) as Hsp.
    destruct out as [resp|[[[[[? ?] ?] ?] ?] ?]]; [apply Hsp|by destruct Hsp as [-> _]].
  - intros resp o' _ [-> Hst] d. by rewrite received_refused.
  - intros g o' _ [-> Hg]. by eapply issue_owns.
Qed.
End Renewal.

Lemma renew_owns (id h : string) e now o :
  event_ok e → presents e id h now → row_in_step h o →
  owning id (λ out o', ∀ d, row_in_step (received d (response out) h) o') (turns (AS:=AS) (KS:=KS) e) o.
Proof.
  destruct e as [srv inp r [req|]|]; [|done..]. intros (Ha & Hck & Hi) (Hid & Hser & _) Ho.
  apply sign_owns; [done..| |done]. by intros ? [= <-].
Qed.

Lemma ack_owns (id h : string) e o :
  event_ok e → adopts e id h → row_in_step h o →
  owning id (λ _ o', row_in_step h o') (turns (AS:=AS) (KS:=KS) e) o.
Proof.
  intros He Had Ho. destruct e as [|srv inp r d]; [done|].
  apply owns_atomic; [by eapply row_in_step_unlocked|]. intros w out w' Hok Hown Hd.
  assert (serve (handleAdoptX509 srv r d) w = (response out, w')) as Hs
    by (unfold serve; rewrite Hd; by destruct out).
  destruct (adopt_change srv inp r d w _ w' (proj1 Hok) Hs) as [Hok' Hc].
  assert (in_step id h (recs w)) as Hin by (unfold in_step; rewrite <- Hown in Ho; exact Ho).
  pose proof (in_step_adopt id h _ _ _ _ Had Hin Hc) as Hin'.
  split_and!; [split; [done|]|by apply (row_in_step_unlocked h)|done].
  by eapply change_view_ok; [apply Hok|].
Qed.

(** What the agent does, given the serial it holds: a renewal, whose answer reaches
    it or not, or the acknowledgement of what it holds. *)
Inductive errand :=
  | Renewal (ask : string → event) (delivered : bool)
  | Ack (ask : string → event).

Definition proper (id : string) (e : errand) : Prop :=
  match e with
  | Renewal ask _ => ∀ h, event_ok (ask h) ∧ ∃ now, presents (ask h) id h now
  | Ack ask => ∀ h, event_ok (ask h) ∧ adopts (ask h) id h
  end.

(** The agent, which waits for certd to be done with one request before it sends
    the next, ends with the serial it holds. *)
Fixpoint agent (h : string) (todo : list errand) : T string :=
  match todo with
  | [] => tret h
  | Renewal ask delivered :: todo =>
      out <-t settle (turns (ask h));;
      agent (received delivered (response out) h) todo
  | Ack ask :: todo =>
      tdo settle (turns (ask h));;
      agent h todo
  end.

Definition background (e : event) : T string := tdo settle (turns e);; tret "".

Lemma agent_within todo h : within (7 * length todo) (agent h todo).
Proof.
  revert h. induction todo as [|[ask d|ask] todo IH]; intros h; simpl length; [constructor|..];
    rewrite Nat.mul_succ_r, Nat.add_comm; cbn [agent];
    (apply (within_bind 7); [apply within_settle, turns_within|intros out; apply IH]).
Qed.

Lemma agent_owns id todo h o :
  Forall (proper id) todo → row_in_step h o →
  owning id (λ out o', ∃ h', out = inr h' ∧ row_in_step h' o') (agent h todo) o.
Proof.
  intros Hall. revert h o. induction Hall as [|[ask d|ask] todo Hp _ IH]; intros h o Ho; cbn [agent].
  - constructor; [by eapply row_in_step_unlocked|by exists h].
  - destruct (Hp h) as (He & now & Hpr). eapply owns_bind; [eapply owns_settle, renew_owns; done| |].
    + by intros ? ? _ (? & [=] & _).
    + intros out o' _ (x & [= ->] & Hx). apply IH, Hx.
  - destruct (Hp h) as (He & Had). eapply owns_bind; [eapply owns_settle, ack_owns; done| |].
    + by intros ? ? _ (? & [=] & _).
    + intros out o' _ (x & [= ->] & Hx). by apply IH.
Qed.

Lemma background_respects id e :
  event_ok e → target e ≠ id →
  respects rows_ok (λ w w', row_of id w' = row_of id w) (λ _, True) (background e).
Proof.
  intros He Hne. eapply respects_bind; [eapply respects_settle, respects_weaken, turns_respect; [|done]| |].
  - intros w w' Hm. by eapply touch_frame.
  - done.
  - intros ? _. by constructor.
Qed.

(** C10: an agent that waits for its answers is never taken for a clone, whatever
    else is in flight.  Any number of requests for other identities run together
    with the agent's, their statements in any order; any of its answers may be lost
    on the way, and the database may lose any statement.  At every moment its record
    is there and not locked; when it is done, the serial it holds is the record's
    current or previous one; and it is done once it has had seven turns for each of
    its requests. *)
Theorem agent_amid_others (id h : string) todo es (w : W) sched :
  rows_ok w → in_step id h (recs w) → Forall (proper id) todo →
  Forall (λ e, event_ok e ∧ target e ≠ id) es →
  let p := interleave sched (mkPool (agent h todo :: (background <$> es)) w) in
  rows_ok (shared p) ∧ unlocked (recs (shared p) !! id) ∧
  (∀ out, threads p !! 0%nat = Some (Done out) → ∃ h', out = inr h' ∧ in_step id h' (recs (shared p))) ∧
  ((7 * length todo ≤ turns_of 0 sched)%nat → ∃ h', threads p !! 0%nat = Some (Done (inr h'))).
Proof.
  intros Hok Hin Htodo Hes p. rewrite Forall_forall in Hes.
  destruct (owns_interleave rows_ok (row_of id) unlocked (λ out o', ∃ h', out = inr h' ∧ row_in_step h' o')
    0%nat sched (mkPool (agent h todo :: (background <$> es)) w) (agent h todo)) as (Hok' & t & Ht & Ho);
    [done|done|by apply agent_owns| |].
  { intros [|j] t Hj; [done|]. simpl. rewrite list_lookup_fmap. intros (e & He & ->)%fmap_Some_1.
    by apply background_respects; apply (Hes e), list_elem_of_lookup_2 with j. }
  assert (∀ out, threads p !! 0%nat = Some (Done out) → ∃ h', out = inr h' ∧ in_step id h' (recs (shared p))) as Hdone.
  { intros out Hd. unfold p in Hd. rewrite Ht in Hd. injection Hd as ->. by inversion_clear Ho. }
  split_and!; [done|by apply owns_now in Ho|done|]. intros Hlen.
  destruct (within_interleave 0%nat (7 * length todo) sched
    (mkPool (agent h todo :: (background <$> es)) w) (agent h todo)) as [out Hd]; [done|apply agent_within|done|].
  destruct (Hdone out Hd) as (h' & -> & _). by exists h'.
Qed.
End Interleaving.

(** ** Instances: the workload of [GuardExamples] *)
Module InterleaveExamples.
Import X509Examples GuardExamples.
#[local] Existing Instances lib lib_laws crypto pkix.

Abbreviation flight es w := (mkPool (turns <$> es) w : pool (AS:=db (list ActiveCertRow)) (KS:=unit)) (only parsing).

(** The first request is a clone's; the second read the record before the lock; the
    third comes in after it. *)
Definition three : list (event (PS:=Policy.InMemoryStore.t) (MS:=Mtls.InMemoryStore.t)) :=
  [renew 2 "99"; renew 3 "1"; renew 4 "1"].
Definition before_lock : list nat := [1; 0; 1; 0; 0; 0]%nat.
Definition after_lock : list nat := [1; 2; 1; 2; 1; 2; 1]%nat.

Lemma lock_binds_in_flight_witness :
  let p := interleave (before_lock ++ after_lock) (flight three enrolled) in
  is_locked web (recs (shared p)) ∧
  ∃ out, threads p !! 2%nat = Some (Done out) ∧ status (response out) ≠ StatusOK.
Proof.
  destruct (lock_binds_in_flight web three enrolled before_lock after_lock) as (_ & Hl & Hrest).
  - exact enrolled_ok.
  - repeat (constructor; [apply renew_ok|]). constructor.
  - eexists. split; by vm_compute.
  - split; [exact Hl|]. eexists. split; [by vm_compute|].
    eapply (Hrest 2%nat (renew 4 "1") "1" T); by vm_compute.
Defined.

(** The request that had read the record does get its certificate. *)
Example in_flight_at_lock :
  (λ t : thread _ _ _, match t with Done out => status (response out) | _ => 0 end) <$>
    threads (interleave (before_lock ++ after_lock) (flight three enrolled)) =
  [StatusForbidden; StatusOK; StatusForbidden].
Proof. by vm_compute. Qed.

(** The agent renews and acknowledges, a request for another identity in between. *)
Definition elsewhere_request : event (PS:=Policy.InMemoryStore.t) (MS:=Mtls.InMemoryStore.t) :=
  ESign srv (inp 9) req (Ok (mkSignX509 "k" "spiffe://corp/db" "" [] [] 0 "")).
Definition errands : list (errand (PS:=Policy.InMemoryStore.t) (MS:=Mtls.InMemoryStore.t)) :=
  [Renewal (renew 2) true; Ack (λ h, EAdopt srv (inp 3) req (Ok (mkAdopt web h)))].
Definition rounds : list nat := concat (replicate 14 [0; 1]%nat).

Lemma agent_amid_others_witness :
  let p := interleave rounds (mkPool (agent "1" errands :: (background <$> [elsewhere_request])) enrolled) in
  ∃ h', threads p !! 0%nat = Some (Done (inr h')) ∧ in_step web h' (recs (shared p)).
Proof.
  destruct (agent_amid_others web "1" errands [elsewhere_request] enrolled rounds) as (_ & _ & Hdone & Hend).
  - exact enrolled_ok.
  - split; [done|]. eexists. split; [by vm_compute|]. split; [by vm_compute|]. by left.
  - constructor; [intros h; split; [apply renew_ok|by exists T]|]. by repeat constructor.
  - constructor; [|constructor]. split; [apply (renew_ok 9 "")|done].
  - destruct Hend as [h' Hh']; [by apply (bool_decide_unpack _); vm_compute|].
    exists h'. split; [exact Hh'|]. by destruct (Hdone _ Hh') as (? & [= <-] & Hin).
Defined.

(** *** Two requests for one identity in flight *)

(** The agent's first renewal stalls after it read the record; its client gives up
    and renews again.  That succeeds, then the first one writes: the record is back at
    the serial it drew, which the agent never got, and the agent's next renewal
    locks its identity. *)
Definition retried : list nat := [0; 0; 1; 1; 1; 1; 1; 0; 0; 0; 2; 2; 2; 2]%nat.

Lemma late_request_locks_agent :
  let p := interleave retried (flight [renew 2 "1"; renew 3 "1"; renew 4 "3"] enrolled) in
  (∃ x, threads p !! 1%nat = Some (Done (inr (mkResponse StatusOK (BX509 x)))) ∧ X509Serial x = "3") ∧
  (∃ out, threads p !! 2%nat = Some (Done out) ∧ status (response out) = StatusForbidden) ∧
  is_locked web (recs (shared p)).
Proof.
  vm_compute. split; [by eexists|]. split; [by eexists|]. by eexists.
Qed.

(** A request that stalls while the record moves on twice: the serial it presented
    is superseded, its certificate is issued all the same, and now the serial the
    agent holds is the superseded one. *)
Definition overtaken : list nat := [0; 0; 1; 1; 1; 1; 1; 2; 2; 2; 2; 2]%nat.

Lemma late_request_revives :
  let p1 := interleave overtaken (flight [renew 2 "1"; renew 3 "1"; renew 4 "3"] enrolled) in
  let p2 := interleave [0; 0; 0]%nat p1 in
  superseded web "1" (recs (shared p1)) ∧
  (∃ out, threads p2 !! 0%nat = Some (Done out) ∧ status (response out) = StatusOK) ∧
  superseded web "4" (recs (shared p2)).
Proof.
  vm_compute. split; [by eexists|]. split; [by eexists|]. by eexists.
Qed.
End InterleaveExamples.
