(* ===== verification/ApiRest.v ===== *)
(** * ApiRest: the revocation endpoints, and who gets past authentication

    Models [internal/server/api/revoke.go], and states the authentication
    properties all endpoints share. *)

From S2P Require Import Prelude GoText GoTime Policy Signer X509Engine SshEngine Mtls Krl Store Sql SqlTable SqlStore SqlFacts Http Api ApiSsh ApiX509 Guard.

(** ** The revocation stores keep the interface's promise *)

#[export] Instance memory_krl : KrlStore Krl.InMemoryStore.t := {
  Api.Revoke := Krl.InMemoryStore.Revoke;
  Api.Snapshot now s := (Krl.InMemoryStore.Snapshot now s, s);
  Api.IsRevoked serial keyID s := (Krl.InMemoryStore.IsRevoked s serial keyID, s);
  Api.MarshalSpec := Some (λ now s, (Krl.InMemory_MarshalSpec now s, s));
}.

#[export] Instance memory_krl_laws : KrlLaws Krl.InMemoryStore.t.
Proof.
  refine {| krl_ok _ := True; krl_names s serial keyID := Krl.InMemoryStore.IsRevoked s serial keyID |}.
  - intros now r s res s' _ _ _ _ E. split; [done|]. intros ->. simpl in E. split.
    { unfold Krl.InMemoryStore.Revoke in E. by destruct (empty_revocation r). }
    apply Revoke_lookup in E as [Hs Hk]. intros serial keyID H.
    unfold Krl.InMemoryStore.IsRevoked, str_empty. apply orb_true_iff.
    destruct H as [[Hn ->]|[Hn ->]].
    + left. apply Z.eqb_neq in Hn as Hn'. rewrite Hn'. simpl. rewrite Hs, decide_True by done.
      by rewrite bool_decide_true.
    + right. rewrite bool_decide_false by done. simpl. rewrite Hk, decide_True by done.
      by rewrite bool_decide_true.
  - intros serial keyID s b s' _ _ [= <- <-]. by split.
Defined.

#[export] Instance db_krl : KrlStore (db (list RevocationRow)) := {
  Api.Revoke := SqlStore.Revocations.Revoke;
  Api.Snapshot := SqlStore.Revocations.Snapshot sqlite_dialect;
  Api.IsRevoked := SqlStore.Revocations.IsRevoked;
  Api.MarshalSpec := Some (SqlStore.Revocations.MarshalSpec sqlite_dialect);
}.

#[export] Instance db_krl_laws : KrlLaws (db (list RevocationRow)).
Proof.
  refine {| krl_ok d := ∃ rs, represents (data d) rs;
            krl_names d serial keyID := existsb (SqlStore.Revocations.matches serial keyID) (data d) |}.
  - intros now r d res d' [rs Hr] Hs Hv Hn E.
    destruct (Revoke_spec now r rs d res d' Hr Hs Hv Hn E) as [[Hres Hr1]|(e & -> & _ & Hr1)];
      [|split; [destruct Hr1; by eexists|done]].
    split; [by eexists|]. intros ->. unfold spec_revoke in *.
    destruct (empty_revocation r) eqn:Ee; [done|]. split; [done|]. intros serial keyID Hk.
    assert (∃ row, row ∈ data d' ∧ row = RevocationInsertArgs (stamp now r)) as (row & Hin & ->).
    { destruct Hr1 as [-> _]. eexists. split; [|done]. simpl. rewrite fmap_app. apply elem_of_app. right.
      by left. }
    apply existsb_exists. exists (RevocationInsertArgs (stamp now r)).
    split; [by apply list_elem_of_In|]. destruct (stamp_keys now r) as [Es Ek].
    unfold SqlStore.Revocations.matches. apply orb_true_iff.
    destruct Hk as [[Hz ->]|[Hz ->]]; [left|right].
    + apply Z.eqb_neq in Hz as Hz'. rewrite Hz'. cbn [negb andb].
      rewrite col_serial, Es; [by rewrite Z.eqb_refl|by rewrite Es|done|done].
    + unfold str_empty at 1. rewrite bool_decide_false by done. cbn [negb andb].
      rewrite col_key, Ek by done. by apply bool_decide_true.
  - intros serial keyID d b d' [rs Hr] Hs E. split.
    { exists rs. cbn [Api.IsRevoked db_krl] in E. unfold SqlStore.Revocations.IsRevoked in E.
      assert (data d' = data d) as ->; [|done].
      destruct ((serial =? 0) && str_empty keyID); [by injection E as _ <-|].
      destruct (stmt _ d) as [[b'|e] d1] eqn:Es; injection E as _ <-;
        apply stmt_cases in Es as [_ [[= _ Hd]|(e' & _ & _ & [Hd|Hd])]]; done. }
    intros Hm. rewrite (represents_names _ rs serial keyID Hr Hs) in Hm.
    destruct (IsRevoked_spec serial keyID rs d b d' Hr Hs E) as [->|[-> _]]; done.
Defined.

(** ** The endpoints *)

Record revokeRequest := mkRevoke { RevSerial : Z; RevKeyID : string; RevReason : string }.

Definition revocationSubject (req : revokeRequest) : string :=
  if negb (RevSerial req =? 0) && negb (str_empty (RevKeyID req))
  then "serial:" +:+ FormatUint (RevSerial req) +:+ " key_id:" +:+ RevKeyID req else
  if negb (RevSerial req =? 0) then "serial:" +:+ FormatUint (RevSerial req) else
  if negb (str_empty (RevKeyID req)) then "key_id:" +:+ RevKeyID req else "(empty)".

Section Handlers.
Context {PS MS AS KS : Type} `{Mtls.Store MS} `{KrlStore KS}.
Context (srv : Server PS MS) (inp : Inputs) (r : Request).

Abbreviation HM A := (Handler (World AS KS) Response A) (only parsing).

Definition not_configured : Response :=
  writeError StatusServiceUnavailable "revocation store not configured".

Definition handleRevoke (decoded : result revokeRequest) : HM Response :=
  when negb (krl srv) respond not_configured;;
  req <-h try (decodeRequest decoded) ApiX509.bad_request;;
  when (RevSerial req =? 0) && str_empty (RevKeyID req) respond
    writeError StatusBadRequest "serial or key_id is required";;
  caller <-h authenticate srv r [];;
  let entry := mkRevocation (RevSerial req) (RevKeyID req) (RevReason req) (Caller caller) zero_time in
  res <-h step (on_krl (Api.Revoke (clock inp AtRevoke) entry));;
  match res with
  | Err e =>
      if err_is e "krl.ErrEmptyRevocation" then reply (writeError StatusBadRequest (err_text e))
      else reply (writeError StatusInternalServerError "revoke failed")
  | Ok _ =>
      do emitAudit inp r Audit.ActionSSHCertRevoked (revocationSubject req) (Caller caller)
        (RevSerial req)
        [("serial", Audit.VInt (RevSerial req)); ("key_id", Audit.VStr (RevKeyID req));
         ("reason", Audit.VStr (RevReason req)); ("revoker", Audit.VStr (Caller caller))];;
      hret (writeJSON StatusOK BRevoked)
  end.

Definition handleRevocations : HM Response :=
  when negb (krl srv) respond not_configured;;
  do authenticate srv r [];;
  snap <-h step (on_krl (Api.Snapshot (clock inp AtSnapshot)));;
  hret (writeJSON StatusOK (BSnapshot snap)).

Definition handleRevocationsSpec : HM Response :=
  when negb (krl srv) respond not_configured;;
  do authenticate srv r [];;
  match Api.MarshalSpec with
  | None => reply (writeError StatusNotImplemented
              "configured revocation store does not implement MarshalSpec")
  | Some spec =>
      text <-h step (on_krl (spec (clock inp AtSnapshot)));;
      hret (mkResponse StatusOK (BText text))
  end.
End Handlers.

(** ** No endpoint serves an unauthenticated request *)
Section Authentication.
Context `{SshLib, SshText, CryptoLib, X509Lib, PkixLib} {PS MS AS KS : Type}.
Context `{Policy.Store PS} `{Mtls.Store MS} `{ActiveCertStore AS} `{KrlStore KS}.
Context (srv : Server PS MS) (inp : Inputs) (r : Request).

(** The endpoints that ask for a caller, with the bodies they decoded. *)
Inductive call :=
  | CallSignUser (d : result signUserRequest)
  | CallSignHost (d : result signHostRequest)
  | CallSignX509 (d : result signX509Request)
  | CallAdopt (d : result adoptRequest)
  | CallRevoke (d : result revokeRequest)
  | CallRevocations
  | CallRevocationsSpec.

Definition handle (c : call) : Handler (World AS KS) Response Response :=
  match c with
  | CallSignUser d => handleSignUserCert srv inp r d
  | CallSignHost d => handleSignHostCert srv inp r d
  | CallSignX509 d => handleSignX509WorkloadCert srv inp r d
  | CallAdopt d => handleAdoptX509 srv r d
  | CallRevoke d => handleRevoke srv inp r d
  | CallRevocations => handleRevocations srv inp r
  | CallRevocationsSpec => handleRevocationsSpec srv inp r
  end.

(** A handler that answers with an error and touches nothing. *)
Definition refuses {A} (m : Handler (World AS KS) Response A) : Prop :=
  ∀ w out w', m w = (out, w') →
    ∃ resp, out = inl resp ∧ (∃ msg, payload resp = BError msg) ∧ status resp ≠ StatusOK ∧ w' = w.

Lemma refuses_error {A} st msg : st ≠ StatusOK → refuses (reply (A:=A) (writeError st msg)).
Proof. intros Hst w out w' [= <- <-]. eexists. split_and!; [done|by eexists|done|done]. Qed.

Lemma refuses_first {A B} (m : Handler (World AS KS) Response A) (k : A → Handler (World AS KS) Response B) :
  refuses m → refuses (hbind m k).
Proof.
  intros Hm w out w' [(resp & (? & [= <-] & ?)%Hm & ->)|(a & w1 & (? & [=] & _)%Hm & _)]%hbind_cases.
  by eexists.
Qed.

Lemma refuses_try {A B} (m : result A) (f : error → string) st (k : A → Handler (World AS KS) Response B) :
  st ≠ StatusOK → (∀ a, refuses (k a)) → refuses (hbind (try m (λ e, writeError st (f e))) k).
Proof.
  intros Hst Hk w out w' [(resp & [-> (e & _ & ->)]%try_inl & ->)|(a & w1 & [_ ->]%try_inr & E)]%hbind_cases.
  - eexists. split_and!; [done|by eexists|done|done].
  - by apply (Hk a).
Qed.

Lemma refuses_when {A} (b : bool) st msg (m : Handler (World AS KS) Response A) :
  st ≠ StatusOK → refuses m → refuses (if b then reply (writeError st msg) else m).
Proof. intros Hst Hm. destruct b; [by apply refuses_error|done]. Qed.

Lemma refuses_authenticate {A} groups (k : callerIdentity → Handler (World AS KS) Response A) :
  (∀ c, ¬ authenticated srv r groups c) → refuses (hbind (authenticate srv r groups) k).
Proof.
  intros Hno w out w' [(resp & [-> [[Hm Hs] _]]%authenticate_spec & ->)|(c & w1 & [_ Hc]%authenticate_spec & _)]%hbind_cases.
  - eexists. split_and!; [done|done|by destruct Hs as [-> | ->]|done].
  - by destruct (Hno c).
Qed.

(** Every endpoint authenticates before it does anything. *)
Lemma handle_refuses c :
  (∀ groups caller, ¬ authenticated srv r groups caller) → refuses (handle c).
Proof.
  intros Hno. destruct c; simpl.
  - unfold handleSignUserCert, ApiSsh.bad_request. repeat (apply refuses_try; [done|intros ?]).
    apply refuses_authenticate, Hno.
  - unfold handleSignHostCert, ApiSsh.bad_request. repeat (apply refuses_try; [done|intros ?]).
    apply refuses_authenticate, Hno.
  - unfold handleSignX509WorkloadCert, checks, ApiX509.bad_request. apply refuses_first.
    destruct (issuerCert srv); [|by apply refuses_error]. do 2 (apply refuses_try; [done|intros ?]).
    apply refuses_when; [done|]. apply refuses_try; [done|intros ?]. apply refuses_authenticate, Hno.
  - unfold handleAdoptX509, ApiX509.bad_request. apply refuses_try; [done|intros ?].
    apply refuses_when; [done|]. apply refuses_authenticate, Hno.
  - unfold handleRevoke, ApiX509.bad_request. apply refuses_when; [done|].
    apply refuses_try; [done|intros ?]. apply refuses_when; [done|]. apply refuses_authenticate, Hno.
  - unfold handleRevocations. apply refuses_when; [done|]. apply refuses_authenticate, Hno.
  - unfold handleRevocationsSpec. apply refuses_when; [done|]. apply refuses_authenticate, Hno.
Qed.

(** C5: no endpoint serves a request whose caller it cannot authenticate.  For
    every endpoint but the two public key downloads and the health check: when no
    caller is authenticated (no bearer token the verifier accepts, or a rejected
    one whatever the client certificate, and no registered client certificate),
    the response is an error, and no store and no audit log changes. *)
Theorem unauthenticated_refused c (w : World AS KS) resp w' :
  (∀ groups caller, ¬ authenticated srv r groups caller) →
  serve (handle c) w = (resp, w') →
  status resp ≠ StatusOK ∧ (∃ msg, payload resp = BError msg) ∧ w' = w.
Proof.
  intros Hno E. unfold serve in E. destruct (handle c w) as [out w1] eqn:Eh.
  destruct (handle_refuses c Hno w out w1 Eh) as (resp' & -> & Hm & Hst & ->). by injection E as <- <-.
Qed.
End Authentication.

(** ** Revocation through the API *)
Section RevokeEndpoint.
Context {PS MS AS KS : Type} `{Mtls.Store MS} `{KrlLaws KS}.
Context (srv : Server PS MS) (inp : Inputs) (r : Request).

(** A revocation the API confirmed is in force.  When the revocation endpoint
    answers 200, an authenticated caller asked for it, one audit entry names that
    caller and the serial, and the store has the serial and the key ID it named as
    revoked.  Any other answer leaves the audit log alone. *)
Lemma revoke_endpoint_effective decoded (w : World AS KS) resp w' :
  krl_ok (krls w) → year_ok (clock inp AtRevoke) →
  (∀ req, decoded = Ok req → uint64_ok (RevSerial req)) →
  serve (handleRevoke srv inp r decoded) w = (resp, w') →
  krl_ok (krls w') ∧ certs w' = certs w ∧
  (status resp ≠ StatusOK → log w' = log w) ∧
  (status resp = StatusOK → ∃ req caller e,
     decoded = Ok req ∧ authenticated srv r [] caller ∧ log w' = log w ++ [e] ∧
     Audit.Action e = Audit.ActionSSHCertRevoked ∧ Audit.Caller e = Caller caller ∧
     Audit.Serial e = RevSerial req ∧
     ∀ serial keyID,
       (serial ≠ 0 ∧ serial = RevSerial req ∨ keyID ≠ "" ∧ keyID = RevKeyID req) →
       krl_names (krls w') serial keyID = true).
Proof.
  intros Hok Hclk Hser E. unfold serve in E.
  destruct (handleRevoke srv inp r decoded w) as [out w0] eqn:Eh.
  assert (w0 = w' ∧ match out with inl x | inr x => x end = resp) as [-> Hresp]
    by (destruct out; by injection E as <- <-). clear E.
  assert (∀ st msg, st ≠ StatusOK → out = inl (writeError st msg) → w' = w →
    krl_ok (krls w') ∧ certs w' = certs w ∧ (status resp ≠ StatusOK → log w' = log w) ∧
    status resp ≠ StatusOK) as Hstop by (intros st msg Hst -> ->; by rewrite <- Hresp).
  unfold handleRevoke in Eh. destruct (negb (krl srv)).
  { injection Eh as <- <-. destruct (Hstop StatusServiceUnavailable "revocation store not configured") as (?&?&?&?); done. }
  apply hbind_cases in Eh as [(? & [-> (e & _ & ->)]%try_inl & ->)|(req & w1 & [Hd%decodeRequest_Ok ->]%try_inr & E)].
  { destruct (Hstop StatusBadRequest (err_text e)) as (?&?&?&?); done. }
  destruct ((RevSerial req =? 0) && str_empty (RevKeyID req)).
  { injection E as <- <-. destruct (Hstop StatusBadRequest "serial or key_id is required") as (?&?&?&?); done. }
  apply hbind_cases in E as [(resp' & [-> [[[msg Hm] Hs] _]]%authenticate_spec & ->)|(caller & w1 & [-> Ha]%authenticate_spec & E)].
  { subst resp'. by destruct Hs as [Hs|Hs]; rewrite Hs. }
  apply hbind_cases in E as [(? & Hs & _)|(res & w1 & Hs & E)].
  { unfold step in Hs. by destruct (on_krl _ w). }
  unfold step, on_krl in Hs. destruct (Api.Revoke _ _ (krls w)) as [res' k] eqn:Er.
  injection Hs as <- <-. specialize (Hser req Hd).
  apply krl_revoke in Er as [Hok' Heff]; [|done|exact Hser|exact zero_year_ok|done].
  destruct res' as [[]|e].
  - apply hbind_cases in E as [(? & [=] & _)|(v & w1 & Hl & [= <- <-])].
    injection Hl as _ <-. rewrite <- Hresp. simpl.
    split_and!; [done|done|done|]. intros _. destruct (Heff eq_refl) as [_ Hnames].
    eexists req, caller, _. split_and!; [done|done|done|done|done|done|].
    intros serial keyID Hk. by apply Hnames.
  - destruct (err_is e "krl.ErrEmptyRevocation"); injection E as <- <-; rewrite <- Hresp; by split_and!.
Qed.
End RevokeEndpoint.

(** ** Instances *)
Module RestExamples.
Import SshApiExamples.

#[local] Existing Instances toy toyText Guard.GuardExamples.lib Guard.GuardExamples.crypto Guard.GuardExamples.pkix.

(** A registered workload that also sends a token the verifier rejects. *)
Definition both : Server Policy.InMemoryStore.t Mtls.InMemoryStore.t :=
  mkServer SshExamples.toySigner SshExamples.toySigner None None "" "" None
    (Some (λ tok, Err (ErrOpaque "expired")))
    (Some (Mtls.InMemoryStore.NewInMemoryStore [mkPrincipal "web" "spiffe://corp/web" ["g"]]))
    true false true "v1".
Definition web_cert : X509Engine.Certificate :=
  X509Examples.parsed (template 1 "web" 0 0 1 [] false false 0 [] [] [X509Examples.spiffe]) "k" "D".
Definition stale_token : Request :=
  mkRequest (λ h, if bool_decide (h = "Authorization") then "Bearer old" else "") "10.0.0.1:99"
    (Some [web_cert]).

#[local] Instance unit_certs : ActiveCertStore unit := {
  Store.Get _ := mret None; Store.Upsert _ := mret tt; Store.Delete _ := mret tt;
  Store.Lock _ _ _ := mret tt; Store.AdoptCurrent _ _ := mret false }.

Definition w1 : World unit Krl.InMemoryStore.t := mkWorld () Krl.InMemoryStore.NewInMemoryStore [].

Lemma unauthenticated_refused_witness :
  status (serve (handle both inp stale_token (CallSignUser user_body)) w1).1 ≠ StatusOK.
Proof.
  apply (unauthenticated_refused both inp stale_token (CallSignUser user_body) w1
    (serve (handle both inp stale_token (CallSignUser user_body)) w1).1
    (serve (handle both inp stale_token (CallSignUser user_body)) w1).2).
  - intros groups caller Hc. inversion Hc as [Ho _|verify raw claims Ho Hb Hv|store p Hm Hb Hs Hl]; simpl in *.
    + done.
    + injection Ho as <-. done.
    + destruct Hb as [?|Hb]; [done|]. by vm_compute in Hb.
  - apply surjective_pairing.
Defined.

Definition open_srv : Server Policy.InMemoryStore.t Mtls.InMemoryStore.t :=
  mkServer SshExamples.toySigner SshExamples.toySigner None None "" "" None None None
    true false true "v1".
Definition revoke_body : result revokeRequest := Ok (mkRevoke 5 "host-7" "stolen").
Definition revoked : Response * World unit Krl.InMemoryStore.t :=
  serve (handleRevoke open_srv inp stale_token revoke_body) w1.

Lemma revoke_endpoint_effective_witness :
  status revoked.1 = StatusOK ∧ (Api.IsRevoked 0 "host-7" (krls revoked.2)).1 = true.
Proof.
  split; [by vm_compute|].
  destruct (revoke_endpoint_effective open_srv inp stale_token revoke_body w1 revoked.1 revoked.2)
    as (_ & _ & _ & H).
  - done.
  - by vm_compute.
  - intros q [= <-]. by vm_compute.
  - apply surjective_pairing.
  - destruct (H ltac:(by vm_compute)) as (q & c & e & Hq & _ & _ & _ & _ & _ & Hin).
    injection Hq as <-.
    apply (Hin 0 "host-7"). right. by split.
Defined.
End RestExamples.
