(* ===== verification/Reconcile.v ===== *)
(** * Reconcile: bringing the database in line with the config files

    Models [internal/reconcile/reconcile.go] and the [reconcile] command of
    [cmd/certd/main.go].  Roles and principals go through the same code twice, so
    the diff and the application of a plan are written once, over the key of a
    value, its record and its equality, and instantiated at both.  The theorems
    say that an applied plan leaves exactly the table the files ask for, whatever
    was in it, and what a database failure in the middle leaves. *)

From S2P Require Import Prelude GoText GoTime Keyed Policy X509Engine Mtls Json Store Sql SqlTable SqlStore SqlFacts SqlCorrect.

(** ** Equality of values *)

Definition sameSet (a b : list string) : bool :=
  Nat.eqb (length a) (length b) && bool_decide (sort_strings a = sort_strings b).

Definition RoleEqual (a b : Role) : bool :=
  bool_decide (Policy.Name a = Policy.Name b) &&
  bool_decide (GroupClaim a = GroupClaim b) &&
  (MaxUserCertTTLSeconds a =? MaxUserCertTTLSeconds b) &&
  (MaxHostCertTTLSeconds a =? MaxHostCertTTLSeconds b) &&
  (MaxX509CertTTLSeconds a =? MaxX509CertTTLSeconds b) &&
  sameSet (AllowedPrincipals a) (AllowedPrincipals b) &&
  sameSet (HostPatterns a) (HostPatterns b) &&
  sameSet (SPIFFEPatterns a) (SPIFFEPatterns b) &&
  bool_decide (DefaultExtensions a = DefaultExtensions b).

Definition PrincipalEqual (a b : Principal) : bool :=
  bool_decide (PName a = PName b) && bool_decide (MatchedSAN a = MatchedSAN b) &&
  sameSet (Mtls.Groups a) (Mtls.Groups b).

(** ** Plans *)

Record Plan (V : Type) := mkPlan {
  PlanAdd : list V;
  PlanUpdate : list V;
  PlanPrune : list string;
  PlanConflicts : list string;
}.
Arguments mkPlan {V}.
Arguments PlanAdd {V}.
Arguments PlanUpdate {V}.
Arguments PlanPrune {V}.
Arguments PlanConflicts {V}.

Definition RolePlan : Type := Plan Role.
Definition PrincipalPlan : Type := Plan Principal.

(** [len(p.Add) == 0 && …] *)
Definition Empty {V} (p : Plan V) : bool :=
  Nat.eqb (length (PlanAdd p)) 0 && Nat.eqb (length (PlanUpdate p)) 0 && Nat.eqb (length (PlanPrune p)) 0.

Section Diff.
Context {V R : Type} (key : V → string) (val : R → V) (src : R → string).
Context (equal : V → V → bool) (skip : V → bool).

Definition rec_key (rec : R) : string := key (val rec).

(** [dbByName]: the last record wins. *)
Definition by_key (db : list R) : gmap string R :=
  foldl (λ m rec, <[rec_key rec := rec]> m) ∅ db.

(** One iteration of the loop over the file. *)
Definition classify (dbBy : gmap string R) (adopt : bool) (plan : Plan V) (v : V) : Plan V :=
  let '(mkPlan add update prune conflicts) := plan in
  if skip v then plan else
  match dbBy !! key v with
  | None => mkPlan (add ++ [v]) update prune conflicts
  | Some rec =>
      if bool_decide (src rec = SourcePortal) then
        if negb adopt then mkPlan add update prune (conflicts ++ [key v])
        else mkPlan add (update ++ [v]) prune conflicts
      else if negb (equal (val rec) v) then mkPlan add (update ++ [v]) prune conflicts
      else plan
  end.

Definition in_file (file : list V) : gset string :=
  list_to_set (key <$> List.filter (λ v, negb (skip v)) file).

Definition diff (file : list V) (db : list R) (adopt : bool) : Plan V :=
  let plan := foldl (classify (by_key db) adopt) (mkPlan [] [] [] []) file in
  let prune := rec_key <$> List.filter (λ rec, bool_decide (src rec = SourceConfig) &&
    negb (bool_decide (rec_key rec ∈ in_file file))) db in
  mkPlan (PlanAdd plan) (PlanUpdate plan) (sort_strings prune) (sort_strings (PlanConflicts plan)).
End Diff.

Definition DiffRoles : list Role → list RoleRecord → bool → RolePlan :=
  diff Policy.Name RecRole RecSource RoleEqual (λ _, false).

Definition DiffPrincipals : list Principal → list PrincipalRecord → bool → PrincipalPlan :=
  diff MatchedSAN RecPrincipal RecPSource PrincipalEqual (λ p, str_empty (MatchedSAN p)).

(** ** Applying a plan *)

Record Applied := mkApplied { Added : Z; Updated : Z; Pruned : Z }.

(** One write, in the terms of the mutation methods of a store. *)
Inductive write (V : Type) :=
  | WAdd (v : V)
  | WReplace (v : V)
  | WDelete (k : string).
Arguments WAdd {V}.
Arguments WReplace {V}.
Arguments WDelete {V}.

Record Writer (S V : Type) := mkWriter {
  w_add : time → V → string → M S unit;
  w_replace : time → string → V → string → M S unit;
  w_delete : string → M S unit;
}.
Arguments w_add {S V}.
Arguments w_replace {S V}.
Arguments w_delete {S V}.

Section Apply.
Context {S V : Type} (key : V → string) (noun : string) (w : Writer S V).
(** The clock at each write, by the number of writes already done. *)
Context (clock : Applied → time).

Definition write_key (o : write V) : string :=
  match o with WAdd v | WReplace v => key v | WDelete k => k end.

Definition exec_write (ap : Applied) (o : write V) : M S unit :=
  match o with
  | WAdd v => w_add w (clock ap) v SourceConfig
  | WReplace v => w_replace w (clock ap) (key v) v SourceConfig
  | WDelete k => w_delete w k
  end.

Definition verb (o : write V) : string :=
  match o with WAdd _ => "add " | WReplace _ => "update " | WDelete _ => "prune " end.

Definition count (ap : Applied) (o : write V) : Applied :=
  let '(mkApplied a u p) := ap in
  match o with
  | WAdd _ => mkApplied (a + 1) u p
  | WReplace _ => mkApplied a (u + 1) p
  | WDelete _ => mkApplied a u (p + 1)
  end.

Definition write_error (o : write V) (e : error) : error :=
  ErrWrap (verb o +:+ noun +:+ " " +:+ fmt_q (write_key o) +:+ ": ") e "".

(** A loop over writes that stops at the first error. *)
Fixpoint apply_each (l : list (write V)) (ap : Applied) (s : S) : Applied * option error * S :=
  match l with
  | [] => (ap, None, s)
  | o :: l =>
      match exec_write ap o s with
      | (Err e, s') => (ap, Some (write_error o e), s')
      | (Ok _, s') => apply_each l (count ap o) s'
      end
  end.

Definition apply (prune : bool) (p : Plan V) (s : S) : Applied * option error * S :=
  match apply_each (WAdd <$> PlanAdd p) (mkApplied 0 0 0) s with
  | (ap, Some e, s) => (ap, Some e, s)
  | (ap, None, s) =>
      match apply_each (WReplace <$> PlanUpdate p) ap s with
      | (ap, Some e, s) => (ap, Some e, s)
      | (ap, None, s) =>
          if prune then apply_each (WDelete <$> PlanPrune p) ap s else (ap, None, s)
      end
  end.
End Apply.

Definition role_writer {S} (rs : RoleStore S) : Writer S Role :=
  mkWriter _ _ (rs_Add _ rs) (rs_Replace _ rs) (rs_Delete _ rs).
Definition principal_writer {S} (ps : PrincipalStore S) : Writer S Principal :=
  mkWriter _ _ (ps_Add _ ps) (ps_Replace _ ps) (ps_Delete _ ps).

Definition ApplyRoles {S} (rs : RoleStore S) (clock : Applied → time) (prune : bool) (p : RolePlan)
  : S → Applied * option error * S := apply Policy.Name "role" (role_writer rs) clock prune p.

Definition ApplyPrincipals {S} (ps : PrincipalStore S) (clock : Applied → time) (prune : bool)
    (p : PrincipalPlan) : S → Applied * option error * S :=
  apply MatchedSAN "principal" (principal_writer ps) clock prune p.

(** ** The [reconcile] command *)

Record reconcileOpts := mkReconcileOpts {
  o_apply : bool;
  o_prune : bool;
  o_rolesOnly : bool;
  o_principalsOnly : bool;
  o_adopt : bool;
}.

(** An entry of the principals file. *)
Record principalEntry := mkPrincipalEntry { e_name : string; e_san : string; e_groups : list string }.

Section Command.
(** The environment, the file system, and the JSON decoding of the two files. *)
Context (env : string → string) (ReadFile : string → result string).
Context (decode_roles : string → result (list Role)).
Context (decode_entries : string → result (list principalEntry)).

Definition readRolesFile (path : string) : result (list Role) :=
  data <-r rwrap ("read " +:+ path +:+ ": ") (ReadFile path);;
  rwrap ("decode " +:+ path +:+ ": ") (decode_roles data).

Fixpoint principals_of (path : string) (raw : list principalEntry) : result (list Principal) :=
  match raw with
  | [] => Ok []
  | r :: raw =>
      reject (str_empty (e_san r)) with
        ErrNew ("entry " +:+ fmt_q (e_name r) +:+ " in " +:+ path +:+ " has empty san");;
      ps <-r principals_of path raw;;
      Ok (mkPrincipal (e_name r) (e_san r) (e_groups r) :: ps)
  end.

Definition readPrincipalsFile (path : string) : result (list Principal) :=
  data <-r rwrap ("read " +:+ path +:+ ": ") (ReadFile path);;
  raw <-r rwrap ("parse " +:+ path +:+ ": ") (decode_entries data);;
  principals_of path raw.

Context {S1 S2 : Type} (rs : RoleStore S1) (ps : PrincipalStore S2) (clock : Applied → time).

(** The file and the table read, and their diff; nothing when [skipped]. *)
Definition plan_of {V Rec S} (skipped : bool) (var unset reading : string)
    (read : string → result (list V)) (all : M S (list Rec))
    (differ : list V → list Rec → bool → Plan V) (adopt : bool) : M S (Plan V) := λ s,
  if skipped then (Ok (mkPlan [] [] [] []), s) else
  if str_empty (env var) then (Err (ErrNew unset), s) else
  match read (env var) with
  | Err e => (Err e, s)
  | Ok file =>
      match all s with
      | (Err e, s') => (Err (ErrWrap reading e ""), s')
      | (Ok recs, s') => (Ok (differ file recs adopt), s')
      end
  end.

Definition role_plan (o : reconcileOpts) : M S1 RolePlan :=
  plan_of (o_principalsOnly o) "CERTD_ROLES_FILE"
    "CERTD_ROLES_FILE unset; nothing to reconcile for roles (use --principals-only to skip)"
    "read role table: " readRolesFile (rs_AllWithSource _ rs) DiffRoles (o_adopt o).

Definition principal_plan (o : reconcileOpts) : M S2 PrincipalPlan :=
  plan_of (o_rolesOnly o) "CERTD_MTLS_PRINCIPALS_FILE"
    "CERTD_MTLS_PRINCIPALS_FILE unset; nothing to reconcile for principals (use --roles-only to skip)"
    "read principal registry: " readPrincipalsFile (ps_AllWithSource _ ps) DiffPrincipals (o_adopt o).

(** [runReconcile], once the store is open: the plans, and with [--apply] what was
    applied.  [ReconcileCmd] has what is printed; the log is not modelled. *)
Definition runReconcile (o : reconcileOpts) : M (S1 * S2) (option (Applied * Applied)) := λ '(s1, s2),
  if o_rolesOnly o && o_principalsOnly o
  then (Err (ErrNew "--roles-only and --principals-only are mutually exclusive"), (s1, s2)) else
  match role_plan o s1 with
  | (Err e, s1) => (Err e, (s1, s2))
  | (Ok rp, s1) =>
      match principal_plan o s2 with
      | (Err e, s2) => (Err e, (s1, s2))
      | (Ok pp, s2) =>
          if negb (o_apply o) then (Ok None, (s1, s2)) else
          match ApplyRoles rs clock (o_prune o) rp s1 with
          | (_, Some e, s1) => (Err (ErrWrap "apply roles: " e ""), (s1, s2))
          | (ra, None, s1) =>
              match ApplyPrincipals ps clock (o_prune o) pp s2 with
              | (_, Some e, s2) => (Err (ErrWrap "apply principals: " e ""), (s1, s2))
              | (pa, None, s2) => (Ok (Some (ra, pa)), (s1, s2))
              end
          end
      end
  end.
End Command.

(** ** Equality is reflexive, and multi-valued fields compare up to order *)

Lemma sameSet_spec a b : sameSet a b = true ↔ a ≡ₚ b.
Proof.
  unfold sameSet. rewrite andb_true_iff, Nat.eqb_eq, bool_decide_eq_true. split.
  - intros [_ H]. by rewrite <- (proj1 (sort_strings_spec a)), H, (proj1 (sort_strings_spec b)).
  - intros H. split; [by rewrite H|by apply sort_strings_perm].
Qed.

Lemma RoleEqual_refl r : RoleEqual r r = true.
Proof.
  unfold RoleEqual. rewrite !andb_true_iff, !bool_decide_eq_true, !Z.eqb_refl.
  split_and!; try done; by apply sameSet_spec.
Qed.

Lemma PrincipalEqual_refl p : PrincipalEqual p p = true.
Proof.
  unfold PrincipalEqual. rewrite !andb_true_iff, !bool_decide_eq_true.
  split_and!; try done; by apply sameSet_spec.
Qed.

(** ** What a diff contains *)
Section DiffFacts.
Context {V R : Type} (key : V → string) (val : R → V) (src : R → string).
Context (equal : V → V → bool) (skip : V → bool).
Implicit Types (file : list V) (db : list R).

Definition adds (m : gmap string R) (v : V) : bool :=
  negb (skip v) && bool_decide (m !! key v = None).

Definition updates (m : gmap string R) (adopt : bool) (v : V) : bool :=
  negb (skip v) && match m !! key v with
  | None => false
  | Some rec => if bool_decide (src rec = SourcePortal) then adopt else negb (equal (val rec) v)
  end.

Definition collides (m : gmap string R) (v : V) : bool :=
  negb (skip v) && match m !! key v with
  | None => false
  | Some rec => bool_decide (src rec = SourcePortal)
  end.

Lemma classify_fold m adopt file plan :
  foldl (classify key val src equal skip m adopt) plan file =
  mkPlan (PlanAdd plan ++ List.filter (adds m) file)
    (PlanUpdate plan ++ List.filter (updates m adopt) file) (PlanPrune plan)
    (PlanConflicts plan ++ (key <$> List.filter (λ v, negb adopt && collides m v) file)).
Proof.
  revert plan. induction file as [|v file IH]; intros [a u p c]; simpl; [by rewrite !app_nil_r|].
  rewrite IH. clear IH. unfold adds, updates, collides.
  destruct (skip v); simpl; [by rewrite andb_false_r|].
  destruct (m !! key v) as [rec|]; simpl; [|by rewrite andb_false_r, <- app_assoc].
  case_bool_decide; destruct adopt; simpl; rewrite <- ?app_assoc; try done;
    by destruct (equal _ v); simpl; rewrite <- ?app_assoc.
Qed.

Lemma by_key_to_map db :
  keys_unique (rec_key key val) db → by_key key val db = to_map (rec_key key val) db.
Proof.
  induction db as [|rec db IH] using rev_ind; [done|]. intros Hu.
  assert (keys_unique (rec_key key val) db) as Hdb.
  { unfold keys_unique in *. rewrite fmap_app in Hu. by apply NoDup_app in Hu as (? & _ & _). }
  assert (to_map (rec_key key val) db !! rec_key key val rec = None) as Hn.
  { apply to_map_None. intros rec' Hin Hk. unfold keys_unique in Hu. rewrite fmap_app in Hu.
    apply NoDup_app in Hu as (_ & Hd & _). apply (Hd (rec_key key val rec')).
    - by apply list_elem_of_fmap_2.
    - rewrite Hk. by left. }
  unfold by_key in *. rewrite foldl_app. simpl. rewrite IH by done. by rewrite to_map_snoc.
Qed.

Lemma elem_of_in_file file k :
  k ∈ in_file key skip file ↔ ∃ v, v ∈ file ∧ skip v = false ∧ key v = k.
Proof using key skip.
  clear equal.
  unfold in_file. rewrite elem_of_list_to_set, list_elem_of_fmap.
  setoid_rewrite elem_of_filter_bool. setoid_rewrite negb_true_iff. naive_solver.
Qed.

Lemma diff_fields file db adopt :
  keys_unique (rec_key key val) db →
  let m := to_map (rec_key key val) db in
  let plan := diff key val src equal skip file db adopt in
  PlanAdd plan = List.filter (adds m) file ∧
  PlanUpdate plan = List.filter (updates m adopt) file ∧
  (∀ k, k ∈ PlanPrune plan ↔ k ∉ in_file key skip file ∧ ∃ rec, m !! k = Some rec ∧ src rec = SourceConfig) ∧
  (∀ k, k ∈ PlanConflicts plan ↔
     adopt = false ∧ k ∈ in_file key skip file ∧ ∃ rec, m !! k = Some rec ∧ src rec = SourcePortal) ∧
  NoDup (PlanPrune plan).
Proof.
  intros Hu. unfold diff. rewrite by_key_to_map, classify_fold by done. cbn. split_and!; [done|done|..].
  - intros k. rewrite elem_of_sort_strings, list_elem_of_fmap. setoid_rewrite elem_of_filter_bool.
    setoid_rewrite andb_true_iff. setoid_rewrite negb_true_iff.
    setoid_rewrite bool_decide_eq_true. setoid_rewrite bool_decide_eq_false.
    setoid_rewrite to_map_Some; [|done]. naive_solver.
  - intros k. rewrite elem_of_sort_strings, list_elem_of_fmap. setoid_rewrite elem_of_filter_bool.
    rewrite elem_of_in_file. unfold collides. split.
    + intros (v & -> & Hin & [Ha%negb_true_iff Hv]%andb_true_iff).
      apply andb_true_iff in Hv as [Hs%negb_true_iff Hv]. split; [done|]. split; [by exists v|].
      destruct (to_map _ db !! key v) as [rec|]; [|done]. exists rec. by apply bool_decide_eq_true in Hv.
    + intros (-> & (v & Hin & Hs & <-) & rec & Hm & Hsrc). exists v. rewrite Hm, Hs, Hsrc.
      by rewrite bool_decide_true by done.
  - unfold sort_strings. rewrite merge_sort_Permutation. by apply keys_unique_filter.
Qed.
End DiffFacts.

(** ** What applying a plan does

    [target]: the row a reconciliation wants under a key, from the row that is
    there. *)
Section Converge.
Context {V R S : Type} (key : V → string) (val : R → V) (src : R → string).
Context (equal : V → V → bool) (skip : V → bool) (vok : V → Prop).
Context (noun : string) (w : Writer S V) (clock : Applied → time).
(** The record of a value written from a file. *)
Context (mk : V → R).
Hypothesis val_mk : ∀ v, val (mk v) = v.
Hypothesis src_mk : ∀ v, src (mk v) = SourceConfig.
Hypothesis equal_refl : ∀ v, equal v v = true.

(** The store behind the writer implements the abstract table, up to [inj]ected
    errors. *)
Context (ok : S → Prop) (vw : S → gmap string R) (inj : error → S → Prop).
Context (errKey errExists errMissing : error).

Definition spec_write (o : write V) : M (gmap string R) unit :=
  match o with
  | WAdd v => spec_add (rec_key key val) errKey errExists (mk v)
  | WReplace v => spec_replace (rec_key key val) errKey errExists errMissing (key v) (mk v)
  | WDelete k => spec_delete errMissing k
  end.

Definition write_ok (o : write V) : Prop :=
  match o with WAdd v | WReplace v => vok v | WDelete _ => True end.

Hypothesis exec_spec : ∀ ap o s r s', write_ok o → ok s → exec_write key w clock ap o s = (r, s') →
  ok s' ∧ ((r, vw s') = spec_write o (vw s) ∨
    ∃ e, r = Err e ∧ inj e s ∧ (vw s' = vw s ∨ vw s' = (spec_write o (vw s)).2)).
Hypothesis inj_back : ∀ ap o s r s' e, exec_write key w clock ap o s = (r, s') → inj e s' → inj e s.

Definition effect (o : write V) : option R :=
  match o with WAdd v | WReplace v => Some (mk v) | WDelete _ => None end.

Definition enabled (m : gmap string R) (o : write V) : Prop :=
  match o with
  | WAdd v => key v ≠ "" ∧ m !! key v = None
  | WReplace v => key v ≠ "" ∧ is_Some (m !! key v)
  | WDelete k => is_Some (m !! k)
  end.

Lemma enabled_step m o :
  enabled m o →
  (spec_write o m).1 = Ok tt ∧
  (∀ k, (spec_write o m).2 !! k = if decide (k = write_key key o) then effect o else m !! k).
Proof.
  assert (∀ v, rec_key key val (mk v) = key v) as Hk by (intros v; unfold rec_key; by rewrite val_mk).
  destruct o as [v|v|k]; simpl; unfold spec_add, spec_replace, spec_delete; rewrite ?Hk.
  - intros [Hne Hn]. unfold str_empty. rewrite bool_decide_false by done. rewrite Hn. split; [done|].
    intros k. simpl. destruct (decide (k = key v)) as [->|Hkv]; [by rewrite lookup_insert_eq|].
    by rewrite lookup_insert_ne.
  - intros [Hne [rec Hrec]]. unfold str_empty. rewrite bool_decide_false by done. rewrite Hrec.
    rewrite (bool_decide_true (key v = key v)) by done. cbn [negb andb]. split; [done|].
    intros k. simpl. destruct (decide (k = key v)) as [->|Hkv]; [by rewrite lookup_insert_eq|].
    by rewrite lookup_insert_ne, lookup_delete_ne.
  - intros [rec Hrec]. rewrite Hrec. split; [done|]. intros j. simpl.
    destruct (decide (j = k)) as [->|Hjk]; [by rewrite lookup_delete_eq|]. by rewrite lookup_delete_ne.
Qed.

Lemma spec_write_frame m o k : k ≠ write_key key o → (spec_write o m).2 !! k = m !! k.
Proof.
  assert (∀ v, rec_key key val (mk v) = key v) as Hk by (intros v; unfold rec_key; by rewrite val_mk).
  destruct o as [v|v|j]; simpl; unfold spec_add, spec_replace, spec_delete; rewrite ?Hk; intros Hne.
  - destruct (str_empty _); [done|]. destruct (m !! key v); [done|]. by apply lookup_insert_ne.
  - destruct (str_empty _); [done|]. destruct (m !! key v); [|done].
    destruct (negb _ && _); [done|]. simpl. by rewrite lookup_insert_ne, lookup_delete_ne.
  - destruct (m !! j); [|done]. by apply lookup_delete_ne.
Qed.

(** A loop over writes with distinct keys: every key ends as it was or as the
    write says, and without an error all end as the writes say. *)
Lemma apply_each_spec l ap s ap' o s' :
  ok s → NoDup (write_key key <$> l) → Forall write_ok l → Forall (enabled (vw s)) l →
  apply_each key noun w clock l ap s = (ap', o, s') →
  ok s' ∧
  (∀ k, k ∉ write_key key <$> l → vw s' !! k = vw s !! k) ∧
  (∀ x, x ∈ l → vw s' !! write_key key x = effect x ∨
                (is_Some o ∧ vw s' !! write_key key x = vw s !! write_key key x)) ∧
  (∀ e, o = Some e → ∃ pre e', e = ErrWrap pre e' "" ∧ inj e' s) ∧
  (∀ e, inj e s' → inj e s).
Proof.
  intros Hs Hnd Hok Hen. revert ap s Hs Hen. induction l as [|x l IH]; intros ap s Hs Hen; simpl.
  { intros [= <- <- <-]. split_and!; [done|done|by intros x ?%elem_of_nil|done|done]. }
  rewrite fmap_cons in Hnd. apply NoDup_cons in Hnd as [Hx Hnd].
  inversion Hok as [|? ? Hokx Hokl]; subst. inversion Hen as [|? ? Henx Henl]; subst.
  destruct (exec_write key w clock ap x s) as [r s1] eqn:E.
  destruct (exec_spec ap x s r s1 Hokx Hs E) as [Hs1 Hr].
  destruct (enabled_step (vw s) x Henx) as [Hres Hview].
  destruct r as [[]|e].
  - assert (vw s1 = (spec_write x (vw s)).2) as Hv.
    { destruct Hr as [Hr|(e & [=] & _)]. by rewrite <- Hr. }
    intros Ha. apply (IH Hnd Hokl) in Ha as (Hs' & Hout & Hin & He & Hi); [|done|]; cycle 1.
    { apply Forall_forall. intros y Hy. pose proof (proj1 (Forall_forall _ _) Henl y Hy) as Hey.
      assert (write_key key y ≠ write_key key x) as Hne.
      { intros Heq. apply Hx. rewrite <- Heq. by apply list_elem_of_fmap_2. }
      pose proof (Hview (write_key key y)) as Hyv. rewrite decide_False in Hyv by done.
      rewrite <- Hv in Hyv. destruct y; simpl in *; by rewrite Hyv. }
    split_and!; [done|..].
    + intros k Hk. apply not_elem_of_cons in Hk. destruct Hk as [Hkx Hk].
      rewrite Hout by done. rewrite Hv, Hview. by rewrite decide_False.
    + intros y [->|Hy]%elem_of_cons.
      * left. rewrite Hout by done. rewrite Hv, Hview. by rewrite decide_True.
      * destruct (Hin y Hy) as [?|[Ho ->]]; [by left|]. right. split; [done|].
        rewrite Hv, Hview. rewrite decide_False; [done|]. intros Heq. apply Hx. rewrite <- Heq.
        by apply list_elem_of_fmap_2.
    + intros e Ho. destruct (He e Ho) as (pre & e' & -> & Hie). exists pre, e'. split; [done|].
      by eapply inj_back.
    + intros e Hie. eapply inj_back, Hi; [done|done].
  - assert (inj e s ∧ ∀ k, vw s1 !! k = vw s !! k ∨ (k = write_key key x ∧ vw s1 !! k = effect x)) as [Hie Hv].
    { destruct Hr as [Hr|(e' & [= <-] & Hie & Hr)].
      - destruct (spec_write x (vw s)). simpl in *. congruence.
      - split; [done|]. intros k. destruct Hr as [->| ->]; [by left|].
        rewrite Hview. destruct (decide _); [by right|by left]. }
    intros [= <- <- <-]. split_and!; [done|..].
    + intros k Hk. apply not_elem_of_cons in Hk. destruct (Hv k) as [?|[? _]]; [done|].
      by destruct Hk.
    + intros y Hy. destruct (Hv (write_key key y)) as [?|[Hyx Hy1]]; [right; split; [by eexists|done]|].
      assert (y = x) as ->; [|by left]. apply elem_of_cons in Hy as [?|Hy]; [done|].
      destruct Hx. rewrite <- Hyx. by apply list_elem_of_fmap_2.
    + intros e' [= <-]. by eexists _, e.
    + intros e'. by eapply inj_back.
Qed.

(** Whatever the writes do, no other key changes. *)
Lemma apply_each_frame l ap s ap' o s' k :
  ok s → Forall write_ok l → k ∉ write_key key <$> l →
  apply_each key noun w clock l ap s = (ap', o, s') →
  ok s' ∧ vw s' !! k = vw s !! k.
Proof.
  intros Hs Hok. revert ap s Hs. induction Hok as [|x l Hx _ IH]; intros ap s Hs; simpl.
  { by intros _ [= <- <- <-]. }
  intros Hk. apply not_elem_of_cons in Hk as [Hkx Hk]. destruct (exec_write key w clock ap x s) as [r s1] eqn:E.
  destruct (exec_spec ap x s r s1 Hx Hs E) as [Hs1 Hr].
  assert (vw s1 !! k = vw s !! k) as Hv.
  { pose proof (spec_write_frame (vw s) x k Hkx) as Hf. destruct Hr as [Hr|(e & _ & _ & [->| ->])]; [|done|done].
    by rewrite <- Hr in Hf. }
  destruct r; [|by intros [= <- <- <-]].
  intros Ha. destruct (IH _ _ Hs1 Hk Ha) as [? ->]. done.
Qed.

(** The plan as one sequence of writes. *)
Definition plan_writes (prune : bool) (p : Plan V) : list (write V) :=
  (WAdd <$> PlanAdd p) ++ (WReplace <$> PlanUpdate p) ++ (if prune then WDelete <$> PlanPrune p else []).

Lemma apply_each_app l1 l2 ap s :
  apply_each key noun w clock (l1 ++ l2) ap s =
  match apply_each key noun w clock l1 ap s with
  | (ap, Some e, s) => (ap, Some e, s)
  | (ap, None, s) => apply_each key noun w clock l2 ap s
  end.
Proof.
  revert ap s. induction l1 as [|x l1 IH]; intros ap s; simpl; [done|].
  destruct (exec_write _ _ _ _ x s) as [[?|?] ?]; [apply IH|done].
Qed.

Lemma apply_writes prune p s :
  apply key noun w clock prune p s = apply_each key noun w clock (plan_writes prune p) (mkApplied 0 0 0) s.
Proof.
  unfold apply, plan_writes. rewrite apply_each_app.
  destruct (apply_each _ _ _ _ (WAdd <$> PlanAdd p) _ s) as [[ap [e|]] s1]; [done|].
  rewrite apply_each_app. destruct (apply_each _ _ _ _ (WReplace <$> PlanUpdate p) _ s1) as [[ap1 [e|]] s2]; [done|].
  by destruct prune.
Qed.

Definition find_file (file : list V) (k : string) : option V :=
  List.find (λ v, negb (skip v) && bool_decide (key v = k)) file.

Definition target (file : list V) (adopt prune : bool) (m : gmap string R) (k : string) : option R :=
  match find_file file k, m !! k with
  | Some v, None => Some (mk v)
  | Some v, Some rec =>
      if bool_decide (src rec = SourcePortal) then if adopt then Some (mk v) else Some rec
      else if equal (val rec) v then Some rec else Some (mk v)
  | None, Some rec => if prune && bool_decide (src rec = SourceConfig) then None else Some rec
  | None, None => None
  end.
(** A file without repeated keys, whose values the store can hold. *)
Definition file_ok (file : list V) : Prop :=
  keys_unique key (List.filter (λ v, negb (skip v)) file) ∧
  Forall (λ v, skip v = false → vok v ∧ key v ≠ "") file.

Lemma find_file_spec file k v :
  file_ok file → find_file file k = Some v ↔ v ∈ file ∧ skip v = false ∧ key v = k.
Proof.
  intros [Hu _]. assert (∀ u, u ∈ file → skip u = false → u ∈ List.filter (λ v, negb (skip v)) file) as Hin.
  { intros u ? Hs. apply elem_of_filter_bool. by rewrite Hs. }
  unfold find_file. split.
  - intros [H1 H2]%List.find_some. apply andb_true_iff in H2 as [?%negb_true_iff ?%bool_decide_eq_true].
    by apply list_elem_of_In in H1.
  - intros (Hv & Hs & Hk). destruct (List.find _ file) as [u|] eqn:E.
    + apply List.find_some in E as [H1 H2]. apply andb_true_iff in H2 as [Hsu%negb_true_iff Hku%bool_decide_eq_true].
      apply list_elem_of_In in H1.
      f_equal. assert (to_map key (List.filter (λ v, negb (skip v)) file) !! k = Some u) as E1
        by (apply to_map_Some; [done|]; split; [by apply Hin|done]).
      assert (to_map key (List.filter (λ v, negb (skip v)) file) !! k = Some v) as E2
        by (apply to_map_Some; [done|]; split; [by apply Hin|done]). congruence.
    + exfalso. apply list_elem_of_In in Hv. eapply List.find_none in E; [|done]. simpl in E.
      rewrite Hs, bool_decide_true in E by done. done.
Qed.

Lemma find_file_None file k :
  file_ok file → find_file file k = None ↔ k ∉ in_file key skip file.
Proof.
  intros Hf. rewrite elem_of_in_file. split.
  - intros Hn (v & Hv). apply (find_file_spec file k v Hf) in Hv. congruence.
  - intros Hn. destruct (find_file file k) as [v|] eqn:E; [|done].
    destruct Hn. exists v. by apply find_file_spec.
Qed.

Lemma filter_keys_unique (f g : V → bool) file :
  (∀ v, g v = true → f v = true) → keys_unique key (List.filter f file) →
  keys_unique key (List.filter g file).
Proof.
  intros Hfg Hu. assert (List.filter g file = List.filter g (List.filter f file)) as ->; [|by apply keys_unique_filter].
  clear Hu. induction file as [|v file IH]; [done|]. simpl. destruct (g v) eqn:Eg.
  - rewrite (Hfg v Eg). simpl. by rewrite Eg, IH.
  - destruct (f v); simpl; [by rewrite Eg|done].
Qed.

Section Planned.
Context (file : list V) (db : list R) (adopt prune : bool).
Hypothesis Hfile : file_ok file.
Hypothesis Hdb : keys_unique (rec_key key val) db.
Let m := to_map (rec_key key val) db.
Let plan := diff key val src equal skip file db adopt.

Lemma elem_of_plan_writes x :
  x ∈ plan_writes prune plan ↔
  match x with
  | WAdd v => v ∈ file ∧ skip v = false ∧ m !! key v = None
  | WReplace v => v ∈ file ∧ updates key val src equal skip m adopt v = true
  | WDelete k => prune = true ∧ k ∉ in_file key skip file ∧ ∃ rec, m !! k = Some rec ∧ src rec = SourceConfig
  end.
Proof.
  destruct (diff_fields key val src equal skip file db adopt Hdb) as (Ha & Hu & Hp & _).
  unfold plan_writes. fold plan in Ha, Hu, Hp. fold m in Ha, Hu, Hp. rewrite Ha, Hu.
  rewrite !elem_of_app, !list_elem_of_fmap. setoid_rewrite elem_of_filter_bool.
  assert (∀ v, adds key skip m v = true ↔ skip v = false ∧ m !! key v = None) as Hadds.
  { intros v. unfold adds. by rewrite andb_true_iff, negb_true_iff, bool_decide_eq_true. }
  setoid_rewrite Hadds. destruct x as [v|v|k].
  - split; [|intros ?; left; by exists v]. intros [(u & [= ->] & ?)|[(u & [=] & _)|H]]; [done|].
    destruct prune; [|by apply elem_of_nil in H]. by apply list_elem_of_fmap in H as (? & [=] & _).
  - split; [|intros ?; right; left; by exists v].
    intros [(u & [=] & ?)|[(u & [= ->] & ?)|H]]; [done|].
    destruct prune; [|by apply elem_of_nil in H]. by apply list_elem_of_fmap in H as (? & [=] & _).
  - split.
    + intros [(u & [=] & ?)|[(u & [=] & ?)|H]]. destruct prune; [|by apply elem_of_nil in H].
      apply list_elem_of_fmap in H as (? & [= ->] & H). by apply Hp in H.
    + intros (-> & H). right. right. apply list_elem_of_fmap. exists k. split; [done|]. by apply Hp.
Qed.

Lemma updates_spec v :
  updates key val src equal skip m adopt v = true ↔
  skip v = false ∧ ∃ rec, m !! key v = Some rec ∧
    (if bool_decide (src rec = SourcePortal) then adopt = true else equal (val rec) v = false).
Proof.
  unfold updates. rewrite andb_true_iff, negb_true_iff. destruct (m !! key v) as [rec|]; cycle 1.
  { split; [by intros [_ ?]|]. by intros (_ & ? & ? & _). }
  split.
  - intros [Hs H]. split; [done|]. exists rec. split; [done|]. case_bool_decide; [done|].
    by apply negb_true_iff.
  - intros (Hs & rec' & [= <-] & H). split; [done|]. case_bool_decide; [done|]. by rewrite H.
Qed.

Lemma plan_writes_ok :
  Forall write_ok (plan_writes prune plan) ∧ Forall (enabled m) (plan_writes prune plan).
Proof.
  destruct Hfile as [_ Hf]. rewrite !Forall_forall. rewrite Forall_forall in Hf.
  split; intros x Hx; apply elem_of_plan_writes in Hx.
  - destruct x; simpl; [| |done].
    + destruct Hx as (Hv & Hs & _). by apply Hf.
    + destruct Hx as (Hv & [Hs _]%updates_spec). by apply Hf.
  - destruct x; simpl.
    + destruct Hx as (Hv & Hs & Hn). split; [by apply Hf|done].
    + destruct Hx as (Hv & (Hs & rec & Hr & _)%updates_spec). split; [by apply Hf|by exists rec].
    + destruct Hx as (_ & _ & rec & Hr & _). by exists rec.
Qed.

Lemma plan_writes_nodup : NoDup (write_key key <$> plan_writes prune plan).
Proof.
  destruct (diff_fields key val src equal skip file db adopt Hdb) as (Ha & Hu & Hp & _ & Hnd).
  fold plan in Ha, Hu, Hp, Hnd. fold m in Ha, Hu, Hp. unfold plan_writes.
  assert (∀ l : list string, write_key key <$> (WDelete (V:=V) <$> l) = l) as Hd.
  { induction l as [|x l IH]; [done|]. cbn. by f_equal. }
  assert (write_key key <$> (if prune then WDelete <$> PlanPrune plan else []) =
          if prune then PlanPrune plan else []) as Hpr by (by destruct prune).
  rewrite !fmap_app, Hpr, <- !list_fmap_compose, Ha, Hu.
  assert (∀ f, (∀ v, f v = true → skip v = false) → NoDup (key <$> List.filter f file)) as Hfu.
  { intros f Hfs. apply (filter_keys_unique (λ v, negb (skip v))); [|apply Hfile].
    intros v Hv. by rewrite (Hfs v Hv). }
  assert (∀ v, adds key skip m v = true → skip v = false ∧ m !! key v = None) as Hadds.
  { intros v. unfold adds. by rewrite andb_true_iff, negb_true_iff, bool_decide_eq_true. }
  apply NoDup_app. split_and!.
  - apply Hfu. intros v Hv. by apply Hadds.
  - intros k (v & -> & [Hv Hin]%elem_of_filter_bool)%list_elem_of_fmap.
    apply Hadds in Hin as [Hs Hn]. rewrite elem_of_app. intros [Hk|Hk].
    + apply list_elem_of_fmap in Hk as (u & Heq & [_ Hin]%elem_of_filter_bool).
      apply updates_spec in Hin as (_ & rec & Hm & _). simpl in Heq. rewrite <- Heq in Hm. congruence.
    + destruct prune; [|by apply elem_of_nil in Hk]. apply Hp in Hk as [Hk _].
      apply Hk, elem_of_in_file. by exists v.
  - apply NoDup_app. split_and!.
    + apply Hfu. intros v Hv. by apply updates_spec in Hv as [? _].
    + intros k (v & -> & [Hv Hin]%elem_of_filter_bool)%list_elem_of_fmap Hk.
      apply updates_spec in Hin as [Hs _]. destruct prune; [|by apply elem_of_nil in Hk].
      apply Hp in Hk as [Hk _]. apply Hk, elem_of_in_file. by exists v.
    + destruct prune; [done|constructor].
Qed.

(** Every key is either written as the target says or already as it says. *)
Lemma plan_writes_target k :
  (∃ x, x ∈ plan_writes prune plan ∧ write_key key x = k ∧ effect x = target file adopt prune m k) ∨
  (k ∉ write_key key <$> plan_writes prune plan ∧ target file adopt prune m k = m !! k).
Proof.
  unfold target. destruct (decide (k ∈ write_key key <$> plan_writes prune plan)) as [Hk|Hk].
  - left. apply list_elem_of_fmap in Hk as (x & -> & Hx). exists x. split; [done|]. split; [done|].
    apply elem_of_plan_writes in Hx. destruct x as [v|v|k]; simpl.
    + destruct Hx as (Hv & Hs & ->). by rewrite (proj2 (find_file_spec file (key v) v Hfile)).
    + destruct Hx as (Hv & (Hs & rec & -> & Hr)%updates_spec).
      rewrite (proj2 (find_file_spec file (key v) v Hfile)) by done.
      case_bool_decide; by rewrite Hr.
    + destruct Hx as (-> & Hn%find_file_None & rec & -> & Hsrc); [|done]. rewrite Hn.
      by rewrite bool_decide_true.
  - right. split; [done|].
    assert (∀ x, x ∈ plan_writes prune plan → write_key key x ≠ k) as Hx.
    { intros x Hx <-. apply Hk. by apply list_elem_of_fmap_2. }
    destruct (find_file file k) as [v|] eqn:Ef; [pose proof Ef as Hv; apply find_file_spec in Hv as (Hv & Hs & <-); [|done]|];
      destruct (m !! _) as [rec|] eqn:Em; try done.
    + destruct (updates key val src equal skip m adopt v) eqn:Eu.
      { destruct (Hx (WReplace v)); [|done]. by apply elem_of_plan_writes. }
      unfold updates in Eu. rewrite Em, Hs in Eu. simpl in Eu.
      case_bool_decide; [by rewrite Eu|]. apply negb_false_iff in Eu. by rewrite Eu.
    + destruct (Hx (WAdd v)); [|done]. by apply elem_of_plan_writes.
    + destruct prune eqn:Ep; [|done]. case_bool_decide; [|done]. exfalso. apply (Hx (WDelete k)); [|done].
      rewrite <- Ep. apply elem_of_plan_writes. split_and!; [done|by apply find_file_None|by exists rec].
Qed.

(** Applying the plan of a diff: every key ends as the target says, or, after an
    error, as it was. *)
Lemma apply_diff s ap o s' :
  ok s → vw s = m → apply key noun w clock prune plan s = (ap, o, s') →
  ok s' ∧
  (∀ k, vw s' !! k = target file adopt prune m k ∨ (is_Some o ∧ vw s' !! k = m !! k)) ∧
  (∀ e, o = Some e → ∃ pre e', e = ErrWrap pre e' "" ∧ inj e' s).
Proof.
  intros Hs Hv. rewrite apply_writes. intros Ha. destruct plan_writes_ok as [Hok Hen].
  rewrite <- Hv in Hen.
  destruct (apply_each_spec _ _ _ _ _ _ Hs plan_writes_nodup Hok Hen Ha) as (Hs' & Hout & Hin & He & _).
  split_and!; [done| |done]. intros k.
  destruct (plan_writes_target k) as [(x & Hx & <- & <-)|[Hk ->]].
  - destruct (Hin x Hx) as [?|[? ?]]; [by left|]. right. by rewrite <- Hv.
  - left. by rewrite Hout, Hv.
Qed.
End Planned.

(** Rows of a table that is as the target says need no change. *)
Lemma diff_settled file db adopt prune m :
  file_ok file → keys_unique (rec_key key val) db →
  (∀ k, to_map (rec_key key val) db !! k = target file adopt prune m k) →
  let again := diff key val src equal skip file db adopt in
  PlanAdd again = [] ∧ PlanUpdate again = [] ∧ (prune = true → PlanPrune again = []).
Proof.
  intros Hf Hu Ht. cbn zeta. destruct (diff_fields key val src equal skip file db adopt Hu) as (-> & -> & Hp & _).
  assert (∀ v, v ∈ file → skip v = false → ∃ rec, to_map (rec_key key val) db !! key v = Some rec ∧
    (src rec = SourcePortal → adopt = false) ∧ (src rec ≠ SourcePortal → equal (val rec) v = true)) as Hin.
  { intros v Hv Hs. rewrite Ht. unfold target. rewrite (proj2 (find_file_spec file (key v) v Hf)) by done.
    assert (∃ rec, Some (mk v) = Some rec ∧ (src rec = SourcePortal → adopt = false) ∧
      (src rec ≠ SourcePortal → equal (val rec) v = true)) as Hmk.
    { exists (mk v). rewrite src_mk, val_mk, equal_refl. done. }
    destruct (m !! key v) as [rec|]; [|done]. case_bool_decide as Hsrc; [destruct adopt; [done|by exists rec]|].
    destruct (equal (val rec) v) eqn:E; [by exists rec|done]. }
  split_and!.
  - apply filter_none. intros v Hv. unfold adds. destruct (skip v) eqn:Hs; [done|].
    destruct (Hin v Hv Hs) as (rec & -> & _). done.
  - apply filter_none. intros v Hv. unfold updates. destruct (skip v) eqn:Hs; [done|].
    destruct (Hin v Hv Hs) as (rec & -> & Ha & He). simpl. case_bool_decide as Hsrc; [by apply Ha|].
    by rewrite He.
  - intros ->. destruct (PlanPrune _) as [|k l]; [done|]. exfalso.
    destruct (proj1 (Hp k)) as (Hk & rec & Hm & Hsrc); [by left|]. rewrite Ht in Hm. unfold target in Hm.
    rewrite (proj2 (find_file_None file k Hf)) in Hm by done. destruct (m !! k) as [r0|]; [|done].
    simpl in Hm. case_bool_decide; [done|]. by injection Hm as ->.
Qed.
End Converge.

(** ** The two instances on the database *)

Abbreviation config_role := (λ r, mkRoleRecord r SourceConfig) (only parsing).
Abbreviation config_principal := (λ p, mkPrincipalRecord p SourceConfig) (only parsing).
Abbreviation roles_spec := (spec_write Policy.Name RecRole config_role
  SqlStore.Roles.errNameRequired InMemoryStore.ErrRoleExists InMemoryStore.ErrRoleNotFound) (only parsing).
Abbreviation principals_spec := (spec_write MatchedSAN RecPrincipal config_principal
  SqlStore.Principals.errSANRequired ErrPrincipalExists ErrPrincipalNotFound) (only parsing).

Lemma roles_exec_spec dl clock ap o (s : db SqlStore.Roles.table) r s' :
  write_ok role_ok o → roles_ok (data s) →
  exec_write Policy.Name (role_writer (role_store dl)) clock ap o s = (r, s') →
  roles_ok (data s') ∧
  ((r, roles_view (data s')) = roles_spec o (roles_view (data s)) ∨
   ∃ e, r = Err e ∧ injected e s ∧
     (roles_view (data s') = roles_view (data s) ∨
      roles_view (data s') = (roles_spec o (roles_view (data s))).2)).
Proof.
  intros Ho Hs E.
  assert (∀ op, exec_role op s = (r, s') → role_op_ok op →
    roles_ok (data s') ∧ ((r, roles_view (data s')) = spec_role op (roles_view (data s)) ∨
      ∃ e, r = Err e ∧ injected e s ∧ (roles_view (data s') = roles_view (data s) ∨
        roles_view (data s') = (spec_role op (roles_view (data s))).2))) as H.
  { intros op Eop Hop. destruct (exec_role_refines op Hop s r s' Hs Eop) as [? [?|(e & ? & ? & Hv)]];
      (split; [done|]); [by left|]. right. exists e. split_and!; [done|done|].
    destruct Hv as [?|[_ ?]]; [by left|by right]. }
  destruct o as [v|v|k]; [apply (H (RAdd (clock ap) v SourceConfig))
    |apply (H (RReplace (clock ap) (Policy.Name v) v SourceConfig))|apply (H (RDelete k))];
    try exact E; done.
Qed.

Lemma principals_exec_spec dl clock ap o (s : db SqlStore.Principals.table) r s' :
  write_ok (λ p, strings_ok (Mtls.Groups p)) o → principals_ok (data s) →
  exec_write MatchedSAN (principal_writer (principal_store dl)) clock ap o s = (r, s') →
  principals_ok (data s') ∧
  ((r, principals_view (data s')) = principals_spec o (principals_view (data s)) ∨
   ∃ e, r = Err e ∧ injected e s ∧
     (principals_view (data s') = principals_view (data s) ∨
      principals_view (data s') = (principals_spec o (principals_view (data s))).2)).
Proof.
  intros Ho Hs E.
  assert (∀ op, exec_principal op s = (r, s') → principal_op_ok op →
    principals_ok (data s') ∧ ((r, principals_view (data s')) = spec_principal op (principals_view (data s)) ∨
      ∃ e, r = Err e ∧ injected e s ∧ (principals_view (data s') = principals_view (data s) ∨
        principals_view (data s') = (spec_principal op (principals_view (data s))).2))) as H.
  { intros op Eop Hop. destruct (exec_principal_refines op Hop s r s' Hs Eop) as [? [?|(e & ? & ? & Hv)]];
      (split; [done|]); [by left|]. right. exists e. split_and!; [done|done|].
    destruct Hv as [?|[_ ?]]; [by left|by right]. }
  destruct o as [v|v|k]; [apply (H (PAdd (clock ap) v SourceConfig))
    |apply (H (PReplace (clock ap) (MatchedSAN v) v SourceConfig))|apply (H (PDelete k))];
    try exact E; done.
Qed.

Lemma exec_write_suffix {T V} (key : V → string) (w : Writer (db T) V) clock ap o d r d' :
  (∀ now v src d r d', w_add w now v src d = (r, d') → faults d' `suffix_of` faults d) →
  (∀ now k v src d r d', w_replace w now k v src d = (r, d') → faults d' `suffix_of` faults d) →
  (∀ k d r d', w_delete w k d = (r, d') → faults d' `suffix_of` faults d) →
  exec_write key w clock ap o d = (r, d') → faults d' `suffix_of` faults d.
Proof. destruct o; simpl; eauto. Qed.

Lemma roles_inj_back dl clock ap o s r s' e :
  exec_write Policy.Name (role_writer (role_store dl)) clock ap o s = (r, s') → injected e s' → injected e s.
Proof.
  intros E. apply injected_suffix. eapply exec_write_suffix; [..|exact E]; simpl; intros *;
    [apply (exec_role_suffix (RAdd _ _ _))|apply (exec_role_suffix (RReplace _ _ _ _))|apply (exec_role_suffix (RDelete _))].
Qed.

Lemma principals_inj_back dl clock ap o s r s' e :
  exec_write MatchedSAN (principal_writer (principal_store dl)) clock ap o s = (r, s') →
  injected e s' → injected e s.
Proof.
  intros E. apply injected_suffix. eapply exec_write_suffix; [..|exact E]; simpl; intros *;
    [apply (exec_principal_suffix (PAdd _ _ _))|apply (exec_principal_suffix (PReplace _ _ _ _))
    |apply (exec_principal_suffix (PDelete _))].
Qed.

Lemma apply_nothing {V S} (key : V → string) noun (w : Writer S V) clock prune p s :
  PlanAdd p = [] → PlanUpdate p = [] → (prune = true → PlanPrune p = []) →
  apply key noun w clock prune p s = (mkApplied 0 0 0, None, s).
Proof.
  intros Ha Hu Hp. unfold apply. rewrite Ha, Hu. simpl. destruct prune; [|done]. by rewrite Hp.
Qed.

(** ** Reading, diffing and applying one table of the database *)
Section Phase.
Context {T V R : Type} (key : V → string) (val : R → V) (src : R → string).
Context (equal : V → V → bool) (skip : V → bool) (vok : V → Prop) (mk : V → R).
Context (noun : string) (w : Writer (db T) V) (clock : Applied → time).
Context (errKey errExists errMissing : error).
Context (ok : T → Prop) (vw : T → gmap string R) (all : M (db T) (list R)).
Hypothesis val_mk : ∀ v, val (mk v) = v.
Hypothesis src_mk : ∀ v, src (mk v) = SourceConfig.
Hypothesis equal_refl : ∀ v, equal v v = true.

Abbreviation spec := (spec_write key val mk errKey errExists errMissing).

Hypothesis exec_spec : ∀ ap o (s : db T) r s', write_ok vok o → ok (data s) →
  exec_write key w clock ap o s = (r, s') →
  ok (data s') ∧ ((r, vw (data s')) = spec o (vw (data s)) ∨
    ∃ e, r = Err e ∧ injected e s ∧ (vw (data s') = vw (data s) ∨ vw (data s') = (spec o (vw (data s))).2)).
Hypothesis inj_back : ∀ ap o (s : db T) r s' e,
  exec_write key w clock ap o s = (r, s') → injected e s' → injected e s.
Hypothesis all_spec : ∀ d r d', ok (data d) → all d = (r, d') →
  data d' = data d ∧ (∀ e, injected e d' → injected e d) ∧
  match r with
  | Ok l => keys_unique (rec_key key val) l ∧ to_map (rec_key key val) l = vw (data d)
  | Err e => injected e d
  end.

Context (env : string → string) (skipped : bool) (var unset reading : string).
Context (read : string → result (list V)) (adopt prune : bool).
Hypothesis read_ok : ∀ path file, read path = Ok file → Forall vok file.

Abbreviation plan_phase :=
  (plan_of env skipped var unset reading read all (diff key val src equal skip) adopt).

(** What a plan that was made out of the table is. *)
Definition planned (t : T) (plan : Plan V) : Prop :=
  if skipped then plan = mkPlan [] [] [] [] else
  ∃ file recs, env var ≠ "" ∧ read (env var) = Ok file ∧ keys_unique (rec_key key val) recs ∧
    to_map (rec_key key val) recs = vw t ∧ plan = diff key val src equal skip file recs adopt.

Lemma plan_of_spec d r d' :
  ok (data d) → plan_phase d = (r, d') →
  data d' = data d ∧ (∀ e, injected e d' → injected e d) ∧
  match r with
  | Ok plan => planned (data d) plan
  | Err e => skipped = false ∧ (env var = "" ∨ (∃ e', read (env var) = Err e') ∨ ∃ e', injected e' d)
  end.
Proof.
  intros Hok. unfold plan_of, planned. destruct skipped; [by intros [= <- <-]|].
  unfold str_empty. case_bool_decide as He; [intros [= <- <-]; split_and!; auto|].
  destruct (read (env var)) as [file|e] eqn:Er; [|intros [= <- <-]; split_and!; eauto].
  destruct (all d) as [[l|e] d1] eqn:Ea; intros [= <- <-];
    destruct (all_spec _ _ _ Hok Ea) as (Hd & Hi & Hr); split_and!; try done.
  - destruct Hr as [Hu Hm]. by exists file, l.
  - right. right. by exists e.
Qed.

Lemma planned_writes_ok t plan : planned t plan → Forall (write_ok vok) (plan_writes prune plan).
Proof.
  unfold planned. destruct skipped; [intros ->; by destruct prune; constructor|].
  intros (file & recs & _ & Hr & Hu & _ & ->). apply Forall_forall. intros x Hx.
  apply elem_of_plan_writes in Hx; [|done]. pose proof (proj1 (Forall_forall _ _) (read_ok _ _ Hr)) as Hv.
  destruct x; [by apply Hv, Hx..|done].
Qed.

(** Without [adopt] no write names a portal row. *)
Lemma planned_spares_portal t plan k rec :
  planned t plan → adopt = false → vw t !! k = Some rec → src rec = SourcePortal →
  k ∉ write_key key <$> plan_writes prune plan.
Proof.
  intros Hp Ha Hk Hsrc. unfold planned in Hp. destruct skipped.
  { subst plan. unfold plan_writes. by destruct prune; apply not_elem_of_nil. }
  destruct Hp as (file & recs & _ & Hr & Hu & Hm & ->).
  intros (x & -> & Hx)%list_elem_of_fmap. apply elem_of_plan_writes in Hx; [|done].
  destruct x as [v|v|k]; simpl in *.
  - destruct Hx as (_ & _ & Hx). congruence.
  - destruct Hx as (_ & (_ & rec' & Hx & Hc)%updates_spec). rewrite Hm in Hx. rewrite bool_decide_true in Hc by congruence.
    congruence.
  - destruct Hx as (_ & _ & rec' & Hx & Hc). rewrite Hm, Hk in Hx. injection Hx as <-.
    rewrite Hsrc in Hc. discriminate.
Qed.

Lemma phase_safe d plan ap o d' k rec :
  ok (data d) → planned (data d) plan → apply key noun w clock prune plan d = (ap, o, d') →
  ok (data d') ∧
  (vw (data d) !! k = Some rec → adopt = false → src rec = SourcePortal → vw (data d') !! k = Some rec).
Proof.
  intros Hok Hp. rewrite apply_writes. intros Ha.
  assert (∀ j, j ∉ write_key key <$> plan_writes prune plan →
    ok (data d') ∧ vw (data d') !! j = vw (data d) !! j) as Hf.
  { intros j Hj. eapply (apply_each_frame key val vok noun w clock mk val_mk (λ d, ok (data d)) (λ d, vw (data d))
      injected errKey errExists errMissing exec_spec); [done| |done|done].
    by eapply planned_writes_ok. }
  split.
  - destruct (exist_fresh (list_to_set (write_key key <$> plan_writes prune plan) : gset string)) as [j Hj].
    apply (Hf j). by rewrite elem_of_list_to_set in Hj.
  - intros Hk Hn Hsrc. destruct (Hf k) as [_ ->]; [|done]. by eapply planned_spares_portal.
Qed.

Lemma phase_converges d plan ap o d' :
  ok (data d) → planned (data d) plan → apply key noun w clock prune plan d = (ap, o, d') →
  (∀ file, read (env var) = Ok file → file_ok key skip vok file) →
  ((∀ e, ¬ injected e d) → o = None) ∧
  (o = None →
   (if skipped then vw (data d') = vw (data d) else
    ∃ file, read (env var) = Ok file ∧
      ∀ k, vw (data d') !! k = target key val src equal skip mk file adopt prune (vw (data d)) k) ∧
   ∀ d1 again d2 e, data d1 = data d' → ok (data d1) → plan_phase d1 = (Ok again, d2) →
     apply key noun w clock prune again e = (mkApplied 0 0 0, None, e)).
Proof.
  intros Hok Hp Ha Hfile. unfold planned in Hp. destruct skipped eqn:Hsk.
  { subst plan. rewrite apply_nothing in Ha by done. injection Ha as <- <- <-. split; [done|].
    intros _. split; [done|]. intros d1 again d2 d3 _ _. unfold plan_of. intros [= <- _].
    by apply apply_nothing. }
  destruct Hp as (file & recs & Henv & Hr & Hu & Hm & ->). specialize (Hfile file Hr).
  destruct (apply_diff key val src equal skip vok noun w clock mk val_mk (λ d, ok (data d)) (λ d, vw (data d))
    injected errKey errExists errMissing exec_spec inj_back file recs adopt prune Hfile Hu
    d ap o d' Hok (eq_sym Hm) Ha) as (Hok' & Hk & He). rewrite Hm in Hk.
  assert (o = None → ∀ k, vw (data d') !! k = target key val src equal skip mk file adopt prune (vw (data d)) k) as Ht.
  { intros -> k. destruct (Hk k) as [?|[[? ?] _]]; [done|congruence]. }
  split.
  - intros Hf. destruct o as [e|]; [|done]. destruct (He e eq_refl) as (_ & e' & _ & Hi).
    by destruct (Hf e').
  - intros Ho. split; [exists file; split; [done|by apply Ht]|].
    intros d1 again d2 d3 Hd1 Hok1 Hagain. unfold plan_of in Hagain. unfold str_empty in Hagain.
    rewrite bool_decide_false, Hr in Hagain by done. destruct (all d1) as [[l|?] d4] eqn:Ea; [|done].
    injection Hagain as <- _. destruct (all_spec _ _ _ Hok1 Ea) as (_ & _ & Hul & Hml).
    rewrite Hd1 in Hml. edestruct (diff_settled key val src equal skip vok mk val_mk src_mk equal_refl
      file l adopt prune (vw (data d))) as (? & ? & ?); [done|done| |by apply apply_nothing].
    intros k. rewrite Hml. by apply Ht.
Qed.
End Phase.

Lemma AllRecords_suffix {R V} (rkey : R → string) (scan : R → result V) dl d r d' :
  AllRecords rkey scan dl d = (r, d') → faults d' `suffix_of` faults d.
Proof.
  unfold AllRecords. destruct (select_all rkey dl d) as [[rows|e] d1] eqn:Es;
    apply stmt_cases in Es as [Hs _]; by intros [= _ <-].
Qed.

Lemma all_records_spec {R V} (rkey : R → string) (vkey : V → string) (scan : R → result V) dl d r d' :
  tbl_ok rkey vkey scan (data d) → AllRecords rkey scan dl d = (r, d') →
  data d' = data d ∧ (∀ e, injected e d' → injected e d) ∧
  match r with
  | Ok l => keys_unique vkey l ∧ to_map vkey l = view vkey scan (data d)
  | Err e => injected e d
  end.
Proof.
  intros Ht E. pose proof (AllRecords_suffix _ _ _ _ _ _ E) as Hs.
  destruct (AllRecords_spec rkey vkey scan dl d r d' Ht E) as [Hd H].
  split_and!; [done|intros e; by apply injected_suffix|].
  pose proof (records_unique rkey vkey scan _ Ht) as Hu. destruct H as [(l & -> & Hp)|(e & -> & He)]; [|done].
  assert (keys_unique vkey l) as Hl by (by eapply keys_unique_perm).
  split; [done|]. by apply to_map_perm.
Qed.

Section Commands.
Context (dl : Dialect) (env : string → string) (ReadFile : string → result string).
Context (decode_roles : string → result (list Role)) (decode_entries : string → result (list principalEntry)).
Context (clock : Applied → time).
(** [encoding/json] yields valid UTF-8. *)
Hypothesis decode_roles_ok : ∀ s l, decode_roles s = Ok l → Forall role_ok l.
Hypothesis decode_entries_ok : ∀ s l, decode_entries s = Ok l → Forall (λ e, strings_ok (e_groups e)) l.

Abbreviation roles_file := (readRolesFile ReadFile decode_roles (env "CERTD_ROLES_FILE")).
Abbreviation principals_file := (readPrincipalsFile ReadFile decode_entries (env "CERTD_MTLS_PRINCIPALS_FILE")).
Abbreviation reconcile := (runReconcile env ReadFile decode_roles decode_entries
  (role_store dl) (principal_store dl) clock).

Lemma readRolesFile_ok path l : readRolesFile ReadFile decode_roles path = Ok l → Forall role_ok l.
Proof.
  unfold readRolesFile. intros (s & _ & Hl%rwrap_Ok)%rbind_Ok. by eapply decode_roles_ok.
Qed.

Lemma principals_of_spec path raw l :
  principals_of path raw = Ok l →
  l = (λ r, mkPrincipal (e_name r) (e_san r) (e_groups r)) <$> raw ∧ Forall (λ r, e_san r ≠ "") raw.
Proof.
  revert l. induction raw as [|r raw IH]; intros l; simpl; [by intros [= <-]|].
  intros H. apply guard_err_Ok in H as [Hs (ps & Hp & Hl)%rbind_Ok]. injection Hl as <-.
  destruct (IH _ Hp) as [-> Hf]. split; [done|]. constructor; [|done].
  unfold str_empty in Hs. by apply bool_decide_eq_false in Hs.
Qed.

Lemma readPrincipalsFile_ok path l :
  readPrincipalsFile ReadFile decode_entries path = Ok l → Forall (λ p, strings_ok (Mtls.Groups p)) l.
Proof.
  unfold readPrincipalsFile. intros (s & _ & (raw & Hr%rwrap_Ok & Hl)%rbind_Ok)%rbind_Ok.
  apply principals_of_spec in Hl as [-> _]. apply Forall_fmap. by eapply decode_entries_ok.
Qed.

Definition role_target : list Role → bool → bool → gmap string RoleRecord → string → option RoleRecord :=
  target Policy.Name RecRole RecSource RoleEqual (λ _, false) config_role.
Definition principal_target
  : list Principal → bool → bool → gmap string PrincipalRecord → string → option PrincipalRecord :=
  target MatchedSAN RecPrincipal RecPSource PrincipalEqual (λ p, str_empty (MatchedSAN p)) config_principal.

(** A role file the database can hold: no empty and no repeated name; in a
    principal file, no repeated SAN. *)
Definition role_file_ok : list Role → Prop := file_ok Policy.Name (λ _, false) role_ok.
Definition principal_file_ok : list Principal → Prop :=
  file_ok MatchedSAN (λ p, str_empty (MatchedSAN p)) (λ p, strings_ok (Mtls.Groups p)).

(** The two plans of a run. *)
Definition role_planned (o : reconcileOpts) : SqlStore.Roles.table → RolePlan → Prop :=
  planned Policy.Name RecRole RecSource RoleEqual (λ _, false) roles_view env (o_principalsOnly o)
    "CERTD_ROLES_FILE" (readRolesFile ReadFile decode_roles) (o_adopt o).
Definition principal_planned (o : reconcileOpts) : SqlStore.Principals.table → PrincipalPlan → Prop :=
  planned MatchedSAN RecPrincipal RecPSource PrincipalEqual (λ p, str_empty (MatchedSAN p)) principals_view
    env (o_rolesOnly o) "CERTD_MTLS_PRINCIPALS_FILE" (readPrincipalsFile ReadFile decode_entries) (o_adopt o).

Lemma role_plan_spec o d r d' :
  roles_ok (data d) → role_plan env ReadFile decode_roles (role_store dl) o d = (r, d') →
  data d' = data d ∧ (∀ e, injected e d' → injected e d) ∧
  match r with
  | Ok plan => role_planned o (data d) plan
  | Err e => o_principalsOnly o = false ∧
      (env "CERTD_ROLES_FILE" = "" ∨ (∃ e', roles_file = Err e') ∨ ∃ e', injected e' d)
  end.
Proof.
  intros Hok. unfold role_plan, DiffRoles. apply (plan_of_spec _ _ _ _ _ roles_ok roles_view); [|done].
  exact (all_records_spec c_name SqlStore.Roles.key ScanRoleRecord dl).
Qed.

Lemma principal_plan_spec o d r d' :
  principals_ok (data d) → principal_plan env ReadFile decode_entries (principal_store dl) o d = (r, d') →
  data d' = data d ∧ (∀ e, injected e d' → injected e d) ∧
  match r with
  | Ok plan => principal_planned o (data d) plan
  | Err e => o_rolesOnly o = false ∧
      (env "CERTD_MTLS_PRINCIPALS_FILE" = "" ∨ (∃ e', principals_file = Err e') ∨ ∃ e', injected e' d)
  end.
Proof.
  intros Hok. unfold principal_plan, DiffPrincipals.
  apply (plan_of_spec _ _ _ _ _ principals_ok principals_view); [|done].
  exact (all_records_spec c_san SqlStore.Principals.key ScanPrincipalRecord dl).
Qed.
(** The phases of the command on the two tables. *)
Lemma roles_applied o d plan ap err d' :
  roles_ok (data d) → role_planned o (data d) plan →
  ApplyRoles (role_store dl) clock (o_prune o) plan d = (ap, err, d') →
  (roles_ok (data d') ∧ ∀ name rec, roles_view (data d) !! name = Some rec → o_adopt o = false →
     RecSource rec = SourcePortal → roles_view (data d') !! name = Some rec) ∧
  ((∀ file, roles_file = Ok file → role_file_ok file) →
   ((∀ e, ¬ injected e d) → err = None) ∧
   (err = None →
    (if o_principalsOnly o then roles_view (data d') = roles_view (data d) else
     ∃ file, roles_file = Ok file ∧ ∀ name, roles_view (data d') !! name =
       role_target file (o_adopt o) (o_prune o) (roles_view (data d)) name) ∧
    ∀ d1 again d2 e, data d1 = data d' → roles_ok (data d1) → role_plan env ReadFile decode_roles (role_store dl) o d1 = (Ok again, d2) →
      ApplyRoles (role_store dl) clock (o_prune o) again e = (mkApplied 0 0 0, None, e))).
Proof.
  intros Hok Hp Ha. pose proof (roles_exec_spec dl clock) as Hex. split.
  - assert (∀ k rec, roles_ok (data d') ∧ (roles_view (data d) !! k = Some rec → o_adopt o = false →
      RecSource rec = SourcePortal → roles_view (data d') !! k = Some rec)) as H.
    { intros k rec. eapply (phase_safe _ _ _ _ _ role_ok config_role _ _ _ _ _ _ roles_ok roles_view
        (λ _, eq_refl) Hex); [|exact Hok|exact Hp|exact Ha]. intros ? ?. apply readRolesFile_ok. }
    split; [by apply (H "" (mkRoleRecord zeroRole ""))|]. intros k rec. apply H.
  - intros Hf. eapply (phase_converges _ _ _ _ _ role_ok config_role _ _ _ _ _ _ roles_ok
      roles_view _ (λ _, eq_refl) (λ _, eq_refl) RoleEqual_refl Hex (roles_inj_back dl clock)); try done.
    exact (all_records_spec c_name SqlStore.Roles.key ScanRoleRecord dl).
Qed.

Lemma principals_applied o d plan ap err d' :
  principals_ok (data d) → principal_planned o (data d) plan →
  ApplyPrincipals (principal_store dl) clock (o_prune o) plan d = (ap, err, d') →
  (principals_ok (data d') ∧ ∀ san rec, principals_view (data d) !! san = Some rec → o_adopt o = false →
     RecPSource rec = SourcePortal → principals_view (data d') !! san = Some rec) ∧
  ((∀ file, principals_file = Ok file → principal_file_ok file) →
   ((∀ e, ¬ injected e d) → err = None) ∧
   (err = None →
    (if o_rolesOnly o then principals_view (data d') = principals_view (data d) else
     ∃ file, principals_file = Ok file ∧ ∀ san, principals_view (data d') !! san =
       principal_target file (o_adopt o) (o_prune o) (principals_view (data d)) san) ∧
    ∀ d1 again d2 e, data d1 = data d' → principals_ok (data d1) → principal_plan env ReadFile decode_entries (principal_store dl) o d1 = (Ok again, d2) →
      ApplyPrincipals (principal_store dl) clock (o_prune o) again e = (mkApplied 0 0 0, None, e))).
Proof.
  intros Hok Hp Ha. pose proof (principals_exec_spec dl clock) as Hex. split.
  - assert (∀ k rec, principals_ok (data d') ∧ (principals_view (data d) !! k = Some rec → o_adopt o = false →
      RecPSource rec = SourcePortal → principals_view (data d') !! k = Some rec)) as H.
    { intros k rec. eapply (phase_safe _ _ _ _ _ _ config_principal _ _ _ _ _ _ principals_ok principals_view
        (λ _, eq_refl) Hex); [|exact Hok|exact Hp|exact Ha]. intros ? ?. apply readPrincipalsFile_ok. }
    split; [by apply (H "" (mkPrincipalRecord zeroPrincipal ""))|]. intros k rec. apply H.
  - intros Hf. eapply (phase_converges _ _ _ _ _ _ config_principal _ _ _ _ _ _ principals_ok
      principals_view _ (λ _, eq_refl) (λ _, eq_refl) PrincipalEqual_refl Hex (principals_inj_back dl clock)); try done.
    exact (all_records_spec c_san SqlStore.Principals.key ScanPrincipalRecord dl).
Qed.
Lemma reconcile_portal_rows o d1 d2 res d1' d2' :
  roles_ok (data d1) → principals_ok (data d2) → reconcile o (d1, d2) = (res, (d1', d2')) →
  roles_ok (data d1') ∧ principals_ok (data d2') ∧
  (o_apply o = false → data d1' = data d1 ∧ data d2' = data d2) ∧
  (o_adopt o = false →
    (∀ name rec, roles_view (data d1) !! name = Some rec → RecSource rec = SourcePortal →
       roles_view (data d1') !! name = Some rec) ∧
    (∀ san rec, principals_view (data d2) !! san = Some rec → RecPSource rec = SourcePortal →
       principals_view (data d2') !! san = Some rec)).
Proof.
  intros H1 H2. unfold runReconcile. destruct (_ && _); [by intros [= <- <- <-]|].
  destruct (role_plan _ _ _ _ _ d1) as [r1 e1] eqn:E1.
  destruct (role_plan_spec o d1 r1 e1 H1 E1) as (Hd1 & _ & Hp1).
  destruct r1 as [rp|e]; [|intros [= <- <- <-]; by rewrite Hd1].
  destruct (principal_plan _ _ _ _ _ d2) as [r2 e2] eqn:E2.
  destruct (principal_plan_spec o d2 r2 e2 H2 E2) as (Hd2 & _ & Hp2).
  destruct r2 as [pp|e]; [|intros [= <- <- <-]; by rewrite Hd1, Hd2].
  rewrite <- Hd1 in H1, Hp1 |- *. rewrite <- Hd2 in H2, Hp2 |- *.
  destruct (o_apply o); simpl; [|by intros [= <- <- <-]].
  destruct (ApplyRoles _ _ _ rp e1) as [[ra oe1] f1] eqn:A1.
  destruct (proj1 (roles_applied o e1 rp ra oe1 f1 H1 Hp1 A1)) as [Hok1 Hr1].
  destruct oe1 as [e|]; [intros [= <- <- <-]; split_and!; naive_solver|].
  destruct (ApplyPrincipals _ _ _ pp e2) as [[pa oe2] f2] eqn:A2.
  destruct (proj1 (principals_applied o e2 pp pa oe2 f2 H2 Hp2 A2)) as [Hok2 Hr2].
  destruct oe2 as [e|]; intros [= <- <- <-]; split_and!; naive_solver.
Qed.

(** Reconcile never takes a row from the portal.  Whatever the files hold,
    repeated names included, whatever the database loses on the way and however the
    run ends: the tables stay well formed; without --apply nothing changes; and
    without --adopt every row an administrator made in the portal is still there,
    unchanged. *)
Theorem reconcile_spares_portal o d1 d2 res d1' d2' :
  roles_ok (data d1) → principals_ok (data d2) → reconcile o (d1, d2) = (res, (d1', d2')) →
  roles_ok (data d1') ∧ principals_ok (data d2') ∧
  (o_apply o = false → data d1' = data d1 ∧ data d2' = data d2) ∧
  (o_adopt o = false →
    (∀ name rec, roles_view (data d1) !! name = Some rec → RecSource rec = SourcePortal →
       roles_view (data d1') !! name = Some rec) ∧
    (∀ san rec, principals_view (data d2) !! san = Some rec → RecPSource rec = SourcePortal →
       principals_view (data d2') !! san = Some rec)).
Proof. apply reconcile_portal_rows. Qed.

(** C14: reconcile --apply leaves the tables as the files say.  A run that reports
    success leaves, under every name, the role the file asks for: the file's role
    marked as config where there was none or a different one, the old row where it
    already agreed or belongs to the portal, and no row where a config row is not
    in the file any more, unless --prune=false; the same for principals, by SAN; and
    a second run has nothing to do.  With readable files and a database that
    answers, the run succeeds. *)
Theorem reconcile_converges o d1 d2 res d1' d2' :
  roles_ok (data d1) → principals_ok (data d2) →
  (∀ file, roles_file = Ok file → role_file_ok file) →
  (∀ file, principals_file = Ok file → principal_file_ok file) →
  o_apply o = true → reconcile o (d1, d2) = (res, (d1', d2')) →
  (faults d1 = [] → faults d2 = [] → o_rolesOnly o && o_principalsOnly o = false →
   env "CERTD_ROLES_FILE" ≠ "" → env "CERTD_MTLS_PRINCIPALS_FILE" ≠ "" →
   is_ok roles_file = true → is_ok principals_file = true → is_ok res = true) ∧
  (is_ok res = true →
    (if o_principalsOnly o then roles_view (data d1') = roles_view (data d1) else
     ∃ file, roles_file = Ok file ∧ ∀ name, roles_view (data d1') !! name =
       role_target file (o_adopt o) (o_prune o) (roles_view (data d1)) name) ∧
    (if o_rolesOnly o then principals_view (data d2') = principals_view (data d2) else
     ∃ file, principals_file = Ok file ∧ ∀ san, principals_view (data d2') !! san =
       principal_target file (o_adopt o) (o_prune o) (principals_view (data d2)) san) ∧
    (∀ fs1 fs2 res' d1'' d2'', reconcile o (mkDb (data d1') fs1, mkDb (data d2') fs2) = (res', (d1'', d2'')) →
       data d1'' = data d1' ∧ data d2'' = data d2' ∧
       (is_ok res' = true → res' = Ok (Some (mkApplied 0 0 0, mkApplied 0 0 0))))).
Proof.
  intros H1 H2 F1 F2 Happly. unfold runReconcile. rewrite Happly. cbn [negb].
  destruct (_ && _) eqn:Ex; [by intros [= <- <- <-]|].
  destruct (role_plan _ _ _ _ _ d1) as [r1 e1] eqn:E1.
  destruct (role_plan_spec o d1 r1 e1 H1 E1) as (Hd1 & Hi1 & Hp1).
  destruct r1 as [rp|e]; cycle 1.
  { intros [= <- <- <-]. split; [|done]. intros Hf _ _ ? ? Hr ?. exfalso.
    destruct Hp1 as (_ & [?|[(e' & He)|(e' & Hi)]]); [done|by rewrite He in Hr|by destruct Hi as [Hi|Hi]; rewrite Hf in Hi; apply elem_of_nil in Hi]. }
  destruct (principal_plan _ _ _ _ _ d2) as [r2 e2] eqn:E2.
  destruct (principal_plan_spec o d2 r2 e2 H2 E2) as (Hd2 & Hi2 & Hp2).
  destruct r2 as [pp|e]; cycle 1.
  { intros [= <- <- <-]. split; [|done]. intros _ Hf _ ? ? ? Hr. exfalso.
    destruct Hp2 as (_ & [?|[(e' & He)|(e' & Hi)]]); [done|by rewrite He in Hr|by destruct Hi as [Hi|Hi]; rewrite Hf in Hi; apply elem_of_nil in Hi]. }
  rewrite <- Hd1 in H1, Hp1 |- *. rewrite <- Hd2 in H2, Hp2 |- *.
  destruct (ApplyRoles _ _ _ rp e1) as [[ra oe1] f1] eqn:A1.
  destruct (roles_applied o e1 rp ra oe1 f1 H1 Hp1 A1) as [[Hok1 _] Hc1].
  destruct (Hc1 F1) as [Hn1 Hv1]. destruct oe1 as [e|].
  { intros [= <- <- <-]. split; [|done]. intros Hf **. exfalso.
    discriminate Hn1. intros e' [Hi|Hi]%Hi1; rewrite Hf in Hi; by apply elem_of_nil in Hi. }
  destruct (ApplyPrincipals _ _ _ pp e2) as [[pa oe2] f2] eqn:A2.
  destruct (principals_applied o e2 pp pa oe2 f2 H2 Hp2 A2) as [[Hok2 _] Hc2].
  destruct (Hc2 F2) as [Hn2 Hv2]. destruct oe2 as [e|].
  { intros [= <- <- <-]. split; [|done]. intros _ Hf **. exfalso.
    discriminate Hn2. intros e' [Hi|Hi]%Hi2; rewrite Hf in Hi; by apply elem_of_nil in Hi. }
  intros [= <- <- <-]. destruct (Hv1 eq_refl) as [Ht1 Hs1]. destruct (Hv2 eq_refl) as [Ht2 Hs2].
  split; [done|]. intros _. split_and!; [done|done|]. intros fs1 fs2 res' d1'' d2''.
  destruct (role_plan _ _ _ _ _ (mkDb (data f1) fs1)) as [r1 g1] eqn:G1.
  pose proof (role_plan_spec o (mkDb (data f1) fs1) r1 g1 Hok1 G1) as (Hg1 & _ & _).
  destruct r1 as [again1|e]; [|by intros [= <- <- <-]].
  destruct (principal_plan _ _ _ _ _ (mkDb (data f2) fs2)) as [r2 g2] eqn:G2.
  pose proof (principal_plan_spec o (mkDb (data f2) fs2) r2 g2 Hok2 G2) as (Hg2 & _ & _).
  destruct r2 as [again2|e]; [|by intros [= <- <- <-]].
  rewrite (Hs1 (mkDb (data f1) fs1) _ _ g1 eq_refl Hok1 G1), (Hs2 (mkDb (data f2) fs2) _ _ g2 eq_refl Hok2 G2).
  by intros [= <- <- <-].
Qed.
End Commands.

(** ** Instances *)
Module ReconcileExamples.
Import SqlExamples.

Definition file_role : Role := mkRole "dev" "grp-dev" ["alice"] [] [] 0 0 0 ∅.
Definition portal_role : Role := mkRole "ops" "grp-portal" ["root"] [] [] 0 0 0 ∅.
Definition old_role : Role := mkRole "old" "grp-old" ["bob"] [] [] 0 0 0 ∅.

Lemma strings_role_ok r :
  forallb utf8_valid (AllowedPrincipals r ++ HostPatterns r ++ SPIFFEPatterns r) = true →
  DefaultExtensions r = ∅ → role_ok r.
Proof.
  intros H He. rewrite !forallb_app, !andb_true_iff in H.
  assert (∀ l, forallb utf8_valid l = true → strings_ok l) as Hall.
  { intros l Hl. apply Forall_forall. intros x Hx%list_elem_of_In. by eapply forallb_forall in Hl. }
  destruct H as (Ha & Hh & Hs). split_and!; [by apply Hall..|].
  intros k v Hk. rewrite He in Hk. by apply lookup_empty_Some in Hk.
Qed.

(** The table before: a portal role that the file also names, and a config role
    that left the file. *)
Definition before : db SqlStore.Roles.table :=
  (run_list exec_role [RAdd 0 portal_role SourcePortal; RAdd 0 old_role SourceConfig] (mkDb [] [])).2.

Lemma before_ok : roles_ok (data before).
Proof.
  pose proof (run_refines c_name SqlStore.Roles.key ScanRoleRecord exec_role spec_role role_op_ok
    exec_role_refines exec_role_suffix [RAdd 0 portal_role SourcePortal; RAdd 0 old_role SourceConfig]
    (mkDb [] []) _ _ ltac:(split; constructor) ltac:(repeat (apply Forall_cons_2; [by apply strings_role_ok|]); constructor)
    (surjective_pairing _)) as [H _].
  exact H.
Qed.

Definition ex_env (v : string) : string := if bool_decide (v = "CERTD_ROLES_FILE") then "/roles" else "/principals".
Definition ex_roles (_ : string) : result (list Role) := Ok [file_role; ops_role].
Definition ex_entries (_ : string) : result (list principalEntry) :=
  Ok [mkPrincipalEntry "agent-1" "spiffe://td/agent-1" ["grp-ops"]].
Definition ex_opts : reconcileOpts := mkReconcileOpts true true false false false.

Definition ex_run (fs : list fault) :=
  runReconcile ex_env Ok ex_roles ex_entries (role_store sqlite_dialect) (principal_store sqlite_dialect)
    (λ _, 0) ex_opts (mkDb (data before) fs, mkDb [] []).

Lemma ex_roles_ok s l : ex_roles s = Ok l → Forall role_ok l.
Proof.
  intros [= <-]. repeat (apply Forall_cons_2; [first [apply ops_role_ok|by apply strings_role_ok]|]). constructor.
Qed.

Lemma ex_entries_ok s l : ex_entries s = Ok l → Forall (λ e, strings_ok (e_groups e)) l.
Proof. intros [= <-]. repeat constructor. Qed.

Lemma reconcile_spares_portal_witness :
  roles_view (data (ex_run [NoFault; NoFault; Lost (ErrOpaque "timeout")]).2.1) !! "ops" =
    Some (mkRoleRecord portal_role SourcePortal).
Proof.
  destruct (reconcile_spares_portal sqlite_dialect ex_env Ok ex_roles ex_entries (λ _, 0) ex_roles_ok
    ex_entries_ok ex_opts (mkDb (data before) [NoFault; NoFault; Lost (ErrOpaque "timeout")]) (mkDb [] [])
    (ex_run [NoFault; NoFault; Lost (ErrOpaque "timeout")]).1
    (ex_run [NoFault; NoFault; Lost (ErrOpaque "timeout")]).2.1
    (ex_run [NoFault; NoFault; Lost (ErrOpaque "timeout")]).2.2) as (_ & _ & _ & H).
  - exact before_ok.
  - split; constructor.
  - unfold ex_run. by destruct (runReconcile _ _ _ _ _ _ _ _ _) as [? [? ?]].
  - apply (proj1 (H eq_refl)); by vm_compute.
Defined.

Lemma reconcile_converges_witness :
  is_ok (ex_run []).1 = true ∧
  ∀ name, roles_view (data (ex_run []).2.1) !! name =
    role_target [file_role; ops_role] false true (roles_view (data before)) name.
Proof.
  destruct (reconcile_converges sqlite_dialect ex_env Ok ex_roles ex_entries (λ _, 0) ex_roles_ok
    ex_entries_ok ex_opts (mkDb (data before) []) (mkDb [] []) (ex_run []).1 (ex_run []).2.1 (ex_run []).2.2)
    as [H1 H2].
  - exact before_ok.
  - split; constructor.
  - intros file Hf. injection Hf as <-. split.
    2: { repeat (apply Forall_cons_2; [intros _; split; [first [apply ops_role_ok|by apply strings_role_ok]|done]|]).
      constructor. }
    apply (bool_decide_unpack _). by vm_compute.
  - intros file Hf. injection Hf as <-. split; [apply (bool_decide_unpack _); by vm_compute|by repeat constructor].
  - done.
  - unfold ex_run. by destruct (runReconcile _ _ _ _ _ _ _ _ _) as [? [? ?]].
  - assert (is_ok (ex_run []).1 = true) as Hok by (apply H1; done).
    split; [exact Hok|]. destruct (H2 Hok) as [(file & Hf & Ht) _]. injection Hf as <-. exact Ht.
Defined.
End ReconcileExamples.
