(* ===== verification/Files.v ===== *)
(** * Files: atomic writes on a file system that can fail

    Models [internal/agent/output/file.go].  A file has content, mode and whether it
    reached the disk ([fsync]); every system call consumes one element of a script
    of faults and leaves the state of the disk in a history, which is what another
    process can observe, and what a crash at that point leaves behind.  The
    theorem [write_bundle_never_torn] says what a reader can ever see. *)

From S2P Require Import Prelude.

Record file := mkFile { content : string; mode : Z; synced : bool }.
Abbreviation disk := (gmap string file) (only parsing).

(** File modes are written in octal. *)
Definition octal (u g o : Z) : Z := 64 * u + 8 * g + o.

(** A system call works, or fails after having written [n] bytes. *)
Inductive disk_fault := DOk | DFail (e : error) (n : nat).

Record fs := mkFs {
  files : disk;
  script : list disk_fault;
  (** the outcomes of [ReadFile] calls that fail other than by absence *)
  read_faults : list (option error);
  history : list disk;
}.

Definition syscall {A} (partial : nat → disk → disk) (f : disk → result A * disk) : M fs A := λ s,
  match script s with
  | DFail e n :: rest =>
      let d := partial n (files s) in (Err e, mkFs d rest (read_faults s) (history s ++ [d]))
  | rest =>
      let '(r, d) := f (files s) in (r, mkFs d (tail rest) (read_faults s) (history s ++ [d]))
  end.

Definition ErrNotExist (path : string) : error :=
  ErrWrap ("open " +:+ path +:+ ": ") (ErrSentinel "fs.ErrNotExist" "no such file or directory") "".

(** [os.ReadFile] *)
Definition ReadFile (path : string) : M fs string := λ s,
  match read_faults s with
  | Some e :: rs => (Err e, mkFs (files s) (script s) rs (history s))
  | rs =>
      (match files s !! path with Some f => Ok (content f) | None => Err (ErrNotExist path) end,
       mkFs (files s) (script s) (tail rs) (history s))
  end.

(** [os.Remove], [os.Rename] *)
Definition Remove (path : string) : M fs unit :=
  syscall (λ _ d, d) (λ d, match d !! path with
    | Some _ => (Ok tt, delete path d)
    | None => (Err (ErrNotExist path), d)
    end).

Definition Rename (src dst : string) : M fs unit :=
  syscall (λ _ d, d) (λ d, match d !! src with
    | Some f => (Ok tt, <[dst := f]> (delete src d))
    | None => (Err (ErrNotExist src), d)
    end).

(** The methods of the open temporary file [name]. *)
Definition update_file (name : string) (f : file → file) (d : disk) : disk :=
  match d !! name with Some x => <[name := f x]> d | None => d end.

Definition Write (name : string) (b : string) : M fs unit :=
  syscall (λ n, update_file name (λ x, mkFile (content x +:+ String.substring 0 n b) (mode x) false))
    (λ d, (Ok tt, update_file name (λ x, mkFile (content x +:+ b) (mode x) false) d)).

Definition Chmod (name : string) (m : Z) : M fs unit :=
  syscall (λ _ d, d) (λ d, (Ok tt, update_file name (λ x, mkFile (content x) m (synced x)) d)).

Definition Sync (name : string) : M fs unit :=
  syscall (λ _ d, d) (λ d, (Ok tt, update_file name (λ x, mkFile (content x) (mode x) true) d)).

Definition Close (name : string) : M fs unit := syscall (λ _ d, d) (λ d, (Ok tt, d)).

(** [os.CreateTemp(filepath.Dir(path), ".write-atomic-*.tmp")]: a name next to
    [path], matching the pattern, of no existing file. *)
Definition base_name (s : string) : string := List.last (split_byte "/"%char s) "".

Definition temp_prefix : string := ".write-atomic-".
Definition is_temp (path : string) : bool := String.prefix temp_prefix (base_name path).

Class TempNames := {
  temp_name : string → disk → string;
  temp_fresh path d : d !! temp_name path d = None;
  temp_pattern path d : is_temp (temp_name path d) = true;
}.

Section Output.
Context `{TempNames}.

Definition CreateTemp (path : string) : M fs string := λ s,
  let name := temp_name path (files s) in
  syscall (λ _ d, d) (λ d, (Ok name, <[name := mkFile "" (octal 6 0 0) false]> d)) s.

(** [_ = op()] *)
Definition ignore {S} (m : M S unit) : M S unit := λ s, (Ok tt, (m s).2).

(** [if err := op(); err != nil { cleanup; return err }] *)
Definition or_else {S A} (m : M S A) (cleanup : M S unit) : M S A := λ s,
  match m s with
  | (Ok a, s') => (Ok a, s')
  | (Err e, s') => (Err e, (cleanup s').2)
  end.

Definition stageTemp (path b : string) (m : Z) : M fs string :=
  name <-m CreateTemp path;;
  let abandon := ignore (Close name);;; ignore (Remove name) in
  _ <-m or_else (Write name b) abandon;;
  _ <-m or_else (Chmod name m) abandon;;
  _ <-m or_else (Sync name) abandon;;
  _ <-m or_else (Close name) (ignore (Remove name));;
  mret name.

Definition WriteAtomic (path b : string) (m : Z) : M fs unit :=
  tmpName <-m stageTemp path b m;;
  or_else (Rename tmpName path) (ignore (Remove tmpName)).

Definition WriteBundleAtomic (certPath certPEM : string) (certMode : Z)
    (keyPath keyPEM : string) (keyMode : Z) : M fs unit :=
  keyTmp <-m stageTemp keyPath keyPEM keyMode;;
  certTmp <-m or_else (stageTemp certPath certPEM certMode) (ignore (Remove keyTmp));;
  _ <-m or_else (Rename keyTmp keyPath) (ignore (Remove keyTmp);;; ignore (Remove certTmp));;
  or_else (Rename certTmp certPath) (ignore (Remove certTmp)).
End Output.

(** ** What a reader can see

    [agree d0 d]: apart from the temporary files, [d] is [d0].  An operation is
    [quiet] when every state it leaves behind on the way agrees with the one it
    started from. *)
Definition agree (d0 d : disk) : Prop := ∀ p, is_temp p = false → d !! p = d0 !! p.

#[export] Instance agree_preorder : PreOrder agree.
Proof. split; [done|]. intros d1 d2 d3 H1 H2 p Hp. by rewrite H2, H1. Qed.

Lemma agree_temp d d' name f :
  is_temp name = true → d' = <[name := f]> d ∨ d' = delete name d → agree d d'.
Proof.
  intros Hn [->| ->] p Hp; (destruct (decide (p = name)) as [->|]; [congruence|]);
    [by rewrite lookup_insert_ne|by rewrite lookup_delete_ne].
Qed.

Definition traced (P : disk → Prop) (s s' : fs) : Prop :=
  ∃ hs, history s' = history s ++ hs ∧ Forall P hs.

Definition quiet {A} (m : M fs A) : Prop := ∀ s r s',
  m s = (r, s') → traced (agree (files s)) s s' ∧ agree (files s) (files s').

Lemma traced_refl P s : traced P s s.
Proof. exists []. by rewrite app_nil_r. Qed.

Lemma traced_trans P s1 s2 s3 : traced P s1 s2 → traced P s2 s3 → traced P s1 s3.
Proof.
  intros (h1 & E1 & F1) (h2 & E2 & F2). exists (h1 ++ h2). split; [by rewrite E2, E1, app_assoc|].
  by apply Forall_app.
Qed.

Lemma traced_weaken (P Q : disk → Prop) s s' : (∀ d, P d → Q d) → traced P s s' → traced Q s s'.
Proof. intros H (hs & E & F). exists hs. split; [done|]. by eapply Forall_impl. Qed.

Lemma quiet_step s1 s2 s3 :
  traced (agree (files s1)) s1 s2 ∧ agree (files s1) (files s2) →
  traced (agree (files s2)) s2 s3 ∧ agree (files s2) (files s3) →
  traced (agree (files s1)) s1 s3 ∧ agree (files s1) (files s3).
Proof.
  intros [H1 A1] [H2 A2]. split; [|by etransitivity].
  eapply traced_trans; [done|]. eapply traced_weaken; [|done]. intros d Hd. by etransitivity.
Qed.

Lemma quiet_ret {A} (a : A) : quiet (mret a).
Proof. intros s r s' [= <- <-]. split; [apply traced_refl|done]. Qed.

Lemma quiet_bind {A B} (m : M fs A) (k : A → M fs B) :
  quiet m → (∀ s a s', m s = (Ok a, s') → quiet (k a)) → quiet (mbind m k).
Proof.
  intros Hm Hk s r s' E. unfold mbind in E. destruct (m s) as [[a|e] s1] eqn:E1.
  - eapply quiet_step; [by eapply Hm|by eapply (Hk s a s1)].
  - injection E as <- <-. by eapply Hm.
Qed.

Lemma quiet_ignore (m : M fs unit) : quiet m → quiet (ignore m).
Proof. intros Hm s r s' [= <- <-]. destruct (m s) as [r1 s1] eqn:E1. by eapply Hm. Qed.

Lemma quiet_or_else {A} (m : M fs A) c : quiet m → quiet c → quiet (or_else m c).
Proof.
  intros Hm Hc s r s' E. unfold or_else in E. destruct (m s) as [[a|e] s1] eqn:E1;
    injection E as <- <-; [by eapply Hm|].
  destruct (c s1) as [r2 s2] eqn:E2. eapply quiet_step; [by eapply Hm|by eapply Hc].
Qed.

Lemma syscall_cases {A} partial (f : disk → result A * disk) s r s' :
  syscall partial f s = (r, s') →
  history s' = history s ++ [files s'] ∧
  ((r, files s') = f (files s) ∨ ∃ e n, r = Err e ∧ files s' = partial n (files s)).
Proof.
  unfold syscall. destruct (script s) as [|[|e n] rest].
  - destruct (f (files s)) as [r1 d1] eqn:E. intros [= <- <-]. split; [done|]. by left.
  - destruct (f (files s)) as [r1 d1] eqn:E. intros [= <- <-]. split; [done|]. by left.
  - intros [= <- <-]. split; [done|]. right. by exists e, n.
Qed.

Lemma quiet_syscall {A} partial (f : disk → result A * disk) :
  (∀ d, agree d (f d).2) → (∀ n d, agree d (partial n d)) → quiet (syscall partial f).
Proof.
  intros Hf Hp s r s' E. apply syscall_cases in E as [Hh Hr].
  assert (agree (files s) (files s')) as Ha.
  { destruct Hr as [Hr|(e & n & _ & ->)]; [|done]. specialize (Hf (files s)). by rewrite <- Hr in Hf. }
  split; [|done]. exists [files s']. split; [done|]. by constructor.
Qed.

Lemma agree_update name f d : is_temp name = true → agree d (update_file name f d).
Proof.
  intros Hn. unfold update_file. destruct (d !! name); [|done]. eapply agree_temp; [done|by left].
Qed.

Section Quiet.
Context (name : string) (Hname : is_temp name = true).

Lemma quiet_Remove : quiet (Remove name).
Proof using Hname.
  apply quiet_syscall; [|done]. intros d. destruct (d !! name); [|done].
  apply (agree_temp d _ name (mkFile "" 0 false)); [done|by right].
Qed.
Lemma quiet_Write b : quiet (Write name b).
Proof using Hname. apply quiet_syscall; intros; by apply agree_update. Qed.
Lemma quiet_Chmod m : quiet (Chmod name m).
Proof using Hname. apply quiet_syscall; intros; [by apply agree_update|done]. Qed.
Lemma quiet_Sync : quiet (Sync name).
Proof using Hname. apply quiet_syscall; intros; [by apply agree_update|done]. Qed.
Lemma quiet_Close : quiet (Close name).
Proof using Hname. by apply quiet_syscall. Qed.
End Quiet.

Ltac quiet := repeat first
  [ by apply quiet_ret | by apply quiet_Write | by apply quiet_Chmod | by apply quiet_Sync
  | by apply quiet_Close | by apply quiet_Remove | apply quiet_bind; [|intros ? ? ? _]
  | apply quiet_or_else | apply quiet_ignore ].

(** ** Reading

    [reads_ok]: files that exist can be read.  Only [ReadFile] consumes a reading
    fault, so it lasts. *)
Definition reads_ok (s : fs) : Prop := read_faults s = [].

Lemma ReadFile_ok path s r s' :
  reads_ok s → ReadFile path s = (r, s') →
  files s' = files s ∧ reads_ok s' ∧
  r = match files s !! path with Some f => Ok (content f) | None => Err (ErrNotExist path) end.
Proof.
  unfold ReadFile, reads_ok. intros ->. intros [= <- <-]. done.
Qed.

(** Or reads may fail, as long as they do not report a file that exists as absent. *)
Definition not_absent (e : error) : Prop := err_is e "fs.ErrNotExist" = false.
Definition reads_honest (s : fs) : Prop :=
  Forall (λ o, match o with Some e => not_absent e | None => True end) (read_faults s).

Lemma ReadFile_honest path s r s' :
  reads_honest s → ReadFile path s = (r, s') →
  files s' = files s ∧ reads_honest s' ∧
  match r with
  | Ok b => ∃ f, files s !! path = Some f ∧ content f = b
  | Err e => err_is e "fs.ErrNotExist" = true → files s !! path = None
  end.
Proof.
  unfold ReadFile, reads_honest. intros Hs. destruct (read_faults s) as [|[e|] rs].
  2: { apply Forall_cons in Hs as [He Hs]. intros [= <- <-]. split_and!; [done..|]. unfold not_absent in He. congruence. }
  2: apply Forall_cons in Hs as [_ Hs].
  all: intros [= <- <-]; (split_and!; [done..|]); destruct (files s !! path) as [f|]; [by exists f|done].
Qed.

Lemma syscall_reads {A} p (f : gmap string file → result A * gmap string file) s r s' :
  syscall p f s = (r, s') → read_faults s' = read_faults s.
Proof.
  unfold syscall. destruct (script s) as [|[|e n] l];
    [destruct (f _)|destruct (f _)|]; by intros [= <- <-].
Qed.

Definition keeps_reads {A} (m : M fs A) : Prop := ∀ s, read_faults (m s).2 = read_faults s.

Lemma keeps_syscall {A} p (f : disk → result A * disk) : keeps_reads (syscall p f).
Proof. intros s. destruct (syscall p f s) eqn:E. by eapply syscall_reads. Qed.
Lemma keeps_bind {A B} (m : M fs A) (k : A → M fs B) :
  keeps_reads m → (∀ a, keeps_reads (k a)) → keeps_reads (mbind m k).
Proof.
  intros Hm Hk s. unfold mbind. specialize (Hm s). destruct (m s) as [[a|e] s1]; [|done].
  simpl in Hm. by rewrite Hk.
Qed.
Lemma keeps_or_else {A} (m : M fs A) c : keeps_reads m → keeps_reads c → keeps_reads (or_else m c).
Proof.
  intros Hm Hc s. unfold or_else. specialize (Hm s). destruct (m s) as [[a|e] s1]; [done|].
  simpl in *. by rewrite Hc.
Qed.
Lemma keeps_ignore (m : M fs unit) : keeps_reads m → keeps_reads (ignore m).
Proof. intros Hm s. apply Hm. Qed.

Ltac keeps := repeat first
  [ apply keeps_syscall | apply keeps_bind; [|intros ?] | apply keeps_or_else | apply keeps_ignore
  | progress cbn zeta | by intros ? ].

Section Facts.
Context `{TempNames}.

Lemma CreateTemp_spec path s name s' :
  CreateTemp path s = (Ok name, s') →
  is_temp name = true ∧ files s !! name = None ∧
  files s' = <[name := mkFile "" (octal 6 0 0) false]> (files s).
Proof.
  intros E. apply syscall_cases in E as [_ [[= -> ->]|(? & ? & [=] & _)]].
  split_and!; [apply temp_pattern|apply temp_fresh|done].
Qed.

Lemma quiet_CreateTemp path : quiet (CreateTemp path).
Proof.
  intros s r s' E. apply syscall_cases in E as [Hh Hr].
  assert (agree (files s) (files s')) as Ha.
  { destruct Hr as [[= _ ->]|(e & n & _ & ->)]; [|done].
    eapply agree_temp; [apply (temp_pattern path)|by left]. }
  split; [|done]. exists [files s']. split; [done|by constructor].
Qed.

Lemma quiet_stageTemp path b m : quiet (stageTemp path b m).
Proof.
  unfold stageTemp. apply quiet_bind; [apply quiet_CreateTemp|].
  intros s name s' E. apply CreateTemp_spec in E as (Hn & _). cbn zeta. quiet.
Qed.

Lemma or_else_Ok {S A} (m : M S A) c s a s' : or_else m c s = (Ok a, s') → m s = (Ok a, s').
Proof. unfold or_else. by destruct (m s) as [[?|?] ?]. Qed.

Lemma syscall_Ok {A} partial (f : disk → result A * disk) s a s' :
  syscall partial f s = (Ok a, s') → f (files s) = (Ok a, files s').
Proof. by intros [_ [->|(? & ? & [=] & _)]]%syscall_cases. Qed.

(** A successful stage leaves exactly the new file, synced, under a fresh name. *)
Lemma stageTemp_Ok path b m s name s' :
  stageTemp path b m s = (Ok name, s') →
  is_temp name = true ∧ files s !! name = None ∧ files s' = <[name := mkFile b m true]> (files s).
Proof.
  unfold stageTemp. intros (n & s1 & (Hn & Hf & E1)%CreateTemp_spec & E)%mbind_Ok_inv.
  apply mbind_Ok_inv in E as (? & s2 & E2%or_else_Ok%syscall_Ok & E).
  apply mbind_Ok_inv in E as (? & s3 & E3%or_else_Ok%syscall_Ok & E).
  apply mbind_Ok_inv in E as (? & s4 & E4%or_else_Ok%syscall_Ok & E).
  apply mbind_Ok_inv in E as (? & s5 & E5%or_else_Ok%syscall_Ok & [= <- <-]).
  split_and!; [done|done|]. injection E2 as _ E2. injection E3 as _ E3. injection E4 as _ E4.
  injection E5 as _ E5. rewrite <- E5, <- E4, <- E3, <- E2, E1. unfold update_file.
  repeat (rewrite lookup_insert_eq || rewrite insert_insert_eq). done.
Qed.

(** The outcome of renaming a staged file into place. *)
Lemma rename_staged path tmp f (d0 : disk) c s r s' :
  is_temp path = false → is_temp tmp = true → quiet c → files s !! tmp = Some f → agree d0 (files s) →
  or_else (Rename tmp path) c s = (r, s') →
  match r with
  | Ok _ => traced (agree (<[path := f]> d0)) s s' ∧ files s' = <[path := f]> (delete tmp (files s))
  | Err e => traced (agree d0) s s' ∧ agree d0 (files s')
  end.
Proof.
  intros Hp Ht Hc Hf Ha E. unfold or_else in E. destruct (Rename tmp path s) as [r1 s1] eqn:E1.
  apply syscall_cases in E1 as [Hh Hr]. rewrite Hf in Hr. destruct r1 as [[]|e].
  - injection E as <- <-. destruct Hr as [[= Hd]|(? & ? & [=] & _)]. split; [|done].
    exists [files s1]. split; [done|]. constructor; [|constructor]. rewrite Hd. intros p Hpt.
    destruct (decide (p = path)) as [->|Hne]; [by rewrite !lookup_insert_eq|].
    rewrite !lookup_insert_ne by done. rewrite lookup_delete_ne by congruence. by apply Ha.
  - injection E as <- <-. destruct Hr as [[=]|(? & ? & _ & Hd)].
    assert (traced (agree d0) s s1) as H1.
    { exists [files s1]. split; [done|]. constructor; [by rewrite Hd|constructor]. }
    destruct (c s1) as [r2 s2] eqn:E2. simpl. destruct (Hc _ _ _ E2) as [H2 A2]. rewrite Hd in H2, A2.
    split; [|by etransitivity]. eapply traced_trans; [done|].
    eapply traced_weaken; [|done]. intros d Hdd. by etransitivity.
Qed.

Lemma keeps_stageTemp path b m : keeps_reads (stageTemp path b m).
Proof. unfold stageTemp. apply keeps_bind; [intros s; apply keeps_syscall|intros n]. keeps. Qed.

Lemma keeps_WriteAtomic path b m : keeps_reads (WriteAtomic path b m).
Proof. apply keeps_bind; [apply keeps_stageTemp|intros n; keeps]. Qed.

Lemma keeps_WriteBundleAtomic cp c cm kp k km : keeps_reads (WriteBundleAtomic cp c cm kp k km).
Proof.
  apply keeps_bind; [apply keeps_stageTemp|intros n].
  apply keeps_bind; [apply keeps_or_else; [apply keeps_stageTemp|keeps]|intros n']. keeps.
Qed.

(** ** Atomicity *)

Lemma WriteAtomic_spec path b m s r s' :
  is_temp path = false → WriteAtomic path b m s = (r, s') →
  let new := <[path := mkFile b m true]> (files s) in
  ∃ hs1 hs2, history s' = history s ++ hs1 ++ hs2 ∧
    Forall (agree (files s)) hs1 ∧ Forall (agree new) hs2 ∧
    match r with
    | Ok _ => files s' = new
    | Err e => hs2 = [] ∧ agree (files s) (files s')
    end.
Proof.
  intros Hp E. cbn zeta. unfold WriteAtomic, mbind in E.
  destruct (stageTemp path b m s) as [[tmp|e] s1] eqn:E1;
    destruct (quiet_stageTemp _ _ _ _ _ _ E1) as [(h1 & Hh1 & F1) A1]; cycle 1.
  { injection E as <- <-. exists h1, []. by rewrite app_nil_r. }
  apply stageTemp_Ok in E1 as (Ht & Hfresh & Hf1).
  eapply (rename_staged path tmp (mkFile b m true) (files s)) in E;
    [|done|done|by quiet|by rewrite Hf1, lookup_insert_eq|done].
  destruct r as [[]|e].
  - destruct E as [(h2 & Hh2 & F2) Hf2]. exists h1, h2. split_and!; [|done|done|].
    + by rewrite Hh2, Hh1, app_assoc.
    + by rewrite Hf2, Hf1, delete_insert_eq, delete_id.
  - destruct E as [(h2 & Hh2 & F2) A2]. exists (h1 ++ h2), []. rewrite app_nil_r.
    split_and!; [by rewrite Hh2, Hh1, app_assoc|by apply Forall_app|done|done|done].
Qed.

(** Without faults an atomic write succeeds. *)
Lemma WriteAtomic_healthy path b m s : script s = [] → (WriteAtomic path b m s).1 = Ok tt.
Proof.
  destruct s as [d sc rf h]. simpl. intros ->.
  unfold WriteAtomic, stageTemp, CreateTemp, Write, Chmod, Sync, Close, Rename, or_else, mbind, syscall, update_file.
  repeat (progress cbn -[is_temp octal] || rewrite lookup_insert_eq). done.
Qed.

(** The phases of a bundle write. *)
Lemma WriteBundleAtomic_phases certPath certPEM certMode keyPath keyPEM keyMode s r s' :
  is_temp certPath = false → is_temp keyPath = false → certPath ≠ keyPath →
  WriteBundleAtomic certPath certPEM certMode keyPath keyPEM keyMode s = (r, s') →
  let d0 := files s in
  let d1 := <[keyPath := mkFile keyPEM keyMode true]> d0 in
  let d2 := <[certPath := mkFile certPEM certMode true]> d1 in
  ∃ hs0 hs1 hs2, history s' = history s ++ hs0 ++ hs1 ++ hs2 ∧
    Forall (agree d0) hs0 ∧ Forall (agree d1) hs1 ∧ Forall (agree d2) hs2 ∧
    match r with
    | Ok _ => files s' = d2
    | Err e => hs2 = [] ∧ (agree d0 (files s') ∨ agree d1 (files s'))
    end.
Proof.
  intros Hc Hk Hck E. cbn zeta. unfold WriteBundleAtomic, mbind in E.
  destruct (stageTemp keyPath keyPEM keyMode s) as [[kt|e] s1] eqn:E1;
    destruct (quiet_stageTemp _ _ _ _ _ _ E1) as [(h1 & Hh1 & F1) A1]; cycle 1.
  { injection E as <- <-. exists h1, [], []. rewrite !app_nil_r. split_and!; auto. }
  apply stageTemp_Ok in E1 as (Hkt & Hkf & Hf1).
  destruct (or_else (stageTemp certPath certPEM certMode) (ignore (Remove kt)) s1) as [r2 s2] eqn:E2.
  assert (traced (agree (files s)) s s2 ∧ agree (files s) (files s2)) as [(h2 & Hh2 & F2) A2].
  { eapply quiet_step; [split; [by exists h1|exact A1]|].
    eapply (quiet_or_else _ _ (quiet_stageTemp _ _ _)); [|exact E2]. by quiet. }
  destruct r2 as [ct|e]; cycle 1.
  { injection E as <- <-. exists h2, [], []. rewrite !app_nil_r. split_and!; auto. }
  apply or_else_Ok, stageTemp_Ok in E2 as (Hct & Hcf & Hf2). rewrite Hf1 in Hcf, Hf2.
  assert (ct ≠ kt) as Hne by (intros ->; by rewrite lookup_insert_eq in Hcf).
  rewrite lookup_insert_ne in Hcf by done.
  destruct (or_else (Rename kt keyPath) _ s2) as [r3 s3] eqn:E3.
  eapply (rename_staged keyPath kt (mkFile keyPEM keyMode true) (files s)) in E3; cycle 1;
    [done|done|by quiet|by rewrite Hf2, lookup_insert_ne, lookup_insert_eq|done|].
  destruct r3 as [[]|e]; cycle 1.
  { injection E as <- <-. destruct E3 as [(h3 & Hh3 & F3) A3]. exists (h2 ++ h3), [], [].
    rewrite !app_nil_r. split_and!; [by rewrite Hh3, Hh2, app_assoc|by apply Forall_app|done|done|done|by left]. }
  destruct E3 as [(h3 & Hh3 & F3) Hf3]. set (d1 := <[keyPath := mkFile keyPEM keyMode true]> (files s)) in *.
  assert (ct ≠ keyPath ∧ kt ≠ keyPath ∧ ct ≠ certPath) as (Hck1 & Hkk & Hcc) by (split_and!; congruence).
  assert (agree d1 (files s3)) as A3.
  { intros p Hp. rewrite Hf3, Hf2. unfold d1. rewrite !lookup_insert, !lookup_delete, !lookup_insert.
    repeat case_decide; congruence. }
  eapply (rename_staged certPath ct (mkFile certPEM certMode true) d1) in E; cycle 1;
    [done|done|by quiet| |done|].
  { rewrite Hf3, lookup_insert_ne, lookup_delete_ne, Hf2 by done. by rewrite lookup_insert_eq. }
  exists h2. destruct r as [[]|e].
  - destruct E as [(h4 & Hh4 & F4) Hf4]. exists h3, h4. split_and!; [|done|done|done|].
    + by rewrite Hh4, Hh3, Hh2, !app_assoc.
    + rewrite Hf4, Hf3, Hf2. apply map_eq. intros p. unfold d1.
      rewrite !lookup_insert, !lookup_delete, !lookup_insert, !lookup_delete, !lookup_insert.
      repeat case_decide; congruence.
  - destruct E as [(h4 & Hh4 & F4) A4]. exists (h3 ++ h4), []. rewrite app_nil_r.
    split_and!; [by rewrite Hh4, Hh3, Hh2, !app_assoc|done|by apply Forall_app|done|done|by right].
Qed.
(** C33: a reader never sees a torn or mismatched write.  While a certificate and
    its key are written, whatever system call fails and wherever the process
    stops, every state of the disk shows, temporary files aside, first the old
    pair, then the new key with the old certificate, then the new pair, in this
    order, each file whole, synced and with its mode, and every other file as it
    was; the write reports success exactly in the last phase, with no temporary
    file left; and a failed write leaves the old certificate. *)
Theorem write_bundle_never_torn certPath certPEM certMode keyPath keyPEM keyMode s r s' :
  is_temp certPath = false → is_temp keyPath = false → certPath ≠ keyPath →
  WriteBundleAtomic certPath certPEM certMode keyPath keyPEM keyMode s = (r, s') →
  let d0 := files s in
  let d1 := <[keyPath := mkFile keyPEM keyMode true]> d0 in
  let d2 := <[certPath := mkFile certPEM certMode true]> d1 in
  ∃ hs0 hs1 hs2, history s' = history s ++ hs0 ++ hs1 ++ hs2 ∧
    Forall (agree d0) hs0 ∧ Forall (agree d1) hs1 ∧ Forall (agree d2) hs2 ∧
    match r with
    | Ok _ => files s' = d2
    | Err e => hs2 = [] ∧ (agree d0 (files s') ∨ agree d1 (files s'))
    end.
Proof. apply WriteBundleAtomic_phases. Qed.
End Facts.

(** ** Instances: temporary names longer than every existing name *)
Module FilesExamples.

Fixpoint xs (n : nat) : string := match n with O => ".tmp" | S n => String "x" (xs n) end.
Definition longest (d : disk) : nat := max_list (String.length <$> (map_to_list d).*1).

Lemma xs_length n : (n < String.length (xs n))%nat.
Proof. induction n as [|n IH]; simpl; lia. Qed.

Definition long_name (d : disk) : string := temp_prefix +:+ xs (longest d).

Lemma long_name_fresh d : d !! long_name d = None.
Proof.
  destruct (d !! _) as [f|] eqn:E; [|done]. exfalso. apply elem_of_map_to_list in E.
  assert (String.length (long_name d) ≤ longest d)%nat as Hl.
  { apply max_list_elem_of_le, list_elem_of_fmap. eexists. split; [done|].
    apply list_elem_of_fmap. by exists (long_name d, f). }
  pose proof (xs_length (longest d)).
  change (14 + String.length (xs (longest d)) ≤ longest d)%nat in Hl. lia.
Qed.

Lemma long_name_temp d : is_temp (long_name d) = true.
Proof.
  unfold is_temp, base_name. assert (split_byte "/"%char (long_name d) = [long_name d]) as ->.
  - apply split_byte_none. unfold long_name. rewrite bytes_app. apply Forall_app.
    split; [apply (bool_decide_unpack _); by vm_compute|].
    induction (longest d) as [|n IH]; [apply (bool_decide_unpack _); by vm_compute|].
    cbn [xs bytes_of]. by apply Forall_cons.
  - unfold long_name. by destruct (xs (longest d)).
Qed.

#[export] Instance long_names : TempNames := {|
  temp_name _ d := long_name d;
  temp_fresh _ d := long_name_fresh d;
  temp_pattern _ d := long_name_temp d;
|}.

Definition before : fs :=
  mkFs {[ "/run/cert.pem" := mkFile "old cert" 420 true; "/run/key.pem" := mkFile "old key" 384 true ]}
    [DOk; DOk; DOk; DOk; DOk; DOk; DOk; DOk; DOk; DOk; DOk; DFail (ErrNew "EIO") 0] [] [].

Definition run := WriteBundleAtomic "/run/cert.pem" "new cert" 420 "/run/key.pem" "new key" 384 before.

Lemma write_bundle_never_torn_witness :
  (∃ e, run.1 = Err e) ∧
  (agree (files before) (files run.2) ∨
   agree (<["/run/key.pem" := mkFile "new key" 384 true]> (files before)) (files run.2)).
Proof.
  pose proof (write_bundle_never_torn "/run/cert.pem" "new cert" 420 "/run/key.pem" "new key" 384
    before run.1 run.2) as H.
  assert (WriteBundleAtomic "/run/cert.pem" "new cert" 420 "/run/key.pem" "new key" 384 before = run) as E0
    by (unfold run; reflexivity).
  rewrite E0 in H. destruct H as (hs0 & hs1 & hs2 & _ & _ & _ & _ & H);
    [by vm_compute|by vm_compute|done|apply surjective_pairing|].
  destruct run.1 as [u|e] eqn:E; [exfalso; vm_compute in E; discriminate E|].
  split; [by exists e|]. apply H.
Defined.
End FilesExamples.
