(* ===== verification/Custody.v ===== *)
(** * Custody: where certd's keys come from

    Models [internal/server/signer/kms/kms.go], the AWS bindings
    ([cmd/certd/aws_kms.go], [seal_aws_kms.go]) over the calls of the AWS SDK, the
    two seams [signer_source.go] and [seal.go] that dispatch a key reference to its
    binding, and the local sealer ([seal_local.go]) over the library's AES-GCM.

    A command runs on a [host]: its files, and what it reads from the random source
    and the clock, one element per reading. *)

From S2P Require Import Prelude Signer Files.

Record host := mkHost { disk : fs; entropy : list string; clocks : list time; stdout : string }.

Definition on_disk {A} (m : M fs A) : M host A := λ h,
  let '(r, d) := m (disk h) in (r, mkHost d (entropy h) (clocks h) (stdout h)).

(** One use of [rand.Reader]: the bytes it will deliver to it. *)
Definition draw : M host string := λ h,
  (Ok (default "" (head (entropy h))), mkHost (disk h) (tail (entropy h)) (clocks h) (stdout h)).

(** [time.Now()] *)
Definition now : M host time := λ h,
  (Ok (default 0 (head (clocks h))), mkHost (disk h) (entropy h) (tail (clocks h)) (stdout h)).

Definition lift {A} (r : result A) : M host A := λ h, (r, h).

(** [strings.CutPrefix(s, pre)] *)
Definition CutPrefix (pre s : string) : option string :=
  if String.prefix pre s
  then Some (String.substring (String.length pre) (String.length s - String.length pre) s) else None.

(** ** Foreign code *)

(** The AWS SDK: the client configuration, and the calls of the KMS API.  [Sign]
    gets the deadline of its context and whether the message is a digest. *)
Class AwsKms := {
  LoadDefaultConfig : result unit;
  GetPublicKey : string → result string;
  KmsSign : string → duration → string → bool → string → result string;
  KmsEncrypt : string → string → result string;
  KmsDecrypt : string → string → result string;
}.

(** [elliptic], [rsa]: the curve's name and the modulus' length of a public key. *)
Class KeyParams := { curve_name : PublicKey → string; modulus_bits : PublicKey → Z }.

(** [crypto/aes], [crypto/cipher]: AES-256-GCM under a key of 32 bytes. *)
Class Gcm := {
  gcm_seal : string → string → string → string;
  gcm_open : string → string → string → result string;
}.

(** ** Signing through a KMS *)

Definition ECDSAP256 : string := "ECDSA_SHA_256".
Definition ECDSAP384 : string := "ECDSA_SHA_384".
Definition RSAPKCS1SHA256 : string := "RSASSA_PKCS1_V1_5_SHA_256".
Definition Ed25519Alg : string := "ED25519_SHA_512".

(** [kms.Client] *)
Record Client := mkClient {
  ClientPublicKey : result string;
  ClientSign : duration → string → string → bool → result string;
}.

Section Kms.
Context `{PkixLib, KeyParams}.

Definition algorithmFor (pub : PublicKey) : result (string * bool) :=
  match algo pub with
  | ECDSA =>
      if bool_decide (curve_name pub = "P-256") then Ok (ECDSAP256, true) else
      if bool_decide (curve_name pub = "P-384") then Ok (ECDSAP384, true) else
      Err (ErrNew ("kms: unsupported ECDSA curve " +:+ fmt_q (curve_name pub) +:+ " (want P-256 or P-384)"))
  | RSA =>
      if modulus_bits pub <? 2048 then Err (ErrOpaque "kms: RSA key too small")
      else Ok (RSAPKCS1SHA256, true)
  | Ed25519 => Ok (Ed25519Alg, false)
  | OtherKey ty => Err (ErrNew ("kms: unsupported public key type " +:+ ty))
  end.

(** [kms.New] *)
Definition NewKms (client : option Client) (description : string) (signTimeout : duration) : result Signer :=
  match client with
  | None => Err (ErrNew "kms: client is required")
  | Some client =>
      reject str_empty description with ErrNew "kms: description is required";;
      der <-r rwrap "kms: fetch public key: " (ClientPublicKey client);;
      pub <-r rwrap "kms: parse public key: " (ParsePKIXPublicKey der);;
      a <-r algorithmFor pub;;
      let '(alg, prehashed) := a in
      NewRemoteSigner (RemoteSignerConfig.mk (Some pub)
        (Some (λ timeout message, ClientSign client timeout message alg prehashed)) description signTimeout)
  end.
End Kms.

Section Bindings.
Context `{CryptoLib, PkixLib, KeyParams, AwsKms, Gcm}.

(** [awsKMSClient] *)
Definition awsKMSClient (keyID : string) : Client :=
  mkClient (GetPublicKey keyID) (λ timeout msg alg prehashed, KmsSign keyID timeout msg prehashed alg).

(** The factory [aws_kms.go] registers. *)
Definition kmsClientFactory (keyRef : string) : result Client :=
  _ <-r rwrap "load AWS config: " LoadDefaultConfig;; Ok (awsKMSClient keyRef).

Definition resolveCASigner (keyRef : string) : M host Signer :=
  if str_empty keyRef
  then mfail (ErrNew "no signing key: set --key / $CERTD_CA_KEY (file:<path> for a PKCS#8 PEM, or a KMS key ref)")
  else match CutPrefix "file:" keyRef with
  | Some path => on_disk (λ d,
      let '(b, d) := ReadFile path d in
      (rwrap ("load signing key " +:+ path +:+ ": ") (LoadEd25519FromPEMFile path b), d))
  | None =>
      client <-m lift (rwrap ("build KMS client for " +:+ fmt_q keyRef +:+ ": ") (kmsClientFactory keyRef));;
      lift (NewKms (Some client) ("KMS " +:+ keyRef) 0)
  end.

(** ** Sealing *)

Record sealer := mkSealer { Encrypt : string → M host string; Decrypt : string → result string }.

Definition awsKMSSealer (keyID : string) : sealer :=
  mkSealer (λ plaintext, lift (KmsEncrypt keyID plaintext)) (KmsDecrypt keyID).

Definition aws_factory (keyRef : string) : M host sealer :=
  _ <-m lift (rwrap "load AWS config: " LoadDefaultConfig);; mret (awsKMSSealer keyRef).

Definition NonceSize : nat := 12.

(** [rand.Read(b)] of [n] bytes *)
Definition read_random (n : nat) : M host string :=
  r <-m draw;;
  if (String.length r <? n)%nat then mfail (ErrOpaque "crypto/rand: short read")
  else mret (String.substring 0 n r).

Definition localSealer (key : string) : sealer :=
  mkSealer
    (λ plaintext, nonce <-m read_random NonceSize;; mret (nonce +:+ gcm_seal key nonce plaintext))
    (λ ciphertext,
      if (String.length ciphertext <? NonceSize)%nat then Err (ErrNew "sealed blob too short")
      else gcm_open key (String.substring 0 NonceSize ciphertext)
             (String.substring NonceSize (String.length ciphertext - NonceSize) ciphertext)).

Definition file_factory (keyRef : string) : M host sealer :=
  key <-m (λ h, let '(r, h) := on_disk (ReadFile keyRef) h in
                (rwrap ("read local seal key " +:+ keyRef +:+ ": ") r, h));;
  if negb (String.length key =? 32)%nat
  then mfail (ErrOpaque ("local seal key " +:+ keyRef +:+ ": want 32 bytes (AES-256)"))
  else mret (localSealer key).

(** [strings.IndexByte(keyRef, ':') > 0] and a recognised scheme before it. *)
Definition split_scheme (keyRef : string) : string * string :=
  let '(scheme, ref, found) := cut_byte ":"%char keyRef in
  if found && negb (str_empty scheme) &&
     (bool_decide (scheme = "aws") || bool_decide (scheme = "file"))
  then (scheme, ref) else ("aws", keyRef).

Definition resolveSealer (keyRef : string) : M host sealer :=
  if str_empty keyRef
  then mfail (ErrNew "no seal key: set --seal-key / $CERTD_CA_SEAL_KEY (a KMS key ref, or file:<path> for a local dev key)")
  else let '(scheme, ref) := split_scheme keyRef in
       if bool_decide (scheme = "file") then file_factory ref else aws_factory ref.
End Bindings.

(** ** What the seal seam promises *)

Class SealLaws `{AwsKms, Gcm} := {
  open_seal key nonce p : gcm_open key nonce (gcm_seal key nonce p) = Ok p;
  kms_decrypt keyID p c : KmsEncrypt keyID p = Ok c → KmsDecrypt keyID c = Ok p;
}.

Lemma CutPrefix_app pre s : CutPrefix pre (pre +:+ s) = Some s.
Proof.
  unfold CutPrefix. rewrite prefix_app, substring_app_r, substring_all; [done|].
  rewrite str_length_app. lia.
Qed.

Lemma CutPrefix_Some pre s t : CutPrefix pre s = Some t → s = pre +:+ t.
Proof.
  unfold CutPrefix. destruct (String.prefix pre s) eqn:E; [|done]. apply prefix_split in E as [u ->].
  rewrite substring_app_r, substring_all; [by intros [= <-]|]. rewrite str_length_app. lia.
Qed.

(** A blob a sealer made, it opens. *)
Definition opens (s : sealer) : Prop := ∀ p h c h', Encrypt s p h = (Ok c, h') → Decrypt s c = Ok p.

Section Seals.
Context `{CryptoLib, PkixLib, KeyParams, SealLaws}.

Lemma localSealer_opens key : opens (localSealer key).
Proof.
  intros p h c h' E. apply mbind_Ok_inv in E as (nonce & h1 & E & [= <- <-]).
  unfold read_random, mbind, draw in E.
  destruct (String.length (default "" (head (entropy h))) <? NonceSize)%nat eqn:Hl; [done|].
  injection E as En _. apply Nat.ltb_ge in Hl. simpl.
  assert (String.length nonce = NonceSize) as Hn by (rewrite <- En; by apply substring_length).
  rewrite str_length_app. rewrite (proj2 (Nat.ltb_ge _ _)) by lia.
  rewrite <- Hn, substring_app_l, substring_app_r, substring_all by lia. apply open_seal.
Qed.

Lemma awsKMSSealer_opens key : opens (awsKMSSealer key).
Proof. intros p h c h' [= E _]. by eapply kms_decrypt. Qed.

Lemma resolveSealer_file path h : resolveSealer ("file:" +:+ path) h = file_factory path h.
Proof. done. Qed.

Lemma resolveSealer_other keyRef :
  keyRef ≠ "" → CutPrefix "file:" keyRef = None → ∃ k, ∀ h, resolveSealer keyRef h = aws_factory k h.
Proof.
  intros Hne Hc. unfold resolveSealer, str_empty. rewrite bool_decide_false by done.
  unfold split_scheme. destruct (cut_byte _ _) as [[scheme ref] found] eqn:E.
  destruct (found && _ && _) eqn:Eb; [|by exists keyRef].
  destruct (decide (scheme = "file")) as [->|Es]; [|exists ref; by rewrite bool_decide_false]. exfalso.
  apply andb_true_iff in Eb as [[Hf _]%andb_true_iff _]. rewrite Hf in E.
  apply cut_byte_found in E as ->. by change ("file" +:+ String ":" ref) with ("file:" +:+ ref) in Hc; rewrite CutPrefix_app in Hc.
Qed.

(** What a reference resolves to depends on the key file only. *)
Lemma resolveSealer_stable keyRef h s h' h2 :
  resolveSealer keyRef h = (Ok s, h') →
  (∀ path b, CutPrefix "file:" keyRef = Some path →
     (ReadFile path (disk h)).1 = Ok b → (ReadFile path (disk h2)).1 = Ok b) →
  opens s ∧ (resolveSealer keyRef h2).1 = Ok s.
Proof.
  intros E Hread. destruct (CutPrefix "file:" keyRef) as [path|] eqn:Ec.
  - apply CutPrefix_Some in Ec as ->. rewrite resolveSealer_file in E |- *.
    specialize (Hread path). unfold file_factory, mbind, on_disk in *.
    destruct (ReadFile path (disk h)) as [[b|e] d] eqn:Er; [|done]. simpl in *.
    specialize (Hread b eq_refl eq_refl).
    destruct (ReadFile path (disk h2)) as [r2 d2]. simpl in Hread. subst r2. simpl.
    destruct (negb _); [done|]. injection E as <- _. split; [apply localSealer_opens|done].
  - assert (keyRef ≠ "") as Hne by (intros ->; done).
    destruct (resolveSealer_other keyRef Hne Ec) as [k Ek]. rewrite Ek in E |- *.
    unfold aws_factory, mbind, lift, mret in *. destruct (rwrap _ LoadDefaultConfig); [|done].
    injection E as <- _. split; [apply awsKMSSealer_opens|done].
Qed.
End Seals.
