(* ===== verification/ReconcileCmd.v ===== *)
(** * ReconcileCmd: the reconcile command and what it prints

    Models, of [cmd/certd/main.go], [runReconcile] around the plans and writes of
    [Reconcile]: the exclusive flags, the store it needs, the printed plan
    ([printReconcilePlan]) and the warning about conflicts.  The theorem: what a dry
    run prints is what [--apply] then does. *)

From S2P Require Import Prelude Policy Krl Mtls Store Sql SqlTable SqlStore SqlFacts SqlCorrect Custody Reconcile.

(** ** The printed plan *)

Fixpoint spaces (n : nat) : string := match n with O => "" | S n => String " " (spaces n) end.

(** [fmt.Fprintf(w, "  %-8s %s\n", kind, it)], without the newline. *)
Definition line (kind it : string) : string :=
  "  " +:+ kind +:+ spaces (8 - String.length kind) +:+ " " +:+ it.

Definition roleNames : list Role → list string := fmap Policy.Name.
Definition principalSANs : list Principal → list string := fmap MatchedSAN.

(** The part of one table: rows that [--prune=false] spares are orphans. *)
Definition section_lines {V} (title : string) (keys : list V → list string) (p : Plan V) (prune : bool) : list string :=
  title :: (line "add" <$> keys (PlanAdd p)) ++ (line "update" <$> keys (PlanUpdate p)) ++
  (line (if prune then "prune" else "orphan") <$> PlanPrune p) ++ (line "conflict" <$> PlanConflicts p).

Definition plan_lines (rp : RolePlan) (pp : PrincipalPlan) (prune : bool) : list string :=
  section_lines "roles:" roleNames rp prune ++ section_lines "principals:" principalSANs pp prune.

Definition printReconcilePlan (rp : RolePlan) (pp : PrincipalPlan) (prune : bool) : string :=
  unlines (plan_lines rp pp prune).

(** Whether the log warns of rows left to the portal. *)
Definition warnConflicts (roleConflicts principalConflicts : list string) (adopt : bool) : bool :=
  negb (adopt || (bool_decide (roleConflicts = []) && bool_decide (principalConflicts = []))).

(** ** The command *)

Record report := mkReport { printed : string; warned : bool }.

Section Command.
Context (env : string → string) (ReadFile : string → result string).
Context (decode_roles : string → result (list Role)) (decode_entries : string → result (list principalEntry)).
Context {S1 S2 : Type} (rs : RoleStore S1) (ps : PrincipalStore S2) (clock : Applied → time).

(** The two plans, before anything is written. *)
Definition plans (o : reconcileOpts) : M (S1 * S2) (RolePlan * PrincipalPlan) := λ '(s1, s2),
  match role_plan env ReadFile decode_roles rs o s1 with
  | (Err e, s1) => (Err e, (s1, s2))
  | (Ok rp, s1) =>
      match principal_plan env ReadFile decode_entries ps o s2 with
      | (Err e, s2) => (Err e, (s1, s2))
      | (Ok pp, s2) => (Ok (rp, pp), (s1, s2))
      end
  end.

(** The outcome, what was printed, and the tables.  [opened]: what [openStore]
    gave, and whether it is a store. *)
Definition reconcile_command (o : reconcileOpts) (opened : result bool) (s : S1 * S2)
    : result (option (Applied * Applied)) * report * (S1 * S2) :=
  let silent e := (Err e, mkReport "" false, s) in
  if o_rolesOnly o && o_principalsOnly o
  then silent (ErrNew "--roles-only and --principals-only are mutually exclusive") else
  match opened with
  | Err e => silent (ErrWrap "open store database: " e "")
  | Ok false => silent (ErrNew "reconcile requires CERTD_DATABASE_URL (no persistent store configured)")
  | Ok true =>
      let rep :=
        match (plans o s).1 with
        | Err _ => mkReport "" false
        | Ok (rp, pp) => mkReport (printReconcilePlan rp pp (o_prune o))
                           (warnConflicts (PlanConflicts rp) (PlanConflicts pp) (o_adopt o))
        end in
      let '(res, s') := runReconcile env ReadFile decode_roles decode_entries rs ps clock o s in
      (res, rep, s')
  end.
End Command.

(** ** The plan, read back *)

Definition read_line (l : string) : option (string * string) :=
  t ← CutPrefix "  " l;
  Some (trim_right " " (String.substring 0 8 t), String.substring 9 (String.length t - 9) t).

(** The writes a section announces. *)
Definition is_write (x : string * string) : bool := bool_decide (x.1 ∈ ["add"; "update"; "prune"]).
Definition read_section (ls : list string) : list (string * string) := List.filter is_write (omap read_line ls).

Fixpoint read_sections (ls : list string) : list string * list string :=
  match ls with
  | [] => ([], [])
  | l :: ls => if bool_decide (l = "principals:") then ([], ls)
               else let '(a, b) := read_sections ls in (l :: a, b)
  end.

(** What a reader of the output takes it to announce, for roles and principals. *)
Definition read_plan (out : string) : list (string * string) * list (string * string) :=
  let '(a, b) := read_sections (split_byte newline out) in (read_section a, read_section b).

(** A write, as the plan names it. *)
Definition described {V} (key : V → string) (w : write V) : string * string :=
  match w with WAdd v => ("add", key v) | WReplace v => ("update", key v) | WDelete k => ("prune", k) end.

Definition kinds : list string := ["add"; "update"; "prune"; "orphan"; "conflict"].

Lemma read_line_line kind it : kind ∈ kinds → read_line (line kind it) = Some (kind, it).
Proof.
  intros Hk. unfold read_line, line. rewrite CutPrefix_app. simpl.
  assert (∀ k, String.length k = 9%nat → trim_right " " (String.substring 0 8 k) = kind →
    Some (trim_right " " (String.substring 0 8 (k +:+ it)),
      String.substring 9 (String.length (k +:+ it) - 9) (k +:+ it)) = Some (kind, it)) as Hline.
  { intros k Hl Ht. do 2 f_equal.
    - rewrite <- Ht. f_equal. clear -Hl. do 9 (destruct k as [|? k]; [done|]). done.
    - rewrite str_length_app, <- Hl. rewrite substring_app_r, substring_all; [done|lia]. }
  set_unfold in Hk. rewrite <- !str_app_assoc.
  destruct Hk as [->|[->|[->|[->|[->|[]]]]]]; by apply Hline.
Qed.

Lemma read_lines kind (items : list string) :
  kind ∈ kinds → omap read_line (line kind <$> items) = pair kind <$> items.
Proof.
  intros Hk. induction items as [|it items IH]; [done|]. cbn [fmap list_fmap omap list_omap].
  rewrite read_line_line by done. by rewrite <- IH.
Qed.

Lemma filter_writes kind (items : list string) :
  List.filter is_write (pair kind <$> items) = if bool_decide (kind ∈ ["add"; "update"; "prune"]) then pair kind <$> items else [].
Proof.
  case_bool_decide as Hk.
  - induction items as [|it items IH]; [done|]. cbn [fmap list_fmap List.filter].
    unfold is_write at 1. cbn [fst]. rewrite bool_decide_true by done. by rewrite IH.
  - apply filter_none. intros x (it & -> & _)%list_elem_of_fmap. by apply bool_decide_eq_false.
Qed.

Lemma read_section_lines {V} title (keys : list V → list string) (p : Plan V) prune rest :
  read_line title = None →
  read_section (section_lines title keys p prune ++ rest) =
  (pair "add" <$> keys (PlanAdd p)) ++ (pair "update" <$> keys (PlanUpdate p)) ++
  (if prune then pair "prune" <$> PlanPrune p else []) ++ read_section rest.
Proof.
  intros Ht. unfold read_section, section_lines. rewrite <- app_comm_cons. cbn [omap list_omap]. rewrite Ht.
  change (list_omap ?A ?B read_line) with (@omap list _ A B read_line).
  rewrite !omap_app, !List.filter_app.
  rewrite !read_lines by (destruct prune; apply (bool_decide_unpack _); vm_compute; exact I).
  rewrite !filter_writes, <- !app_assoc. by destruct prune.
Qed.

(** Every line of a section but its title is indented. *)
Lemma section_no_title {V} (keys : list V → list string) (p : Plan V) prune :
  "principals:" ∉ section_lines "roles:" keys p prune.
Proof.
  unfold section_lines. rewrite elem_of_cons, !elem_of_app, !list_elem_of_fmap.
  intros [?|[(?&?&_)|[(?&?&_)|[(?&?&_)|(?&?&_)]]]]; discriminate.
Qed.

Lemma read_sections_app l1 l2 :
  "principals:" ∉ l1 → read_sections (l1 ++ "principals:" :: l2) = (l1, l2).
Proof.
  induction l1 as [|l l1 IH]; intros Hn; cbn [app read_sections].
  - by rewrite bool_decide_true.
  - apply not_elem_of_cons in Hn as [Hl Hn]. rewrite bool_decide_false by congruence. by rewrite IH.
Qed.

(** The keys a plan mentions fit on a line. *)
Definition one_line {V} (key : V → string) (p : Plan V) : Prop :=
  ∀ k, k ∈ (key <$> PlanAdd p) ++ (key <$> PlanUpdate p) ++ PlanPrune p ++ PlanConflicts p → has_newline k = false.

Lemma line_no_newline kind it : kind ∈ kinds → has_newline it = false → has_newline (line kind it) = false.
Proof.
  intros Hk Hit. unfold has_newline, line in *. rewrite !str_has_app, Hit.
  set_unfold in Hk. destruct Hk as [->|[->|[->|[->|[->|[]]]]]]; reflexivity.
Qed.

Lemma section_no_newline {V} title (key : V → string) (p : Plan V) prune l :
  has_newline title = false → one_line key p →
  l ∈ section_lines title (fmap key) p prune → has_newline l = false.
Proof.
  intros Ht Hp. unfold section_lines. rewrite elem_of_cons, !elem_of_app, !list_elem_of_fmap.
  assert (∀ kind (items : list string) x, kind ∈ kinds → l = line kind x → x ∈ items →
    (∀ k, k ∈ items → has_newline k = false) → has_newline l = false) as Hline.
  { intros kind items x Hk -> Hin Hi. apply line_no_newline; [done|by apply Hi]. }
  unfold one_line in Hp. setoid_rewrite elem_of_app in Hp. setoid_rewrite elem_of_app in Hp. setoid_rewrite elem_of_app in Hp.
  intros [->|[(x & Hl & Hx)|[(x & Hl & Hx)|[(x & Hl & Hx)|(x & Hl & Hx)]]]]; [done|..];
    (eapply Hline; [|exact Hl|exact Hx|intros k Hk; apply Hp; tauto]);
    [..|destruct prune|]; by apply (bool_decide_unpack _); vm_compute.
Qed.

Lemma described_writes {V} (key : V → string) prune (p : Plan V) :
  described key <$> plan_writes prune p =
  (pair "add" <$> (key <$> PlanAdd p)) ++ (pair "update" <$> (key <$> PlanUpdate p)) ++
  (if prune then pair "prune" <$> PlanPrune p else []).
Proof.
  unfold plan_writes. rewrite !fmap_app, <- !list_fmap_compose. do 2 f_equal.
  destruct prune; [|done]. by rewrite <- list_fmap_compose.
Qed.

(** The printed plan announces the writes of the plan, in their order. *)
Lemma read_printed rp pp prune :
  one_line Policy.Name rp → one_line MatchedSAN pp →
  read_plan (printReconcilePlan rp pp prune) =
  (described Policy.Name <$> plan_writes prune rp, described MatchedSAN <$> plan_writes prune pp).
Proof.
  intros Hr Hp. unfold read_plan, printReconcilePlan. rewrite split_unlines.
  - unfold plan_lines. unfold section_lines at 2. rewrite <- app_assoc, <- app_comm_cons.
    rewrite read_sections_app by apply section_no_title. rewrite !described_writes. f_equal.
    + rewrite <- (app_nil_r (section_lines _ _ _ _)), read_section_lines by done. by rewrite app_nil_r.
    + pose proof (read_section_lines "principals:" principalSANs pp prune [""] eq_refl) as Hs.
      unfold section_lines in Hs. rewrite <- app_comm_cons in Hs. change (read_section [""]) with (@nil (string * string)) in Hs.
      rewrite app_nil_r in Hs. exact Hs.
  - intros l [Hl|Hl]%elem_of_app.
    + exact (section_no_newline "roles:" Policy.Name rp prune l eq_refl Hr Hl).
    + exact (section_no_newline "principals:" MatchedSAN pp prune l eq_refl Hp Hl).
Qed.

(** ** A dry run tells what [--apply] will do *)
Section DryRun.
Context (env : string → string) (ReadFile : string → result string).
Context (decode_roles : string → result (list Role)) (decode_entries : string → result (list principalEntry)).
Context {S1 S2 : Type} (rs : RoleStore S1) (ps : PrincipalStore S2) (clock : Applied → time).

Abbreviation command := (reconcile_command env ReadFile decode_roles decode_entries rs ps clock) (only parsing).
Abbreviation the_plans := (plans env ReadFile decode_roles decode_entries rs ps) (only parsing).

Definition with_apply (b : bool) (o : reconcileOpts) : reconcileOpts :=
  mkReconcileOpts b (o_prune o) (o_rolesOnly o) (o_principalsOnly o) (o_adopt o).

(** The writes, roles first, up to the first error. *)
Definition perform (ws1 : list (write Role)) (ws2 : list (write Principal)) (s : S1 * S2)
    : result (option (Applied * Applied)) * (S1 * S2) :=
  match apply_each Policy.Name "role" (role_writer rs) clock ws1 (mkApplied 0 0 0) s.1 with
  | (_, Some e, s1) => (Err (ErrWrap "apply roles: " e ""), (s1, s.2))
  | (ra, None, s1) =>
      match apply_each MatchedSAN "principal" (principal_writer ps) clock ws2 (mkApplied 0 0 0) s.2 with
      | (_, Some e, s2) => (Err (ErrWrap "apply principals: " e ""), (s1, s2))
      | (pa, None, s2) => (Ok (Some (ra, pa)), (s1, s2))
      end
  end.

Lemma runReconcile_plans o s :
  o_rolesOnly o && o_principalsOnly o = false →
  runReconcile env ReadFile decode_roles decode_entries rs ps clock o s =
  match the_plans o s with
  | (Err e, s') => (Err e, s')
  | (Ok (rp, pp), s') =>
      if o_apply o then perform (plan_writes (o_prune o) rp) (plan_writes (o_prune o) pp) s' else (Ok None, s')
  end.
Proof.
  intros Ho. destruct s as [s1 s2]. unfold runReconcile, plans, perform, ApplyRoles, ApplyPrincipals.
  rewrite Ho. destruct (role_plan _ _ _ _ _ s1) as [[rp|e] s1']; [|done].
  destruct (principal_plan _ _ _ _ _ s2) as [[pp|e] s2']; [|done].
  destruct (o_apply o); [|done]. cbn [negb fst snd].
  rewrite apply_writes. destruct (apply_each _ _ _ _ _ _ s1') as [[ra [e|]] s1'']; [done|].
  rewrite apply_writes. by destruct (apply_each _ _ _ _ _ _ s2') as [[pa [e|]] s2''].
Qed.

(** C17: a dry run tells what --apply will do.  When reconcile without --apply
    succeeds, on any stores, and no name it prints contains a line break, the lines
    for additions, updates and removals in its output, read back, are the writes that
    the same command with --apply makes on the same tables, roles first, each in the
    printed order and stopping at the first that fails; it prints the same plan and
    warns of the same conflicts.  The dry run itself makes no write: it leaves the
    tables as reading them does. *)
Theorem dry_run_tells o opened s res rep s' :
  o_apply o = false → command o opened s = (res, rep, s') → is_ok res = true →
  (∀ rp pp, (the_plans o s).1 = Ok (rp, pp) → one_line Policy.Name rp ∧ one_line MatchedSAN pp) →
  res = Ok None ∧ s' = (the_plans o s).2 ∧
  ∃ ws1 ws2, read_plan (printed rep) = (described Policy.Name <$> ws1, described MatchedSAN <$> ws2) ∧
    command (with_apply true o) opened s = ((perform ws1 ws2 s').1, rep, (perform ws1 ws2 s').2).
Proof.
  intros Ha E Hres Hclean. unfold reconcile_command in *. cbn [with_apply o_rolesOnly o_principalsOnly].
  destruct (o_rolesOnly o && o_principalsOnly o) eqn:Ho; [by injection E as <- _ _|].
  destruct opened as [[]|e]; [|by injection E as <- _ _..].
  rewrite (runReconcile_plans o s Ho) in E.
  rewrite (runReconcile_plans (with_apply true o) s) by done.
  change (the_plans (with_apply true o) s) with (the_plans o s).
  destruct (the_plans o s) as [[[rp pp]|e] s1]; [|by injection E as <- _ _].
  rewrite Ha in E. injection E as <- <- <-. cbn [with_apply o_apply o_prune o_adopt fst snd] in *.
  destruct (Hclean rp pp eq_refl) as [Hr Hp]. split; [done|]. split; [done|].
  exists (plan_writes (o_prune o) rp), (plan_writes (o_prune o) pp).
  split; [by apply read_printed|]. by destruct (perform _ _ s1).
Qed.
End DryRun.

(** ** Instances: a role to add, one to leave to the portal, one to prune *)
Module ReconcileCmdExamples.
Import ReconcileExamples.

Definition dry : reconcileOpts := with_apply false ex_opts.
Definition dry_run := reconcile_command ex_env Ok ex_roles ex_entries (role_store sqlite_dialect)
  (principal_store sqlite_dialect) (λ _, 0) dry (Ok true) (mkDb (data before) [], mkDb [] []).

Example shown : printed dry_run.1.2 = unlines
  ["roles:"; "  add      dev"; "  prune    old"; "  conflict ops"; "principals:"; "  add      spiffe://td/agent-1"].
Proof. by vm_compute. Qed.

Lemma dry_run_tells_witness :
  ∃ ws1 ws2, described Policy.Name <$> ws1 = [("add", "dev"); ("prune", "old")] ∧
    described MatchedSAN <$> ws2 = [("add", "spiffe://td/agent-1")] ∧
    (reconcile_command ex_env Ok ex_roles ex_entries (role_store sqlite_dialect) (principal_store sqlite_dialect)
       (λ _, 0) (with_apply true dry) (Ok true) (mkDb (data before) [], mkDb [] [])).2 =
    (perform (role_store sqlite_dialect) (principal_store sqlite_dialect) (λ _, 0) ws1 ws2 dry_run.2).2.
Proof.
  destruct (dry_run_tells ex_env Ok ex_roles ex_entries (role_store sqlite_dialect) (principal_store sqlite_dialect)
    (λ _, 0) dry (Ok true) (mkDb (data before) [], mkDb [] []) dry_run.1.1 dry_run.1.2 dry_run.2)
    as (_ & _ & ws1 & ws2 & Hread & Hrun).
  - reflexivity.
  - vm_compute. reflexivity.
  - vm_compute. reflexivity.
  - intros rp pp Hp. vm_compute in Hp. injection Hp as <- <-.
    split; intros k Hk; apply list_elem_of_In in Hk; simpl in Hk;
      repeat (destruct Hk as [<-|Hk]; [reflexivity|]); destruct Hk.
  - exists ws1, ws2.
    assert (read_plan (printed dry_run.1.2) =
      ([("add", "dev"); ("prune", "old")], [("add", "spiffe://td/agent-1")])) as Hr by (vm_compute; reflexivity).
    rewrite Hr in Hread. apply pair_eq in Hread as [Hw1 Hw2].
    split; [by symmetry|]. split; [by symmetry|]. by rewrite Hrun.
Defined.
End ReconcileCmdExamples.
