(* ===== verification/CaTool.v ===== *)
(** * CaTool: the offline CA commands

    Models [cmd/certd/ca.go], [ca_issue.go] and [ca_intermediate.go]: the commands
    that mint issuer certificates, trust bundles, bootstrap leaves and the sealed
    intermediate, with the checks they share.  Each command is a function of its
    flags on a [host]; messages on the standard error are not modelled.

    Unlike the agent's, these writes are in place, and a file that exists is only
    overwritten with [--force]: [spares] is that promise, which every command of
    this file and of [InitEnv] is shown to keep. *)

From S2P Require Import Prelude GoText Base64 Signer X509Engine Files Custody.

(** [ed25519.GenerateKey], [ecdsa.GenerateKey] on the P-256 curve, [net.ParseIP] *)
Class KeyGen := { GenerateKey : KeyAlgo → string → result PrivateKey; ParseIP : string → option string }.

(** ** Files in place *)

(** [os.Stat]: whether the path exists, or the error. *)
Definition Stat (path : string) : M fs unit :=
  syscall (λ _ d, d) (λ d, (match d !! path with Some _ => Ok tt | None => Err (ErrNotExist path) end, d)).

(** [os.OpenFile(path, O_WRONLY|O_CREATE|O_TRUNC, perm)]: an existing file keeps its
    mode. *)
Definition OpenTrunc (path : string) (perm : Z) : M fs unit :=
  syscall (λ _ d, d) (λ d,
    (Ok tt, <[path := mkFile "" (match d !! path with Some f => mode f | None => perm end) false]> d)).

(** [os.WriteFile] *)
Definition WriteFile (path b : string) (perm : Z) : M fs unit :=
  OpenTrunc path perm;;; λ s,
  let '(r1, s) := Write path b s in
  let '(r2, s) := Close path s in
  (match r1 with Ok _ => r2 | Err e => Err e end, s).

(** [if !force { if _, err := os.Stat(out); ... }] *)
Definition may_write (out : string) (force : bool) : M fs unit := λ s,
  if force then (Ok tt, s) else
  match Stat out s with
  | (Ok _, s) => (Err (ErrNew (out +:+ " already exists (pass --force to overwrite)")), s)
  | (Err e, s) => if err_is e "fs.ErrNotExist" then (Ok tt, s)
                  else (Err (ErrWrap ("stat " +:+ out +:+ ": ") e ""), s)
  end.

Definition wrap_fs {A} (pre : string) (m : M fs A) : M fs A := λ s,
  let '(r, s) := m s in (rwrap pre r, s).

(** [os.Stdout.Write] *)
Definition print (b : string) : M host unit := λ h,
  match syscall (λ _ d, d) (λ d, (Ok tt, d)) (disk h) with
  | (Ok _, d) => (Ok tt, mkHost d (entropy h) (clocks h) (stdout h +:+ b))
  | (Err e, d) => (Err e, mkHost d (entropy h) (clocks h) (stdout h))
  end.

Definition writePEMBytes (out b : string) (force : bool) : M host unit :=
  if str_empty out then print b else
  on_disk (may_write out force;;; wrap_fs ("write " +:+ out +:+ ": ") (WriteFile out b (octal 6 4 4))).

Definition writeKeyPEM (out b : string) (force : bool) : M host unit :=
  if str_empty out then mfail (ErrNew "private key output path is required") else
  on_disk (may_write out force;;;
           wrap_fs ("write " +:+ out +:+ ": ") (WriteFile out b (octal 6 0 0));;;
           wrap_fs ("chmod " +:+ out +:+ ": ") (Chmod out (octal 6 0 0))).

(** [publicKeysEqual]: keys of an unknown type have no [Equal] method. *)
Definition publicKeysEqual (a : option PublicKey) (b : PublicKey) : bool :=
  match a with
  | Some k => match algo k with OtherKey _ => false | _ => bool_decide (k = b) end
  | None => false
  end.

Section Commands.
Context `{CryptoLib, X509Lib, PkixLib, KeyLib, KeyParams, AwsKms, Gcm, KeyGen}.

Definition cert_block (c : Certificate) : string := pem_encode "CERTIFICATE" (Raw c).
Definition writeCertPEM (out : string) (cert : Certificate) (force : bool) : M host unit :=
  writePEMBytes out (cert_block cert) force.
Definition writeBundle (out : string) (pemParts : list string) (force : bool) : M host unit :=
  writePEMBytes out (str_join "" pemParts) force.

(** The certificate of a PEM text, as both readers below take it. *)
Definition parse_cert_file (path : string) (raw : string) : result (string * Certificate) :=
  match pem_decode raw with
  | Some (ty, der) =>
      reject negb (bool_decide (ty = "CERTIFICATE")) with ErrNew (path +:+ ": no CERTIFICATE PEM block");;
      cert <-r rwrap (path +:+ ": parse certificate: ") (ParseCertificate der);; Ok (der, cert)
  | None => Err (ErrNew (path +:+ ": no CERTIFICATE PEM block"))
  end.

Definition read_cert (path : string) : M host (string * Certificate) :=
  raw <-m on_disk (wrap_fs ("read " +:+ path +:+ ": ") (ReadFile path));; lift (parse_cert_file path raw).

Definition readCertFilePEM (path : string) : M host string :=
  c <-m read_cert path;; mret (pem_encode "CERTIFICATE" c.1).

Definition loadIssuerCert (path : string) : M host Certificate :=
  c <-m read_cert path;; mret c.2.

Definition key_algo (keyType : string) : result KeyAlgo :=
  if str_empty keyType || bool_decide (keyType = "ed25519") then Ok Ed25519 else
  if bool_decide (keyType = "ecdsa-p256") then Ok ECDSA else
  Err (ErrNew ("unsupported --key-type " +:+ fmt_q keyType +:+ " (want ed25519 or ecdsa-p256)")).

Definition generateLeafKey (keyType : string) : M host (PublicKey * string) :=
  a <-m lift (key_algo keyType);;
  r <-m draw;;
  priv <-m lift (GenerateKey a r);;
  der <-m lift (rwrap "marshal private key: " (MarshalPKCS8PrivateKey priv));;
  mret (public_of priv, pem_encode "PRIVATE KEY" der).

Definition random_serial (who : string) : M host Z :=
  r <-m draw;; s <-m lift (rwrap (who +:+ "serial: ") (RandomSerial r));; mret s.1.

(** A self-signed certificate from one of the engine's constructors. *)
Definition mint (who : string) (sign : string → time → time → option Signer → string → result Certificate)
    (sig : Signer) (cn : string) : M host Certificate :=
  r <-m draw;; n1 <-m now;; n2 <-m now;; lift (rwrap who (sign r n1 n2 (Some sig) cn)).

(** ** [ca bootstrap], [ca rotate], [ca bundle] *)

Definition caBootstrap (keyRef cn out : string) (force : bool) : M host unit :=
  sig <-m resolveCASigner keyRef;;
  cert <-m mint "mint issuer cert: " NewSelfSignedCA sig cn;;
  writeCertPEM out cert force.

(** The blocks of a list of certificate files. *)
Fixpoint read_parts (paths : list string) : M host (list string) :=
  match paths with
  | [] => mret []
  | p :: ps => b <-m readCertFilePEM p;; bs <-m read_parts ps;; mret (b :: bs)
  end.

Definition caRotate (newKeyRef cn out : string) (oldCerts : list string) (bundleOut : string) (force : bool)
    : M host unit :=
  if str_empty newKeyRef
  then mfail (ErrNew "the new signing key is required: pass --key (file:<path> or a KMS key ref)") else
  if str_empty out then mfail (ErrNew "--out (the new issuer cert path) is required") else
  sig <-m resolveCASigner newKeyRef;;
  newCert <-m mint "mint new issuer cert: " NewSelfSignedCA sig cn;;
  writeCertPEM out newCert force;;;
  if str_empty bundleOut then mret tt else
  parts <-m read_parts oldCerts;;
  writeBundle bundleOut (parts ++ [cert_block newCert]) force.

Definition caBundle (args : list string) (out : string) (force : bool) : M host unit :=
  parts <-m read_parts args;; writeBundle out parts force.

(** ** [ca issue-workload], [ca issue-server] *)

Record leafContext := mkLeafContext {
  sig : Signer; issuer : Certificate; pub : PublicKey; keyPEM : string; serial : Z; at_ : time }.

Definition prepareLeaf (keyRef caCertPath keyType : string) : M host leafContext :=
  if str_empty caCertPath
  then mfail (ErrNew "--ca-cert (the issuer cert) is required; default is $CERTD_CA_X509_CERT_FILE") else
  sig <-m resolveCASigner keyRef;;
  issuer <-m loadIssuerCert caCertPath;;
  if negb (publicKeysEqual (CertPublicKey issuer) (Public sig))
  then mfail (ErrNew "--ca-cert public key does not match the signing key (--key); the leaf would not chain") else
  k <-m generateLeafKey keyType;;
  serial <-m random_serial "";;
  t <-m now;;
  mret (mkLeafContext sig issuer k.1 k.2 serial t).

Definition writeLeafOutputs (lc : leafContext) (cert : Certificate) (outCert outKey bundleOut : string)
    (force : bool) : M host unit :=
  writeKeyPEM outKey (keyPEM lc) force;;;
  writePEMBytes outCert (cert_block cert +:+ ChainPEMForLeaf (Some (issuer lc))) force;;;
  if str_empty bundleOut then mret tt else writeCertPEM bundleOut (issuer lc) force.

(** The flags both commands share. *)
Record leafFlags := mkLeafFlags {
  FlagCN : string; FlagKeyType : string; FlagCACert : string; FlagKey : string; FlagOutCert : string;
  FlagOutKey : string; FlagBundleOut : string; FlagTTL : duration; FlagForce : bool }.

Definition outputs_required (f : leafFlags) : result unit :=
  reject str_empty (FlagOutCert f) || str_empty (FlagOutKey f)
    with ErrNew "--out-cert and --out-key are required";; Ok tt.

Definition caIssueWorkload (spiffeURI : string) (f : leafFlags) : M host unit :=
  if str_empty spiffeURI then mfail (ErrNew "--spiffe-uri is required") else
  _ <-m lift (outputs_required f);;
  lc <-m prepareLeaf (FlagKey f) (FlagCACert f) (FlagKeyType f);;
  r <-m draw;;
  cert <-m lift (rwrap "sign workload cert: " (SignWorkloadCert r (sig lc) (Some (issuer lc))
    (WorkloadCertParams.mk (Some (pub lc)) spiffeURI (FlagCN f) [] (at_ lc)
       (time_add (at_ lc) (FlagTTL f)) (Some (serial lc)))));;
  writeLeafOutputs lc cert (FlagOutCert f) (FlagOutKey f) (FlagBundleOut f) (FlagForce f).

Fixpoint parse_ips (invalid : string → error) (l : list string) : result (list string) :=
  match l with
  | [] => Ok []
  | s :: l => match ParseIP s with
              | None => Err (invalid s)
              | Some ip => ips <-r parse_ips invalid l;; Ok (ip :: ips)
              end
  end.

Definition caIssueServer (dnsNames ipAddrs : list string) (spiffeURI : string) (f : leafFlags) : M host unit :=
  if bool_decide (dnsNames = []) && bool_decide (ipAddrs = [])
  then mfail (ErrNew "at least one --dns or --ip is required for a server cert") else
  _ <-m lift (outputs_required f);;
  ips <-m lift (parse_ips (λ s, ErrNew ("invalid --ip " +:+ fmt_q s)) ipAddrs);;
  lc <-m prepareLeaf (FlagKey f) (FlagCACert f) (FlagKeyType f);;
  r <-m draw;;
  cert <-m lift (rwrap "sign server cert: " (SignServerCert r (sig lc) (Some (issuer lc))
    (ServerCertParams.mk (Some (pub lc)) dnsNames ips spiffeURI (FlagCN f) (at_ lc)
       (time_add (at_ lc) (FlagTTL f)) (Some (serial lc)))));;
  writeLeafOutputs lc cert (FlagOutCert f) (FlagOutKey f) (FlagBundleOut f) (FlagForce f).

(** ** [ca issue-intermediate] *)

(** The intermediate's certificate, and its key under the sealer. *)
Definition sign_intermediate (rootSig : Signer) (rootCert : Certificate) (pub : PublicKey) (cn : string)
    (serial : Z) (ttl : duration) : M host Certificate :=
  t <-m now;;
  r <-m draw;;
  lift (rwrap "sign intermediate: " (SignIntermediateCA r rootSig (Some rootCert)
    (IntermediateCertParams.mk (Some pub) cn t (time_add t ttl) (Some serial)))).

Definition seal_key (s : sealer) (keyPEM : string) : M host string := λ h,
  let '(r, h) := Encrypt s keyPEM h in
  (sealed <-r rwrap "seal intermediate key: " r;; Ok (EncodeToString sealed), h).

Definition caIssueIntermediate (rootKeyRef rootCertPath sealKey cn keyType : string) (ttl : duration)
    (outCert outSealedKey : string) (force : bool) : M host unit :=
  if str_empty rootCertPath
  then mfail (ErrNew "--root-cert (the root cert) is required; default is $CERTD_CA_ROOT_CERT_FILE") else
  if str_empty outCert || str_empty outSealedKey
  then mfail (ErrNew "--out-cert and --out-sealed-key are required") else
  rootSig <-m resolveCASigner rootKeyRef;;
  rootCert <-m loadIssuerCert rootCertPath;;
  if negb (publicKeysEqual (CertPublicKey rootCert) (Public rootSig))
  then mfail (ErrNew "--root-cert public key does not match the root signing key (--root-key); the intermediate would not chain") else
  s <-m resolveSealer sealKey;;
  k <-m generateLeafKey keyType;;
  serial <-m random_serial "";;
  interCert <-m sign_intermediate rootSig rootCert k.1 cn serial ttl;;
  sealedB64 <-m seal_key s k.2;;
  writeCertPEM outCert interCert force;;;
  writeKeyPEM outSealedKey sealedB64 force.
End Commands.

(** ** Existing files are spared

    [kept X d d']: every file of [d] outside [X] is in [d'], unchanged. *)
Definition kept (X : gset string) (d d' : gmap string file) : Prop :=
  ∀ p f, p ∉ X → d !! p = Some f → d' !! p = Some f.

#[export] Instance kept_preorder X : PreOrder (kept X).
Proof. split; [by intros d p f|]. intros d1 d2 d3 H1 H2 p f Hp Hf. by apply H2, H1. Qed.

Lemma kept_mono X Y d d' : X ⊆ Y → kept X d d' → kept Y d d'.
Proof. intros HXY Hk p f Hp. apply Hk. set_solver. Qed.

Lemma kept_fresh X path d d' : kept ({[path]} ∪ X) d d' → d !! path = None → kept X d d'.
Proof. intros Hk Hn p f Hp Hf. apply Hk; [|done]. assert (p ≠ path) by congruence. set_solver. Qed.

Lemma kept_insert X path f d : path ∈ X → kept X d (<[path := f]> d).
Proof. intros Hp p g Hpx Hg. rewrite lookup_insert_ne; [done|]. set_solver. Qed.

(** The operating system does not report a file as absent that is there. *)
Definition honest (s : fs) : Prop :=
  Forall (λ f, match f with DFail e _ => not_absent e | DOk => True end) (script s) ∧
  Forall (λ o, match o with Some e => not_absent e | None => True end) (read_faults s).

(** From [d0], everything up to [s'] kept the files outside [X]. *)
Definition kept_from (X : gset string) (s s' : fs) : Prop :=
  honest s' ∧ ∃ ds, history s' = history s ++ ds ∧ Forall (kept X (files s)) ds ∧ kept X (files s) (files s').

Lemma kept_from_refl X s : honest s → kept_from X s s.
Proof. intros Hh. split; [done|]. exists []. by rewrite app_nil_r. Qed.

Lemma kept_from_trans X s1 s2 s3 : kept_from X s1 s2 → kept_from X s2 s3 → kept_from X s1 s3.
Proof.
  intros [_ (d1 & E1 & F1 & K1)] [Hh (d2 & E2 & F2 & K2)]. split; [done|]. exists (d1 ++ d2).
  rewrite E2, E1, app_assoc. split_and!; [done| |by etransitivity].
  apply Forall_app. split; [done|]. eapply Forall_impl; [exact F2|]. intros d Hd. by etransitivity.
Qed.

Lemma kept_from_mono X Y s s' : X ⊆ Y → kept_from X s s' → kept_from Y s s'.
Proof.
  intros HXY [Hh (ds & E & F & K)]. split; [done|]. exists ds. split_and!; [done| |by eapply kept_mono].
  eapply Forall_impl; [exact F|]. intros d. by apply kept_mono.
Qed.

Lemma kept_from_fresh X path s s' : kept_from ({[path]} ∪ X) s s' → files s !! path = None → kept_from X s s'.
Proof.
  intros [Hh (ds & E & F & K)] Hn. split; [done|]. exists ds. split_and!; [done| |by eapply kept_fresh].
  eapply Forall_impl; [exact F|]. intros d Hd. by eapply kept_fresh.
Qed.

Definition fs_spares {A} (X : gset string) (m : M fs A) : Prop :=
  ∀ s r s', honest s → m s = (r, s') → kept_from X s s'.
Definition spares {A} (X : gset string) (m : M host A) : Prop :=
  ∀ h r h', honest (disk h) → m h = (r, h') → kept_from X (disk h) (disk h').

Lemma syscall_spares {A} X partial (f : gmap string file → result A * gmap string file) :
  (∀ d, kept X d (f d).2) → (∀ n d, kept X d (partial n d)) → fs_spares X (syscall partial f).
Proof.
  intros Hf Hp s r s' [Hs Hr]. unfold syscall.
  assert (∀ d l, kept X (files s) d → Forall (λ f, match f with DFail e _ => not_absent e | DOk => True end) l →
    kept_from X s (mkFs d l (read_faults s) (history s ++ [d]))) as Hk.
  { intros d l Hd Hl. split; [done|]. exists [d]. by split_and!; [|repeat constructor|]. }
  destruct (script s) as [|[|e n] l]; simpl;
    [pose proof (Hf (files s)) as Hd; destruct (f (files s)) as [r1 d]; intros [= <- <-]; apply Hk; [done|constructor]| |].
  - apply Forall_cons in Hs as [_ Hs].
    pose proof (Hf (files s)) as Hd; destruct (f (files s)) as [r1 d]. intros [= <- <-]. by apply Hk.
  - apply Forall_cons in Hs as [_ Hs]. intros [= <- <-]. by apply Hk.
Qed.

Lemma fs_spares_bind {A B} X (m : M fs A) (k : A → M fs B) :
  fs_spares X m → (∀ a, fs_spares X (k a)) → fs_spares X (mbind m k).
Proof.
  intros Hm Hk s r s' Hh. unfold mbind. destruct (m s) as [[a|e] s1] eqn:E; [|intros [= <- <-]; by eapply Hm].
  intros E2. pose proof (Hm _ _ _ Hh E) as H1. eapply kept_from_trans; [done|]. eapply Hk; [apply H1|done].
Qed.

Lemma wrap_spares {A} X pre (m : M fs A) : fs_spares X m → fs_spares X (wrap_fs pre m).
Proof. intros Hm s r s' Hh. unfold wrap_fs. destruct (m s) eqn:E. intros [= <- <-]. by eapply Hm. Qed.

Lemma update_spares path g d : kept {[path]} d (update_file path g d).
Proof. unfold update_file. destruct (d !! path); [|done]. apply kept_insert. set_solver. Qed.

Lemma chmod_spares path m : fs_spares {[path]} (Chmod path m).
Proof. apply syscall_spares; [|reflexivity]. intros d. apply update_spares. Qed.

Lemma write_spares path b : fs_spares {[path]} (Write path b).
Proof. apply syscall_spares; intros; apply update_spares. Qed.

Lemma close_spares X path : fs_spares X (Close path).
Proof. apply syscall_spares; reflexivity. Qed.

Lemma stat_spares X path : fs_spares X (Stat path).
Proof. apply syscall_spares; reflexivity. Qed.

Lemma WriteFile_spares path b perm : fs_spares {[path]} (WriteFile path b perm).
Proof.
  apply fs_spares_bind; [apply syscall_spares; [|reflexivity]; intros d; apply kept_insert; set_solver|].
  intros _ s r s' Hh. destruct (Write path b s) as [r1 s1] eqn:E1. destruct (Close path s1) as [r2 s2] eqn:E2.
  intros [= _ <-].
  apply write_spares in E1; [|done]. apply (close_spares {[path]}) in E2; [|apply E1].
  by eapply kept_from_trans.
Qed.

Lemma ReadFile_spares path : fs_spares ∅ (ReadFile path).
Proof.
  intros s r s' [Hs Hr]. unfold ReadFile. destruct (read_faults s) as [|[e|] rs];
    try (apply Forall_cons in Hr as [_ Hr]); intros [= <- <-]; (split; [done|]); exists []; by rewrite app_nil_r.
Qed.

Lemma ErrNotExist_is path : err_is (ErrNotExist path) "fs.ErrNotExist" = true.
Proof. done. Qed.

Lemma Stat_cases path s r s' :
  honest s → Stat path s = (r, s') →
  kept_from ∅ s s' ∧ files s' = files s ∧
  match r with
  | Ok _ => is_Some (files s !! path)
  | Err e => err_is e "fs.ErrNotExist" = true → files s !! path = None
  end.
Proof.
  intros Hh E. split; [by eapply stat_spares|].
  destruct Hh as [Hs _]. unfold Stat, syscall in E. destruct (script s) as [|[|e n] l]; simpl in E.
  - injection E as <- <-. split; [done|]. by destruct (files s !! path).
  - injection E as <- <-. split; [done|]. by destruct (files s !! path).
  - injection E as <- <-. split; [done|]. apply Forall_cons in Hs as [Hs _]. unfold not_absent in Hs. congruence.
Qed.

Lemma may_write_cases path force s r s' :
  honest s → may_write path force s = (r, s') →
  kept_from ∅ s s' ∧ files s' = files s ∧ (r = Ok tt → force = false → files s !! path = None).
Proof.
  intros Hh. unfold may_write. destruct force.
  { intros [= <- <-]. by split; [apply kept_from_refl|]. }
  destruct (Stat path s) as [[[]|e] s1] eqn:E; apply Stat_cases in E as (Hk & Hf & Hr); [|done| |done].
  - by intros [= <- <-].
  - destruct (err_is e "fs.ErrNotExist"); intros [= <- <-]; [|done]. split_and!; [done..|]. intros _ _. by apply Hr.
Qed.

(** A guarded write to [path] touches nothing else, and nothing that exists unless
    forced. *)
Definition forced (force : bool) (path : string) : gset string := if force then {[path]} else ∅.

Lemma guarded_spares path force (m : M fs unit) :
  fs_spares {[path]} m → fs_spares (forced force path) (may_write path force;;; m).
Proof.
  intros Hm s r s' Hh. unfold mbind. destruct (may_write path force s) as [[[]|e] s1] eqn:E;
    apply may_write_cases in E as (Hk & Hf & Hn); [| done | |done]; cycle 1.
  { intros [= <- <-]. eapply kept_from_mono; [|exact Hk]. set_solver. }
  intros E2. eapply kept_from_trans; [eapply kept_from_mono; [|exact Hk]; set_solver|].
  apply Hm in E2; [|apply Hk]. destruct force; simpl; [done|]. eapply (kept_from_fresh _ path).
  - eapply kept_from_mono; [|exact E2]. set_solver.
  - rewrite Hf. by apply Hn.
Qed.

(** ** The commands, composed *)

Lemma spares_mono {A} X Y (m : M host A) : X ⊆ Y → spares X m → spares Y m.
Proof. intros HXY Hm h r h' Hh E. eapply kept_from_mono; [done|]. by eapply Hm. Qed.

Lemma spares_bind_eq {A B} X (m : M host A) (k : A → M host B) :
  spares X m → (∀ h a h', m h = (Ok a, h') → spares X (k a)) → spares X (mbind m k).
Proof.
  intros Hm Hk h r h' Hh. unfold mbind. destruct (m h) as [[a|e] h1] eqn:E; [|intros [= <- <-]; by eapply Hm].
  intros E2. pose proof (Hm _ _ _ Hh E) as H1. eapply kept_from_trans; [done|].
  eapply Hk; [exact E|apply H1|done].
Qed.

Lemma spares_bind {A B} X (m : M host A) (k : A → M host B) :
  spares X m → (∀ a, spares X (k a)) → spares X (mbind m k).
Proof. intros Hm Hk. apply spares_bind_eq; [done|]. intros h a h' _. apply Hk. Qed.

Lemma spares_disk {A} X (m : M fs A) : fs_spares X m → spares X (on_disk m).
Proof.
  intros Hm h r h' Hh. unfold on_disk. destruct (m (disk h)) as [r1 d] eqn:E. intros [= <- <-]. simpl. by eapply Hm.
Qed.

(** A step that leaves the disk alone. *)
Definition off_disk {A} (m : M host A) : Prop := ∀ h, disk (m h).2 = disk h.
Lemma spares_off {A} X (m : M host A) : off_disk m → spares X m.
Proof. intros Hm h r h' Hh E. pose proof (Hm h) as Hd. rewrite E in Hd. simpl in Hd. rewrite Hd. by apply kept_from_refl. Qed.

Section Spares.
Context `{CryptoLib, X509Lib, PkixLib, KeyLib, KeyParams, AwsKms, Gcm, KeyGen}.

Lemma read_spares {A} path pre (f : result string → result A) :
  spares ∅ (on_disk (λ d, let '(b, d) := wrap_fs pre (ReadFile path) d in (f b, d))).
Proof.
  apply spares_disk. intros s r s' Hh. destruct (wrap_fs pre (ReadFile path) s) as [b d] eqn:E.
  intros [= _ <-]. eapply (wrap_spares ∅ pre); [apply ReadFile_spares|exact Hh|exact E].
Qed.

Lemma read_cert_spares X path : spares X (read_cert path).
Proof.
  eapply spares_mono; [apply empty_subseteq|]. apply spares_bind; [|intros; by apply spares_off].
  apply spares_disk, wrap_spares, ReadFile_spares.
Qed.

Lemma print_spares X b : spares X (print b).
Proof.
  intros h r h' Hh. unfold print. destruct (syscall _ _ (disk h)) as [r1 d] eqn:E.
  assert (kept_from X (disk h) d) as Hk.
  { revert E. apply (syscall_spares X (λ _ d, d) (λ d, (Ok tt, d))); [reflexivity|reflexivity|done]. }
  destruct r1; by intros [= <- <-].
Qed.

Lemma writePEMBytes_spares out b force : spares (forced force out) (writePEMBytes out b force).
Proof.
  unfold writePEMBytes. destruct (str_empty out); [apply print_spares|].
  apply spares_disk, guarded_spares, wrap_spares, WriteFile_spares.
Qed.

Lemma writeKeyPEM_spares out b force : spares (forced force out) (writeKeyPEM out b force).
Proof.
  unfold writeKeyPEM. destruct (str_empty out); [by apply spares_off|].
  apply spares_disk, guarded_spares, fs_spares_bind; [apply wrap_spares, WriteFile_spares|].
  intros _. apply wrap_spares, chmod_spares.
Qed.

Lemma resolveCASigner_spares X keyRef : spares X (resolveCASigner keyRef).
Proof.
  unfold resolveCASigner. destruct (str_empty keyRef); [by apply spares_off|].
  destruct (CutPrefix "file:" keyRef) as [path|].
  - eapply spares_mono; [apply empty_subseteq|]. apply spares_disk. intros s r s' Hh.
    destruct (ReadFile path s) as [b d] eqn:E. intros [= _ <-]. by eapply ReadFile_spares.
  - apply spares_bind; [by apply spares_off|]. intros c. by apply spares_off.
Qed.

Lemma resolveSealer_spares X keyRef : spares X (resolveSealer keyRef).
Proof.
  unfold resolveSealer. destruct (str_empty keyRef); [by apply spares_off|].
  destruct (split_scheme keyRef) as [scheme ref]. case_bool_decide.
  - unfold file_factory. apply spares_bind.
    + eapply spares_mono; [apply empty_subseteq|]. intros h r h' Hh.
      destruct (on_disk (ReadFile ref) h) as [b h1] eqn:E. intros [= _ <-].
      by eapply (spares_disk ∅ _ (ReadFile_spares ref)).
    + intros key. destruct (negb _); by apply spares_off.
  - apply spares_bind; [by apply spares_off|]. intros []. by apply spares_off.
Qed.

Lemma bind_off {A B} (m : M host A) (k : A → M host B) :
  off_disk m → (∀ a, off_disk (k a)) → off_disk (mbind m k).
Proof.
  intros Hm Hk h. unfold mbind. specialize (Hm h). destruct (m h) as [[a|e] h1]; [|done].
  simpl in Hm. by rewrite Hk.
Qed.

Lemma generateLeafKey_off kt : off_disk (generateLeafKey kt).
Proof. unfold generateLeafKey. repeat (apply bind_off; [by intros ?|intros ?]). by intros ?. Qed.
Lemma random_serial_off who : off_disk (random_serial who).
Proof. unfold random_serial. repeat (apply bind_off; [by intros ?|intros ?]). by intros ?. Qed.
Lemma mint_off who sign sig cn : off_disk (mint who sign sig cn).
Proof. unfold mint. repeat (apply bind_off; [by intros ?|intros ?]). by intros ?. Qed.
Lemma sign_intermediate_off sg c p cn n ttl : off_disk (sign_intermediate sg c p cn n ttl).
Proof. unfold sign_intermediate. repeat (apply bind_off; [by intros ?|intros ?]). by intros ?. Qed.

(** Sealing reads the random source only. *)
Lemma seal_key_off keyRef h0 s h1 keyPEM :
  resolveSealer keyRef h0 = (Ok s, h1) → off_disk (seal_key s keyPEM).
Proof.
  intros E h. unfold seal_key. assert (off_disk (Encrypt s keyPEM)) as Ho.
  { unfold resolveSealer in E. destruct (str_empty keyRef); [done|].
    destruct (split_scheme keyRef) as [scheme ref]. destruct (bool_decide (scheme = "file")).
    - unfold file_factory in E. apply mbind_Ok_inv in E as (key & h2 & _ & E). destruct (negb _); [done|]. injection E as <- _.
      simpl. apply bind_off; [|by intros ? ?]. unfold read_random. apply bind_off; [by intros ?|].
      intros r. by destruct (String.length r <? NonceSize)%nat.
    - unfold aws_factory in E. apply mbind_Ok_inv in E as (? & h2 & _ & E). by injection E as <- _. }
  specialize (Ho h). by destruct (Encrypt s keyPEM h).
Qed.

Create HintDb spares.
#[local] Hint Resolve read_cert_spares print_spares resolveCASigner_spares resolveSealer_spares
  generateLeafKey_off random_serial_off mint_off sign_intermediate_off : spares.
#[local] Hint Extern 5 (off_disk _) => (by intros ?) : spares.
#[local] Hint Extern 6 (spares _ _) => (apply spares_off) : spares.
#[local] Hint Extern 4 (spares _ (writePEMBytes ?out ?b ?force)) =>
  (apply (spares_mono (forced force out)); [set_solver|apply writePEMBytes_spares]) : spares.
#[local] Hint Extern 4 (spares _ (writeKeyPEM ?out ?b ?force)) =>
  (apply (spares_mono (forced force out)); [set_solver|apply writeKeyPEM_spares]) : spares.
#[local] Hint Extern 3 (spares _ (writeCertPEM _ _ _)) => (unfold writeCertPEM) : spares.
#[local] Hint Extern 3 (spares _ (writeBundle _ _ _)) => (unfold writeBundle) : spares.
Ltac spare := repeat first
  [ progress (by eauto with spares) | simple apply spares_bind; [|intros ?] | case_match ].

Lemma readCertFilePEM_spares X path : spares X (readCertFilePEM path).
Proof. unfold readCertFilePEM. spare. Qed.
Lemma loadIssuerCert_spares X path : spares X (loadIssuerCert path).
Proof. unfold loadIssuerCert. spare. Qed.
#[local] Hint Resolve readCertFilePEM_spares loadIssuerCert_spares : spares.

Lemma read_parts_spares X paths : spares X (read_parts paths).
Proof. induction paths as [|p ps IH]; simpl; spare. Qed.
#[local] Hint Resolve read_parts_spares : spares.

Lemma prepareLeaf_spares X k c t : spares X (prepareLeaf k c t).
Proof. unfold prepareLeaf. spare. Qed.
#[local] Hint Resolve prepareLeaf_spares : spares.

Definition leaf_outputs (outCert outKey bundleOut : string) (force : bool) : gset string :=
  forced force outKey ∪ forced force outCert ∪ forced force bundleOut.

Lemma writeLeafOutputs_spares lc cert oc ok bo force :
  spares (leaf_outputs oc ok bo force) (writeLeafOutputs lc cert oc ok bo force).
Proof. unfold writeLeafOutputs, leaf_outputs. spare. Qed.
#[local] Hint Resolve writeLeafOutputs_spares : spares.

(** ** The commands *)

Inductive command :=
  | Bootstrap (keyRef cn out : string) (force : bool)
  | Rotate (newKeyRef cn out : string) (oldCerts : list string) (bundleOut : string) (force : bool)
  | Bundle (args : list string) (out : string) (force : bool)
  | IssueWorkload (spiffeURI : string) (f : leafFlags)
  | IssueServer (dnsNames ipAddrs : list string) (spiffeURI : string) (f : leafFlags)
  | IssueIntermediate (rootKeyRef rootCertPath sealKey cn keyType : string) (ttl : duration)
      (outCert outSealedKey : string) (force : bool).

Definition run_command (c : command) : M host unit :=
  match c with
  | Bootstrap k cn out f => caBootstrap k cn out f
  | Rotate k cn out old bo f => caRotate k cn out old bo f
  | Bundle args out f => caBundle args out f
  | IssueWorkload uri f => caIssueWorkload uri f
  | IssueServer dns ips uri f => caIssueServer dns ips uri f
  | IssueIntermediate rk rc sk cn kt ttl oc os f => caIssueIntermediate rk rc sk cn kt ttl oc os f
  end.

(** What a command may overwrite. *)
Definition overwrites (c : command) : gset string :=
  match c with
  | Bootstrap _ _ out f | Bundle _ out f => forced f out
  | Rotate _ _ out _ bo f => forced f out ∪ forced f bo
  | IssueWorkload _ f | IssueServer _ _ _ f =>
      leaf_outputs (FlagOutCert f) (FlagOutKey f) (FlagBundleOut f) (FlagForce f)
  | IssueIntermediate _ _ _ _ _ _ oc os f => forced f oc ∪ forced f os
  end.

Lemma command_spares c : spares (overwrites c) (run_command c).
Proof.
  destruct c as [k cn out f|k cn out old bo f|args out f|uri f|dns ips uri f|rk rc sk cn kt ttl oc os f]; simpl.
  - unfold caBootstrap. spare.
  - unfold caRotate. spare.
  - unfold caBundle. spare.
  - unfold caIssueWorkload. spare.
  - unfold caIssueServer. spare.
  - unfold caIssueIntermediate. case_match; [by spare|]. case_match; [by spare|].
    do 2 (simple apply spares_bind; [by spare|intros ?]). case_match; [by spare|].
    simple apply spares_bind_eq; [by spare|]. intros h0 s h1 Es.
    do 3 (simple apply spares_bind; [by spare|intros ?]).
    simple apply spares_bind; [apply spares_off; by eapply seal_key_off|]. intros ?. spare.
Qed.
End Spares.
