(* ===== verification/ToyCA.v ===== *)
(** * ToyCA: concrete libraries to try the offline commands on

    Instances of the foreign code of [Signer], [X509Engine], [Custody] and [CaTool]
    that satisfy the laws assumed of it: PEM and DER as framed texts, keys as names,
    a seal that puts its key in front.  The examples of [InitEnv], [Reload], [Boot]
    and [FirstBoot] run on them. *)

From S2P Require Import Prelude GoText Signer X509Engine Files Custody CaTool.

(** ** Framed texts: every byte after an x, a dot at the end *)
Fixpoint esc (s : string) : string :=
  match s with EmptyString => "." | String c s => String "x" (String c (esc s)) end.
Fixpoint unesc (s : string) : option (string * string) :=
  match s with
  | String "." rest => Some ("", rest)
  | String "x" (String c rest) => '(s, rest) ← unesc rest; Some (String c s, rest)
  | _ => None
  end.

Lemma unesc_esc s rest : unesc (esc s +:+ rest) = Some (s, rest).
Proof.
  induction s as [|c s IH]; [done|].
  change (esc (String c s) +:+ rest) with (String "x" (String c (esc s +:+ rest))).
  cbn [unesc]. by rewrite IH.
Qed.

Fixpoint frames (l : list string) : string := match l with [] => "" | s :: l => esc s +:+ frames l end.
Fixpoint unframe (n : nat) (s : string) : option (list string) :=
  match n with
  | O => Some []
  | S n => '(a, rest) ← unesc s; l ← unframe n rest; Some (a :: l)
  end.

Lemma unframe_frames l : unframe (length l) (frames l) = Some l.
Proof. induction l as [|s l IH]; [done|]. cbn [length unframe frames]. rewrite unesc_esc. simpl. by rewrite IH. Qed.

(** ** Keys and PEM *)
#[local] Instance crypto : CryptoLib := {|
  public_of k := mkPublicKey (priv_algo k) (priv_bytes k);
  raw_sign k m := Ok m;
  can_sign k := true;
  pem_decode s := '(ty, rest) ← unesc s; '(b, _) ← unesc rest; Some (ty, b);
  pem_encode ty b := esc ty +:+ esc b;
  ParsePKCS8PrivateKey b := Ok (mkPrivateKey Ed25519 b);
|}.
#[local] Instance pkix : PkixLib := {| ParsePKIXPublicKey b := Ok (mkPublicKey Ed25519 b) |}.
#[local] Instance keys : KeyLib := {|
  MarshalPKIXPublicKey k := Ok (key_bytes k);
  MarshalPKCS8PrivateKey k := match priv_algo k with Ed25519 => Ok (priv_bytes k) | _ => Err (ErrNew "toy") end;
|}.
#[local] Instance params : KeyParams := {| curve_name _ := "P-256"; modulus_bits _ := 2048 |}.
#[local] Instance keygen : KeyGen := {|
  GenerateKey a r := Ok (mkPrivateKey a (String.substring 0 16 r));
  ParseIP s := Some s;
|}.

(** ** Seals *)
#[local] Instance no_kms : AwsKms := {|
  LoadDefaultConfig := Err (ErrNew "no AWS");
  GetPublicKey _ := Err (ErrNew "no AWS");
  KmsSign _ _ _ _ _ := Err (ErrNew "no AWS");
  KmsEncrypt _ _ := Err (ErrNew "no AWS");
  KmsDecrypt _ _ := Err (ErrNew "no AWS");
|}.
#[local] Instance gcm : Gcm := {|
  gcm_seal k _ p := k +:+ p;
  gcm_open k _ c := match CutPrefix k c with Some p => Ok p | None => Err (ErrNew "gcm") end;
|}.
Lemma seal_laws : SealLaws.
Proof. split; [|done]. intros k n p. simpl. by rewrite CutPrefix_app. Qed.

(** ** Certificates

    The fields of a template and, last, who signed: the issuer's name and key. *)
#[local] Existing Instance X509Examples.ExtKeyUsage_eq_dec.

Definition flag (b : bool) : string := if b then "1" else "0".
Definition toy_url (s : string) : result URL :=
  match CutPrefix "spiffe://" s with
  | Some rest => Ok (mkURL "spiffe" (default "" (head (split_byte "/" rest))) s)
  | None => Err (ErrNew "url")
  end.
Definition subject_of (c : Certificate) : string := if str_empty (RawSubject c) then SubjectCommonName c else RawSubject c.
Definition leaf_usages : list ExtKeyUsage := [ExtKeyUsageClientAuth; ExtKeyUsageServerAuth].

Definition fields (t parent : Certificate) (k signer : string) : list string :=
  [FormatInt (SerialNumber t); SubjectCommonName t; FormatInt (NotBefore t / ns_per_sec);
   FormatInt (NotAfter t / ns_per_sec); FormatInt (KeyUsage t); flag (IsCA t);
   flag (MaxPathLenZero t && (MaxPathLen t =? 0)); k; flag (bool_decide (ExtKeyUsages t = leaf_usages));
   str_join "" (URLString <$> URIs t); subject_of t; subject_of parent; signer].

Definition of_fields (der : string) (l : list string) : result Certificate :=
  match l with
  | [n; cn; nb; na; usage; ca; plz; k; ext; uri; sub; iss; _] =>
      reject str_empty sub with ErrNew "toy";;
      n <-r ParseInt n;; nb <-r ParseInt nb;; na <-r ParseInt na;; usage <-r ParseInt usage;;
      uris <-r (if str_empty uri then Ok [] else u <-r toy_url uri;; Ok [u]);;
      Ok (mkCertificate n cn (nb * ns_per_sec) (na * ns_per_sec) usage
            (if bool_decide (ext = "1") then leaf_usages else []) true (bool_decide (ca = "1")) 0
            (bool_decide (plz = "1")) [] [] uris [] (Some (mkPublicKey Ed25519 k)) der sub iss)
  | _ => Err (ErrNew "toy")
  end.

(** A template the toy encodes. *)
Definition encodable_uris (l : list URL) : bool :=
  match l with
  | [] => true
  | [u] => negb (str_empty (URLString u)) && is_ok (toy_url (URLString u))
  | _ => false
  end.
Definition encodable (t : Certificate) (p : PublicKey) : bool :=
  bool_decide (algo p = Ed25519 ∧ (ExtKeyUsages t = [] ∨ ExtKeyUsages t = leaf_usages) ∧ DNSNames t = [] ∧
    IPAddresses t = []) &&
  encodable_uris (URIs t) &&
  forallb (λ n, (- 2^63 <=? n) && (n <? 2^63))
    [SerialNumber t; NotBefore t / ns_per_sec; NotAfter t / ns_per_sec; KeyUsage t] &&
  negb (str_empty (subject_of t)).

(** The key a certificate was signed with. *)
Definition signed_with (c : Certificate) : string :=
  match unframe 13 (Raw c) with Some l => default "" (last l) | None => "" end.

#[local] Instance x509 : X509Lib := {|
  url_parse := toy_url;
  CreateCertificate _ t parent p s :=
    if encodable t p then Ok (frames (fields t parent (key_bytes p) (key_bytes (Public s)))) else Err (ErrNew "toy");
  ParseCertificate d := match unframe 13 d with Some l => of_fields d l | None => Err (ErrNew "toy") end;
  CheckSignatureFrom c p := IsCA p && Z.testbit (KeyUsage p) 5 &&
    bool_decide (Some (signed_with c) = key_bytes <$> CertPublicKey p);
|}.

Lemma parse_format n : (- 2^63 <=? n) && (n <? 2^63) = true → ParseInt (FormatInt n) = Ok n.
Proof.
  intros [H1%Z.leb_le H2%Z.ltb_lt]%andb_true_iff. unfold ParseInt. rewrite ParseInt_FormatInt; [done|].
  unfold int64_ok. lia.
Qed.

Lemma Ok_inj {A} (a b : A) : Ok a = Ok b → a = b.
Proof. by intros [= ->]. Qed.

Lemma flag_true b : bool_decide (flag b = "1") = b.
Proof. by destruct b. Qed.

Lemma toy_url_text s u : toy_url s = Ok u → URLString u = s.
Proof. unfold toy_url. destruct (CutPrefix _ s); [|done]. by intros [= <-]. Qed.

Lemma parse_uris l :
  encodable_uris l = true →
  ∃ us, (if str_empty (str_join "" (URLString <$> l)) then Ok []
         else u <-r toy_url (str_join "" (URLString <$> l));; Ok [u]) = Ok us ∧ URLString <$> us = URLString <$> l.
Proof.
  destruct l as [|u [|]]; [by exists []| |done]. simpl. intros [Hn Hu]%andb_true_iff. apply negb_true_iff in Hn.
  rewrite ?str_app_nil_r, Hn. destruct (toy_url (URLString u)) as [v|] eqn:Ev; [|done]. exists [v]. split; [done|].
  simpl. by rewrite (toy_url_text _ _ Ev).
Qed.

(** What comes back for a template. *)
Lemma created_parsed rnd t parent p s der c :
  CreateCertificate rnd t parent p s = Ok der → ParseCertificate der = Ok c →
  encodable t p = true ∧ unframe 13 der = Some (fields t parent (key_bytes p) (key_bytes (Public s))) ∧
  of_fields der (fields t parent (key_bytes p) (key_bytes (Public s))) = Ok c.
Proof.
  cbn -[frames fields unframe encodable of_fields]. destruct (encodable t p) eqn:E; [|done]. intros <-%Ok_inj.
  pose proof (unframe_frames (fields t parent (key_bytes p) (key_bytes (Public s)))) as Eu.
  change (length _) with 13%nat in Eu. rewrite Eu. done.
Qed.

Lemma x509_laws : X509Laws.
Proof.
  split. intros rnd t parent p s der c Hd Hc. destruct (created_parsed _ _ _ _ _ _ _ Hd Hc) as (E & _ & Ef).
  apply andb_true_iff in E as [E Es%negb_true_iff]. apply andb_true_iff in E as [E E2].
  apply andb_true_iff in E as [E1%bool_decide_eq_true Eu]. destruct E1 as (Hp & Hx & Hdn & Hi).
  simpl in E2. rewrite !andb_true_iff in E2. destruct E2 as (N1 & N2 & N3 & N4 & _).
  destruct (parse_uris _ Eu) as (us & Hus & Hut).
  revert Ef. unfold of_fields, fields, guard_err. rewrite Es. rewrite !parse_format by (apply andb_true_iff; done).
  cbn -[flag str_join leaf_usages toy_url subject_of]. rewrite Hus.
  cbn -[flag leaf_usages subject_of]. intros [= <-]. cbn -[flag leaf_usages]. rewrite !flag_true, Hdn, Hi.
  assert ((if bool_decide (flag (bool_decide (ExtKeyUsages t = leaf_usages)) = "1") then leaf_usages else []) = ExtKeyUsages t) as Hext.
  { rewrite flag_true. by destruct Hx as [-> | ->]. }
  rewrite flag_true in Hext. split_and!; try done. destruct p as [a k]. simpl in *. by subst a.
Qed.

Lemma pem_laws : PemLaws.
Proof.
  split.
  - intros ty b rest. cbn -[String.append]. rewrite str_app_assoc, unesc_esc. cbn -[String.append].
    by rewrite unesc_esc.
  - intros der c. cbn -[unframe of_fields]. destruct (unframe 13 der) as [l|]; [|done]. unfold of_fields.
    do 13 (destruct l as [|? l]; [done|]). destruct l; [|done].
    intros [_ (n & _ & E)%rbind_Ok]%guard_err_Ok. repeat (apply rbind_Ok in E as (? & _ & E)). by injection E as <-.
Qed.

(** ** Hosts

    Forty random bytes for every use, the [n]-th with [n] in the sixteenth. *)
Fixpoint zeros (n : nat) : string := match n with O => "" | S n => String "000" (zeros n) end.
Definition bytes_for (n : nat) : string := zeros 15 +:+ String (ascii_of_nat n) (zeros 24).
Definition toy_host (d : gmap string file) : host :=
  mkHost (mkFs d [] [] []) (bytes_for <$> seq 1 20) (repeat (1000 * second) 20) "".
