(* ===== verification/InitEnv.v ===== *)
(** * InitEnv: the first bring-up of an environment

    Models [cmd/certd/ca_init_env.go]: [certd ca init-env], which makes the SSH CA
    key, the root, the seal key, the sealed intermediate, and the certificates a
    manifest lists, reusing what exists.  [filepath.Join] is defined; the YAML
    decoder and the [ssh] package are parameters. *)

From S2P Require Import Prelude GoText GoDuration Base64 Signer X509Engine Files Custody CaTool ToyCA.

(** ** [path/filepath] on Unix *)

Definition clean_step (rooted : bool) (stack : list string) (c : string) : list string :=
  if str_empty c || bool_decide (c = ".") then stack else
  if bool_decide (c = "..") then
    match stack with
    | top :: rest => if bool_decide (top = "..") then ".." :: stack else rest
    | [] => if rooted then [] else [".."]
    end
  else c :: stack.

(** [filepath.Clean] *)
Definition Clean (p : string) : string :=
  if str_empty p then "." else
  let rooted := String.prefix "/" p in
  let comps := rev (fold_left (clean_step rooted) (split_byte "/"%char p) []) in
  if rooted then "/" +:+ str_join "/" comps
  else if bool_decide (comps = []) then "." else str_join "/" comps.

(** [filepath.Join(a, b)] *)
Definition Join (a b : string) : string :=
  if str_empty a then (if str_empty b then "" else Clean b) else
  Clean (if str_empty b then a else a +:+ "/" +:+ b).

Definition initEnvPath (outDir p : string) : string :=
  if str_empty p || String.prefix "/" p then p else Join outDir p.

Definition initEnvKeyRef (outDir ref : string) : string :=
  match CutPrefix "file:" ref with
  | None => ref
  | Some path => "file:" +:+ initEnvPath outDir path
  end.

Definition initEnvLeafPaths (outDir name cert key : string) : string * string :=
  let cert := if str_empty cert then name +:+ ".crt" else cert in
  let key := if str_empty key then name +:+ ".key" else key in
  (initEnvPath outDir cert, initEnvPath outDir key).

Definition defaultString (s def : string) : string := if str_empty s then def else s.

(** ** The manifest *)

Record initEnvSSHCA := mkSSHCA { SSHKey : string; SSHPublicKey : string; SSHComment : string }.
Record initEnvRoot := mkRoot { RootKey : string; RootKeyRef : string; RootCert : string; RootCN : string; RootKeyType : string }.
Record initEnvSeal := mkSeal { SealKey : string; SealKeyRef : string }.
Record initEnvIntermediate := mkIntermediate {
  InterCert : string; InterSealedKey : string; InterCN : string; InterKeyType : string; InterTTL : string }.
Record initEnvServer := mkServerEntry {
  SrvName : string; SrvDNS : list string; SrvIPs : list string; SrvSPIFFEURI : string; SrvCN : string;
  SrvKeyType : string; SrvCert : string; SrvKey : string; SrvTTL : string }.
Record initEnvWorkload := mkWorkloadEntry {
  WlName : string; WlSPIFFEURI : string; WlCN : string; WlKeyType : string; WlCert : string; WlKey : string; WlTTL : string }.
Record initEnvBundle := mkBundleEntry { BundlePath : string; BundleCerts : list string }.

Record initEnvManifest := mkManifest {
  SSHCA : initEnvSSHCA; Root : initEnvRoot; Seal : initEnvSeal; Intermediate : initEnvIntermediate;
  Servers : list initEnvServer; Workloads : list initEnvWorkload; Bundles : list initEnvBundle }.

Record initEnvIssuer := mkIssuer { iss_sig : Signer; iss_cert : Certificate }.

Class InitLib := {
  (** [ssh.NewPublicKey] followed by [ssh.MarshalAuthorizedKey] *)
  authorized_key : PublicKey → result string;
}.

Section InitEnv.
Context `{CryptoLib, X509Lib, PkixLib, KeyLib, KeyParams, AwsKms, Gcm, KeyGen, InitLib}.

Definition initEnvDuration (raw : string) (def : duration) : result duration :=
  if str_empty raw then Ok def else
  d <-r ParseDuration raw;; if d <=? 0 then Err (ErrNew "must be positive") else Ok d.

(** [os.MkdirAll], with no effect on files *)
Definition MkdirAll : M fs unit := syscall (λ _ d, d) (λ d, (Ok tt, d)).
Definition ensureParent (path : string) : M host unit :=
  if str_empty path then mret tt else on_disk (wrap_fs ("create parent for " +:+ path +:+ ": ") MkdirAll).

(** [os.Stat(path)]: is it there, absent, or in error? *)
Definition exists_or (wrap path : string) (there absent : M host unit) : M host unit := λ h,
  match on_disk (Stat path) h with
  | (Ok _, h) => there h
  | (Err e, h) => if err_is e "fs.ErrNotExist" then absent h else (Err (ErrWrap wrap e ""), h)
  end.

Definition certExists (path : string) : M host bool := λ h,
  let '(r, h) := on_disk (Stat path) h in (Ok (is_ok r), h).

(** What the decoder makes of the manifest's bytes, checked. *)
Definition readInitEnvManifest (path : string) (opened : result unit) (decoded : result initEnvManifest)
    : result initEnvManifest :=
  _ <-r rwrap ("open manifest " +:+ path +:+ ": ") opened;;
  m <-r rwrap ("decode manifest " +:+ path +:+ ": ") decoded;;
  reject str_empty (RootCert (Root m)) with ErrNew "manifest root.cert is required";;
  reject str_empty (InterCert (Intermediate m)) || str_empty (InterSealedKey (Intermediate m))
    with ErrNew "manifest intermediate.cert and intermediate.sealed_key are required";;
  Ok m.

(** ** The SSH CA key *)

Definition ssh_signer (keyPath : string) : M host Signer := λ h,
  match on_disk (Stat keyPath) h with
  | (Ok _, h) =>
      (on_disk (λ d, let '(b, d) := ReadFile keyPath d in
        (rwrap ("load ssh_ca.key " +:+ keyPath +:+ ": ") (LoadEd25519FromPEMFile keyPath b), d))) h
  | (Err e, h) =>
      if err_is e "fs.ErrNotExist" then
        (k <-m (λ h, let '(r, h) := generateLeafKey "ed25519" h in (rwrap "generate ssh ca key: " r, h));;
         ensureParent keyPath;;;
         writeKeyPEM keyPath k.2 true;;;
         lift (LoadFromPKCS8PEM k.2 "generated ssh ca")) h
      else (Err (ErrWrap ("stat ssh_ca.key " +:+ keyPath +:+ ": ") e ""), h)
  end.

Definition public_line (sig : Signer) (comment : string) : result string :=
  pub <-r rwrap "ssh ca public key: " (authorized_key (Public sig));;
  Ok (trim_right newline pub +:+ " " +:+ defaultString comment "certd-user-ca" +:+ nl).

Definition ensureSSHCA (cfg : initEnvSSHCA) (outDir : string) : M host unit :=
  if str_empty (SSHKey cfg) && str_empty (SSHPublicKey cfg) then mret tt else
  if str_empty (SSHKey cfg) || str_empty (SSHPublicKey cfg)
  then mfail (ErrNew "manifest ssh_ca.key and ssh_ca.public_key must be set together") else
  let keyPath := initEnvPath outDir (SSHKey cfg) in
  let pubPath := initEnvPath outDir (SSHPublicKey cfg) in
  sig <-m ssh_signer keyPath;;
  line <-m lift (public_line sig (SSHComment cfg));;
  ensureParent pubPath;;;
  writePEMBytes pubPath line true.

(** ** The root *)

Definition initEnvRootKeyRef (cfg : initEnvRoot) (outDir : string) : result string :=
  if negb (str_empty (RootKeyRef cfg)) then Ok (initEnvKeyRef outDir (RootKeyRef cfg)) else
  if str_empty (RootKey cfg) then Err (ErrNew "manifest root.key or root.key_ref is required") else
  Ok ("file:" +:+ initEnvPath outDir (RootKey cfg)).

Definition ensureFileSignerKey (keyRef keyType name : string) : M host unit :=
  match CutPrefix "file:" keyRef with
  | None => mret tt
  | Some path =>
      if negb (bool_decide (keyType = "ed25519"))
      then mfail (ErrNew (name +:+ " file keys must be ed25519 because resolveCASigner loads file: refs as PKCS#8 Ed25519 (got " +:+ fmt_q keyType +:+ ")")) else
      exists_or ("stat " +:+ name +:+ " key " +:+ path +:+ ": ") path (mret tt)
        (k <-m (λ h, let '(r, h) := generateLeafKey keyType h in (rwrap ("generate " +:+ name +:+ " key: ") r, h));;
         ensureParent path;;;
         writeKeyPEM path k.2 false)
  end.

Definition mint_root (sig : Signer) (cn certPath : string) : M host initEnvIssuer :=
  cert <-m mint "mint root cert: " NewSelfSignedRootCA sig (defaultString cn "tokyo3-ca root");;
  ensureParent certPath;;;
  writeCertPEM certPath cert false;;;
  mret (mkIssuer sig cert).

Definition ensureInitEnvRoot (cfg : initEnvRoot) (outDir : string) : M host initEnvIssuer :=
  keyRef <-m lift (initEnvRootKeyRef cfg outDir);;
  ensureFileSignerKey keyRef (defaultString (RootKeyType cfg) "ed25519") "root";;;
  sig <-m resolveCASigner keyRef;;
  let certPath := initEnvPath outDir (RootCert cfg) in
  λ h, match loadIssuerCert certPath h with
       | (Ok cert, h) =>
           if negb (publicKeysEqual (CertPublicKey cert) (Public sig))
           then (Err (ErrNew ("root cert " +:+ certPath +:+ " public key does not match root key")), h)
           else (Ok (mkIssuer sig cert), h)
       | (Err e, h) => if err_is e "fs.ErrNotExist" then mint_root sig (RootCN cfg) certPath h else (Err e, h)
       end.

(** ** The seal key *)

Definition seal_ref (cfg : initEnvSeal) (outDir : string) : result string :=
  let keyRef := if str_empty (SealKeyRef cfg) && negb (str_empty (SealKey cfg))
                then "file:" +:+ initEnvPath outDir (SealKey cfg) else SealKeyRef cfg in
  if str_empty keyRef then Err (ErrNew "manifest seal.key or seal.key_ref is required")
  else Ok (initEnvKeyRef outDir keyRef).

Definition ensureInitEnvSeal (cfg : initEnvSeal) (outDir : string) : M host string :=
  keyRef <-m lift (seal_ref cfg outDir);;
  match CutPrefix "file:" keyRef with
  | None => mret keyRef
  | Some path =>
      exists_or ("stat seal key " +:+ path +:+ ": ") path (mret tt)
        (key <-m read_random 32;;
         ensureParent path;;;
         on_disk (wrap_fs ("write seal key " +:+ path +:+ ": ") (WriteFile path key (octal 6 0 0));;;
                  wrap_fs ("chmod seal key " +:+ path +:+ ": ") (Chmod path (octal 6 0 0))));;;
      mret keyRef
  end.

(** ** The intermediate *)

Definition loadSealedIntermediate (certPath sealedPath sealKeyRef : string) : M host (Certificate * Signer) :=
  cert <-m loadIssuerCert certPath;;
  raw <-m on_disk (wrap_fs ("read sealed intermediate " +:+ sealedPath +:+ ": ") (ReadFile sealedPath));;
  sealed <-m lift (rwrap ("decode sealed intermediate " +:+ sealedPath +:+ ": ") (DecodeString (TrimSpace raw)));;
  s <-m resolveSealer sealKeyRef;;
  keyPEM <-m lift (rwrap "unseal intermediate key: " (Decrypt s sealed));;
  sig <-m lift (LoadFromPKCS8PEM keyPEM "unsealed bootstrap intermediate");;
  if negb (publicKeysEqual (CertPublicKey cert) (Public sig))
  then mfail (ErrNew ("intermediate cert " +:+ certPath +:+ " public key does not match sealed key"))
  else mret (cert, sig).

Definition new_intermediate (cfg : initEnvIntermediate) (root : initEnvIssuer)
    (sealKeyRef certPath sealedPath : string) : M host initEnvIssuer :=
  k <-m generateLeafKey (defaultString (InterKeyType cfg) "ed25519");;
  serial <-m random_serial "intermediate ";;
  ttl <-m lift (rwrap "intermediate.ttl: " (initEnvDuration (InterTTL cfg) (90 * 24 * hour)));;
  cert <-m sign_intermediate (iss_sig root) (iss_cert root) k.1
             (defaultString (InterCN cfg) "tokyo3-ca intermediate") serial ttl;;
  s <-m resolveSealer sealKeyRef;;
  sealedB64 <-m seal_key s k.2;;
  ensureParent certPath;;;
  ensureParent sealedPath;;;
  writeCertPEM certPath cert false;;;
  writeKeyPEM sealedPath sealedB64 false;;;
  sig <-m lift (LoadFromPKCS8PEM k.2 "generated bootstrap intermediate");;
  mret (mkIssuer sig cert).

(** [certExists(certPath) && certExists(sealedPath)] *)
Definition both_exist (p q : string) : M host bool :=
  b <-m certExists p;; if b then certExists q else mret false.

Definition ensureInitEnvIntermediate (cfg : initEnvIntermediate) (outDir : string) (root : initEnvIssuer)
    (sealKeyRef : string) : M host initEnvIssuer :=
  let certPath := initEnvPath outDir (InterCert cfg) in
  let sealedPath := initEnvPath outDir (InterSealedKey cfg) in
  there <-m both_exist certPath sealedPath;;
  if there then
    cs <-m loadSealedIntermediate certPath sealedPath sealKeyRef;; mret (mkIssuer cs.2 cs.1)
  else new_intermediate cfg root sealKeyRef certPath sealedPath.

(** ** Leaves and bundles *)

Definition writeInitEnvLeaf (issuer : initEnvIssuer) (cert : Certificate) (pub : PublicKey) (keyPEM : string)
    (certOut keyOut : string) (force : bool) : M host unit :=
  ensureParent certOut;;;
  ensureParent keyOut;;;
  writeLeafOutputs (mkLeafContext (iss_sig issuer) (iss_cert issuer) pub keyPEM (SerialNumber cert) (NotBefore cert))
    cert certOut keyOut "" force.

(** Key, serial and lifetime of an entry. *)
Definition leaf_inputs (who keyType ttl : string) : M host (PublicKey * string * Z * duration) :=
  k <-m (λ h, let '(r, h) := generateLeafKey (defaultString keyType "ed25519") h in (rwrap (who +:+ " key: ") r, h));;
  serial <-m random_serial (who +:+ " ");;
  ttl <-m lift (rwrap (who +:+ " ttl: ") (initEnvDuration ttl (720 * hour)));;
  mret (k.1, k.2, serial, ttl).

Definition issueInitEnvServer (cfg : initEnvServer) (outDir : string) (issuer : initEnvIssuer) (force : bool)
    : M host unit :=
  if str_empty (SrvName cfg) then mfail (ErrNew "server entry missing name") else
  if bool_decide (SrvDNS cfg = []) && bool_decide (SrvIPs cfg = [])
  then mfail (ErrNew ("server " +:+ fmt_q (SrvName cfg) +:+ " needs at least one dns or ip")) else
  let '(certOut, keyOut) := initEnvLeafPaths outDir (SrvName cfg) (SrvCert cfg) (SrvKey cfg) in
  let who := "server " +:+ SrvName cfg in
  l <-m leaf_inputs who (SrvKeyType cfg) (SrvTTL cfg);;
  let '(pub, keyPEM, serial, ttl) := l in
  ips <-m lift (parse_ips (λ s, ErrNew (who +:+ " invalid ip " +:+ fmt_q s)) (SrvIPs cfg));;
  t <-m now;;
  r <-m draw;;
  cert <-m lift (rwrap (who +:+ " cert: ") (SignServerCert r (iss_sig issuer) (Some (iss_cert issuer))
    (ServerCertParams.mk (Some pub) (SrvDNS cfg) ips (SrvSPIFFEURI cfg) (SrvCN cfg) t (time_add t ttl) (Some serial))));;
  writeInitEnvLeaf issuer cert pub keyPEM certOut keyOut force.

Definition issueInitEnvWorkload (cfg : initEnvWorkload) (outDir : string) (issuer : initEnvIssuer) (force : bool)
    : M host unit :=
  if str_empty (WlName cfg) then mfail (ErrNew "workload entry missing name") else
  if str_empty (WlSPIFFEURI cfg) then mfail (ErrNew ("workload " +:+ fmt_q (WlName cfg) +:+ " needs spiffe_uri")) else
  let '(certOut, keyOut) := initEnvLeafPaths outDir (WlName cfg) (WlCert cfg) (WlKey cfg) in
  let who := "workload " +:+ WlName cfg in
  l <-m leaf_inputs who (WlKeyType cfg) (WlTTL cfg);;
  let '(pub, keyPEM, serial, ttl) := l in
  t <-m now;;
  r <-m draw;;
  cert <-m lift (rwrap (who +:+ " cert: ") (SignWorkloadCert r (iss_sig issuer) (Some (iss_cert issuer))
    (WorkloadCertParams.mk (Some pub) (WlSPIFFEURI cfg) (WlCN cfg) [] t (time_add t ttl) (Some serial))));;
  writeInitEnvLeaf issuer cert pub keyPEM certOut keyOut force.

Definition writeInitEnvBundle (cfg : initEnvBundle) (outDir : string) (force : bool) : M host unit :=
  if str_empty (BundlePath cfg) then mfail (ErrNew "bundle path is required") else
  if bool_decide (BundleCerts cfg = [])
  then mfail (ErrNew ("bundle " +:+ BundlePath cfg +:+ " needs at least one cert")) else
  parts <-m read_parts (initEnvPath outDir <$> BundleCerts cfg);;
  let out := initEnvPath outDir (BundlePath cfg) in
  ensureParent out;;;
  writeBundle out parts force.

(** ** The command *)

Fixpoint for_each {A} (f : A → M host unit) (l : list A) : M host unit :=
  match l with [] => mret tt | x :: l => f x;;; for_each f l end.

(** The CA: the root, the seal reference and the intermediate. *)
Definition init_ca (m : initEnvManifest) (outDir : string) : M host initEnvIssuer :=
  root <-m ensureInitEnvRoot (Root m) outDir;;
  sealKeyRef <-m ensureInitEnvSeal (Seal m) outDir;;
  ensureInitEnvIntermediate (Intermediate m) outDir root sealKeyRef.

Definition init_leaves (m : initEnvManifest) (outDir : string) (force : bool) (issuer : initEnvIssuer) : M host unit :=
  for_each (λ s, issueInitEnvServer s outDir issuer force) (Servers m);;;
  for_each (λ w, issueInitEnvWorkload w outDir issuer force) (Workloads m);;;
  for_each (λ b, writeInitEnvBundle b outDir force) (Bundles m).

Definition runCAInitEnv (manifestPath : string) (opened : result unit) (decoded : result initEnvManifest)
    (outDir : string) (force : bool) : M host unit :=
  m <-m lift (readInitEnvManifest manifestPath opened decoded);;
  on_disk (wrap_fs ("create --out-dir " +:+ outDir +:+ ": ") MkdirAll);;;
  ensureSSHCA (SSHCA m) outDir;;;
  issuer <-m init_ca m outDir;;
  init_leaves m outDir force issuer.
End InitEnv.

(** ** What exists is reused

    The files the command may overwrite: the SSH public key, which it derives from
    the key every time, and with [--force] the leaves and bundles. *)
Definition leaf_files (outDir name cert key : string) (force : bool) : gset string :=
  let '(c, k) := initEnvLeafPaths outDir name cert key in forced force c ∪ forced force k.

Definition init_overwrites (m : initEnvManifest) (outDir : string) (force : bool) : gset string :=
  {[initEnvPath outDir (SSHPublicKey (SSHCA m))]} ∪
  ⋃ ((λ s, leaf_files outDir (SrvName s) (SrvCert s) (SrvKey s) force) <$> Servers m) ∪
  ⋃ ((λ w, leaf_files outDir (WlName w) (WlCert w) (WlKey w) force) <$> Workloads m) ∪
  ⋃ ((λ b, forced force (initEnvPath outDir (BundlePath b))) <$> Bundles m).

Section Reuse.
Context `{CryptoLib, X509Lib, PkixLib, KeyLib, KeyParams, AwsKms, Gcm, KeyGen, InitLib}.

Lemma spares_wrap {A} X pre (m : M host A) :
  spares X m → spares X (λ h, let '(r, h) := m h in (rwrap pre r, h)).
Proof. intros Hm h r h' Hh. destruct (m h) as [r1 h1] eqn:E. intros [= _ <-]. by eapply Hm. Qed.

Lemma MkdirAll_spares X : fs_spares X MkdirAll.
Proof. apply syscall_spares; reflexivity. Qed.

Lemma ensureParent_spares X path : spares X (ensureParent path).
Proof.
  unfold ensureParent. destruct (str_empty path); [by apply spares_off|].
  apply spares_disk, wrap_spares, MkdirAll_spares.
Qed.

Lemma stat_branch {A} X path (there : M host A) (absent : M host A) (other : error → error) :
  spares X there → spares ({[path]} ∪ X) absent →
  spares X (λ h, match on_disk (Stat path) h with
                 | (Ok _, h) => there h
                 | (Err e, h) => if err_is e "fs.ErrNotExist" then absent h else (Err (other e), h)
                 end).
Proof.
  intros Ht Ha h r h' Hh. unfold on_disk. destruct (Stat path (disk h)) as [r1 d] eqn:E.
  apply Stat_cases in E as (Hk & Hf & Hr); [|done].
  apply (kept_from_mono ∅ X) in Hk; [|set_solver]. destruct r1 as [[]|e].
  - intros E. eapply kept_from_trans; [exact Hk|]. apply Ht in E; [exact E|apply Hk].
  - destruct (err_is e "fs.ErrNotExist"); [|by intros [= _ <-]]. intros E.
    eapply kept_from_trans; [exact Hk|]. apply Ha in E; [|apply Hk]. simpl in E.
    eapply kept_from_fresh; [exact E|]. rewrite Hf. by apply Hr.
Qed.

Lemma exists_or_spares X w path there absent :
  spares X there → spares ({[path]} ∪ X) absent → spares X (exists_or w path there absent).
Proof. intros Ht Ha. by apply (stat_branch X path there absent (λ e, ErrWrap w e "")). Qed.

Lemma ssh_signer_spares X path : spares X (ssh_signer path).
Proof.
  unfold ssh_signer. apply (stat_branch X path _ _ (λ e, ErrWrap ("stat ssh_ca.key " +:+ path +:+ ": ") e "")).
  - apply spares_disk. intros s r s' Hh. destruct (ReadFile path s) as [b d] eqn:E. intros [= _ <-].
    eapply kept_from_mono; [apply empty_subseteq|]. by eapply ReadFile_spares.
  - apply spares_bind; [apply spares_wrap, spares_off, generateLeafKey_off|]. intros k.
    apply spares_bind; [apply ensureParent_spares|]. intros _.
    apply spares_bind; [|intros _; by apply spares_off].
    eapply spares_mono; [|apply (writeKeyPEM_spares path k.2 true)]. simpl. set_solver.
Qed.

Lemma ensureSSHCA_spares cfg outDir : spares {[initEnvPath outDir (SSHPublicKey cfg)]} (ensureSSHCA cfg outDir).
Proof.
  unfold ensureSSHCA. repeat (case_match; [by apply spares_off|]). cbn zeta.
  apply spares_bind; [apply ssh_signer_spares|]. intros sg.
  apply spares_bind; [by apply spares_off|]. intros line.
  apply spares_bind; [apply ensureParent_spares|]. intros _. apply (writePEMBytes_spares _ _ true).
Qed.

Lemma ensureFileSignerKey_spares X keyRef kt name : spares X (ensureFileSignerKey keyRef kt name).
Proof.
  unfold ensureFileSignerKey. destruct (CutPrefix _ _) as [path|]; [|by apply spares_off].
  case_match; [by apply spares_off|]. apply exists_or_spares; [by apply spares_off|].
  apply spares_bind; [apply spares_wrap, spares_off, generateLeafKey_off|]. intros k.
  apply spares_bind; [apply ensureParent_spares|]. intros _.
  eapply spares_mono; [|apply (writeKeyPEM_spares path k.2 false)]. simpl. set_solver.
Qed.

Lemma ensureInitEnvRoot_spares X cfg outDir : spares X (ensureInitEnvRoot cfg outDir).
Proof.
  unfold ensureInitEnvRoot. apply spares_bind; [by apply spares_off|]. intros keyRef.
  apply spares_bind; [apply ensureFileSignerKey_spares|]. intros _.
  apply spares_bind; [apply resolveCASigner_spares|]. intros sg h r h' Hh. cbn zeta.
  destruct (loadIssuerCert _ h) as [[cert|e] h1] eqn:E;
    apply (spares_bind X _ _ (read_cert_spares X _) (λ c, spares_off X (mret c.2) (λ h, eq_refl))) in E; [|done| |done].
  - case_match; by intros [= _ <-].
  - case_match; [|by intros [= _ <-]]. intros Em. eapply kept_from_trans; [exact E|].
    revert Em. unfold mint_root. apply spares_bind; [apply spares_off, mint_off| |apply E]. intros c.
    apply spares_bind; [apply ensureParent_spares|]. intros _.
    apply spares_bind; [|intros _; by apply spares_off].
    eapply spares_mono; [|apply (writePEMBytes_spares _ _ false)]. simpl. set_solver.
Qed.

Lemma read_random_off n : off_disk (read_random n).
Proof. intros h. unfold read_random, mbind, draw. by destruct (String.length _ <? n)%nat. Qed.

Lemma ensureInitEnvSeal_spares X cfg outDir : spares X (ensureInitEnvSeal cfg outDir).
Proof.
  unfold ensureInitEnvSeal. apply spares_bind; [by apply spares_off|]. intros keyRef.
  destruct (CutPrefix "file:" keyRef) as [path|]; [|by apply spares_off].
  apply spares_bind; [|intros _; by apply spares_off]. apply exists_or_spares; [by apply spares_off|].
  apply spares_bind; [apply spares_off, read_random_off|]. intros key.
  apply spares_bind; [apply ensureParent_spares|]. intros _.
  eapply (spares_mono {[path]}); [set_solver|]. apply spares_disk, fs_spares_bind.
  - apply wrap_spares, WriteFile_spares.
  - intros _. apply wrap_spares, chmod_spares.
Qed.

Lemma certExists_spares X path : spares X (certExists path).
Proof.
  intros h r h' Hh. unfold certExists, on_disk. destruct (Stat path (disk h)) eqn:E. intros [= _ <-].
  by eapply stat_spares.
Qed.

Lemma loadSealedIntermediate_spares X c k r : spares X (loadSealedIntermediate c k r).
Proof.
  unfold loadSealedIntermediate. unfold loadIssuerCert.
  apply spares_bind; [apply spares_bind; [apply read_cert_spares|intros ?; by apply spares_off]|]. intros cert.
  apply spares_bind.
  { eapply spares_mono; [apply empty_subseteq|]. apply spares_disk, wrap_spares, ReadFile_spares. }
  intros raw. apply spares_bind; [by apply spares_off|]. intros sealed.
  apply spares_bind; [apply resolveSealer_spares|]. intros s.
  apply spares_bind; [by apply spares_off|]. intros pem.
  apply spares_bind; [by apply spares_off|]. intros sg. by destruct (negb _); apply spares_off.
Qed.

Lemma new_intermediate_spares X cfg root ref c k : spares X (new_intermediate cfg root ref c k).
Proof.
  unfold new_intermediate. apply spares_bind; [apply spares_off, generateLeafKey_off|]. intros key.
  apply spares_bind; [apply spares_off, random_serial_off|]. intros serial.
  apply spares_bind; [by apply spares_off|]. intros ttl.
  apply spares_bind; [apply spares_off, sign_intermediate_off|]. intros cert.
  apply spares_bind_eq; [apply resolveSealer_spares|]. intros h0 s h1 Es.
  apply spares_bind; [apply spares_off; by eapply seal_key_off|]. intros b64.
  do 2 (apply spares_bind; [apply ensureParent_spares|intros _]).
  apply spares_bind.
  { eapply spares_mono; [|apply (writePEMBytes_spares _ _ false)]. simpl. set_solver. }
  intros _. apply spares_bind.
  { eapply spares_mono; [|apply (writeKeyPEM_spares _ _ false)]. simpl. set_solver. }
  intros _. apply spares_bind; [by apply spares_off|]. intros sg. by apply spares_off.
Qed.

Lemma init_ca_spares X m outDir : spares X (init_ca m outDir).
Proof.
  unfold init_ca. apply spares_bind; [apply ensureInitEnvRoot_spares|]. intros root.
  apply spares_bind; [apply ensureInitEnvSeal_spares|]. intros ref.
  unfold ensureInitEnvIntermediate. cbn zeta. apply spares_bind.
  - unfold both_exist. apply spares_bind; [apply certExists_spares|]. intros [|]; [apply certExists_spares|by apply spares_off].
  - intros [|]; [|apply new_intermediate_spares].
    apply spares_bind; [apply loadSealedIntermediate_spares|]. intros cs. by apply spares_off.
Qed.

Lemma leaf_inputs_off who kt ttl : off_disk (leaf_inputs who kt ttl).
Proof.
  unfold leaf_inputs. apply bind_off.
  - intros h. pose proof (generateLeafKey_off (defaultString kt "ed25519") h) as Ho.
    by destruct (generateLeafKey _ h).
  - intros k. apply bind_off; [apply random_serial_off|]. intros n. by apply bind_off.
Qed.

Lemma writeInitEnvLeaf_spares issuer cert pub pem c k force :
  spares (forced force c ∪ forced force k) (writeInitEnvLeaf issuer cert pub pem c k force).
Proof.
  unfold writeInitEnvLeaf. do 2 (apply spares_bind; [apply ensureParent_spares|intros _]).
  unfold writeLeafOutputs. apply spares_bind; [|intros _; apply spares_bind; [|intros _; by apply spares_off]].
  - eapply spares_mono; [|apply writeKeyPEM_spares]. set_solver.
  - eapply spares_mono; [|apply writePEMBytes_spares]. set_solver.
Qed.

Lemma server_spares s outDir issuer force :
  spares (leaf_files outDir (SrvName s) (SrvCert s) (SrvKey s) force) (issueInitEnvServer s outDir issuer force).
Proof.
  unfold issueInitEnvServer, leaf_files. destruct (initEnvLeafPaths _ _ _ _) as [c k].
  do 2 (case_match; [by apply spares_off|]).
  apply spares_bind; [apply spares_off, leaf_inputs_off|]. intros [[[pub pem] n] ttl].
  do 4 (apply spares_bind; [by apply spares_off|intros ?]). apply writeInitEnvLeaf_spares.
Qed.

Lemma workload_spares w outDir issuer force :
  spares (leaf_files outDir (WlName w) (WlCert w) (WlKey w) force) (issueInitEnvWorkload w outDir issuer force).
Proof.
  unfold issueInitEnvWorkload, leaf_files. destruct (initEnvLeafPaths _ _ _ _) as [c k].
  do 2 (case_match; [by apply spares_off|]).
  apply spares_bind; [apply spares_off, leaf_inputs_off|]. intros [[[pub pem] n] ttl].
  do 3 (apply spares_bind; [by apply spares_off|intros ?]). apply writeInitEnvLeaf_spares.
Qed.

Lemma bundle_spares b outDir force :
  spares (forced force (initEnvPath outDir (BundlePath b))) (writeInitEnvBundle b outDir force).
Proof.
  unfold writeInitEnvBundle. repeat (case_match; [by apply spares_off|]).
  apply spares_bind; [apply read_parts_spares|]. intros parts.
  apply spares_bind; [apply ensureParent_spares|]. intros _. apply writePEMBytes_spares.
Qed.

Lemma for_each_spares {A} (X : A → gset string) (f : A → M host unit) l :
  (∀ x, spares (X x) (f x)) → spares (⋃ (X <$> l)) (for_each f l).
Proof.
  intros Hf. induction l as [|x l IH]; [by apply spares_off|]. simpl.
  apply spares_bind; [eapply spares_mono; [|apply Hf]; set_solver|]. intros _.
  eapply spares_mono; [|exact IH]. set_solver.
Qed.

Lemma init_leaves_spares m outDir force issuer :
  spares (init_overwrites m outDir force) (init_leaves m outDir force issuer).
Proof.
  unfold init_leaves, init_overwrites.
  apply spares_bind; [|intros _; apply spares_bind; [|intros _]];
    (eapply spares_mono; [|apply for_each_spares]); cycle 1; [intros s; apply server_spares| |
      intros w; apply workload_spares| |intros b; apply bundle_spares|..]; set_solver.
Qed.

Lemma init_env_spares path opened decoded outDir force m :
  decoded = Ok m → spares (init_overwrites m outDir force) (runCAInitEnv path opened decoded outDir force).
Proof.
  intros ->. unfold runCAInitEnv. apply spares_bind_eq; [by apply spares_off|]. intros h0 m' h1 E.
  assert (m' = m) as ->.
  { injection E as E _. unfold readInitEnvManifest in E. apply rbind_Ok in E as (? & _ & E).
    apply rbind_Ok in E as (m1 & [= <-] & E). by repeat (apply guard_err_Ok in E as [_ E]); injection E as <-. }
  apply spares_bind; [apply spares_disk, wrap_spares, MkdirAll_spares|]. intros _.
  apply spares_bind; [eapply spares_mono; [|apply ensureSSHCA_spares]; unfold init_overwrites; set_solver|]. intros _.
  apply spares_bind; [apply init_ca_spares|]. intros issuer. apply init_leaves_spares.
Qed.
End Reuse.

(** C28: the offline CA commands do not destroy what exists.  Whatever the flags and
    the manifest, whatever fails on the way and wherever the process stops: no
    command of [certd ca] changes a file that exists, other than its own outputs
    under [--force]; [init-env] in addition rewrites the SSH public key it derives
    from the existing key, and with [--force] only leaves and bundles, so root,
    seal key, intermediate and SSH key are never rotated by a second run. *)
Theorem ca_commands_spare_files `{CryptoLib, X509Lib, PkixLib, KeyLib, KeyParams, AwsKms, Gcm, KeyGen, InitLib}
    (X : gset string) (run : M host unit) h r h' :
  ((∃ c, run = run_command c ∧ X = overwrites c) ∨
   (∃ path opened m outDir force, run = runCAInitEnv path opened (Ok m) outDir force ∧
      X = init_overwrites m outDir force)) →
  honest (disk h) → run h = (r, h') →
  ∃ ds, history (disk h') = history (disk h) ++ ds ∧
    ∀ p f, p ∉ X → files (disk h) !! p = Some f →
      files (disk h') !! p = Some f ∧ Forall (λ d : gmap string file, d !! p = Some f) ds.
Proof.
  intros Hrun Hh E.
  assert (kept_from X (disk h) (disk h')) as [_ (ds & Hd & F & K)].
  { destruct Hrun as [(c & -> & ->)|(path & opened & m & outDir & force & -> & ->)].
    - by eapply command_spares.
    - by eapply init_env_spares. }
  exists ds. split; [done|]. intros p f Hp Hf. split; [by apply K|].
  eapply Forall_impl; [exact F|]. intros d Hk. by apply Hk.
Qed.

(** ** A first bring-up, and a second run with [--force] *)
Module InitEnvExamples.
#[local] Existing Instance crypto.
#[local] Existing Instance pkix.
#[local] Existing Instance keys.
#[local] Existing Instance params.
#[local] Existing Instance keygen.
#[local] Existing Instance no_kms.
#[local] Existing Instance gcm.
#[local] Existing Instance x509.
#[local] Instance init : InitLib := {|
  authorized_key k := Ok ("ssh-ed25519 " +:+ key_bytes k +:+ nl);
|}.

Definition manifest : initEnvManifest := mkManifest
  (mkSSHCA "ssh_ca" "ssh_ca.pub" "") (mkRoot "root.key" "" "root.crt" "" "") (mkSeal "seal.key" "")
  (mkIntermediate "x509/ca.crt" "x509/ca.key.sealed" "" "" "2160h") [] []
  [mkBundleEntry "trust.pem" ["root.crt"; "x509/ca.crt"]].

Definition run (force : bool) : M host unit := runCAInitEnv "init.yaml" (Ok tt) (Ok manifest) "/etc/certd" force.
Definition first : host := (run false (toy_host ∅)).2.

Lemma first_run :
  (run false (toy_host ∅)).1 = Ok tt ∧
  dom (files (disk first)) = list_to_set ((λ n, "/etc/certd/" +:+ n) <$>
    ["ssh_ca"; "ssh_ca.pub"; "root.key"; "root.crt"; "seal.key"; "x509/ca.crt"; "x509/ca.key.sealed"; "trust.pem"]).
Proof. split; [by vm_compute|]. apply (bool_decide_unpack _). by vm_compute. Qed.

(** The second run succeeds too, and the keys are those of the first. *)
Lemma ca_commands_spare_files_witness :
  ∃ f, files (disk first) !! "/etc/certd/x509/ca.key.sealed" = Some f ∧
    files (disk (run true first).2) !! "/etc/certd/x509/ca.key.sealed" = Some f.
Proof.
  destruct (run true first) as [r h'] eqn:E.
  destruct (files (disk first) !! "/etc/certd/x509/ca.key.sealed") as [f|] eqn:Ef; [|by vm_compute in Ef].
  exists f. split; [done|].
  assert (honest (disk first)) as Hh by (split; vm_compute; constructor).
  destruct (ca_commands_spare_files (init_overwrites manifest "/etc/certd" true) (run true) first r h'
    (or_intror (ex_intro _ "init.yaml" (ex_intro _ (Ok tt) (ex_intro _ manifest (ex_intro _ "/etc/certd"
      (ex_intro _ true (conj eq_refl eq_refl))))))) Hh E) as (ds & _ & Hk).
  apply Hk; [|done]. apply (bool_decide_unpack _). by vm_compute.
Defined.

(** The root's files are lost, the intermediate is not: a second run mints another
    root, keeps the intermediate the first root signed, and reports success. *)
Definition lost : host :=
  mkHost (mkFs (delete "/etc/certd/root.key" (delete "/etc/certd/root.crt" (files (disk first)))) [] [] [])
    (entropy first) (clocks first) "".
Definition text_of (h : host) (name : string) : option string := content <$> files (disk h) !! ("/etc/certd/" +:+ name).

Lemma reused_intermediate_unchecked :
  (run true lost).1 = Ok tt ∧
  text_of (run true lost).2 "x509/ca.crt" = text_of first "x509/ca.crt" ∧
  text_of (run true lost).2 "root.crt" ≠ text_of first "root.crt".
Proof. split; [by vm_compute|]. split; [by vm_compute|]. by vm_compute. Qed.
End InitEnvExamples.
