(* ===== verification/Reload.v ===== *)
(** * Reload: the hot-reloaded issuer certificate

    Models [cmd/certd/reload.go].  A reload looks at its file up to three times (a
    [Stat] to see whether it changed, a [Stat] and a read to load it); each look is
    an argument, so the file may change or vanish in between.  The theorem
    [issuer_reload] says what the server signs under whatever is done to the file. *)

From S2P Require Import Prelude Signer X509Engine Custody CaTool ToyCA.

Record pemReloader (T : Type) := mkReloader { modTime : time; val : T }.
Arguments mkReloader {T}.
Arguments modTime {T}.
Arguments val {T}.

(** What [os.Stat] (its modification time) and [os.ReadFile] report. *)
Abbreviation stat_result := (result time) (only parsing).

Section Reloader.
Context {T : Type} (path name : string) (load : string → result T).

(** [reloadLocked], as the value it installs. *)
Definition reloadLocked (st : stat_result) (rd : result string) : result (pemReloader T) :=
  mt <-r rwrap ("stat " +:+ path +:+ ": ") st;;
  data <-r rwrap ("read " +:+ path +:+ ": ") rd;;
  v <-r rwrap (name +:+ " " +:+ path +:+ ": ") (load data);;
  Ok (mkReloader mt v).

Definition newPEMReloader (st : stat_result) (rd : result string) : result (pemReloader T) :=
  reloadLocked st rd.

Definition get (seen st : stat_result) (rd : result string) (r : pemReloader T) : T * pemReloader T :=
  if match seen with Ok mt => mt =? modTime r | Err _ => false end then (val r, r) else
  match reloadLocked st rd with
  | Ok r' => (val r', r')
  | Err _ => (val r, r)
  end.
End Reloader.

Section Issuer.
Context `{CryptoLib, X509Lib}.

Definition issuerLoader (signerPub : PublicKey) (data : string) : result Certificate :=
  match pem_decode data with
  | None => Err (ErrNew "no CERTIFICATE PEM block")
  | Some (ty, der) =>
      reject negb (bool_decide (ty = "CERTIFICATE")) with ErrNew "no CERTIFICATE PEM block";;
      cert <-r ParseCertificate der;;
      reject negb (publicKeysEqual (CertPublicKey cert) signerPub) with
        ErrNew "issuer public key does not match the CA signing key (refusing live swap — restart certd after a signing-key rotation)";;
      Ok cert
  end.

Lemma issuerLoader_Ok pub data c :
  issuerLoader pub data = Ok c →
  publicKeysEqual (CertPublicKey c) pub = true ∧ ∃ der, pem_decode data = Some ("CERTIFICATE", der) ∧ ParseCertificate der = Ok c.
Proof.
  unfold issuerLoader. destruct (pem_decode data) as [[ty der]|]; [|done].
  intros [Ht (cert & Hp & [Hk [= <-]]%guard_err_Ok)%rbind_Ok]%guard_err_Ok.
  apply negb_false_iff in Hk. apply negb_false_iff, bool_decide_eq_true in Ht as ->. split; [done|]. by exists der.
Qed.
End Issuer.

(** ** The file over time

    [hist n]: the file's modification time and content at instant [n], if it is
    there.  A look at instant [n] reports that, or fails. *)
Definition history := nat → option (time * string).

Inductive looks (hist : history) (n : nat) {A : Type} (f : time * string → A) : result A → Prop :=
  | looks_there v : hist n = Some v → looks hist n f (Ok (f v))
  | looks_error e : looks hist n f (Err e).

Lemma looks_Ok hist n {A} (f : time * string → A) a :
  looks hist n f (Ok a) → ∃ v, hist n = Some v ∧ a = f v.
Proof. intros E. inversion E as [v Hv Ef|]. by exists v. Qed.

Section Run.
Context {T : Type} (path name : string) (load : string → result T) (hist : history).

(** Construction and then calls of [get], at later and later instants; the instant
    of the last look and the values returned so far. *)
Inductive reloads : nat → list T → pemReloader T → Prop :=
  | rl_new j k st rd r : (j ≤ k)%nat → looks hist j fst st → looks hist k snd rd →
      newPEMReloader path name load st rd = Ok r → reloads k [] r
  | rl_get i j k n vs r seen st rd v r' : reloads n vs r → (n ≤ i ≤ j)%nat → (j ≤ k)%nat →
      looks hist i fst seen → looks hist j fst st → looks hist k snd rd →
      get path name load seen st rd r = (v, r') → reloads k (v :: vs) r'.

(** The cached value was loaded from the file as it was at some instant, and the
    cached time was its modification time at that instant or before. *)
Definition cached (n : nat) (r : pemReloader T) : Prop :=
  ∃ j k d t data, (j ≤ k ≤ n)%nat ∧ hist j = Some (modTime r, d) ∧ hist k = Some (t, data) ∧ load data = Ok (val r).

Lemma reloadLocked_cached j k st rd r :
  (j ≤ k)%nat → looks hist j fst st → looks hist k snd rd → reloadLocked path name load st rd = Ok r → cached k r.
Proof.
  intros Hjk Hj Hk E. unfold reloadLocked in E.
  apply rbind_Ok in E as (mt & Hst%rwrap_Ok & E). apply rbind_Ok in E as (data & Hrd%rwrap_Ok & E).
  apply rbind_Ok in E as (v & Hv%rwrap_Ok & [= <-]). subst st rd.
  apply looks_Ok in Hj as ([mt' d] & Hj & ->), Hk as ([t data'] & Hk & ->).
  exists j, k, d, t, data'. by split_and!.
Qed.

Lemma cached_later n m r : (n ≤ m)%nat → cached n r → cached m r.
Proof. intros Hnm (j & k & d & t & data & Hjk & ?). exists j, k, d, t, data. split; [lia|done]. Qed.

Lemma reloads_cached n vs r :
  reloads n vs r → cached n r ∧
  ∀ v, v ∈ vs → ∃ k t data, (k ≤ n)%nat ∧ hist k = Some (t, data) ∧ load data = Ok v.
Proof.
  induction 1 as [j k st rd r Hjk Hj Hk E|i j k n vs r seen st rd v r' _ [Hc Hvs] Hij Hjk Hi Hj Hk E].
  - split; [by eapply reloadLocked_cached|]. intros v Hv. by apply elem_of_nil in Hv.
  - assert (v = val r' ∧ cached k r') as [-> Hc'].
    { unfold get in E. assert (cached k r) by (eapply cached_later; [|done]; lia).
      destruct (match seen with Ok mt => mt =? modTime r | Err _ => false end); [by injection E as <- <-|].
      destruct (reloadLocked path name load st rd) as [r1|e] eqn:E1; injection E as <- <-; [|done].
      split; [done|]. by eapply reloadLocked_cached. }
    split; [done|]. intros v [->|Hv]%elem_of_cons.
    + destruct Hc' as (j' & k' & d & t & data & Hjk' & _ & Hh & Hl). exists k', t, data. split; [lia|done].
    + destruct (Hvs v Hv) as (k' & t & data & Hk' & ?). exists k', t, data. split; [lia|done].
Qed.

(** From instant [n0] on the file stays as it is, and its modification time was
    never its modification time before. *)
Definition settled (n0 : nat) (mt : time) (data : string) : Prop :=
  (∀ m, (n0 ≤ m)%nat → hist m = Some (mt, data)) ∧ (∀ m t d, (m < n0)%nat → hist m = Some (t, d) → t ≠ mt).

Lemma get_settled n0 mt data n vs r i j k seen st rd v r' v0 :
  settled n0 mt data → load data = Ok v0 → reloads n vs r → (n ≤ i)%nat → (n0 ≤ i)%nat → (i ≤ j ≤ k)%nat →
  seen = Ok mt → st = Ok mt → rd = Ok data → get path name load seen st rd r = (v, r') → v = v0.
Proof.
  intros [Hs Hf] Hl Hr Hn Hi Hjk -> -> -> E. apply reloads_cached in Hr as [(j' & k' & d & t & data' & Hjk' & Hj & Hk & Hv) _].
  unfold get in E. destruct (Z.eqb_spec mt (modTime r)) as [Em|_].
  - injection E as <- _.
    assert (n0 ≤ j')%nat as Hj'.
    { destruct (le_lt_dec n0 j'); [done|]. by destruct (Hf j' _ _ l Hj). }
    assert (hist k' = Some (mt, data)) as Hk2 by (apply Hs; lia). rewrite Hk2 in Hk. injection Hk as <- <-. congruence.
  - unfold reloadLocked in E. simpl in E. rewrite Hl in E. simpl in E. by injection E as <- _.
Qed.
End Run.

(** C29: the issuer certificate reloads safely.  However the file is rewritten,
    truncated or removed while certd runs, and whichever looks at it fail, every
    certificate certd signs under is one the file held at some time and certifies
    the signing key; and once a certificate for that key stays in place (with a
    modification time the file did not have before), the next look finds it, so a
    refreshed issuer is picked up without a restart and a bad file never takes the
    good one away. *)
Theorem issuer_reload `{CryptoLib, X509Lib} path pub (hist : history) n vs r :
  reloads path "X.509 issuer cert" (issuerLoader pub) hist n vs r →
  (∀ c, c ∈ val r :: vs →
     publicKeysEqual (CertPublicKey c) pub = true ∧
     ∃ k t data der, (k ≤ n)%nat ∧ hist k = Some (t, data) ∧
       pem_decode data = Some ("CERTIFICATE", der) ∧ ParseCertificate der = Ok c) ∧
  (∀ n0 mt data c, settled hist n0 mt data → issuerLoader pub data = Ok c →
     (get path "X.509 issuer cert" (issuerLoader pub) (Ok mt) (Ok mt) (Ok data) r).1 = c).
Proof.
  intros Hr. pose proof (reloads_cached _ _ _ _ _ _ _ Hr) as [Hc Hvs]. split.
  - intros c Hin. assert (∃ k t data, (k ≤ n)%nat ∧ hist k = Some (t, data) ∧ issuerLoader pub data = Ok c)
      as (k & t & data & Hk & Hh & Hl).
    { apply elem_of_cons in Hin as [->|Hin]; [|by apply Hvs].
      destruct Hc as (j & k & d & t & data & Hjk & _ & Hh & Hl). exists k, t, data. split; [lia|done]. }
    apply issuerLoader_Ok in Hl as [Hp (der & Hd & Hparse)]. split; [done|]. by exists k, t, data, der.
  - intros n0 mt data c Hs Hl. destruct (get _ _ _ _ _ _ r) as [v r'] eqn:E. simpl.
    eapply (get_settled path "X.509 issuer cert" (issuerLoader pub) hist n0 mt data n vs r (n `max` n0) (n `max` n0) (n `max` n0)); try done; lia.
Qed.

(** ** A rotation in three bad steps and a good one *)
Module ReloadExamples.
#[local] Existing Instance crypto.
#[local] Existing Instance x509.

Definition ca : Signer := genericInMemory (mkPrivateKey Ed25519 "ca") "ca".
Definition other : Signer := genericInMemory (mkPrivateKey Ed25519 "other") "other".
Definition cert_of (n : nat) (sg : Signer) : Certificate :=
  match NewSelfSignedCA (bytes_for n) 0 0 (Some sg) "ca" with
  | Ok c => c
  | Err _ => mkCertificate 0 "" 0 0 0 [] false false 0 false [] [] [] [] None "" "" ""
  end.

(** The first certificate, then half a file, nothing, a certificate for another key,
    and at last the refreshed certificate. *)
Definition hist : history := λ n,
  match n with
  | 0%nat | 1%nat => Some (100, cert_block (cert_of 1 ca))
  | 2%nat => Some (200, String.substring 0 40 (cert_block (cert_of 2 ca)))
  | 3%nat => None
  | 4%nat => Some (400, cert_block (cert_of 3 other))
  | _ => Some (500, cert_block (cert_of 2 ca))
  end.

Abbreviation loader := (issuerLoader (Public ca)) (only parsing).
Definition r0 : pemReloader Certificate := mkReloader 100 (cert_of 1 ca).

Lemma loaded : reloads "ca.crt" "X.509 issuer cert" loader hist 4 [cert_of 1 ca; cert_of 1 ca; cert_of 1 ca] r0.
Proof.
  assert (∀ n, looks hist n fst (match hist n with Some v => Ok v.1 | None => Err (ErrNew "stat") end)) as Hf
    by (intros n; destruct (hist n) eqn:E; [by apply looks_there|by apply looks_error]).
  assert (∀ n, looks hist n snd (match hist n with Some v => Ok v.2 | None => Err (ErrNew "read") end)) as Hs
    by (intros n; destruct (hist n) eqn:E; [by apply looks_there|by apply looks_error]).
  assert (∀ n m vs, (n ≤ m < 5)%nat → reloads "ca.crt" "X.509 issuer cert" loader hist n vs r0 →
    reloads "ca.crt" "X.509 issuer cert" loader hist m (cert_of 1 ca :: vs) r0) as Hget.
  { intros n m vs [Hnm Hm] Hr. eapply (rl_get _ _ _ _ m m m n); [exact Hr|lia|lia|apply (Hf m)|apply (Hf m)|apply (Hs m)|].
    do 5 (destruct m as [|m]; [by vm_compute|]). lia. }
  apply (Hget 2%nat 4%nat), (Hget 1%nat 2%nat), (Hget 0%nat 1%nat); [lia..|].
  eapply (rl_new _ _ _ _ 0 0); [done|apply (Hf 0%nat)|apply (Hs 0%nat)|by vm_compute].
Qed.

Lemma earlier m : (m < 5)%nat → match hist m with Some v => v.1 ≠ 500 | None => True end.
Proof. intros Hm. do 5 (destruct m as [|m]; [exact I || (cbn [hist fst]; discriminate)|]). lia. Qed.

Lemma issuer_reload_witness :
  (get "ca.crt" "X.509 issuer cert" loader (Ok 500) (Ok 500) (Ok (cert_block (cert_of 2 ca))) r0).1 = cert_of 2 ca ∧
  cert_of 2 ca ≠ cert_of 1 ca.
Proof.
  split; [|by vm_compute].
  apply (proj2 (issuer_reload "ca.crt" (Public ca) hist 4 _ r0 loaded) 5%nat); [|by vm_compute].
  split.
  - intros m Hm. do 5 (destruct m as [|m]; [lia|]). done.
  - intros m t d Hm E. pose proof (earlier m Hm) as Ht. by rewrite E in Ht.
Defined.
End ReloadExamples.
