(* ===== verification/Boot.v ===== *)
(** * Boot: what [certd serve] starts with

    Models the loaders of [cmd/certd/main.go]: the CA signer, the X.509 signer (the
    unsealed intermediate in the two-tier deployment), the issuer certificate and
    its check against the root, the role table and the principal registry, the
    verifiers, and [runServe] up to the server it constructs.  The environment is a
    function; the base library's helpers, the OIDC verifier and the opening of a
    database connection are parameters. *)

From S2P Require Import Prelude GoText Base64 Policy Signer X509Engine Mtls Store Sql SqlStore Reconcile Http Api Files Custody CaTool ToyCA InitEnv Reload.

(** What the base library, [encoding/json] and [crypto/x509] contribute. *)
Class BootLib := {
  (** [envutil.Or], [envutil.First] *)
  env_or : (string → string) → string → string → string;
  env_first : (string → string) → list string → string;
  json_roles : string → result (list Role);
  json_principals : string → result (list principalEntry);
  (** [oidc.NewLazyHTTPVerifier] *)
  NewLazyHTTPVerifier : string → string → result (string → result Claims);
  (** [crypto.ParseKEK] *)
  ParseKEK : string → result string;
  (** [issuer.Verify] against one root, at an instant *)
  Verify : X509Engine.Certificate → X509Engine.Certificate → time → result unit;
}.

(** A role table or principal registry: the database's, or the one in memory. *)
Inductive backend (D Mem : Type) := InDatabase (d : D) | InMemory (m : Mem).
Arguments InDatabase {D Mem}.
Arguments InMemory {D Mem}.

(** The portal's login. *)
Record OIDCConfig := mkOIDCConfig {
  OIssuer : string; OClientID : string; OClientSecret : string; ORedirectURL : string; OAdminGroup : string;
  OVerifier : option (string → result Claims); OSessionKey : string }.
Definition no_oidc : OIDCConfig := mkOIDCConfig "" "" "" "" "" None "".

Section Loaders.
Context `{CryptoLib, X509Lib, PkixLib, KeyLib, KeyParams, AwsKms, Gcm, KeyGen, BootLib}.
Context (getenv : string → string).

(** ** Signers *)

(** [signer.NewEphemeralEd25519] *)
Definition NewEphemeralEd25519 : M host Signer :=
  r <-m draw;;
  priv <-m lift (rwrap "generate ed25519 key: " (GenerateKey Ed25519 r));;
  mret (inMemory priv "in-memory ed25519 (ephemeral)").

Definition loadCASigner : M host Signer :=
  let keyRef := getenv "CERTD_CA_KEY" in
  if str_empty keyRef then NewEphemeralEd25519 else resolveCASigner keyRef.

Definition loadX509Signer (caSigner : Signer) : M host Signer :=
  let sealedPath := getenv "CERTD_CA_SEALED_KEY_FILE" in
  let sealKey := getenv "CERTD_CA_SEAL_KEY" in
  if str_empty sealedPath && str_empty sealKey then mret caSigner else
  if str_empty sealedPath || str_empty sealKey
  then mfail (ErrNew "two-tier X.509 needs both CERTD_CA_SEALED_KEY_FILE and CERTD_CA_SEAL_KEY (one is set, the other is not)") else
  raw <-m on_disk (wrap_fs ("read sealed intermediate key " +:+ sealedPath +:+ ": ") (ReadFile sealedPath));;
  ciphertext <-m lift (rwrap ("sealed intermediate key " +:+ sealedPath +:+ ": not base64: ") (DecodeString (TrimSpace raw)));;
  sl <-m resolveSealer sealKey;;
  keyPEM <-m lift (rwrap "unseal intermediate key: " (Decrypt sl ciphertext));;
  lift (rwrap "load unsealed intermediate key: "
          (LoadFromPKCS8PEM keyPEM ("in-memory intermediate (sealed: " +:+ sealedPath +:+ ")"))).

(** ** The issuer *)

Definition verifyIssuerChainsToRoot (issuer root : X509Engine.Certificate) (at_ : time) : result unit :=
  rwrap "CERTD_CA_X509_CERT_FILE does not chain to CERTD_CA_ROOT_CERT_FILE (or one is expired): "
    (Verify issuer root at_).

(** One look of the reloader at its file; [mt] is the time [Stat] reports for it. *)
Definition look (path : string) (mt : time) : M host (result time * result string) := λ h,
  let '(st, d) := Stat path (disk h) in
  match st with
  | Err e => (Ok (Err e, Err e), mkHost d (entropy h) (clocks h) (stdout h))
  | Ok _ => let '(rd, d) := ReadFile path d in (Ok (Ok mt, rd), mkHost d (entropy h) (clocks h) (stdout h))
  end.

(** The certificate, and the reloader behind it when it comes from a file. *)
Definition loadX509Issuer (x509Signer : Signer) (mt : time) : M host (X509Engine.Certificate * option (pemReloader X509Engine.Certificate)) :=
  let path := getenv "CERTD_CA_X509_CERT_FILE" in
  if negb (str_empty path) then
    o <-m look path mt;;
    rl <-m lift (rwrap "CERTD_CA_X509_CERT_FILE: "
      (newPEMReloader path "X.509 issuer cert" (issuerLoader (Public x509Signer)) o.1 o.2));;
    seen <-m (λ h, let '(st, d) := Stat path (disk h) in
                   (Ok (match st with Ok _ => Ok mt | Err e => Err e end), mkHost d (entropy h) (clocks h) (stdout h)));;
    o <-m (if match seen with Ok t => t =? modTime rl | Err _ => false end then mret (Ok mt, Ok "") else look path mt);;
    let '(cert, rl) := get path "X.509 issuer cert" (issuerLoader (Public x509Signer)) seen o.1 o.2 rl in
    let rootPath := getenv "CERTD_CA_ROOT_CERT_FILE" in
    if str_empty rootPath then mret (cert, Some rl) else
    root <-m (λ h, let '(r, h) := loadIssuerCert rootPath h in (rwrap "CERTD_CA_ROOT_CERT_FILE: " r, h));;
    t <-m now;;
    lift (verifyIssuerChainsToRoot cert root t);;;
    mret (cert, Some rl)
  else
    r <-m draw;; n1 <-m now;; n2 <-m now;;
    cert <-m lift (NewSelfSignedCA r n1 n2 (Some x509Signer) (env_or getenv "CERTD_CA_X509_CERT_CN" "tokyo3-ca"));;
    mret (cert, None).

(** ** Verifiers *)

Definition loadOIDCVerifier : result (option (string → result Claims)) :=
  let issuer := getenv "CERTD_OIDC_ISSUER" in
  let audience := getenv "CERTD_OIDC_AUDIENCE" in
  if str_empty issuer && str_empty audience then Ok None else
  reject str_empty issuer || str_empty audience with
    ErrNew "CERTD_OIDC_ISSUER and CERTD_OIDC_AUDIENCE must both be set or both unset";;
  v <-r NewLazyHTTPVerifier issuer audience;; Ok (Some v).

Definition session_key (keyHex : string) : result string :=
  match ParseKEK keyHex with
  | Ok k => Ok k
  | Err e => Err (ErrWrap "CERTD_PORTAL_SESSION_KEY: " e " (want 64 hex chars / 32 bytes — generate with crypto.GenerateKEK)")
  end.

Definition loadPortalOIDC : result OIDCConfig :=
  let issuer := getenv "CERTD_PORTAL_OIDC_ISSUER" in
  let clientID := getenv "CERTD_PORTAL_OIDC_CLIENT_ID" in
  let secret := getenv "CERTD_PORTAL_OIDC_CLIENT_SECRET" in
  let redirect := getenv "CERTD_PORTAL_OIDC_REDIRECT_URL" in
  let keyHex := getenv "CERTD_PORTAL_SESSION_KEY" in
  let adminGroup := env_or getenv "CERTD_PORTAL_ADMIN_GROUP" "ca-portal-admin" in
  if negb (negb (str_empty issuer) || negb (str_empty clientID) || negb (str_empty secret) || negb (str_empty redirect)) then
    if str_empty keyHex then Ok no_oidc else
    key <-r session_key keyHex;; Ok (mkOIDCConfig "" "" "" "" "" None key)
  else
    reject str_empty issuer || str_empty clientID || str_empty secret || str_empty redirect || str_empty keyHex with
      ErrNew "portal OIDC is partially configured: CERTD_PORTAL_OIDC_ISSUER, _CLIENT_ID, _CLIENT_SECRET, _REDIRECT_URL and CERTD_PORTAL_SESSION_KEY must all be set together";;
    key <-r session_key keyHex;;
    v <-r NewLazyHTTPVerifier issuer clientID;;
    Ok (mkOIDCConfig issuer clientID secret redirect adminGroup (Some v) key).

(** ** The tables *)

(** [openStore]: which backend the URL selects. *)
Definition openStore {D} (open_sqlite : string → result D) (client_tls : result unit) (open_postgres : string → result D)
    : result (option D) :=
  let url := getenv "CERTD_DATABASE_URL" in
  if str_empty url then Ok None else
  match CutPrefix "sqlite:" url with
  | Some path => d <-r open_sqlite path;; Ok (Some d)
  | None => _ <-r rwrap "db client TLS: " client_tls;; d <-r open_postgres url;; Ok (Some d)
  end.

(** The read of a configuration file, by a decoder of [Reconcile]. *)
Definition read_config {A} (read : (string → result string) → string → result A) (path : string) : M host A :=
  on_disk (λ d, let '(b, d) := ReadFile path d in (read (λ _, b) path, d)).

Definition read_roles : string → M host (list Role) :=
  read_config (λ rd path, readRolesFile rd json_roles path).
Definition read_principals : string → M host (list Principal) :=
  read_config (λ rd path, readPrincipalsFile rd json_principals path).

(** The seed and what the loader hands out, for either table: [seed] when a file is
    named, then the database as it is; without a database the file's rows, or
    nothing. *)
Definition load_table {D V Mem} (var what : string) (read : string → M host (list V)) (new : list V → Mem)
    (seed : time → list V → M D bool) (db : option D) : M host (option (backend D Mem)) :=
  let path := getenv var in
  match db with
  | Some d =>
      if str_empty path then mret (Some (InDatabase d)) else
      rows <-m read path;;
      t <-m now;;
      match seed t rows d with
      | (Ok _, d) => mret (Some (InDatabase d))
      | (Err e, _) => mfail (ErrWrap what e "")
      end
  | None =>
      if str_empty path then mret None else
      rows <-m read path;; mret (Some (InMemory (new rows)))
  end.

Definition loadRoleStore {D} (rs : RoleStore D) (db : option D)
    : M host (option (backend D Policy.InMemoryStore.t)) :=
  load_table "CERTD_ROLES_FILE" "seed role store: " read_roles
    (λ rows, Policy.InMemoryStore.NewInMemoryStore rows) (rs_SeedRolesIfEmpty _ rs) db.

Definition loadMTLSStore {D} (ps : PrincipalStore D) (db : option D)
    : M host (option (backend D Mtls.InMemoryStore.t)) :=
  load_table "CERTD_MTLS_PRINCIPALS_FILE" "seed principal store: " read_principals
    (λ rows, Mtls.InMemoryStore.NewInMemoryStore rows) (ps_SeedPrincipalsIfEmpty _ ps) db.

(** ** [runServe] *)

(** The outcomes of the steps in between that the base library takes: the limits of
    [CERTD_RATE_LIMIT_*] and [CERTD_TRUSTED_PROXIES], the audit sink (and whether it
    publishes) and source, the server's TLS configuration; and those that
    [PortalBoot] models: the Basic credentials, the audit tracker and the portal. *)
Record environment (D1 D2 : Type) := mkEnvironment {
  limits : result unit;
  basic_auth : result unit;
  audit_sink : result bool;
  audit_source : result unit;
  server_tls : result unit;
  audit_tracker : result unit;
  portal : OIDCConfig → result unit;
  open_sqlite : string → result (D1 * D2);
  client_tls : result unit;
  open_postgres : string → result (D1 * D2);
  issuer_mtime : time;
  build_version : string;
}.
Arguments limits {D1 D2}.
Arguments basic_auth {D1 D2}.
Arguments audit_sink {D1 D2}.
Arguments audit_source {D1 D2}.
Arguments server_tls {D1 D2}.
Arguments audit_tracker {D1 D2}.
Arguments portal {D1 D2}.
Arguments open_sqlite {D1 D2}.
Arguments client_tls {D1 D2}.
Arguments open_postgres {D1 D2}.
Arguments issuer_mtime {D1 D2}.
Arguments build_version {D1 D2}.

Definition wrap_boot {A} (pre : string) (m : M host A) : M host A := λ h, let '(r, h) := m h in (rwrap pre r, h).

Section Serve.
Context {D1 D2 : Type} (rs : RoleStore D1) (ps : PrincipalStore D2) (env : environment D1 D2).

Abbreviation server := (Server (backend D1 Policy.InMemoryStore.t) (backend D2 Mtls.InMemoryStore.t)) (only parsing).

(** The configuration [runServe] hands to [api.New]. *)
Definition server_config (caSigner x509Signer : Signer)
    (issuer : X509Engine.Certificate * option (pemReloader X509Engine.Certificate))
    (roleStore : option (backend D1 Policy.InMemoryStore.t)) (oidcVerifier : option (string → result Claims))
    (mtlsStore : option (backend D2 Mtls.InMemoryStore.t)) (auditSink persistent : bool)
    : Api.Config.t (backend D1 Policy.InMemoryStore.t) (backend D2 Mtls.InMemoryStore.t) :=
  Api.Config.mk _ _ true (Some caSigner) (Some x509Signer) (Some issuer.1)
    ((λ rl, Some (val rl)) <$> issuer.2)
    (env_first getenv ["CERTD_CA_TRUST_BUNDLE"; "CERTD_CA_ROOT_CERT_FILE"; "CERTD_CA_X509_CERT_FILE"])
    (getenv "CERTD_SSH_CA_KEYS_FILE") roleStore oidcVerifier mtlsStore auditSink true
    persistent (build_version env).

Definition runServe : M host (server * option (pemReloader X509Engine.Certificate)) :=
  _ <-m lift (limits env);;
  _ <-m lift (basic_auth env);;
  caSigner <-m wrap_boot "load CA signer: " loadCASigner;;
  x509Signer <-m wrap_boot "load X.509 signer: " (loadX509Signer caSigner);;
  auditSink <-m lift (rwrap "audit sink: " (audit_sink env));;
  _ <-m lift (rwrap "audit source: " (audit_source env));;
  _ <-m lift (rwrap "server tls: " (server_tls env));;
  oidcVerifier <-m lift (rwrap "oidc verifier: " loadOIDCVerifier);;
  db <-m lift (rwrap "open store database: " (openStore (open_sqlite env) (client_tls env) (open_postgres env)));;
  mtlsStore <-m wrap_boot "mtls store: " (loadMTLSStore ps (snd <$> db));;
  issuer <-m wrap_boot "x509 issuer cert: " (loadX509Issuer x509Signer (issuer_mtime env));;
  roleStore <-m wrap_boot "role store: " (loadRoleStore rs (fst <$> db));;
  _ <-m lift (rwrap "audit tracker: " (audit_tracker env));;
  portalOIDC <-m lift (rwrap "portal oidc: " loadPortalOIDC);;
  _ <-m lift (rwrap "portal: " (portal env portalOIDC));;
  srv <-m lift (rwrap "api server: " (New (server_config caSigner x509Signer issuer roleStore oidcVerifier mtlsStore
    auditSink (bool_decide (is_Some db)))));;
  mret (srv, issuer.2).
End Serve.
End Loaders.

(** ** [active-certs clear] *)

(** [runActiveCertsClear], once the store is open: the record that was deleted, for
    the log. *)
Definition runActiveCertsClear {AS} `{ActiveCertStore AS} (identity : string) : M AS (option ActiveCert) := λ s,
  match Get identity s with
  | (Err e, s) => (Err (ErrWrap "read active-cert record: " e ""), s)
  | (Ok None, s) => (Ok None, s)
  | (Ok (Some existing), s) =>
      match Delete identity s with
      | (Err e, s) => (Err (ErrWrap "delete active-cert record: " e ""), s)
      | (Ok _, s) => (Ok (Some existing), s)
      end
  end.

(** ** A server that boots is consistent *)
Section Consistent.
Context `{CryptoLib, X509Lib, !X509Laws, PkixLib, KeyLib, KeyParams, AwsKms, Gcm, KeyGen, BootLib}.
Context (getenv : string → string).

Lemma wrap_boot_Ok {A} pre (m : M host A) h a h' : wrap_boot pre m h = (Ok a, h') → m h = (Ok a, h').
Proof. unfold wrap_boot. destruct (m h) as [[b|e] h1]; [|done]. by intros [= <- <-]. Qed.

Lemma lift_Ok {A} (r : result A) h a h' : lift r h = (Ok a, h') → r = Ok a ∧ h' = h.
Proof. by intros [= -> ->]. Qed.

Lemma publicKeysEqual_Some k p : publicKeysEqual k p = true → k = Some p.
Proof.
  unfold publicKeysEqual. destruct k as [k|]; [|done]. destruct (algo k); try done;
    by intros ->%bool_decide_eq_true.
Qed.

Lemma get_is_loaded {T} path name (load : string → result T) seen st rd st0 rd0 r v r' :
  newPEMReloader path name load st0 rd0 = Ok r → get path name load seen st rd r = (v, r') →
  v = val r' ∧ ∃ data, load data = Ok v.
Proof.
  assert (∀ st rd r, reloadLocked path name load st rd = Ok r → ∃ data, load data = Ok (val r)) as Hl.
  { intros st1 rd1 r1 E. unfold reloadLocked in E. apply rbind_Ok in E as (mt & _ & E).
    apply rbind_Ok in E as (data & _ & E). apply rbind_Ok in E as (w & Hw%rwrap_Ok & [= <-]). by exists data. }
  intros Hnew E. apply Hl in Hnew. unfold get in E.
  destruct (match seen with Ok mt => mt =? modTime r | Err _ => false end); [by injection E as <- <-|].
  destruct (reloadLocked path name load st rd) as [r1|] eqn:E1; injection E as <- <-; [|done].
  split; [done|]. by eapply Hl.
Qed.

Lemma self_signed_key rnd n1 n2 sg cn c :
  NewSelfSignedCA rnd n1 n2 (Some sg) cn = Ok c → CertPublicKey c = Some (Public sg).
Proof.
  unfold NewSelfSignedCA, selfSignedCA. intros ([n rest] & _ & (der & Hd%rwrap_Ok & Hc%rwrap_Ok)%rbind_Ok)%rbind_Ok.
  by destruct (create_parse _ _ _ _ _ _ _ Hd Hc) as (_&_&_&_&_&_&_&_&_&_&?).
Qed.

Lemma loadX509Issuer_Ok sg mt h c rl h' :
  loadX509Issuer getenv sg mt h = (Ok (c, rl), h') →
  CertPublicKey c = Some (Public sg) ∧
  (∀ r, rl = Some r → val r = c) ∧
  (getenv "CERTD_CA_X509_CERT_FILE" ≠ "" → getenv "CERTD_CA_ROOT_CERT_FILE" ≠ "" →
     ∃ h1 root h2 t, loadIssuerCert (getenv "CERTD_CA_ROOT_CERT_FILE") h1 = (Ok root, h2) ∧
       now h2 = (Ok t, h') ∧ Verify c root t = Ok tt).
Proof.
  unfold loadX509Issuer. destruct (str_empty (getenv "CERTD_CA_X509_CERT_FILE")) eqn:Ep; simpl.
  - apply bool_decide_eq_true in Ep. intros (r & h1 & _ & E)%mbind_Ok_inv.
    apply mbind_Ok_inv in E as (n1 & h2 & _ & E). apply mbind_Ok_inv in E as (n2 & h3 & _ & E).
    apply mbind_Ok_inv in E as (cert & h4 & [Es _]%lift_Ok & [= <- <- <-]).
    split; [by eapply self_signed_key|]. split; [done|]. by rewrite Ep.
  - intros (o & h1 & _ & E)%mbind_Ok_inv. apply mbind_Ok_inv in E as (rl0 & h2 & [Er%rwrap_Ok ->]%lift_Ok & E).
    apply mbind_Ok_inv in E as (seen & h3 & _ & E). apply mbind_Ok_inv in E as (o2 & h4 & _ & E).
    destruct (get _ _ _ _ _ _ rl0) as [cert rl'] eqn:Eg.
    destruct (get_is_loaded _ _ _ _ _ _ _ _ _ _ _ Er Eg) as [Hval [data [Hk _]%issuerLoader_Ok]].
    apply publicKeysEqual_Some in Hk. unfold str_empty in E. case_bool_decide as Hroot.
    { injection E as <- <- <-. split_and!; [done|by intros r [= <-]|done]. }
    apply mbind_Ok_inv in E as (root & h5 & Er2 & E). apply mbind_Ok_inv in E as (t & h6 & Et & E).
    apply mbind_Ok_inv in E as ([] & h7 & [Ev%rwrap_Ok ->]%lift_Ok & [= <- <- <-]).
    split; [done|]. split; [by intros r [= <-]|]. intros _ _. destruct (loadIssuerCert _ h4) as [[root'|] h5'] eqn:El; [|done].
    injection Er2 as <- <-. by exists h4, root', h5', t.
Qed.

(** The key of [sg] is what the sealed key file unseals to, under the seal key. *)
Definition unsealed (sg : Signer) : Prop :=
  ∃ d raw ciphertext h1 sl h2 keyPEM descr,
    (ReadFile (getenv "CERTD_CA_SEALED_KEY_FILE") d).1 = Ok raw ∧ DecodeString (TrimSpace raw) = Ok ciphertext ∧
    resolveSealer (getenv "CERTD_CA_SEAL_KEY") h1 = (Ok sl, h2) ∧
    Decrypt sl ciphertext = Ok keyPEM ∧ LoadFromPKCS8PEM keyPEM descr = Ok sg.

Lemma loadX509Signer_Ok ca h sg h' :
  loadX509Signer getenv ca h = (Ok sg, h') →
  (getenv "CERTD_CA_SEALED_KEY_FILE" = "" ∧ getenv "CERTD_CA_SEAL_KEY" = "" ∧ sg = ca) ∨
  (getenv "CERTD_CA_SEALED_KEY_FILE" ≠ "" ∧ getenv "CERTD_CA_SEAL_KEY" ≠ "" ∧
   unsealed sg).
Proof.
  unfold loadX509Signer, str_empty.
  destruct (bool_decide_reflect (getenv "CERTD_CA_SEALED_KEY_FILE" = "")) as [E1|E1];
    destruct (bool_decide_reflect (getenv "CERTD_CA_SEAL_KEY" = "")) as [E2|E2]; simpl; try done.
  { intros [= <- <-]. by left. }
  intros (raw & h1 & Er & E)%mbind_Ok_inv. apply mbind_Ok_inv in E as (c & h2 & [Eb%rwrap_Ok ->]%lift_Ok & E).
  apply mbind_Ok_inv in E as (sl & h3 & Esl & E). apply mbind_Ok_inv in E as (pem & h4 & [Ed%rwrap_Ok ->]%lift_Ok & E).
  apply lift_Ok in E as [El%rwrap_Ok ->]. right. do 2 (split; [done|]).
  assert ((ReadFile (getenv "CERTD_CA_SEALED_KEY_FILE") (disk h)).1 = Ok raw) as Hr.
  { unfold on_disk, wrap_fs in Er. destruct (ReadFile _ (disk h)) as [[b|e] d]; [|done]. by injection Er as <- _. }
  exists (disk h), raw, c, h1, sl, h3, pem. eauto 10.
Qed.

Lemma load_table_None {D V Mem} var what read (new : list V → Mem) seed (db : option D) h r h' :
  load_table getenv var what read new seed db h = (Ok r, h') → r = None ↔ db = None ∧ getenv var = "".
Proof.
  unfold load_table, str_empty. destruct (bool_decide_reflect (getenv var = "")) as [E|E]; destruct db as [d|].
  - intros [= <- _]. naive_solver.
  - intros [= <- _]. naive_solver.
  - intros (rows & h1 & _ & (t & h2 & _ & Es)%mbind_Ok_inv)%mbind_Ok_inv.
    destruct (seed t rows d) as [[]]; [|done]. injection Es as <- _. naive_solver.
  - intros (rows & h1 & _ & [= <- _])%mbind_Ok_inv. naive_solver.
Qed.

Lemma loadOIDCVerifier_None r :
  loadOIDCVerifier getenv = Ok r → r = None ↔ getenv "CERTD_OIDC_ISSUER" = "" ∧ getenv "CERTD_OIDC_AUDIENCE" = "".
Proof.
  unfold loadOIDCVerifier, str_empty.
  destruct (bool_decide_reflect (getenv "CERTD_OIDC_ISSUER" = "")) as [E1|E1];
    destruct (bool_decide_reflect (getenv "CERTD_OIDC_AUDIENCE" = "")) as [E2|E2]; simpl; try done.
  - by intros [= <-].
  - intros (v & _ & [= <-])%rbind_Ok. naive_solver.
Qed.

Lemma openStore_None {D} (sq : string → result D) tls pg r :
  openStore getenv sq tls pg = Ok r → r = None ↔ getenv "CERTD_DATABASE_URL" = "".
Proof.
  unfold openStore, str_empty. destruct (bool_decide_reflect (getenv "CERTD_DATABASE_URL" = "")) as [E|E].
  - by intros [= <-].
  - destruct (CutPrefix _ _).
    + intros (d & _ & [= <-])%rbind_Ok. naive_solver.
    + intros (u & _ & (d & _ & [= <-])%rbind_Ok)%rbind_Ok. naive_solver.
Qed.

End Consistent.

(** ** A two-tier server over the files of [InitEnvExamples] *)
Module BootExamples.
#[local] Existing Instance crypto.
#[local] Existing Instance pkix.
#[local] Existing Instance keys.
#[local] Existing Instance params.
#[local] Existing Instance keygen.
#[local] Existing Instance no_kms.
#[local] Existing Instance gcm.
#[local] Existing Instance x509.
#[local] Existing Instance x509_laws.

Definition env_or_def (env : string → string) (k d : string) : string := if str_empty (env k) then d else env k.
#[local] Instance boot : BootLib := {|
  env_or := env_or_def;
  env_first env ks := foldr (λ k acc, env_or_def env k acc) "" ks;
  json_roles _ := Ok [];
  json_principals _ := Ok [];
  NewLazyHTTPVerifier _ _ := Ok (λ _, Err (ErrNew "oidc"));
  ParseKEK s := Ok s;
  Verify issuer root t :=
    if negb (CheckSignatureFrom issuer root && bool_decide (RawIssuer issuer = RawSubject root))
    then Err (ErrNew "x509: unknown authority")
    else if forallb (λ c, (NotBefore c <=? t) && (t <=? NotAfter c)) [issuer; root]
    then Ok tt else Err (ErrNew "x509: expired");
|}.

Definition at_ (n : string) : string := "/etc/certd/" +:+ n.
Definition vars : list (string * string) :=
  [("CERTD_CA_KEY", "file:" +:+ at_ "ssh_ca"); ("CERTD_CA_SEALED_KEY_FILE", at_ "x509/ca.key.sealed");
   ("CERTD_CA_SEAL_KEY", "file:" +:+ at_ "seal.key"); ("CERTD_CA_X509_CERT_FILE", at_ "x509/ca.crt");
   ("CERTD_CA_ROOT_CERT_FILE", at_ "root.crt"); ("CERTD_ROLES_FILE", at_ "roles.json")].
Definition getenv (k : string) : string :=
  default "" (snd <$> List.find (λ kv, bool_decide (kv.1 = k)) vars).

Definition env {D1 D2} : environment D1 D2 :=
  mkEnvironment _ _ (Ok tt) (Ok tt) (Ok false) (Ok tt) (Ok tt) (Ok tt) (λ _, Ok tt)
    (λ _, Err (ErrNew "no database")) (Ok tt) (λ _, Err (ErrNew "no database")) 7 "v1".

Definition boot_host (d : gmap string file) : host :=
  toy_host (<[at_ "roles.json" := mkFile "[]" 420 true]> d).
Definition booted := runServe getenv Sqlite.roleStore Sqlite.principalStore env
  (boot_host (files (disk InitEnvExamples.first))).

End BootExamples.
