(* ===== verification/FirstBoot.v ===== *)
(** * FirstBoot: what [init-env] writes, [serve] reads

    [InitEnv] and [Boot] together: the files one command writes are read back by the
    other, through PEM, base64, the seal and PKCS#8.  [init_env_bootable] is the one
    side, [boots] the other; [Chain] adds the root and draws the conclusion
    ([init_env_then_boot]). *)

From S2P Require Import Prelude GoText Base64 Signer X509Engine Files Custody CaTool ToyCA InitEnv Reload Boot.

(** What the readers rely on: a private key survives its encoding, and a generated
    key is of the kind asked for. *)
Class KeyLaws `{CryptoLib, KeyLib, KeyGen} := {
  parse_pkcs8 k der : MarshalPKCS8PrivateKey k = Ok der → ParsePKCS8PrivateKey der = Ok k;
  generated a r k : GenerateKey a r = Ok k → algo (public_of k) = a;
}.

(** ** Files and their contents *)

Definition has (d : gmap string file) (path b : string) : Prop := ∃ f, d !! path = Some f ∧ content f = b.

Lemma kept_has X d d' path b : kept X d d' → path ∉ X → has d path b → has d' path b.
Proof. intros Hk Hp (f & Hf & Hb). exists f. split; [by apply Hk|done]. Qed.

Lemma update_has path g d b : has d path b → (∀ f, content (g f) = content f) → has (update_file path g d) path b.
Proof. intros (f & Hf & Hb) Hg. unfold update_file. rewrite Hf. exists (g f). by rewrite lookup_insert_eq, Hg. Qed.

Lemma WriteFile_Ok path b perm s u s' : WriteFile path b perm s = (Ok u, s') → has (files s') path b.
Proof.
  intros (u1 & s1 & E1 & E)%mbind_Ok_inv. apply syscall_Ok in E1. injection E1 as _ E1.
  destruct (Write path b s1) as [r1 s2] eqn:E2. destruct (Close path s2) as [r2 s3] eqn:E3.
  destruct r1 as [u2|]; [|done]. injection E as -> <-.
  apply syscall_Ok in E2. injection E2 as _ E2. apply syscall_Ok in E3. injection E3 as _ E3.
  rewrite <- E3, <- E2, <- E1. unfold update_file. rewrite lookup_insert_eq. eexists. by rewrite lookup_insert_eq.
Qed.

Lemma wrap_fs_Ok {A} pre (m : M fs A) s a s' : wrap_fs pre m s = (Ok a, s') → m s = (Ok a, s').
Proof. unfold wrap_fs. destruct (m s) as [[b|e] s1]; [|done]. by intros [= <- <-]. Qed.

Lemma on_disk_Ok {A} (m : M fs A) h a h' : on_disk m h = (Ok a, h') → m (disk h) = (Ok a, disk h').
Proof. unfold on_disk. destruct (m (disk h)) as [r d]. by intros [= -> <-]. Qed.

Lemma writePEMBytes_Ok out b force h u h' :
  out ≠ "" → writePEMBytes out b force h = (Ok u, h') → has (files (disk h')) out b.
Proof.
  intros Hne. unfold writePEMBytes, str_empty. rewrite bool_decide_false by done.
  intros (u1 & s1 & _ & E%wrap_fs_Ok)%on_disk_Ok%mbind_Ok_inv. by eapply WriteFile_Ok.
Qed.

Lemma writeKeyPEM_Ok out b force h u h' :
  writeKeyPEM out b force h = (Ok u, h') → out ≠ "" ∧ has (files (disk h')) out b.
Proof.
  unfold writeKeyPEM, str_empty. case_bool_decide as Hne; [done|].
  intros (u1 & s1 & _ & E)%on_disk_Ok%mbind_Ok_inv. split; [done|].
  apply mbind_Ok_inv in E as (u2 & s2 & Ew%wrap_fs_Ok%WriteFile_Ok & Ec%wrap_fs_Ok).
  apply syscall_Ok in Ec. injection Ec as _ <-. by apply update_has.
Qed.

Lemma ReadFile_has path s b s' : ReadFile path s = (Ok b, s') → has (files s) path b.
Proof.
  unfold ReadFile. destruct (read_faults s) as [|[e|] rs]; [| done|];
    (destruct (files s !! path) as [f|] eqn:Ef; [|done]); intros [= <- _]; by exists f.
Qed.

(** A disk that answers, and what reads it without changing it. *)
Definition healthy (s : fs) : Prop := reads_ok s ∧ script s = [].
Definition shows (d : gmap string file) (h : host) : Prop := healthy (disk h) ∧ files (disk h) = d.

Lemma ReadFile_shows d h path b :
  shows d h → has d path b → ∃ h', on_disk (ReadFile path) h = (Ok b, h') ∧ shows d h'.
Proof.
  intros [[Hr Hs] <-] (f & Hf & <-). unfold on_disk, ReadFile. rewrite Hr, Hf. eexists. by split.
Qed.

Lemma Stat_shows d h path b : shows d h → has d path b → ∃ h', on_disk (Stat path) h = (Ok tt, h') ∧ shows d h'.
Proof.
  intros [[Hr Hs] <-] (f & Hf & _). unfold on_disk, Stat, syscall. rewrite Hs, Hf. eexists. by split.
Qed.

(** ** Certificates and keys read back *)
Section ReadBack.
Context `{CryptoLib, X509Lib, !X509Laws, !PemLaws, PkixLib, KeyLib, KeyParams, AwsKms, Gcm, KeyGen, InitLib, BootLib}.

Lemma pem_decode_block ty b : pem_decode (pem_encode ty b) = Some (ty, b).
Proof. rewrite <- (str_app_nil_r (pem_encode ty b)). apply pem_first. Qed.

Lemma parse_cert_block path c der :
  ParseCertificate der = Ok c → parse_cert_file path (cert_block c) = Ok (Raw c, c).
Proof.
  intros Hp. unfold parse_cert_file, cert_block. rewrite pem_decode_block. simpl.
  rewrite (parse_raw _ _ Hp), Hp. done.
Qed.

Lemma read_cert_Ok path h dc h' :
  read_cert path h = (Ok dc, h') → ∃ raw, has (files (disk h)) path raw ∧ parse_cert_file path raw = Ok dc.
Proof.
  intros (raw & h1 & E1%on_disk_Ok%wrap_fs_Ok%ReadFile_has & [E2 _]%lift_Ok)%mbind_Ok_inv. by exists raw.
Qed.

(** What the boot loader makes of a text the command line tools accept. *)
Lemma issuerLoader_parsed path raw der c pub :
  parse_cert_file path raw = Ok (der, c) → publicKeysEqual (CertPublicKey c) pub = true → issuerLoader pub raw = Ok c.
Proof.
  unfold parse_cert_file, issuerLoader. destruct (pem_decode raw) as [[ty der']|]; [|done].
  intros [Ht (c' & Hc%rwrap_Ok & [= <- <-])%rbind_Ok]%guard_err_Ok Hk. rewrite Ht. simpl. rewrite Hc. simpl. by rewrite Hk.
Qed.

(** ** Sealers

    The sealer a reference resolves to, as far as the files decide it. *)
Definition sealer_of (d : gmap string file) (ref : string) (s : sealer) : Prop :=
  opens s ∧ ∃ h h', resolveSealer ref h = (Ok s, h') ∧
    ∀ path b, CutPrefix "file:" ref = Some path → (ReadFile path (disk h)).1 = Ok b → has d path b.

Lemma sealer_kept `{!SealLaws} X d d' ref s :
  kept X d d' → (∀ path, CutPrefix "file:" ref = Some path → path ∉ X) → sealer_of d ref s → sealer_of d' ref s.
Proof.
  intros Hk Hx [Ho (h & h' & E & Hr)]. split; [done|]. exists h, h'. split; [done|].
  intros path b Hp Hb. eapply kept_has; [exact Hk|by apply Hx|by apply Hr].
Qed.

Lemma resolveSealer_of `{!SealLaws} ref h s h' :
  resolveSealer ref h = (Ok s, h') → sealer_of (files (disk h)) ref s.
Proof.
  intros E. split; [by eapply (resolveSealer_stable ref h s h' h)|]. exists h, h'. split; [done|].
  intros path b _ Hb. destruct (ReadFile path (disk h)) as [r s1] eqn:Er. simpl in Hb. subst r.
  by eapply ReadFile_has.
Qed.

Lemma resolveSealer_shows d h ref : shows d h → shows d (resolveSealer ref h).2.
Proof.
  intros Hs. unfold resolveSealer. destruct (str_empty ref); [done|]. destruct (split_scheme ref) as [scheme k].
  destruct (bool_decide (scheme = "file")).
  - unfold file_factory, mbind, on_disk, ReadFile. destruct Hs as [[Hr Hs] Hf]. rewrite Hr.
    destruct (files (disk h) !! k); simpl; [destruct (negb _)|]; by split.
  - unfold aws_factory, mbind, lift. by destruct (rwrap _ _).
Qed.

Lemma sealer_of_resolves `{!SealLaws} d ref s h :
  sealer_of d ref s → shows d h → ∃ h', resolveSealer ref h = (Ok s, h') ∧ shows d h'.
Proof.
  intros [_ (h0 & h0' & E & Hr)] Hs. pose proof (resolveSealer_shows d h ref Hs) as Hs'.
  destruct (resolveSealer_stable ref h0 s h0' h E) as [_ E2].
  { intros path b Hp Hb. destruct (ReadFile_shows d h path b Hs (Hr path b Hp Hb)) as (h' & Er & _).
    unfold on_disk in Er. destruct (ReadFile path (disk h)). by injection Er as -> _. }
  destruct (resolveSealer ref h) as [r h'] eqn:Eh. simpl in *. subst r. by exists h'.
Qed.

(** ** What a server boots from

    The files hold an issuer certificate and, sealed, the key it certifies. *)
Definition bootable (d : gmap string file) (certPath sealedPath ref : string) : Prop :=
  ∃ rawC derC c rawS ct s pem descr sg,
    has d certPath rawC ∧ parse_cert_file certPath rawC = Ok (derC, c) ∧
    has d sealedPath rawS ∧ DecodeString (TrimSpace rawS) = Ok ct ∧
    sealer_of d ref s ∧ Decrypt s ct = Ok pem ∧ LoadFromPKCS8PEM pem descr = Ok sg ∧
    publicKeysEqual (CertPublicKey c) (Public sg) = true.

Lemma bootable_kept `{!SealLaws} X d d' certPath sealedPath ref :
  kept X d d' → certPath ∉ X → sealedPath ∉ X → (∀ path, CutPrefix "file:" ref = Some path → path ∉ X) →
  bootable d certPath sealedPath ref → bootable d' certPath sealedPath ref.
Proof.
  intros Hk Hc Hp Hr (rawC & derC & c & rawS & ct & s & pem & descr & sg & Hfc & Hpc & Hfs & Hd & Hs & Hrest).
  exists rawC, derC, c, rawS, ct, s, pem, descr, sg. split; [by eapply kept_has|]. split; [done|].
  split; [by eapply kept_has|]. split; [done|]. split; [by eapply sealer_kept|done].
Qed.

(** The key decides the signer, whatever it is called. *)
Lemma LoadFromPKCS8PEM_descr pem d1 d2 sg :
  LoadFromPKCS8PEM pem d1 = Ok sg → ∃ sg', LoadFromPKCS8PEM pem d2 = Ok sg' ∧ Public sg' = Public sg.
Proof.
  unfold LoadFromPKCS8PEM. destruct (pem_decode pem) as [[ty b]|]; [|done].
  intros (key & -> & E)%rbind_Ok. simpl. destruct (can_sign key); [|done]. injection E as <-. by eexists.
Qed.

(** What a later step of the set-up leaves alone stays. *)
Lemma spares_step {A B} (m : M host A) (k : A → M host B) h b h' :
  mbind m k h = (Ok b, h') → honest (disk h) → spares ∅ m →
  ∃ a h1, m h = (Ok a, h1) ∧ honest (disk h1) ∧ kept ∅ (files (disk h)) (files (disk h1)) ∧ k a h1 = (Ok b, h').
Proof.
  intros (a & h1 & E1 & E2)%mbind_Ok_inv Hh Hm. destruct (Hm _ _ _ Hh E1) as (Hh1 & ds & _ & _ & Hk). by exists a, h1.
Qed.

Lemma has_later d d' path b : kept ∅ d d' → has d path b → has d' path b.
Proof. intros Hk. apply (kept_has ∅); [done|set_solver]. Qed.

Lemma loadSealedIntermediate_Ok `{!SealLaws} certPath sealedPath ref h r h' :
  honest (disk h) → loadSealedIntermediate certPath sealedPath ref h = (Ok r, h') →
  bootable (files (disk h')) certPath sealedPath ref.
Proof.
  intros Hh. unfold loadSealedIntermediate. intros E.
  apply spares_step in E as (c & h1 & E1 & Hh1 & K1 & E); [|done|apply loadIssuerCert_spares].
  apply mbind_Ok_inv in E1 as ([der c'] & h1' & Er & Eq). injection Eq as <- ->.
  apply read_cert_Ok in Er as (rawC & Hc & Hp).
  apply spares_step in E as (rawS & h2 & Hs%on_disk_Ok%wrap_fs_Ok%ReadFile_has & Hh2 & K2 & E);
    [|done|apply spares_disk, wrap_spares, ReadFile_spares].
  apply mbind_Ok_inv in E as (ct & h3 & [Ed%rwrap_Ok ->]%lift_Ok & E).
  apply spares_step in E as (s & h3 & E3 & Hh3 & K3 & E); [|done|apply resolveSealer_spares].
  apply resolveSealer_of in E3.
  apply mbind_Ok_inv in E as (pem & h4 & [Ep%rwrap_Ok ->]%lift_Ok & E).
  apply mbind_Ok_inv in E as (sg & h4 & [El ->]%lift_Ok & E).
  destruct (publicKeysEqual _ _) eqn:Ek; [|done]. injection E as <- <-.
  exists rawC, der, c', rawS, ct, s, pem, "unsealed bootstrap intermediate", sg.
  split; [by eapply has_later, has_later, has_later|]. split; [done|].
  split; [by eapply has_later, has_later|]. split; [done|]. split; [|done].
  eapply (sealer_kept ∅); [done|set_solver|done].
Qed.

(** ** A fresh intermediate *)

Lemma generateLeafKey_Ok `{!KeyLaws} kt h k h' :
  generateLeafKey kt h = (Ok k, h') →
  (∀ ty, algo k.1 ≠ OtherKey ty) ∧ ∀ descr sg, LoadFromPKCS8PEM k.2 descr = Ok sg → Public sg = k.1.
Proof.
  intros (a & h1 & [Ea _]%lift_Ok & E)%mbind_Ok_inv. apply mbind_Ok_inv in E as (r & h2 & _ & E).
  apply mbind_Ok_inv in E as (priv & h3 & [Eg _]%lift_Ok & E).
  apply mbind_Ok_inv in E as (der & h4 & [Em%rwrap_Ok _]%lift_Ok & E). injection E as <- _. simpl. split.
  - intros ty. rewrite (generated _ _ _ Eg). unfold key_algo in Ea.
    destruct (_ || _); [by injection Ea as <-|]. destruct (bool_decide _); [by injection Ea as <-|done].
  - intros descr sg. unfold LoadFromPKCS8PEM. rewrite pem_decode_block, (parse_pkcs8 _ _ Em). simpl.
    destruct (can_sign priv); [|done]. by intros [= <-].
Qed.

Lemma publicKeysEqual_refl k : (∀ ty, algo k ≠ OtherKey ty) → publicKeysEqual (Some k) k = true.
Proof. intros Hk. unfold publicKeysEqual. destruct (algo k); try (by rewrite bool_decide_true). by destruct (Hk _ eq_refl). Qed.

Lemma sign_intermediate_Ok sg root pub cn n ttl h c h' :
  sign_intermediate sg root pub cn n ttl h = (Ok c, h') →
  CertPublicKey c = Some pub ∧ ∃ der, ParseCertificate der = Ok c.
Proof.
  intros (t & h1 & _ & E)%mbind_Ok_inv. apply mbind_Ok_inv in E as (r & h2 & _ & [Es%rwrap_Ok _]%lift_Ok).
  apply rbind_Ok in Es as ([[root' pub'] serial] & Ev & Es).
  assert (pub' = pub) as ->.
  { unfold validateIntermediate in Ev. apply guard_err_Ok in Ev as [_ [_ Ev]%guard_err_Ok]. simpl in Ev.
    apply rbind_Ok in Ev as (m & _ & Ev). by injection Ev as _ -> _. }
  split; [by apply signTemplate_Ok in Es as (_&_&_&_&_&_&_&_&_&?&_)|]. apply rbind_Ok in Es as (der & _ & Hp%rwrap_Ok). by exists der.
Qed.

Lemma seal_key_Ok s pem h b64 h' :
  opens s → seal_key s pem h = (Ok b64, h') → ∃ ct, DecodeString (TrimSpace b64) = Ok ct ∧ Decrypt s ct = Ok pem.
Proof.
  intros Ho E. unfold seal_key in E. destruct (Encrypt s pem h) as [r h1] eqn:Ee. injection E as E _.
  apply rbind_Ok in E as (ct & ->%rwrap_Ok & [= <-]). exists ct. split; [apply decode_encode|by eapply Ho].
Qed.

Lemma new_intermediate_Ok `{!SealLaws, !KeyLaws} cfg root ref certPath sealedPath h iss h' :
  certPath ≠ "" → honest (disk h) → new_intermediate cfg root ref certPath sealedPath h = (Ok iss, h') →
  bootable (files (disk h')) certPath sealedPath ref.
Proof.
  intros Hne Hh E. unfold new_intermediate in E.
  apply spares_step in E as (k & h1 & Ek & Hh1 & _ & E); [|done|apply spares_off, generateLeafKey_off].
  apply generateLeafKey_Ok in Ek as [Hty Hload].
  apply spares_step in E as (n & h2 & En & Hh2 & _ & E); [|done|apply spares_off, random_serial_off].
  apply mbind_Ok_inv in E as (ttl & h3 & [_ ->]%lift_Ok & E).
  apply spares_step in E as (c & h3 & Ec & Hh3 & _ & E); [|done|apply spares_off, sign_intermediate_off].
  apply sign_intermediate_Ok in Ec as [Hk [der Hp]].
  apply spares_step in E as (s & h4 & Es & Hh4 & K4 & E); [|done|apply resolveSealer_spares].
  apply spares_step in E as (b64 & h5 & Eb & Hh5 & K5 & E); [|done|by eapply spares_off, seal_key_off].
  apply resolveSealer_of in Es. apply seal_key_Ok in Eb as (ct & Hd & Hdec); [|apply Es].
  apply spares_step in E as (u1 & h6 & E6 & Hh6 & K6 & E); [|done|apply ensureParent_spares].
  apply spares_step in E as (u2 & h7 & E7 & Hh7 & K7 & E); [|done|apply ensureParent_spares].
  apply spares_step in E as (u3 & h8 & E8 & Hh8 & K8 & E); [|done|apply (writePEMBytes_spares _ _ false)].
  apply writePEMBytes_Ok in E8; [|done].
  apply spares_step in E as (u4 & h9 & E9 & Hh9 & K9 & E); [|done|apply (writeKeyPEM_spares _ _ false)].
  apply writeKeyPEM_Ok in E9 as [_ E9].
  apply mbind_Ok_inv in E as (sg & h10 & [El ->]%lift_Ok & E). injection E as _ <-.
  exists (cert_block c), (Raw c), c, b64, ct, s, k.2, "generated bootstrap intermediate", sg.
  split; [by eapply has_later|]. split; [by eapply parse_cert_block|]. do 2 (split; [done|]).
  split; [|split_and!; [done|done|]].
  - eapply (sealer_kept ∅); [|set_solver|done].
    transitivity (files (disk h5)); [by transitivity (files (disk h4))|].
    transitivity (files (disk h7)); [by transitivity (files (disk h6))|]. by transitivity (files (disk h8)).
  - rewrite Hk, (Hload _ _ El). by apply publicKeysEqual_refl.
Qed.

(** ** The whole CA *)

Lemma Clean_nonempty p : Clean p ≠ "".
Proof.
  assert (∀ rooted cs st, Forall (λ c, c ≠ "") st → Forall (λ c, c ≠ "") (fold_left (clean_step rooted) cs st)) as Hall.
  { intros rooted. induction cs as [|c cs IH]; [done|]. intros st Hst. apply IH. unfold clean_step, str_empty.
    destruct (bool_decide_reflect (c = "")) as [|Hc]; [done|]. simpl. case_bool_decide; [done|]. case_bool_decide.
    - destruct st as [|top st]; [by destruct rooted; repeat constructor|]. case_bool_decide; [by constructor|].
      by apply Forall_cons in Hst as [_ Hst].
    - by constructor. }
  unfold Clean. destruct (str_empty p); [done|]. destruct (String.prefix "/" p); [done|].
  case_bool_decide as Hne; [done|]. specialize (Hall false (split_byte "/" p) [] (Forall_nil_2 _)).
  apply Forall_rev in Hall. destruct (rev _) as [|c cs]; [done|]. apply Forall_cons in Hall as [Hc _].
  destruct c; [done|]. by destruct cs.
Qed.

Lemma initEnvPath_nonempty outDir p : p ≠ "" → initEnvPath outDir p ≠ "".
Proof.
  intros Hp. unfold initEnvPath, Join, str_empty. rewrite !(bool_decide_false (p = "")) by done. simpl.
  destruct (String.prefix "/" p); [done|]. case_bool_decide; apply Clean_nonempty.
Qed.

Lemma seal_ref_nonempty cfg outDir ref : seal_ref cfg outDir = Ok ref → ref ≠ "".
Proof.
  unfold seal_ref, initEnvKeyRef. set (k := if _ && _ then _ else _). unfold str_empty at 1.
  case_bool_decide; [done|]. intros [= <-]. by destruct (CutPrefix "file:" k).
Qed.

Lemma ensureInitEnvSeal_Ok cfg outDir h ref h' :
  ensureInitEnvSeal cfg outDir h = (Ok ref, h') → seal_ref cfg outDir = Ok ref.
Proof.
  intros (r & h1 & [Er ->]%lift_Ok & E)%mbind_Ok_inv. rewrite Er.
  destruct (CutPrefix _ r); [|by injection E as ->]. apply mbind_Ok_inv in E as (u & h2 & _ & E). by injection E as ->.
Qed.

Lemma init_ca_Ok `{!SealLaws, !KeyLaws} m outDir h iss h' :
  honest (disk h) → InterCert (Intermediate m) ≠ "" → init_ca m outDir h = (Ok iss, h') →
  ∃ ref, seal_ref (Seal m) outDir = Ok ref ∧
    bootable (files (disk h')) (initEnvPath outDir (InterCert (Intermediate m)))
      (initEnvPath outDir (InterSealedKey (Intermediate m))) ref.
Proof.
  intros Hh Hne E. unfold init_ca in E.
  apply spares_step in E as (root & h1 & _ & Hh1 & _ & E); [|done|apply ensureInitEnvRoot_spares].
  apply spares_step in E as (ref & h2 & Es%ensureInitEnvSeal_Ok & Hh2 & _ & E); [|done|apply ensureInitEnvSeal_spares].
  exists ref. split; [done|]. unfold ensureInitEnvIntermediate in E. cbn zeta in E.
  apply spares_step in E as (b & h3 & _ & Hh3 & _ & E); [|done|].
  - destruct b; [|by eapply new_intermediate_Ok; [apply initEnvPath_nonempty| |]].
    apply mbind_Ok_inv in E as (cs & h4 & El & E). injection E as _ <-. by eapply loadSealedIntermediate_Ok.
  - unfold both_exist. apply spares_bind; [apply certExists_spares|].
    intros [|]; [apply certExists_spares|by apply spares_off].
Qed.

(** ** The boot *)

Lemma on_disk_wrap {A} pre (m : M fs A) h :
  on_disk (wrap_fs pre m) h = (rwrap pre (on_disk m h).1, (on_disk m h).2).
Proof. unfold on_disk, wrap_fs. by destruct (m (disk h)). Qed.

Lemma look_shows path mt h h1 b h2 :
  on_disk (Stat path) h = (Ok tt, h1) → on_disk (ReadFile path) h1 = (Ok b, h2) →
  look path mt h = (Ok (Ok mt, Ok b), h2).
Proof.
  unfold look, on_disk. destruct (Stat path (disk h)) as [r d]. intros [= -> <-]. simpl.
  destruct (ReadFile path d) as [r2 d2]. by intros [= -> <-].
Qed.

(** Unsealing leaves the clock alone. *)
Lemma resolveSealer_clocks ref h : clocks (resolveSealer ref h).2 = clocks h.
Proof.
  unfold resolveSealer. destruct (str_empty ref); [done|]. destruct (split_scheme ref) as [scheme k].
  destruct (bool_decide (scheme = "file")).
  - unfold file_factory, mbind, on_disk. destruct (ReadFile k (disk h)) as [[b|e] d]; [|done]. simpl. by destruct (negb _).
  - unfold aws_factory, mbind, lift. by destruct (rwrap _ _).
Qed.

Lemma on_disk_clocks {A} (m : M fs A) h r h' : on_disk m h = (r, h') → clocks h' = clocks h.
Proof. unfold on_disk. destruct (m (disk h)). by intros [= <- <-]. Qed.

(** What [loadX509Issuer] does last, with the certificate at hand. *)
Definition check_root (getenv : string → string) (cert : X509Engine.Certificate)
    (rl : option (pemReloader X509Engine.Certificate)) : M host (X509Engine.Certificate * option (pemReloader X509Engine.Certificate)) :=
  let rootPath := getenv "CERTD_CA_ROOT_CERT_FILE" in
  if str_empty rootPath then mret (cert, rl) else
  root <-m (λ h, let '(r, h) := loadIssuerCert rootPath h in (rwrap "CERTD_CA_ROOT_CERT_FILE: " r, h));;
  t <-m now;;
  lift (verifyIssuerChainsToRoot cert root t);;;
  mret (cert, rl).

Lemma boots `{!SealLaws} getenv d certPath sealedPath ref ca mt h :
  bootable d certPath sealedPath ref → shows d h → certPath ≠ "" → sealedPath ≠ "" → ref ≠ "" →
  getenv "CERTD_CA_SEALED_KEY_FILE" = sealedPath → getenv "CERTD_CA_SEAL_KEY" = ref →
  getenv "CERTD_CA_X509_CERT_FILE" = certPath →
  ∃ sg h1 c rl h2,
    loadX509Signer getenv ca h = (Ok sg, h1) ∧ loadX509Issuer getenv sg mt h1 = check_root getenv c (Some rl) h2 ∧
    CertPublicKey c = Some (Public sg) ∧ shows d h2 ∧ clocks h2 = clocks h ∧
    ∃ raw der, has d certPath raw ∧ parse_cert_file certPath raw = Ok (der, c).
Proof.
  intros (rawC & derC & c & rawS & ct & s & pem & descr & sg & Hfc & Hpc & Hfs & Hd & Hs & Hdec & Hl & Hk)
    Hd0 Hc Hsl Hr Es Er Ec.
  destruct (ReadFile_shows d h sealedPath rawS Hd0 Hfs) as (h1 & E1 & Hd1).
  destruct (sealer_of_resolves d ref s h1 Hs Hd1) as (h2 & E2 & Hd2).
  destruct (LoadFromPKCS8PEM_descr pem descr ("in-memory intermediate (sealed: " +:+ sealedPath +:+ ")") sg Hl) as (sg' & El & Ep).
  destruct (Stat_shows d h2 certPath rawC Hd2 Hfc) as (h3 & E3 & Hd3).
  destruct (ReadFile_shows d h3 certPath rawC Hd3 Hfc) as (h4 & E4 & Hd4).
  destruct (Stat_shows d h4 certPath rawC Hd4 Hfc) as (h5 & E5 & Hd5).
  assert (clocks h5 = clocks h) as Hcl.
  { rewrite (on_disk_clocks _ _ _ _ E5), (on_disk_clocks _ _ _ _ E4), (on_disk_clocks _ _ _ _ E3).
    pose proof (resolveSealer_clocks ref h1) as Hcl. rewrite E2 in Hcl. simpl in Hcl.
    by rewrite Hcl, (on_disk_clocks _ _ _ _ E1). }
  exists sg', h2, c, (mkReloader mt c), h5. split_and!; [| | |done|done|by exists rawC, derC].
  - unfold loadX509Signer, str_empty. rewrite Es, Er, !bool_decide_false by done. simpl.
    unfold mbind, lift. rewrite on_disk_wrap, E1. simpl. rewrite Hd. simpl. rewrite E2. simpl. rewrite Hdec. simpl. by rewrite El.
  - unfold loadX509Issuer. unfold str_empty at 1. rewrite Ec, bool_decide_false by done. simpl.
    unfold mbind at 1. rewrite (look_shows _ _ _ _ _ _ E3 E4). simpl.
    unfold mbind at 1, lift at 1, newPEMReloader, reloadLocked. simpl.
    rewrite (issuerLoader_parsed _ _ _ _ _ Hpc) by (by rewrite Ep). simpl.
    unfold mbind at 1. unfold on_disk in E5. destruct (Stat certPath (disk h4)) as [r5 d5]. injection E5 as -> <-. simpl.
    rewrite Z.eqb_refl. unfold mbind at 1, mret at 1. unfold get. simpl. by rewrite Z.eqb_refl.
  - rewrite Ep. by apply publicKeysEqual_Some.
Qed.

(** The files [serve] needs, as the manifest places them. *)
Definition boot_files (m : initEnvManifest) (outDir : string) : gset string :=
  {[initEnvPath outDir (InterCert (Intermediate m)); initEnvPath outDir (InterSealedKey (Intermediate m))]} ∪
  match seal_ref (Seal m) outDir with
  | Ok ref => match CutPrefix "file:" ref with Some p => {[p]} | None => ∅ end
  | Err _ => ∅
  end.

(** An environment that names them. *)
Record points_at (getenv : string → string) (m : initEnvManifest) (outDir : string) : Prop := {
  at_cert : getenv "CERTD_CA_X509_CERT_FILE" = initEnvPath outDir (InterCert (Intermediate m));
  at_sealed : getenv "CERTD_CA_SEALED_KEY_FILE" = initEnvPath outDir (InterSealedKey (Intermediate m));
  at_seal_key : seal_ref (Seal m) outDir = Ok (getenv "CERTD_CA_SEAL_KEY");
}.

Lemma readInitEnvManifest_Ok path opened m m' :
  readInitEnvManifest path opened (Ok m) = Ok m' →
  m' = m ∧ InterCert (Intermediate m) ≠ "" ∧ InterSealedKey (Intermediate m) ≠ "".
Proof.
  intros (u & _ & (m1 & [= <-] & [_ [Hb [= <-]]%guard_err_Ok]%guard_err_Ok)%rbind_Ok)%rbind_Ok.
  apply orb_false_iff in Hb as [Hb1%bool_decide_eq_false Hb2%bool_decide_eq_false]. done.
Qed.

Lemma init_env_bootable `{!SealLaws, !KeyLaws} path opened m outDir force h h' :
  runCAInitEnv path opened (Ok m) outDir force h = (Ok tt, h') → honest (disk h) →
  boot_files m outDir ## init_overwrites m outDir force →
  InterCert (Intermediate m) ≠ "" ∧ InterSealedKey (Intermediate m) ≠ "" ∧
  ∃ ref, seal_ref (Seal m) outDir = Ok ref ∧
    bootable (files (disk h')) (initEnvPath outDir (InterCert (Intermediate m)))
      (initEnvPath outDir (InterSealedKey (Intermediate m))) ref.
Proof.
  intros E Hh Hd. unfold runCAInitEnv in E.
  apply mbind_Ok_inv in E as (m' & h0 & [(-> & Hc & Hs)%readInitEnvManifest_Ok ->]%lift_Ok & E).
  do 2 (split; [done|]).
  apply spares_step in E as (u1 & h1 & _ & Hh1 & _ & E); [|done|apply spares_disk, wrap_spares, MkdirAll_spares].
  apply mbind_Ok_inv in E as (u2 & h2 & E2 & E). destruct (ensureSSHCA_spares _ _ _ _ _ Hh1 E2) as [Hh2 _].
  apply mbind_Ok_inv in E as (iss & h3 & E3 & E). destruct (init_ca_spares ∅ _ _ _ _ _ Hh2 E3) as [Hh3 _].
  destruct (init_ca_Ok m outDir h2 iss h3 Hh2 Hc E3) as (ref & Er & Hb). exists ref. split; [done|].
  destruct (init_leaves_spares _ _ _ _ _ _ _ Hh3 E) as (_ & ds & _ & _ & K).
  assert (∀ p, p ∈ boot_files m outDir → p ∉ init_overwrites m outDir force) as Hn by (intros p Hp Hq; by apply (Hd p)).
  unfold boot_files in Hn. rewrite Er in Hn.
  eapply bootable_kept; [exact K|apply Hn; set_solver +|apply Hn; set_solver +| |exact Hb].
  intros p Hp. rewrite Hp in Hn. apply Hn. set_solver +.
Qed.
End ReadBack.

Module FirstBootExamples.
Import InitEnvExamples BootExamples.
#[local] Existing Instance crypto.
#[local] Existing Instance pkix.
#[local] Existing Instance keys.
#[local] Existing Instance params.
#[local] Existing Instance keygen.
#[local] Existing Instance no_kms.
#[local] Existing Instance gcm.
#[local] Existing Instance seal_laws.
#[local] Existing Instance x509.
#[local] Existing Instance x509_laws.
#[local] Existing Instance pem_laws.
#[local] Existing Instance init.
#[local] Existing Instance boot.

#[local] Instance key_laws : KeyLaws.
Proof. split; [|by intros a r k [= <-]]. intros [[] b] der; by intros [= <-]. Qed.

Lemma toy_shows d : shows d (toy_host d).
Proof. done. Qed.

Lemma apart : boot_files manifest "/etc/certd" ## init_overwrites manifest "/etc/certd" false.
Proof. apply (bool_decide_eq_true (boot_files _ _ ## _)). vm_compute. reflexivity. Qed.

End FirstBootExamples.
