(* ===== verification/Chain.v ===== *)
(** * Chain: from the first bring-up to a workload's certificate

    [InitEnv], [Boot] and [ApiX509] together: what [init-env] makes, [serve] starts
    with, with or without the root configured ([init_env_then_boot]); what it makes
    on a fresh disk, [serve] signs under, and every certificate the signing endpoint
    returns chains through the intermediate to the root in the file the trust bundle
    is served from ([issued_chain_to_root]).  [issued_under] is one link of the
    chain; [VerifyLaws] what [Verify] does with it. *)

From S2P Require Import Prelude GoText Base64 Policy Signer X509Engine Mtls Store Sql SqlTable SqlStore SqlFacts SqlCorrect Reconcile Http Api ApiX509 Files Custody CaTool ToyCA InitEnv Reload Boot FirstBoot.

(** What [x509] does with names and signatures: a certificate that was created carries
    the subject of its parent as issuer, and [CheckSignatureFrom] accepts it from
    any certificate for the signing key that says it may sign certificates. *)
Class ChainLaws `{X509Lib} := {
  created_issuer rnd tmpl parent pub s der c derp :
    CreateCertificate rnd tmpl parent pub s = Ok der → ParseCertificate der = Ok c →
    ParseCertificate derp = Ok parent → RawIssuer c = RawSubject parent;
  created_self rnd tmpl pub s der c :
    CreateCertificate rnd tmpl tmpl pub s = Ok der → ParseCertificate der = Ok c → RawIssuer c = RawSubject c;
  created_signed rnd tmpl parent pub s der c derp p :
    CreateCertificate rnd tmpl parent pub s = Ok der → ParseCertificate der = Ok c →
    ParseCertificate derp = Ok p → CertPublicKey p = Some (Public s) → IsCA p = true →
    Z.testbit (KeyUsage p) 5 = true → CheckSignatureFrom c p = true;
}.

(** One link: signed with the key of [p], in its name, within its life, and [p] may
    issue. *)
Record issued_under `{X509Lib} (c p : X509Engine.Certificate) : Prop := {
  by_key : CheckSignatureFrom c p = true;
  by_name : RawIssuer c = RawSubject p;
  by_ca : IsCA p = true ∧ Z.testbit (KeyUsage p) 5 = true;
  by_life : NotAfter c ≤ NotAfter p;
}.

(** Made here, from a template of ours. *)
Definition made `{X509Lib} (c : X509Engine.Certificate) : Prop :=
  ∃ rnd tmpl parent pub s der, CreateCertificate rnd tmpl parent pub s = Ok der ∧ ParseCertificate der = Ok c.

Lemma made_parsed `{X509Lib} c : made c → ∃ der, ParseCertificate der = Ok c.
Proof. intros (? & ? & ? & ? & ? & der & _ & Hc). by exists der. Qed.

(** A made certificate under a made anchor. *)
Definition chained `{X509Lib} (c root : X509Engine.Certificate) : Prop :=
  made c ∧ made root ∧ issued_under c root ∧ issued_under root root.

Definition in_validity (c : X509Engine.Certificate) (t : time) : Prop := NotBefore c ≤ t ≤ NotAfter c.

(** [issuer.Verify], for a certificate directly under the root: it finds the root by
    its name, checks the signature and that the root may issue, and the life of
    both; the certificates made here carry no name constraints and no extensions it
    does not know. *)
Class VerifyLaws `{X509Lib, BootLib} := {
  verify_direct c root t : chained c root → in_validity c t → in_validity root t → Verify c root t = Ok tt;
}.

(** Where the manifest puts the two certificates. *)
Abbreviation root_path m outDir := (initEnvPath outDir (RootCert (Root m))) (only parsing).
Abbreviation inter_path m outDir := (initEnvPath outDir (InterCert (Intermediate m))) (only parsing).

(** ** Which files a step may touch *)

Definition same_but (X : gset string) (d d' : gmap string file) : Prop := ∀ p, p ∉ X → d' !! p = d !! p.
Definition touches {A} (X : gset string) (m : M host A) : Prop :=
  ∀ h r h', m h = (r, h') → same_but X (files (disk h)) (files (disk h')).
Definition fs_touches {A} (X : gset string) (m : M fs A) : Prop :=
  ∀ s r s', m s = (r, s') → same_but X (files s) (files s').

#[export] Instance same_but_preorder X : PreOrder (same_but X).
Proof. split; [by intros d p|]. intros d1 d2 d3 H1 H2 p Hp. by rewrite H2, H1. Qed.

Lemma touches_mono {A} X Y (m : M host A) : X ⊆ Y → touches X m → touches Y m.
Proof. intros HXY Hm h r h' E p Hp. eapply Hm; [exact E|]. set_solver. Qed.

Lemma touches_bind {A B} X (m : M host A) (k : A → M host B) :
  touches X m → (∀ a, touches X (k a)) → touches X (mbind m k).
Proof.
  intros Hm Hk h r h'. unfold mbind. destruct (m h) as [[a|e] h1] eqn:E; [|intros [= <- <-]; by eapply Hm].
  intros E2. etransitivity; [by eapply Hm|by eapply Hk].
Qed.

Lemma touches_off {A} X (m : M host A) : off_disk m → touches X m.
Proof. intros Hm h r h' E. pose proof (Hm h) as Hd. rewrite E in Hd. simpl in Hd. by rewrite Hd. Qed.

Lemma touches_disk {A} X (m : M fs A) : fs_touches X m → touches X (on_disk m).
Proof. intros Hm h r h'. unfold on_disk. destruct (m (disk h)) as [r1 d] eqn:E. intros [= <- <-]. by eapply Hm. Qed.

Lemma touches_result {A B} X (m : M host A) (f : result A → result B) :
  touches X m → touches X (λ h, let '(r, h) := m h in (f r, h)).
Proof. intros Hm h r h'. destruct (m h) as [r1 h1] eqn:E. intros [= _ <-]. by eapply Hm. Qed.

Lemma fs_touches_result {A B} X (m : M fs A) (f : result A → result B) :
  fs_touches X m → fs_touches X (λ s, let '(r, s) := m s in (f r, s)).
Proof. intros Hm h r h'. destruct (m h) as [r1 h1] eqn:E. intros [= _ <-]. by eapply Hm. Qed.

Lemma fs_touches_bind {A B} X (m : M fs A) (k : A → M fs B) :
  fs_touches X m → (∀ a, fs_touches X (k a)) → fs_touches X (mbind m k).
Proof.
  intros Hm Hk h r h'. unfold mbind. destruct (m h) as [[a|e] h1] eqn:E; [|intros [= <- <-]; by eapply Hm].
  intros E2. etransitivity; [by eapply Hm|by eapply Hk].
Qed.

Lemma syscall_touches {A} X partial (f : gmap string file → result A * gmap string file) :
  (∀ d, same_but X d (f d).2) → (∀ n d, same_but X d (partial n d)) → fs_touches X (syscall partial f).
Proof.
  intros Hf Hp s r s'. unfold syscall. pose proof (Hf (files s)) as Hd.
  destruct (script s) as [|[|e n] l]; simpl;
    [destruct (f (files s)) as [r1 d]; intros [= <- <-]; exact Hd..|]. intros [= <- <-]. apply Hp.
Qed.

Lemma same_but_insert X path f d : path ∈ X → same_but X d (<[path := f]> d).
Proof. intros Hp p Hx. apply lookup_insert_ne. set_solver. Qed.

Lemma same_but_update path g d : same_but {[path]} d (update_file path g d).
Proof. unfold update_file. destruct (d !! path); [|done]. apply same_but_insert. set_solver. Qed.

Lemma ReadFile_touches X path : fs_touches X (ReadFile path).
Proof. intros s r s'. unfold ReadFile. by destruct (read_faults s) as [|[e|] rs]; intros [= <- <-]. Qed.

Lemma Stat_touches X path : fs_touches X (Stat path).
Proof. apply syscall_touches; reflexivity. Qed.

Lemma chmod_touches path m : fs_touches {[path]} (Chmod path m).
Proof. apply syscall_touches; [|reflexivity]. intros d. apply same_but_update. Qed.

Lemma WriteFile_touches path b perm : fs_touches {[path]} (WriteFile path b perm).
Proof.
  apply fs_touches_bind.
  { apply syscall_touches; [|reflexivity]. intros d. apply same_but_insert. set_solver. }
  intros _ s r s'. destruct (Write path b s) as [r1 s1] eqn:E1. destruct (Close path s1) as [r2 s2] eqn:E2. intros [= _ <-].
  transitivity (files s1).
  - revert E1. apply syscall_touches; intros; apply same_but_update.
  - revert E2. apply syscall_touches; reflexivity.
Qed.

Lemma may_write_touches X path force : fs_touches X (may_write path force).
Proof.
  intros s r s'. unfold may_write. destruct force; [by intros [= _ <-]|].
  destruct (Stat path s) as [[u|e] s1] eqn:E; apply (Stat_touches X) in E; [by intros [= _ <-]|].
  by destruct (err_is _ _); intros [= _ <-].
Qed.

Lemma ensureParent_touches X path : touches X (ensureParent path).
Proof.
  unfold ensureParent. destruct (str_empty path); [by apply touches_off|].
  apply touches_disk, fs_touches_result, syscall_touches; reflexivity.
Qed.

Section Links.
Context `{CryptoLib, X509Lib, !X509Laws, !PemLaws, !ChainLaws, PkixLib, KeyLib, KeyParams, AwsKms, Gcm, KeyGen, InitLib, BootLib}.

Lemma read_cert_touches X path : touches X (read_cert path).
Proof.
  unfold read_cert. apply touches_bind; [|intros; by apply touches_off].
  apply touches_disk, fs_touches_result, ReadFile_touches.
Qed.

Lemma loadIssuerCert_touches X path : touches X (loadIssuerCert path).
Proof. unfold loadIssuerCert. apply touches_bind; [apply read_cert_touches|intros; by apply touches_off]. Qed.

Lemma writePEMBytes_touches out b force : touches {[out]} (writePEMBytes out b force).
Proof.
  unfold writePEMBytes. destruct (str_empty out).
  - intros h r h'. unfold print. destruct (syscall _ _ (disk h)) as [r1 d] eqn:E.
    assert (same_but {[out]} (files (disk h)) (files d)) as Hs by (revert E; apply syscall_touches; reflexivity).
    destruct r1; by intros [= _ <-].
  - apply touches_disk, fs_touches_bind; [apply may_write_touches|intros _].
    apply fs_touches_result, WriteFile_touches.
Qed.

Lemma writeKeyPEM_touches out b force : touches {[out]} (writeKeyPEM out b force).
Proof.
  unfold writeKeyPEM. destruct (str_empty out); [by apply touches_off|].
  apply touches_disk, fs_touches_bind; [apply may_write_touches|intros _].
  apply fs_touches_bind; [apply fs_touches_result, WriteFile_touches|intros _].
  apply fs_touches_result, chmod_touches.
Qed.

Lemma resolveCASigner_touches X ref : touches X (resolveCASigner ref).
Proof.
  unfold resolveCASigner. destruct (str_empty ref); [by apply touches_off|].
  destruct (CutPrefix "file:" ref) as [path|].
  - by apply touches_disk, (fs_touches_result _ _ (λ b, rwrap _ (LoadEd25519FromPEMFile path b))), ReadFile_touches.
  - apply touches_bind; intros; by apply touches_off.
Qed.

Lemma exists_or_touches X w path there absent :
  touches X there → touches X absent → touches X (exists_or w path there absent).
Proof.
  intros Ht Ha h r h'. unfold exists_or.
  destruct (on_disk (Stat path) h) as [[u|e] h1] eqn:E; apply (touches_disk X _ (Stat_touches X path)) in E.
  - intros E2. etransitivity; [exact E|by eapply Ht].
  - destruct (err_is _ _); [|by intros [= _ <-]]. intros E2. etransitivity; [exact E|by eapply Ha].
Qed.

(** A key file, generated and written. *)
Lemma new_key_touches {B} pre kt path force (k : PublicKey * string → M host B) :
  (∀ a, touches {[path]} (k a)) →
  touches {[path]} (a <-m (λ h, let '(r, h) := generateLeafKey kt h in (rwrap pre r, h));;
                    ensureParent path;;; writeKeyPEM path a.2 force;;; k a).
Proof.
  intros Hk. apply touches_bind; [apply touches_result, touches_off, generateLeafKey_off|intros a].
  apply touches_bind; [apply ensureParent_touches|intros _].
  apply touches_bind; [apply writeKeyPEM_touches|intros _; apply Hk].
Qed.

Lemma ssh_signer_touches path : touches {[path]} (ssh_signer path).
Proof.
  intros h r h'. unfold ssh_signer.
  destruct (on_disk (Stat path) h) as [[u|e] h1] eqn:E; apply (touches_disk {[path]} _ (Stat_touches _ path)) in E.
  - intros E2. etransitivity; [exact E|]. revert E2.
    by apply touches_disk, (fs_touches_result _ _ (λ b, rwrap _ (LoadEd25519FromPEMFile path b))), ReadFile_touches.
  - destruct (err_is _ _); [|by intros [= _ <-]]. intros E2. etransitivity; [exact E|]. revert E2.
    apply new_key_touches. intros a. by apply touches_off.
Qed.

Lemma ensureSSHCA_touches cfg outDir :
  touches {[initEnvPath outDir (SSHKey cfg); initEnvPath outDir (SSHPublicKey cfg)]} (ensureSSHCA cfg outDir).
Proof.
  unfold ensureSSHCA. destruct (_ && _); [by apply touches_off|]. destruct (_ || _); [by apply touches_off|]. cbn zeta.
  apply touches_bind; [eapply touches_mono, ssh_signer_touches; set_solver|intros sg].
  apply touches_bind; [by apply touches_off|intros line].
  apply touches_bind; [apply ensureParent_touches|intros _].
  eapply touches_mono, writePEMBytes_touches. set_solver.
Qed.

(** The file a reference names, if it names one. *)
Definition key_file (ref : result string) : gset string :=
  match ref with
  | Ok r => match CutPrefix "file:" r with Some p => {[p]} | None => ∅ end
  | Err _ => ∅
  end.

Lemma ensureFileSignerKey_touches ref kt name : touches (key_file (Ok ref)) (ensureFileSignerKey ref kt name).
Proof.
  unfold ensureFileSignerKey, key_file. destruct (CutPrefix "file:" ref) as [path|]; [|by apply touches_off].
  destruct (negb _); [by apply touches_off|]. apply exists_or_touches; [by apply touches_off|].
  apply touches_bind; [apply touches_result, touches_off, generateLeafKey_off|intros a].
  apply touches_bind; [apply ensureParent_touches|intros _]. apply writeKeyPEM_touches.
Qed.

Lemma ensureInitEnvSeal_touches cfg outDir : touches (key_file (seal_ref cfg outDir)) (ensureInitEnvSeal cfg outDir).
Proof.
  intros h r h'. unfold ensureInitEnvSeal, mbind at 1, lift. destruct (seal_ref cfg outDir) as [ref|e]; [|by intros [= _ <-]].
  unfold key_file. destruct (CutPrefix "file:" ref) as [path|]; [|by intros [= _ <-]].
  revert h r h'. apply touches_bind; [|intros; by apply touches_off].
  apply exists_or_touches; [by apply touches_off|].
  apply touches_bind; [apply touches_off, read_random_off|intros key].
  apply touches_bind; [apply ensureParent_touches|intros _].
  apply touches_disk, fs_touches_bind; [apply fs_touches_result, WriteFile_touches|intros _].
  apply fs_touches_result, chmod_touches.
Qed.

(** ** Links *)

(** [p] was parsed, belongs to the signer and may issue. *)
Record can_issue (p : X509Engine.Certificate) (s : Signer) : Prop := {
  ci_parsed : ∃ der, ParseCertificate der = Ok p;
  ci_key : CertPublicKey p = Some (Public s);
  ci_ca : IsCA p = true;
  ci_usage : Z.testbit (KeyUsage p) 5 = true;
}.

Lemma signTemplate_link rnd s p pub tmpl c :
  can_issue p s → signTemplate rnd s p pub tmpl = Ok c → NotAfter c ≤ NotAfter p →
  issued_under c p ∧ made c.
Proof.
  intros [[derp Hp] Hk Hca Hu]. unfold signTemplate. intros (der & Hd%rwrap_Ok & Hc%rwrap_Ok)%rbind_Ok Hl.
  split; [|by eexists _, _, _, _, _, _]. split; [by eapply created_signed|by eapply created_issuer|done|done].
Qed.

Lemma self_signed_link rnd n1 n2 sg cn len c :
  selfSignedCA rnd n1 n2 (Some sg) cn len = Ok c → can_issue c sg ∧ made c ∧ issued_under c c.
Proof.
  unfold selfSignedCA. intros ([n rest] & _ & (der & Hd%rwrap_Ok & Hc%rwrap_Ok)%rbind_Ok)%rbind_Ok.
  destruct (create_parse _ _ _ _ _ _ _ Hd Hc) as (_ & _ & _ & _ & Hu & _ & Hca & _ & _ & _ & Hk).
  destruct Hca as [Hca _]; [done|]. simpl in Hca, Hu. assert (Z.testbit (KeyUsage c) 5 = true) as Hb by (by rewrite Hu).
  assert (can_issue c sg) as Hci by (split; [by exists der|done..]).
  split; [done|]. split; [by eexists _, _, _, _, _, _|]. split; [by eapply created_signed|by eapply created_self|done|done].
Qed.

(** The intermediate, under a root that may issue. *)
Lemma intermediate_link rnd sg root p c :
  can_issue root sg → SignIntermediateCA rnd sg (Some root) p = Ok c →
  issued_under c root ∧ made c ∧
  IsCA c = true ∧ Z.testbit (KeyUsage c) 5 = true ∧ MaxPathLenZero c = true.
Proof.
  intros Hr E. pose proof (intermediate_cert _ _ _ _ _ E) as (_ & Hca & Hz & Hl). revert E.
  unfold SignIntermediateCA. intros ([[r pub] n] & (E & _)%validateIntermediate_Ok & E2)%rbind_Ok. injection E as <-.
  destruct (signTemplate_link _ _ _ _ _ _ Hr E2 Hl) as [Hi Hp].
  apply signTemplate_Ok in E2 as (_ & _ & Hu & _). split_and!; try done. by rewrite Hu.
Qed.

(** A workload's certificate, under its issuer. *)
Lemma workload_link rnd sg ca p c :
  can_issue ca sg → SignWorkloadCert rnd sg (Some ca) p = Ok c → issued_under c ca.
Proof.
  intros Hr E. pose proof (workload_leaf _ _ _ _ _ E) as [_ Hl]. revert E.
  unfold SignWorkloadCert. intros ([[ca' pub] n] & ([= <-] & _)%validate_Ok & (uri & _ & E2)%rbind_Ok)%rbind_Ok.
  by destruct (signTemplate_link _ _ _ _ _ _ Hr E2 Hl) as [Hi _].
Qed.

(** ** The files of a fresh CA *)

(** A file with the PEM block of a certificate that was parsed. *)
Definition cert_file (d : gmap string file) (path : string) (c : X509Engine.Certificate) : Prop :=
  has d path (cert_block c) ∧ ∃ der, ParseCertificate der = Ok c.

Lemma cert_file_kept X d d' path c : kept X d d' → path ∉ X → cert_file d path c → cert_file d' path c.
Proof. intros Hk Hp [Hh Hc]. split; [by eapply kept_has|done]. Qed.

Lemma read_cert_file d path c h : cert_file d path c → shows d h → ∃ h', loadIssuerCert path h = (Ok c, h') ∧ shows d h'.
Proof.
  intros [Hf [der Hc]] Hd. destruct (ReadFile_shows d h path _ Hd Hf) as (h1 & E & Hd1). exists h1. split; [|done].
  unfold loadIssuerCert, read_cert, mbind. rewrite on_disk_wrap, E. simpl. unfold lift.
  by rewrite (parse_cert_block _ _ _ Hc).
Qed.

Lemma loadIssuerCert_clocks path h r h' : loadIssuerCert path h = (r, h') → clocks h' = clocks h.
Proof.
  unfold loadIssuerCert, read_cert, mbind. rewrite on_disk_wrap.
  destruct (on_disk (ReadFile path) h) as [rd h1] eqn:E. apply on_disk_clocks in E. simpl.
  destruct (rwrap _ rd) as [raw|e]; [|by intros [= _ <-]]. unfold lift, mret.
  by destruct (parse_cert_file path raw); intros [= _ <-].
Qed.

Lemma ensureInitEnvRoot_fresh cfg outDir h iss h' :
  honest (disk h) → RootCert cfg ≠ "" →
  files (disk h) !! initEnvPath outDir (RootCert cfg) = None →
  initEnvPath outDir (RootCert cfg) ∉ key_file (initEnvRootKeyRef cfg outDir) →
  ensureInitEnvRoot cfg outDir h = (Ok iss, h') →
  cert_file (files (disk h')) (initEnvPath outDir (RootCert cfg)) (iss_cert iss) ∧
  can_issue (iss_cert iss) (iss_sig iss) ∧ made (iss_cert iss) ∧ issued_under (iss_cert iss) (iss_cert iss).
Proof.
  intros Hh Hne Hfree Hp. set (path := initEnvPath outDir (RootCert cfg)) in *.
  unfold ensureInitEnvRoot. intros (ref & h0 & [Er ->]%lift_Ok & E)%mbind_Ok_inv. rewrite Er in Hp.
  apply mbind_Ok_inv in E as (u1 & h1 & E1%ensureFileSignerKey_touches & E).
  apply mbind_Ok_inv in E as (sg & h2 & E2%(resolveCASigner_touches ∅) & E). fold path in E.
  assert (files (disk h2) !! path = None) as Hfree2 by (by rewrite E2, E1).
  destruct (loadIssuerCert path h2) as [[cert|e] h3] eqn:E3.
  { unfold loadIssuerCert in E3. apply mbind_Ok_inv in E3 as ([dc cc] & h4 & Er3 & _).
    apply read_cert_Ok in Er3 as (raw & (f & Hf & _) & _). by rewrite Hfree2 in Hf. }
  destruct (err_is e _); [|done].
  apply mbind_Ok_inv in E as (cert & h4 & E4 & E). apply mbind_Ok_inv in E as (u5 & h5 & _ & E).
  apply mbind_Ok_inv in E as (u6 & h6 & E6 & [= <- <-]). simpl.
  apply mbind_Ok_inv in E4 as (r & h7 & _ & E4). apply mbind_Ok_inv in E4 as (n1 & h8 & _ & E4).
  apply mbind_Ok_inv in E4 as (n2 & h9 & _ & [Ec%rwrap_Ok%self_signed_link _]%lift_Ok).
  destruct Ec as (Hci & Hma & Hi). split; [|done]. split; [|apply Hci].
  eapply writePEMBytes_Ok; [by apply initEnvPath_nonempty|exact E6].
Qed.

Lemma ensureInitEnvRoot_touches cfg outDir :
  touches ({[initEnvPath outDir (RootCert cfg)]} ∪ key_file (initEnvRootKeyRef cfg outDir)) (ensureInitEnvRoot cfg outDir).
Proof.
  intros h r h'. unfold ensureInitEnvRoot, mbind at 1, lift.
  destruct (initEnvRootKeyRef cfg outDir) as [ref|e]; [|by intros [= _ <-]]. revert h r h'.
  apply touches_bind; [eapply touches_mono, ensureFileSignerKey_touches; set_solver|intros _].
  apply touches_bind; [apply resolveCASigner_touches|intros sg]. cbn zeta. intros h r h'.
  destruct (loadIssuerCert _ h) as [[cert|e] h1] eqn:E.
  - intros E2. eapply loadIssuerCert_touches in E. destruct (negb _); by injection E2 as _ <-.
  - eapply loadIssuerCert_touches in E. destruct (err_is e _); [|by intros [= _ <-]].
    intros E2. etransitivity; [exact E|]. revert E2. unfold mint_root.
    apply touches_bind; [apply touches_off, mint_off|intros c].
    apply touches_bind; [apply ensureParent_touches|intros _].
    apply touches_bind; [eapply touches_mono, writePEMBytes_touches; set_solver|intros; by apply touches_off].
Qed.

Lemma new_intermediate_fresh cfg root ref certPath sealedPath h iss h' :
  certPath ≠ "" → honest (disk h) → can_issue (iss_cert root) (iss_sig root) →
  new_intermediate cfg root ref certPath sealedPath h = (Ok iss, h') →
  cert_file (files (disk h')) certPath (iss_cert iss) ∧ made (iss_cert iss) ∧ issued_under (iss_cert iss) (iss_cert root) ∧
  IsCA (iss_cert iss) = true ∧ Z.testbit (KeyUsage (iss_cert iss)) 5 = true ∧ MaxPathLenZero (iss_cert iss) = true.
Proof.
  intros Hne Hh Hr E. unfold new_intermediate in E.
  apply spares_step in E as (k & h1 & _ & Hh1 & _ & E); [|done|apply spares_off, generateLeafKey_off].
  apply spares_step in E as (n & h2 & _ & Hh2 & _ & E); [|done|apply spares_off, random_serial_off].
  apply mbind_Ok_inv in E as (ttl & h3 & [_ ->]%lift_Ok & E).
  apply spares_step in E as (c & h3 & Ec & Hh3 & _ & E); [|done|apply spares_off, sign_intermediate_off].
  apply mbind_Ok_inv in Ec as (t & h3' & _ & Ec). apply mbind_Ok_inv in Ec as (r & h3'' & _ & [Ec%rwrap_Ok _]%lift_Ok).
  apply (intermediate_link _ _ _ _ _ Hr) in Ec as (Hi & Hp & Hca & Hu & Hz).
  apply spares_step in E as (s & h4 & Es & Hh4 & _ & E); [|done|apply resolveSealer_spares].
  apply spares_step in E as (b64 & h5 & Eb & Hh5 & _ & E); [|done|by eapply spares_off, seal_key_off].
  apply spares_step in E as (u1 & h6 & _ & Hh6 & _ & E); [|done|apply ensureParent_spares].
  apply spares_step in E as (u2 & h7 & _ & Hh7 & _ & E); [|done|apply ensureParent_spares].
  apply spares_step in E as (u3 & h8 & E8 & Hh8 & _ & E); [|done|apply (writePEMBytes_spares _ _ false)].
  apply writePEMBytes_Ok in E8; [|done].
  apply spares_step in E as (u4 & h9 & _ & Hh9 & K9 & E); [|done|apply (writeKeyPEM_spares _ _ false)].
  apply mbind_Ok_inv in E as (sg & h10 & [_ ->]%lift_Ok & [= <- <-]). simpl.
  split; [split; [by eapply has_later|by apply made_parsed]|]. by split_and!.
Qed.

(** The files that a run over a fresh disk writes on its way to the intermediate. *)
Definition key_files (m : initEnvManifest) (outDir : string) : gset string :=
  {[initEnvPath outDir (SSHKey (SSHCA m)); initEnvPath outDir (SSHPublicKey (SSHCA m))]} ∪
  key_file (initEnvRootKeyRef (Root m) outDir) ∪ key_file (seal_ref (Seal m) outDir).

(** Neither certificate exists, and the manifest gives each a path of its own. *)
Record fresh (m : initEnvManifest) (outDir : string) (d : gmap string file) : Prop := {
  no_root_cert : d !! root_path m outDir = None;
  no_inter_cert : d !! inter_path m outDir = None;
  own_paths : root_path m outDir ∉ key_files m outDir ∧ inter_path m outDir ∉ key_files m outDir ∧
    root_path m outDir ≠ inter_path m outDir;
}.

(** The two certificates a run leaves, linked. *)
Record two_tiers (d : gmap string file) (rootPath interPath : string) (root inter : X509Engine.Certificate) : Prop := {
  tt_root : cert_file d rootPath root;
  tt_inter : cert_file d interPath inter;
  tt_chained : chained inter root;
  tt_ca : IsCA inter = true ∧ Z.testbit (KeyUsage inter) 5 = true ∧ MaxPathLenZero inter = true;
}.

Lemma two_tiers_kept X d d' rp ip root inter :
  kept X d d' → rp ∉ X → ip ∉ X → two_tiers d rp ip root inter → two_tiers d' rp ip root inter.
Proof. intros Hk Hr Hi [? ? ? ?]. split; [by eapply cert_file_kept..|done|done]. Qed.

Lemma init_ca_fresh m outDir h iss h' :
  honest (disk h) → RootCert (Root m) ≠ "" → InterCert (Intermediate m) ≠ "" →
  fresh m outDir (files (disk h)) → init_ca m outDir h = (Ok iss, h') →
  ∃ root, two_tiers (files (disk h')) (root_path m outDir) (inter_path m outDir) root (iss_cert iss).
Proof.
  intros Hh Hr Hi [Fr Fi (Or & Oi & Ori)] E. unfold init_ca in E. unfold key_files in Or, Oi.
  rewrite !not_elem_of_union in Or, Oi. destruct Or as [[_ Or] _]. destruct Oi as [[_ Oi] Ois].
  apply spares_step in E as (root & h1 & E1 & Hh1 & K1 & E); [|done|apply ensureInitEnvRoot_spares].
  pose proof (ensureInitEnvRoot_touches _ _ _ _ _ E1) as T1.
  apply ensureInitEnvRoot_fresh in E1 as (Hfile & Hci & Hma & Hself); [|done..].
  apply spares_step in E as (ref & h2 & E2 & Hh2 & K2 & E); [|done|apply ensureInitEnvSeal_spares].
  apply ensureInitEnvSeal_touches in E2. unfold ensureInitEnvIntermediate in E. cbn zeta in E.
  assert (files (disk h2) !! inter_path m outDir = None) as Hfree.
  { rewrite (E2 _ Ois), (T1 (inter_path m outDir)); [done|]. apply not_elem_of_union. split; [|done].
    by apply not_elem_of_singleton. }
  exists (iss_cert root). apply spares_step in E as (b & h3 & E3 & Hh3 & K3 & E); [|done|].
  2: { unfold both_exist. apply spares_bind; [apply certExists_spares|]. intros [|]; [apply certExists_spares|by apply spares_off]. }
  assert (b = false) as ->.
  { unfold both_exist in E3. apply mbind_Ok_inv in E3 as (b1 & h4 & E4 & E3). unfold certExists, on_disk in E4.
    destruct (Stat _ (disk h2)) as [r d] eqn:Es. injection E4 as <- <-.
    apply Stat_cases in Es as (_ & _ & Hs); [|done]. destruct r as [u|e]; [|by injection E3 as <-].
    rewrite Hfree in Hs. by destruct Hs. }
  pose proof (new_intermediate_spares ∅ _ _ _ _ _ _ _ _ Hh3 E) as (_ & _ & _ & _ & K4).
  apply new_intermediate_fresh in E as (Hif & Him & Hil & Hca & Hu & Hz); [|by apply initEnvPath_nonempty|done|done].
  split; try done. eapply (cert_file_kept ∅); [|set_solver|exact Hfile].
  transitivity (files (disk h3)); [by transitivity (files (disk h2))|done].
Qed.

Lemma manifest_paths path opened m outDir force h h' :
  runCAInitEnv path opened (Ok m) outDir force h = (Ok tt, h') →
  RootCert (Root m) ≠ "" ∧ InterCert (Intermediate m) ≠ "".
Proof.
  unfold runCAInitEnv. intros (m' & h0 & [Em _]%lift_Ok & _)%mbind_Ok_inv.
  split; [|by apply readInitEnvManifest_Ok in Em as (_ & ? & _)].
  unfold readInitEnvManifest in Em. apply rbind_Ok in Em as (u & _ & Em). apply rbind_Ok in Em as (m1 & Em1 & Em).
  simpl in Em1. injection Em1 as <-. by apply guard_err_Ok in Em as [Hb%bool_decide_eq_false _].
Qed.

(** After a run over a fresh disk, the disk holds a root and an intermediate it issued. *)
Lemma init_env_fresh path opened m outDir force h h' :
  runCAInitEnv path opened (Ok m) outDir force h = (Ok tt, h') → honest (disk h) →
  fresh m outDir (files (disk h)) →
  root_path m outDir ∉ init_overwrites m outDir force → inter_path m outDir ∉ init_overwrites m outDir force →
  ∃ root inter, two_tiers (files (disk h')) (root_path m outDir) (inter_path m outDir) root inter.
Proof.
  intros E Hh Hf Hor Hoi. destruct (manifest_paths _ _ _ _ _ _ _ E) as [Hr Hc]. unfold runCAInitEnv in E.
  apply mbind_Ok_inv in E as (m' & h0 & [(-> & _)%readInitEnvManifest_Ok ->]%lift_Ok & E).
  apply spares_step in E as (u1 & h1 & E1 & Hh1 & _ & E); [|done|apply spares_disk, wrap_spares, MkdirAll_spares].
  apply (touches_disk ∅) in E1; [|apply fs_touches_result, syscall_touches; reflexivity].
  apply mbind_Ok_inv in E as (u2 & h2 & E2 & E). destruct (ensureSSHCA_spares _ _ _ _ _ Hh1 E2) as [Hh2 _].
  apply ensureSSHCA_touches in E2.
  assert (fresh m outDir (files (disk h2))) as Hf2.
  { destruct Hf as [Fr Fi Ho]. pose proof Ho as (Or & Oi & _). unfold key_files in Or, Oi.
    rewrite !not_elem_of_union in Or, Oi. destruct Or as [[Or _] _]. destruct Oi as [[Oi _] _].
    split; [rewrite E2, E1; [done|set_solver|]..|done]; by rewrite not_elem_of_union. }
  apply mbind_Ok_inv in E as (iss & h3 & E3 & E). destruct (init_ca_spares ∅ _ _ _ _ _ Hh2 E3) as [Hh3 _].
  destruct (init_ca_fresh m outDir h2 iss h3 Hh2 Hr Hc Hf2 E3) as [root Ht].
  destruct (init_leaves_spares _ _ _ _ _ _ _ Hh3 E) as (_ & ds & _ & _ & K).
  exists root, (iss_cert iss). by eapply two_tiers_kept.
Qed.

(** ** The server that starts from them

    Up to the issuer, starting only reads. *)
Definition only_reads {A} (m : M host A) : Prop := ∀ d h r h', m h = (r, h') → shows d h → shows d h'.

Lemma reads_off {A} (m : M host A) : off_disk m → only_reads m.
Proof. intros Hm d h r h' E. pose proof (Hm h) as Hd. rewrite E in Hd. simpl in Hd. unfold shows. by rewrite Hd. Qed.

Lemma reads_bind {A B} (m : M host A) (k : A → M host B) :
  only_reads m → (∀ a, only_reads (k a)) → only_reads (mbind m k).
Proof.
  intros Hm Hk d h r h'. unfold mbind. destruct (m h) as [[a|e] h1] eqn:E; [|intros [= <- <-]; by eapply Hm].
  intros E2 Hd. eapply Hk; [exact E2|]. by eapply Hm.
Qed.

Lemma reads_file {A} path (f : result string → result A) :
  only_reads (on_disk (λ d, let '(b, d) := ReadFile path d in (f b, d))).
Proof.
  intros d h r h'. unfold on_disk, ReadFile. intros E [[Hr Hs] Hf]. unfold reads_ok in Hr. rewrite Hr in E.
  by injection E as <- <-.
Qed.

Lemma reads_result {A B} (m : M host A) (f : result A → result B) :
  only_reads m → only_reads (λ h, let '(r, h) := m h in (f r, h)).
Proof. intros Hm d h r h'. destruct (m h) as [r1 h1] eqn:E. intros [= _ <-]. by eapply Hm. Qed.

Context (getenv : string → string).

Lemma resolveCASigner_reads ref : only_reads (resolveCASigner ref).
Proof.
  unfold resolveCASigner. destruct (str_empty ref); [by apply reads_off|].
  destruct (CutPrefix "file:" ref); [apply reads_file|].
  apply reads_bind; intros; by apply reads_off.
Qed.

Lemma loadCASigner_reads : only_reads (loadCASigner getenv).
Proof.
  unfold loadCASigner. destruct (str_empty _); [|apply resolveCASigner_reads].
  apply reads_bind; [by apply reads_off|intros r]. apply reads_bind; intros; by apply reads_off.
Qed.

Lemma resolveSealer_reads ref : only_reads (resolveSealer ref).
Proof. intros d h r h' E Hd. pose proof (resolveSealer_shows d h ref Hd) as Hs. by rewrite E in Hs. Qed.

Lemma loadX509Signer_reads ca : only_reads (loadX509Signer getenv ca).
Proof.
  unfold loadX509Signer. destruct (_ && _); [by apply reads_off|]. destruct (_ || _); [by apply reads_off|].
  apply reads_bind; [apply (reads_file _ (rwrap _))|intros raw]. apply reads_bind; [by apply reads_off|intros c].
  apply reads_bind; [apply resolveSealer_reads|intros s]. apply reads_bind; intros; by apply reads_off.
Qed.

Lemma load_table_reads {D V Mem} var what read (new : list V → Mem) seed (db : option D) :
  (∀ path, only_reads (read path)) → only_reads (load_table getenv var what read new seed db).
Proof.
  intros Hr. unfold load_table. destruct db, (str_empty _); try (by apply reads_off); apply reads_bind; try done;
    intros rows; [|by apply reads_off]. apply reads_bind; [by apply reads_off|intros t].
  destruct (seed t rows d) as [[]]; by apply reads_off.
Qed.

(** The issuer is the certificate in the file. *)
Lemma loadX509Issuer_file sg mt d c h cert rl h' :
  cert_file d (getenv "CERTD_CA_X509_CERT_FILE") c → getenv "CERTD_CA_X509_CERT_FILE" ≠ "" → shows d h →
  loadX509Issuer getenv sg mt h = (Ok (cert, rl), h') →
  cert = c ∧ CertPublicKey c = Some (Public sg) ∧ ∃ r, rl = Some r ∧ val r = c.
Proof.
  intros [Hf [der Hp]] Hne Hd E. set (path := getenv "CERTD_CA_X509_CERT_FILE") in *.
  destruct (Stat_shows d h path _ Hd Hf) as (h1 & E1 & Hd1).
  destruct (ReadFile_shows d h1 path _ Hd1 Hf) as (h2 & E2 & Hd2).
  destruct (Stat_shows d h2 path _ Hd2 Hf) as (h3 & E3 & Hd3).
  pose proof (loadX509Issuer_Ok _ _ _ _ _ _ _ E) as (Hk & Hval & _). revert E.
  unfold loadX509Issuer. fold path. unfold str_empty at 1. rewrite bool_decide_false by done. simpl.
  unfold mbind at 1. rewrite (look_shows _ mt _ _ _ _ E1 E2). simpl.
  intros (rl0 & h4 & [Er%rwrap_Ok ->]%lift_Ok & E)%mbind_Ok_inv.
  assert (val rl0 = c ∧ modTime rl0 = mt) as [Hv Hm].
  { unfold newPEMReloader, reloadLocked in Er. simpl in Er. apply rbind_Ok in Er as (w & Hw%rwrap_Ok & [= <-]).
    apply issuerLoader_Ok in Hw as [_ (der' & Hde & Hpa)]. unfold cert_block in Hde. rewrite pem_decode_block in Hde.
    injection Hde as <-. rewrite (parse_raw _ _ Hp), Hp in Hpa. by injection Hpa as ->. }
  unfold mbind at 1 in E. unfold on_disk in E3. destruct (Stat path (disk h2)) as [r3 d3]. injection E3 as -> <-. simpl in E.
  rewrite <- Hm, Z.eqb_refl in E. unfold mbind at 1, mret at 1 in E. unfold get in E. simpl in E. rewrite Z.eqb_refl in E.
  assert (cert = c ∧ rl = Some rl0) as [-> ->].
  { destruct (str_empty _); [by injection E as <- <- _; rewrite Hv|].
    apply mbind_Ok_inv in E as (root & h5 & _ & E). apply mbind_Ok_inv in E as (t & h6 & _ & E).
    apply mbind_Ok_inv in E as ([] & h7 & _ & [= <- <- _]). by rewrite Hv. }
  split_and!; [done|done|by eexists].
Qed.

Lemma runServe_issuer {D1 D2} rs ps (env : environment D1 D2) d c h srv rl h' :
  cert_file d (getenv "CERTD_CA_X509_CERT_FILE") c → getenv "CERTD_CA_X509_CERT_FILE" ≠ "" → shows d h →
  runServe getenv rs ps env h = (Ok (srv, rl), h') →
  issuerCert srv = Some c ∧ CertPublicKey c = Some (Public (x509Signer srv)) ∧
  trustBundlePath srv = env_first getenv ["CERTD_CA_TRUST_BUNDLE"; "CERTD_CA_ROOT_CERT_FILE"; "CERTD_CA_X509_CERT_FILE"].
Proof.
  intros Hc Hne Hd. unfold runServe. intros E.
  do 2 (apply mbind_Ok_inv in E as (? & ? & [_ ->]%lift_Ok & E)).
  apply mbind_Ok_inv in E as (ca & h1 & E1%wrap_boot_Ok & E). apply (loadCASigner_reads d _ _ _ E1) in Hd.
  apply mbind_Ok_inv in E as (sg & h2 & E2%wrap_boot_Ok & E). apply (loadX509Signer_reads ca d _ _ _ E2) in Hd.
  do 5 (apply mbind_Ok_inv in E as (? & ? & [_ ->]%lift_Ok & E)).
  apply mbind_Ok_inv in E as (ms & h5 & E5%wrap_boot_Ok & E).
  assert (shows d h5) as Hd5.
  { eapply load_table_reads; [|exact E5|exact Hd]. intros path. apply reads_file. }
  apply mbind_Ok_inv in E as ([cert rl0] & h6 & E6%wrap_boot_Ok & E).
  destruct (loadX509Issuer_file _ _ _ _ _ _ _ _ Hc Hne Hd5 E6) as (-> & Hk & r & -> & Hv).
  do 4 (apply mbind_Ok_inv in E as (? & ? & _ & E)).
  apply mbind_Ok_inv in E as (srv' & h8 & [Es%rwrap_Ok _]%lift_Ok & [= <- <- _]).
  cbn in Es. injection Es as <-. split_and!; try done. unfold issuerCert. simpl. by rewrite Hv.
Qed.
End Links.

(** ** What the signing endpoint returns *)
Section Endpoint.
Context `{CryptoLib, X509Lib, PkixLib} {PS MS AS KS : Type}.
Context `{Policy.Store PS} `{Mtls.Store MS} `{ActiveCertStore AS}.
Context (srv : Server PS MS) (inp : Inputs) (r : Request).

Abbreviation W := (World AS KS) (only parsing).

Lemma guard_refusal uri presented caller (w : W) resp w' :
  guard srv inp r uri presented caller w = (inl resp, w') → status resp ≠ StatusOK.
Proof.
  assert (∀ A action md e (w : W) out w', status e ≠ StatusOK →
    (do audit_x509 inp r action uri caller md;; reply (A:=A) e) w = (out, w') → ∃ x, out = inl x ∧ status x ≠ StatusOK) as Hden.
  { intros A action md e w1 out w2 He (-> & _)%audit_reply. by exists e. }
  unfold guard. destruct (negb (activeCerts srv)); [done|].
  intros [(x & E%step_certs & Hx)|(got & w1 & _ & E)]%hbind_cases; [by destruct E as (? & [=] & _)|].
  destruct got as [[ex|]|e]; [|done|by injection E as <- _].
  destruct (judge ex presented _).
  - apply Hden in E as (x & [= ->] & ?); done.
  - done.
  - unfold allow_reenroll in E. apply hbind_cases in E as [(x & [=] & _)|(u & w2 & _ & [=])].
  - apply Hden in E as (x & [= ->] & ?); done.
  - apply hbind_cases in E as [(x & E%step_certs & _)|(res & w2 & _ & E)]; [by destruct E as (? & [=] & _)|].
    apply Hden in E as (x & [= ->] & ?); done.
Qed.

(** A 200 carries a certificate signed under the server's issuer. *)
Lemma served_certificate decoded (w : W) resp w' :
  serve (handleSignX509WorkloadCert srv inp r decoded) w = (resp, w') → status resp = StatusOK →
  ∃ req pub issuer ttl serial rest cert,
    decoded = Ok req ∧ issuerCert srv = Some issuer ∧
    SignWorkloadCert rest (x509Signer srv) (Some issuer)
      (workload_params inp req pub (ReqSPIFFEURI req) ttl serial) = Ok cert ∧
    resp = x509_response issuer cert (ReqSPIFFEURI req).
Proof.
  intros E Hst. unfold serve in E.
  destruct (handleSignX509WorkloadCert srv inp r decoded w) as [out w1] eqn:Eh.
  apply handle_x509_course in Eh as [(resp' & -> & _ & Hne & _)|(req & pub & issuer & caller & uri & ttl & Hcl & Ei)].
  { injection E as <- <-. done. }
  destruct (cleared_bounds _ _ _ _ _ _ _ _ _ _ _ Hcl) as [-> _]. unfold issue in Ei.
  assert (∀ x, out = inl x → x = resp) as Hr by (intros x ->; by injection E).
  apply hbind_cases in Ei as [(x & Hg%guard_refusal & Hx)|(prev & w2 & _ & Ei)]; [by apply Hr in Hx as ->|].
  apply hbind_cases in Ei as [(x & [_ Hm]%mint_spec & Hx)|(cert & w3 & [_ (serial & rest & _ & Hc)]%mint_spec & Ei)];
    [by apply Hr in Hx as ->|].
  apply hbind_cases in Ei as [(x & Hrec & Hx)|(u & w4 & _ & Ei)].
  { apply Hr in Hx as ->. unfold record_rotation in Hrec. destruct (negb (activeCerts srv)); [done|].
    apply hbind_cases in Hrec as [(y & Ey%step_certs & _)|(res & w4 & _ & Hrec)]; [by destruct Ey as (? & [=] & _)|].
    destruct res; [done|]. by injection Hrec as <- _. }
  apply hbind_cases in Ei as [(x & [=] & _)|(u2 & w5 & _ & [= <- <-])]. injection E as <- _.
  exists req, pub, issuer, ttl, serial, rest, cert. split_and!; try done; apply Hcl.
Qed.
End Endpoint.

(** C2: from the first bring-up to a workload's certificate.  [init-env] runs over a
    disk without CA certificates and reports success; a server starts over those
    files with the intermediate as its issuer; a request to its signing endpoint is
    answered with a certificate.  Then that certificate is signed by the
    intermediate in the file, in its name and within its life, the intermediate
    likewise by the root in its file, the root by itself; the leaf is no CA and the
    intermediate may not sign another; and where the trust bundle is served from
    the root's file, what is served is that root. *)
Theorem issued_chain_to_root `{CryptoLib, X509Lib, !X509Laws, !PemLaws, !ChainLaws, PkixLib, KeyLib, KeyParams,
    AwsKms, Gcm, KeyGen, InitLib, BootLib} {D1 D2 AS KS}
    `{!Policy.Store (backend D1 Policy.InMemoryStore.t), !Mtls.Store (backend D2 Mtls.InMemoryStore.t), !ActiveCertStore AS}
    path opened m outDir force h h' getenv rs ps (env : environment D1 D2) hb srv rl hb' inp r decoded
    (w : World AS KS) resp w' :
  runCAInitEnv path opened (Ok m) outDir force h = (Ok tt, h') → honest (disk h) →
  fresh m outDir (files (disk h)) →
  root_path m outDir ∉ init_overwrites m outDir force → inter_path m outDir ∉ init_overwrites m outDir force →
  getenv "CERTD_CA_X509_CERT_FILE" = inter_path m outDir → shows (files (disk h')) hb →
  runServe getenv rs ps env hb = (Ok (srv, rl), hb') →
  serve (handleSignX509WorkloadCert srv inp r decoded) w = (resp, w') → status resp = StatusOK →
  ∃ req root inter leaf,
    decoded = Ok req ∧ resp = x509_response inter leaf (ReqSPIFFEURI req) ∧
    cert_file (files (disk h')) (root_path m outDir) root ∧ cert_file (files (disk h')) (inter_path m outDir) inter ∧
    issued_under leaf inter ∧ issued_under inter root ∧ issued_under root root ∧
    IsCA leaf = false ∧ MaxPathLenZero inter = true ∧
    (trustBundlePath srv = root_path m outDir →
     handleTrustBundle srv (ReadFile (trustBundlePath srv) (disk hb)).1 = writeJSON StatusOK (BBundle (cert_block root))).
Proof.
  intros E Hh Hf Hor Hoi Henv Hb Es Ereq Hst.
  assert (RootCert (Root m) ≠ "" ∧ InterCert (Intermediate m) ≠ "") as [Hr Hi] by by eapply manifest_paths.
  destruct (init_env_fresh _ _ _ _ _ _ _ E Hh Hf Hor Hoi) as (root & inter & [Tr Ti (_ & _ & Tl & Ta) (Tc & Tu & Tz)]).
  rewrite <- Henv in Ti.
  destruct (runServe_issuer _ _ _ _ _ _ _ _ _ _ Ti ltac:(rewrite Henv; by apply initEnvPath_nonempty) Hb Es) as (Hiss & Hk & _).
  rewrite Henv in Ti.
  destruct (served_certificate _ _ _ _ _ _ _ Ereq Hst) as (req & pub & issuer & ttl & serial & rest & leaf & Hd & Hi2 & Hc & ->).
  rewrite Hiss in Hi2. injection Hi2 as <-.
  assert (can_issue inter (x509Signer srv)) as Hci by (split; [apply Ti|done..]).
  exists req, root, inter, leaf. split_and!; try done.
  - by eapply workload_link.
  - by apply workload_leaf in Hc as [? _].
  - intros Hp. rewrite Hp. destruct Hb as [[Hro _] Hfl]. destruct Tr as [(f & Ef & Hcont) _].
    unfold ReadFile. unfold reads_ok in Hro. rewrite Hro, Hfl, Ef. simpl. unfold handleTrustBundle, str_empty.
    rewrite Hp, bool_decide_false by (by apply initEnvPath_nonempty). by rewrite Hcont.
Qed.

(** C23: what [init-env] makes, [serve] starts with.  After a run that reports
    success, whether it created the intermediate and its sealed key or found them,
    and whatever leaves and bundles it then wrote (not over these files), a server
    whose environment names them unseals the key, and the certificate in the file is
    for that key.  It takes it as its issuer where no root is configured, and also
    where the root's file is, as in the two-tier deployment, if the two certificates
    there are linked and the clock is within the life of both.  They are linked after
    a run over a disk without CA certificates; a run that finds an intermediate does
    not make sure of it ([reused_intermediate_unchecked]). *)
Theorem init_env_then_boot `{CryptoLib, X509Lib, !X509Laws, !PemLaws, !ChainLaws, PkixLib, KeyLib, KeyParams,
    AwsKms, Gcm, !SealLaws, KeyGen, !KeyLaws, InitLib, BootLib, !VerifyLaws}
    path opened m outDir force h h' getenv hb ca mt t :
  runCAInitEnv path opened (Ok m) outDir force h = (Ok tt, h') → honest (disk h) →
  boot_files m outDir ## init_overwrites m outDir force →
  points_at getenv m outDir → shows (files (disk h')) hb → (now hb).1 = Ok t →
  ∃ sg h1 c rl,
    loadX509Signer getenv ca hb = (Ok sg, h1) ∧ CertPublicKey c = Some (Public sg) ∧
    (∃ raw der, has (files (disk h')) (inter_path m outDir) raw ∧ parse_cert_file (inter_path m outDir) raw = Ok (der, c)) ∧
    (getenv "CERTD_CA_ROOT_CERT_FILE" = "" → ∃ h2, loadX509Issuer getenv sg mt h1 = (Ok (c, Some rl), h2)) ∧
    (∀ root, getenv "CERTD_CA_ROOT_CERT_FILE" = root_path m outDir →
       cert_file (files (disk h')) (root_path m outDir) root → chained c root → in_validity c t → in_validity root t →
       ∃ h2, loadX509Issuer getenv sg mt h1 = (Ok (c, Some rl), h2)) ∧
    (fresh m outDir (files (disk h)) → root_path m outDir ∉ init_overwrites m outDir force →
       ∃ root, cert_file (files (disk h')) (root_path m outDir) root ∧ chained c root).
Proof.
  intros E Hh Hd [Ec Es Er] Hb Ht.
  destruct (init_env_bootable _ _ _ _ _ _ _ E Hh Hd) as (Hc & Hs & ref & Er' & Hboot).
  rewrite Er in Er'. injection Er' as <-.
  destruct (boots getenv (files (disk h')) _ _ _ ca mt hb Hboot Hb) as
    (sg & h1 & c & rl & h2 & E1 & E2 & Hk & Hd2 & Hcl & raw & der & Hf & Hp); [by apply initEnvPath_nonempty|by apply initEnvPath_nonempty|by eapply seal_ref_nonempty|done..|].
  exists sg, h1, c, rl. split; [done|]. split; [done|]. split; [by exists raw, der|]. unfold check_root in E2. split_and!.
  - intros Eroot. rewrite E2, Eroot. by exists h2.
  - intros root Eroot Hr Hch Hv Hvr. destruct (read_cert_file _ _ _ h2 Hr Hd2) as (h3 & E3 & _).
    assert (clocks h3 = clocks hb) as Hcl3 by (rewrite <- Hcl; by eapply loadIssuerCert_clocks).
    destruct (manifest_paths _ _ _ _ _ _ _ E) as [Hne%(initEnvPath_nonempty outDir) _].
    rewrite E2, Eroot. unfold str_empty. rewrite bool_decide_false by done. unfold mbind at 1. rewrite E3. simpl.
    unfold mbind, lift, verifyIssuerChainsToRoot. unfold now in *. simpl in *. injection Ht as Ht. rewrite Hcl3, Ht.
    rewrite verify_direct by done. by eexists.
  - intros Hfr Hor. destruct (init_env_fresh _ _ _ _ _ _ _ E Hh Hfr Hor) as (root & inter & [Tr [Ti [d Hi]] Hch _]).
    { intros Hin. apply (Hd (inter_path m outDir)); [|done]. unfold boot_files. set_solver +. }
    exists root. split; [done|]. destruct Hf as (f & Ef & <-), Ti as (f' & Ef' & Hcb). rewrite Ef in Ef'. injection Ef' as <-.
    rewrite Hcb, (parse_cert_block _ _ _ Hi) in Hp. by injection Hp as _ <-.
Qed.

(** ** The toy CA, from an empty disk to a leaf *)
Module ChainExamples.
Import InitEnvExamples BootExamples FirstBootExamples.
#[local] Existing Instances crypto pkix keys params keygen no_kms gcm seal_laws x509 x509_laws pem_laws init boot key_laws.

(** Names and keys of what the toy parses. *)
Lemma of_fields_names n cn nb na usage ca plz k ext uri sub iss sg der c :
  of_fields der [n; cn; nb; na; usage; ca; plz; k; ext; uri; sub; iss; sg] = Ok c →
  sub ≠ "" ∧ RawSubject c = sub ∧ RawIssuer c = iss ∧ Raw c = der ∧ CertPublicKey c = Some (mkPublicKey Ed25519 k).
Proof.
  unfold of_fields. intros [Hs%bool_decide_eq_false (? & _ & E)%rbind_Ok]%guard_err_Ok.
  repeat (apply rbind_Ok in E as (? & _ & E)). by injection E as <-.
Qed.

#[local] Instance chain_laws : ChainLaws.
Proof.
  split.
  - intros rnd t parent p s der c derp Hd Hc Hp. destruct (created_parsed _ _ _ _ _ _ _ Hd Hc) as (_ & _ & E).
    apply of_fields_names in E as (_ & _ & -> & _). unfold subject_of, str_empty.
    cbn -[unframe of_fields] in Hp. destruct (unframe 13 derp) as [l|]; [|done].
    do 13 (destruct l as [|? l]; [discriminate Hp|]). destruct l; [|discriminate Hp].
    apply of_fields_names in Hp as (Hn & -> & _). by rewrite bool_decide_false.
  - intros rnd t p s der c Hd Hc. destruct (created_parsed _ _ _ _ _ _ _ Hd Hc) as (_ & _ & E).
    by apply of_fields_names in E as (_ & -> & -> & _).
  - intros rnd t parent p s der c derp q Hd Hc _ Hk Hca Hu.
    destruct (created_parsed _ _ _ _ _ _ _ Hd Hc) as (_ & Ed & E).
    apply of_fields_names in E as (_ & _ & _ & Hr & _). cbn -[unframe Z.testbit]. rewrite Hca, Hu, Hk. cbn -[unframe].
    unfold signed_with. rewrite Hr, Ed. by rewrite bool_decide_true.
Qed.

(** The first run again, with the trust bundle served from the root's file. *)
Definition chain_env (k : string) : string := if bool_decide (k = "CERTD_ROLES_FILE") then "" else getenv k.
Definition disk1 : gmap string file := files (disk first).
Definition started := runServe chain_env Sqlite.roleStore Sqlite.principalStore env (toy_host disk1).

(** Whichever backend there is answers for itself. *)
#[local] Instance backend_policy : Policy.Store (backend (db SqlStore.Roles.table) Policy.InMemoryStore.t) := {|
  Policy.RolesForGroups b gs := match b with InDatabase d => (SqlStore.Roles.RolesForGroups gs d).1 | InMemory m => Policy.RolesForGroups m gs end;
  Policy.All b := match b with InDatabase d => (SqlStore.Roles.All sqlite_dialect d).1 | InMemory m => Policy.All m end;
|}.
#[local] Instance backend_mtls : Mtls.Store (backend (db SqlStore.Principals.table) Mtls.InMemoryStore.t) := {|
  Mtls.Lookup b sans := match b with InDatabase d => (SqlStore.Principals.Lookup sans d).1 | InMemory m => Mtls.Lookup m sans end;
|}.

Definition chain_inp : Inputs := mkInputs (λ _, 2000 * second) (bytes_for 9) "id".
Definition chain_req : Request := mkRequest (λ _, "") "10.0.0.1:99" None.
Definition chain_body : signX509Request :=
  mkSignX509 (pem_encode "PUBLIC KEY" "workload key") "spiffe://corp/web" "" [] [] 0 "".
Definition answer : Response * World (db (list ActiveCertRow)) unit :=
  match started.1 with
  | Ok (srv, _) => serve (handleSignX509WorkloadCert srv chain_inp chain_req (Ok chain_body)) (mkWorld (mkDb [] []) () [])
  | Err e => (writeError 500 (err_text e), mkWorld (mkDb [] []) () [])
  end.

Lemma answered : status answer.1 = StatusOK.
Proof. by vm_compute. Qed.

Lemma empty_fresh : fresh manifest "/etc/certd" ∅.
Proof. split; [done|done|]. split_and!; apply (bool_decide_unpack _); vm_compute; exact I. Qed.

#[local] Instance verify_laws : VerifyLaws.
Proof.
  split. intros c root t (_ & _ & [Hk Hn _ _] & _) [C1 C2] [R1 R2].
  cbn -[CheckSignatureFrom]. rewrite Hk, bool_decide_true by done. simpl.
  by rewrite !(proj2 (Z.leb_le _ _)).
Qed.

(** What is in a file of the first run. *)
Definition parsed (name : string) : option X509Engine.Certificate :=
  f ← disk1 !! ("/etc/certd/" +:+ name); match parse_cert_file "" (content f) with Ok (_, c) => Some c | Err _ => None end.

Lemma parse_cert_file_path p q raw r : parse_cert_file p raw = Ok r → parse_cert_file q raw = Ok r.
Proof.
  unfold parse_cert_file. destruct (pem_decode raw) as [[ty der]|]; [|done].
  intros [Ht (c & Hc%rwrap_Ok & E)%rbind_Ok]%guard_err_Ok. by rewrite Ht, Hc.
Qed.

Lemma parsed_has name raw der c :
  has disk1 ("/etc/certd/" +:+ name) raw → parse_cert_file ("/etc/certd/" +:+ name) raw = Ok (der, c) → parsed name = Some c.
Proof.
  intros (f & Hf & <-) Hp. unfold parsed. rewrite Hf. simpl. by rewrite (parse_cert_file_path _ "" _ _ Hp).
Qed.

(** Both certificates of the first run are good at the time of the boot. *)
Lemma parsed_valid name c :
  name ∈ ["root.crt"; "x509/ca.crt"] → parsed name = Some c → in_validity c (1000 * second).
Proof.
  intros Hn Hc. assert (match parsed name with
    | Some c => (NotBefore c <=? 1000 * second) && (1000 * second <=? NotAfter c) | None => false end = true) as Hv.
  { repeat (apply elem_of_cons in Hn as [->|Hn]; [vm_compute; reflexivity|]). exfalso. exact (not_elem_of_nil _ Hn). }
  rewrite Hc in Hv. unfold in_validity. lia.
Qed.

(** The root is configured. *)
Lemma init_env_then_boot_witness :
  getenv "CERTD_CA_ROOT_CERT_FILE" = "/etc/certd/root.crt" ∧
  ∃ sg h1 c rl h2, loadX509Signer getenv ReloadExamples.ca (toy_host disk1) = (Ok sg, h1) ∧
    loadX509Issuer getenv sg 7 h1 = (Ok (c, Some rl), h2) ∧ CertPublicKey c = Some (Public sg).
Proof.
  split; [by vm_compute|]. destruct (run false (toy_host ∅)) as [r h'] eqn:E.
  assert (h' = first) as -> by (unfold first; by rewrite E).
  assert (r = Ok tt) as -> by (by rewrite <- (proj1 first_run), E).
  destruct (init_env_then_boot "init.yaml" (Ok tt) manifest "/etc/certd" false (toy_host ∅) first getenv
    (toy_host disk1) ReloadExamples.ca 7 (1000 * second) E)
    as (sg & h1 & c & rl & E1 & Hk & (raw & der & Hf & Hp) & _ & Hroot & Hfresh).
  - split; constructor.
  - exact apart.
  - split; vm_compute; reflexivity.
  - apply toy_shows.
  - reflexivity.
  - destruct Hfresh as (root & Hr & Hch); [exact empty_fresh|apply (bool_decide_unpack _); vm_compute; exact I|].
    assert (in_validity c (1000 * second)) as Hv.
    { apply (parsed_valid "x509/ca.crt"); [by right; left|]. by eapply parsed_has. }
    assert (in_validity root (1000 * second)) as Hvr.
    { apply (parsed_valid "root.crt"); [by left|]. destruct Hr as [Hr [d Hd]].
      eapply parsed_has; [exact Hr|by eapply parse_cert_block]. }
    destruct (Hroot root ltac:(by vm_compute) Hr Hch Hv Hvr) as [h2 E2].
    exists sg, h1, c, rl, h2. split_and!; [exact E1|exact E2|exact Hk].
Defined.

Lemma issued_chain_to_root_witness :
  ∃ root inter leaf, answer.1 = x509_response inter leaf "spiffe://corp/web" ∧
    cert_file disk1 "/etc/certd/root.crt" root ∧ issued_under leaf inter ∧ issued_under inter root.
Proof.
  destruct (run false (toy_host ∅)) as [r1 h1] eqn:E1.
  assert (h1 = first) as -> by (unfold first; by rewrite E1).
  assert (r1 = Ok tt) as -> by (by rewrite <- (proj1 first_run), E1).
  destruct started as [[[srv rl]|e] hb'] eqn:Es.
  2: { pose proof answered as Ha. unfold answer in Ha. by rewrite Es in Ha. }
  destruct (issued_chain_to_root "init.yaml" (Ok tt) manifest "/etc/certd" false (toy_host ∅) first chain_env
    Sqlite.roleStore Sqlite.principalStore env (toy_host disk1) srv rl hb' chain_inp chain_req (Ok chain_body)
    (mkWorld (KS:=unit) (mkDb [] []) () []) answer.1 answer.2 E1)
    as (req & root & inter & leaf & Hreq & Hresp & Hr & _ & Hl & Hi & _).
  - split; constructor.
  - exact empty_fresh.
  - apply (bool_decide_unpack _). vm_compute. exact I.
  - apply (bool_decide_unpack _). vm_compute. exact I.
  - by vm_compute.
  - apply toy_shows.
  - exact Es.
  - unfold answer. rewrite Es. apply surjective_pairing.
  - exact answered.
  - injection Hreq as <-. exists root, inter, leaf. split_and!; [exact Hresp|exact Hr|done|done].
Defined.
End ChainExamples.
