(* ===== verification/KeyFile.v ===== *)
(** * KeyFile: a signing key saved and loaded

    Models [SaveEd25519ToPEMFile] of [internal/server/signer/inmemory.go], which
    looks at what is behind the [Signer] interface: the concrete types of the
    package as a sum, each with the interface of [Signer] it implements.  The
    theorem: a saved key loads back, by both loaders, as a signer that signs
    alike. *)

From S2P Require Import Prelude Signer X509Engine Files Custody CaTool ToyCA FirstBoot.

Section KeyFile.
Context `{CryptoLib, X509Lib, KeyLib, KeyGen}.

(** The concrete types behind a [Signer]: [*inMemory], whose field is an
    [ed25519.PrivateKey], [genericInMemory], and those of other packages. *)
Inductive AnySigner :=
  | IsInMemory (priv : PrivateKey) (descr : string)
  | IsGeneric (priv : PrivateKey) (descr : string)
  | IsOther (s : Signer).

Definition as_signer (s : AnySigner) : Signer :=
  match s with
  | IsInMemory priv descr => inMemory priv descr
  | IsGeneric priv descr => genericInMemory priv descr
  | IsOther s => s
  end.

Definition well_typed (s : AnySigner) : Prop :=
  match s with IsInMemory priv _ => priv_algo priv = Ed25519 | _ => True end.

Definition SaveEd25519ToPEMFile (s : AnySigner) (path : string) : M fs unit :=
  match s with
  | IsInMemory priv _ =>
      der <-m (λ d, (rwrap "marshal pkcs8: " (MarshalPKCS8PrivateKey priv), d));;
      wrap_fs ("write " +:+ path +:+ ": ") (WriteFile path (pem_encode "PRIVATE KEY" der) (octal 6 0 0))
  | _ => mfail (ErrNew "signer is not an in-memory ed25519 key")
  end.

(** The mode a written file has: its own, when it was there. *)
Lemma WriteFile_mode path b perm s u s' :
  WriteFile path b perm s = (Ok u, s') →
  ∃ f, files s' !! path = Some f ∧ content f = b ∧
    mode f = match files s !! path with Some f0 => mode f0 | None => perm end.
Proof.
  intros (u1 & s1 & E1 & E)%mbind_Ok_inv. apply syscall_Ok in E1. injection E1 as _ E1.
  destruct (Write path b s1) as [r1 s2] eqn:E2. destruct (Close path s2) as [r2 s3] eqn:E3.
  destruct r1 as [u2|]; [|done]. injection E as -> <-.
  apply syscall_Ok in E2. injection E2 as _ E2. apply syscall_Ok in E3. injection E3 as _ E3.
  rewrite <- E3, <- E2, <- E1. unfold update_file. rewrite lookup_insert_eq. eexists.
  rewrite lookup_insert_eq. split; [done|]. done.
Qed.

(** A key that was saved loads back.  When SaveEd25519ToPEMFile succeeds its
    argument was an in-memory Ed25519 signer, and what the file then holds loads,
    with LoadEd25519FromPEMFile and with LoadFromPKCS8PEM, as a signer with the same
    public key that returns the same signature, or error, for every message without
    a pre-hash; a file that was not there has mode 0600, one that was keeps its
    mode.  Saving any other signer is refused and touches nothing. *)
Theorem saved_key_loads `{!PemLaws, !KeyLaws} s path d r d' :
  well_typed s → SaveEd25519ToPEMFile s path d = (r, d') →
  (r = Ok tt →
   ∃ priv descr f, s = IsInMemory priv descr ∧ files d' !! path = Some f ∧
     mode f = match files d !! path with Some f0 => mode f0 | None => octal 6 0 0 end ∧
     (∃ s1, LoadEd25519FromPEMFile path (Ok (content f)) = Ok s1 ∧
        Public s1 = Public (as_signer s) ∧ ∀ m h, Sign s1 m h = Sign (as_signer s) m h) ∧
     (can_sign priv = true → ∀ name, ∃ s2, LoadFromPKCS8PEM (content f) name = Ok s2 ∧
        Public s2 = Public (as_signer s) ∧ ∀ m, Sign s2 m 0 = Sign (as_signer s) m 0)) ∧
  ((∀ priv descr, s ≠ IsInMemory priv descr) → is_ok r = false ∧ d' = d).
Proof.
  intros Hty E. split.
  - intros ->. destruct s as [priv descr|priv descr|s]; [|done|done].
    simpl in E. apply mbind_Ok_inv in E as (der & d1 & E1 & E). injection E1 as Eder <-.
    destruct (MarshalPKCS8PrivateKey priv) as [der'|] eqn:Em; [|done]. injection Eder as ->.
    apply wrap_fs_Ok, WriteFile_mode in E as (f & Hf & Hc & Hmode).
    exists priv, descr, f. split; [done|]. split; [done|]. split; [done|].
    assert (pem_decode (content f) = Some ("PRIVATE KEY", der)) as Hpem.
    { rewrite Hc. rewrite <- (str_app_nil_r (pem_encode _ _)). apply pem_first. }
    pose proof (parse_pkcs8 priv der Em) as Hp. simpl in Hty. split.
    + exists (inMemory priv ("in-memory ed25519 (file: " +:+ path +:+ ")")).
      unfold LoadEd25519FromPEMFile, parseEd25519PEM. simpl. rewrite Hpem, Hp. simpl.
      by rewrite bool_decide_true.
    + intros Hcan name. unfold LoadFromPKCS8PEM. rewrite Hpem, Hp. simpl. rewrite Hcan. by eexists.
  - intros Hs. destruct s as [priv descr|priv descr|s]; [by destruct (Hs priv descr)|..];
      by injection E as <- <-.
Qed.
End KeyFile.

(** ** Instances: a key of the toy library, over a file that was there *)
Module KeyFileExamples.
#[local] Existing Instance ToyCA.crypto.
#[local] Existing Instance ToyCA.keys.
#[local] Existing Instance ToyCA.keygen.
#[local] Existing Instance ToyCA.x509.
#[local] Existing Instance ToyCA.pem_laws.
#[local] Existing Instance FirstBootExamples.key_laws.

Definition key : AnySigner := IsInMemory (mkPrivateKey Ed25519 "seed") "in-memory ed25519 (ephemeral)".
Definition disk0 : fs := mkFs {[ "/etc/ca.key" := mkFile "old" (octal 6 4 4) true ]} [] [] [].
Definition saved := SaveEd25519ToPEMFile key "/etc/ca.key" disk0.

(** The old file's mode stays: the key is readable by everyone. *)
Lemma saved_key_loads_witness :
  ∃ f s1, files saved.2 !! "/etc/ca.key" = Some f ∧ mode f = octal 6 4 4 ∧
    LoadEd25519FromPEMFile "/etc/ca.key" (Ok (content f)) = Ok s1 ∧
    Sign s1 "message" 0 = Sign (as_signer key) "message" 0.
Proof.
  destruct (saved_key_loads key "/etc/ca.key" disk0 saved.1 saved.2) as [Hok _].
  - reflexivity.
  - apply surjective_pairing.
  - destruct Hok as (priv & descr & f & _ & Hf & Hm & (s1 & Hl & _ & Hs) & _); [by vm_compute|].
    exists f, s1. split; [exact Hf|]. split; [exact Hm|]. split; [exact Hl|]. apply Hs.
Defined.
End KeyFileExamples.
