(* ===== verification/Client.v ===== *)
(** * Client: the API as its callers see it

    Models [internal/client/client.go].  [RestClient] is the HTTP client of the base
    library, one operation per shape of request and reply, over the state [N] of
    everything beyond the process; it turns a response other than 2xx, a lost
    connection or an undecodable body into an error. *)

From S2P Require Import Prelude.

Record SignWorkloadRequest := mkSignWorkloadRequest {
  PublicKeyPEM : string; ReqURI : string; ReqCommonName : string; ReqDNS : list string;
  ReqGroups : list string; ReqTTLSeconds : Z; PresentedSerial : string }.

Record SignWorkloadResponse := mkSignWorkloadResponse {
  RespCertificate : string; RespChain : string; RespSerial : string; RespURI : string;
  ValidAfter : time; ValidBefore : time }.

Record AdoptRequest := mkAdoptRequest { AdoptURI : string; AdoptedSerial : string }.

Record SignUserRequest := mkSignUserRequest {
  UserKey : string; ReqKeyID : string; ReqPrincipals : list string; ReqUserGroups : list string;
  ReqUserExtensions : gmap string string; ReqUserOptions : gmap string string; ReqUserTTL : Z }.

Record SignUserResponse := mkSignUserResponse {
  UserCertificate : string; UserSerial : Z; RespKeyID : string; RespPrincipals : list string;
  UserValidAfter : time; UserValidBefore : time }.

Class RestClient (N : Type) := {
  post_workload : string → SignWorkloadRequest → M N SignWorkloadResponse;
  post_adopt : string → AdoptRequest → M N bool;
  post_user : string → SignUserRequest → M N SignUserResponse;
  get_bundle : string → M N string;
  get_ca_keys : string → M N string;
}.

(** [if err := call(); err != nil { return fmt.Errorf("pre: %w", err) }] *)
Definition wrapped {S A} (pre : string) (m : M S A) : M S A := λ s,
  let '(r, s') := m s in (rwrap pre r, s').

Lemma wrapped_inv {S A} pre (m : M S A) s r s' :
  wrapped pre m s = (r, s') → ∃ r0, m s = (r0, s') ∧ r = rwrap pre r0.
Proof. unfold wrapped. destruct (m s) as [r0 s0]. intros [= <- <-]. by exists r0. Qed.

(** [NewClient]: the base URL the requests go to. *)
Definition NewClient (baseURL : string) : result string :=
  reject str_empty baseURL with ErrNew "baseURL is required";; Ok (trim_right "/"%char baseURL).

Section Calls.
Context {N : Type} `{RestClient N}.

Definition SignWorkloadCert (req : SignWorkloadRequest) : M N SignWorkloadResponse :=
  wrapped "sign-workload: " (post_workload "/api/v1/x509/sign-workload" req).

Definition AdoptCert (spiffeURI serial : string) : M N bool :=
  wrapped "adopt: " (post_adopt "/api/v1/x509/adopt" (mkAdoptRequest spiffeURI serial)).

Definition FetchTrustBundle : M N string :=
  wrapped "trust-bundle: " (get_bundle "/api/v1/x509/trust-bundle").

Definition FetchSSHCAKeys : M N string :=
  wrapped "ssh ca-keys: " (get_ca_keys "/api/v1/ssh/ca-keys").

Definition SignUserCert (req : SignUserRequest) : M N SignUserResponse :=
  wrapped "sign-user: " (post_user "/api/v1/ssh/sign-user" req).
End Calls.
