(* ===== verification/Renew.v ===== *)
(** * Renew: the agent's renewal loop for workload certificates

    Models [internal/agent/renew/renewer.go]: the private key kept or rotated, one
    signing round ([SignOnce]), the scheduling of the next one, and the loop.  The
    state is the renewer's key cache, the disk and the network.  [log] and the
    [OnRenewed] callback are not modelled. *)

From S2P Require Import Prelude GoText GoTime GoDuration Signer X509Engine Files Client.

(** ** float64 scaling

    A finite [float64] is a dyadic fraction.  The product with an integer number of
    nanoseconds rounds twice, each time to 53 significant bits, ties to even
    ([GoDuration.round53]); the conversion to [time.Duration] truncates. *)
Record float64 := mkFloat64 { numer : Z; scale : nat }.

(** [time.Duration(float64(d) * f)] *)
Definition scale_duration (d : duration) (f : float64) : duration :=
  Z.quot (round53 (round53 d * numer f)) (2 ^ Z.of_nat (scale f)).

(** 0.6 *)
Definition DefaultRenewFraction : float64 := mkFloat64 5404319552844595 53.
Definition DefaultMinRenewInterval : duration := minute.
Definition DefaultRetryBackoff : duration := 30 * second.

(** ** Configuration *)

Definition KeyECDSAP256 : string := "ecdsa-p256".
Definition KeyEd25519 : string := "ed25519".

Record Config := mkConfig {
  HasSigner : bool;
  SPIFFEURI : string;
  CommonName : string;
  WorkloadDNS : list string;
  KeyType : string;
  RotateKey : bool;
  WorkloadGroups : list string;
  CertOutputPath : string;
  KeyOutputPath : string;
  RequestedTTL : duration;
  RenewFraction : float64;
  MinRenewInterval : duration;
  RetryBackoff : duration;
}.

(** The checks and defaults [New] and [NewUserCertRenewer] share. *)
Definition scheduling (f : float64) (min retry : duration)
    : result (float64 * duration * duration) :=
  let f := if numer f =? 0 then DefaultRenewFraction else f in
  reject (numer f <=? 0) || (2 ^ Z.of_nat (scale f) <=? numer f) with
    ErrOpaque "RenewFraction must be in (0,1)";;
  Ok (f, if min =? 0 then DefaultMinRenewInterval else min,
      if retry =? 0 then DefaultRetryBackoff else retry).

Definition default_key_type (kt : string) : result string :=
  if str_empty kt then Ok KeyECDSAP256 else
  if bool_decide (kt = KeyECDSAP256) || bool_decide (kt = KeyEd25519) then Ok kt
  else Err (ErrNew ("unsupported KeyType " +:+ fmt_q kt +:+ " (want ecdsa-p256 or ed25519)")).

Definition New (cfg : Config) : result Config :=
  reject negb (HasSigner cfg) with ErrNew "signer is required";;
  reject str_empty (SPIFFEURI cfg) with ErrNew "SPIFFEURI is required";;
  reject str_empty (CertOutputPath cfg) with ErrNew "CertOutputPath is required";;
  reject str_empty (KeyOutputPath cfg) with ErrNew "KeyOutputPath is required";;
  kt <-r default_key_type (KeyType cfg);;
  s <-r scheduling (RenewFraction cfg) (MinRenewInterval cfg) (RetryBackoff cfg);;
  let '(fraction, min, retry) := s in
  Ok (mkConfig true (SPIFFEURI cfg) (CommonName cfg) (WorkloadDNS cfg) kt (RotateKey cfg)
    (WorkloadGroups cfg) (CertOutputPath cfg) (KeyOutputPath cfg) (RequestedTTL cfg) fraction min retry).

(** [nextRenewalDelay], the same in both renewers. *)
Definition nextRenewalDelay (fraction : float64) (min : duration)
    (validAfter validBefore now : time) : duration :=
  let lifetime := time_sub validBefore validAfter in
  let deadline := time_add validAfter (scale_duration lifetime fraction) in
  let wait := time_sub deadline now in
  if wait <? min then min else wait.

(** ** Keys *)

(** The renewer's key cache. *)
Record Renewer := mkRenewer { privateKey : option PrivateKey; keyPEM : string; keyPersisted : bool }.

(** A renewer with a key cache [K], the disk and the network it works on. *)
Record agent (K N : Type) := mkAgent { rn : K; on_disk : fs; net : N }.
Arguments mkAgent {K N}.
Arguments rn {K N}.
Arguments on_disk {K N}.
Arguments net {K N}.

Definition disk_op {K N A} (m : M fs A) : M (agent K N) A := λ a,
  let '(r, d) := m (on_disk a) in (r, mkAgent (rn a) d (net a)).
Definition net_op {K N A} (m : M N A) : M (agent K N) A := λ a,
  let '(r, n) := m (net a) in (r, mkAgent (rn a) (on_disk a) n).
Definition lift {S A} (r : result A) : M S A := λ s, (r, s).

(** What the outside contributes to one round of the loop: the key generator, the
    clock at its two readings, the verdict of [AbortOnSignError], and whether the
    context is cancelled during the wait. *)
Record cycle := mkCycle {
  gen : result PrivateKey;
  now_read : time;
  now_delay : time;
  AbortOnSignError : error → option error;
  cancelled : bool;
}.

Section Renewal.
Context `{CryptoLib, X509Lib, KeyLib, TempNames} {N : Type} `{RestClient N}.
Context (cfg : Config).

Definition generateKey (kt : string) (c : cycle) : result PrivateKey :=
  if bool_decide (kt = KeyECDSAP256) || bool_decide (kt = KeyEd25519) then gen c
  else Err (ErrNew ("unsupported key type " +:+ fmt_q kt)).

Definition marshalPublicKeyPEM (pub : PublicKey) : result string :=
  der <-r MarshalPKIXPublicKey pub;; Ok (pem_encode "PUBLIC KEY" der).

Definition marshalPrivateKeyPEM (priv : PrivateKey) : result string :=
  der <-r MarshalPKCS8PrivateKey priv;; Ok (pem_encode "PRIVATE KEY" der).

Definition parsePrivateKeyPEM (b : string) : result PrivateKey :=
  match pem_decode b with
  | None => Err (ErrNew "no PEM block")
  | Some (_, der) =>
      key <-r ParsePKCS8PrivateKey der;;
      if can_sign key then Ok key else Err (ErrOpaque "unsupported key type")
  end.

(** A fresh key with its PEM text. *)
Definition fresh_key (c : cycle) : result (PrivateKey * string) :=
  key <-r rwrap "generate key: " (generateKey (KeyType cfg) c);;
  pem <-r rwrap "marshal generated key: " (marshalPrivateKeyPEM key);;
  Ok (key, pem).

(** [ensureKey]: the key, its PEM text, and whether it is still to be written. *)
Definition ensureKey (c : cycle) : M (agent Renewer N) (PrivateKey * string * bool) := λ a,
  match privateKey (rn a) with
  | Some k => (Ok (k, keyPEM (rn a), negb (keyPersisted (rn a))), a)
  | None =>
      match ReadFile (KeyOutputPath cfg) (on_disk a) with
      | (Ok b, d) =>
          match parsePrivateKeyPEM b with
          | Err e => (Err (ErrWrap ("parse existing key " +:+ KeyOutputPath cfg +:+ ": ") e ""),
                      mkAgent (rn a) d (net a))
          | Ok key => (Ok (key, b, false), mkAgent (mkRenewer (Some key) b true) d (net a))
          end
      | (Err e, d) =>
          if negb (err_is e "fs.ErrNotExist")
          then (Err (ErrWrap ("read key " +:+ KeyOutputPath cfg +:+ ": ") e ""), mkAgent (rn a) d (net a))
          else match fresh_key c with
               | Err e => (Err e, mkAgent (rn a) d (net a))
               | Ok (key, pem) => (Ok (key, pem, true), mkAgent (mkRenewer (Some key) pem false) d (net a))
               end
      end
  end.

Definition keyForRenewal (c : cycle) : M (agent Renewer N) (PrivateKey * string * bool) :=
  if negb (RotateKey cfg) then ensureKey c
  else λ a, (k <-r fresh_key c;; Ok (k.1, k.2, true), a).

Definition markKeyPersisted : M (agent Renewer N) unit := λ a,
  (Ok tt, mkAgent (mkRenewer (privateKey (rn a)) (keyPEM (rn a)) true) (on_disk a) (net a)).

Definition certWithChain (resp : SignWorkloadResponse) : string :=
  if str_empty (RespChain resp) then RespCertificate resp
  else RespCertificate resp +:+ RespChain resp.

(** [readCurrentSerial], on the text of the file. *)
Definition serial_of (text : string) (now : time) : string :=
  match pem_decode text with
  | None => ""
  | Some (_, der) =>
      match ParseCertificate der with
      | Err _ => ""
      | Ok cert => if time_after now (NotAfter cert) then "" else FormatInt (SerialNumber cert)
      end
  end.

Definition readCurrentSerial (path : string) (now : time) : M fs string := λ s,
  match ReadFile path s with
  | (Err _, s') => (Ok "", s')
  | (Ok text, s') => (Ok (serial_of text now), s')
  end.

Definition sign_request (pub serial : string) : SignWorkloadRequest :=
  mkSignWorkloadRequest pub (SPIFFEURI cfg) (CommonName cfg) (WorkloadDNS cfg) (WorkloadGroups cfg)
    (if 0 <? RequestedTTL cfg then int_seconds (RequestedTTL cfg) else 0) serial.

(** The write of the new certificate, with its key when [writeBundle]. *)
Definition install (resp : SignWorkloadResponse) (keyText : string) (writeBundle : bool)
    : M (agent Renewer N) unit :=
  if writeBundle then
    _ <-m wrapped "write cert+key bundle: "
      (disk_op (WriteBundleAtomic (CertOutputPath cfg) (certWithChain resp) (octal 6 4 4)
                  (KeyOutputPath cfg) keyText (octal 6 0 0)));;
    if negb (RotateKey cfg) then markKeyPersisted else mret tt
  else wrapped "write cert: "
    (disk_op (WriteAtomic (CertOutputPath cfg) (certWithChain resp) (octal 6 4 4))).

Definition SignOnce (c : cycle) : M (agent Renewer N) (time * time) :=
  k <-m wrapped "private key: " (keyForRenewal c);;
  let '(priv, keyText, writeBundle) := k in
  pub <-m lift (rwrap "marshal public key: " (marshalPublicKeyPEM (public_of priv)));;
  serial <-m disk_op (readCurrentSerial (CertOutputPath cfg) (now_read c));;
  resp <-m wrapped "sign workload cert: " (net_op (Client.SignWorkloadCert (sign_request pub serial)));;
  if str_empty (RespCertificate resp) then mfail (ErrNew "certd returned empty certificate") else
  install resp keyText writeBundle;;;
  ignore (_ <-m net_op (AdoptCert (RespURI resp) (RespSerial resp));; mret tt);;;
  mret (ValidAfter resp, ValidBefore resp).

(** ** The loop *)

Inductive run_outcome :=
  | Aborted (e : error)
  | Cancelled
  | Running.

(** [Run] through a sequence of rounds, with the waits it chose. *)
Fixpoint Run (cs : list cycle) (a : agent Renewer N) : run_outcome * list duration * agent Renewer N :=
  match cs with
  | [] => (Running, [], a)
  | c :: cs =>
      match SignOnce c a with
      | (Err e, a') =>
          match AbortOnSignError c e with
          | Some abort => (Aborted abort, [], a')
          | None =>
              if cancelled c then (Cancelled, [RetryBackoff cfg], a')
              else let '(o, ws, a'') := Run cs a' in (o, RetryBackoff cfg :: ws, a'')
          end
      | (Ok (validAfter, validBefore), a') =>
          let wait := nextRenewalDelay (RenewFraction cfg) (MinRenewInterval cfg)
                        validAfter validBefore (now_delay c) in
          if cancelled c then (Cancelled, [wait], a')
          else let '(o, ws, a'') := Run cs a' in (o, wait :: ws, a'')
      end
  end.
End Renewal.

(** ** The schedule *)

Definition fraction_ok (f : float64) : Prop :=
  0 < numer f < 2 ^ Z.of_nat (scale f) ∧ numer f < 2^53.

Lemma scale_duration_bounds d f :
  0 ≤ d ≤ 2^53 → fraction_ok f →
  0 ≤ scale_duration d f ≤ d ∧
  Z.abs (scale_duration d f * 2 ^ Z.of_nat (scale f) - d * numer f) < 2 * 2 ^ Z.of_nat (scale f).
Proof.
  intros Hd [Hf H53]. unfold scale_duration. rewrite (round53_exact d) by done.
  set (s := Z.of_nat (scale f)) in *. assert (0 < 2^s) as Hs by (apply Z.pow_pos_nonneg; lia).
  set (p := d * numer f). assert (0 ≤ p) as Hp by nia. assert (p ≤ d * 2^s) as Hpd by nia.
  set (e := Z.max 0 (Z.log2 p - 52)).
  assert (0 ≤ e ≤ s) as He.
  { split; [lia|]. destruct (Z.eq_dec p 0) as [E|Hne]; [unfold e; rewrite E; simpl; lia|].
    assert (p < 2^(53 + s)) as Hlt.
    { rewrite Z.pow_add_r by lia. unfold p in *.
      assert (d * numer f < d * 2^s) by (apply Z.mul_lt_mono_pos_l; nia). nia. }
    apply Z.log2_lt_pow2 in Hlt; lia. }
  pose proof (round53_near p Hp) as Hnear. fold e in Hnear.
  assert (2^e ≤ 2^s) by (apply Z.pow_le_mono_r; lia).
  assert (round53 p ≤ d * 2^s) as Hle.
  { apply round53_below; [lia|]. fold e. exists (d * 2^(s - e)).
    rewrite <- Z.mul_assoc, <- Z.pow_add_r by lia. do 2 f_equal. lia. }
  assert (0 ≤ round53 p) as H0.
  { unfold round53. apply Z.mul_nonneg_nonneg; [lia|]. apply Z.mul_nonneg_nonneg; [|lia].
    pose proof (Z.div_pos (Z.abs p) (2 ^ Z.max 0 (Z.log2 (Z.abs p) - 52)) ltac:(lia)
      ltac:(apply Z.pow_pos_nonneg; lia)). destruct (_ || _); lia. }
  rewrite Z.quot_div_nonneg by lia.
  pose proof (Z.div_mod (round53 p) (2^s) ltac:(lia)). pose proof (Z.mod_pos_bound (round53 p) (2^s) Hs).
  set (q := round53 p / 2^s) in *. fold p. split; [split; nia|]. nia.
Qed.

(** C34: the next renewal is never scheduled too early or too late.  For a
    certificate of at most 104 days and a clock within two centuries of the epoch,
    the wait is at least the configured minimum; the renewal then starts before
    the certificate expires, or after exactly the minimum; and unless the minimum
    or the past cut it, it starts within two nanoseconds of the configured fraction
    of the lifetime, whatever the floating-point rounding does. *)
Theorem renewal_delay_bounds f min validAfter validBefore now :
  fraction_ok f → 0 ≤ min → validAfter ≤ validBefore ≤ validAfter + 2^53 →
  Z.abs validAfter < 2^61 → Z.abs validBefore < 2^61 → Z.abs now < 2^61 →
  let wait := nextRenewalDelay f min validAfter validBefore now in
  let unit := 2 ^ Z.of_nat (scale f) in
  min ≤ wait ∧ (now + wait ≤ validBefore ∨ wait = min) ∧
  (min < wait →
   Z.abs ((now + wait - validAfter) * unit - (validBefore - validAfter) * numer f) < 2 * unit).
Proof.
  intros Hf Hmin Hv Ha Hb Hn. cbn zeta. unfold nextRenewalDelay, time_add.
  assert (∀ a b, Z.abs a < 2^62 → Z.abs b < 2^61 → time_sub a b = a - b) as Hsub
    by (intros a b ? ?; unfold time_sub; lia).
  rewrite (Hsub validBefore validAfter) by lia.
  destruct (scale_duration_bounds (validBefore - validAfter) f ltac:(lia) Hf) as [Hs He].
  set (r := scale_duration _ f) in *. rewrite Hsub by lia.
  destruct (Z.ltb_spec (validAfter + r - now) min); [lia|]. split; [lia|]. split; [lia|]. intros _.
  replace (now + (validAfter + r - now) - validAfter) with r by lia. exact He.
Qed.

(** The agent's default on a 24-hour certificate: renew after 14 h 24 min. *)
Lemma renewal_delay_bounds_witness :
  let T := 1700000000 * ns_per_sec in
  let wait := nextRenewalDelay DefaultRenewFraction DefaultMinRenewInterval T (T + 24 * hour) T in
  wait = 51840 * second ∧ T + wait ≤ T + 24 * hour.
Proof.
  intros T wait. assert (wait = 51840 * second) as E by (by vm_compute).
  assert (T + 51840 * second ≤ T + 24 * hour) as Hle by (by vm_compute).
  destruct (renewal_delay_bounds DefaultRenewFraction DefaultMinRenewInterval T (T + 24 * hour) T)
    as (_ & [H|H] & _).
  - split; [split|]; reflexivity.
  - discriminate.
  - split; discriminate.
  - reflexivity.
  - reflexivity.
  - reflexivity.
  - split; [exact E|exact H].
  - split; [exact E|]. rewrite E. exact Hle.
Defined.

(** ** One round, on the certificate file and the network

    [round]: what a call of [SignOnce] did.  Either it failed before it asked; or it
    asked with the serial read from the certificate file, and then the file is as
    before, unless the answer was written, which comes before its adoption is
    reported. *)
Section Rounds.
Context `{CryptoLib, X509Lib, KeyLib, TempNames} {N : Type} `{RestClient N}.
Context (cfg : Config).

Definition cert_file (a : agent Renewer N) : option file := files (on_disk a) !! CertOutputPath cfg.

(** The serial the agent presents at [now]. *)
Definition held_serial (a : agent Renewer N) (now : time) : string :=
  match cert_file a with Some f => serial_of (content f) now | None => "" end.

Inductive round (c : cycle) (a : agent Renewer N) : result (time * time) → agent Renewer N → Prop :=
  | round_idle e a' :
      net a' = net a → cert_file a' = cert_file a → round c a (Err e) a'
  | round_refused pub e a' rr :
      Client.SignWorkloadCert (sign_request cfg pub (held_serial a (now_read c))) (net a) = (rr, net a') →
      cert_file a' = cert_file a → round c a (Err e) a'
  | round_renewed pub resp n1 m r a' :
      Client.SignWorkloadCert (sign_request cfg pub (held_serial a (now_read c))) (net a) = (Ok resp, n1) →
      cert_file a' = Some (mkFile (certWithChain resp) m true) →
      AdoptCert (RespURI resp) (RespSerial resp) n1 = (r, net a') →
      round c a (Ok (ValidAfter resp, ValidBefore resp)) a'.

(** The output paths are usable. *)
Definition paths_ok : Prop :=
  is_temp (CertOutputPath cfg) = false ∧ is_temp (KeyOutputPath cfg) = false ∧
  CertOutputPath cfg ≠ KeyOutputPath cfg.
(** A step that leaves the network and the files alone. *)
Definition still (a a' : agent Renewer N) : Prop :=
  net a' = net a ∧ files (on_disk a') = files (on_disk a) ∧ reads_ok (on_disk a').

Lemma ensureKey_still c a r a' :
  reads_ok (on_disk a) → ensureKey cfg c a = (r, a') → still a a'.
Proof.
  intros Hr. unfold ensureKey. destruct (privateKey (rn a)); [by intros [= <- <-]|].
  destruct (ReadFile _ _) as [r1 d1] eqn:E. apply ReadFile_ok in E as (Hf & Hr1 & _); [|done].
  destruct r1 as [b|e].
  - destruct (parsePrivateKeyPEM b); by intros [= <- <-].
  - destruct (negb _); [by intros [= <- <-]|]. destruct (fresh_key _ _) as [[? ?]|?]; by intros [= <- <-].
Qed.

Lemma keyForRenewal_still c a r a' :
  reads_ok (on_disk a) → keyForRenewal cfg c a = (r, a') → still a a'.
Proof.
  intros Hr. unfold keyForRenewal. destruct (negb _); [by apply ensureKey_still|]. by intros [= <- <-].
Qed.

(** The certificate file after an installation: written, or as it was. *)
Lemma install_spec resp keyText wb a r a' :
  paths_ok → install cfg resp keyText wb a = (r, a') →
  net a' = net a ∧
  match r with
  | Ok _ => cert_file a' = Some (mkFile (certWithChain resp) (octal 6 4 4) true)
  | Err e => cert_file a' = cert_file a
  end.
Proof.
  intros (Hc & Hk & Hck). unfold install, cert_file. destruct wb.
  - unfold mbind. destruct (wrapped _ _ a) as [r1 a1] eqn:E1.
    apply wrapped_inv in E1 as (r0 & E1 & ->). unfold disk_op in E1.
    destruct (WriteBundleAtomic _ _ _ _ _ _ _) as [r2 d2] eqn:E2. injection E1 as <- <-.
    apply WriteBundleAtomic_phases in E2 as (h0 & h1 & h2 & _ & _ & _ & _ & Hr); [|done..].
    destruct r2 as [u|e]; simpl.
    + destruct (negb (RotateKey cfg)); intros [= <- <-]; simpl; (split; [done|]);
        by rewrite Hr, lookup_insert_eq.
    + intros [= <- <-]. simpl. split; [done|]. destruct Hr as [_ [Hr|Hr]]; rewrite Hr by done; [done|].
      by rewrite lookup_insert_ne.
  - intros E1. apply wrapped_inv in E1 as (r0 & E1 & ->). unfold disk_op in E1.
    destruct (WriteAtomic _ _ _ _) as [r2 d2] eqn:E2. injection E1 as <- <-.
    apply WriteAtomic_spec in E2 as (h1 & h2 & _ & _ & _ & Hr); [|done].
    destruct r2 as [u|e]; simpl; (split; [done|]).
    + by rewrite Hr, lookup_insert_eq.
    + destruct Hr as [_ Hr]. by rewrite Hr.
Qed.

Lemma SignOnce_round c a r a' :
  paths_ok → reads_ok (on_disk a) → SignOnce cfg c a = (r, a') → round c a r a'.
Proof.
  intros Hp Hr E. unfold SignOnce, mbind in E.
  destruct (wrapped _ (keyForRenewal cfg c) a) as [r1 a1] eqn:E1.
  apply wrapped_inv in E1 as (r0 & E1 & ->). apply keyForRenewal_still in E1 as (Hn1 & Hf1 & Hr1); [|done].
  assert (cert_file a1 = cert_file a) as Hc1 by (unfold cert_file; by rewrite Hf1).
  destruct r0 as [[[priv keyText] wb]|e]; simpl in E; [|injection E as <- <-; by apply round_idle].
  destruct (rwrap _ (marshalPublicKeyPEM _)) as [pub|e]; simpl in E; [|injection E as <- <-; by apply round_idle].
  unfold disk_op in E at 1. unfold readCurrentSerial in E.
  destruct (ReadFile (CertOutputPath cfg) (on_disk a1)) as [rf d2] eqn:E2.
  apply ReadFile_ok in E2 as (Hf2 & Hr2 & Hrf); [|done]. rewrite Hf1 in Hrf.
  set (a2 := mkAgent (rn a1) d2 (net a1)).
  assert (cert_file a2 = cert_file a) as Hc2 by (unfold cert_file; simpl; by rewrite Hf2, Hf1).
  assert (E' : ∃ s, s = held_serial a (now_read c) ∧
    match rf with Err _ => (Ok "", d2) | Ok text => (Ok (serial_of text (now_read c)), d2) end = (Ok s, d2)).
  { exists (held_serial a (now_read c)). split; [done|]. unfold held_serial, cert_file. rewrite Hrf.
    by destruct (files (on_disk a) !! CertOutputPath cfg). }
  destruct E' as (s & -> & E'). rewrite E' in E. clear E' Hrf. fold a2 in E.
  destruct (wrapped _ (net_op _) a2) as [r3 a3] eqn:E3.
  apply wrapped_inv in E3 as (r3' & E3 & ->). unfold net_op in E3. simpl in E3. rewrite Hn1 in E3.
  destruct (Client.SignWorkloadCert _ (net a)) as [rr n1] eqn:Es. injection E3 as <- <-.
  destruct rr as [resp|e]; simpl in E; cycle 1.
  { injection E as <- <-. eapply round_refused; [exact Es|done]. }
  destruct (str_empty (RespCertificate resp)) eqn:Ee.
  { injection E as <- <-. eapply round_refused; [exact Es|done]. }
  set (a3 := mkAgent (rn a1) d2 n1) in E.
  destruct (install cfg resp keyText wb a3) as [ri a4] eqn:Ei.
  apply install_spec in Ei as [Hn4 Hc4]; [|done]. destruct ri as [[]|e]; cycle 1.
  { injection E as <- <-. eapply round_refused; [rewrite Hn4; exact Es|]. by rewrite Hc4. }
  unfold ignore in E. destruct (net_op (AdoptCert (RespURI resp) (RespSerial resp)) a4) as [ra a5] eqn:Ea.
  unfold net_op in Ea. rewrite Hn4 in Ea.
  destruct (AdoptCert _ _ (net a3)) as [ra' n5] eqn:Ea'. injection Ea as <- <-.
  assert ((Ok (ValidAfter resp, ValidBefore resp), mkAgent (rn a4) (on_disk a4) n5) = (r, a')) as E'.
  { destruct ra'; exact E. }
  injection E' as <- <-. eapply round_renewed; [exact Es|exact Hc4|exact Ea'].
Qed.

Lemma install_reads resp keyText wb a r a' :
  install cfg resp keyText wb a = (r, a') →
  read_faults (on_disk (K:=Renewer) (N:=N) a') = read_faults (on_disk (K:=Renewer) (N:=N) a).
Proof.
  unfold install. destruct wb.
  - unfold mbind. destruct (wrapped _ _ a) as [r1 a1] eqn:E1.
    apply wrapped_inv in E1 as (r0 & E1 & ->). unfold disk_op in E1.
    pose proof (keeps_WriteBundleAtomic (CertOutputPath cfg) (certWithChain resp) (octal 6 4 4)
      (KeyOutputPath cfg) keyText (octal 6 0 0) (on_disk a)) as Hk.
    destruct (WriteBundleAtomic _ _ _ _ _ _ _) as [r2 d2]. injection E1 as <- <-.
    destruct r2 as [u|e]; simpl; [destruct (negb (RotateKey cfg))|]; by intros [= <- <-].
  - intros E1. apply wrapped_inv in E1 as (r0 & E1 & ->). unfold disk_op in E1.
    pose proof (keeps_WriteAtomic (CertOutputPath cfg) (certWithChain resp) (octal 6 4 4) (on_disk a)) as Hk.
    destruct (WriteAtomic _ _ _ _) as [r2 d2]. by injection E1 as <- <-.
Qed.

Lemma SignOnce_reads c a r a' : reads_ok (on_disk a) → SignOnce cfg c a = (r, a') → reads_ok (on_disk a').
Proof.
  intros Hr E. unfold SignOnce, mbind in E.
  destruct (wrapped _ (keyForRenewal cfg c) a) as [r1 a1] eqn:E1.
  apply wrapped_inv in E1 as (r0 & E1 & ->). apply keyForRenewal_still in E1 as (_ & _ & Hr1); [|done].
  destruct r0 as [[[priv keyText] wb]|e]; simpl in E; [|by injection E as <- <-].
  destruct (rwrap _ (marshalPublicKeyPEM _)) as [pub|e]; simpl in E; [|by injection E as <- <-].
  unfold disk_op in E at 1. unfold readCurrentSerial in E.
  destruct (ReadFile (CertOutputPath cfg) (on_disk a1)) as [rf d2] eqn:E2.
  apply ReadFile_ok in E2 as (_ & Hr2 & _); [|done].
  destruct rf as [text|e]; simpl in E;
  (destruct (wrapped _ (net_op _) _) as [r3 a3] eqn:E3;
   apply wrapped_inv in E3 as (r3' & E3 & ->); unfold net_op in E3; simpl in E3;
   destruct (Client.SignWorkloadCert _ _) as [rr n1]; injection E3 as <- <-;
   destruct rr as [resp|e']; simpl in E; [|by injection E as <- <-];
   destruct (str_empty (RespCertificate resp)); [by injection E as <- <-|];
   destruct (install _ _ _ _ _) as [ri a4] eqn:Ei; apply install_reads in Ei;
   destruct ri as [[]|e']; [|by injection E as <- <-; unfold reads_ok; rewrite Ei];
   unfold ignore, net_op in E; destruct (AdoptCert _ _ _) as [ra n5];
   destruct ra; injection E as <- <-; unfold reads_ok; simpl; by rewrite Ei).
Qed.
End Rounds.
