(* ===== verification/Workload.v ===== *)
(** * Workload: the agent and the renewal guard together

    The renewer of [Renew] as a client of the handlers of [ApiX509]: the network
    delivers a request, loses it, or loses its response, requests of other
    identities come in between, and disk and database fail as they like.  The
    theorem [agent_never_locked] says the guard never takes such an agent for a
    clone; [cleared_record_locks_agent] shows the one way it can. *)

From S2P Require Import Prelude GoText GoTime Policy Signer X509Engine Mtls Store Sql SqlStore SqlFacts Http Api ApiX509 Guard Files ToyCA Client Renew.

Section Network.
Context `{CryptoLib, X509Laws, PkixLib} {PS MS AS KS : Type}.
Context `{Policy.Store PS} `{Mtls.Store MS} `{ActiveCertLaws AS}.

Abbreviation W := (World AS KS) (only parsing).

(** The fate of one request of the agent. *)
Inductive fate := Lost | ReplyLost | Delivered.

Record delivery := mkDelivery {
  (** what others ask for before it arrives *)
  others : list (event (PS:=PS) (MS:=MS));
  d_srv : Server PS MS;
  d_inp : Inputs;
  d_req : Request;
  d_fate : fate;
}.

(** The network: the server behind it, and the fates to come. *)
Definition net_state : Type := W * list delivery.

Definition err_network : error := ErrOpaque "connection lost".

Definition transmit {A} (mk : delivery → event (PS:=PS) (MS:=MS)) (decode : Response → result A)
    : M net_state A := λ '(w, ds),
  match ds with
  | [] => (Err err_network, (w, []))
  | d :: ds =>
      let w1 := (run_list exec (others d) w).2 in
      match d_fate d with
      | Lost => (Err err_network, (w1, ds))
      | ReplyLost => (Err err_network, ((exec (mk d) w1).2, ds))
      | Delivered => let '(resp, w2) := exec (mk d) w1 in (decode resp, (w2, ds))
      end
  end.

(** The client's JSON objects are the server's, field by field. *)
Definition workload_body (q : SignWorkloadRequest) : signX509Request :=
  mkSignX509 (PublicKeyPEM q) (ReqURI q) (ReqCommonName q) (ReqDNS q) (ReqGroups q)
    (ReqTTLSeconds q) (PresentedSerial q).

Definition workload_reply (resp : Response) : result SignWorkloadResponse :=
  if negb (status resp =? StatusOK) then Err (ErrOpaque "unexpected status") else
  match payload resp with
  | BX509 x => Ok (mkSignWorkloadResponse (X509Certificate x) (Chain x) (X509Serial x) (Api.SPIFFEURI x)
                     (X509ValidAfter x) (X509ValidBefore x))
  | _ => Err (ErrOpaque "decode")
  end.

Definition adopt_reply (resp : Response) : result bool :=
  if negb (status resp =? StatusOK) then Err (ErrOpaque "unexpected status") else
  match payload resp with BAdopt b => Ok b | _ => Err (ErrOpaque "decode") end.

Definition sign_event (q : SignWorkloadRequest) (d : delivery) : event (PS:=PS) (MS:=MS) :=
  ESign (d_srv d) (d_inp d) (d_req d) (Ok (workload_body q)).
Definition adopt_event (q : AdoptRequest) (d : delivery) : event (PS:=PS) (MS:=MS) :=
  EAdopt (d_srv d) (d_inp d) (d_req d) (Ok (mkAdopt (AdoptURI q) (AdoptedSerial q))).

(** Only the two endpoints of the renewer are served here. *)
#[export] Instance network : RestClient net_state := {|
  post_workload _ q := transmit (sign_event q) workload_reply;
  post_adopt _ q := transmit (adopt_event q) adopt_reply;
  post_user _ _ := λ n, (Err err_network, n);
  get_bundle _ := λ n, (Err err_network, n);
  get_ca_keys _ := λ n, (Err err_network, n);
|}.

(** ** What a delivery may carry *)

(** The guard is active wherever the agent's request arrives, and what comes in
    between is well formed and concerns other identities. *)
Definition delivery_ok (id : string) (d : delivery) : Prop :=
  Forall event_ok (others d) ∧ Forall (elsewhere id) (others d) ∧
  activeCerts (d_srv d) = true ∧ clocks_ok (d_inp d) ∧ issuer_ok (d_srv d).

Definition unlocked (id : string) (t : gmap string ActiveCert) : Prop :=
  ∀ ac, t !! id = Some ac → locked ac = false.

(** The guard will not take a request with this serial for a clone's. *)
Definition serial_safe (id s : string) (t : gmap string ActiveCert) : Prop :=
  unlocked id t ∧ (s = "" ∨ in_step id s t).

Lemma change_elsewhere id (e : event (PS:=PS) (MS:=MS)) t resp t' : elsewhere id e → change e t resp t' → t' !! id = t !! id.
Proof.
  intros He Hc. destruct Hc as [e t resp Hst|srv inp r req t resp|srv inp r req t resp t' Hclk Heff]; simpl in He; [done|..].
  - by rewrite spec_adopt_lookup, bool_decide_false.
  - destruct Heff; rewrite ?spec_upsert_lookup, ?spec_lock_lookup, ?bool_decide_false by done; done.
Qed.

Lemma others_step id (es : list (event (PS:=PS) (MS:=MS))) (w : W) :
  rows_ok w → Forall event_ok es → Forall (elsewhere id) es →
  rows_ok (run_list exec es w).2 ∧
  ac_view (certs (run_list exec es w).2) !! id = ac_view (certs w) !! id.
Proof.
  intros Hok Hes Hel. revert w Hok. induction Hes as [|e es He _ IH]; intros w Hok; [done|].
  apply Forall_cons in Hel as [He' Hel]. cbn [run_list]. destruct (exec e w) as [resp w1] eqn:E.
  destruct (exec_change e w resp w1 He Hok E) as [Hok1 Hc].
  destruct (IH Hel w1) as [Hr1 Hr2].
  { split; [done|]. eapply change_view_ok; [apply Hok|done]. }
  destruct (run_list exec es w1) as [rs w2]. simpl in *. split; [done|].
  rewrite Hr2. by eapply change_elsewhere.
Qed.

Lemma safe_same_row id s t t' : t' !! id = t !! id → serial_safe id s t → serial_safe id s t'.
Proof.
  intros E [Hu Hs]. split; [intros ac; rewrite E; apply Hu|].
  destruct Hs as [->|[Hne (ac & Hac & Hl)]]; [by left|]. right. split; [done|]. exists ac. by rewrite E.
Qed.

Lemma in_step_unlocked id h t : in_step id h t → unlocked id t.
Proof. intros [_ (ac & Hac & Hl & _)] ac'. rewrite Hac. by intros [= <-]. Qed.

Lemma upsert_unlocked id cert prev t : unlocked id t → unlocked id (spec_upsert (rotation id cert prev) t).
Proof.
  intros Hu ac. rewrite spec_upsert_lookup, bool_decide_true by done. intros [= <-].
  destruct (t !! id) as [old|] eqn:Ho; [by apply (Hu old)|done].
Qed.

(** The agent's signing request at the server: the serial it presented stays safe,
    and if the answer is a certificate, so is the certificate's. *)
Lemma sign_request_safe id q d (w : W) resp w' :
  delivery_ok id d → ReqURI q = id → rows_ok w → serial_safe id (PresentedSerial q) (ac_view (certs w)) →
  exec (sign_event q d) w = (resp, w') →
  rows_ok w' ∧ serial_safe id (PresentedSerial q) (ac_view (certs w')) ∧
  (status resp = StatusOK → ∃ issuer cert der, resp = x509_response issuer cert id ∧
     ParseCertificate der = Ok cert ∧ in_step id (FormatInt (SerialNumber cert)) (ac_view (certs w'))).
Proof.
  intros (_ & _ & Ha & Hck & Hi) Hid Hok [Hu Hs] E.
  assert (event_ok (sign_event q d)) as He by (by split_and!).
  destruct (exec_change _ w resp w' He Hok E) as [Hok' Hc].
  assert (rows_ok w') as Hok1 by (split; [done|]; eapply change_view_ok; [apply Hok|done]).
  assert (presents (sign_event q d) id (PresentedSerial q) (clock (d_inp d) AtGuard)) as Hp by (by split_and!).
  split; [done|]. clear E Hok Hok' Hok1. revert Hu Hs Hc.
  generalize (ac_view (certs w)), (ac_view (certs w')). intros t t' Hu Hs Hc. split.
  - destruct Hs as [Hs|Hs]; cycle 1.
    { pose proof (in_step_renew _ _ _ _ _ _ _ false Hp Hs Hc) as Hin.
      split; [by eapply in_step_unlocked|by right]. }
    split; [|by left]. inversion Hc as [e0 t0 r0 Hst|srv inp r req0 t0 r0|srv inp r req t0 r0 t1 Hclk Heff]; [by subst|].
    subst srv inp r req t0 r0 t1. simpl in Heff. rewrite Hid, Hs in Heff.
    destruct Heff as [issuer cert prev rest _ _ _ _|r0 cert prev rest _ _ _ _|r0 ex Hst Hex Hj|r0 Hst];
      [by apply upsert_unlocked..| |done].
    exfalso. unfold judge in Hj. simpl in Hj. repeat case_match; done.
  - intros Hst. inversion Hc as [e0 t0 r0 Hne|srv inp r req0 t0 r0|srv inp r req t0 r0 t1 Hclk Heff];
      [by destruct (Hne _ _ _ Hp)|].
    subst srv inp r req t0 r0 t1. simpl in Heff. rewrite Hid in Heff. clear Hc.
    destruct Heff as [issuer cert prev rest Hn Had Hrow [der Hparse]|r0 cert prev rest Hst' _ _ _|r0 ex Hst' _ _|r0 Hst'];
      [|by rewrite Hst' in Hst|done|done].
    exists issuer, cert, der. split_and!; [done|done|].
    apply RandomSerial_range in Hn. split; [apply FormatInt_nonempty; lia|].
    rewrite spec_upsert_lookup, bool_decide_true by done. eexists. split; [done|].
    destruct (t !! id) as [old|] eqn:Ho; (split; [|by left]); [by apply (Hu old)|done].
Qed.

(** ** A call over the network *)

Lemma transmit_cases {A} mk (decode : Response → result A) w ds r w' ds' :
  transmit mk decode (w, ds) = (r, (w', ds')) →
  (ds = [] ∧ ds' = [] ∧ w' = w ∧ ∃ e, r = Err e) ∨
  ∃ d, ds = d :: ds' ∧
    ((w' = (run_list exec (others d) w).2 ∧ ∃ e, r = Err e) ∨
     ∃ resp, exec (mk d) (run_list exec (others d) w).2 = (resp, w') ∧
       ((∃ e, r = Err e) ∨ r = decode resp)).
Proof.
  destruct ds as [|d ds]; simpl; [intros [= <- <- <-]; left; by split_and!; [..|eexists]|].
  intros E. right. exists d. generalize ((run_list exec (others d) w).2) as w1, E. clear E. intros w1 E.
  destruct (d_fate d).
  - injection E as <- <- <-. split; [done|]. left. split; [done|by eexists].
  - injection E as <- <- <-. split; [done|]. right. destruct (exec (mk d) w1) as [resp w2].
    exists resp. split; [done|]. left. by eexists.
  - destruct (exec (mk d) w1) as [resp w2] eqn:Ex. injection E as <- <- <-. split; [done|]. right.
    exists resp. by split; [|right].
Qed.

(** What a certificate in a reply is worth to the agent. *)
Definition reply_ok (id : string) (t : gmap string ActiveCert) (resp : SignWorkloadResponse) : Prop :=
  ∃ cert der, ParseCertificate der = Ok cert ∧
    RespCertificate resp = pem_encode "CERTIFICATE" (Raw cert) ∧
    RespSerial resp = FormatInt (SerialNumber cert) ∧ RespURI resp = id ∧
    in_step id (FormatInt (SerialNumber cert)) t.

Lemma sign_call_safe id q w ds rr w' ds' :
  ReqURI q = id → rows_ok w → Forall (delivery_ok id) ds → serial_safe id (PresentedSerial q) (ac_view (certs w)) →
  Client.SignWorkloadCert q (w, ds) = (rr, (w', ds')) →
  rows_ok w' ∧ Forall (delivery_ok id) ds' ∧ serial_safe id (PresentedSerial q) (ac_view (certs w')) ∧
  (∀ resp, rr = Ok resp → reply_ok id (ac_view (certs w')) resp).
Proof.
  intros Hid Hok Hds Hs E. apply wrapped_inv in E as (r0 & E & ->).
  apply transmit_cases in E as [(-> & -> & -> & e & ->)|(d & -> & E)]; [done|].
  apply Forall_cons in Hds as [Hd Hds].
  pose proof (others_step id (others d) w Hok (proj1 Hd) (proj1 (proj2 Hd))) as [Hok1 Hv].
  assert (serial_safe id (PresentedSerial q) (ac_view (certs (run_list exec (others d) w).2))) as Hs1
    by (by eapply safe_same_row).
  destruct E as [(-> & e & ->)|(resp & E & Hr)]; [by split_and!|].
  destruct (sign_request_safe id q d _ _ _ Hd Hid Hok1 Hs1 E) as (Hok2 & Hs2 & Hc).
  do 3 (split; [done|]). intros resp' Hr'. destruct Hr as [[e ->]| ->]; [done|].
  unfold workload_reply in Hr'. destruct (Z.eqb_spec (status resp) StatusOK) as [Hst|]; [|done].
  destruct (Hc Hst) as (issuer & cert & der & -> & Hp & Hin). cbn in Hr'. injection Hr' as <-.
  by exists cert, der.
Qed.

Lemma adopt_call_safe id s w ds rr w' ds' :
  rows_ok w → Forall (delivery_ok id) ds → in_step id s (ac_view (certs w)) →
  AdoptCert id s (w, ds) = (rr, (w', ds')) →
  rows_ok w' ∧ Forall (delivery_ok id) ds' ∧ in_step id s (ac_view (certs w')).
Proof.
  intros Hok Hds Hin E. apply wrapped_inv in E as (r0 & E & _).
  apply transmit_cases in E as [(-> & -> & -> & _)|(d & -> & E)]; [done|].
  apply Forall_cons in Hds as [Hd Hds].
  pose proof (others_step id (others d) w Hok (proj1 Hd) (proj1 (proj2 Hd))) as [Hok1 Hv].
  assert (in_step id s (ac_view (certs (run_list exec (others d) w).2))) as Hin1.
  { destruct Hin as [Hne (ac & Hac & Hl)]. split; [done|]. exists ac. by rewrite Hv. }
  destruct E as [(-> & _)|(resp & E & _)]; [by split_and!|].
  destruct (exec_change _ _ _ _ (proj1 (proj2 (proj2 Hd)) : event_ok (adopt_event (mkAdoptRequest id s) d)) Hok1 E)
    as [Hok' Hc].
  split; [split; [done|eapply change_view_ok; [apply Hok1|done]]|]. split; [done|].
  by eapply (in_step_adopt id s (adopt_event (mkAdoptRequest id s) d)).
Qed.
End Network.

(** ** The agent over time *)
Section Agent.
Context `{CryptoLib, X509Lib, !X509Laws, !PemLaws, PkixLib, KeyLib, TempNames} {PS MS AS KS : Type}.
Context `{Policy.Store PS} `{Mtls.Store MS} `{ActiveCertLaws AS}.
Context (cfg : Config).

Abbreviation wagent := (agent Renewer (net_state (PS:=PS) (MS:=MS) (AS:=AS) (KS:=KS))) (only parsing).
Abbreviation id := (SPIFFEURI cfg) (only parsing).

Lemma serial_of_later text now now' :
  now ≤ now' → serial_of text now' = serial_of text now ∨ serial_of text now' = "".
Proof.
  intros Hn. unfold serial_of. destruct (pem_decode text) as [[ty der]|]; [|by left].
  destruct (ParseCertificate der) as [c|]; [|by left]. unfold time_after.
  destruct (Z.ltb_spec (NotAfter c) now); destruct (Z.ltb_spec (NotAfter c) now'); auto. lia.
Qed.

(** A file that holds a server's reply shows that reply's serial, until it expires. *)
Lemma serial_of_reply uri t resp now :
  reply_ok uri t resp → serial_of (certWithChain resp) now = RespSerial resp ∨ serial_of (certWithChain resp) now = "".
Proof.
  intros (cert & der & Hp & Hc & -> & _ & _). unfold serial_of, certWithChain. rewrite Hc.
  assert (∀ rest, pem_decode (pem_encode "CERTIFICATE" (Raw cert) +:+ rest) = Some ("CERTIFICATE", Raw cert)) as Hd
    by (intros; apply pem_first).
  assert (pem_encode "CERTIFICATE" (Raw cert) +:+ "" = pem_encode "CERTIFICATE" (Raw cert)) as Hnil
    by apply str_app_nil_r.
  assert (pem_decode (if str_empty (RespChain resp) then pem_encode "CERTIFICATE" (Raw cert)
    else pem_encode "CERTIFICATE" (Raw cert) +:+ RespChain resp) = Some ("CERTIFICATE", Raw cert)) as ->.
  { destruct (str_empty _); [rewrite <- Hnil|]; apply Hd. }
  rewrite <- (parse_raw _ _ Hp) in Hp. rewrite Hp. destruct (time_after _ _); auto.
Qed.

(** The agent at [now]: its database rows, its network, its disk, and the serial it
    would present. *)
Record safe (now : time) (a : wagent) : Prop := mkSafe {
  s_rows : rows_ok (net a).1;
  s_net : Forall (delivery_ok id) (net a).2;
  s_disk : reads_ok (on_disk a);
  s_serial : serial_safe id (held_serial cfg a now) (ac_view (certs (net a).1));
}.

Lemma serial_safe_weaken s s' t : s' = s ∨ s' = "" → serial_safe id s t → serial_safe id s' t.
Proof. intros [-> | ->] [Hu Hs]; split; auto. Qed.

Lemma held_later (a : wagent) now now' :
  now ≤ now' → held_serial cfg a now' = held_serial cfg a now ∨ held_serial cfg a now' = "".
Proof. intros Hn. unfold held_serial. destruct (cert_file cfg a); [by apply serial_of_later|by left]. Qed.

Lemma safe_later a now now' : now ≤ now' → safe now a → safe now' a.
Proof.
  intros Hn []. constructor; [done..|]. eapply serial_safe_weaken; [by apply held_later|done].
Qed.

Lemma held_file (a a' : wagent) now :
  cert_file cfg a' = cert_file cfg a → held_serial cfg a' now = held_serial cfg a now.
Proof. intros E. unfold held_serial. by rewrite E. Qed.

Lemma round_safe c a r a' :
  reads_ok (on_disk a') → safe (now_read c) a → round cfg c a r a' → safe (now_read c) a'.
Proof.
  intros Hr' [Hrows Hnet _ Hser] Hround. destruct (net a) as [w ds] eqn:En. simpl in *.
  destruct Hround as [e a' En' Hf|pub e a' rr Es Hf|pub resp n1 m r a' Es Hf Ea].
  - constructor; [by rewrite En', En..|done|]. rewrite En', En. by rewrite (held_file _ _ _ Hf).
  - rewrite En in Es. destruct (net a') as [w' ds'] eqn:En'.
    destruct (sign_call_safe id (sign_request cfg pub (held_serial cfg a (now_read c))) w ds rr w' ds' eq_refl Hrows Hnet Hser Es) as (? & ? & Hs & _).
    constructor; [by rewrite En'..|done|]. rewrite En'. by rewrite (held_file _ _ _ Hf).
  - rewrite En in Es. destruct n1 as [w1 ds1]. destruct (net a') as [w' ds'] eqn:En'.
    destruct (sign_call_safe id (sign_request cfg pub (held_serial cfg a (now_read c))) w ds _ w1 ds1 eq_refl Hrows Hnet Hser Es) as (Hr1 & Hn1 & _ & Hreply).
    specialize (Hreply resp eq_refl). pose proof Hreply as (cert & der & _ & _ & Hs & Hu & Hin).
    rewrite Hu, <- Hs in *.
    destruct (adopt_call_safe id _ _ _ _ _ _ Hr1 Hn1 Hin Ea) as (Hr2 & Hn2 & Hin2).
    constructor; [by rewrite En'..|done|]. rewrite En'. unfold held_serial. rewrite Hf. simpl.
    eapply serial_safe_weaken; [by eapply serial_of_reply|]. split; [by eapply in_step_unlocked|by right].
Qed.

(** The clock does not go back between the rounds. *)
Fixpoint clock_from (now : time) (cs : list cycle) : Prop :=
  match cs with [] => True | c :: cs => now ≤ now_read c ∧ clock_from (now_read c) cs end.

Lemma Run_safe now cs a o ws a' :
  paths_ok cfg → clock_from now cs → safe now a → Run cfg cs a = (o, ws, a') → ∃ now', now ≤ now' ∧ safe now' a'.
Proof.
  intros Hp. revert now a o ws a'. induction cs as [|c cs IH]; intros now a o ws a' Hc Hs.
  { intros [= <- <- <-]. by exists now. }
  destruct Hc as [Hn Hc]. apply (safe_later _ _ _ Hn) in Hs. simpl.
  destruct (SignOnce cfg c a) as [r a1] eqn:E.
  pose proof (SignOnce_reads cfg c a r a1 (s_disk _ _ Hs) E) as Hr.
  apply SignOnce_round in E; [|done|apply Hs].
  pose proof (round_safe c a r a1 Hr Hs E) as Hs1.
  assert (∀ f, (let '(o0, ws0, a0) := Run cfg cs a1 in (o0, f :: ws0, a0)) = (o, ws, a') →
    ∃ now', now ≤ now' ∧ safe now' a') as Hrest.
  { intros f. destruct (Run cfg cs a1) as [[o1 ws1] a2] eqn:Er. intros [= <- <- <-].
    destruct (IH _ _ _ _ _ Hc Hs1 Er) as (now' & ? & ?). exists now'. split; [lia|done]. }
  assert (∃ now', now ≤ now' ∧ safe now' a1) as Hstop by (by exists (now_read c)).
  destruct r as [[va vb]|e]; [|destruct (AbortOnSignError c e)]; try destruct (cancelled c);
    try (by intros [= <- <- <-]); apply Hrest.
Qed.

(** C11: an agent is never locked out by its own renewals.  The renewer runs for any
    number of rounds against the server with its guard active, starting either
    enrolled with the certificate on its disk or with no record of its identity.
    Whatever is lost on the way, request or response, whatever other identities ask
    for in between, whatever the database loses, and whatever system call of the
    agent's disk writes fails (so that a certificate the server recorded never
    reaches the file): as long as the files that exist can be read and the clock does
    not go back, the guard never locks the identity, and at every later time the
    serial the agent presents is none, or one the guard admits. *)
Theorem agent_never_locked now cs (a : wagent) o ws a' :
  paths_ok cfg → clock_from now cs → reads_ok (on_disk a) → rows_ok (net a).1 → Forall (delivery_ok id) (net a).2 →
  (held_serial cfg a now = "" ∧ unlocked id (ac_view (certs (net a).1)) ∨
   in_step id (held_serial cfg a now) (ac_view (certs (net a).1))) →
  Run cfg cs a = (o, ws, a') →
  unlocked id (ac_view (certs (net a').1)) ∧
  ∃ now', now ≤ now' ∧ ∀ later, now' ≤ later →
    held_serial cfg a' later = "" ∨
    ∃ prev, admits (ac_view (certs (net a').1) !! id) (held_serial cfg a' later) later prev.
Proof.
  intros Hp Hc Hr Hrows Hnet Hin E.
  assert (safe now a) as Hs.
  { constructor; [done..|]. destruct Hin as [[-> Hu]|Hin]; (split; [|auto]); [done|by eapply in_step_unlocked]. }
  destruct (Run_safe _ _ _ _ _ _ Hp Hc Hs E) as (now' & Hn & Hs'). split; [apply Hs'|].
  exists now'. split; [done|]. intros later Hl.
  destruct (s_serial _ _ (safe_later _ _ _ Hl Hs')) as [Hu [Hh|Hh]]; [by left|right].
  destruct Hh as [Hne (ac & Hac & Hlk & Hser)].
  destruct (in_step_rotates id _ ac later Hne Hlk Hser) as [na Hj]. exists (held_serial cfg a' later, na).
  rewrite Hac. by left.
Qed.
End Agent.

(** ** Instances: the workload of [GuardExamples] renews over a lossy network and a
    failing disk *)
Module WorkloadExamples.
Import FilesExamples.

(** An encoding whose first block can be told from what follows. *)
#[local] Instance crypto : CryptoLib := {|
  public_of k := mkPublicKey (priv_algo k) (priv_bytes k);
  raw_sign k m := Ok m;
  can_sign k := true;
  pem_decode s := '(ty, rest) ← unesc s; '(b, _) ← unesc rest; Some (ty, b);
  pem_encode ty b := esc ty +:+ esc b;
  ParsePKCS8PrivateKey b := Ok (mkPrivateKey Ed25519 b);
|}.
#[local] Existing Instance GuardExamples.lib.
#[local] Existing Instance GuardExamples.lib_laws.
#[local] Existing Instance GuardExamples.pkix.
#[local] Instance keys : KeyLib := {|
  MarshalPKIXPublicKey k := Ok (key_bytes k);
  MarshalPKCS8PrivateKey k := Ok (priv_bytes k);
|}.

#[local] Instance pem_laws : PemLaws.
Proof.
  split.
  - intros ty b rest. cbn -[String.append]. rewrite str_app_assoc, unesc_esc. cbn -[String.append].
    by rewrite unesc_esc.
  - intros der c. simpl. destruct (ParseInt der); [|done]. by intros [= <-].
Qed.

Definition cfg : Config :=
  mkConfig true GuardExamples.web "" [] KeyEd25519 false [] "/run/cert.pem" "/run/key.pem" 0
    DefaultRenewFraction DefaultMinRenewInterval DefaultRetryBackoff.

Definition message (n : nat) (f : fate) : delivery (PS:=Policy.InMemoryStore.t) (MS:=Mtls.InMemoryStore.t) :=
  mkDelivery [] GuardExamples.srv (GuardExamples.inp n) GuardExamples.req f.
Definition cycle_at (t : time) : cycle := mkCycle (Ok (mkPrivateKey Ed25519 "k")) t t (λ _, None) false.

(** The first certificate's adoption is lost, then a reply, then a disk write fails,
    then all goes well. *)
Definition fates : list delivery :=
  [message 1 Delivered; message 1 Lost; message 2 ReplyLost; message 3 Delivered; message 4 Delivered; message 4 Delivered].
Abbreviation workload := (agent Renewer (net_state (PS:=Policy.InMemoryStore.t) (MS:=Mtls.InMemoryStore.t)
  (AS:=db (list ActiveCertRow)) (KS:=unit))) (only parsing).
Definition start (script : list disk_fault) (ds : list delivery) : workload :=
  mkAgent (mkRenewer None "" false) (mkFs ∅ script [] []) (GuardExamples.w0, ds).

Definition rounds (n : nat) : list cycle := repeat (cycle_at GuardExamples.T) n.
Definition result_of (a : workload) n := Run cfg (rounds n) a.

Definition rocky := start (repeat DOk 12 ++ [DFail (ErrNew "EIO") 0]) fates.

Lemma events_ok n f : delivery_ok GuardExamples.web (message n f).
Proof.
  split; [constructor|]. split; [constructor|]. split; [done|].
  split; [split; split; by vm_compute|]. intros c [= <-]. by vm_compute.
Qed.

Lemma start_rows : rows_ok GuardExamples.w0.
Proof.
  split; [by repeat constructor|]. intros id ac Hac.
  assert (ac_view (certs GuardExamples.w0) = ∅) as E by done. by rewrite E, lookup_empty in Hac.
Qed.

(** Four rounds, two of them failures; the record and the disk agree on serial 4. *)
Lemma agent_never_locked_witness :
  held_serial cfg (result_of rocky 4).2 GuardExamples.T = "4" ∧
  unlocked GuardExamples.web (ac_view (certs (net (result_of rocky 4).2).1)).
Proof.
  split; [by vm_compute|].
  destruct (result_of rocky 4) as [[o ws] a'] eqn:E.
  refine (proj1 (agent_never_locked cfg GuardExamples.T (rounds 4) rocky o ws a' _ _ _ _ _ _ E)).
  - split; [by vm_compute|]. split; [by vm_compute|done].
  - repeat (split; [by vm_compute|]). exact I.
  - reflexivity.
  - exact start_rows.
  - do 6 (apply Forall_cons; split; [apply events_ok|]). by apply Forall_nil.
  - left. split; [by vm_compute|]. intros ac Hac.
    assert (ac_view (certs (net rocky).1) = ∅) as E0 by done. by rewrite E0, lookup_empty in Hac.
Defined.

(** The database loses the record of an agent that holds a certificate; the reply to
    its next renewal is lost; the renewal after that locks it: the record made in
    between has no previous serial, so the one the agent still holds is unknown. *)
Definition enrolled : workload := (result_of (start [] [message 1 Delivered; message 1 Delivered]) 1).2.
Definition cleared : workload :=
  mkAgent (rn enrolled) (on_disk enrolled) (GuardExamples.w0, [message 2 ReplyLost; message 3 Delivered]).

Lemma cleared_record_locks_agent :
  held_serial cfg cleared GuardExamples.T = "1" ∧
  locked_row GuardExamples.web GuardExamples.T "1" (ac_view (certs (net (result_of cleared 2).2).1)).
Proof. vm_compute. split; [done|]. eexists. by split_and!. Qed.
End WorkloadExamples.
