(* ===== verification/UserCert.v ===== *)
(** * UserCert: the agent's SSH user certificate, and the client configuration

    Models [internal/agent/renew/usercert.go] and [internal/agent/output/sshconfig.go].
    Unlike the workload renewer, this one writes a fresh key to disk before it asks
    for a certificate: [user_key_durable] is what that buys. *)

From S2P Require Import Prelude GoText GoDuration GoTime Signer SshEngine Files Client Renew.

(** What the code calls in [golang.org/x/crypto/ssh]. *)
Class SshKeyLib := {
  KeySigner : Type;
  (** [ssh.NewSignerFromKey] of an Ed25519 key *)
  NewSignerFromKey : PrivateKey → result KeySigner;
  (** [ssh.ParsePrivateKey] *)
  ParsePrivateKey : string → result KeySigner;
  (** [rk.PrivateKey()], for signers that have the method *)
  raw_private_key : KeySigner → option PrivateKey;
  signer_public : KeySigner → SshKey;
  (** [ssh.MarshalPrivateKey] followed by [pem.EncodeToMemory] *)
  MarshalPrivateKey : PrivateKey → result string;
  MarshalAuthorizedKey : SshKey → string;
}.

(** A key written in the OpenSSH format reads back as the same key, and a signer
    that gives its key away gives the one it signs with. *)
Class SshKeyLaws `{SshKeyLib} := {
  parse_marshalled k pem s :
    MarshalPrivateKey k = Ok pem → NewSignerFromKey k = Ok s →
    ∃ s', ParsePrivateKey pem = Ok s' ∧ signer_public s' = signer_public s;
  raw_key_signer s k s' :
    raw_private_key s = Some k → NewSignerFromKey k = Ok s' → signer_public s' = signer_public s;
}.

Record UserCertConfig := mkUserCertConfig {
  UserHasSigner : bool;
  UserKeyID : string;
  UserPrincipals : list string;
  UserCertPath : string;
  UserKeyPath : string;
  UserExtensions : gmap string string;
  UserCriticalOptions : gmap string string;
  UserTTL : duration;
  UserRenewFraction : float64;
  UserMinRenewInterval : duration;
  UserRetryBackoff : duration;
}.

Definition NewUserCertRenewer (cfg : UserCertConfig) : result UserCertConfig :=
  reject negb (UserHasSigner cfg) with ErrNew "signer is required";;
  reject str_empty (UserKeyID cfg) with ErrNew "KeyID is required";;
  reject bool_decide (UserPrincipals cfg = []) with ErrNew "at least one Principal is required";;
  reject str_empty (UserCertPath cfg) with ErrNew "CertOutputPath is required";;
  reject str_empty (UserKeyPath cfg) with ErrNew "KeyOutputPath is required";;
  s <-r scheduling (UserRenewFraction cfg) (UserMinRenewInterval cfg) (UserRetryBackoff cfg);;
  let '(fraction, min, retry) := s in
  Ok (mkUserCertConfig true (UserKeyID cfg) (UserPrincipals cfg) (UserCertPath cfg) (UserKeyPath cfg)
    (UserExtensions cfg) (UserCriticalOptions cfg) (UserTTL cfg) fraction min retry).

(** [UserCertRenewer]: the cached key. *)
Record UserCertRenewer := mkUserCertRenewer { user_key : option PrivateKey }.

(** What the outside contributes to a round: the key generator, the clock, and
    whether the context is cancelled during the wait. *)
Record user_cycle := mkUserCycle {
  user_gen : result PrivateKey; user_now : time; user_cancelled : bool }.

Definition ends_with_newline (s : string) : bool :=
  match str_rev s with String c _ => bool_decide (c = newline) | "" => false end.

Section UserRenewal.
Context `{SshKeyLib, TempNames} {N : Type} `{RestClient N}.
Context (cfg : UserCertConfig).

Abbreviation A := (agent UserCertRenewer N) (only parsing).

Definition signerToEd25519 (s : KeySigner) : option PrivateKey :=
  match raw_private_key s with
  | Some k => if bool_decide (priv_algo k = Ed25519) then Some k else None
  | None => None
  end.

Definition remember (k : PrivateKey) : M A unit := λ a,
  (Ok tt, mkAgent (mkUserCertRenewer (Some k)) (on_disk a) (net a)).

(** A fresh key, on disk before anyone sees it. *)
Definition create_key (c : user_cycle) : M A KeySigner :=
  priv <-m lift (rwrap "generate ed25519 key: " (user_gen c));;
  pem <-m lift (rwrap "marshal ssh key: " (MarshalPrivateKey priv));;
  _ <-m wrapped ("write ssh key " +:+ UserKeyPath cfg +:+ ": ")
          (disk_op (WriteAtomic (UserKeyPath cfg) pem (octal 6 0 0)));;
  _ <-m remember priv;;
  lift (NewSignerFromKey priv).

Definition ensure_user_key (c : user_cycle) : M A KeySigner := λ a,
  match user_key (rn a) with
  | Some k => (NewSignerFromKey k, a)
  | None =>
      match disk_op (ReadFile (UserKeyPath cfg)) a with
      | (Ok b, a1) =>
          match ParsePrivateKey b with
          | Err e => (Err (ErrWrap ("parse existing ssh key " +:+ UserKeyPath cfg +:+ ": ") e ""), a1)
          | Ok signer =>
              (Ok signer, match signerToEd25519 signer with
                          | Some priv => (remember priv a1).2
                          | None => a1
                          end)
          end
      | (Err e, a1) =>
          if negb (err_is e "fs.ErrNotExist")
          then (Err (ErrWrap ("read ssh key " +:+ UserKeyPath cfg +:+ ": ") e ""), a1)
          else create_key c a1
      end
  end.

Definition user_request (pub : string) : SignUserRequest :=
  mkSignUserRequest pub (UserKeyID cfg) (UserPrincipals cfg) [] (UserExtensions cfg)
    (UserCriticalOptions cfg) (if 0 <? UserTTL cfg then int_seconds (UserTTL cfg) else 0).

(** The certificate line as written: newline-terminated. *)
Definition cert_line (cert : string) : string :=
  if str_empty cert || ends_with_newline cert then cert else cert +:+ nl.

Definition SignUserOnce (c : user_cycle) : M A (time * time) :=
  signer <-m wrapped "ssh private key: " (ensure_user_key c);;
  resp <-m wrapped "sign user cert: "
    (net_op (Client.SignUserCert (user_request (MarshalAuthorizedKey (signer_public signer)))));;
  if str_empty (UserCertificate resp) then mfail (ErrNew "certd returned empty certificate") else
  wrapped "write cert: " (disk_op (WriteAtomic (UserCertPath cfg) (cert_line (UserCertificate resp)) (octal 6 4 4)));;;
  mret (UserValidAfter resp, UserValidBefore resp).

(** [Run]: the waits chosen, and whether the context was cancelled. *)
Fixpoint RunUser (cs : list user_cycle) (a : A) : bool * list duration * A :=
  match cs with
  | [] => (false, [], a)
  | c :: cs =>
      let '(r, a') := SignUserOnce c a in
      let wait := match r with
                  | Err _ => UserRetryBackoff cfg
                  | Ok (va, vb) =>
                      nextRenewalDelay (UserRenewFraction cfg) (UserMinRenewInterval cfg) va vb (user_now c)
                  end in
      if user_cancelled c then (true, [wait], a')
      else let '(o, ws, a'') := RunUser cs a' in (o, wait :: ws, a'')
  end.
End UserRenewal.

(** ** The key is on disk before it is used *)

Section Durable.
Context `{SshKeyLaws, TempNames} {N : Type} `{RestClient N}.
Context (cfg : UserCertConfig).

(** The private half of [pub] is in the key file. *)
Definition key_on_disk (d : disk) (pub : SshKey) : Prop :=
  ∃ f s, d !! UserKeyPath cfg = Some f ∧ ParsePrivateKey (content f) = Ok s ∧ signer_public s = pub.

Definition cache_ok (a : agent UserCertRenewer N) : Prop := ∀ k s,
  user_key (rn a) = Some k → NewSignerFromKey k = Ok s → key_on_disk (files (on_disk a)) (signer_public s).

Definition user_paths_ok : Prop :=
  is_temp (UserCertPath cfg) = false ∧ is_temp (UserKeyPath cfg) = false ∧ UserCertPath cfg ≠ UserKeyPath cfg.

(** An existing key file stays as it is. *)
Definition key_kept (d d' : disk) : Prop := ∀ f, d !! UserKeyPath cfg = Some f → d' !! UserKeyPath cfg = Some f.

Lemma key_kept_on_disk d d' pub : key_kept d d' → key_on_disk d pub → key_on_disk d' pub.
Proof. intros Hk (f & s & Hf & Hs). exists f, s. split; [by apply Hk|done]. Qed.

(** One step of a renewer: [P] is what it promises of its result. *)
Definition step_ok {B} (P : B → disk → Prop) (a : agent UserCertRenewer N) (r : result B) a' : Prop :=
  cache_ok a' ∧ reads_honest (on_disk a') ∧ key_kept (files (on_disk a)) (files (on_disk a')) ∧
  ∀ b, r = Ok b → P b (files (on_disk a')).

Lemma create_key_ok c a r a' :
  is_temp (UserKeyPath cfg) = false → cache_ok a → user_key (rn a) = None → reads_honest (on_disk a) →
  files (on_disk a) !! UserKeyPath cfg = None →
  create_key cfg c a = (r, a') →
  net a' = net a ∧ step_ok (λ s d, key_on_disk d (signer_public s)) a r a'.
Proof.
  intros Hp Hc Hk Hr Hnone E. unfold create_key, mbind, lift in E.
  assert (∀ e, step_ok (λ s d, key_on_disk d (signer_public s)) a (Err e) a) as Hsame.
  { intros e. unfold step_ok. split_and!; [done|done|by intros f|done]. }
  destruct (rwrap _ (user_gen c)) as [priv|e]; [|injection E as <- <-; by split].
  destruct (MarshalPrivateKey priv) as [pem|e] eqn:Em; simpl in E;
    [|injection E as <- <-; by split].
  destruct (wrapped _ _ a) as [r1 a1] eqn:E1.
  apply wrapped_inv in E1 as (r0 & E1 & ->). unfold disk_op in E1.
  pose proof (keeps_WriteAtomic (UserKeyPath cfg) pem (octal 6 0 0) (on_disk a)) as Hkr.
  destruct (WriteAtomic _ _ _ _) as [r2 d2] eqn:E2. injection E1 as <- <-.
  apply WriteAtomic_spec in E2 as (h1 & h2 & _ & _ & _ & Hd); [|done]. simpl in Hkr.
  assert (reads_honest d2) as Hr2 by (unfold reads_honest; by rewrite Hkr).
  assert (key_kept (files (on_disk a)) (files d2)) as Hkk by (intros f Hf; congruence).
  destruct r2 as [[]|e]; simpl in E.
  - set (a2 := mkAgent _ _ _) in E. assert (a2 = a' ∧ NewSignerFromKey priv = r) as [<- Hn] by (by injection E).
    split; [done|].
    assert (∀ s, NewSignerFromKey priv = Ok s → key_on_disk (files d2) (signer_public s)) as Hkey.
    { intros s Hs. destruct (parse_marshalled _ _ _ Em Hs) as (s' & Hs' & Hpub).
      exists (mkFile pem (octal 6 0 0) true), s'. rewrite Hd, lookup_insert_eq. done. }
    split_and!; [|done|done|intros s ->; by apply Hkey]. intros k s [= <-]. apply Hkey.
  - injection E as <- <-. split; [done|]. split_and!; [|done|done|done]. intros k s. simpl. congruence.
Qed.

Lemma ensure_user_key_ok c a r a' :
  is_temp (UserKeyPath cfg) = false → cache_ok a → reads_honest (on_disk a) →
  ensure_user_key cfg c a = (r, a') →
  net a' = net a ∧ step_ok (λ s d, key_on_disk d (signer_public s)) a r a'.
Proof.
  intros Hp Hc Hr. unfold ensure_user_key, disk_op. destruct (user_key (rn a)) as [k|] eqn:Hk.
  - intros [= <- <-]. split; [done|]. split_and!; [done|done|by intros f|]. intros s Hs. by eapply Hc.
  - destruct (ReadFile _ _) as [rf d] eqn:E1. apply ReadFile_honest in E1 as (Hf & Hr1 & Hrf); [|done].
    set (a1 := mkAgent (rn a) d (net a)).
    assert (∀ B P, cache_ok a1 ∧ reads_honest (on_disk a1) ∧ key_kept (files (on_disk a)) (files (on_disk a1))
      ∧ ∀ e, step_ok (B:=B) P a (Err e) a1) as Hstill.
    { intros B P. assert (cache_ok a1) by (intros k s; simpl; congruence).
      split_and!; [done|done|intros f; simpl; by rewrite Hf|]. intros e.
      split_and!; [done|done|intros f; simpl; by rewrite Hf|done]. }
    destruct (Hstill _ (λ s d, key_on_disk d (signer_public s))) as (Hc1 & _ & Hkk & Herr).
    destruct rf as [b|e].
    + destruct Hrf as (f & Hfile & <-). destruct (ParsePrivateKey (content f)) as [s|e] eqn:Hs; [|by intros [= <- <-]].
      assert (key_on_disk (files d) (signer_public s)) as Hkey by (exists f, s; by rewrite Hf).
      unfold signerToEd25519.
      destruct (raw_private_key s) as [k|] eqn:Hraw; [case_bool_decide|]; intros [= <- <-];
        (split; [done|]); (split_and!; [|done|exact Hkk|by intros s' [= <-]]); [|exact Hc1..].
      intros k' s' [= <-] Hs'. by rewrite (raw_key_signer _ _ _ Hraw Hs').
    + destruct (err_is e "fs.ErrNotExist"); simpl; [|by intros [= <- <-]].
      intros E. destruct (create_key_ok c a1 r a' Hp Hc1 Hk Hr1) as [Hn (?&?&Hk'&?)]; [by simpl; rewrite Hf, Hrf|done|].
      split; [done|]. split_and!; [done|done| |done]. intros g Hg. by apply Hk', Hkk.
Qed.

(** What certd is asked about the key [pub], and the network afterwards. *)
Definition ask (n : N) (pub : SshKey) : N :=
  (Client.SignUserCert (user_request cfg (MarshalAuthorizedKey pub)) n).2.

Lemma SignUserOnce_ok c a r a' :
  user_paths_ok → cache_ok a → reads_honest (on_disk a) → SignUserOnce cfg c a = (r, a') →
  step_ok (λ _ _, True) a r a' ∧
  (net a' = net a ∨ ∃ pub, net a' = ask (net a) pub ∧ key_on_disk (files (on_disk a')) pub).
Proof.
  intros (Hpc & Hpk & Hne) Hc Hr E. unfold SignUserOnce, mbind in E.
  destruct (wrapped _ (ensure_user_key cfg c) a) as [r1 a1] eqn:E1.
  apply wrapped_inv in E1 as (r0 & E1 & ->).
  apply ensure_user_key_ok in E1 as [Hn1 (Hc1 & Hr1 & Hk1 & Hkey)]; [|done..].
  destruct r0 as [s|e]; simpl in E; [|injection E as <- <-; by split; [|left]].
  specialize (Hkey _ eq_refl).
  destruct (wrapped _ (net_op _) a1) as [r3 a3] eqn:E3.
  apply wrapped_inv in E3 as (r3' & E3 & ->). unfold net_op in E3.
  destruct (Client.SignUserCert _ (net a1)) as [rr n1] eqn:Es. injection E3 as <- <-.
  assert (n1 = ask (net a) (signer_public s)) as Hn by (unfold ask; by rewrite <- Hn1, Es).
  set (a2 := mkAgent (rn a1) (on_disk a1) n1) in E.
  assert (∀ r, step_ok (B:=time*time) (λ _ _, True) a r a2) as Hst2 by done.
  assert (∀ a4 : agent UserCertRenewer N, net a4 = n1 → key_kept (files (on_disk a1)) (files (on_disk a4)) →
    ∃ pub, net a4 = ask (net a) pub ∧ key_on_disk (files (on_disk a4)) pub) as Hasked.
  { intros a4 Hn4 Hk4. exists (signer_public s). split; [congruence|]. by eapply key_kept_on_disk. }
  destruct rr as [resp|e]; simpl in E;
    [|injection E as <- <-; split; [apply Hst2|right; exact (Hasked a2 eq_refl (λ _ Hf, Hf))]].
  destruct (str_empty _); [injection E as <- <-; split; [apply Hst2|right; exact (Hasked a2 eq_refl (λ _ Hf, Hf))]|].
  destruct (wrapped _ (disk_op _) a2) as [r4 a4] eqn:E4.
  apply wrapped_inv in E4 as (r4' & E4 & ->). unfold disk_op in E4.
  pose proof (keeps_WriteAtomic (UserCertPath cfg) (cert_line (UserCertificate resp)) (octal 6 4 4) (on_disk a2)) as Hkr.
  destruct (WriteAtomic _ _ _ _) as [r5 d5] eqn:E5. injection E4 as <- <-. simpl in Hkr.
  apply WriteAtomic_spec in E5 as (h1 & h2 & _ & _ & _ & Hd); [|done].
  assert (files d5 !! UserKeyPath cfg = files (on_disk a1) !! UserKeyPath cfg) as Hkf.
  { destruct r5 as [u|e]; [by rewrite Hd, lookup_insert_ne|]. destruct Hd as [_ Hd]. by apply Hd. }
  set (a5 := mkAgent (rn a2) d5 (net a2)) in E.
  assert (key_kept (files (on_disk a1)) (files (on_disk a5))) as Hk5 by (intros f; simpl; by rewrite Hkf).
  assert (a5 = a') as <- by (destruct r5; by injection E). clear E.
  split; [|right; by apply Hasked]. split_and!; [| |intros f Hf; by apply Hk5, Hk1|done].
  - intros k s' Hk Hs. eapply key_kept_on_disk; [exact Hk5|by eapply Hc1].
  - unfold reads_honest. simpl. by rewrite Hkr.
Qed.

(** C35: the SSH key the agent uses is never lost.  Through any number of rounds,
    whatever system call fails in them, the reads of the key file included, every key
    certd is asked to certify has its private half in the key file, there when it is
    asked and for as long as the agent runs; so all the requests name one key, and a
    restarted agent goes on with it.  Of a failing read only this is assumed: it does
    not report a key file that exists as absent. *)
Theorem user_key_durable cs a cancelled ws a' :
  user_paths_ok → cache_ok a → reads_honest (on_disk a) → RunUser cfg cs a = (cancelled, ws, a') →
  cache_ok a' ∧ key_kept (files (on_disk a)) (files (on_disk a')) ∧
  ∃ pubs, net a' = foldl ask (net a) pubs ∧
    (∀ pub, pub ∈ pubs → key_on_disk (files (on_disk a')) pub) ∧
    (∀ p q, p ∈ pubs → q ∈ pubs → p = q).
Proof.
  intros Hp Hc Hr E.
  assert (cache_ok a' ∧ key_kept (files (on_disk a)) (files (on_disk a')) ∧
    ∃ pubs, net a' = foldl ask (net a) pubs ∧
      ∀ pub, pub ∈ pubs → key_on_disk (files (on_disk a')) pub) as (Hc' & Hk' & pubs & Hn & Hpubs).
  { revert a Hc Hr ws E. induction cs as [|c cs IH]; intros a Hc Hr ws E; simpl in E.
    { injection E as <- <- <-. split_and!; [done|by intros f|]. exists []. split; [done|]. by intros pub ?%not_elem_of_nil. }
    destruct (SignUserOnce cfg c a) as [r a1] eqn:E1.
    destruct (SignUserOnce_ok _ _ _ _ Hp Hc Hr E1) as [(Hc1 & Hr1 & Hk1 & _) Hn1].
    assert (∃ ps, net a1 = foldl ask (net a) ps ∧
      ∀ pub, pub ∈ ps → key_on_disk (files (on_disk a1)) pub) as (ps & Hps & Hon).
    { destruct Hn1 as [->|(pub & -> & Hpub)]; [by exists []; split; [|intros pub ?%not_elem_of_nil]|].
      exists [pub]. split; [done|]. by intros p ->%list_elem_of_singleton. }
    destruct (user_cancelled c).
    { injection E as _ _ <-. split_and!; [done|done|]. by exists ps. }
    destruct (RunUser cfg cs a1) as [[o ws'] a2] eqn:E2. injection E as -> _ ->.
    destruct (IH a1 Hc1 Hr1 _ E2) as (Hc2 & Hk2 & ps' & Hps' & Hon').
    split_and!; [done|intros f Hf; by apply Hk2, Hk1|]. exists (ps ++ ps').
    split; [by rewrite foldl_app, <- Hps|]. intros pub [Hin|Hin]%elem_of_app; [|by apply Hon'].
    eapply key_kept_on_disk; [exact Hk2|by apply Hon]. }
  split_and!; [done|done|]. exists pubs. split_and!; [done|done|].
  intros p q (f & s & Hf & Hs & <-)%Hpubs (f' & s' & Hf' & Hs' & <-)%Hpubs. congruence.
Qed.
End Durable.

(** ** [ssh_config] drop-in *)

Record SSHConfigSnippet := mkSSHConfigSnippet {
  HostPattern : string; CertificateFile : string; IdentityFile : string;
  ProxyJump : string; LoginUser : string; Extras : gmap string string }.

Definition directive (k v : string) : string := "    " +:+ k +:+ " " +:+ v +:+ nl.

(** The map is read in an arbitrary order, [keys]. *)
Definition extras_lines (keys : list string) (m : gmap string string) : string :=
  str_join "" ((λ k, directive k (default "" (m !! k))) <$> sort_strings keys).

Definition Marshal (keys : list string) (s : SSHConfigSnippet) : result string :=
  reject str_empty (HostPattern s) with ErrNew "HostPattern is required";;
  reject str_empty (CertificateFile s) with ErrNew "CertificateFile is required";;
  reject str_empty (IdentityFile s) with ErrNew "IdentityFile is required";;
  Ok ("# Managed by cert-agentd; do not edit." +:+ nl +:+
      "Host " +:+ HostPattern s +:+ nl +:+
      (if str_empty (LoginUser s) then "" else directive "User" (LoginUser s)) +:+
      (if str_empty (ProxyJump s) then "" else directive "ProxyJump" (ProxyJump s)) +:+
      directive "CertificateFile" (CertificateFile s) +:+
      directive "IdentityFile" (IdentityFile s) +:+
      extras_lines keys (Extras s)).

Definition WriteAtomicTo `{TempNames} (keys : list string) (s : SSHConfigSnippet) (path : string) : M fs string :=
  body <-m lift (Marshal keys s);;
  _ <-m WriteAtomic path body (octal 6 4 4);;
  mret body.

Definition KnownHostsCAEntry (hostPattern hostCAAuthorizedKey : string) : result string :=
  reject str_empty hostPattern with ErrNew "hostPattern is required";;
  let pub := TrimSpace hostCAAuthorizedKey in
  reject str_empty pub with ErrNew "hostCAAuthorizedKey is required";;
  Ok ("@cert-authority " +:+ hostPattern +:+ " " +:+ pub +:+ nl).

(** ** Instances: keys as their own text, a server that is first out of reach *)
Module UserCertExamples.
Import FilesExamples.

#[export] Instance toy_keys : SshKeyLib := {|
  KeySigner := string;
  NewSignerFromKey k := Ok (priv_bytes k);
  ParsePrivateKey b := if str_empty b then Err (ErrOpaque "ssh: no key found") else Ok b;
  raw_private_key s := Some (mkPrivateKey Ed25519 s);
  signer_public s := mkSshKey "ssh-ed25519" s;
  MarshalPrivateKey k := if str_empty (priv_bytes k) then Err (ErrOpaque "ssh: bad key") else Ok (priv_bytes k);
  MarshalAuthorizedKey k := key_type k +:+ " " +:+ wire k;
|}.

#[export] Instance toy_key_laws : SshKeyLaws.
Proof.
  split.
  - intros k pem s. simpl. destruct (str_empty (priv_bytes k)) eqn:E; [done|]. intros [= <-] [= <-].
    exists (priv_bytes k). by rewrite E.
  - intros s k s'. simpl. by intros [= <-] [= <-].
Qed.

(** The state is the number of requests so far; the first one is lost. *)
#[export] Instance flaky : RestClient nat := {|
  post_workload _ _ := λ n, (Err (ErrOpaque "refused"), n);
  post_adopt _ _ := λ n, (Err (ErrOpaque "refused"), n);
  post_user _ req := λ n,
    (if bool_decide (n = O) then Err (ErrOpaque "timeout")
     else Ok (mkSignUserResponse ("cert for " +:+ UserKey req) 7 (ReqKeyID req) (ReqPrincipals req) 0 (24 * hour)), S n);
  get_bundle _ := λ n, (Err (ErrOpaque "refused"), n);
  get_ca_keys _ := λ n, (Err (ErrOpaque "refused"), n);
|}.

Definition config : UserCertConfig :=
  mkUserCertConfig true "user:db" ["alice"] "/run/id-cert.pub" "/run/id" ∅ ∅ 0
    DefaultRenewFraction DefaultMinRenewInterval DefaultRetryBackoff.

Definition start : agent UserCertRenewer nat :=
  mkAgent (mkUserCertRenewer None) (mkFs {[ "/run/id" := mkFile "k0" (octal 6 0 0) true ]} [] [Some (ErrOpaque "EIO")] []) O.

(** The first reading of the key fails; the second is of the key that is there. *)
Definition turns : list user_cycle :=
  [mkUserCycle (Ok (mkPrivateKey Ed25519 "k1")) 0 false; mkUserCycle (Ok (mkPrivateKey Ed25519 "k2")) 0 false;
   mkUserCycle (Ok (mkPrivateKey Ed25519 "k3")) 0 true].

Definition finish := RunUser config turns start.

(** Both requests name the key that was on disk. *)
Lemma user_key_durable_witness :
  finish.1.1 = true ∧ finish.1.2 = [30 * second; 30 * second; 51840 * second] ∧ net finish.2 = 2%nat ∧
  (content <$> files (on_disk finish.2) !! "/run/id") = Some "k0" ∧
  ∃ pubs, net finish.2 = foldl (ask config) O pubs ∧
    ∀ p q, p ∈ pubs → q ∈ pubs → p = q.
Proof.
  split_and!; [by vm_compute|by vm_compute|by vm_compute|by vm_compute|].
  destruct (user_key_durable config turns start finish.1.1 finish.1.2 finish.2)
    as (_ & _ & pubs & Hn & _ & Hsame).
  - split_and!; [by vm_compute|by vm_compute|done].
  - by intros k s.
  - by repeat constructor.
  - unfold finish. destruct (RunUser config turns start) as [[? ?] ?]. reflexivity.
  - exists pubs. split; [exact Hn|exact Hsame].
Defined.
End UserCertExamples.
