(* ===== verification/SshCreds.v ===== *)
(** * SshCreds: the user's command line helper

    Models [cmd/auth-ssh-creds/main.go]: [main], from the arguments to the exit status,
    with [login], [logout] and [get], which keeps a key pair on disk and has certd
    certify it under the cached ID token.  The OIDC client and its atomic file writer
    are third-party; they are classes of parameters, with the file writer's contract.
    The messages on the standard error are not modelled. *)

From S2P Require Import Prelude GoText GoDuration GoFlag Signer SshEngine Files Client Renew UserCert Custody CaTool ToyCA InitEnv.

(** ** The command's state: the machine it runs on, and everything beyond *)
Record cli (N : Type) := mkCli { machine : host; outside : N }.
Arguments mkCli {N}.
Arguments machine {N}.
Arguments outside {N}.

(** ** Foreign code *)

Record tokens := mkTokens { IDToken : string }.
Record id_claims := mkIdClaims { Email : string; Subject : string }.

(** [oidcclient].  The cache it shares with other commands counts as beyond the
    machine; [Logout] also removes the command's own files. *)
Class OidcClient (N : Type) := {
  Login : string → string → Z → bool → M N unit;
  Logout : string → M (cli N) unit;
  LoadConfig : M N (string * string);
  EnsureFreshTokens : string * string → duration → M N tokens;
  IDTokenClaims : string → id_claims;
  AppCacheDir : string → result string;
}.

(** [oidcclient.WriteFileAtomic] *)
Class AtomicFiles := { WriteFileAtomic : string → string → Z → M fs unit }.
Class AtomicFilesLaws `{AtomicFiles} := {
  atomic_target path b perm s r s' :
    WriteFileAtomic path b perm s = (r, s') →
    match r with
    | Ok _ => ∃ f, files s' !! path = Some f ∧ content f = b ∧ mode f = perm
    | Err _ => files s' !! path = files s !! path
    end;
  atomic_others path b perm s r s' q f :
    WriteFileAtomic path b perm s = (r, s') → q ≠ path → files s !! q = Some f → files s' !! q = Some f;
}.

(** [ssh.NewPublicKey(priv.Public())] *)
Class SshPublicLib := { NewPublicKey : PrivateKey → result SshKey }.
Class SshPublicLaws `{SshKeyLib, SshPublicLib} := {
  public_marshalled k pem p :
    MarshalPrivateKey k = Ok pem → NewPublicKey k = Ok p →
    ∃ s, ParsePrivateKey pem = Ok s ∧ signer_public s = p;
}.

Record signUserRequest := mkSignUserReq {
  CPublicKey : string; CKeyID : string; CPrincipals : list string; CGroups : list string; CTTLSeconds : Z }.
Record signResponse := mkSignResp {
  CCertificate : string; CSerial : Z; CRespKeyID : string; CRespPrincipals : list string;
  CValidAfter : time; CValidBefore : time }.

(** [http.DefaultClient.Do] of a POST with a bearer token and the request as JSON:
    the status and the bytes of the body that arrived; and [json.Unmarshal]. *)
Class SignUserHttp (N : Type) := {
  Do : string → string → signUserRequest → M N (Z * string);
  decode_response : string → result signResponse;
}.

(** ** Steps *)

Definition on_host {N A} (m : M host A) : M (cli N) A := λ c,
  let '(r, h) := m (machine c) in (r, mkCli h (outside c)).
Definition on_net {N A} (m : M N A) : M (cli N) A := λ c,
  let '(r, n) := m (outside c) in (r, mkCli (machine c) n).
Definition of_result {N A} (r : result A) : M (cli N) A := λ c, (r, c).

Definition appCacheSubdir : string := "ssh-creds".
Definition accessTokenSkew : duration := 30 * second.
Definition defaultCertTTL : duration := hour.

(** What is printed on the standard output. *)
Definition print {N} (text : string) (c : cli N) : cli N :=
  let h := machine c in mkCli (mkHost (disk h) (entropy h) (clocks h) (stdout h +:+ text)) (outside c).

(** ** Helpers *)

Definition splitCSV (s : string) : list string :=
  if str_empty s then [] else
  List.filter (λ t, negb (str_empty t)) (TrimSpace <$> split_byte ","%char s).

Definition buildSSHConfigSnippet (keyPath certPath proxyJump : string) (principals : list string) : string :=
  "# auth-ssh-creds: drop-in ssh_config snippet" +:+ nl +:+
  "# Append this to ~/.ssh/config (or to a file Include'd from it)." +:+ nl +:+
  "Host *.internal" +:+ nl +:+
  match principals with [] => "" | p :: _ => "    User " +:+ p +:+ nl end +:+
  "    IdentityFile " +:+ keyPath +:+ nl +:+
  "    CertificateFile " +:+ certPath +:+ nl +:+
  "    ProxyJump " +:+ proxyJump +:+ nl +:+
  "    IdentitiesOnly yes" +:+ nl.

(** What [usage] prints. *)
Definition dquote : string := String "034" "".
Definition usage : string := str_join nl [
  "auth-ssh-creds — SSH credential helper for auth's OIDC federation";
  "";
  "Usage:";
  "  auth-ssh-creds login   --issuer URL --client-id ID [--port N]";
  "  auth-ssh-creds login   --issuer URL --client-id ID --device";
  "  auth-ssh-creds get     --certd URL --principals NAME[,NAME...] [--ttl DUR]";
  "                         [--groups eng,sre] [--key-out PATH] [--cert-out PATH]";
  "                         [--key-id ID] [--proxy-jump HOST:PORT]";
  "  auth-ssh-creds logout";
  "";
  "login modes:";
  "  default  Opens a browser on this host, loopback redirect captures the";
  "           authorization code (OAuth 2.0 + PKCE).";
  "  --device RFC 8628 device authorization grant: prints a verification";
  "           URL + short code; complete the browser part on any device.";
  "           Required when this host has no browser. The OAuth client must";
  "           have allow_device_grant=true at /portal/admin/clients.";
  "";
  "The " +:+ dquote +:+ "get" +:+ dquote +:+ " command sends the cached OIDC ID token to certd as a bearer";
  "credential. certd validates the token against auth's JWKS, applies its";
  "role table to the requested principals, and signs an SSH user cert.";
  "";
  "Files (shared SSO cache; same root for all auth-* helpers):";
  "  ~/.config/auth-sso/config.json                       issuer + client_id (non-secret)";
  "  ~/.config/auth-sso/tokens.json                       OAuth refresh + access + id token (0o600)";
  "  ~/.config/auth-sso/ssh-creds/keys/id_ed25519         generated private key (0o600)";
  "  ~/.config/auth-sso/ssh-creds/keys/id_ed25519.pub     public key (0o644)";
  "  ~/.config/auth-sso/ssh-creds/keys/id_ed25519-cert.pub";
  "                                                       certd-signed user cert (0o644)"] +:+ nl.

Section Creds.
Context {N : Type} `{OidcClient N, AtomicFiles, SshKeyLib, SshPublicLib, KeyGen, SignUserHttp N}.

Definition deriveKeyID (idToken : string) : string :=
  let c := IDTokenClaims idToken in
  if negb (str_empty (Email c)) then Email c else
  if negb (str_empty (Subject c)) then Subject c else "".

(** The paths, and the directory that has to exist for them. *)
Definition out_paths (keyOut certOut : string) : result (string * string * bool) :=
  k <-r (if str_empty keyOut
         then dir <-r AppCacheDir appCacheSubdir;; Ok (Join (Join dir "keys") "id_ed25519", true)
         else Ok (keyOut, false));;
  Ok (k.1, if str_empty certOut then k.1 +:+ "-cert.pub" else certOut, k.2).

Definition resolveOutPaths (keyOut certOut : string) : M host (string * string) :=
  p <-m lift (out_paths keyOut certOut);;
  (if p.2 then on_disk MkdirAll else mret tt);;;
  mret p.1.

(** The line sent to certd. *)
Definition key_line (p : SshKey) : string := trim_right newline (MarshalAuthorizedKey p).

Definition generate_pair (keyPath : string) : M host string :=
  r <-m draw;;
  priv <-m lift (GenerateKey Ed25519 r);;
  sshPub <-m lift (NewPublicKey priv);;
  pem <-m lift (MarshalPrivateKey priv);;
  on_disk (WriteFileAtomic keyPath pem (octal 6 0 0));;;
  on_disk (WriteFileAtomic (keyPath +:+ ".pub") (MarshalAuthorizedKey sshPub) (octal 6 4 4));;;
  mret (key_line sshPub).

Definition ensureKeypair (keyPath : string) : M host string := λ h,
  match on_disk (ReadFile keyPath) h with
  | (Ok data, h) =>
      (match ParsePrivateKey data with
       | Ok signer => Ok (key_line (signer_public signer))
       | Err e => Err (ErrWrap ("parse existing key " +:+ keyPath +:+ ": ") e " (delete the file to regenerate)")
       end, h)
  | (Err e, h) => if negb (err_is e "fs.ErrNotExist") then (Err e, h) else generate_pair keyPath h
  end.

Definition writeCert (path certLine : string) : M host unit :=
  on_disk (WriteFileAtomic path (if ends_with_newline certLine then certLine else certLine +:+ nl) (octal 6 4 4)).

Definition body_limit : nat := Z.to_nat (64 * 1024).

Definition signUserCert (certdURL idToken : string) (req : signUserRequest) : M N signResponse :=
  resp <-m Do (trim_right "/"%char certdURL +:+ "/api/v1/ssh/sign-user") ("Bearer " +:+ idToken) req;;
  let raw := String.substring 0 body_limit resp.2 in
  λ n, (if negb (resp.1 =? 200)
        then Err (ErrNew ("/api/v1/ssh/sign-user " +:+ FormatInt resp.1 +:+ ": " +:+ TrimSpace raw))
        else rwrap "decode response: " (decode_response raw), n).

(** ** The commands, as their exit status *)

Record getFlags := mkGetFlags {
  FCertd : string; FPrincipals : string; FGroups : string; FTTL : duration; FKeyOut : string;
  FCertOut : string; FKeyID : string; FProxyJump : string }.

Definition get_run (fl : getFlags) : M (cli N) unit :=
  cfg <-m on_net LoadConfig;;
  tokens <-m on_net (EnsureFreshTokens cfg accessTokenSkew);;
  if str_empty (IDToken tokens) then mfail (ErrNew "no id_token cached — re-run `auth-ssh-creds login`") else
  paths <-m on_host (resolveOutPaths (FKeyOut fl) (FCertOut fl));;
  pubKey <-m on_host (ensureKeypair paths.1);;
  let keyID := if str_empty (FKeyID fl) then deriveKeyID (IDToken tokens) else FKeyID fl in
  if str_empty keyID then mfail (ErrNew "could not derive key_id from id_token; pass --key-id explicitly") else
  resp <-m on_net (signUserCert (FCertd fl) (IDToken tokens)
    (mkSignUserReq pubKey keyID (splitCSV (FPrincipals fl)) (splitCSV (FGroups fl)) (int_seconds (FTTL fl))));;
  on_host (writeCert paths.2 (CCertificate resp));;;
  if str_empty (FProxyJump fl) then mret tt else
  (λ c, (Ok tt, print (buildSSHConfigSnippet paths.1 paths.2 (FProxyJump fl) (CRespPrincipals resp)) c)).

Definition status {A} (m : M (cli N) A) (c : cli N) : Z * cli N :=
  let '(r, c) := m c in (if is_ok r then 0 else 1, c).

Definition get_formal : gmap string kind := list_to_map [
  ("certd", KString); ("principals", KString); ("groups", KString); ("ttl", KDuration); ("key-out", KString);
  ("cert-out", KString); ("key-id", KString); ("proxy-jump", KString)].

Definition get_flags (set : gmap string value) : getFlags := mkGetFlags
  (string_flag set "certd" "") (string_flag set "principals" "") (string_flag set "groups" "")
  (duration_flag set "ttl" defaultCertTTL) (string_flag set "key-out" "") (string_flag set "cert-out" "")
  (string_flag set "key-id" "") (string_flag set "proxy-jump" "").

Definition cmdGet (args : list string) (c : cli N) : Z * cli N :=
  match Parse get_formal ∅ args with
  | Err _ => (2, c)
  | Ok (set, _) =>
      let fl := get_flags set in
      if str_empty (FCertd fl) then (2, c) else
      if str_empty (FPrincipals fl) then (2, c) else
      status (get_run fl) c
  end.

Definition login_formal : gmap string kind := list_to_map [
  ("issuer", KString); ("client-id", KString); ("port", KInt); ("device", KBool)].

Definition cmdLogin (args : list string) (c : cli N) : Z * cli N :=
  match Parse login_formal ∅ args with
  | Err _ => (2, c)
  | Ok (set, _) =>
      let issuer := string_flag set "issuer" "" in
      let clientID := string_flag set "client-id" "" in
      if str_empty issuer || str_empty clientID then (2, c) else
      status (on_net (Login issuer clientID (int_flag set "port" 0) (bool_flag set "device" false))) c
  end.

Definition cmdLogout (c : cli N) : Z * cli N := status (Logout appCacheSubdir) c.

(** [main], from [os.Args] to the exit status. *)
Definition main (args : list string) (c : cli N) : Z * cli N :=
  match args with
  | _ :: cmd :: args =>
      if bool_decide (cmd = "login") then cmdLogin args c else
      if bool_decide (cmd = "logout") then cmdLogout c else
      if bool_decide (cmd = "get") then cmdGet args c else
      if bool_decide (cmd ∈ ["-h"; "--help"; "help"]) then (0, print usage c) else (2, c)
  | _ => (2, c)
  end.
End Creds.

(** ** The pair on disk *)
Section Pair.
Context {N : Type} `{OidcClient N, AtomicFiles, !AtomicFilesLaws, SshKeyLib, SshPublicLib, !SshPublicLaws, KeyGen, SignUserHttp N}.

(** The key file holds the private half of the key sent as [line]. *)
Definition holds_key (d : gmap string file) (keyPath line : string) : Prop :=
  ∃ f s, d !! keyPath = Some f ∧ ParsePrivateKey (content f) = Ok s ∧ line = key_line (signer_public s).

Lemma holds_key_kept X d d' keyPath line : kept X d d' → keyPath ∉ X → holds_key d keyPath line → holds_key d' keyPath line.
Proof. intros Hk Hx (f & s & Hf & Hs). exists f, s. split; [by apply Hk|done]. Qed.

Lemma WriteFileAtomic_kept path b perm s r s' :
  WriteFileAtomic path b perm s = (r, s') → kept {[path]} (files s) (files s').
Proof. intros E q f Hq Hf. eapply atomic_others; [exact E| |done]. set_solver. Qed.

Lemma write_kept path b perm h r h' :
  on_disk (WriteFileAtomic path b perm) h = (r, h') →
  kept {[path]} (files (disk h)) (files (disk h')) ∧
  (r = Ok tt → ∃ f, files (disk h') !! path = Some f ∧ content f = b).
Proof.
  unfold on_disk. destruct (WriteFileAtomic path b perm (disk h)) as [r1 d] eqn:E. intros [= <- <-]. simpl.
  split; [by eapply WriteFileAtomic_kept|]. intros ->. apply atomic_target in E as (f & Hf & Hb & _). by exists f.
Qed.

Lemma pub_path keyPath : keyPath +:+ ".pub" ≠ keyPath.
Proof. intros E. apply (f_equal String.length) in E. rewrite str_length_app in E. simpl in E. lia. Qed.

Lemma generate_pair_ok keyPath h r h' :
  files (disk h) !! keyPath = None → generate_pair keyPath h = (r, h') →
  kept {[keyPath +:+ ".pub"]} (files (disk h)) (files (disk h')) ∧
  ∀ line, r = Ok line → holds_key (files (disk h')) keyPath line.
Proof.
  intros Hn. unfold generate_pair, mbind at 1, draw. set (h1 := mkHost _ _ _ _).
  assert (disk h1 = disk h) as Hd by done. rewrite <- Hd in Hn |- *. clearbody h1. clear Hd. unfold mbind, lift.
  destruct (GenerateKey _ _) as [priv|]; [|by intros [= <- <-]].
  destruct (NewPublicKey priv) as [p|] eqn:Ep; [|by intros [= <- <-]].
  destruct (MarshalPrivateKey priv) as [pem|] eqn:Em; [|by intros [= <- <-]].
  destruct (on_disk (WriteFileAtomic keyPath _ _) h1) as [r2 h2] eqn:E2. apply write_kept in E2 as [K2 F2].
  assert (kept {[keyPath +:+ ".pub"]} (files (disk h1)) (files (disk h2))) as K2'.
  { eapply kept_fresh; [|exact Hn]. eapply kept_mono; [|exact K2]. set_solver. }
  destruct r2 as [[]|e]; [|by intros [= <- <-]].
  destruct (on_disk (WriteFileAtomic (keyPath +:+ ".pub") _ _) h2) as [r3 h3] eqn:E3. apply write_kept in E3 as [K3 _].
  assert (kept {[keyPath +:+ ".pub"]} (files (disk h1)) (files (disk h3))) as K by (by etransitivity).
  destruct r3 as [[]|e]; intros [= <- <-]; (split; [done|]); [|done]. intros line [= <-].
  destruct (public_marshalled priv pem p Em Ep) as (s & Hs & Hp). destruct (F2 eq_refl) as (f & Hf & Hc).
  exists f, s. split; [apply K3; [|done]|by rewrite Hc, Hp].
  intros E%elem_of_singleton. by destruct (pub_path keyPath).
Qed.

Lemma ensureKeypair_ok keyPath h r h' :
  reads_honest (disk h) → ensureKeypair keyPath h = (r, h') →
  kept {[keyPath +:+ ".pub"]} (files (disk h)) (files (disk h')) ∧
  ∀ line, r = Ok line → holds_key (files (disk h')) keyPath line.
Proof.
  intros Hr. unfold ensureKeypair, on_disk. destruct (ReadFile keyPath (disk h)) as [rf d] eqn:E.
  apply ReadFile_honest in E as (Hd & _ & Hrf); [|done]. destruct rf as [data|e].
  - destruct Hrf as (f & Hf & Hc). intros [= <- <-]. simpl. rewrite Hd. split; [reflexivity|]. intros line Hl.
    destruct (ParsePrivateKey data) as [s|] eqn:Es; [|done]. injection Hl as <-. exists f, s. by rewrite Hc.
  - destruct (err_is e "fs.ErrNotExist"); simpl; [|intros [= <- <-]; simpl; rewrite Hd; by split].
    intros Eg. apply generate_pair_ok in Eg; [|by simpl; rewrite Hd, Hrf]. simpl in Eg. by rewrite <- Hd.
Qed.
End Pair.

Section Get.
Context {N : Type} `{OidcClient N, AtomicFiles, !AtomicFilesLaws, SshKeyLib, SshPublicLib, !SshPublicLaws, KeyGen, SignUserHttp N}.

Abbreviation fl_of c := (files (disk (machine c))) (only parsing).

Lemma bind_cases {S A B} (m : M S A) (k : A → M S B) s r s' :
  mbind m k s = (r, s') →
  (∃ e, m s = (Err e, s') ∧ r = Err e) ∨ (∃ a s1, m s = (Ok a, s1) ∧ k a s1 = (r, s')).
Proof. unfold mbind. destruct (m s) as [[a|e] s1]; [|intros [= <- <-]; left; by exists e]. right. by exists a, s1. Qed.

Lemma on_net_cases {A} (m : M N A) c r c' :
  on_net m c = (r, c') → machine c' = machine c ∧ m (outside c) = (r, outside c').
Proof. unfold on_net. destruct (m (outside c)). by intros [= <- <-]. Qed.

Lemma on_host_cases {A} (m : M host A) (c : cli N) r c' :
  on_host m c = (r, c') → m (machine c) = (r, machine c').
Proof. unfold on_host. destruct (m (machine c)). by intros [= <- <-]. Qed.

Lemma resolveOutPaths_cases ko co h r h' :
  resolveOutPaths ko co h = (r, h') →
  files (disk h') = files (disk h) ∧ read_faults (disk h') = read_faults (disk h) ∧
  ∀ p, r = Ok p → ∃ b, out_paths ko co = Ok (p, b).
Proof.
  unfold resolveOutPaths, mbind, lift. destruct (out_paths ko co) as [[[k q] b]|e]; [|by intros [= <- <-]].
  simpl. destruct b.
  - unfold on_disk. destruct (MkdirAll (disk h)) as [r1 d] eqn:E.
    assert (files d = files (disk h)) as Hf.
    { apply syscall_cases in E. destruct E as [_ [Hd|(e & n & -> & Hd)]]; [|by rewrite Hd]. by injection Hd. }
    apply syscall_reads in E. destruct r1; intros [= <- <-]; simpl; (split_and!; [done|done|]); [|done].
    intros p [= <-]. by eexists.
  - intros [= <- <-]. split_and!; [done|done|]. intros p [= <-]. by eexists.
Qed.

Lemma signUserCert_Ok url tok req n resp n' :
  signUserCert url tok req n = (Ok resp, n') →
  ∃ raw, Do (trim_right "/"%char url +:+ "/api/v1/ssh/sign-user") ("Bearer " +:+ tok) req n = (Ok (200, raw), n') ∧
    decode_response (String.substring 0 body_limit raw) = Ok resp.
Proof.
  intros ([st raw] & n1 & E1 & E2)%mbind_Ok_inv. injection E2 as E2 <-.
  destruct (Z.eqb_spec st 200) as [->|]; [|done]. exists raw. split; [done|]. by apply rwrap_Ok in E2.
Qed.

(** What certd was asked, and what it answered. *)
Definition certified (fl : getFlags) (req : signUserRequest) (resp : signResponse) : Prop :=
  ∃ tok raw n, tok ≠ "" ∧ CKeyID req ≠ "" ∧ CPrincipals req = splitCSV (FPrincipals fl) ∧
    CGroups req = splitCSV (FGroups fl) ∧ CTTLSeconds req = int_seconds (FTTL fl) ∧
    (Do (trim_right "/"%char (FCertd fl) +:+ "/api/v1/ssh/sign-user") ("Bearer " +:+ tok) req n).1 = Ok (200, raw) ∧
    decode_response (String.substring 0 body_limit raw) = Ok resp.

Lemma newline_ends s : ends_with_newline (s +:+ nl) = true.
Proof. unfold ends_with_newline. rewrite str_rev_app. done. Qed.

(** The file holds [cert] as one line. *)
Definition holds_cert (d : gmap string file) (path cert : string) : Prop :=
  ∃ f, d !! path = Some f ∧ (content f = cert ∨ content f = cert +:+ nl) ∧ ends_with_newline (content f) = true.

Lemma writeCert_ok path cert h r h' :
  writeCert path cert h = (r, h') →
  kept {[path]} (files (disk h)) (files (disk h')) ∧ (r = Ok tt → holds_cert (files (disk h')) path cert).
Proof.
  intros [Hk Hf]%write_kept. split; [done|]. intros Hr. destruct (Hf Hr) as (f & Ef & Hc). exists f. split; [done|].
  rewrite Hc. destruct (ends_with_newline cert) eqn:En; [by split; [left|]|]. split; [by right|apply newline_ends].
Qed.

Lemma get_run_ok fl c r c' keyPath certPath b :
  get_run fl c = (r, c') → reads_honest (disk (machine c)) →
  out_paths (FKeyOut fl) (FCertOut fl) = Ok (keyPath, certPath, b) → certPath ≠ keyPath →
  kept {[certPath; keyPath +:+ ".pub"]} (fl_of c) (fl_of c') ∧
  (r = Ok tt → ∃ req resp, certified fl req resp ∧ holds_key (fl_of c') keyPath (CPublicKey req) ∧
     holds_cert (fl_of c') certPath (CCertificate resp)).
Proof.
  intros E Hh Hp Hne. unfold get_run in E.
  apply bind_cases in E as [(e & [Em _]%on_net_cases & ->)|(cfg & c1 & [E1 _]%on_net_cases & E)]; [by rewrite Em|].
  apply bind_cases in E as [(e & [Em _]%on_net_cases & ->)|(tk & c2 & [E2 _]%on_net_cases & E)]; [by rewrite Em, E1|].
  rewrite E1 in E2. destruct (str_empty (IDToken tk)) eqn:Ht; [injection E as <- <-; by rewrite E2|].
  apply bool_decide_eq_false in Ht. rewrite <- E2 in Hh |- *. clear E1 E2 c.
  apply bind_cases in E as [(e & (Ef & _)%on_host_cases%resolveOutPaths_cases & ->)|
    (paths & c3 & (Ef & Er & Ep)%on_host_cases%resolveOutPaths_cases & E)]; [by rewrite Ef|].
  destruct (Ep paths eq_refl) as [b' Eb]. rewrite Hp in Eb. injection Eb as <- _. cbn [fst snd] in E.
  assert (reads_honest (disk (machine c3))) as Hh3 by (unfold reads_honest; by rewrite Er). rewrite <- Ef. clear Ef Er Ep Hh Hp.
  assert (∀ d d', kept {[keyPath +:+ ".pub"]} d d' → kept {[certPath; keyPath +:+ ".pub"]} d d') as Hm
    by (intros d d'; apply kept_mono; set_solver).
  apply bind_cases in E as [(e & Ek%on_host_cases & ->)|(line & c4 & Ek%on_host_cases & E)];
    apply ensureKeypair_ok in Ek as [K Hk]; [|done| |done]; apply Hm in K; [by split|]. clear Hm. specialize (Hk line eq_refl). set (keyID := if str_empty (FKeyID fl) then _ else _) in E.
  destruct (str_empty keyID) eqn:Hid; [by injection E as <- <-|]. apply bool_decide_eq_false in Hid.
  apply bind_cases in E as [(e & [Em _]%on_net_cases & ->)|(resp & c5 & [Em Es]%on_net_cases & E)]; [by rewrite Em|].
  rewrite <- Em in K, Hk. clearbody keyID.
  apply bind_cases in E as [(e & [K2 _]%on_host_cases%writeCert_ok & ->)|
    ([] & c6 & [K2 Hc]%on_host_cases%writeCert_ok & E)].
  { split; [|done]. etransitivity; [exact K|]. eapply kept_mono; [|exact K2]. set_solver. }
  assert (fl_of c' = fl_of c6 ∧ r = Ok tt) as [-> ->] by (destruct (str_empty (FProxyJump fl)); by injection E as <- <-).
  split; [etransitivity; [exact K|]; eapply kept_mono; [|exact K2]; set_solver|]. intros _.
  apply signUserCert_Ok in Es as (raw & Ed & Edec).
  exists (mkSignUserReq line keyID (splitCSV (FPrincipals fl)) (splitCSV (FGroups fl)) (int_seconds (FTTL fl))), resp.
  split; [|split; [|by apply Hc]].
  - exists (IDToken tk), raw, (outside c4). split_and!; [done..|by rewrite Ed|done].
  - eapply holds_key_kept; [exact K2|set_solver|exact Hk].
Qed.
(** The flags a command line gives [get]. *)
Definition get_line (args : list string) : option getFlags :=
  match args with
  | _ :: cmd :: args =>
      if bool_decide (cmd = "get")
      then match Parse get_formal ∅ args with Ok (set, _) => Some (get_flags set) | Err _ => None end
      else None
  | _ => None
  end.
Definition logs_out (args : list string) : bool :=
  match args with _ :: cmd :: _ => bool_decide (cmd = "logout") | _ => false end.

Lemma status_cases {A} (m : M (cli N) A) c code c' :
  status m c = (code, c') → code ≠ 2 ∧ ∃ r, m c = (r, c') ∧ (code = 0 → is_ok r = true).
Proof.
  unfold status. destruct (m c) as [r c1]. intros [= <- <-].
  split; [by destruct (is_ok r)|]. exists r. by destruct (is_ok r).
Qed.

(** What a command leaves of the disk and what its status says, from its flags if it
    is [get]. *)
Definition keeps_pair (line : option getFlags) (c c' : cli N) (code : Z) : Prop :=
  match line with
  | None => fl_of c' = fl_of c
  | Some fl =>
      ∀ keyPath certPath b, out_paths (FKeyOut fl) (FCertOut fl) = Ok (keyPath, certPath, b) → certPath ≠ keyPath →
      kept {[certPath; keyPath +:+ ".pub"]} (fl_of c) (fl_of c') ∧
      (code = 0 → ∃ req resp, certified fl req resp ∧ holds_key (fl_of c') keyPath (CPublicKey req) ∧
         holds_cert (fl_of c') certPath (CCertificate resp))
  end.

Lemma keeps_pair_unchanged line (c : cli N) : keeps_pair line c c 2.
Proof. destruct line; [|done]. intros keyPath certPath b _ _. by split. Qed.

Lemma cmdLogin_ok args (c c' : cli N) code :
  cmdLogin args c = (code, c') → (code = 2 → c' = c) ∧ fl_of c' = fl_of c.
Proof.
  unfold cmdLogin. destruct (Parse _ _ _) as [[set rest]|e]; [|by intros [= <- <-]].
  cbv zeta. destruct (_ || _); [by intros [= <- <-]|].
  intros (Hs & r & [Em _]%on_net_cases & _)%status_cases. split; [done|by rewrite Em].
Qed.

Lemma cmdGet_ok prog args (c c' : cli N) code :
  cmdGet args c = (code, c') → reads_honest (disk (machine c)) →
  (code = 2 → c' = c) ∧ keeps_pair (get_line (prog :: "get" :: args)) c c' code.
Proof.
  intros E Hh. unfold cmdGet in E. unfold get_line. rewrite bool_decide_true by done.
  destruct (Parse _ _ _) as [[set rest]|e]; [|by injection E as <- <-]. cbv zeta in E.
  set (fl := get_flags set) in *. clearbody fl.
  destruct (str_empty (FCertd fl)); [injection E as <- <-; split; [done|apply keeps_pair_unchanged]|].
  destruct (str_empty (FPrincipals fl)); [injection E as <- <-; split; [done|apply keeps_pair_unchanged]|].
  apply status_cases in E as (Hs & r & Er & Hr). split; [done|].
  intros keyPath certPath b Hp Hne. destruct (get_run_ok fl c r c' keyPath certPath b Er Hh Hp Hne) as [Hk Hok].
  split; [done|]. intros Hz. apply Hok. specialize (Hr Hz). by destruct r as [[]|].
Qed.
End Get.


(** ** A first [get], with a fresh key *)
Module SshCredsExamples.
Import UserCertExamples.
#[local] Existing Instance ToyCA.keygen.

#[local] Instance public : SshPublicLib := {| NewPublicKey k := Ok (mkSshKey "ssh-ed25519" (priv_bytes k)) |}.
#[local] Instance public_laws : SshPublicLaws.
Proof.
  split. intros k pem p. simpl. destruct (str_empty (priv_bytes k)) eqn:E; [done|]. intros [= <-] [= <-].
  exists (priv_bytes k). by rewrite E.
Qed.

#[local] Instance atomic : AtomicFiles := {|
  WriteFileAtomic path b perm s :=
    (Ok tt, mkFs (<[path := mkFile b perm true]> (files s)) (script s) (read_faults s) (history s));
|}.
#[local] Instance atomic_laws : AtomicFilesLaws.
Proof.
  split.
  - intros path b perm s r s' [= <- <-]. eexists. simpl. by rewrite lookup_insert_eq.
  - intros path b perm s r s' q f [= <- <-] Hq Hf. simpl. by rewrite lookup_insert_ne.
Qed.

#[local] Instance oidc : OidcClient nat := {|
  Login _ _ _ _ n := (Ok tt, n);
  Logout _ n := (Ok tt, n);
  LoadConfig n := (Ok ("https://id.corp", "cli"), n);
  EnsureFreshTokens _ _ n := (Ok (mkTokens "jwt"), n);
  IDTokenClaims _ := mkIdClaims "" "alice";
  AppCacheDir sub := Ok ("/home/alice/.config/auth-sso/" +:+ sub);
|}.
#[local] Instance http : SignUserHttp nat := {|
  Do url auth req n := (Ok (200, "cert of " +:+ CPublicKey req), S n);
  decode_response raw := Ok (mkSignResp raw 1 "alice" ["alice"] 0 0);
|}.

Definition words : list string :=
  ["auth-ssh-creds"; "get"; "--certd"; "https://certd.corp/"; "-principals=alice, ops"; "--ttl"; "1h30m"; "--proxy-jump"; "proxy:22"].
Definition start : cli nat := mkCli (toy_host ∅) 0%nat.
Definition keyPath : string := "/home/alice/.config/auth-sso/ssh-creds/keys/id_ed25519".

(** Values as the next argument and after an equals sign. *)
Lemma words_read : get_line words =
  Some (mkGetFlags "https://certd.corp/" "alice, ops" "" (hour + 30 * minute) "" "" "" "proxy:22").
Proof. by vm_compute. Qed.


(** A command line that does not parse, a missing principal, and help. *)
Example exits :
  (main ["auth-ssh-creds"; "get"; "--certd"; "https://certd.corp"; "--ttl"; "14d"] start) = (2, start) ∧
  (main ["auth-ssh-creds"; "get"; "--certd"; "https://certd.corp"] start) = (2, start) ∧
  (main ["auth-ssh-creds"; "login"; "--issuer=https://id.corp"; "--client-id"; "cli"; "--device"] start).1 = 0 ∧
  (main ["auth-ssh-creds"; "login"; "--issuer=https://id.corp"; "--client-id"; "cli"; "--port"; "free"] start).1 = 2 ∧
  (main ["auth-ssh-creds"; "help"] start).1 = 0.
Proof. split_and!; by vm_compute. Qed.
End SshCredsExamples.
