(* ===== verification/Agentd.v ===== *)
(** * Agentd: what cert-agentd configures and runs

    Models [cmd/cert-agentd]: reading the environment ([main.go]), the extra
    workloads, the SSH user renewer and the ssh_config drop-in, the trust-bundle and
    SSH CA-key refreshers ([trustbundle.go], [sshcakeys.go]), the certificate check
    ([checkcert.go]) and the supervision of the components.  The environment is a
    function, the YAML library and the base library's [envutil.Or] are parameters;
    log lines are not modelled. *)

From S2P Require Import Prelude GoText GoTime GoFlag Signer X509Engine Files Client Renew UserCert.

(** [os.Getenv]: the empty string when unset. *)
Abbreviation env := (string → string) (only parsing).

(** ** Reading the environment *)

(** [strconv.ParseBool] with its error dropped. *)
Definition bool_or_false (s : string) : bool := match ParseBool s with inr b => b | inl _ => false end.

(** A variable that holds a positive number of seconds, as a [Duration]. *)
Definition positive_seconds (e : env) (var : string) (dflt : duration) : result duration :=
  let v := e var in
  if str_empty v then Ok dflt else
  match ParseInt v with
  | Ok n => if n <=? 0 then Err (ErrNew (var +:+ " " +:+ fmt_q v +:+ ": must be positive integer"))
            else Ok (seconds_to_duration n)
  | Err _ => Err (ErrNew (var +:+ " " +:+ fmt_q v +:+ ": must be positive integer"))
  end.

(** A comma-separated list, trimmed, without empty entries. *)
Definition comma_list (v : string) : list string :=
  List.filter (λ s, negb (str_empty s)) (TrimSpace <$> split_byte ","%char v).

(** The agent's own renewer, before [renew.New]. *)
Definition own_config (e : env) (certPath keyPath spiffeURI : string) : result Config :=
  ttl <-r positive_seconds e "CERT_AGENTD_TTL_SECONDS" 0;;
  Ok (mkConfig true spiffeURI (e "CERT_AGENTD_SUBJECT_CN") [] ""
    (bool_or_false (e "CERT_AGENTD_ROTATE_KEY")) (comma_list (e "CERT_AGENTD_GROUPS"))
    certPath keyPath ttl (mkFloat64 0 0) 0 0).

(** [AbortOnSignError] of the agent's own renewer: [exp] is the expiry of the
    identity it presents to certd. *)
Definition abort_when_expired (exp : time) (now since : time) (signErr : error) : option error :=
  if time_is_zero exp || time_before now exp then None
  else Some (ErrWrap ("own mTLS identity expired " +:+
                      duration_string (duration_round (time_sub since exp) second) +:+
                      " ago (not_after " +:+ format_rfc3339 exp +:+
                      "); renewal cannot succeed " +:+ String "226" (String "128" (String "148" "")) +:+
                      " exiting so a restart can re-seed bootstrap credentials: ") signErr "").

(** ** Extra workload certificates *)

Record workloadSpec := mkWorkloadSpec {
  Name : string; SpecURI : string; SubjectCN : string; SpecDNS : list string; SpecKeyType : string;
  SpecTTLSeconds : Z; CertPath : string; KeyPath : string; SpecRotateKey : bool }.

Definition spec_config (groups : list string) (s : workloadSpec) : Config :=
  mkConfig true (SpecURI s) (SubjectCN s) (SpecDNS s) (SpecKeyType s) (SpecRotateKey s) groups
    (CertPath s) (KeyPath s) (seconds_to_duration (SpecTTLSeconds s)) (mkFloat64 0 0) 0 0.

Fixpoint build_specs (specFile : string) (groups : list string) (i : Z) (specs : list workloadSpec)
    : result (list Config) :=
  match specs with
  | [] => Ok []
  | s :: specs =>
      reject str_empty (Name s) with ErrNew (specFile +:+ " entry " +:+ FormatInt i +:+ ": name is required");;
      cfg <-r rwrap (specFile +:+ " workload " +:+ fmt_q (Name s) +:+ ": ") (New (spec_config groups s));;
      cfgs <-r build_specs specFile groups (i + 1) specs;;
      Ok (cfg :: cfgs)
  end.

Section Agentd.
(** [yaml.Unmarshal] into the specs, and [envutil.Or]. *)
Context (decode_specs : string → result (list workloadSpec)) (env_or : string → string → string).
Context (e : env).

Definition buildWorkloadRenewers (groups : list string) : M fs (list Config) :=
  let specFile := e "CERT_AGENTD_WORKLOADS_FILE" in
  if str_empty specFile then mret [] else
  data <-m wrapped ("read " +:+ specFile +:+ ": ") (ReadFile specFile);;
  specs <-m lift (rwrap ("decode " +:+ specFile +:+ ": ") (decode_specs data));;
  lift (build_specs specFile groups 0 specs).

(** ** The SSH user renewer and the drop-in *)

(** [path.Base] of a path without a trailing slash. *)
Definition path_base (p : string) : string := if str_empty p then "." else base_name p.

Definition default_key_id (spiffeURI : string) : string :=
  "user:" +:+ path_base (trim_right "/"%char spiffeURI).

Definition buildUserCertRenewer (spiffeURI : string) : result (option UserCertConfig) :=
  let certPath := e "CERT_AGENTD_SSH_USER_CERT" in
  let keyPath := e "CERT_AGENTD_SSH_USER_KEY" in
  let principalsRaw := e "CERT_AGENTD_SSH_PRINCIPALS" in
  if str_empty certPath && str_empty keyPath && str_empty principalsRaw then Ok None else
  reject str_empty certPath || str_empty keyPath || str_empty principalsRaw with
    ErrNew "CERT_AGENTD_SSH_USER_CERT, _USER_KEY, and _PRINCIPALS must all be set together";;
  let principals := comma_list principalsRaw in
  reject bool_decide (principals = []) with ErrNew "CERT_AGENTD_SSH_PRINCIPALS is empty after trimming";;
  let keyID := if str_empty (e "CERT_AGENTD_SSH_KEY_ID") then default_key_id spiffeURI
               else e "CERT_AGENTD_SSH_KEY_ID" in
  ttl <-r positive_seconds e "CERT_AGENTD_SSH_TTL_SECONDS" 0;;
  cfg <-r NewUserCertRenewer
    (mkUserCertConfig true keyID principals certPath keyPath ∅ ∅ ttl (mkFloat64 0 0) 0 0);;
  Ok (Some cfg).

Definition writeSSHSnippetIfConfigured `{TempNames} : M fs unit :=
  let path := e "CERT_AGENTD_SSH_CONFIG_PATH" in
  if str_empty path then mret tt else
  let cert := e "CERT_AGENTD_SSH_USER_CERT" in
  let key := e "CERT_AGENTD_SSH_USER_KEY" in
  if str_empty cert || str_empty key
  then mfail (ErrNew "CERT_AGENTD_SSH_USER_CERT and CERT_AGENTD_SSH_USER_KEY are required when CERT_AGENTD_SSH_CONFIG_PATH is set (typically the same paths the SSH user cert renewer manages)")
  else _ <-m WriteAtomicTo []
               (mkSSHConfigSnippet (env_or "CERT_AGENTD_SSH_HOST_PATTERN" "*") cert key
                  (e "CERT_AGENTD_SSH_PROXY_JUMP") (e "CERT_AGENTD_SSH_USER") ∅) path;;
       mret tt.

(** ** The refreshers *)

Definition defaultTrustBundleRefresh : duration := hour.

Definition refresher (pathVar secondsVar : string) : result (option (string * duration)) :=
  let path := e pathVar in
  if str_empty path then Ok None else
  interval <-r positive_seconds e secondsVar defaultTrustBundleRefresh;;
  Ok (Some (path, interval)).

Definition buildTrustBundleRefresher : result (option (string * duration)) :=
  refresher "CERT_AGENTD_TRUST_BUNDLE_PATH" "CERT_AGENTD_TRUST_BUNDLE_REFRESH_SECONDS".
Definition buildSSHCAKeysRefresher : result (option (string * duration)) :=
  refresher "CERT_AGENTD_SSH_CA_KEYS_PATH" "CERT_AGENTD_SSH_CA_KEYS_REFRESH_SECONDS".

(** What [runAgent] sets up before it starts anything. *)
Record parts := mkParts {
  own : Config; user : option UserCertConfig; workloads : list Config;
  bundle : option (string * duration); ca_keys : option (string * duration) }.

Definition agent_parts `{TempNames} : M fs parts :=
  let spiffeURI := e "CERT_AGENTD_SPIFFE_URI" in
  cfg <-m lift (own_config e (e "CERT_AGENTD_WORKLOAD_CERT") (e "CERT_AGENTD_WORKLOAD_KEY") spiffeURI);;
  own <-m lift (rwrap "renewer: " (New cfg));;
  user <-m lift (rwrap "ssh user cert renewer: " (buildUserCertRenewer spiffeURI));;
  workloads <-m wrapped "workload cert renewers: " (buildWorkloadRenewers (WorkloadGroups cfg));;
  _ <-m wrapped "ssh-config snippet: " writeSSHSnippetIfConfigured;;
  bundle <-m lift (rwrap "trust-bundle refresher: " buildTrustBundleRefresher);;
  keys <-m lift (rwrap "ssh ca-keys refresher: " buildSSHCAKeysRefresher);;
  mret (mkParts own user workloads bundle keys).
End Agentd.

(** The components' results in the order they end: the first failure other than a
    cancellation is the agent's. *)
Fixpoint first_failure (ends : list (option error)) : option error :=
  match ends with
  | [] => None
  | Some err :: ends => if err_is err "context.Canceled" then first_failure ends else Some err
  | None :: ends => first_failure ends
  end.

Definition supervise (ends : list (option error)) : result unit :=
  match first_failure ends with
  | Some err => Err (ErrWrap "renewer: " err "")
  | None => Ok tt
  end.

(** One refresh of the file at [path]; it never fails. *)
Section Refresh.
Context `{TempNames} {N : Type} `{RestClient N}.

Definition refresh (fetch : M N string) (path : string) : M (agent unit N) unit := λ a,
  let '(r, a1) := net_op fetch a in
  match r with
  | Err _ => (Ok tt, a1)
  | Ok text =>
      if str_empty text then (Ok tt, a1) else
      let '(cur, a2) := disk_op (ReadFile path) a1 in
      if bool_decide (cur = Ok text) then (Ok tt, a2)
      else (Ok tt, (disk_op (WriteAtomic path text (octal 6 4 4)) a2).2)
  end.

Definition trust_bundle_refresh := refresh FetchTrustBundle.
Definition ssh_ca_keys_refresh := refresh FetchSSHCAKeys.

(** The runner: once up front, then at every tick. *)
Fixpoint run_ticks (fetch : M N string) (path : string) (ticks : nat) (a : agent unit N) : agent unit N :=
  let a' := (refresh fetch path a).2 in
  match ticks with O => a' | S ticks => run_ticks fetch path ticks a' end.
End Refresh.

(** ** [check-cert] *)

Section CheckCert.
Context `{CryptoLib, X509Lib}.

Definition check_text (path : string) (within : duration) (now : time) (data : string) : result unit :=
  match pem_decode data with
  | None => Err (ErrNew (path +:+ ": no PEM block"))
  | Some (_, der) =>
      cert <-r rwrap (path +:+ ": parse certificate: ") (ParseCertificate der);;
      reject time_before now (NotBefore cert) with
        ErrNew (path +:+ ": not valid until " +:+ format_rfc3339 (NotBefore cert));;
      reject time_after (time_add now within) (NotAfter cert) with
        ErrNew (path +:+ ": expires " +:+ format_rfc3339 (NotAfter cert) +:+ " (less than " +:+
                duration_string within +:+ " remaining)");;
      Ok tt
  end.

Definition checkCert (path : string) (within : duration) (now : time) : M fs unit :=
  data <-m ReadFile path;; lift (check_text path within now data).
End CheckCert.

(** ** The trust store through a bad server and a bad disk *)

Section FailSafe.
Context `{TempNames} {N : Type} `{RestClient N}.
Context (fetch : M N string) (path : string) (good : string → Prop).

(** Against [d0]: the file is the one it was or a whole, synced, non-empty text
    the server served; every other file is as it was. *)
Definition served (d0 d : disk) : Prop :=
  (∀ p, p ≠ path → is_temp p = false → d !! p = d0 !! p) ∧
  (d !! path = d0 !! path ∨
   ∃ f, d !! path = Some f ∧ content f ≠ "" ∧ good (content f) ∧ synced f = true).

Lemma served_refl d : served d d.
Proof. split; [done|by left]. Qed.

Lemma served_trans d0 d1 d2 : served d0 d1 → served d1 d2 → served d0 d2.
Proof.
  intros [Ho1 H1] [Ho2 H2]. split; [intros p Hp Ht; by rewrite Ho2, Ho1|].
  destruct H2 as [->|H2]; [done|by right].
Qed.

Lemma served_agree d0 d d' : is_temp path = false → served d0 d → agree d d' → served d0 d'.
Proof.
  intros Hp Hs Ha. eapply served_trans; [done|]. split; [intros p _ Ht; by apply Ha|left; by apply Ha].
Qed.

Lemma served_new d text m :
  text ≠ "" → good text → served d (<[path := mkFile text m true]> d).
Proof.
  intros Hne Hg. split; [intros p Hp _; by rewrite lookup_insert_ne|].
  right. exists (mkFile text m true). by rewrite lookup_insert_eq.
Qed.

Context (Hpath : is_temp path = false).
Context (Hgood : ∀ n text n', fetch n = (Ok text, n') → text ≠ "" → good text).

Lemma refresh_served a u a' :
  refresh fetch path a = (u, a') →
  traced (served (files (on_disk a))) (on_disk a) (on_disk a') ∧
  served (files (on_disk a)) (files (on_disk a')).
Proof using Hpath Hgood.
  unfold refresh, net_op, disk_op. destruct (fetch (net a)) as [r n1] eqn:Ef.
  assert (∀ a1 : agent unit N, on_disk a1 = on_disk a →
    traced (served (files (on_disk a))) (on_disk a) (on_disk a1) ∧
    served (files (on_disk a)) (files (on_disk a1))) as Hstay.
  { intros a1 ->. split; [apply traced_refl|apply served_refl]. }
  destruct r as [text|e]; [|intros [= _ <-]; by apply Hstay].
  unfold str_empty. case_bool_decide as Hne; [intros [= _ <-]; by apply Hstay|].
  pose proof (Hgood _ _ _ Ef Hne) as Hg. simpl.
  assert (∃ cur d2, ReadFile path (on_disk a) = (cur, d2) ∧ files d2 = files (on_disk a) ∧
    history d2 = history (on_disk a)) as (cur & d2 & -> & Hf2 & Hh2).
  { unfold ReadFile. destruct (read_faults _) as [|[e|] l]; by eexists _, _. }
  assert (∀ P, traced P (on_disk a) d2) as Htr2 by (intros P; exists []; by rewrite app_nil_r).
  case_bool_decide; [intros [= _ <-]; simpl; rewrite Hf2; split; [done|apply served_refl]|].
  simpl. destruct (WriteAtomic path text (octal 6 4 4) d2) as [r3 d3] eqn:E3.
  apply WriteAtomic_spec in E3 as (h1 & h2 & Hh & F1 & F2 & Hr3); [|done].
  rewrite Hf2 in F1, F2, Hr3. intros [= _ <-]. simpl. split.
  - exists (h1 ++ h2). split; [by rewrite Hh, Hh2|]. apply Forall_app. split.
    + eapply Forall_impl; [exact F1|]. intros d. apply served_agree; [done|apply served_refl].
    + eapply Forall_impl; [exact F2|]. intros d. by apply served_agree, served_new.
  - destruct r3 as [[]|e]; [by rewrite Hr3; apply served_new|].
    destruct Hr3 as [_ Ha]. by eapply served_agree; [|apply served_refl|].
Qed.

Lemma run_ticks_served k a :
  let a' := run_ticks fetch path k a in
  traced (served (files (on_disk a))) (on_disk a) (on_disk a') ∧
  served (files (on_disk a)) (files (on_disk a')).
Proof using Hpath Hgood.
  revert a. induction k as [|k IH]; intros a; simpl;
    destruct (refresh fetch path a) as [u a1] eqn:E; simpl;
    destruct (refresh_served _ _ _ E) as [T1 S1]; [done|].
  destruct (IH a1) as [T2 S2]. split; [|by eapply served_trans].
  eapply traced_trans; [done|]. eapply traced_weaken; [|done]. intros d. by apply served_trans.
Qed.

(** On a healthy disk a refresh installs what the server serves. *)
Lemma refresh_installs a text n u a' :
  fetch (net a) = (Ok text, n) → text ≠ "" → reads_ok (on_disk a) → script (on_disk a) = [] →
  refresh fetch path a = (u, a') → content <$> files (on_disk a') !! path = Some text.
Proof using Hpath.
  intros Ef Hne Hr Hs. unfold refresh, net_op, disk_op. rewrite Ef. simpl. unfold str_empty.
  rewrite bool_decide_false by done.
  destruct (ReadFile path (on_disk a)) as [cur d2] eqn:E2.
  assert (script d2 = []) as Hs2.
  { unfold ReadFile in E2. rewrite Hr in E2. by injection E2 as _ <-. }
  apply ReadFile_ok in E2 as (Hf & _ & ->); [|done].
  case_bool_decide as Hcur.
  - intros [= _ <-]. simpl. rewrite Hf.
    destruct (files (on_disk a) !! path) as [f|]; [|done]. injection Hcur as Hcur. simpl. by rewrite Hcur.
  - simpl. destruct (WriteAtomic path text (octal 6 4 4) d2) as [r3 d3] eqn:E3.
    pose proof (WriteAtomic_healthy path text (octal 6 4 4) d2 Hs2) as Hok. rewrite E3 in Hok. simpl in Hok.
    apply WriteAtomic_spec in E3 as (h1 & h2 & _ & _ & _ & Hr3); [|done]. rewrite Hok in Hr3.
    intros [= _ <-]. simpl. by rewrite Hr3, lookup_insert_eq.
Qed.

(** C36: the trust store is never emptied and catches up.  However the server
    answers and the disk fails, at every moment of a refresher's life the file at
    its path is the one it started with or a whole, synced, non-empty text the
    server served, and no other file changes; and as soon as the server serves a
    text and the disk works, one refresh installs that text, writing nothing when
    the file already holds it. *)
Theorem trust_store_fail_safe k a :
  let a' := run_ticks fetch path k a in
  traced (served (files (on_disk a))) (on_disk a) (on_disk a') ∧
  served (files (on_disk a)) (files (on_disk a')) ∧
  ∀ text n u a2, fetch (net a') = (Ok text, n) → text ≠ "" →
    reads_ok (on_disk a') → script (on_disk a') = [] → refresh fetch path a' = (u, a2) →
    content <$> files (on_disk a2) !! path = Some text ∧
    (content <$> files (on_disk a') !! path = Some text →
     files (on_disk a2) = files (on_disk a') ∧ history (on_disk a2) = history (on_disk a')).
Proof using Hpath Hgood.
  cbn zeta. destruct (run_ticks_served k a) as [T S]. split_and!; [done|done|].
  intros text n u a2 Ef Hne Hr Hs E. split; [by eapply refresh_installs|]. intros Hcur.
  unfold refresh, net_op, disk_op in E. rewrite Ef in E. simpl in E. unfold str_empty in E.
  rewrite bool_decide_false in E by done. unfold ReadFile in E. rewrite Hr in E. simpl in E.
  destruct (files _ !! path) as [f|]; [|done]. injection Hcur as <-.
  rewrite bool_decide_true in E by done. by injection E as _ <-.
Qed.
End FailSafe.

(** [check-cert] accepts exactly a readable certificate valid now and for [within]
    more. *)
Section CheckCertFacts.
Context `{CryptoLib, X509Lib}.

Lemma checkCert_accepts path within now s s' :
  reads_ok s →
  checkCert path within now s = (Ok tt, s') ↔
  s' = mkFs (files s) (script s) [] (history s) ∧
  ∃ f ty der cert, files s !! path = Some f ∧ pem_decode (content f) = Some (ty, der) ∧
    ParseCertificate der = Ok cert ∧ NotBefore cert ≤ now ∧ now + within ≤ NotAfter cert.
Proof.
  intros Hr. unfold checkCert, mbind, ReadFile. rewrite Hr. simpl.
  destruct (files s !! path) as [f|]; [|split; [done|by intros (_ & ? & ? & ? & ? & [=] & _)]]. unfold lift, check_text.
  destruct (pem_decode (content f)) as [[ty der]|] eqn:Hp; [|split; [done|intros (_ & ? & ? & ? & ? & [=] & ? & ? & _); subst; congruence]].
  destruct (ParseCertificate der) as [cert|] eqn:Hc; simpl; [|split; [done|intros (_ & ? & ? & ? & ? & [=] & ? & ? & _); subst; congruence]].
  unfold guard_err, time_before, time_after, time_add.
  destruct (Z.ltb_spec now (NotBefore cert)) as [Hn|Hn].
  { split; [done|]. intros (_ & f' & ty' & der' & c' & [= <-] & Hp' & Hc' & ? & ?). exfalso. assert (c' = cert) by congruence. subst. lia. }
  destruct (Z.ltb_spec (NotAfter cert) (now + within)) as [Hw|Hw].
  { split; [done|]. intros (_ & f' & ty' & der' & c' & [= <-] & Hp' & Hc' & ? & ?). exfalso. assert (c' = cert) by congruence. subst. lia. }
  split; [intros [= <-]; split; [done|by eexists _, _, _, _]|]. by intros [-> _].
Qed.
End CheckCertFacts.

(** ** An instance: a server that fails, answers, and answers with nothing *)
Module AgentdExamples.
Import FilesExamples.

#[export] Instance moody : RestClient nat := {|
  post_workload _ _ := λ n, (Err (ErrOpaque "refused"), n);
  post_adopt _ _ := λ n, (Err (ErrOpaque "refused"), n);
  post_user _ _ := λ n, (Err (ErrOpaque "refused"), n);
  get_bundle _ := λ n, (match n with O => Err (ErrOpaque "timeout") | 1%nat => Ok "" | _ => Ok "new CA" end, S n);
  get_ca_keys _ := λ n, (Ok "", n);
|}.

Definition old_store : agent unit nat :=
  mkAgent tt (mkFs {[ "/run/ca.pem" := mkFile "old CA" 420 true ]} [] [] []) O.

Lemma trust_store_fail_safe_witness :
  let a' := run_ticks FetchTrustBundle "/run/ca.pem" 1 old_store in
  content <$> files (on_disk a') !! "/run/ca.pem" = Some "old CA" ∧
  content <$> files (on_disk (trust_bundle_refresh "/run/ca.pem" a').2) !! "/run/ca.pem" = Some "new CA".
Proof.
  intros a'. split; [by vm_compute|].
  destruct (trust_store_fail_safe FetchTrustBundle "/run/ca.pem" (λ t, t = "new CA")) with (k := 1%nat) (a := old_store)
    as (_ & _ & H).
  - by vm_compute.
  - intros [|[|n]] text n' E Hne; cbv in E; [done|by injection E as <- _|by injection E as <- _].
  - destruct (trust_bundle_refresh "/run/ca.pem" a') as [u a2] eqn:E.
    destruct (H "new CA" 3%nat u a2) as [Hc _]; [by vm_compute|done|by vm_compute|by vm_compute|exact E|exact Hc].
Defined.
End AgentdExamples.
