(* ===== verification/Supervise.v ===== *)
(** * Supervise: the goroutines of cert-agentd

    Models the end of [runAgent] ([cmd/cert-agentd/main.go]): one goroutine per
    component under a context that the first result cancels, the buffered error
    channel, and the loop that takes one result per component and remembers the
    first one that is a failure.  The goroutines interleave in any order; a step
    is a piece of a component's work, its return, its send on the channel, one
    turn of the collecting loop, or the shutdown signal.

    The components of the agent are select loops: a round of work, then a wait for
    the timer or the context.  A round is one step here, on the file system and the
    network that all components share.  The poller of the CA bundle is code of the
    base library and a parameter. *)

From S2P Require Import Prelude GoText Signer X509Engine Files Client Renew UserCert Agentd ToyCA.

(** ** Components

    [work c g w g' w']: a step of a component from [w] to [w'] on the shared world
    [g], when the context is cancelled iff [c]; [returns c g w g' r]: its function may
    return [r], leaving [g']. *)
Class Component (G W : Type) := {
  work : bool → G → W → G → W → Prop;
  returns : bool → G → W → G → option error → Prop;
}.

(** What the supervisor relies on: once the context is cancelled a component does
    finitely much and then returns. *)
Class ComponentLaws (G W : Type) `{Component G W} := {
  cancelled_finite : well_founded (λ w' w, ∃ g g', work true g w g' w');
  cancelled_live g w : (∃ g' w', work true g w g' w') ∨ ∃ g' r, returns true g w g' r;
}.

(** ** The supervisor *)

(** A goroutine [errCh <- run(rootCtx)]: in [run], at the send, or gone. *)
Inductive goroutine (W : Type) :=
  | Working (w : W)
  | Sending (r : option error)
  | Exited (r : option error).
Arguments Working {W} w.
Arguments Sending {W} r.
Arguments Exited {W} r.

(** [received]: the results the collecting loop has taken; its length is the
    number of turns done. *)
Record state (G W : Type) := mkState {
  world : G;
  gs : list (goroutine W);
  errCh : list (option error);
  received : list (option error);
  firstErr : option error;
  ctx_done : bool;
  outcome : option (result unit);
}.
Arguments mkState {G W}.
Arguments world {G W}.
Arguments gs {G W}.
Arguments errCh {G W}.
Arguments received {G W}.
Arguments firstErr {G W}.
Arguments ctx_done {G W}.
Arguments outcome {G W}.

(** [if firstErr == nil && err != nil && !errors.Is(err, context.Canceled)] *)
Definition note_error (first err : option error) : option error :=
  match first, err with
  | None, Some e => if err_is e "context.Canceled" then None else Some e
  | _, _ => first
  end.

(** What [runAgent] returns after the loop. *)
Definition agent_result (first : option error) : result unit :=
  match first with
  | Some e => Err (ErrWrap "renewer: " e "")
  | None => Ok tt
  end.

Section Supervisor.
Context {G W : Type} `{Component G W}.

Definition start (g : G) (runners : list W) : state G W :=
  mkState g (Working <$> runners) [] [] None false None.

(** The channel has room for one result per runner. *)
Definition cap (s : state G W) : nat := length (gs s).

Inductive step : state G W → state G W → Prop :=
  | runner_works s i w g' w' :
      gs s !! i = Some (Working w) → work (ctx_done s) (world s) w g' w' →
      step s (mkState g' (<[i := Working w']> (gs s)) (errCh s) (received s) (firstErr s)
                (ctx_done s) (outcome s))
  | runner_returns s i w g' r :
      gs s !! i = Some (Working w) → returns (ctx_done s) (world s) w g' r →
      step s (mkState g' (<[i := Sending r]> (gs s)) (errCh s) (received s) (firstErr s)
                (ctx_done s) (outcome s))
  | runner_sends s i r :
      gs s !! i = Some (Sending r) → (length (errCh s) < cap s)%nat →
      step s (mkState (world s) (<[i := Exited r]> (gs s)) (errCh s ++ [r]) (received s) (firstErr s)
                (ctx_done s) (outcome s))
  | collects s r rest :
      (length (received s) < length (gs s))%nat → errCh s = r :: rest →
      step s (mkState (world s) (gs s) rest (received s ++ [r]) (note_error (firstErr s) r)
                true (outcome s))
  | finishes s :
      length (received s) = length (gs s) → outcome s = None →
      step s (mkState (world s) (gs s) (errCh s) (received s) (firstErr s) true
                (Some (agent_result (firstErr s))))
  | shutdown s :
      ctx_done s = false →
      step s (mkState (world s) (gs s) (errCh s) (received s) (firstErr s) true (outcome s)).

(** ** Invariants *)

Definition exited (g : goroutine W) : option (option error) :=
  match g with Exited r => Some r | _ => None end.

Record inv (s : state G W) : Prop := {
  inv_sent : omap exited (gs s) ≡ₚ received s ++ errCh s;
  inv_first : firstErr s = first_failure (received s);
  inv_outcome o : outcome s = Some o →
    length (received s) = length (gs s) ∧ o = agent_result (firstErr s);
  inv_cancelled : received s ≠ [] → ctx_done s = true;
}.

Lemma first_failure_snoc l r : first_failure (l ++ [r]) = note_error (first_failure l) r.
Proof.
  induction l as [|[e|] l IH]; simpl; [by destruct r|rewrite IH..]; [|done].
  by destruct (err_is e "context.Canceled").
Qed.

Lemma start_inv g runners : inv (start g runners).
Proof.
  split; simpl; try done.
  induction runners as [|w l IH]; simpl; [done|]. exact IH.
Qed.

Lemma omap_exited_insert_Exited (l : list (goroutine W)) i r r' :
  l !! i = Some (Sending r) → omap exited (<[i := Exited r']> l) ≡ₚ r' :: omap exited l.
Proof.
  revert i. induction l as [|g l IH]; intros [|i] E; simplify_eq/=; [done|].
  destruct (exited g); rewrite IH by done; [by rewrite Permutation_swap|done].
Qed.

Lemma omap_exited_insert (l : list (goroutine W)) i w g :
  l !! i = Some (Working w) → exited g = None → omap exited (<[i := g]> l) = omap exited l.
Proof.
  revert i. induction l as [|h l IH]; intros [|i] E Eg; simplify_eq/=; [by rewrite Eg|].
  by rewrite IH.
Qed.

Lemma step_inv s s' : inv s → step s s' → inv s'.
Proof.
  intros [Hsent Hfirst Hout Hcan] Hst.
  destruct Hst as [s i w g' w' Hi Hw|s i w g' r Hi Hr|s i r Hi Hc|s r rest Hlt He|s Hlen Ho|s Hd];
    split; simpl in *; rewrite ?length_insert; try done.
  - by erewrite omap_exited_insert.
  - by erewrite omap_exited_insert.
  - rewrite omap_exited_insert_Exited by done. rewrite Hsent.
    rewrite app_assoc. by rewrite (Permutation_app_comm _ [r]).
  - by rewrite Hsent, He, <- app_assoc.
  - by rewrite first_failure_snoc, Hfirst.
  - intros o Heq. apply Hout in Heq as [Hl _]. lia.
  - by intros o [= <-].
Qed.

Lemma reachable_inv g runners s : rtc step (start g runners) s → inv s.
Proof.
  intros Hr. pose proof (start_inv g runners) as Hi. revert Hi.
  induction Hr as [s|s s' s'' Hst _ IH]; intros Hi; [done|]. by apply IH, (step_inv s).
Qed.

(** The number of goroutines is that of the runners. *)
Lemma step_cap s s' : step s s' → length (gs s') = length (gs s).
Proof. destruct 1; simpl; by rewrite ?length_insert. Qed.

Lemma ctx_done_step s s' : step s s' → ctx_done s = true → ctx_done s' = true.
Proof. by destruct 1. Qed.

Lemma ctx_done_steps s s' : rtc step s s' → ctx_done s = true → ctx_done s' = true.
Proof. induction 1; [done|]. intros. eauto using ctx_done_step. Qed.

Lemma exited_at_most (l : list (goroutine W)) : (length (omap exited l) ≤ length l)%nat.
Proof.
  induction l as [|g l IH]; simpl; [done|].
  destruct (exited g); simpl; [by apply le_n_S|by apply le_S].
Qed.

(** A channel with room: a goroutine that is not gone has not used its place. *)
Lemma exited_length (l : list (goroutine W)) i r :
  l !! i = Some (Sending r) → (length (omap exited l) < length l)%nat.
Proof.
  revert i. induction l as [|g l IH]; intros [|i] E; simplify_eq/=.
  - apply Nat.lt_succ_r, exited_at_most.
  - apply IH in E. destruct (exited g); simpl; [by apply (proj1 (Nat.succ_lt_mono _ _))|by apply Nat.lt_lt_succ_r].
Qed.

Lemma send_has_room s i r : inv s → gs s !! i = Some (Sending r) → (length (errCh s) < cap s)%nat.
Proof.
  intros Hinv Hi. pose proof (exited_length _ _ _ Hi) as Hlt.
  rewrite (inv_sent s Hinv), length_app in Hlt. unfold cap. lia.
Qed.

Lemma exited_all (l : list (goroutine W)) :
  (∀ i g, l !! i = Some g → is_Some (exited g)) → length (omap exited l) = length l.
Proof.
  induction l as [|g l IH]; intros Hl; simpl; [done|].
  destruct (Hl 0%nat g eq_refl) as [r ->]. simpl. f_equal. apply IH. intros i. apply (Hl (S i)).
Qed.

(** ** Every run ends *)

(** A goroutine's progress once the context is cancelled. *)
Inductive goes : goroutine W → goroutine W → Prop :=
  | goes_work w w' : (∃ g g', work true g w g' w') → goes (Working w') (Working w)
  | goes_return w r : goes (Sending r) (Working w)
  | goes_send r r' : goes (Exited r') (Sending r).

Lemma goes_wf `{!ComponentLaws G W} : well_founded goes.
Proof.
  assert (∀ r, Acc goes (Exited r)) as He by (intros r; constructor; inversion 1).
  assert (∀ r, Acc goes (Sending r)) as Hs.
  { intros r. constructor. intros y Hy. inversion Hy; subst. apply He. }
  intros [w|r|r]; [|done..].
  induction (cancelled_finite w) as [w _ IH]. constructor. intros y Hy. inversion Hy; subst; [|done].
  by apply IH.
Qed.

(** One element of a list goes down, the others stay. *)
Inductive one_goes {A} (R : A → A → Prop) : list A → list A → Prop :=
  | one_here x x' l : R x' x → one_goes R (x' :: l) (x :: l)
  | one_later x l l' : one_goes R l' l → one_goes R (x :: l') (x :: l).

Lemma one_goes_wf {A} (R : A → A → Prop) : well_founded R → well_founded (one_goes R).
Proof.
  intros HR l. induction l as [|x l IHl].
  { constructor. intros y Hy. inversion Hy. }
  revert l IHl. induction (HR x) as [x _ IHx]. intros l Hl.
  induction Hl as [l Hacc IHl]. constructor. intros y Hy. inversion Hy; subst.
  - apply IHx; [done|]. by constructor.
  - by apply IHl.
Qed.

Lemma insert_one_goes {A} (R : A → A → Prop) (l : list A) i x x' :
  l !! i = Some x → R x' x → one_goes R (<[i := x']> l) l.
Proof.
  revert i. induction l as [|y l IH]; intros [|i] E HR; simplify_eq/=; constructor; [done|by apply IH].
Qed.

(** What is left for the collecting loop. *)
Definition left_over (s : state G W) : nat :=
  length (gs s) - length (received s) + (if outcome s then 0 else 1).

Lemma step_goes s s' :
  ctx_done s = true → step s s' →
  one_goes goes (gs s') (gs s) ∨ (gs s' = gs s ∧ (left_over s' < left_over s)%nat).
Proof.
  intros Hd Hst. unfold left_over.
  destruct Hst as [s i w g' w' Hi Hw|s i w g' r Hi Hr|s i r Hi Hc|s r rest Hlt He|s Hlen Ho|s Hn]; simpl in *.
  - left. rewrite Hd in Hw. eapply insert_one_goes; [done|]. constructor. by exists (world s), g'.
  - left. eapply insert_one_goes; [done|]. constructor.
  - left. eapply insert_one_goes; [done|]. constructor.
  - right. rewrite length_app. simpl. split; [done|]. lia.
  - right. rewrite Ho. split; [done|]. lia.
  - congruence.
Qed.

Lemma cancelled_terminates `{!ComponentLaws G W} s :
  ctx_done s = true → Acc (λ s' s, step s s') s.
Proof.
  intros Hd. remember (gs s) as l eqn:El. revert s Hd El.
  induction (one_goes_wf goes goes_wf l) as [l _ IHl]. intros s Hd El.
  remember (left_over s) as n eqn:En. revert s Hd El En.
  induction (lt_wf n) as [n _ IHn]. intros s Hd El En. constructor. intros s' Hst.
  pose proof (ctx_done_step s s' Hst Hd) as Hd'.
  destruct (step_goes s s' Hd Hst) as [Hg|[Hg Hlt]].
  - apply (IHl (gs s')); [by rewrite El|done|done].
  - apply (IHn (left_over s')); [by rewrite En|done|by rewrite Hg|done].
Qed.

(** ** No run gets stuck *)

Lemma stuck_finished `{!ComponentLaws G W} s :
  inv s → ctx_done s = true → (∀ s', ¬ step s s') →
  (∀ i g, gs s !! i = Some g → is_Some (exited g)) ∧ errCh s = [] ∧
  outcome s = Some (supervise (received s)) ∧ omap exited (gs s) ≡ₚ received s.
Proof.
  intros Hinv Hd Hstuck.
  assert (∀ i g, gs s !! i = Some g → is_Some (exited g)) as Hall.
  { intros i [w|r|r] Hi; [..|by exists r].
    - destruct (cancelled_live (world s) w) as [(g' & w' & Hw)|(g' & r & Hr)]; rewrite <- Hd in *;
        by destruct (Hstuck _ ltac:(by econstructor)).
    - destruct (Hstuck _ (runner_sends s i r Hi (send_has_room s i r Hinv Hi))). }
  pose proof (exited_all _ Hall) as Hlen. pose proof (inv_sent s Hinv) as Hsent.
  rewrite Hsent, length_app in Hlen.
  destruct (errCh s) as [|r rest] eqn:Ech.
  2: { destruct (Hstuck _ (collects s r rest ltac:(simpl in Hlen; lia) Ech)). }
  simpl in Hlen. rewrite app_nil_r in Hsent. split; [done|]. split; [done|].
  destruct (outcome s) as [o|] eqn:Eo.
  - apply (inv_outcome s Hinv) in Eo as [_ ->]. rewrite (inv_first s Hinv). by split.
  - destruct (Hstuck _ (finishes s ltac:(lia) Eo)).
Qed.

(** The supervisor's own steps take a returned result to the cancellation. *)
Lemma collect_first s r rest :
  errCh s = r :: rest → (length (received s) < length (gs s))%nat →
  ∃ s', rtc step s s' ∧ ctx_done s' = true.
Proof. intros He Hlt. eexists. split; [eapply rtc_once, collects; done|done]. Qed.

Lemma returned_cancels s i g :
  inv s → gs s !! i = Some g → (∀ w, g ≠ Working w) → ∃ s', rtc step s s' ∧ ctx_done s' = true.
Proof.
  intros Hinv Hi Hg. destruct (ctx_done s) eqn:Hd; [by exists s|].
  assert (received s = []) as Hrec.
  { destruct (received s) eqn:E; [done|]. pose proof (inv_cancelled s Hinv) as Hc. rewrite E in Hc.
    rewrite Hc in Hd; done. }
  assert (0 < length (gs s))%nat as Hpos by (apply lookup_lt_Some in Hi; lia).
  destruct g as [w|r|r]; [by destruct (Hg w)|..].
  - pose proof (runner_sends s i r Hi (send_has_room s i r Hinv Hi)) as Hst.
    set (s1 := mkState _ _ _ _ _ _ _) in Hst.
    destruct (errCh s1) as [|r1 rest] eqn:E1; [by destruct (app_cons_not_nil (errCh s) [] r)|].
    destruct (collect_first s1 r1 rest E1) as (s2 & H2 & Hd2).
    { rewrite (step_cap _ _ Hst). by replace (received s1) with (@nil (option error)). }
    exists s2. split; [|done]. by eapply rtc_l.
  - destruct (errCh s) as [|r1 rest] eqn:E1.
    + pose proof (inv_sent s Hinv) as Hs. rewrite Hrec, E1 in Hs.
      assert (r ∈ omap exited (gs s)) as Hin.
      { apply list_elem_of_omap. exists (Exited r). split; [by eapply list_elem_of_lookup_2|done]. }
      rewrite Hs in Hin. by apply elem_of_nil in Hin.
    + apply (collect_first s r1 rest E1). by rewrite Hrec.
Qed.

(** C39: cert-agentd always comes down, whatever order its components run in.
    Take any state its goroutines can reach.  (1) Once the context is cancelled,
    by the signal or because a component ended, no run goes on forever; and a run
    that can go no further has joined every component: no goroutine is left at its
    work or at its send, no result is left in the channel, and the agent returned
    the first failure, in the order the results arrived, that is not a
    cancellation, or success when there is none.  (2) A component that has ended
    is enough: the supervisor can get from there to the cancellation without any
    other component doing anything. *)
Theorem agent_comes_down `{!ComponentLaws G W} g runners s :
  rtc step (start g runners) s →
  (ctx_done s = true →
     Acc (λ s' s, step s s') s ∧
     ∀ s', rtc step s s' → (∀ s'', ¬ step s' s'') →
       (∀ i x, gs s' !! i = Some x → is_Some (exited x)) ∧ errCh s' = [] ∧
       outcome s' = Some (supervise (received s')) ∧
       omap exited (gs s') ≡ₚ received s') ∧
  (∀ i x, gs s !! i = Some x → (∀ w, x ≠ Working w) →
     ∃ s', rtc step s s' ∧ ctx_done s' = true).
Proof.
  intros Hr. pose proof (reachable_inv g runners s Hr) as Hinv. split.
  - intros Hd. split; [by apply cancelled_terminates|]. intros s' Hs' Hstuck.
    apply stuck_finished; [|by eapply ctx_done_steps|done].
    apply (reachable_inv g runners). by etrans.
  - intros i x Hi Hx. by eapply returned_cancels.
Qed.
End Supervisor.

(** ** Select loops

    [turn g a g' a' o]: one turn of the body, from the loop's own state [a] to
    [a']; with [Some e] the loop is left with that error.  After the body the loop
    waits for its timer or the context.  Both may be ready only if the timer fired
    before the context was cancelled: a timer started later is not ready at once,
    since every wait of these loops is positive. *)
Inductive phase (A : Type) := Round (a : A) | Select (late : bool) (a : A).
Arguments Round {A} a.
Arguments Select {A} late a.

Definition ctx_canceled : error := ErrSentinel "context.Canceled" "context canceled".

Section Loop.
Context {G A : Type} (turn : G → A → G → A → option error → Prop).

Inductive loop_work : bool → G → phase A → G → phase A → Prop :=
  | loop_turn c g a g' a' : turn g a g' a' None → loop_work c g (Round a) g' (Select c a')
  | loop_timer c g a : loop_work c g (Select false a) g (Round a).

Inductive loop_returns : bool → G → phase A → G → option error → Prop :=
  | loop_left c g a g' a' e : turn g a g' a' (Some e) → loop_returns c g (Round a) g' (Some e)
  | loop_cancelled late g a : loop_returns true g (Select late a) g (Some ctx_canceled).

Lemma loop_finite : well_founded (λ p' p, ∃ g g', loop_work true g p g' p').
Proof.
  assert (∀ a, Acc (λ p' p, ∃ g g', loop_work true g p g' p') (Select true a)) as H1.
  { intros a. constructor. intros y (g & g' & Hy). inversion Hy. }
  assert (∀ a, Acc (λ p' p, ∃ g g', loop_work true g p g' p') (Round a)) as H2.
  { intros a. constructor. intros y (g & g' & Hy). inversion Hy; subst. apply H1. }
  intros [a|[] a]; [done|done|]. constructor. intros y (g & g' & Hy). inversion Hy; subst. apply H2.
Qed.

Lemma loop_live g p :
  (∀ g a, ∃ g' a' o, turn g a g' a' o) →
  (∃ g' p', loop_work true g p g' p') ∨ ∃ g' r, loop_returns true g p g' r.
Proof.
  intros Ht. destruct p as [a|late a].
  - destruct (Ht g a) as (g' & a' & [e|] & Hturn); [right|left]; do 2 eexists; by econstructor.
  - right. do 2 eexists. constructor.
Qed.

(** A step of a loop on its own, before the cancellation. *)
Definition loop_step (x y : G * phase A) : Prop := loop_work false x.1 x.2 y.1 y.2.
End Loop.

(** ** The components of the agent *)

Section Agent.
Context `{CryptoLib, X509Lib, KeyLib, SshKeyLib, TempNames} {N : Type} `{RestClient N}.

(** The file system and the network, shared by all components. *)
Abbreviation shared := (fs * N)%type (only parsing).

Definition shared_of {K} (a : agent K N) : shared := (on_disk a, net a).

(** A turn of [Renewer.Run]; [aborts] are the verdicts [AbortOnSignError] can give. *)
Definition renewer_turn (aborts : (error → option error) → Prop) (cfg : Config)
    (g : shared) (k : Renewer) (g' : shared) (k' : Renewer) (o : option error) : Prop :=
  ∃ c, aborts (AbortOnSignError c) ∧
  let '(r, a') := SignOnce cfg c (mkAgent k g.1 g.2) in
  g' = shared_of a' ∧ k' = rn a' ∧
  o = match r with Err e => AbortOnSignError c e | Ok _ => None end.

(** The agent's own renewer gives up when its identity has expired; those of the
    extra workloads never do. *)
Definition own_aborts (f : error → option error) : Prop :=
  ∃ exp now since, f = abort_when_expired exp now since.
Definition no_aborts (f : error → option error) : Prop := f = λ _, None.

Definition user_turn (cfg : UserCertConfig) (g : shared) (k : UserCertRenewer) (g' : shared)
    (k' : UserCertRenewer) (o : option error) : Prop :=
  ∃ c, let a' := (SignUserOnce cfg c (mkAgent k g.1 g.2)).2 in
  g' = shared_of a' ∧ k' = rn a' ∧ o = None.

Definition refresh_turn (fetch : M N string) (path : string) (g : shared) (_ : unit) (g' : shared)
    (_ : unit) (o : option error) : Prop :=
  g' = shared_of (refresh fetch path (mkAgent tt g.1 g.2)).2 ∧ o = None.

Context {P : Type} `{PollC : Component shared P, PollL : !ComponentLaws shared P}.

Inductive runner :=
  | OwnRenewer (cfg : Config) (p : phase Renewer)
  | Poller (w : P)
  | UserRenewer (cfg : UserCertConfig) (p : phase UserCertRenewer)
  | BundleRefresher (path : string) (p : phase unit)
  | KeysRefresher (path : string) (p : phase unit)
  | WorkloadRenewer (cfg : Config) (p : phase Renewer).

(** [runners] of [runAgent], from what it set up. *)
Definition agent_runners (poll : P) (p : parts) : list runner :=
  [OwnRenewer (own p) (Round (mkRenewer None "" false)); Poller poll] ++
  match user p with Some cfg => [UserRenewer cfg (Round (mkUserCertRenewer None))] | None => [] end ++
  match bundle p with Some (path, _) => [BundleRefresher path (Round tt)] | None => [] end ++
  match ca_keys p with Some (path, _) => [KeysRefresher path (Round tt)] | None => [] end ++
  ((λ cfg, WorkloadRenewer cfg (Round (mkRenewer None "" false))) <$> workloads p).

Definition runner_work (c : bool) (g : shared) (w : runner) (g' : shared) (w' : runner) : Prop :=
  match w with
  | OwnRenewer cfg p => ∃ p', w' = OwnRenewer cfg p' ∧ loop_work (renewer_turn own_aborts cfg) c g p g' p'
  | Poller x => ∃ x', w' = Poller x' ∧ work c g x g' x'
  | UserRenewer cfg p => ∃ p', w' = UserRenewer cfg p' ∧ loop_work (user_turn cfg) c g p g' p'
  | BundleRefresher path p =>
      ∃ p', w' = BundleRefresher path p' ∧ loop_work (refresh_turn FetchTrustBundle path) c g p g' p'
  | KeysRefresher path p =>
      ∃ p', w' = KeysRefresher path p' ∧ loop_work (refresh_turn FetchSSHCAKeys path) c g p g' p'
  | WorkloadRenewer cfg p =>
      ∃ p', w' = WorkloadRenewer cfg p' ∧ loop_work (renewer_turn no_aborts cfg) c g p g' p'
  end.

Definition runner_return (c : bool) (g : shared) (w : runner) (g' : shared) (r : option error) : Prop :=
  match w with
  | OwnRenewer cfg p => loop_returns (renewer_turn own_aborts cfg) c g p g' r
  | Poller x => returns c g x g' r
  | UserRenewer cfg p => loop_returns (user_turn cfg) c g p g' r
  | BundleRefresher path p => loop_returns (refresh_turn FetchTrustBundle path) c g p g' r
  | KeysRefresher path p => loop_returns (refresh_turn FetchSSHCAKeys path) c g p g' r
  | WorkloadRenewer cfg p => loop_returns (renewer_turn no_aborts cfg) c g p g' r
  end.

#[export] Instance runner_component : Component shared runner := {
  work := runner_work;
  returns := runner_return;
}.

(** A component inside the sum goes down as it does alone. *)
Lemma Acc_inside {X Y} (R : X → X → Prop) (S : Y → Y → Prop) (f : X → Y) x :
  (∀ x y, S y (f x) → ∃ x', y = f x' ∧ R x' x) → Acc R x → Acc S (f x).
Proof.
  intros Hf Hx. induction Hx as [x _ IH]. constructor. intros y Hy.
  destruct (Hf x y Hy) as (x' & -> & Hx'). by apply IH.
Qed.

Lemma renewer_turn_total (aborts : (error → option error) → Prop) f cfg g k :
  aborts f → ∃ g' k' o, renewer_turn aborts cfg g k g' k' o.
Proof.
  intros Hf. unfold renewer_turn.
  destruct (SignOnce cfg (mkCycle (Err ctx_canceled) 0 0 f false) (mkAgent k g.1 g.2)) as [r a'] eqn:E.
  eexists _, _, _, (mkCycle (Err ctx_canceled) 0 0 f false). split; [exact Hf|]. by rewrite E.
Qed.

#[export] Instance runner_laws : ComponentLaws shared runner.
Proof.
  split.
  - intros [cfg p|x|cfg p|path p|path p|cfg p].
    all: match goal with
      | |- Acc _ (Poller _) => eapply (Acc_inside _ _ Poller), cancelled_finite
      | |- Acc _ (?f ?p) => eapply (Acc_inside _ _ f p), loop_finite
      end.
    all: intros x0 y (g & g' & x' & -> & Hw); exists x'; (split; [done|]); by exists g, g'.
  - intros g w.
    assert (∀ p cfg aborts f, aborts f →
      (∃ g' p', loop_work (renewer_turn aborts cfg) true g p g' p') ∨
      ∃ g' r, loop_returns (renewer_turn aborts cfg) true g p g' r) as Hren.
    { intros p cfg aborts f Hf. apply loop_live. intros. by eapply renewer_turn_total. }
    destruct w as [cfg p|x|cfg p|path p|path p|cfg p]; simpl.
    + destruct (Hren p cfg own_aborts (abort_when_expired 0 0 0)) as [(g' & p' & ?)|?];
        [by exists 0, 0, 0|left; by eauto|by right].
    + destruct (cancelled_live g x) as [(g' & x' & ?)|?]; [left; by eauto|by right].
    + destruct (loop_live (user_turn cfg) g p) as [(g' & p' & ?)|?]; [|left; by eauto|by right].
      intros g0 k. eexists _, _, _, (mkUserCycle (Err ctx_canceled) 0 false). done.
    + destruct (loop_live (refresh_turn FetchTrustBundle path) g p) as [(g' & p' & ?)|?];
        [|left; by eauto|by right]. intros g0 []. by eexists _, tt, _.
    + destruct (loop_live (refresh_turn FetchSSHCAKeys path) g p) as [(g' & p' & ?)|?];
        [|left; by eauto|by right]. intros g0 []. by eexists _, tt, _.
    + destruct (Hren p cfg no_aborts (λ _, None)) as [(g' & p' & ?)|?]; [done|left; by eauto|by right].
Qed.

(** The loop of the renewer is [Renew.Run]: a run through a sequence of rounds is a
    run of the transition system, to the same end. *)
Lemma Run_is_loop aborts cfg cs a :
  Forall (λ c, aborts (AbortOnSignError c)) cs →
  let turn := renewer_turn aborts cfg in
  match Run cfg cs a with
  | (Aborted e, _, a') => ∃ g k, rtc (loop_step turn) (shared_of a, Round (rn a)) (g, Round k) ∧
      loop_returns turn false g (Round k) (shared_of a') (Some e)
  | (Cancelled, _, a') => ∃ k, rtc (loop_step turn) (shared_of a, Round (rn a)) (shared_of a', Select false k) ∧
      loop_returns turn true (shared_of a') (Select false k) (shared_of a') (Some ctx_canceled)
  | (Running, _, a') => rtc (loop_step turn) (shared_of a, Round (rn a)) (shared_of a', Round (rn a'))
  end.
Proof.
  intros Hcs turn. revert a. induction Hcs as [|c cs Hc _ IH]; intros a; simpl; [constructor|].
  destruct a as [k d n]. destruct (SignOnce cfg c (mkAgent k d n)) as [r a1] eqn:E.
  assert (turn (d, n) k (shared_of a1) (rn a1)
    match r with Err e => AbortOnSignError c e | Ok _ => None end) as Hturn.
  { exists c. split; [exact Hc|]. simpl. by rewrite E. }
  assert (∀ o, o = None → match r with Err e => AbortOnSignError c e | Ok _ => None end = o →
    loop_step turn (d, n, Round k) (shared_of a1, Select false (rn a1)) ∧
    rtc (loop_step turn) (d, n, Round k) (shared_of a1, Round (rn a1))) as Hgo.
  { intros o Ho Hr. rewrite Hr, Ho in Hturn.
    assert (loop_step turn (d, n, Round k) (shared_of a1, Select false (rn a1))) as Hst by by constructor.
    split; [done|]. eapply rtc_l; [exact Hst|]. apply rtc_once. constructor. }
  specialize (IH a1).
  destruct r as [[va vb]|e]; [|destruct (AbortOnSignError c e) as [ab|] eqn:Eab].
  2: { exists (d, n), k. split; [constructor|]. econstructor. exact Hturn. }
  all: destruct (Hgo None eq_refl ltac:(done)) as [Hst Hrtc]; destruct (cancelled c);
    [exists (rn a1); split; [by apply rtc_once|constructor]|];
    destruct (Run cfg cs a1) as [[o ws] a2]; destruct o as [e'| |];
    [destruct IH as (g & k' & ? & ?); exists g, k'; split; [by etrans|done]|
     destruct IH as (k' & ? & ?); exists k'; split; [by etrans|done]|by etrans].
Qed.
End Agent.

(** ** An agent with five components: its own renewer, the poller, the SSH user
    renewer, the bundle refresher and one extra workload *)
Module SuperviseExamples.
Import FilesExamples.
#[local] Existing Instance ToyCA.crypto.
#[local] Existing Instance ToyCA.keys.
#[local] Existing Instance ToyCA.x509.
#[local] Existing Instance UserCertExamples.toy_keys.
#[local] Existing Instance UserCertExamples.flaky.

(** The poller: a select loop that touches nothing. *)
Definition poll_turn (g : fs * nat) (_ : unit) (g' : fs * nat) (_ : unit) (o : option error) : Prop :=
  g' = g ∧ o = None.

#[local] Instance poller : Component (fs * nat) (phase unit) := {
  work := loop_work poll_turn;
  returns := loop_returns poll_turn;
}.

#[local] Instance poller_laws : ComponentLaws (fs * nat) (phase unit).
Proof.
  split; [apply loop_finite|]. intros g p. apply loop_live. intros g0 []. by exists g0, tt, None.
Qed.

Definition workload (uri : string) : Config :=
  mkConfig true uri "db" [] KeyEd25519 false [] "/run/svid.pem" "/run/svid.key" 0
    DefaultRenewFraction DefaultMinRenewInterval DefaultRetryBackoff.

Definition set_up : parts :=
  mkParts (workload "spiffe://td/db") (Some UserCertExamples.config) [workload "spiffe://td/nats"]
    (Some ("/run/ca.pem", hour)) None.

Definition started : state (fs * nat) runner :=
  start (mkFs ∅ [] [] [], O) (agent_runners (Round tt) set_up).

(** The signal arrived. *)
Definition signalled : state (fs * nat) runner :=
  mkState (world started) (gs started) [] [] None true None.

Lemma agent_comes_down_witness :
  length (gs signalled) = 5%nat ∧ Acc (λ s' s, step s s') signalled.
Proof.
  split; [by vm_compute|].
  refine (proj1 (proj1 (agent_comes_down (mkFs ∅ [] [] [], O) (agent_runners (Round tt) set_up)
    signalled _) eq_refl)).
  apply rtc_once. exact (shutdown started eq_refl).
Defined.
End SuperviseExamples.
