(* ===== verification/PortalForm.v ===== *)
(** * PortalForm: the text of the portal's forms

    Models the form half of [internal/server/portal/portal.go]: a role as form fields
    and back ([roleToForm], [parseRoleForm]), the insertion sorts, and the local
    [parseUint64].  The theorems: editing a role without touching a field saves the
    same role, however the browser ends its lines; the sorts are sorts; the parser
    of serials is exact on 64-bit numbers and not beyond. *)

From S2P Require Import Prelude GoText Policy.

Record roleFormFields := mkRoleFormFields {
  FName : string;
  FGroupClaim : string;
  FAllowedPrincipals : string;
  FHostPatterns : string;
  FSPIFFEPatterns : string;
  FMaxUserCertTTLSeconds : string;
  FMaxHostCertTTLSeconds : string;
  FMaxX509CertTTLSeconds : string;
  FDefaultExtensions : string;
}.

Definition noFields : roleFormFields := mkRoleFormFields "" "" "" "" "" "" "" "" "".
Definition zeroRole : Role := mkRole "" "" [] [] [] 0 0 0 ∅.

(** ** Reading a form *)

Definition splitLines (raw : string) : list string :=
  if str_empty raw then [] else
  List.filter (λ v, negb (str_empty v)) (TrimSpace <$> split_byte newline raw).

Fixpoint extension_lines (lines : list string) (out : gmap string string) : result (gmap string string) :=
  match lines with
  | [] => Ok out
  | line :: lines =>
      let line := TrimSpace line in
      if str_empty line then extension_lines lines out else
      let '(key, value, hasEq) := cut_byte "="%char line in
      let key := TrimSpace key in
      reject str_empty key with ErrNew ("default_extensions: line " +:+ fmt_q line +:+ " has empty key");;
      extension_lines lines (<[key := if hasEq : bool then TrimSpace value else ""]> out)
  end.

Definition parseExtensions (raw : string) : result (gmap string string) :=
  if str_empty (TrimSpace raw) then Ok ∅ else extension_lines (split_byte newline raw) ∅.

(** One of the three TTL fields; blank is no cap. *)
Definition parse_cap (raw name : string) : result Z :=
  if str_empty raw then Ok 0 else
  secs <-r match ParseInt raw with
           | Ok n => Ok n
           | Err e => Err (ErrWrap (name +:+ " " +:+ fmt_q raw +:+ ": ") e "")
           end;;
  reject secs <? 0 with ErrNew (name +:+ " must be non-negative");;
  Ok secs.

(** [r.PostForm.Get]: the first value of a field, or the empty string. *)
Abbreviation form := (string → string) (only parsing).

Definition form_fields (f : form) : roleFormFields :=
  mkRoleFormFields (TrimSpace (f "name")) (TrimSpace (f "group_claim"))
    (f "allowed_principals") (f "host_patterns") (f "spiffe_patterns")
    (TrimSpace (f "max_user_cert_ttl_seconds")) (TrimSpace (f "max_host_cert_ttl_seconds"))
    (TrimSpace (f "max_x509_cert_ttl_seconds")) (f "default_extensions").

Definition role_of_fields (fields : roleFormFields) : result Role :=
  reject str_empty (FName fields) with ErrNew "name is required";;
  reject str_empty (FGroupClaim fields) with ErrNew "group_claim is required";;
  user <-r parse_cap (FMaxUserCertTTLSeconds fields) "max_user_cert_ttl_seconds";;
  host <-r parse_cap (FMaxHostCertTTLSeconds fields) "max_host_cert_ttl_seconds";;
  x509 <-r parse_cap (FMaxX509CertTTLSeconds fields) "max_x509_cert_ttl_seconds";;
  exts <-r parseExtensions (FDefaultExtensions fields);;
  Ok (mkRole (FName fields) (FGroupClaim fields) (splitLines (FAllowedPrincipals fields))
    (splitLines (FHostPatterns fields)) (splitLines (FSPIFFEPatterns fields)) user host x509 exts).

(** [parseRoleForm], given what [r.ParseForm] made of the body. *)
Definition parseRoleForm (body : result form) : result Role * roleFormFields :=
  match body with
  | Err e => (Err (ErrWrap "parse form: " e ""), noFields)
  | Ok f => let fields := form_fields f in (role_of_fields fields, fields)
  end.

(** ** Writing a form *)

Definition secsString (s : Z) : string := if s =? 0 then "" else FormatInt s.

(** The insertion sorts of [sortStrings] and [handleHostsIndex], in place: element
    [j] goes left past every greater one. *)
Section InsertionSort.
Context {A : Type} (gt : A → A → bool).

Fixpoint sift (s : list A) (j : nat) : list A :=
  match j with
  | O => s
  | S i =>
      match s !! i, s !! j with
      | Some a, Some b => if gt a b then sift (<[i := b]> (<[j := a]> s)) i else s
      | _, _ => s
      end
  end.

Definition insertion_sort (s : list A) : list A := foldl sift s (seq 1 (length s - 1)).
End InsertionSort.

Definition str_gt (a b : string) : bool := str_ltb b a.
Definition sortStrings : list string → list string := insertion_sort str_gt.

Definition extension_line (k v : string) : string := if str_empty v then k else k +:+ "=" +:+ v.

(** The map is read in an arbitrary order, [keys]. *)
Definition extensionsToForm (keys : list string) (m : gmap string string) : string :=
  if bool_decide (m = ∅) then "" else
  trim_right newline
    (str_join "" ((λ k, extension_line k (default "" (m !! k)) +:+ nl) <$> sortStrings keys)).

Definition roleToForm (keys : list string) (r : Role) : roleFormFields :=
  mkRoleFormFields (Policy.Name r) (GroupClaim r) (str_join nl (AllowedPrincipals r))
    (str_join nl (HostPatterns r)) (str_join nl (SPIFFEPatterns r))
    (secsString (MaxUserCertTTLSeconds r)) (secsString (MaxHostCertTTLSeconds r))
    (secsString (MaxX509CertTTLSeconds r)) (extensionsToForm keys (DefaultExtensions r)).

(** ** [parseUint64] *)

Fixpoint parse_uint64 (s : string) (out : Z) : result Z :=
  match s with
  | "" => Ok out
  | String c s =>
      if negb (is_digit c) then Err (ErrOpaque "non-digit") else
      let next := uint64_wrap (uint64_wrap (out * 10) + digit_val c) in
      if next <? out then Err (ErrNew "overflow") else parse_uint64 s next
  end.
Definition parseUint64 (s : string) : result Z := parse_uint64 s 0.

(** ** The insertion sorts *)

Section InsertionSortFacts.
Context {A : Type} (gt : A → A → bool) (R : A → A → Prop) `{!Transitive R}.
Context (gt_true : ∀ a b, gt a b = true → R b a) (gt_false : ∀ a b, gt a b = false → R a b).

Lemma sift_spec pre x post : ∃ l1 l2, pre = l1 ++ l2 ∧
  sift gt (pre ++ x :: post) (length pre) = l1 ++ x :: l2 ++ post ∧
  Forall (R x) l2 ∧ ∀ a, last l1 = Some a → R a x.
Proof using gt_true gt_false.
  revert post. induction pre as [|a pre IH] using rev_ind; intros post.
  { exists [], []. by split_and!. }
  rewrite length_app, Nat.add_1_r. cbn [sift].
  assert ((pre ++ [a]) ++ x :: post = pre ++ a :: x :: post) as E by (by rewrite <- app_assoc).
  rewrite E. rewrite list_lookup_middle by done.
  assert ((pre ++ a :: x :: post) !! S (length pre) = Some x) as ->.
  { rewrite lookup_app_r by lia. by replace (S (length pre) - length pre)%nat with 1%nat by lia. }
  destruct (gt a x) eqn:Hg.
  - assert (<[length pre := x]> (<[S (length pre) := a]> (pre ++ a :: x :: post)) = pre ++ x :: a :: post) as ->.
    { rewrite (insert_app_r_alt pre) by lia. replace (S (length pre) - length pre)%nat with 1%nat by lia.
      rewrite (insert_app_r_alt pre) by lia. by rewrite Nat.sub_diag. }
    destruct (IH (a :: post)) as (l1 & l2 & -> & -> & H2 & H1). exists l1, (l2 ++ [a]).
    split_and!; [by rewrite app_assoc|by rewrite <- app_assoc| |done].
    apply Forall_app. split; [done|]. by repeat constructor; apply gt_true.
  - exists (pre ++ [a]), []. rewrite app_nil_r. split_and!; [done|by rewrite <- app_assoc|done|].
    intros b. rewrite last_snoc. intros [= <-]. by apply gt_false.
Qed.

Lemma sorted_insert l1 l2 x :
  StronglySorted R (l1 ++ l2) → Forall (R x) l2 → (∀ a, last l1 = Some a → R a x) →
  StronglySorted R (l1 ++ x :: l2).
Proof using Transitive0.
  intros Hs H2 H1. apply StronglySorted_app_2.
  - intros a b Ha Hb. assert (R a x) as Hax.
    { destruct (last l1) as [c|] eqn:El; [|by apply last_None in El as ->; apply not_elem_of_nil in Ha].
      apply last_Some in El as [l ->]. apply elem_of_app in Ha as [Ha|Ha%list_elem_of_singleton].
      - transitivity c; [|by apply H1]. rewrite <- app_assoc in Hs.
        eapply (StronglySorted_app_1_elem_of R l ([c] ++ l2)); [done|done|]. left.
      - subst. by apply H1. }
    apply elem_of_cons in Hb as [->|Hb]; [done|]. transitivity x; [done|].
    by eapply Forall_forall in H2.
  - by eapply StronglySorted_app_1_l.
  - constructor; [by eapply StronglySorted_app_1_r|done].
Qed.

Lemma insertion_loop pre post :
  StronglySorted R pre →
  let s := foldl (sift gt) (pre ++ post) (seq (length pre) (length post)) in
  s ≡ₚ pre ++ post ∧ StronglySorted R s.
Proof using Transitive0 gt_true gt_false.
  revert pre. induction post as [|x post IH]; intros pre Hs; cbn zeta; simpl; [by rewrite app_nil_r|].
  destruct (sift_spec pre x post) as (l1 & l2 & Hpre & -> & H2 & H1).
  replace (l1 ++ x :: l2 ++ post) with ((l1 ++ x :: l2) ++ post) by (by rewrite <- app_assoc).
  replace (S (length pre)) with (length (l1 ++ x :: l2)) by (rewrite Hpre, !length_app; simpl; lia).
  destruct (IH (l1 ++ x :: l2)) as [Hp Hss].
  { apply sorted_insert; [by rewrite <- Hpre|done|done]. }
  split; [|done]. rewrite Hp, Hpre. solve_Permutation.
Qed.

Lemma insertion_sort_spec l : insertion_sort gt l ≡ₚ l ∧ StronglySorted R (insertion_sort gt l).
Proof using Transitive0 gt_true gt_false.
  unfold insertion_sort. destruct l as [|x l]; [split; [done|constructor]|].
  simpl. rewrite Nat.sub_0_r. apply (insertion_loop [x] l). repeat constructor.
Qed.
End InsertionSortFacts.

Lemma str_gt_le a b : (str_gt a b = true → String.le b a) ∧ (str_gt a b = false → String.le a b).
Proof.
  unfold str_gt, str_ltb. split.
  - by intros [H%bool_decide_eq_true _]%andb_true_iff.
  - intros [H%bool_decide_eq_false|H%negb_false_iff%bool_decide_eq_true]%andb_false_iff; [|by subst].
    by destruct (total String.le a b).
Qed.

(** The portal's own sort is [sort.Strings].  The in-place insertion sort that
    the package keeps to avoid an import leaves, for every slice, the strings in
    the order the library's sort gives them. *)
Theorem sortStrings_is_sort l : sortStrings l = sort_strings l.
Proof.
  destruct (insertion_sort_spec str_gt String.le (λ a b, proj1 (str_gt_le a b)) (λ a b, proj2 (str_gt_le a b)) l)
    as [Hp Hs].
  apply (StronglySorted_unique String.le); [done| |].
  - apply Sorted_StronglySorted; [apply _|apply sort_strings_spec].
  - by rewrite (proj1 (sort_strings_spec l)).
Qed.

(** ** [parseUint64] *)

(** The number written, whatever its size. *)
Fixpoint decimal (s : string) (acc : Z) : Z :=
  match s with "" => acc | String c s => decimal s (acc * 10 + digit_val c) end.

Lemma decimal_mono s acc : all_digits s = true → 0 ≤ acc → acc ≤ decimal s acc.
Proof.
  revert acc. induction s as [|c s IH]; intros acc Hd Ha; simpl in *; [lia|].
  apply andb_true_iff in Hd as [Hc Hd]. pose proof (proj1 (digit_byte_val c Hc)).
  specialize (IH (acc * 10 + digit_val c) Hd ltac:(lia)). lia.
Qed.

Lemma decimal_mod s a b : a mod 2^64 = b mod 2^64 → decimal s a mod 2^64 = decimal s b mod 2^64.
Proof.
  revert a b. induction s as [|c s IH]; intros a b H; simpl; [done|]. apply IH.
  rewrite Z.add_mod, (Z.mul_mod a), H, <- Z.mul_mod, <- Z.add_mod by lia. done.
Qed.

Lemma parse_uint64_exact s out :
  all_digits s = true → 0 ≤ out → decimal s out < 2^64 → parse_uint64 s out = Ok (decimal s out).
Proof.
  revert out. induction s as [|c s IH]; intros out Hd Ho Hlt; [done|]. cbn [decimal all_digits parse_uint64] in *.
  apply andb_true_iff in Hd as [Hc Hd]. rewrite Hc. simpl negb. cbv iota.
  pose proof (proj1 (digit_byte_val c Hc)) as Hv.
  pose proof (decimal_mono s (out * 10 + digit_val c) Hd ltac:(lia)).
  rewrite (uint64_wrap_id (out * 10)) by (unfold uint64_ok; lia).
  rewrite uint64_wrap_id by (unfold uint64_ok; lia).
  destruct (Z.ltb_spec (out * 10 + digit_val c) out); [lia|]. by apply IH; [|lia|].
Qed.

Lemma parse_uint64_sound s out n :
  uint64_ok out → parse_uint64 s out = Ok n →
  all_digits s = true ∧ uint64_ok n ∧ n = decimal s out mod 2^64.
Proof.
  revert out. induction s as [|c s IH]; intros out Ho E; cbn [decimal all_digits parse_uint64] in *.
  { injection E as <-. by rewrite Z.mod_small. }
  destruct (is_digit c) eqn:Hc; [|done]. simpl in E.
  destruct (_ <? out) in E; [done|]. apply IH in E as (Hd & Hn & ->); [|apply uint64_wrap_range].
  split_and!; [by rewrite Hd|done|]. apply decimal_mod. unfold uint64_wrap.
  rewrite Z.mod_mod, Z.add_mod_idemp_l by lia. done.
Qed.

(** The serial typed in the revoke form is read exactly while it fits 64 bits,
    and not beyond.  Digits of a number below 2^64 give that number; anything
    accepted is all digits and gives the number modulo 2^64; and the overflow test
    misses numbers, so a serial that does not exist is accepted as another one. *)
Lemma parseUint64_bounds :
  (∀ s, all_digits s = true → decimal s 0 < 2^64 → parseUint64 s = Ok (decimal s 0)) ∧
  (∀ s n, parseUint64 s = Ok n → all_digits s = true ∧ uint64_ok n ∧ n = decimal s 0 mod 2^64) ∧
  parseUint64 "30000000000000000000" = Ok 11553255926290448384 ∧
  decimal "30000000000000000000" 0 = 30000000000000000000 ∧
  is_ok (ParseUint "30000000000000000000") = false.
Proof.
  split_and!; [| |by vm_compute|by vm_compute|by vm_compute].
  - intros s Hd Hlt. by apply parse_uint64_exact.
  - intros s n. by apply parse_uint64_sound.
Qed.

(** ** Lines *)

Definition no_newline (s : string) : Prop := Forall (λ c, c ≠ newline) (bytes_of s).

(** A browser sends a text area with its own line ends: [e] before each newline. *)
Fixpoint line_ends (e s : string) : string :=
  match s with
  | "" => ""
  | String c t => (if bool_decide (c = newline) then e +:+ nl else String c "") +:+ line_ends e t
  end.

Lemma line_ends_app e s t : line_ends e (s +:+ t) = line_ends e s +:+ line_ends e t.
Proof.
  induction s as [|c s IH]; [done|]. rewrite str_app_cons. cbn [line_ends]. by rewrite IH, str_app_assoc.
Qed.

Lemma line_ends_none e s : no_newline s → line_ends e s = s.
Proof.
  unfold no_newline. induction s as [|c s IH]; intros H; [done|]. cbn [bytes_of line_ends] in *.
  apply Forall_cons in H as [Hc Hs]. rewrite bool_decide_false by done. by rewrite IH.
Qed.

Lemma line_ends_join e l : Forall no_newline l → line_ends e (str_join nl l) = str_join (e +:+ nl) l.
Proof.
  intros H. induction H as [|s l Hs Hl IH]; [done|]. destruct l as [|s' l]; [by apply line_ends_none|].
  cbn [str_join] in *. rewrite !line_ends_app, IH, (line_ends_none e s) by done.
  do 2 f_equal. cbn [line_ends nl]. by rewrite str_app_nil_r.
Qed.

(** A line of a text area that reads back as itself. *)
Definition line_ok (s : string) : Prop := trimmed s ∧ s ≠ "" ∧ no_newline s.

Lemma cr_no_newline e : e = "" ∨ e = cr → no_newline e.
Proof. intros [->| ->]; [constructor|]. by apply Forall_cons_2; [|constructor]. Qed.

Lemma split_lines e l :
  e = "" ∨ e = cr → Forall line_ok l → l ≠ [] → TrimSpace <$> split_byte newline (str_join (e +:+ nl) l) = l.
Proof.
  intros He H. induction H as [|s l (Ht & Hne & Hn) Hl IH]; [done|]. intros _.
  destruct l as [|s' l].
  - cbn [str_join]. rewrite split_byte_none by done. simpl. by rewrite Ht.
  - assert (str_join (e +:+ nl) (s :: s' :: l) = (s +:+ e) +:+ String newline (str_join (e +:+ nl) (s' :: l))) as ->.
    { cbn [str_join]. by rewrite !str_app_assoc. }
    rewrite split_byte_app.
    + rewrite fmap_cons, IH by done. by rewrite TrimSpace_cr.
    + rewrite bytes_app. apply Forall_app. split; [done|]. by apply cr_no_newline.
Qed.

Lemma filter_nonempty l : Forall line_ok l → List.filter (λ v, negb (str_empty v)) l = l.
Proof.
  intros H. induction H as [|s l (_ & Hne & _) _ IH]; [done|]. simpl. unfold str_empty at 1.
  rewrite bool_decide_false by done. simpl. by rewrite IH.
Qed.

Lemma str_join_nonempty sep s l : s ≠ "" → str_join sep (s :: l) ≠ "".
Proof. destruct l as [|s' l]; simpl; [done|]. by destruct s. Qed.

Lemma splitLines_join e l :
  e = "" ∨ e = cr → Forall line_ok l → splitLines (line_ends e (str_join nl l)) = l.
Proof.
  intros He Hl. rewrite line_ends_join by (eapply Forall_impl; [done|]; by intros s (_ & _ & ?)).
  unfold splitLines, str_empty. destruct l as [|s l]; [done|].
  assert (s ≠ "") as Hne by (by apply Forall_cons in Hl as [(_ & ? & _) _]).
  rewrite bool_decide_false by (by apply str_join_nonempty).
  rewrite split_lines by done. by apply filter_nonempty.
Qed.

(** The whole text of several good lines is trimmed. *)
Lemma trimmed_lines e l :
  e = "" ∨ e = cr → Forall line_ok l → trimmed (str_join (e +:+ nl) l).
Proof.
  intros He H. induction H as [|s l (Ht & Hne & Hn) Hl IH]; [done|]. destruct l as [|s' l]; [done|].
  cbn [str_join] in *. assert (s' ≠ "") as Hne' by (by apply Forall_cons in Hl as [(_ & ? & _) _]).
  pose proof (str_join_nonempty (e +:+ nl) s' l Hne') as Hj. destruct He as [->| ->].
  - by apply (trimmed_join s _ _ newline "" newline "").
  - by apply (trimmed_join s _ _ "013" nl newline cr).
Qed.

(** ** Extensions *)

Definition no_equals (s : string) : Prop := Forall (λ c, c ≠ "="%char) (bytes_of s).

Definition extension_ok (k v : string) : Prop :=
  line_ok k ∧ no_equals k ∧ trimmed v ∧ no_newline v.

Lemma extension_line_ok k v : extension_ok k v → line_ok (extension_line k v).
Proof.
  intros ((Hk & Hne & Hn) & _ & Hv & Hnv). unfold extension_line, str_empty. case_bool_decide as Hve; [done|].
  split_and!.
  - by apply (trimmed_join k v "=" "="%char "" "="%char "").
  - by destruct k.
  - unfold no_newline. rewrite !bytes_app. apply Forall_app. split; [done|]. apply Forall_app.
    split; [|done]. by apply Forall_cons_2; [|constructor].
Qed.

Lemma extension_lines_ok (val : string → string) ks ls out :
  Forall (λ k, extension_ok k (val k)) ks →
  TrimSpace <$> ls = (λ k, extension_line k (val k)) <$> ks →
  extension_lines ls out = Ok (foldl (λ m k, <[k := val k]> m) out ks).
Proof.
  revert ls out. induction ks as [|k ks IH]; intros [|l ls] out Hks E; try done.
  apply Forall_cons in Hks as [Hk Hks]. rewrite !fmap_cons in E. injection E as El E.
  cbn [extension_lines foldl]. rewrite El.
  destruct (extension_line_ok _ _ Hk) as (_ & Hne & _). unfold str_empty.
  rewrite bool_decide_false by done. destruct Hk as ((Htk & Hnk & _) & Heq & Htv & _).
  assert (∃ a f, cut_byte "="%char (extension_line k (val k)) = (k, a, f) ∧
    (if f : bool then TrimSpace a else "") = val k) as (a & f & -> & Hval).
  { unfold extension_line, str_empty. case_bool_decide as Hve.
    - exists "", false. split; [by apply cut_byte_none|done].
    - exists (val k), true. split; [by apply (cut_byte_at "="%char)|done]. }
  rewrite Htk. unfold str_empty. rewrite bool_decide_false by done. cbn [guard_err].
  rewrite Hval. by apply IH.
Qed.

Lemma fold_insert_lookup (val : string → string) ks (out : gmap string string) k :
  foldl (λ m k, <[k := val k]> m) out ks !! k = if bool_decide (k ∈ ks) then Some (val k) else out !! k.
Proof.
  revert out. induction ks as [|k' ks IH]; intros out; simpl; [done|]. rewrite IH.
  destruct (decide (k ∈ ks)); [by rewrite !bool_decide_true by (by right || done)|].
  rewrite (bool_decide_false (k ∈ ks)) by done. destruct (decide (k = k')) as [->|Hne].
  - by rewrite lookup_insert_eq, bool_decide_true by left.
  - rewrite lookup_insert_ne by done. by rewrite bool_decide_false by (by intros [|]%elem_of_cons).
Qed.

Lemma trim_right_app s t : trim_right newline t ≠ "" → trim_right newline (s +:+ t) = s +:+ trim_right newline t.
Proof.
  intros Ht. induction s as [|c s IH]; [done|]. rewrite !str_app_cons. cbn [trim_right]. rewrite IH.
  destruct (s +:+ trim_right newline t) eqn:E; [|done]. exfalso. apply Ht. by destruct s.
Qed.

Lemma trim_right_line s : s ≠ "" → no_newline s → trim_right newline (s +:+ nl) = s.
Proof.
  unfold no_newline. induction s as [|c s IH]; intros Hne H; [done|]. cbn [bytes_of] in H.
  apply Forall_cons in H as [Hc Hs]. rewrite str_app_cons. cbn [trim_right].
  destruct (decide (s = "")) as [->|Hs']; [|rewrite IH by done; by destruct s].
  rewrite str_app_nil_l. cbn [trim_right nl]. rewrite (bool_decide_true (newline = newline)) by done.
  by rewrite bool_decide_false by done.
Qed.

Lemma trim_right_lines l :
  Forall line_ok l → trim_right newline (str_join "" ((λ s, s +:+ nl) <$> l)) = str_join nl l.
Proof.
  intros H. induction H as [|s l (Ht & Hne & Hn) Hl IH]; [done|]. destruct l as [|s' l].
  { cbn. by apply trim_right_line. }
  assert (str_join "" ((λ s, s +:+ nl) <$> (s :: s' :: l)) = (s +:+ nl) +:+ str_join "" ((λ s, s +:+ nl) <$> (s' :: l))) as ->.
  { done. }
  assert (s' ≠ "") as Hne' by (by apply Forall_cons in Hl as [(_ & ? & _) _]).
  rewrite trim_right_app; rewrite IH; [by rewrite str_app_assoc|by apply str_join_nonempty].
Qed.

(** The text of the extensions is a line for each key, in order. *)
Lemma extensionsToForm_lines keys (m : gmap string string) :
  map_Forall extension_ok m → keys ≡ₚ (map_to_list m).*1 → m ≠ ∅ →
  let val k := default "" (m !! k) in
  let lines := (λ k, extension_line k (val k)) <$> sort_strings keys in
  extensionsToForm keys m = str_join nl lines ∧ Forall line_ok lines ∧ lines ≠ [] ∧
  Forall (λ k, extension_ok k (val k)) (sort_strings keys) ∧
  ∀ k, k ∈ sort_strings keys ↔ ∃ v, m !! k = Some v.
Proof.
  intros Hm Hkeys Hem val lines. unfold extensionsToForm. rewrite bool_decide_false by done.
  rewrite sortStrings_is_sort. set (ks := sort_strings keys) in *.
  assert (ks ≡ₚ (map_to_list m).*1) as Hks by (unfold ks; by rewrite (proj1 (sort_strings_spec keys))).
  assert (∀ k, k ∈ ks ↔ ∃ v, m !! k = Some v) as Hin.
  { intros k. rewrite Hks. rewrite list_elem_of_fmap. split.
    - intros ([k' v] & -> & ?%elem_of_map_to_list). by exists v.
    - intros [v Hv]. exists (k, v). split; [done|]. by apply elem_of_map_to_list. }
  assert (Forall (λ k, extension_ok k (val k)) ks) as Hok.
  { apply Forall_forall. intros k [v Hv]%Hin. unfold val. rewrite Hv. by apply Hm. }
  assert (Forall line_ok lines) as Hlines.
  { unfold lines. apply Forall_fmap. eapply Forall_impl; [exact Hok|]. intros k. apply extension_line_ok. }
  split_and!; [|done| |done|done].
  - assert (((λ k, extension_line k (default "" (m !! k)) +:+ nl) <$> ks) = (λ s, s +:+ nl) <$> lines) as ->.
    { unfold lines. by rewrite <- list_fmap_compose. }
    by apply trim_right_lines.
  - intros E. apply Hem, map_empty. intros k. destruct (m !! k) as [v|] eqn:Ek; [|done].
    assert (k ∈ ks) as Hk by (apply Hin; by exists v). unfold lines in E. apply fmap_nil_inv in E.
    rewrite E in Hk. by apply not_elem_of_nil in Hk.
Qed.

Lemma parseExtensions_form e keys (m : gmap string string) :
  e = "" ∨ e = cr → map_Forall extension_ok m → keys ≡ₚ (map_to_list m).*1 →
  parseExtensions (line_ends e (extensionsToForm keys m)) = Ok m.
Proof.
  intros He Hm Hkeys. destruct (decide (m = ∅)) as [->|Hem]; [done|].
  destruct (extensionsToForm_lines keys m Hm Hkeys Hem) as (-> & Hlines & Hne & Hok & Hin).
  set (val k := default "" (m !! k)) in *. set (ks := sort_strings keys) in *.
  set (lines := _ <$> ks) in *.
  rewrite line_ends_join by (eapply Forall_impl; [exact Hlines|]; by intros s (_ & _ & ?)).
  unfold parseExtensions. rewrite (trimmed_lines e lines He Hlines).
  assert (str_empty (str_join (e +:+ nl) lines) = false) as ->.
  { unfold str_empty. apply bool_decide_false. destruct lines as [|s l]; [done|].
    apply str_join_nonempty. by apply Forall_cons in Hlines as [(_ & ? & _) _]. }
  rewrite (extension_lines_ok val ks) by (done || by apply split_lines).
  f_equal. apply map_eq. intros k. rewrite fold_insert_lookup. case_bool_decide as Hk.
  - apply Hin in Hk as [v Hv]. unfold val. by rewrite Hv.
  - rewrite lookup_empty. destruct (m !! k) as [v|] eqn:Ek; [|done]. exfalso. apply Hk, Hin. by exists v.
Qed.

(** ** The round trip *)

(** The edit form as the browser posts it. *)
Definition submit (e : string) (fields : roleFormFields) : form := λ name,
  if bool_decide (name = "name") then FName fields else
  if bool_decide (name = "group_claim") then FGroupClaim fields else
  if bool_decide (name = "allowed_principals") then line_ends e (FAllowedPrincipals fields) else
  if bool_decide (name = "host_patterns") then line_ends e (FHostPatterns fields) else
  if bool_decide (name = "spiffe_patterns") then line_ends e (FSPIFFEPatterns fields) else
  if bool_decide (name = "max_user_cert_ttl_seconds") then FMaxUserCertTTLSeconds fields else
  if bool_decide (name = "max_host_cert_ttl_seconds") then FMaxHostCertTTLSeconds fields else
  if bool_decide (name = "max_x509_cert_ttl_seconds") then FMaxX509CertTTLSeconds fields else
  if bool_decide (name = "default_extensions") then line_ends e (FDefaultExtensions fields) else "".

(** A role the form can express: no stray white space, no line breaks inside an
    entry, caps that are not negative. *)
Record role_form_ok (r : Role) : Prop := {
  rf_name : trimmed (Policy.Name r) ∧ Policy.Name r ≠ "";
  rf_group : trimmed (GroupClaim r) ∧ GroupClaim r ≠ "";
  rf_principals : Forall line_ok (AllowedPrincipals r);
  rf_hosts : Forall line_ok (HostPatterns r);
  rf_spiffe : Forall line_ok (SPIFFEPatterns r);
  rf_user : 0 ≤ MaxUserCertTTLSeconds r < 2^63;
  rf_host : 0 ≤ MaxHostCertTTLSeconds r < 2^63;
  rf_x509 : 0 ≤ MaxX509CertTTLSeconds r < 2^63;
  rf_exts : map_Forall extension_ok (DefaultExtensions r);
}.

Lemma parse_cap_secs n name : 0 ≤ n < 2^63 → parse_cap (TrimSpace (secsString n)) name = Ok n.
Proof.
  intros Hn. unfold secsString, parse_cap. destruct (Z.eqb_spec n 0) as [->|Hne]; [done|].
  assert (FormatInt n = FormatUint n) as E by (unfold FormatInt; destruct (Z.ltb_spec n 0); [lia|done]).
  rewrite (all_digits_trimmed (FormatInt n)) by (rewrite E; apply FormatUint_digits).
  unfold str_empty. rewrite bool_decide_false by (rewrite E; apply FormatUint_nonempty).
  unfold ParseInt. rewrite ParseInt_FormatInt by (unfold int64_ok; lia). simpl.
  unfold guard_err. destruct (Z.ltb_spec n 0); [lia|done].
Qed.

Lemma form_fields_submit e fields :
  form_fields (submit e fields) =
  mkRoleFormFields (TrimSpace (FName fields)) (TrimSpace (FGroupClaim fields))
    (line_ends e (FAllowedPrincipals fields)) (line_ends e (FHostPatterns fields))
    (line_ends e (FSPIFFEPatterns fields)) (TrimSpace (FMaxUserCertTTLSeconds fields))
    (TrimSpace (FMaxHostCertTTLSeconds fields)) (TrimSpace (FMaxX509CertTTLSeconds fields))
    (line_ends e (FDefaultExtensions fields)).
Proof. reflexivity. Qed.

(** Editing a role without touching a field saves the same role.  The fields
    the edit page shows, sent back by a browser with either kind of line end, are
    read as the role they were made from, whatever the order the program reads the
    extensions map in. *)
Lemma role_form_roundtrip e keys r :
  e = "" ∨ e = cr → role_form_ok r → keys ≡ₚ (map_to_list (DefaultExtensions r)).*1 →
  (parseRoleForm (Ok (submit e (roleToForm keys r)))).1 = Ok r.
Proof.
  intros He [[Hn Hn'] [Hg Hg'] Hp Hh Hs Hu Hho Hx Hext] Hkeys. unfold parseRoleForm.
  rewrite form_fields_submit. cbv zeta. unfold role_of_fields, roleToForm.
  cbn [fst FName FGroupClaim FAllowedPrincipals FHostPatterns FSPIFFEPatterns FMaxUserCertTTLSeconds
    FMaxHostCertTTLSeconds FMaxX509CertTTLSeconds FDefaultExtensions].
  rewrite Hn, Hg. unfold str_empty. rewrite !bool_decide_false by done. cbn [guard_err].
  rewrite !parse_cap_secs by done. cbn [rbind]. rewrite parseExtensions_form by done. cbn [rbind].
  rewrite !splitLines_join by done. by destruct r.
Qed.

Definition sample_role : Role :=
  mkRole "ops" "ops-group" ["alice"; "bob smith"] ["*.corp"] [] 14400 0 86400
    {[ "permit-pty" := ""; "force-command" := "/bin/sh -c a=b" ]}.

Lemma sample_role_ok : role_form_ok sample_role.
Proof.
  assert (∀ s, bool_decide (trimmed s ∧ s ≠ "" ∧ Forall (λ c, c ≠ newline) (bytes_of s)) = true → line_ok s) as Hl.
  { by intros s H%bool_decide_eq_true. }
  split; simpl.
  - split; [by vm_compute|done].
  - split; [by vm_compute|done].
  - repeat apply Forall_cons_2; [apply Hl; by vm_compute..|constructor].
  - repeat apply Forall_cons_2; [apply Hl; by vm_compute..|constructor].
  - constructor.
  - done.
  - done.
  - done.
  - apply map_Forall_insert_2; [|apply map_Forall_singleton];
      (split_and!; [apply Hl; by vm_compute|by apply (bool_decide_unpack _); vm_compute
                   |by vm_compute|by apply (bool_decide_unpack _); vm_compute]).
Qed.
