(* ===== verification/Portal.v ===== *)
(** * Portal: the admin web pages

    Models [internal/server/portal]: the handlers of [portal.go] over the role, host,
    audit and revocation sources, the role writer that stamps portal edits
    ([rolemutator.go]), the anti-forgery check ([csrf.go]) and the records of the
    audit page ([audit.go]).  A page is the data its template gets ([PortalPages]
    has the bytes), and [SessionLib] is what the handlers use of the sessions.
    [Service] has the routes and the gate in front of them, [PortalBoot] has [New]. *)

From S2P Require Import Prelude GoText GoTime Policy Krl X509Engine Mtls Store Sql SqlStore Http Api PortalForm.

(** ** Requests and the session manager *)

Record PRequest := mkPRequest {
  (** [r.PathValue("name")] *)
  PathName : string;
  (** the form in the body, as [r.ParseForm] reads it *)
  Body : result (string → string);
  (** the e-mail of the session in the request's context, if there is one *)
  SessionEmail : option string;
  (** the user of [r.BasicAuth()] *)
  BasicUser : option string;
  Cookies : string;
}.

(** [session.Manager], as the portal uses it. *)
Class SessionLib := {
  Session : Type;
  CSRFToken : PRequest → string → result string;
  ValidateCSRF : PRequest → string → string → bool;
  (** [IssueSession]: the cookie set on the response *)
  IssueSession : PRequest → Session → result string;
  (** [csrf.Token] of the session's secret *)
  csrf_Token : Session → string → result string;
}.

(** ** Audit events *)

Record AuditEvent := mkAuditEvent {
  EvID : string; EvAction : string; EvOccurredAt : time; EvActor : string; EvSubject : string;
  EvIP : string; EvDetail : string }.

(** The JSON object [decodeAuditEvent] decodes a message into. *)
Record raw_event := mkRawEvent {
  raw_id : string; raw_action : string; raw_occurred_at : time; raw_caller : string;
  raw_subject : string; raw_ip : string; raw_metadata : string }.

Definition DefaultMaxAuditEvents : Z := 500.

Definition decodeAuditEvent (decoded : result raw_event) : option AuditEvent :=
  match decoded with
  | Err _ => None
  | Ok raw =>
      if str_empty (raw_action raw) || time_is_zero (raw_occurred_at raw) then None
      else Some (mkAuditEvent (raw_id raw) (raw_action raw) (raw_occurred_at raw) (raw_caller raw)
                   (raw_subject raw) (raw_ip raw) (raw_metadata raw))
  end.

(** [NewAuditTracker]: the bound of the ring. *)
Definition NewAuditTracker (hasSource : bool) (maxEvents : Z) : result Z :=
  reject negb hasSource with ErrNew "source is required";;
  Ok (if maxEvents <=? 0 then DefaultMaxAuditEvents else maxEvents).

(** ** The server *)

(** The dynamic types a [RoleStore] can have: read-only, the in-memory
    [MutableRoleStore], or the database store with a source column. *)
Record MutableRoleStore (S : Type) := mkMutableRoleStore {
  m_All : S → list Role * S;
  m_ByName : string → S → option Role * S;
  m_Add : Role → M S unit;
  m_Replace : string → Role → M S unit;
  m_Delete : string → M S unit;
}.

Inductive role_source (S : Type) :=
  | NoRoles
  | ReadOnlyRoles (all : S → list Role * S)
  | PlainRoles (ops : MutableRoleStore S)
  | SourcedRoles (ops : RoleStore S).
Arguments NoRoles {S}.
Arguments ReadOnlyRoles {S}.
Arguments PlainRoles {S}.
Arguments SourcedRoles {S}.

Record PServer (RS HS : Type) := mkPServer {
  RoleSource : role_source RS;
  HostSource : option (HS → list Principal * HS);
  HasAudit : bool;
  HasRevocations : bool;
  (** native login is configured *)
  HasOIDC : bool;
}.
Arguments mkPServer {RS HS}.
Arguments RoleSource {RS HS}.
Arguments HostSource {RS HS}.
Arguments HasAudit {RS HS}.
Arguments HasRevocations {RS HS}.
Arguments HasOIDC {RS HS}.

Record PWorld (RS HS KS : Type) := mkPWorld { p_roles : RS; p_hosts : HS; p_krl : KS; ring : list AuditEvent }.
Arguments mkPWorld {RS HS KS}.
Arguments p_roles {RS HS KS}.
Arguments p_hosts {RS HS KS}.
Arguments p_krl {RS HS KS}.
Arguments ring {RS HS KS}.

(** ** Pages *)

Record pageEntry := mkPageEntry {
  PageName : string; PagePath : string; PageKey : string; Description : string; PageStatus : string }.

Record baseData := mkBaseData {
  ActivePage : string; UserEmail : string; SignOut : bool; Nav : list (string * list pageEntry) }.

Inductive page :=
  | PText (s : string)
  | PIndex (b : baseData) (pages : list pageEntry)
  | PRoles (b : baseData) (roles : list Role)
  | PRoleDetail (b : baseData) (name : string) (role : option Role) (token : string)
  | PRoleForm (b : baseData) (mode action submit error token originalName : string) (form : roleFormFields)
  | PHosts (b : baseData) (hosts : list Principal)
  | PAudit (b : baseData) (events : list AuditEvent)
  | PRevocations (b : baseData) (entries : list Revocation) (error token serial keyID reason : string)
  | PSignedOut (b : baseData)
  | PStyle.

(** The response; headers count only while the status is not yet written. *)
Record PResponse := mkPResponse {
  p_status : Z; p_page : page; p_location : string; p_cookie : option string; p_no_store : bool }.

Definition StatusSeeOther : Z := 303.
Definition StatusNotFound : Z := 404.
Definition StatusMethodNotAllowed : Z := 405.

(** [http.Error] *)
Definition http_error (msg : string) (code : Z) : PResponse := mkPResponse code (PText (msg +:+ nl)) "" None false.
(** [s.render] before anything was written: the page with [no-store]; that its
    template never fails is [PortalPages.page_renders]. *)
Definition render (p : page) (cookie : option string) : PResponse := mkPResponse StatusOK p "" cookie true.
(** [w.WriteHeader(code); s.render(…)]: the headers set after the status are lost. *)
Definition render_late (code : Z) (p : page) : PResponse := mkPResponse code p "" None false.
Definition redirect (url : string) : PResponse := mkPResponse StatusSeeOther (PText "") url None false.

Definition basePath : string := "/portal".
Definition csrfScope : string := "certd-portal".

Definition err_forged : PResponse :=
  http_error ("session expired or forged request " +:+
    String "226" (String "128" (String "148" "")) +:+ " reload the page and try again") StatusForbidden.

Section Portal.
Context {RS HS KS : Type} `{SessionLib} `{KrlStore KS}.
Context (srv : PServer RS HS).
(** The clock, and the anonymous session the entropy source would give. *)
Context (now : time) (fresh : result Session).

Abbreviation W := (PWorld RS HS KS) (only parsing).

Definition on_roles {A} (f : RS → A * RS) : Handler W PResponse A := λ w,
  let '(a, s) := f (p_roles w) in (inr a, mkPWorld s (p_hosts w) (p_krl w) (ring w)).
Definition on_krl {A} (f : KS → A * KS) : Handler W PResponse A := λ w,
  let '(a, s) := f (p_krl w) in (inr a, mkPWorld (p_roles w) (p_hosts w) s (ring w)).

(** ** Anti-forgery tokens *)

(** The token and, when a session had to be issued, its cookie. *)
Definition csrfToken (r : PRequest) : string * option string :=
  match CSRFToken r csrfScope with
  | Ok tok => (tok, None)
  | Err _ =>
      if HasOIDC srv then ("", None) else
      match fresh with
      | Err _ => ("", None)
      | Ok anon =>
          match IssueSession r anon with
          | Err _ => ("", None)
          | Ok cookie => (match csrf_Token anon csrfScope with Ok tok => tok | Err _ => "" end, Some cookie)
          end
      end
  end.

Definition checkCSRF (r : PRequest) (f : string → string) : bool :=
  ValidateCSRF r (f "csrf_token") csrfScope.

(** The form of a POST with a valid token. *)
Definition posted_form (r : PRequest) : Handler W PResponse (string → string) :=
  f <-h try (Body r) (λ e, http_error ("parse form: " +:+ err_text e) StatusBadRequest);;
  when negb (checkCSRF r f) respond err_forged;;
  hret f.

(** ** Who and what the sidebar shows *)

(** The session's e-mail, when there is one. *)
Definition session_email (r : PRequest) : option string :=
  match SessionEmail r with
  | Some e => if str_empty e then None else Some e
  | None => None
  end.

Definition portalCaller (r : PRequest) : string :=
  match session_email r with
  | Some e => Audit.CallerPrefixOIDC +:+ e
  | None =>
      let u := default "" (BasicUser r) in
      Audit.CallerPrefixPortal +:+ (if str_empty u then "portal" else u)
  end.

Definition wired (b : bool) : string := if b then "ready" else "planned".

Definition has_roles : bool := match RoleSource srv with NoRoles => false | _ => true end.
Definition has_hosts : bool := match HostSource srv with Some _ => true | None => false end.

Definition arrow : string := String "226" (String "134" (String "146" "")).

Definition landingPages : list pageEntry :=
  [ mkPageEntry "Roles" "/roles" "roles"
      ("Role-table viewer: group " +:+ arrow +:+ " principals + host patterns") (wired has_roles);
    mkPageEntry "Hosts" "/hosts" "hosts"
      ("Registered workload mTLS principals (SPIFFE / email SANs " +:+ arrow +:+ " group claims)") (wired has_hosts);
    mkPageEntry "Revocations" "/revocations" "revocations"
      "Revoked SSH certs (ssh-proxyd polls this set to refuse handshakes)" (wired (HasRevocations srv));
    mkPageEntry "Audit log" "/audit" "audit"
      "Live audit-event viewer (NATS JetStream tail)" (wired (HasAudit srv)) ].

Definition base_data (r : PRequest) (active : string) : baseData :=
  mkBaseData active (default (default "" (BasicUser r)) (session_email r)) (HasOIDC srv)
    [("Access", take 2 landingPages); ("Operations", take 2 (drop 2 landingPages))].

Definition handleIndex (r : PRequest) : Handler W PResponse PResponse :=
  hret (render (PIndex (base_data r "home") landingPages) None).

(** ** Roles *)

Definition all_roles : option (Handler W PResponse (list Role)) :=
  match RoleSource srv with
  | NoRoles => None
  | ReadOnlyRoles all => Some (on_roles all)
  | PlainRoles ops => Some (on_roles (m_All RS ops))
  | SourcedRoles ops => Some (on_roles (rs_All RS ops))
  end.

Definition no_role_store : PResponse := http_error "role store not configured" StatusServiceUnavailable.

Definition handleRolesIndex (r : PRequest) : Handler W PResponse PResponse :=
  match all_roles with
  | None => reply no_role_store
  | Some all => roles <-h all;; hret (render (PRoles (base_data r "roles") roles) None)
  end.

Definition handleRoleDetail (r : PRequest) : Handler W PResponse PResponse :=
  match all_roles with
  | None => reply no_role_store
  | Some all =>
      let '(token, cookie) := csrfToken r in
      roles <-h all;;
      let found := List.find (λ role, bool_decide (Policy.Name role = PathName r)) roles in
      let p := PRoleDetail (base_data r "roles") (PathName r) found token in
      hret (match found with
            | Some _ => render p cookie
            | None => mkPResponse StatusNotFound p "" cookie false
            end)
  end.

(** [roleWriter]: the store's mutations, stamped with the portal as their source
    where the store has a source column. *)
Record role_writer := mkRoleWriter {
  w_byName : string → RS → option Role * RS;
  w_Add : Role → M RS unit;
  w_Replace : string → Role → M RS unit;
  w_Delete : string → M RS unit;
  w_caller : string;
}.

Definition roleWriter (r : PRequest) : option role_writer :=
  match RoleSource srv with
  | SourcedRoles ops =>
      Some (mkRoleWriter (rs_ByName RS ops) (λ role, rs_Add RS ops now role SourcePortal)
        (λ old role, rs_Replace RS ops now old role SourcePortal) (rs_Delete RS ops) (portalCaller r))
  | PlainRoles ops =>
      Some (mkRoleWriter (m_ByName RS ops) (m_Add RS ops) (m_Replace RS ops) (m_Delete RS ops) (portalCaller r))
  | _ => None
  end.

Definition read_only : PResponse := http_error "role store is read-only" StatusMethodNotAllowed.

Definition with_writer (r : PRequest) (k : role_writer → Handler W PResponse PResponse)
    : Handler W PResponse PResponse :=
  match roleWriter r with None => reply read_only | Some rw => k rw end.

Definition handleRoleNewForm (r : PRequest) : Handler W PResponse PResponse :=
  with_writer r (λ _,
    let '(token, cookie) := csrfToken r in
    hret (render (PRoleForm (base_data r "roles") "create" "/roles/new" "Create role" "" token "" noFields) cookie)).

Definition renderFormError (r : PRequest) (mode action submit originalName : string)
    (fields : roleFormFields) (e : error) : PResponse :=
  render_late StatusBadRequest
    (PRoleForm (base_data r "roles") mode action submit (err_text e) (csrfToken r).1 originalName fields).

Definition create_error (r : PRequest) (fields : roleFormFields) : error → PResponse :=
  renderFormError r "create" "/roles/new" "Create role" "" fields.

Definition handleRoleCreate (r : PRequest) : Handler W PResponse PResponse :=
  with_writer r (λ rw,
    f <-h posted_form r;;
    let '(parsed, fields) := parseRoleForm (Ok f) in
    role <-h try parsed (create_error r fields);;
    res <-h on_roles (w_Add rw role);;
    _ <-h try res (create_error r fields);;
    hret (redirect (basePath +:+ "/roles/" +:+ Policy.Name role))).

(** [order] is the order the extensions map is read in. *)
Definition handleRoleEditForm (order : Role → list string) (r : PRequest) : Handler W PResponse PResponse :=
  with_writer r (λ rw,
    found <-h on_roles (w_byName rw (PathName r));;
    match found with
    | None => reply (http_error "role not found" StatusNotFound)
    | Some role =>
        let '(token, cookie) := csrfToken r in
        hret (render (PRoleForm (base_data r "roles") "edit" ("/roles/" +:+ PathName r +:+ "/edit")
                "Save changes" "" token (PathName r) (roleToForm (order role) role)) cookie)
    end).

Definition edit_error (r : PRequest) (fields : roleFormFields) : error → PResponse :=
  renderFormError r "edit" ("/roles/" +:+ PathName r +:+ "/edit") "Save changes" (PathName r) fields.

Definition handleRoleUpdate (r : PRequest) : Handler W PResponse PResponse :=
  with_writer r (λ rw,
    f <-h posted_form r;;
    let '(parsed, fields) := parseRoleForm (Ok f) in
    role <-h try parsed (edit_error r fields);;
    res <-h on_roles (w_Replace rw (PathName r) role);;
    _ <-h try res (edit_error r fields);;
    hret (redirect (basePath +:+ "/roles/" +:+ Policy.Name role))).

Definition delete_error (e : error) : PResponse :=
  if err_is e "policy.ErrRoleNotFound" then http_error "role not found" StatusNotFound
  else http_error "delete failed" StatusInternalServerError.

Definition handleRoleDelete (r : PRequest) : Handler W PResponse PResponse :=
  with_writer r (λ rw,
    _ <-h posted_form r;;
    res <-h on_roles (w_Delete rw (PathName r));;
    _ <-h try res delete_error;;
    hret (redirect (basePath +:+ "/roles"))).

(** ** Hosts, audit, revocations *)

Definition by_san (a b : Principal) : bool := str_gt (MatchedSAN a) (MatchedSAN b).

Definition handleHostsIndex (r : PRequest) : Handler W PResponse PResponse :=
  match HostSource srv with
  | None => reply (http_error "host store not configured" StatusServiceUnavailable)
  | Some all => λ w,
      let '(hosts, s) := all (p_hosts w) in
      (inr (render (PHosts (base_data r "hosts") (insertion_sort by_san hosts)) None),
       mkPWorld (p_roles w) s (p_krl w) (ring w))
  end.

Definition handleAuditIndex (r : PRequest) : Handler W PResponse PResponse :=
  if negb (HasAudit srv) then reply (http_error "audit store not configured" StatusServiceUnavailable)
  else λ w, (inr (render (PAudit (base_data r "audit") (ring w)) None), w).

Definition no_revocations : PResponse := http_error "revocation store not configured" StatusServiceUnavailable.

Definition handleRevocationsIndex (r : PRequest) : Handler W PResponse PResponse :=
  when negb (HasRevocations srv) respond no_revocations;;
  snap <-h on_krl (Api.Snapshot now);;
  let '(token, cookie) := csrfToken r in
  hret (render (PRevocations (base_data r "revocations") (Krl.Snapshot.Entries snap) "" token "" "" "") cookie).

Definition renderRevocationError (r : PRequest) (msg serial keyID reason : string) : Handler W PResponse PResponse :=
  snap <-h on_krl (Api.Snapshot now);;
  hret (render_late StatusBadRequest
    (PRevocations (base_data r "revocations") (Krl.Snapshot.Entries snap) msg (csrfToken r).1 serial keyID reason)).

Definition handleRevocationsCreate (r : PRequest) : Handler W PResponse PResponse :=
  when negb (HasRevocations srv) respond no_revocations;;
  f <-h posted_form r;;
  let rawSerial := TrimSpace (f "serial") in
  let keyID := TrimSpace (f "key_id") in
  let reason := TrimSpace (f "reason") in
  match (if str_empty rawSerial then Ok 0 else parseUint64 rawSerial) with
  | Err _ => renderRevocationError r ("serial " +:+ rawSerial +:+ " is not a valid unsigned integer") rawSerial keyID reason
  | Ok serial =>
      if (serial =? 0) && str_empty keyID
      then renderRevocationError r "serial or key_id is required" rawSerial keyID reason
      else
        res <-h on_krl (Api.Revoke now (mkRevocation serial keyID reason "portal" zero_time));;
        match res with
        | Err e => renderRevocationError r (err_text e) rawSerial keyID reason
        | Ok _ => hret (redirect (basePath +:+ "/revocations"))
        end
  end.

Definition handleHealthz : Handler W PResponse PResponse := hret (mkPResponse StatusOK (PText ("ok" +:+ nl)) "" None false).
Definition handleStaticCSS : Handler W PResponse PResponse := hret (mkPResponse StatusOK PStyle "" None false).
Definition handleSignedOut (r : PRequest) : Handler W PResponse PResponse :=
  hret (render (PSignedOut (base_data r "")) None).

(** [logoutRedirect]: the library's redirect goes to the signed-out page. *)
Definition logoutRedirect (resp : PResponse) : PResponse :=
  if p_status resp =? StatusSeeOther
  then mkPResponse (p_status resp) (p_page resp) (basePath +:+ "/auth/signed-out") (p_cookie resp) (p_no_store resp)
  else resp.

(** ** Routes

    The patterns of [Routes] that the portal itself serves ([Service] matches a
    request to one). *)
Inductive route :=
  | GetIndex | GetHealthz | GetCSS | GetRoles | GetRoleNew | PostRoleNew | GetRole | GetRoleEdit
  | PostRoleEdit | PostRoleDelete | GetHosts | GetAudit | GetRevocations | PostRevocations | GetSignedOut.

Definition is_post (rt : route) : bool :=
  match rt with PostRoleNew | PostRoleEdit | PostRoleDelete | PostRevocations => true | _ => false end.

Definition dispatch (order : Role → list string) (rt : route) (r : PRequest) : Handler W PResponse PResponse :=
  match rt with
  | GetIndex => handleIndex r
  | GetHealthz => handleHealthz
  | GetCSS => handleStaticCSS
  | GetRoles => handleRolesIndex r
  | GetRoleNew => handleRoleNewForm r
  | PostRoleNew => handleRoleCreate r
  | GetRole => handleRoleDetail r
  | GetRoleEdit => handleRoleEditForm order r
  | PostRoleEdit => handleRoleUpdate r
  | PostRoleDelete => handleRoleDelete r
  | GetHosts => handleHostsIndex r
  | GetAudit => handleAuditIndex r
  | GetRevocations => handleRevocationsIndex r
  | PostRevocations => handleRevocationsCreate r
  | GetSignedOut => handleSignedOut r
  end.
End Portal.

(** ** Nothing changes without a token

    [same] relates the states a read may lead between; reads are what the sources
    do for a page. *)
Section Forgery.
Context {RS HS KS : Type} `{SessionLib} `{KrlStore KS}.
Context (srv : PServer RS HS) (now : time) (fresh : result Session).
Context (same_roles : RS → RS → Prop) (same_hosts : HS → HS → Prop) (same_krl : KS → KS → Prop).
Context `{!PreOrder same_roles, !PreOrder same_hosts, !PreOrder same_krl}.

Abbreviation W := (PWorld RS HS KS) (only parsing).

Definition same (w w' : W) : Prop :=
  same_roles (p_roles w) (p_roles w') ∧ same_hosts (p_hosts w) (p_hosts w') ∧
  same_krl (p_krl w) (p_krl w') ∧ ring w' = ring w.

Definition reads_keep : Prop :=
  match RoleSource srv with
  | NoRoles => True
  | ReadOnlyRoles all => ∀ s, same_roles s (all s).2
  | PlainRoles ops => ∀ s, same_roles s (m_All RS ops s).2 ∧ ∀ name, same_roles s (m_ByName RS ops name s).2
  | SourcedRoles ops => ∀ s, same_roles s (rs_All RS ops s).2 ∧ ∀ name, same_roles s (rs_ByName RS ops name s).2
  end ∧
  match HostSource srv with None => True | Some all => ∀ s, same_hosts s (all s).2 end ∧
  ∀ s, same_krl s (Api.Snapshot now s).2.

Lemma same_refl w : same w w.
Proof using PreOrder0 PreOrder1 PreOrder2. by split_and!. Qed.

Definition keeps {A} (m : Handler W PResponse A) : Prop := ∀ w out w', m w = (out, w') → same w w'.

(** A handler that answers without doing anything. *)
Definition rejects {A} (m : Handler W PResponse A) : Prop := ∀ w out w', m w = (out, w') →
  w' = w ∧ ∃ resp, out = inl resp ∧
  p_status resp ∈ [StatusBadRequest; StatusForbidden; StatusMethodNotAllowed; StatusServiceUnavailable].

Lemma same_ret {A} (a : A) : keeps (hret a).
Proof using PreOrder0 PreOrder1 PreOrder2. intros w out w' [= <- <-]. apply same_refl. Qed.
Lemma same_reply {A} r : keeps (A:=A) (reply r).
Proof using PreOrder0 PreOrder1 PreOrder2. intros w out w' [= <- <-]. apply same_refl. Qed.

Lemma same_bind {A B} (m : Handler W PResponse A) (k : A → Handler W PResponse B) :
  keeps m → (∀ a, keeps (k a)) → keeps (hbind m k).
Proof using PreOrder0 PreOrder1 PreOrder2.
  intros Hm Hk w out w'. unfold hbind. destruct (m w) as [[r|a] w1] eqn:E.
  - intros [= <- <-]. by eapply Hm.
  - intros E'. apply Hm in E as (R1 & H1 & K1 & L1). apply Hk in E' as (R2 & H2 & K2 & L2).
    split_and!; [by etransitivity|by etransitivity|by etransitivity|congruence].
Qed.

Lemma same_on_roles {A} (f : RS → A * RS) : (∀ s, same_roles s (f s).2) → keeps (on_roles (HS:=HS) (KS:=KS) f).
Proof using PreOrder1 PreOrder2.
  intros Hf w out w'. unfold on_roles. specialize (Hf (p_roles w)). destruct (f (p_roles w)) as [a s].
  intros [= <- <-]. by split_and!.
Qed.
Lemma same_on_krl {A} (f : KS → A * KS) : (∀ s, same_krl s (f s).2) → keeps (on_krl (RS:=RS) (HS:=HS) f).
Proof using PreOrder0 PreOrder1.
  intros Hf w out w'. unfold on_krl. specialize (Hf (p_krl w)). destruct (f (p_krl w)) as [a s].
  intros [= <- <-]. by split_and!.
Qed.

Lemma rejects_bind {A B} (m : Handler W PResponse A) (k : A → Handler W PResponse B) :
  rejects m → rejects (hbind m k).
Proof.
  intros Hm w out w'. unfold hbind. destruct (m w) as [[r|a] w1] eqn:E; apply Hm in E as [-> (resp & [=] & Hs)].
  subst. intros [= <- <-]. split; [done|]. by exists resp.
Qed.

Lemma rejects_reply {A} resp :
  p_status resp ∈ [StatusBadRequest; StatusForbidden; StatusMethodNotAllowed; StatusServiceUnavailable] →
  rejects (A:=A) (reply resp).
Proof. intros Hs w out w' [= <- <-]. split; [done|]. by exists resp. Qed.

(** No form with a valid token. *)
Definition unproven (r : PRequest) : Prop :=
  ∀ f, Body r = Ok f → ValidateCSRF r (f "csrf_token") csrfScope = false.

Lemma rejects_form r : unproven r → rejects (posted_form r).
Proof.
  intros Hr w out w'. unfold posted_form, hbind, try. destruct (Body r) as [f|e] eqn:Eb.
  - unfold checkCSRF. rewrite (Hr f Eb). intros [= <- <-]. split; [done|]. eexists. split; [done|].
    by apply (bool_decide_unpack _); vm_compute.
  - intros [= <- <-]. split; [done|]. eexists. split; [done|]. by apply (bool_decide_unpack _); vm_compute.
Qed.

Lemma rejects_writer r k : (∀ rw, rejects (k rw)) → rejects (with_writer srv now r k).
Proof.
  intros Hk. unfold with_writer. destruct (roleWriter srv now r); [apply Hk|].
  apply rejects_reply. by apply (bool_decide_unpack _); vm_compute.
Qed.

Lemma post_rejected order rt r : is_post rt = true → unproven r → rejects (dispatch srv now fresh order rt r).
Proof.
  intros Hp Hr. destruct rt; try done; cbn [dispatch]; unfold handleRoleCreate, handleRoleUpdate,
    handleRoleDelete, handleRevocationsCreate;
    [apply rejects_writer; intros rw; by apply rejects_bind, rejects_form..|].
  destruct (negb (HasRevocations srv)); [|by apply rejects_bind, rejects_form].
  apply rejects_reply. by apply (bool_decide_unpack _); vm_compute.
Qed.

Lemma keeps_all_roles m : reads_keep → all_roles srv = Some m → keeps m.
Proof using PreOrder1 PreOrder2.
  intros [Hr _]. unfold all_roles. destruct (RoleSource srv) as [|all|ops|ops]; [done|..]; intros [= <-];
    apply same_on_roles; intros s; [apply Hr|apply Hr..].
Qed.

Lemma keeps_writer r k :
  (∀ rw, (∀ name s, reads_keep → same_roles s (w_byName rw name s).2) → keeps (k rw)) →
  keeps (with_writer srv now r k).
Proof using PreOrder0 PreOrder1 PreOrder2.
  intros Hk. unfold with_writer, roleWriter. destruct (RoleSource srv) as [|all|ops|ops] eqn:E;
    [apply same_reply|apply same_reply|..]; apply Hk; intros name s [Hr _]; rewrite E in Hr; apply Hr.
Qed.

Lemma get_keeps order rt r : reads_keep → is_post rt = false → keeps (dispatch srv now fresh order rt r).
Proof using PreOrder0 PreOrder1 PreOrder2.
  intros Hr Hg. pose proof Hr as (_ & Hh & Hk).
  destruct rt; try done; cbn [dispatch]; unfold handleIndex, handleHealthz, handleStaticCSS, handleRolesIndex,
    handleRoleDetail, handleSignedOut, handleAuditIndex, handleRevocationsIndex; try apply same_ret.
  - destruct (all_roles srv) as [m|] eqn:E; [|apply same_reply].
    apply same_bind; [by eapply keeps_all_roles|intros roles; apply same_ret].
  - apply keeps_writer. intros rw _. destruct (csrfToken _ _ _). apply same_ret.
  - destruct (all_roles srv) as [m|] eqn:E; [|apply same_reply]. destruct (csrfToken _ _ _).
    apply same_bind; [by eapply keeps_all_roles|intros roles; apply same_ret].
  - apply keeps_writer. intros rw Hrw. apply same_bind; [apply same_on_roles; intros s; by apply Hrw|].
    intros [role|]; [|apply same_reply]. destruct (csrfToken _ _ _). apply same_ret.
  - unfold handleHostsIndex. destruct (HostSource srv) as [all|]; [|apply same_reply].
    intros w out w'. specialize (Hh (p_hosts w)). destruct (all (p_hosts w)). intros [= <- <-]. by split_and!.
  - destruct (negb _); [apply same_reply|]. intros w out w' [= <- <-]. apply same_refl.
  - destruct (negb _); [apply same_reply|]. apply same_bind; [by apply same_on_krl|].
    intros snap. destruct (csrfToken _ _ _). apply same_ret.
Qed.

(** No page and no forged form changes anything.  A request that is not a form
    with a token the session manager accepts, on any route of the portal, leaves the
    role table, the host registry, the revocations and the audit ring as a read
    leaves them; and such a POST is answered 400, 403, 405 or 503, having touched
    nothing at all. *)
Theorem portal_forgery_refused order rt r w resp w' :
  reads_keep → is_post rt = false ∨ unproven r →
  serve (dispatch srv now fresh order rt r) w = (resp, w') →
  same w w' ∧
  (is_post rt = true → w' = w ∧
   p_status resp ∈ [StatusBadRequest; StatusForbidden; StatusMethodNotAllowed; StatusServiceUnavailable]).
Proof using PreOrder0 PreOrder1 PreOrder2.
  intros Hr Hcase E. unfold serve in E. destruct (dispatch _ _ _ _ _ _ _) as [out w1] eqn:Ed.
  assert (w1 = w') as -> by (destruct out; by injection E).
  destruct (is_post rt) eqn:Hp.
  - destruct Hcase as [|Hu]; [done|]. destruct (post_rejected _ _ _ Hp Hu _ _ _ Ed) as [-> (rsp & -> & Hs)].
    injection E as <-. split; [apply same_refl|by intros _].
  - split; [|done]. by eapply get_keeps.
Qed.
End Forgery.

(** ** Revocations *)

Section Revocations.
Context {RS HS KS : Type} `{SessionLib} `{KrlLaws KS}.
Context (srv : PServer RS HS) (now : time) (fresh : result Session).

(** The number a serial field stands for: 0 when blank. *)
Definition typed_serial (f : string → string) : Z := decimal (TrimSpace (f "serial")) 0.

Lemma serial_parsed raw serial :
  (if str_empty raw then Ok 0 else parseUint64 raw) = Ok serial →
  uint64_ok serial ∧ serial = decimal raw 0 mod 2^64.
Proof.
  unfold str_empty. case_bool_decide as E; [subst; intros [= <-]; split; [by vm_compute|done]|].
  intros Hp. destruct (parse_uint64_sound raw 0 serial) as (_ & Hn & ->); [by vm_compute|done|done].
Qed.

Lemma late_status code p : p_status (render_late code p) = code.
Proof. done. Qed.

(** A revocation the portal confirmed is in force.  When the revoke form is
    answered by the redirect to the list, the form came with a valid token, and the
    store has as revoked the key ID it named and the serial typed, taken modulo
    2^64; below 2^64 that is the serial typed, above it can be
    another certificate's. *)
Lemma portal_revocation_effective r (w : PWorld RS HS KS) resp w' :
  krl_ok (p_krl w) → year_ok now →
  serve (handleRevocationsCreate srv now fresh r) w = (resp, w') → p_status resp = StatusSeeOther →
  ∃ f, Body r = Ok f ∧ ValidateCSRF r (f "csrf_token") csrfScope = true ∧
  krl_ok (p_krl w') ∧ p_roles w' = p_roles w ∧ p_hosts w' = p_hosts w ∧
  (all_digits (TrimSpace (f "serial")) = true) ∧
  (typed_serial f < 2^64 → typed_serial f mod 2^64 = typed_serial f) ∧
  ∀ serial keyID,
    (serial ≠ 0 ∧ serial = typed_serial f mod 2^64 ∨ keyID ≠ "" ∧ keyID = TrimSpace (f "key_id")) →
    krl_names (p_krl w') serial keyID = true.
Proof.
  intros Hok Hclk E Hst. unfold serve in E. destruct (handleRevocationsCreate _ _ _ _ _) as [out w1] eqn:Eh.
  assert (w1 = w' ∧ p_status (match out with inl x | inr x => x end) = StatusSeeOther) as [-> Ho].
  { destruct out; injection E as -> ->; by split. }
  clear E Hst resp. unfold handleRevocationsCreate in Eh.
  destruct (negb (HasRevocations srv)); [injection Eh as <- <-; discriminate|].
  unfold posted_form, hbind, try in Eh. destruct (Body r) as [f|e] eqn:Eb; [|injection Eh as <- <-; discriminate].
  unfold checkCSRF in Eh. destruct (ValidateCSRF r (f "csrf_token") csrfScope) eqn:Ec; cbn in Eh;
    [|injection Eh as <- <-; discriminate].
  unfold renderRevocationError, on_krl, hbind in Eh.
  assert (∀ sn : Krl.Snapshot.t * KS, ∀ g st, (let '(a, s) := sn in
    (inr (A:=PResponse) (B:=PResponse) (render_late StatusBadRequest (g a)), st s)) = (out, w') → False) as Hlate.
  { intros [a s] g st [= <- <-]. discriminate. }
  destruct (if str_empty (TrimSpace (f "serial")) then _ else _) as [serial|e] eqn:Es; cycle 1.
  { exfalso. destruct (Api.Snapshot now (p_krl w)) as [a s]. injection Eh as <- <-. discriminate. }
  destruct ((serial =? 0) && _).
  { exfalso. destruct (Api.Snapshot now (p_krl w)) as [a s]. injection Eh as <- <-. discriminate. }
  clear Hlate. destruct (Api.Revoke now _ (p_krl w)) as [res s1] eqn:Er.
  destruct (serial_parsed _ _ Es) as [Hs ->].
  destruct (krl_revoke now (mkRevocation _ _ _ _ _) _ _ _ Hok Hs zero_year_ok Hclk Er) as [Hok1 Hrev].
  destruct res as [[]|e]; cycle 1.
  { exfalso. simpl in Eh. destruct (Api.Snapshot now s1) as [a s]. injection Eh as <- <-. discriminate. }
  injection Eh as <- <-. destruct (Hrev eq_refl) as [_ Hn].
  exists f. split_and!; [done|done|done|done|done| | |].
  - unfold str_empty in Es. case_bool_decide as Ee; [by rewrite Ee|].
    by apply parse_uint64_sound in Es as (? & _); [|by vm_compute].
  - intros Hlt. apply Z.mod_small. split; [|done]. unfold str_empty in Es. case_bool_decide as Ee.
    { unfold typed_serial. by rewrite Ee. }
    apply parse_uint64_sound in Es as (Hd & _); [|by vm_compute]. by apply decimal_mono.
  - intros serial keyID Hname. apply Hn. destruct Hname as [[? ->]|[? ->]]; [by left|by right].
Qed.
End Revocations.
