(* ===== verification/AuditTrail.v ===== *)
(** * AuditTrail: from a handler to the audit page

    The JSON in which an entry ([internal/audit/audit.go]) travels: its metadata as
    [emitAudit] renders it ([api/sign_ssh.go]), the entry as the journal's JSON sink
    encodes it, and [decodeAuditEvent] ([portal/audit.go]) on the other side, which
    looks at nothing but the text.  The stream in between keeps a message as it is,
    as the comment of [audit.Entry] says. *)

From S2P Require Import Prelude Glob Json JsonValue GoText GoTime Policy SshEngine Mtls Store Http Api ApiSsh Portal.

(** ** Writing *)

(** [time.Time.MarshalJSON] *)
Definition time_json (t : time) : result json :=
  if bool_decide (year_ok t) then Ok (JStr (bytes_of (format_rfc3339nano t)))
  else Err (ErrNew "year outside of range [0,9999]").

Definition value_json (v : Audit.value) : result json :=
  match v with
  | Audit.VStr s => Ok (jstr s)
  | Audit.VStrs l => Ok (jstrs l)
  | Audit.VInt n => Ok (jint n)
  | Audit.VTime t => time_json t
  | Audit.VBool b => Ok (JBool b)
  (* the handlers store [d.String()] *)
  | Audit.VDuration d => Ok (jstr (duration_string d))
  end.

Definition key_le (a b : string * Audit.value) : Prop := String.le a.1 b.1.
#[export] Instance key_le_dec a b : Decision (key_le a b).
Proof. unfold key_le. apply _. Defined.

Fixpoint members_json (l : list (string * Audit.value)) : result (list (jbytes * json)) :=
  match l with
  | [] => Ok []
  | (k, v) :: l => j <-r value_json v;; m <-r members_json l;; Ok ((lit_of k, j) :: m)
  end.

(** [json.Marshal] of the metadata: the keys in order.  A map that cannot be written
    is left out. *)
Definition metadata_text (md : list (string * Audit.value)) : string :=
  if bool_decide (md = []) then "" else
  match members_json (merge_sort key_le md) with
  | Ok m => of_bytes (text (JObj m))
  | Err _ => ""
  end.

Definition member (k : string) (v : json) : jbytes * json := (lit_of k, v).
Definition omitempty (k s : string) : list (jbytes * json) :=
  if str_empty s then [] else [member k (jstr s)].

(** [json.Marshal] of an [Entry]. *)
Definition entry_json (e : Audit.Entry) : result json :=
  at_ <-r time_json (Audit.OccurredAt e);;
  Ok (JObj (
    [member "id" (jstr (Audit.ID e)); member "action" (jstr (Audit.Action e))] ++
    omitempty "subject" (Audit.Subject e) ++ omitempty "caller" (Audit.Caller e) ++
    (if Audit.Serial e =? 0 then [] else [member "serial" (jint (Audit.Serial e))]) ++
    omitempty "ip" (Audit.IP e) ++ omitempty "user_agent" (Audit.UserAgent e) ++
    omitempty "metadata" (metadata_text (Audit.Metadata e)) ++
    [member "occurred_at" at_])).

Definition entry_message (e : Audit.Entry) : result string :=
  j <-r entry_json e;; Ok (of_bytes (text j)).

(** ** Reading *)

Definition err_unmarshal : error := ErrOpaque "json: cannot unmarshal".

(** The names of fields match up to case, as far as a rune folds to an ASCII letter:
    U+017F to s, U+212A to k. *)
Fixpoint fold_bytes (s : jbytes) : jbytes :=
  match s with
  | a :: ((b :: t) as u) =>
      if byte_is 0xC5 a && byte_is 0xBF b then "s"%char :: fold_bytes t else
      match t with
      | c :: v =>
          if byte_is 0xE2 a && byte_is 0x84 b && byte_is 0xAA c then "k"%char :: fold_bytes v
          else byte_lower a :: fold_bytes u
      | [] => byte_lower a :: fold_bytes u
      end
  | [a] => [byte_lower a]
  | [] => []
  end.

Definition field_name (k : jbytes) : string := of_bytes (fold_bytes (bytes_of (str_of k))).

(** A string field takes a string, and [null] leaves it alone. *)
Definition string_field (v : json) (old : string) : result string :=
  match v with
  | JStr lit => Ok (str_of lit)
  | JNull => Ok old
  | _ => Err err_unmarshal
  end.

(** [time.Time.UnmarshalJSON], which reads the literal as it is written. *)
Definition time_field (v : json) (old : time) : result time :=
  match v with
  | JStr lit => parse_rfc3339nano (of_bytes lit)
  | JNull => Ok old
  | _ => Err err_unmarshal
  end.

Definition set_field (raw : raw_event) (kv : jbytes * json) : result raw_event :=
  let '(k, v) := kv in
  let '(mkRawEvent i a o c s ip m) := raw in
  let name := field_name k in
  if bool_decide (name = "id") then x <-r string_field v i;; Ok (mkRawEvent x a o c s ip m) else
  if bool_decide (name = "action") then x <-r string_field v a;; Ok (mkRawEvent i x o c s ip m) else
  if bool_decide (name = "occurred_at") then x <-r time_field v o;; Ok (mkRawEvent i a x c s ip m) else
  if bool_decide (name = "caller") then x <-r string_field v c;; Ok (mkRawEvent i a o x s ip m) else
  if bool_decide (name = "subject") then x <-r string_field v s;; Ok (mkRawEvent i a o c x ip m) else
  if bool_decide (name = "ip") then x <-r string_field v ip;; Ok (mkRawEvent i a o c s x m) else
  if bool_decide (name = "metadata") then x <-r string_field v m;; Ok (mkRawEvent i a o c s ip x) else
  Ok raw.

Fixpoint set_fields (raw : raw_event) (l : list (jbytes * json)) : result raw_event :=
  match l with
  | [] => Ok raw
  | kv :: l => raw <-r set_field raw kv;; set_fields raw l
  end.

Definition zero_event : raw_event := mkRawEvent "" "" zero_time "" "" "" "".

(** [json.Unmarshal] into the struct of [decodeAuditEvent]. *)
Definition unmarshal_event (msg : string) : result raw_event :=
  match parse_json (bytes_of msg) with
  | Some (JObj l) => set_fields zero_event l
  | Some JNull => Ok zero_event
  | _ => Err err_unmarshal
  end.

(** What the audit page makes of a message. *)
Definition event_of (msg : string) : option AuditEvent := decodeAuditEvent (unmarshal_event msg).

(** ** Plain texts

    Printable ASCII without the characters JSON escapes is its own literal. *)
Definition plain (c : ascii) : bool :=
  byte_in 32 126 c && negb (byte_is 34 c || byte_is 92 c || byte_is 60 c || byte_is 62 c || byte_is 38 c).

Definition plain_str (s : string) : bool := forallb plain (bytes_of s).

Lemma plain_spec c : plain c = true → byte_in 0 0x7F c = true ∧ esc_byte c = [c].
Proof. destruct c as [[] [] [] [] [] [] [] []]; intros Hc; try discriminate Hc; by split. Qed.

Lemma lit_plain s : plain_str s = true → lit_of s = bytes_of s.
Proof.
  unfold plain_str, lit_of. generalize (bytes_of s). clear s. intros s.
  assert (∀ fuel, (length s ≤ fuel)%nat → forallb plain s = true → enc_string fuel s = s) as Hs; [|by apply Hs].
  induction s as [|c s IH]; intros fuel Hf; [by destruct fuel|].
  simpl in Hf. destruct fuel as [|fuel]; [lia|]. simpl. intros [[Hc He]%plain_spec Hs]%andb_true_iff.
  rewrite Hc, He. simpl. by rewrite IH by (done || lia).
Qed.

Lemma plain_cons c s : plain_str (String c s) = plain c && plain_str s.
Proof. done. Qed.

Lemma plain_pad w n acc : plain_str (pad w n acc) = plain_str acc.
Proof.
  revert n acc. induction w as [|w IH]; intros n acc; simpl; [done|]. rewrite IH, plain_cons.
  pose proof (Z.mod_pos_bound n 10 ltac:(done)) as Hm. revert Hm. generalize (n mod 10). intros d Hd.
  assert (d ∈ [0; 1; 2; 3; 4; 5; 6; 7; 8; 9]) as Hin by (rewrite !elem_of_cons; lia).
  repeat (apply elem_of_cons in Hin as [->|Hin]; [done|]). by apply elem_of_nil in Hin.
Qed.

Lemma plain_time t : plain_str (format_rfc3339nano t) = true.
Proof.
  unfold format_rfc3339nano, append_rfc3339. destruct (civil_from_days _) as [[y m] d].
  repeat (rewrite plain_pad || rewrite plain_cons). unfold append_nano.
  destruct (trim_zeros _ _) as [[|w] n]; [done|]. by rewrite plain_cons, plain_pad.
Qed.

Lemma time_lit t : JStr (bytes_of (format_rfc3339nano t)) = jstr (format_rfc3339nano t).
Proof. unfold jstr. by rewrite lit_plain by apply plain_time. Qed.

Lemma time_json_ok t : year_ok t → time_json t = Ok (jstr (format_rfc3339nano t)).
Proof. intros Ht. unfold time_json. by rewrite bool_decide_true, time_lit. Qed.

(** ** The metadata on the page *)

(** Numbers of 64 bits, and instants JSON can write. *)
Definition value_ok (v : Audit.value) : Prop :=
  match v with Audit.VInt n => num_range n | Audit.VTime t => year_ok t | _ => True end.

Definition shown (v : Audit.value) : json :=
  match v with
  | Audit.VStr s => jstr s
  | Audit.VStrs l => jstrs l
  | Audit.VInt n => jint n
  | Audit.VTime t => jstr (format_rfc3339nano t)
  | Audit.VBool b => JBool b
  | Audit.VDuration d => jstr (duration_string d)
  end.

Definition shown_member (kv : string * Audit.value) : jbytes * json := (lit_of kv.1, shown kv.2).

Lemma value_json_ok v : value_ok v → value_json v = Ok (shown v).
Proof. destruct v; simpl; try done. apply time_json_ok. Qed.

Lemma members_json_ok l : Forall (λ kv, value_ok kv.2) l → members_json l = Ok (shown_member <$> l).
Proof.
  induction 1 as [|[k v] l Hv _ IH]; simpl; [done|]. rewrite value_json_ok by done. simpl. by rewrite IH.
Qed.

Lemma shown_ok v : value_ok v → json_ok (shown v) ∧ json_utf8 (shown v) ∧ (depth (shown v) ≤ 1)%nat.
Proof.
  assert (∀ s, json_ok (jstr s) ∧ json_utf8 (jstr s) ∧ (depth (jstr s) ≤ 1)%nat) as Hstr
    by (intros s; split; [apply jstr_ok|]; split; [apply jstr_utf8|simpl; lia]).
  destruct v as [s|l|n|t|b|d]; intros Hv; cbn [shown]; [apply Hstr| | |apply Hstr| |apply Hstr].
  - split; [apply jstrs_ok|]. split; [apply jstrs_utf8|]. apply le_n_S.
    induction l as [|s l IH]; [done|exact (IH Hv)].
  - split; [by apply jint_ok|]. split; [apply jint_utf8|simpl; lia].
  - split; [done|]. split; [done|simpl; lia].
Qed.

Lemma shown_depth l : Forall (λ kv, value_ok kv.2) l → (depth (JObj (shown_member <$> l)) ≤ 2)%nat.
Proof.
  intros Hl. apply le_n_S. induction Hl as [|[k v] l Hv _ IH]; [simpl; lia|].
  destruct (shown_ok v Hv) as (_ & _ & Hd). apply Nat.max_lub; [exact Hd|exact IH].
Qed.

Lemma metadata_text_ok md :
  Forall (λ kv, value_ok kv.2) md → md ≠ [] →
  let obj := JObj (shown_member <$> merge_sort key_le md) in
  metadata_text md = of_bytes (text obj) ∧ json_ok obj ∧ json_utf8 obj ∧ (depth obj ≤ 2)%nat.
Proof.
  intros Hmd Hne obj. assert (Forall (λ kv, value_ok kv.2) (merge_sort key_le md)) as Hs
    by by rewrite merge_sort_Permutation.
  unfold metadata_text. rewrite bool_decide_false, members_json_ok by done.
  split_and!; [done|..].
  - apply jobj_ok, Forall_fmap. rewrite Forall_forall in *. intros kv Hkv. split; [apply lit_of_ok|].
    by apply shown_ok, Hs.
  - simpl. rewrite foldr_and_Forall. apply Forall_fmap. rewrite Forall_forall in *. intros kv Hkv.
    split; [apply stable_enc|]. by apply shown_ok, Hs.
  - by apply shown_depth.
Qed.

Lemma to_valid_metadata md : Forall (λ kv, value_ok kv.2) md → to_valid (metadata_text md) = metadata_text md.
Proof.
  intros Hmd. destruct (decide (md = [])) as [->|Hne]; [done|].
  destruct (metadata_text_ok md Hmd Hne) as (-> & _ & Hu & _). by apply to_valid_text.
Qed.

(** The member of an object with this name. *)
Definition named (k : string) (v : json) : option json :=
  match v with JObj l => snd <$> find (λ kv, bool_decide (str_of kv.1 = k)) l | _ => None end.

Lemma named_shown k v l :
  NoDup (to_valid <$> l.*1) → (k, v) ∈ l → named (to_valid k) (JObj (shown_member <$> l)) = Some (shown v).
Proof.
  induction l as [|[k' v'] l IH]; simpl; [by intros _ []%elem_of_nil|].
  intros [Hn Hnd]%NoDup_cons. rewrite str_of_lit. intros [[= -> ->]|Hin]%elem_of_cons.
  - by rewrite bool_decide_true.
  - rewrite bool_decide_false; [by apply IH|]. intros E. apply Hn. rewrite E.
    apply list_elem_of_fmap. exists k. split; [done|]. apply list_elem_of_fmap. by exists (k, v).
Qed.

(** ** The entry on the page *)

Lemma set_fields_app raw l m : set_fields raw (l ++ m) = (raw' <-r set_fields raw l;; set_fields raw' m).
Proof.
  revert raw. induction l as [|kv l IH]; intros raw; simpl; [done|]. destruct (set_field raw kv); simpl; [apply IH|done].
Qed.

(** One member under a known name. *)
Ltac set_known := unfold member, set_field; match goal with |- context [field_name (lit_of ?k)] =>
  let n := eval vm_compute in (field_name (lit_of k)) in
  replace (field_name (lit_of k)) with n by (vm_compute; reflexivity) end;
  cbv [bool_decide decide_rel String.eq_dec]; simpl; rewrite ?str_of_lit; try done.

Ltac set_omit x := unfold omitempty, str_empty; case_bool_decide; [by subst x|]; cbn [set_fields]; set_known.

Lemma set_subject i a o c ip m x :
  set_fields (mkRawEvent i a o c "" ip m) (omitempty "subject" x) = Ok (mkRawEvent i a o c (to_valid x) ip m).
Proof. set_omit x. Qed.

Lemma set_caller i a o s ip m x :
  set_fields (mkRawEvent i a o "" s ip m) (omitempty "caller" x) = Ok (mkRawEvent i a o (to_valid x) s ip m).
Proof. set_omit x. Qed.

Lemma set_ip i a o c s m x :
  set_fields (mkRawEvent i a o c s "" m) (omitempty "ip" x) = Ok (mkRawEvent i a o c s (to_valid x) m).
Proof. set_omit x. Qed.

Lemma set_metadata i a o c s ip x :
  set_fields (mkRawEvent i a o c s ip "") (omitempty "metadata" x) = Ok (mkRawEvent i a o c s ip (to_valid x)).
Proof. set_omit x. Qed.

Lemma set_user_agent raw x : set_fields raw (omitempty "user_agent" x) = Ok raw.
Proof. destruct raw. set_omit x. Qed.

Lemma set_serial raw n :
  set_fields raw (if n =? 0 then [] else [member "serial" (jint n)]) = Ok raw.
Proof. destruct raw. destruct (n =? 0); [done|]. cbn [set_fields]. set_known. Qed.

Lemma set_head x a : set_fields zero_event [member "id" (jstr x); member "action" (jstr a)] =
  Ok (mkRawEvent (to_valid x) (to_valid a) zero_time "" "" "" "").
Proof. cbn [set_fields zero_event]. unfold zero_event. set_known. Qed.

Lemma set_occurred_at i a o c s ip m t : year_ok t →
  set_fields (mkRawEvent i a o c s ip m) [member "occurred_at" (jstr (format_rfc3339nano t))] =
  Ok (mkRawEvent i a t c s ip m).
Proof.
  intros Ht. cbn [set_fields]. set_known. rewrite lit_plain by apply plain_time. rewrite of_bytes_of.
  by rewrite parse_format_nano.
Qed.

Lemma omitempty_ok k s : Forall (λ kv, lit_ok kv.1 ∧ json_ok kv.2) (omitempty k s).
Proof. unfold omitempty. case_match; constructor; [|constructor]. split; [apply lit_of_ok|apply jstr_ok]. Qed.

Lemma omitempty_depth k s : foldr Nat.max 0%nat (map (λ kv, depth kv.2) (omitempty k s)) = 0%nat.
Proof. unfold omitempty. by case_match. Qed.

Lemma depth_app l m :
  depth (JObj (l ++ m)) = Nat.max (depth (JObj l)) (depth (JObj m)).
Proof.
  simpl. f_equal. induction l as [|kv l IH]; simpl; [done|]. by rewrite IH, Nat.max_assoc.
Qed.

Lemma entry_json_ok e : year_ok (Audit.OccurredAt e) → uint64_ok (Audit.Serial e) →
  ∃ l, entry_json e = Ok (JObj l) ∧ json_ok (JObj l) ∧ (depth (JObj l) ≤ 1)%nat ∧
    set_fields zero_event l = Ok (mkRawEvent (to_valid (Audit.ID e)) (to_valid (Audit.Action e))
      (Audit.OccurredAt e) (to_valid (Audit.Caller e)) (to_valid (Audit.Subject e)) (to_valid (Audit.IP e))
      (to_valid (metadata_text (Audit.Metadata e)))).
Proof.
  intros Hy Hs. unfold entry_json. rewrite time_json_ok by done. cbn [rbind]. eexists. split; [done|]. split_and!.
  - apply jobj_ok. rewrite !Forall_app.
    assert (∀ k s, Forall (λ kv, lit_ok kv.1 ∧ json_ok kv.2) [member k (jstr s)]) as Hm
      by (intros; constructor; [split; [apply lit_of_ok|apply jstr_ok]|constructor]).
    split_and!; try apply omitempty_ok; [|case_match|].
    + change [?x; ?y] with ([x] ++ [y]). apply Forall_app. split; apply Hm.
    + constructor.
    + constructor; [|constructor]. split; [apply lit_of_ok|]. apply jint_ok.
      unfold num_range, uint64_ok in *. lia.
    + apply Hm.
  - rewrite !depth_app. cbn [depth]. rewrite !omitempty_depth. by case_match.
  - do 7 (rewrite set_fields_app;
      first [rewrite set_head | rewrite set_subject | rewrite set_caller | rewrite set_serial | rewrite set_ip
            | rewrite set_user_agent | rewrite set_metadata]; cbn [rbind]).
    by apply set_occurred_at.
Qed.

(** An entry, on the page: whatever bytes are in the subject, the caller, the address
    and the metadata, the message can be encoded and is decoded to the entry's fields
    (with bytes that are not UTF-8 replaced), and its detail is the JSON object of the
    metadata, in which every key is found with its value. *)
Lemma entry_on_page inp r action subject caller serial md :
  action ≠ "" → clock_ok (clock inp AtAudit) → uint64_ok serial →
  Forall (λ kv, value_ok kv.2) md → NoDup (to_valid <$> md.*1) →
  ∃ msg, entry_message (audit_entry inp r action subject caller serial md) = Ok msg ∧
    event_of msg = Some (mkAuditEvent (to_valid (uuid inp)) (to_valid action) (clock inp AtAudit)
      (to_valid caller) (to_valid subject) (to_valid (clientIP r)) (metadata_text md)) ∧
    (md ≠ [] → ∃ obj, parse_json (bytes_of (metadata_text md)) = Some obj ∧
       ∀ k v, (k, v) ∈ md → named (to_valid k) obj = Some (shown v)).
Proof.
  intros Hact [Ht0 Hty] Hser Hmd Hkeys. set (e := audit_entry _ _ _ _ _ _ _).
  destruct (entry_json_ok e Hty Hser) as (l & Hj & Hok & Hd & Hset).
  exists (of_bytes (text (JObj l))). unfold entry_message. rewrite Hj.
  split; [done|]. split.
  - unfold event_of, unmarshal_event. rewrite bytes_of_of, parse_text by (done || (etrans; [exact Hd|by apply (bool_decide_unpack _)])).
    rewrite Hset. cbn [decodeAuditEvent raw_id raw_action raw_occurred_at raw_caller raw_subject raw_ip raw_metadata].
    unfold str_empty. rewrite bool_decide_false by by rewrite to_valid_empty.
    change (Audit.OccurredAt e) with (clock inp AtAudit).
    replace (time_is_zero (clock inp AtAudit)) with false
      by (symmetry; apply Z.eqb_neq; unfold zero_time, ns_per_sec; lia).
    rewrite to_valid_metadata by exact Hmd. done.
  - intros Hne. destruct (metadata_text_ok md Hmd Hne) as (-> & Hmok & _ & Hmd2).
    eexists. rewrite bytes_of_of. split.
    + apply parse_text; [done|]. etrans; [exact Hmd2|]. by apply (bool_decide_unpack _).
    + intros k v Hin. apply named_shown; by rewrite merge_sort_Permutation.
Qed.

(** ** A certificate that goes out is on the page *)
Section Issuance.
Context `{SshLaws, !SshText} {PS MS AS KS : Type} `{Policy.StoreLaws PS} `{Mtls.Store MS}.

Abbreviation W := (World AS KS) (only parsing).

Definition ssh_subject (d : result signUserRequest + result signHostRequest) (cert : SshEngine.Certificate) : string :=
  (if d then "user:" else "host:") +:+ KeyId cert.

(** What either endpoint records of a certificate, with its bounds. *)
Lemma ssh_issued (srv : Server PS MS) inp r decoded (w : W) resp w' :
  (∀ ps, policy srv = Some ps → ps_valid ps) → clock_in_range inp →
  serve (handleSSH srv inp r decoded) w = (resp, w') → status resp = StatusOK →
  ∃ groups caller cert ttl, authenticated srv r groups caller ∧
    resp = sign_response cert ∧ 0 < CertSerial cert < 2^63 ∧ 0 < ttl ≤ maxHostCertTTL ∧
    0 ≤ ValidBefore cert ∧ ValidBefore cert * ns_per_sec ≤ clock inp AtIssue + maxHostCertTTL ∧
    logged (audit_entry inp r (signed_action decoded) (ssh_subject decoded cert) (Caller caller)
      (CertSerial cert) (signed_metadata cert ttl)) w w'.
Proof.
  intros Hpol Hc [E|E]%serve_cases Hst.
  { exfalso. destruct decoded; [apply handleSignUserCert_inl in E|apply handleSignHostCert_inl in E];
      destruct E as [_ [[Hs _]|[[Hs _] _]]]; by rewrite Hst in Hs. }
  assert (maxUserCertTTL ≤ maxHostCertTTL) as Hmax by done.
  assert (∀ va, va = time_unix (clock inp AtIssue) → 0 ≤ va) as Hva
    by (intros va ->; apply Z.div_pos; [apply Hc|done]).
  destruct decoded as [d|d]; [apply user_issued in E as (req & caller & cert & ttl0 & ttl & _ & Ha & -> & _ & Hcrt & _ & Ht & Hl)
    |apply host_issued in E as (req & caller & cert & ttl0 & ttl & _ & Ha & -> & _ & Hcrt & _ & _ & Ht & Hl)]; try done;
    destruct Hcrt as (_ & _ & _ & _ & _ & Hser & _ & Hfrom & Hle & Hend); apply Hva in Hfrom;
    eexists _, caller, cert, ttl; (split; [exact Ha|]); split_and!; try done; lia.
Qed.

Lemma signed_value_ok cert ttl now :
  0 < ttl ≤ maxHostCertTTL → 0 ≤ ValidBefore cert → ValidBefore cert * ns_per_sec ≤ now → year_ok now →
  Forall (λ kv, value_ok kv.2) (signed_metadata cert ttl) ∧
  unix_time (ValidBefore cert) = ValidBefore cert * ns_per_sec.
Proof.
  intros Ht Hb Hend Hy. unfold year_ok in Hy. unfold signed_metadata, unix_time.
  rewrite int64_wrap_id by (unfold int64_ok, ns_per_sec in *; lia). split; [|done].
  assert (0 ≤ duration_seconds ttl ≤ ttl) as Hq.
  { unfold duration_seconds. rewrite Z.quot_div_nonneg by (lia || done).
    split; [apply Z.div_pos; [lia|done]|]. apply Z.div_le_upper_bound; [done|]. unfold second, ns_per_sec. lia. }
  assert (maxHostCertTTL < 10^20) as Hm by done.
  repeat constructor; simpl; [lia|lia|unfold year_ok, ns_per_sec in *; lia|unfold year_ok; lia].
Qed.

(** C13: an SSH certificate that goes out is on the audit page.  When either endpoint
    returns a certificate, the entry it hands to the audit sink can be encoded, and
    the portal makes of the message an event that names the authenticated caller, the
    key ID, the address and the instant, whatever bytes are in them (those that are
    not UTF-8 are replaced), with a JSON object as its detail that names the
    principals of the certificate and the end of its validity. *)
Theorem issuance_on_page (srv : Server PS MS) inp r decoded (w : W) resp w' :
  (∀ ps, policy srv = Some ps → ps_valid ps) → clock_in_range inp →
  year_ok (clock inp AtIssue + maxHostCertTTL) → clock_ok (clock inp AtAudit) →
  serve (handleSSH srv inp r decoded) w = (resp, w') → status resp = StatusOK →
  ∃ groups caller cert e msg ev detail,
    authenticated srv r groups caller ∧ resp = sign_response cert ∧
    log w' = log w ++ [e] ∧ entry_message e = Ok msg ∧ event_of msg = Some ev ∧
    EvAction ev = signed_action decoded ∧ EvOccurredAt ev = clock inp AtAudit ∧
    EvActor ev = to_valid (Caller caller) ∧ EvSubject ev = to_valid (ssh_subject decoded cert) ∧
    EvIP ev = to_valid (clientIP r) ∧ parse_json (bytes_of (EvDetail ev)) = Some detail ∧
    named "principals" detail = Some (jstrs (ValidPrincipals cert)) ∧
    named "valid_before" detail = Some (jstr (format_rfc3339nano (ValidBefore cert * ns_per_sec))).
Proof.
  intros Hpol Hc Hy Hau E Hst.
  destruct (ssh_issued srv inp r decoded w resp w' Hpol Hc E Hst)
    as (groups & caller & cert & ttl & Ha & -> & Hser & Ht & Hb & Hend & _ & _ & Hlog).
  destruct (signed_value_ok cert ttl _ Ht Hb Hend Hy) as [Hmd Hvb].
  destruct (entry_on_page inp r (signed_action decoded) (ssh_subject decoded cert) (Caller caller)
    (CertSerial cert) (signed_metadata cert ttl)) as (msg & Hmsg & Hev & Hdetail);
    [by destruct decoded|done|unfold uint64_ok; lia|done|by apply (bool_decide_unpack _); vm_compute|].
  destruct Hdetail as (detail & Hp & Hnamed); [done|].
  eexists groups, caller, cert, _, msg, _, detail.
  split_and!; [done|done|exact Hlog|exact Hmsg|exact Hev|..]; cbn [EvAction EvOccurredAt EvActor EvSubject EvIP EvDetail];
    try done.
  - by destruct decoded.
  - apply (Hnamed "principals" (Audit.VStrs (ValidPrincipals cert))). by left.
  - rewrite <- Hvb. apply (Hnamed "valid_before" (Audit.VTime (unix_time (ValidBefore cert)))).
    right. right. by left.
Qed.
End Issuance.

(** Instances: the entry of an SSH certificate; the caller's name holds a byte that is
    no UTF-8, the principals a character JSON escapes. *)
Module AuditExamples.
Definition T : time := 1700000000 * ns_per_sec + 5.
Definition inp : Inputs := mkInputs (λ _, T) "" "f1".
Definition req : Request := mkRequest (λ _, "") "10.0.0.1:99" None.
Definition caller : string := "oidc:al" +:+ String (ascii_of_N 0xFF) "ice".
Definition metadata : list (string * Audit.value) :=
  [("ttl_seconds", Audit.VInt 3600); ("principals", Audit.VStrs ["alice"; "<root>"]);
   ("valid_before", Audit.VTime T)].
Definition quoted (s : string) : string := dquote +:+ s +:+ dquote.

Example metadata_ex : metadata_text metadata =
  "{" +:+ quoted "principals" +:+ ":[" +:+ quoted "alice" +:+ "," +:+ quoted "\u003croot\u003e" +:+ "]," +:+
  quoted "ttl_seconds" +:+ ":3600," +:+ quoted "valid_before" +:+ ":" +:+
  quoted "2023-11-14T22:13:20.000000005Z" +:+ "}".
Proof. by vm_compute. Qed.

(** A message that is no entry is skipped; the names of fields match up to case. *)
Example event_of_ex :
  event_of "[]" = None ∧ event_of "{}" = None ∧
  event_of ("{" +:+ quoted "ACTION" +:+ ":" +:+ quoted "a" +:+ "," +:+ quoted "occurred_at" +:+ ":" +:+
    quoted "1970-01-01T00:00:01Z" +:+ "," +:+ quoted "more" +:+ ":[{}]}") =
  Some (mkAuditEvent "" "a" 1000000000 "" "" "" "").
Proof. by vm_compute. Qed.

(** The byte that is no UTF-8, in the name of the caller, is replaced. *)
Example actor_ex :
  (λ ev, EvActor ev) <$> (match entry_message (audit_entry inp req "a" "s" caller 0 metadata) with
    Ok msg => event_of msg | Err _ => None end) =
  Some ("oidc:al" +:+ String (ascii_of_N 0xEF) (String (ascii_of_N 0xBF) (String (ascii_of_N 0xBD) "ice"))).
Proof. by vm_compute. Qed.
End AuditExamples.

Module IssuanceExamples.
Import SshExamples SshApiExamples.
#[local] Existing Instances toyLib toyLaws toyText.

Lemma issuance_on_page_witness :
  ∃ cert e msg ev,
    (serve (handleSSH srv inp req (inl user_body)) w0).1 = sign_response cert ∧
    log (serve (handleSSH srv inp req (inl user_body)) w0).2 = [e] ∧
    entry_message e = Ok msg ∧ event_of msg = Some ev ∧ EvSubject ev = to_valid ("user:" +:+ KeyId cert).
Proof.
  destruct (issuance_on_page srv inp req (inl user_body) w0
    (serve (handleSSH srv inp req (inl user_body)) w0).1 (serve (handleSSH srv inp req (inl user_body)) w0).2)
    as (groups & caller & cert & e & msg & ev & detail & _ & Hr & Hlog & Hmsg & Hev & _ & _ & _ & Hsub & _).
  - exact policy_ok.
  - split; by vm_compute.
  - split; by vm_compute.
  - split; [|split]; by vm_compute.
  - apply surjective_pairing.
  - by vm_compute.
  - exists cert, e, msg, ev. split; [exact Hr|]. split; [exact Hlog|]. split; [exact Hmsg|]. split; [exact Hev|exact Hsub].
Defined.
End IssuanceExamples.
