(* ===== verification/PortalStore.v ===== *)
(** * PortalStore: the portal over the database

    The portal's role edits on the SQL role store, and what the config
    reconciliation leaves of them; and concrete runs of the portal's theorems. *)

From S2P Require Import Prelude GoText GoTime Keyed Policy Krl X509Engine Mtls Json Store Sql SqlTable SqlStore SqlFacts SqlCorrect Http Api ApiRest Reconcile PortalForm Portal.

Section Edits.
Context {HS KS : Type} `{SessionLib} `{KrlStore KS}.
Context (dl : Dialect) (srv : PServer (db SqlStore.Roles.table) HS) (now : time) (fresh : result Session).
Hypothesis sourced : RoleSource srv = SourcedRoles (role_store dl).

Abbreviation W := (PWorld (db SqlStore.Roles.table) HS KS) (only parsing).

(** The row the portal writes. *)
Definition portal_record (role : Role) : RoleRecord := mkRoleRecord role SourcePortal.

(** The table after a confirmed create or edit. *)
Definition edited (rt : route) (name : string) (role : Role) (m : gmap string RoleRecord) : gmap string RoleRecord :=
  match rt with
  | PostRoleNew => <[Policy.Name role := portal_record role]> m
  | _ => <[Policy.Name role := portal_record role]> (delete name m)
  end.

Definition portal_op (rt : route) (name : string) (role : Role) : role_op :=
  match rt with PostRoleNew => RAdd now role SourcePortal | _ => RReplace now name role SourcePortal end.

(** A confirmed create or edit is one call of the store, with the parsed role. *)
Lemma edit_request order rt r (w : W) resp w' :
  rt = PostRoleNew ∨ rt = PostRoleEdit →
  serve (dispatch srv now fresh order rt r) w = (resp, w') → p_status resp = StatusSeeOther →
  ∃ f role, Body r = Ok f ∧ ValidateCSRF r (f "csrf_token") csrfScope = true ∧
    (parseRoleForm (Ok f)).1 = Ok role ∧
    exec_role (portal_op rt (PathName r) role) (p_roles w) = (Ok tt, p_roles w') ∧ p_krl w' = p_krl w.
Proof using sourced.
  intros Hrt E Hst. unfold serve in E. destruct (dispatch _ _ _ _ _ _ _) as [out w1] eqn:Eh.
  assert (w1 = w' ∧ p_status (match out with inl x | inr x => x end) = StatusSeeOther) as [-> Ho].
  { destruct out; injection E as -> ->; by split. }
  clear E Hst resp.
  assert (∃ (write : Role → M (db SqlStore.Roles.table) unit) (err : roleFormFields → error → PResponse), (∀ fields e, p_status (err fields e) = StatusBadRequest) ∧
    (∀ role, write role = exec_role (portal_op rt (PathName r) role)) ∧
    (f <-h posted_form r;;
     let '(parsed, fields) := parseRoleForm (Ok f) in
     role <-h try parsed (err fields);;
     res <-h on_roles (write role);;
     _ <-h try res (err fields);;
     hret (redirect (basePath +:+ "/roles/" +:+ Policy.Name role))) w = (out, w'))
    as (write & err & Herr & Hw & Eh').
  { destruct Hrt as [-> | ->]; cbn [dispatch] in Eh; unfold handleRoleCreate, handleRoleUpdate, with_writer, roleWriter in Eh;
      rewrite sourced in Eh; by eexists _, _; split_and!; [| |exact Eh]. }
  clear Eh. unfold posted_form, hbind, try in Eh'.
  destruct (Body r) as [f|e] eqn:Eb; [|injection Eh' as <- <-; discriminate].
  unfold checkCSRF in Eh'. destruct (ValidateCSRF r (f "csrf_token") csrfScope) eqn:Ec; cbn in Eh';
    [|injection Eh' as <- <-; discriminate].
  exists f. destruct (role_of_fields (form_fields f)) as [role|e] eqn:Er;
    [|injection Eh' as <- <-; by rewrite Herr in Ho].
  exists role. unfold on_roles in Eh'. rewrite Hw in Eh'.
  destruct (exec_role _ (p_roles w)) as [[[]|e] s] eqn:Ex; cbn in Eh';
    injection Eh' as <- <-; [|by rewrite Herr in Ho].
  split_and!; [done|done|done|done|done].
Qed.

Lemma edit_view rt name role d d' :
  rt = PostRoleNew ∨ rt = PostRoleEdit → role_ok role → roles_ok (data d) →
  exec_role (portal_op rt name role) d = (Ok tt, d') →
  roles_ok (data d') ∧ roles_view (data d') = edited rt name role (roles_view (data d)).
Proof.
  intros Hrt Hrole Hok E.
  assert (role_op_ok (portal_op rt name role)) as Hop by (by destruct Hrt as [-> | ->]).
  destruct (exec_role_refines _ Hop d _ d' Hok E) as [Hok' [Hv|(e & [=] & _)]]. split; [done|].
  destruct Hrt as [-> | ->]; cbn in Hv; unfold spec_add, spec_replace in Hv; cbn in Hv;
    repeat (case_match; try by injection Hv); by injection Hv as ->.
Qed.

(** *** Reconciliation after the edit *)
Context (env : string → string) (ReadFile : string → result string).
Context (decode_roles : string → result (list Role)) (decode_entries : string → result (list principalEntry)).
Context (clock : Applied → time).
Hypothesis decode_roles_ok : ∀ s l, decode_roles s = Ok l → Forall role_ok l.
Hypothesis decode_entries_ok : ∀ s l, decode_entries s = Ok l → Forall (λ e, strings_ok (e_groups e)) l.

(** C37: a role edited in the portal is what was typed, and no later reconcile takes
    it away.  When a create or an edit is answered by the redirect, the form came
    with a valid token and parsed as a role; the table holds exactly that role, as
    the portal's, under its name, and every other row but the renamed one as it
    was, and no revocation changed; and after any reconcile run without --adopt,
    whatever the files say and the database loses, the role is still there as
    typed. *)
Theorem portal_edit_survives order rt r (w : W) resp w' :
  rt = PostRoleNew ∨ rt = PostRoleEdit → roles_ok (data (p_roles w)) →
  (∀ f role, Body r = Ok f → (parseRoleForm (Ok f)).1 = Ok role → role_ok role) →
  serve (dispatch srv now fresh order rt r) w = (resp, w') → p_status resp = StatusSeeOther →
  ∃ f role, Body r = Ok f ∧ ValidateCSRF r (f "csrf_token") csrfScope = true ∧
    (parseRoleForm (Ok f)).1 = Ok role ∧
    roles_ok (data (p_roles w')) ∧ p_krl w' = p_krl w ∧
    roles_view (data (p_roles w')) = edited rt (PathName r) role (roles_view (data (p_roles w))) ∧
    ∀ o d2 res d1' d2', o_adopt o = false → principals_ok (data d2) →
      runReconcile env ReadFile decode_roles decode_entries (role_store dl) (principal_store dl) clock o
        (p_roles w', d2) = (res, (d1', d2')) →
      roles_view (data d1') !! Policy.Name role = Some (portal_record role).
Proof using sourced decode_roles_ok decode_entries_ok.
  intros Hrt Hok Hrole E Hst. destruct (edit_request _ _ _ _ _ _ Hrt E Hst) as (f & role & Hb & Hc & Hp & Hx & Hk).
  destruct (edit_view _ _ _ _ _ Hrt (Hrole _ _ Hb Hp) Hok Hx) as [Hok' Hv].
  exists f, role. split_and!; [done|done|done|done|done|done|].
  intros o d2 res d1' d2' Ho Hd2 Hrec.
  destruct (reconcile_portal_rows dl env ReadFile decode_roles decode_entries clock decode_roles_ok
    decode_entries_ok o _ _ _ _ _ Hok' Hd2 Hrec) as (_ & _ & _ & Hkeep).
  apply (proj1 (Hkeep Ho)); [|done]. rewrite Hv.
  by destruct Hrt as [-> | ->]; simpl; rewrite lookup_insert_eq.
Qed.
End Edits.

(** ** Instances: the cookie is the token *)
Module PortalExamples.
Import ReconcileExamples.

#[export] Instance cookie_sessions : SessionLib := {|
  Session := string;
  CSRFToken r _ := if str_empty (Cookies r) then Err (ErrNew "no session") else Ok (Cookies r);
  ValidateCSRF r tok _ := negb (str_empty tok) && bool_decide (tok = Cookies r);
  IssueSession _ s := Ok s;
  csrf_Token s _ := Ok s;
|}.

Definition anon : result (@Session cookie_sessions) := Ok "anon".

Definition memory_roles : MutableRoleStore Policy.InMemoryStore.t :=
  mkMutableRoleStore _ (λ s, (Policy.InMemoryStore.All s, s))
    (λ name s, (Policy.InMemoryStore.ByName s name, s))
    Policy.InMemoryStore.Add Policy.InMemoryStore.Replace Policy.InMemoryStore.Delete.

Definition memory_portal : PServer Policy.InMemoryStore.t unit :=
  mkPServer (PlainRoles memory_roles) None true true false.
Definition memory_world : PWorld Policy.InMemoryStore.t unit Krl.InMemoryStore.t :=
  mkPWorld (Policy.InMemoryStore.NewInMemoryStore [portal_role]) () Krl.InMemoryStore.NewInMemoryStore [].

Definition fields (l : list (string * string)) (k : string) : string :=
  default "" (list_to_map (M:=gmap string string) l !! k).
Definition form_request (name : string) (l : list (string * string)) : PRequest :=
  mkPRequest name (Ok (fields l)) None (Some "admin") "tok".

Definition forged : PResponse * PWorld Policy.InMemoryStore.t unit Krl.InMemoryStore.t :=
  serve (dispatch (KS:=Krl.InMemoryStore.t) memory_portal 0 anon (λ _, []) PostRoleDelete
    (form_request "ops" [("csrf_token", "guess")])) memory_world.
Definition genuine : PResponse * PWorld Policy.InMemoryStore.t unit Krl.InMemoryStore.t :=
  serve (dispatch (KS:=Krl.InMemoryStore.t) memory_portal 0 anon (λ _, []) PostRoleDelete
    (form_request "ops" [("csrf_token", "tok")])) memory_world.

Lemma portal_forgery_refused_witness :
  p_status genuine.1 = StatusSeeOther ∧ Policy.InMemoryStore.All (p_roles genuine.2) = [] ∧
  p_status forged.1 = StatusForbidden ∧ forged.2 = memory_world.
Proof.
  split_and!; [by vm_compute|by vm_compute|by vm_compute|].
  destruct (portal_forgery_refused (KS:=Krl.InMemoryStore.t) memory_portal 0 anon eq eq eq (λ _, []) PostRoleDelete
    (form_request "ops" [("csrf_token", "guess")]) memory_world forged.1 forged.2) as [_ H].
  - by split_and!.
  - right. intros f [= <-]. by vm_compute.
  - unfold forged. apply surjective_pairing.
  - by destruct (H eq_refl).
Defined.

Definition revoke_request : PRequest :=
  form_request "" [("csrf_token", "tok"); ("serial", " 18446744073709551615 "); ("reason", "stolen")].
Definition revoked : PResponse * PWorld Policy.InMemoryStore.t unit Krl.InMemoryStore.t :=
  serve (handleRevocationsCreate (KS:=Krl.InMemoryStore.t) memory_portal 0 anon revoke_request) memory_world.

Lemma portal_revocation_effective_witness :
  p_status revoked.1 = StatusSeeOther ∧
  (Api.IsRevoked 18446744073709551615 "" (p_krl revoked.2)).1 = true.
Proof.
  split; [by vm_compute|].
  destruct (portal_revocation_effective (KS:=Krl.InMemoryStore.t) memory_portal 0 anon revoke_request memory_world revoked.1 revoked.2)
    as (f & Hf & _ & _ & _ & _ & _ & _ & H).
  - done.
  - by vm_compute.
  - unfold revoked. apply surjective_pairing.
  - by vm_compute.
  - injection Hf as <-. apply (H 18446744073709551615 ""). left. split; [done|by vm_compute].
Defined.

Definition sql_portal : PServer (db SqlStore.Roles.table) unit :=
  mkPServer (SourcedRoles (role_store sqlite_dialect)) None true true false.
Definition sql_world : PWorld (db SqlStore.Roles.table) unit Krl.InMemoryStore.t :=
  mkPWorld (mkDb (data before) []) () Krl.InMemoryStore.NewInMemoryStore [].

(** The portal renames "old", a config role that left the file, to "kept". *)
Definition rename : PResponse * PWorld (db SqlStore.Roles.table) unit Krl.InMemoryStore.t :=
  serve (dispatch (KS:=Krl.InMemoryStore.t) sql_portal 0 anon (λ _, []) PostRoleEdit
    (form_request "old" [("csrf_token", "tok"); ("name", "kept"); ("group_claim", "grp-old");
                         ("allowed_principals", "bob")])) sql_world.
Definition kept_role : Role := mkRole "kept" "grp-old" ["bob"] [] [] 0 0 0 ∅.

Definition reconciled := runReconcile ex_env Ok ex_roles ex_entries (role_store sqlite_dialect)
  (principal_store sqlite_dialect) (λ _, 0) ex_opts (p_roles rename.2, mkDb [] []).

Lemma portal_edit_survives_witness :
  is_ok reconciled.1 = true ∧
  roles_view (data reconciled.2.1) !! "kept" = Some (portal_record kept_role).
Proof.
  split; [by vm_compute|].
  destruct (portal_edit_survives (KS:=Krl.InMemoryStore.t) sqlite_dialect sql_portal 0 anon eq_refl ex_env Ok ex_roles ex_entries
    (λ _, 0) ex_roles_ok ex_entries_ok (λ _, []) PostRoleEdit
    (form_request "old" [("csrf_token", "tok"); ("name", "kept"); ("group_claim", "grp-old");
                         ("allowed_principals", "bob")]) sql_world rename.1 rename.2)
    as (f & role & Hf & _ & Hrole & _ & _ & _ & H).
  - by right.
  - exact before_ok.
  - intros f role [= <-] Hr. assert (role = kept_role) as -> by (vm_compute in Hr; by injection Hr as <-).
    by apply strings_role_ok.
  - unfold rename. apply surjective_pairing.
  - by vm_compute.
  - injection Hf as <-. assert (role = kept_role) as -> by (vm_compute in Hrole; by injection Hrole as <-).
    apply (H ex_opts (mkDb [] []) reconciled.1 reconciled.2.1 reconciled.2.2); [done|by split; constructor|].
    unfold reconciled. by destruct (runReconcile _ _ _ _ _ _ _ _ _) as [? [? ?]].
Defined.
End PortalExamples.
