(* ===== verification/GoTemplate.v ===== *)
(** * GoTemplate: the template language of Go

    The part of [text/template] that the portal's pages are written in: texts with
    actions between double braces, which define and call named templates, branch on
    a value, range over lists and maps, and print fields, variables and calls of
    functions.  [Parse] reads a template text, [exec] runs it on data and gives the
    text and the printed values as pieces, in order ([GoHtml] escapes them).  The
    other syntax of the language is refused by [Parse].

    [check] types a template against the type of its data; the theorem at the end
    is that a template that checks runs without an error. *)

From S2P Require Import Prelude GoText GoTime.

(** ** Templates *)

Inductive operand :=
  (** [.A.B]; the dot alone is the empty path *)
  | Field (path : list string)
  (** [$x.A]; [$] alone is the variable with the empty name *)
  | Var (x : string) (path : list string)
  | Lit (s : string).

Inductive pipeline :=
  | Operand (a : operand)
  | Call (f : string) (args : list operand).

Inductive node :=
  | NText (s : string)
  | NAction (p : pipeline)
  | NIf (p : pipeline) (thn els : list node)
  (** [{{range $k, $v := p}}]: the names, when declared *)
  | NRange (decl : option (string * string)) (p : pipeline) (body els : list node)
  | NTemplate (name : string) (arg : operand).

(** The named templates of a set, the last definition first. *)
Abbreviation templates := (list (string * list node)).

Definition Lookup (t : templates) (name : string) : option (list node) :=
  snd <$> List.find (λ d, bool_decide (d.1 = name)) t.

Section NodeInd.
Context (P : node → Prop).
Context (Ptext : ∀ s, P (NText s)) (Paction : ∀ p, P (NAction p)) (Ptemplate : ∀ n a, P (NTemplate n a)).
Context (Pif : ∀ p thn els, Forall P thn → Forall P els → P (NIf p thn els)).
Context (Prange : ∀ d p body els, Forall P body → Forall P els → P (NRange d p body els)).

Fixpoint node_nested_ind (n : node) : P n :=
  let all := fix all (l : list node) : Forall P l :=
    match l with [] => Forall_nil_2 P | n :: l => Forall_cons_2 P n l (node_nested_ind n) (all l) end in
  match n with
  | NText s => Ptext s
  | NAction p => Paction p
  | NIf p thn els => Pif p thn els (all thn) (all els)
  | NRange d p body els => Prange d p body els (all body) (all els)
  | NTemplate name a => Ptemplate name a
  end.
End NodeInd.

(** ** Reading a template

    An action is a list of lexemes; the text between actions is one. *)

Inductive lexeme :=
  | LText (s : string)
  | LOpen
  | LClose
  | LSpace
  | LWord (s : string)
  | LField (s : string)
  | LDot
  | LVar (s : string)
  | LString (s : string)
  | LComma
  | LDeclare.

#[export] Instance lexeme_eq_dec : EqDecision lexeme.
Proof. solve_decision. Defined.

Definition letter (c : ascii) : bool := byte_in 65 90 c || byte_in 97 122 c || byte_is 95 c.
Definition alnum (c : ascii) : bool := letter c || is_digit c.

(** What the lexer is in the middle of. *)
Inductive lexing :=
  | InText
  | TextBrace
  | InAction
  | InWord (mk : string → lexeme)
  | InString
  | ActionBrace
  | AfterColon.

Definition flush_text (buf : string) : list lexeme := if str_empty buf then [] else [LText buf].

(** [lex st buf s]: the lexemes of [s], with [buf] read of the present one.  In an
    action, a byte that ends a word or field is looked at again by [lex_action]. *)
Definition lex_action (k : lexing → string → option (list lexeme)) (c : ascii) : option (list lexeme) :=
  if byte_is 32 c then cons LSpace <$> k InAction ""
  else if byte_is 125 c then k ActionBrace ""
  else if byte_is 34 c then k InString ""
  else if byte_is 44 c then cons LComma <$> k InAction ""
  else if byte_is 58 c then k AfterColon ""
  else if byte_is 46 c then k (InWord LField) ""
  else if byte_is 36 c then k (InWord LVar) ""
  else if letter c then k (InWord LWord) (String c "")
  else None.

(** A field without a name is the dot. *)
Definition word (mk : string → lexeme) (buf : string) : lexeme :=
  if bool_decide (mk buf = LField "") then LDot else mk buf.

Fixpoint lex (st : lexing) (buf s : string) : option (list lexeme) :=
  match s with
  | "" => match st with
          | InText => Some (flush_text buf)
          | TextBrace => Some (flush_text (buf +:+ "{"))
          | _ => None
          end
  | String c s =>
      let k st buf := lex st buf s in
      match st with
      | InText => if byte_is 123 c then k TextBrace buf else k InText (buf +:+ String c "")
      | TextBrace =>
          if byte_is 123 c then app (flush_text buf ++ [LOpen]) <$> k InAction ""
          else k InText (buf +:+ "{" +:+ String c "")
      | InAction => lex_action k c
      | InWord mk => if alnum c then k (InWord mk) (buf +:+ String c "") else cons (word mk buf) <$> lex_action k c
      | InString =>
          if byte_is 34 c then cons (LString buf) <$> k InAction ""
          else if byte_is 92 c then None
          else k InString (buf +:+ String c "")
      | ActionBrace => if byte_is 125 c then cons LClose <$> k InText "" else None
      | AfterColon => if byte_is 61 c then cons LDeclare <$> k InAction "" else None
      end
  end.

(** The operand at the head of an action: a variable or a field, and the fields
    right after it. *)
Fixpoint take_fields (l : list lexeme) : list string * list lexeme :=
  match l with
  | LField f :: l => let '(path, l) := take_fields l in (f :: path, l)
  | _ => ([], l)
  end.

Definition parse_operand (l : list lexeme) : option (operand * list lexeme) :=
  match l with
  | LDot :: l => Some (Field [], l)
  | LField _ :: _ => let '(path, l) := take_fields l in Some (Field path, l)
  | LVar x :: l => let '(path, l) := take_fields l in Some (Var x path, l)
  | LString s :: l => Some (Lit s, l)
  | _ => None
  end.

(** Arguments up to the end of the action, each after a space. *)
Fixpoint parse_args (fuel : nat) (l : list lexeme) : option (list operand * list lexeme) :=
  match fuel, l with
  | S fuel, LClose :: l => Some ([], l)
  | S fuel, LSpace :: l =>
      '(a, l) ← parse_operand l; '(args, l) ← parse_args fuel l; Some (a :: args, l)
  | _, _ => None
  end.

Definition parse_pipeline (l : list lexeme) : option (pipeline * list lexeme) :=
  match l with
  | LWord f :: l => '(args, l) ← parse_args (length l) l; Some (Call f args, l)
  | _ => '(a, l) ← parse_operand l;
         match l with LClose :: l => Some (Operand a, l) | _ => None end
  end.

(** What ended a list of nodes. *)
Inductive ending := AtEnd | AtElse | AtElseIf (p : pipeline) | AtEOF.

(** One control structure or action, after the opening braces; the recursion reads
    the nodes of its branches. *)
Definition parse_range (l : list lexeme) : option (option (string * string) * pipeline * list lexeme) :=
  match l with
  | LVar i :: LComma :: LSpace :: LVar v :: LSpace :: LDeclare :: LSpace :: l =>
      '(p, l) ← parse_pipeline l; Some (Some (i, v), p, l)
  | _ => '(p, l) ← parse_pipeline l; Some (None, p, l)
  end.

Fixpoint parse_nodes (fuel : nat) (l : list lexeme) : option (list node * ending * list lexeme) :=
  match fuel with
  | O => None
  | S fuel =>
      let more n l := '(ns, e, l) ← parse_nodes fuel l; Some (n :: ns, e, l) in
      match l with
      | [] => Some ([], AtEOF, [])
      | LText s :: l => more (NText s) l
      | LOpen :: LWord "end" :: LClose :: l => Some ([], AtEnd, l)
      | LOpen :: LWord "else" :: LClose :: l => Some ([], AtElse, l)
      | LOpen :: LWord "else" :: LSpace :: LWord "if" :: LSpace :: l =>
          '(p, l) ← parse_pipeline l; Some ([], AtElseIf p, l)
      | LOpen :: LWord "if" :: LSpace :: l =>
          '(p, l) ← parse_pipeline l; '(n, l) ← parse_if fuel p l; more n l
      | LOpen :: LWord "range" :: LSpace :: l =>
          '(d, p, l) ← parse_range l;
          '(body, e, l) ← parse_nodes fuel l;
          match e with
          | AtEnd => more (NRange d p body []) l
          | AtElse => '(els, e, l) ← parse_nodes fuel l;
                      match e with AtEnd => more (NRange d p body els) l | _ => None end
          | _ => None
          end
      | LOpen :: LWord "template" :: LSpace :: LString name :: LSpace :: l =>
          '(a, l) ← parse_operand l;
          match l with LClose :: l => more (NTemplate name a) l | _ => None end
      | LOpen :: l => '(p, l) ← parse_pipeline l; more (NAction p) l
      | _ => None
      end
  end
(** The branches of [{{if p}}]; [{{else if q}}] is a branch of its own with the
    same [{{end}}]. *)
with parse_if (fuel : nat) (p : pipeline) (l : list lexeme) : option (node * list lexeme) :=
  match fuel with
  | O => None
  | S fuel =>
      '(thn, e, l) ← parse_nodes fuel l;
      match e with
      | AtEnd => Some (NIf p thn [], l)
      | AtElse => '(els, e, l) ← parse_nodes fuel l;
                  match e with AtEnd => Some (NIf p thn els, l) | _ => None end
      | AtElseIf q => '(n, l) ← parse_if fuel q l; Some (NIf p thn [n], l)
      | AtEOF => None
      end
  end.

(** The top level: definitions, and text that belongs to the unnamed template. *)
Fixpoint parse_defines (fuel : nat) (l : list lexeme) (t : templates) : option templates :=
  match fuel with
  | O => None
  | S fuel =>
      match l with
      | [] => Some t
      | LText _ :: l => parse_defines fuel l t
      | LOpen :: LWord "define" :: LSpace :: LString name :: LClose :: l =>
          '(body, e, l) ← parse_nodes (length l) l;
          match e with AtEnd => parse_defines fuel l ((name, body) :: t) | _ => None end
      | _ => None
      end
  end.

(** [t.Parse(text)]: the set with the definitions of the text added. *)
Definition Parse (t : templates) (text : string) : result templates :=
  match (l ← lex InText "" text; parse_defines (S (length l)) l t) with
  | Some t => Ok t
  | None => Err (ErrOpaque "template: parse error")
  end.

(** ** Data *)

Inductive value :=
  | VStr (s : string)
  | VBool (b : bool)
  | VInt (z : Z)
  | VTime (t : time)
  | VList (l : list value)
  (** a map of strings, in the order of its keys *)
  | VMap (m : list (string * string))
  (** a struct; the fields of an embedded struct are among its own *)
  | VStruct (fields : list (string * value)).

Definition assoc {A} (l : list (string * A)) (k : string) : option A :=
  snd <$> List.find (λ d, bool_decide (d.1 = k)) l.

(** [isTrue]: what [if] tests. *)
Definition truth (v : value) : bool :=
  match v with
  | VStr s => negb (str_empty s)
  | VBool b => b
  | VInt z => negb (z =? 0)
  | VList [] | VMap [] => false
  | VTime _ | VList _ | VMap _ | VStruct _ => true
  end.

(** What an action prints; of lists, maps and structs it is not modelled. *)
Definition printed (v : value) : result string :=
  match v with
  | VStr s => Ok s
  | VBool b => Ok (if b then "true" else "false")
  | VInt z => Ok (FormatInt z)
  | _ => Err (ErrOpaque "printed form not modelled")
  end.

(** What [range] goes over: the keys and elements. *)
Fixpoint indexed {A} (i : Z) (l : list A) : list (value * A) :=
  match l with [] => [] | x :: l => (VInt i, x) :: indexed (i + 1) l end.

Definition range_items (v : value) : result (list (value * value)) :=
  match v with
  | VList l => Ok (indexed 0 l)
  | VMap m => Ok ((λ kv, (VStr kv.1, VStr kv.2)) <$> m)
  | _ => Err (ErrOpaque "range can't iterate over value")
  end.

(** ** Execution *)

(** A text of the template, or a value it printed. *)
Inductive piece := Static (s : string) | Hole (s : string).

Record env := mkEnv { dot : value; scope : list (string * value) }.

(** A template starts with [$] bound to its data. *)
Definition start (v : value) : env := mkEnv v [("", v)].

Fixpoint get_path (v : value) (path : list string) : result value :=
  match path with
  | [] => Ok v
  | f :: path =>
      match v with
      | VStruct fields =>
          match assoc fields f with
          | Some w => get_path w path
          | None => Err (ErrOpaque ("can't evaluate field " +:+ f))
          end
      | _ => Err (ErrOpaque ("can't evaluate field " +:+ f))
      end
  end.

Definition eval_operand (e : env) (a : operand) : result value :=
  match a with
  | Field path => get_path (dot e) path
  | Var x path =>
      match assoc (scope e) x with
      | Some v => get_path v path
      | None => Err (ErrOpaque ("undefined variable: $" +:+ x))
      end
  | Lit s => Ok (VStr s)
  end.

Fixpoint eval_operands (e : env) (l : list operand) : result (list value) :=
  match l with
  | [] => Ok []
  | a :: l => v <-r eval_operand e a;; vs <-r eval_operands e l;; Ok (v :: vs)
  end.

Definition eq_values (v w : value) : result bool :=
  match v, w with
  | VStr s, VStr t => Ok (bool_decide (s = t))
  | VInt a, VInt b => Ok (a =? b)
  | VBool a, VBool b => Ok (Bool.eqb a b)
  | _, _ => Err (ErrOpaque "incompatible types for comparison")
  end.

Definition len_value (v : value) : result value :=
  match v with
  | VStr s => Ok (VInt (Z.of_nat (String.length s)))
  | VList l => Ok (VInt (Z.of_nat (length l)))
  | VMap m => Ok (VInt (Z.of_nat (length m)))
  | _ => Err (ErrOpaque "len of value")
  end.

Section Exec.
(** The functions of the set ([Funcs]), beside the built-in ones. *)
Context (funcs : string → list value → result value).

Definition call_function (f : string) (args : list value) : result value :=
  match args with
  | [v; w] =>
      if bool_decide (f = "eq") then b <-r eq_values v w;; Ok (VBool b)
      else if bool_decide (f = "ne") then b <-r eq_values v w;; Ok (VBool (negb b))
      else funcs f args
  | [v] =>
      if bool_decide (f = "not") then Ok (VBool (negb (truth v)))
      else if bool_decide (f = "len") then len_value v
      else funcs f args
  | _ => funcs f args
  end.

Definition eval (e : env) (p : pipeline) : result value :=
  match p with
  | Operand a => eval_operand e a
  | Call f args => vs <-r eval_operands e args;; call_function f vs
  end.

(** A text being written: what a part adds to it, or the error that stops it. *)
Abbreviation writer := (env → result (list piece)) (only parsing).

Fixpoint all_of (ws : list writer) : writer := λ e,
  match ws with
  | [] => Ok []
  | w :: ws => a <-r w e;; b <-r all_of ws e;; Ok (a ++ b)
  end.

(** The body of a [range], once per item. *)
Definition item_env (decl : option (string * string)) (e : env) (item : value * value) : env :=
  mkEnv item.2 (match decl with
                | Some (k, v) => (v, item.2) :: (k, item.1) :: scope e
                | None => scope e
                end).

Fixpoint each (decl : option (string * string)) (w : writer) (items : list (value * value)) : writer := λ e,
  match items with
  | [] => Ok []
  | item :: items => a <-r w (item_env decl e item);; b <-r each decl w items e;; Ok (a ++ b)
  end.

Fixpoint exec_node (call : string → value → result (list piece)) (n : node) : writer :=
  match n with
  | NText s => λ _, Ok [Static s]
  | NAction p => λ e, v <-r eval e p;; s <-r printed v;; Ok [Hole s]
  | NIf p thn els => λ e,
      v <-r eval e p;;
      if truth v then all_of (List.map (exec_node call) thn) e else all_of (List.map (exec_node call) els) e
  | NRange d p body els => λ e,
      v <-r eval e p;;
      items <-r range_items v;;
      match items with
      | [] => all_of (List.map (exec_node call) els) e
      | _ => each d (all_of (List.map (exec_node call) body)) items e
      end
  | NTemplate name a => λ e, v <-r eval_operand e a;; call name v
  end.

(** [depth] bounds the nesting of template calls. *)
Fixpoint exec (depth : nat) (t : templates) (name : string) (v : value) : result (list piece) :=
  match depth with
  | O => Err (ErrOpaque "exceeded maximum template depth")
  | S depth =>
      match Lookup t name with
      | None => Err (ErrOpaque ("template " +:+ name +:+ " not defined"))
      | Some nodes => all_of (List.map (exec_node (exec depth t)) nodes) (start v)
      end
  end.
End Exec.

(** The bound of the library. *)
Definition maxExecDepth : nat := N.to_nat 100000.

(** ** Types *)

Inductive ty :=
  | TStr | TBool | TInt | TTime
  | TList (t : ty)
  | TMap
  | TStruct (fields : list (string * ty)).

Fixpoint typed (t : ty) (v : value) : bool :=
  match t, v with
  | TStr, VStr _ | TBool, VBool _ | TInt, VInt _ | TTime, VTime _ | TMap, VMap _ => true
  | TList t, VList l => forallb (typed t) l
  | TStruct ts, VStruct vs =>
      (fix go (ts : list (string * ty)) (vs : list (string * value)) : bool :=
        match ts, vs with
        | [], [] => true
        | (f, t) :: ts, (g, v) :: vs => bool_decide (f = g) && typed t v && go ts vs
        | _, _ => false
        end) ts vs
  | _, _ => false
  end.

Fixpoint ty_path (t : ty) (path : list string) : option ty :=
  match path with
  | [] => Some t
  | f :: path => match t with
                 | TStruct ts => t ← assoc ts f; ty_path t path
                 | _ => None
                 end
  end.

(** What an environment holds. *)
Record tenv := mkTenv { tdot : ty; tscope : list (string * ty) }.
Definition tstart (t : ty) : tenv := mkTenv t [("", t)].

Definition ty_operand (g : tenv) (a : operand) : option ty :=
  match a with
  | Field path => ty_path (tdot g) path
  | Var x path => t ← assoc (tscope g) x; ty_path t path
  | Lit _ => Some TStr
  end.

Definition printable (t : ty) : bool := match t with TStr | TBool | TInt => true | _ => false end.

Definition elem_types (t : ty) : option (ty * ty) :=
  match t with TList t => Some (TInt, t) | TMap => Some (TStr, TStr) | _ => None end.

Definition item_tenv (decl : option (string * string)) (g : tenv) (kt : ty * ty) : tenv :=
  mkTenv kt.2 (match decl with
               | Some (k, v) => (v, kt.2) :: (k, kt.1) :: tscope g
               | None => tscope g
               end).

Section Check.
(** The types of the set's own functions. *)
Context (sig : string → list ty → option ty).

Definition ty_call (f : string) (args : list ty) : option ty :=
  match args with
  | [t; u] =>
      if bool_decide (f = "eq") || bool_decide (f = "ne")
      then match t, u with TStr, TStr | TInt, TInt | TBool, TBool => Some TBool | _, _ => None end
      else sig f args
  | [t] =>
      if bool_decide (f = "not") then Some TBool
      else if bool_decide (f = "len") then match t with TStr | TList _ | TMap => Some TInt | _ => None end
      else sig f args
  | _ => sig f args
  end.

Definition ty_eval (g : tenv) (p : pipeline) : option ty :=
  match p with
  | Operand a => ty_operand g a
  | Call f args => ts ← mapM (ty_operand g) args; ty_call f ts
  end.

Fixpoint check_node (call : string → ty → bool) (n : node) (g : tenv) : bool :=
  match n with
  | NText _ => true
  | NAction p => match ty_eval g p with Some t => printable t | None => false end
  | NIf p thn els =>
      match ty_eval g p with Some _ => true | None => false end &&
      forallb (λ n, check_node call n g) thn && forallb (λ n, check_node call n g) els
  | NRange d p body els =>
      match ty_eval g p with
      | Some t =>
          match elem_types t with
          | Some kt => forallb (λ n, check_node call n (item_tenv d g kt)) body &&
                       forallb (λ n, check_node call n g) els
          | None => false
          end
      | None => false
      end
  | NTemplate name a => match ty_operand g a with Some t => call name t | None => false end
  end.

Fixpoint check (depth : nat) (t : templates) (name : string) (T : ty) : bool :=
  match depth with
  | O => false
  | S depth =>
      match Lookup t name with
      | None => false
      | Some nodes => forallb (λ n, check_node (check depth t) n (tstart T)) nodes
      end
  end.
End Check.

(** ** A template that checks runs *)

Lemma typed_struct_cons f t ts v :
  typed (TStruct ((f, t) :: ts)) v = true ↔
  ∃ w vs, v = VStruct ((f, w) :: vs) ∧ typed t w = true ∧ typed (TStruct ts) (VStruct vs) = true.
Proof.
  split.
  - destruct v as [| | | | | |[|[g w] vs]]; try done. cbn [typed].
    intros [[->%bool_decide_eq_true Hw]%andb_true_iff Hvs]%andb_true_iff. by exists w, vs.
  - intros (w & vs & -> & Hw & Hvs). cbn [typed]. by rewrite bool_decide_true, Hw by done.
Qed.

Lemma typed_assoc ts vs f t :
  typed (TStruct ts) (VStruct vs) = true → assoc ts f = Some t →
  ∃ v, assoc vs f = Some v ∧ typed t v = true.
Proof.
  revert vs. induction ts as [|[g u] ts IH]; intros vs Hvs Hf; [done|].
  apply typed_struct_cons in Hvs as (w & vs' & [= ->] & Hw & Hvs). unfold assoc in *. simpl in *.
  destruct (bool_decide (g = f)); simpl in *; [|by apply IH]. injection Hf as ->. by exists w.
Qed.

Lemma typed_path path t v u :
  typed t v = true → ty_path t path = Some u → ∃ w, get_path v path = Ok w ∧ typed u w = true.
Proof.
  revert t v. induction path as [|f path IH]; intros t v Hv Hp; simpl in *.
  - injection Hp as ->. by exists v.
  - destruct t as [| | | | | |ts]; try done. destruct v as [| | | | | |vs]; try done.
    apply bind_Some in Hp as (t' & Hf & Hp). destruct (typed_assoc _ _ _ _ Hv Hf) as (w & -> & Hw).
    by eapply IH.
Qed.

Definition env_typed (g : tenv) (e : env) : Prop :=
  typed (tdot g) (dot e) = true ∧
  ∀ x t, assoc (tscope g) x = Some t → ∃ v, assoc (scope e) x = Some v ∧ typed t v = true.

Lemma start_typed T v : typed T v = true → env_typed (tstart T) (start v).
Proof.
  intros Hv. split; [done|]. intros x t. unfold assoc, tstart, start. simpl.
  destruct (bool_decide ("" = x)); [|done]. intros [= <-]. by exists v.
Qed.

Lemma item_typed d g e kt item :
  env_typed g e → typed kt.1 item.1 = true → typed kt.2 item.2 = true →
  env_typed (item_tenv d g kt) (item_env d e item).
Proof.
  intros [Hd Hs] Hk Hv. split; [done|]. destruct d as [[k v]|]; [|done]. simpl. intros x t.
  unfold assoc. simpl. destruct (bool_decide (v = x)); [intros [= <-]; by exists item.2|].
  destruct (bool_decide (k = x)); [intros [= <-]; by exists item.1|]. apply Hs.
Qed.

Lemma operand_runs g e a t :
  env_typed g e → ty_operand g a = Some t → ∃ v, eval_operand e a = Ok v ∧ typed t v = true.
Proof.
  intros [Hd Hs] Ha. destruct a as [path|x path|s]; simpl in *.
  - by eapply typed_path.
  - apply bind_Some in Ha as (u & Hx & Hp). destruct (Hs _ _ Hx) as (v & -> & Hv). by eapply typed_path.
  - injection Ha as <-. by exists (VStr s).
Qed.

Lemma operands_run g e args ts :
  env_typed g e → mapM (ty_operand g) args = Some ts →
  ∃ vs, eval_operands e args = Ok vs ∧ Forall2 (λ t v, typed t v = true) ts vs.
Proof.
  intros He. revert ts. induction args as [|a args IH]; intros ts Hts.
  - injection Hts as <-. exists []. by split; [|constructor].
  - apply mapM_Some in Hts. apply Forall2_cons_inv_l in Hts as (t & ts' & Ha & Hts & ->).
    destruct (operand_runs g e a t He Ha) as (v & Ev & Hv).
    destruct (IH ts') as (vs & Evs & Hvs); [by apply mapM_Some|].
    exists (v :: vs). simpl. rewrite Ev. simpl. rewrite Evs. by split; [|constructor].
Qed.

Lemma printable_prints t v : typed t v = true → printable t = true → ∃ s, printed v = Ok s.
Proof. intros Hv Ht. destruct t, v; try done; by eexists. Qed.

Lemma indexed_typed t l i item :
  forallb (typed t) l = true → item ∈ indexed i l → typed TInt item.1 = true ∧ typed t item.2 = true.
Proof.
  revert i. induction l as [|v l IH]; intros i Hl Hi; simpl in *; [by apply not_elem_of_nil in Hi|].
  apply andb_true_iff in Hl as [Hv Hl]. apply elem_of_cons in Hi as [->|Hi]; [done|by eapply IH].
Qed.

Lemma range_runs t v kt :
  typed t v = true → elem_types t = Some kt →
  ∃ items, range_items v = Ok items ∧ ∀ item, item ∈ items → typed kt.1 item.1 = true ∧ typed kt.2 item.2 = true.
Proof.
  intros Hv Ht. destruct t as [| | | |t| |]; try done; destruct v; try done; injection Ht as <-.
  - eexists. split; [done|]. intros item. by apply indexed_typed.
  - eexists. split; [done|]. intros item (kv & -> & _)%list_elem_of_fmap. done.
Qed.

Section Sound.
Context (funcs : string → list value → result value) (sig : string → list ty → option ty).
Context (funcs_typed : ∀ f ts vs t, sig f ts = Some t → Forall2 (λ t v, typed t v = true) ts vs →
  ∃ v, funcs f vs = Ok v ∧ typed t v = true).

Lemma call_runs f ts vs t :
  ty_call sig f ts = Some t → Forall2 (λ t v, typed t v = true) ts vs →
  ∃ v, call_function funcs f vs = Ok v ∧ typed t v = true.
Proof using funcs_typed.
  intros Ht Hvs. pose proof (λ t, funcs_typed f ts vs t) as Hf.
  destruct Hvs as [|t1 v1 ts vs H1 Hvs]; [by apply Hf|].
  destruct Hvs as [|t2 v2 ts vs H2 Hvs].
  - simpl in *. repeat case_bool_decide.
    + injection Ht as <-. by eexists.
    + destruct t1, v1; try done; injection Ht as <-; by eexists.
    + apply Hf; [done|]. by repeat constructor.
  - destruct Hvs as [|t3 v3 ts vs H3 Hvs].
    + simpl in *. repeat case_bool_decide; simpl in *;
        try (destruct t1, v1; try done; destruct t2, v2; try done; injection Ht as <-; by eexists).
      apply Hf; [done|]. by repeat constructor.
    + apply Hf; [done|]. by repeat constructor.
Qed.

Lemma eval_runs g e p t :
  env_typed g e → ty_eval sig g p = Some t → ∃ v, eval funcs e p = Ok v ∧ typed t v = true.
Proof using funcs_typed.
  intros He. destruct p as [a|f args]; simpl; [by apply operand_runs|].
  intros (ts & Hts & Hf)%bind_Some. destruct (operands_run g e args ts He Hts) as (vs & -> & Hvs).
  simpl. by eapply call_runs.
Qed.

Section Body.
Context (call : string → value → result (list piece)) (ccall : string → ty → bool).
Context (call_runs : ∀ name T v, ccall name T = true → typed T v = true → ∃ ps, call name v = Ok ps).

Definition node_runs (n : node) : Prop := ∀ g e,
  env_typed g e → check_node sig ccall n g = true → ∃ ps, exec_node funcs call n e = Ok ps.

Lemma nodes_run ns g e :
  Forall node_runs ns → env_typed g e → forallb (λ n, check_node sig ccall n g) ns = true →
  ∃ ps, all_of (List.map (exec_node funcs call) ns) e = Ok ps.
Proof using Type.
  intros Hns He. induction Hns as [|n ns Hn Hns IH]; simpl; [by eexists|].
  intros [H1 H2]%andb_true_iff. destruct (Hn g e He H1) as [ps ->]. destruct (IH H2) as [qs ->]. by eexists.
Qed.

Lemma each_runs d w items g e kt :
  (∀ e, env_typed (item_tenv d g kt) e → ∃ ps, w e = Ok ps) → env_typed g e →
  (∀ item, item ∈ items → typed kt.1 item.1 = true ∧ typed kt.2 item.2 = true) →
  ∃ ps, each d w items e = Ok ps.
Proof using Type.
  intros Hw He. induction items as [|item items IH]; intros Hit; simpl; [by eexists|].
  destruct (Hit item) as [H1 H2]; [by left|].
  destruct (Hw (item_env d e item)) as [ps ->]; [by apply item_typed|].
  destruct IH as [qs ->]; [by intros ? ?; apply Hit; right|]. by eexists.
Qed.

Lemma node_checked n : node_runs n.
Proof using funcs_typed call_runs.
  induction n as [s|p|name a|p thn els IHthn IHels|d p body els IHbody IHels] using node_nested_ind;
    intros g e He Hc; simpl in *.
  - by eexists.
  - destruct (ty_eval sig g p) as [t|] eqn:Ht; [|done]. destruct (eval_runs g e p t He Ht) as (v & -> & Hv).
    destruct (printable_prints t v Hv Hc) as (s & Es). simpl. rewrite Es. by eexists.
  - destruct (ty_operand g a) as [t|] eqn:Ht; [|done].
    destruct (operand_runs g e a t He Ht) as (v & -> & Hv). simpl. by eapply call_runs.
  - apply andb_true_iff in Hc as [[Hp Hthn]%andb_true_iff Hels].
    destruct (ty_eval sig g p) as [t|] eqn:Ht; [|done]. destruct (eval_runs g e p t He Ht) as (v & -> & Hv).
    simpl. destruct (truth v); by eapply nodes_run.
  - destruct (ty_eval sig g p) as [t|] eqn:Ht; [|done]. destruct (elem_types t) as [kt|] eqn:Hk; [|done].
    apply andb_true_iff in Hc as [Hbody Hels]. destruct (eval_runs g e p t He Ht) as (v & -> & Hv).
    destruct (range_runs t v kt Hv Hk) as (items & Ei & Hitems). simpl. rewrite Ei. simpl.
    destruct items as [|item items]; [by eapply nodes_run|].
    eapply (each_runs d _ (item :: items)); [|done|done]. intros e' He'. by eapply nodes_run.
Qed.
End Body.

(** A template that checks against a type runs without an error on every value
    of the type. *)
Lemma check_runs depth depth' t name T v :
  check sig depth t name T = true → (depth ≤ depth')%nat → typed T v = true →
  ∃ ps, exec funcs depth' t name v = Ok ps.
Proof using funcs_typed.
  revert depth' name T v. induction depth as [|depth IH]; intros [|depth'] name T v Hc Hd Hv; try done; [lia|].
  simpl in *. destruct (Lookup t name) as [nodes|]; [|done].
  eapply (nodes_run _ (check sig depth t)); [|by apply start_typed|done].
  apply Forall_forall. intros n _. apply node_checked. intros name' T' v' Hc' Hv'.
  eapply IH; [done|lia|done].
Qed.
End Sound.
