(* ===== verification/GoHtml.v ===== *)
(** * GoHtml: contextual escaping, and what a browser reads

    Two machines over the bytes of a page.  [gstep] is the context that
    [html/template] tracks through the texts of a template, from which it picks how
    a printed value is escaped ([escaper]): as text, in an attribute, as a URL, as a
    string of a script in an attribute.  [bstep] is the tokenizer of the HTML
    standard: tags with their attributes, and the text between them.  Each stops
    ([None], [Bad]) at constructs the pages do not use: comments, values that are
    unquoted or in single quotes, a printed value in a script.

    [vet] runs both over a template, with every branch and loop, as the library
    analyses a template before its first use.  The theorem: a page written from a
    vetted template is tokenized as the template's own markup, with every printed
    value as inert text in its place, whatever the value is. *)

From S2P Require Import Prelude GoText GoTemplate.

(** ** The tokenizer of the browser *)

Inductive token :=
  | Tag (close : bool) (name : string) (attrs : list (string * string))
  (** the text between two tags, perhaps empty *)
  | Text (s : string).

#[export] Instance token_eq_dec : EqDecision token.
Proof. solve_decision. Defined.

(** Where a character reference was met. *)
Inductive holder := HData | HInside (el : string) | HValue (close : bool) (tag attr : string).

Inductive ctl :=
  | Data
  (** in [title] or [textarea], where references count, or in [script] *)
  | Inside (el : string) (refs : bool)
  | InsideLt (el : string) (refs : bool)
  | InsideEnd (el : string) (refs : bool) (buf : string)
  | Ref (back : holder) (buf : string)
  | TagOpen
  | EndTagOpen
  | TagName (close : bool) (name : string)
  | BeforeAttr (close : bool) (tag : string)
  | AttrName (close : bool) (tag attr : string)
  | AfterName (close : bool) (tag attr : string)
  | BeforeValue (close : bool) (tag attr : string)
  | Value (close : bool) (tag attr : string)
  | AfterValue (close : bool) (tag : string)
  | SelfClose (close : bool) (tag : string)
  | Bang (buf : string)
  | Doctype
  | Bad.

#[export] Instance holder_eq_dec : EqDecision holder.
Proof. solve_decision. Defined.
#[export] Instance ctl_eq_dec : EqDecision ctl.
Proof. solve_decision. Defined.

(** What has been read: the tokens, last first, and the parts of the next. *)
Record acc := mkAcc { out : list token; text : string; attrs : list (string * string); val : string }.

Inductive act :=
  | PushText (s : string)
  | PushVal (s : string)
  | Commit (attr : string)
  | Emit (close : bool) (tag : string).

Definition do_act (x : act) (a : acc) : acc :=
  match x with
  | PushText s => mkAcc (out a) (text a +:+ s) (attrs a) (val a)
  | PushVal s => mkAcc (out a) (text a) (attrs a) (val a +:+ s)
  | Commit attr => mkAcc (out a) (text a) (attrs a ++ [(attr, val a)]) ""
  | Emit close tag => mkAcc (Tag close tag (attrs a) :: Text (text a) :: out a) "" [] ""
  end.

Definition space (c : ascii) : bool := byte_is 9 c || byte_is 10 c || byte_is 12 c || byte_is 13 c || byte_is 32 c.
Definition latin (c : ascii) : bool := byte_in 65 90 c || byte_in 97 122 c.
Definition lower1 (c : ascii) : string := String (byte_lower c) "".

Definition character_ref (name : string) : option string :=
  assoc [ ("lt", "<"); ("gt", ">"); ("amp", "&"); ("quot", dquote); ("#34", dquote); ("#39", "'");
          ("#43", "+"); ("larr", String "226" (String "134" (String "144" ""))) ] name.

Definition resume (h : holder) : ctl :=
  match h with HData => Data | HInside el => Inside el true | HValue close tag attr => Value close tag attr end.
Definition push_at (h : holder) (s : string) : act :=
  match h with HValue _ _ _ => PushVal s | _ => PushText s end.

(** The state after a tag, as the tree construction sets it. *)
Definition content (close : bool) (tag : string) : ctl :=
  if close then Data
  else if bool_decide (tag ∈ ["title"; "textarea"]) then Inside tag true
  else if bool_decide (tag = "script") then Inside tag false
  else if bool_decide (tag ∈ ["style"; "xmp"; "iframe"; "noembed"; "noframes"; "noscript"; "plaintext"]) then Bad
  else Data.

Definition attr_start (close : bool) (tag : string) (c : ascii) : ctl :=
  if byte_is 0 c || byte_is 34 c || byte_is 39 c || byte_is 60 c || byte_is 61 c then Bad
  else AttrName close tag (lower1 c).

Definition bstep (st : ctl) (c : ascii) : ctl * list act :=
  match st with
  | Data =>
      if byte_is 60 c then (TagOpen, [])
      else if byte_is 38 c then (Ref HData "", [])
      else if byte_is 0 c then (Bad, [])
      else (Data, [PushText (String c "")])
  | Inside el refs =>
      if byte_is 60 c then (InsideLt el refs, [])
      else if refs && byte_is 38 c then (Ref (HInside el) "", [])
      else if byte_is 0 c then (Bad, [])
      else (Inside el refs, [PushText (String c "")])
  | InsideLt el refs => if byte_is 47 c then (InsideEnd el refs "", []) else (Bad, [])
  | InsideEnd el refs buf =>
      if latin c then (InsideEnd el refs (buf +:+ lower1 c), [])
      else if byte_is 62 c && bool_decide (buf = el) then (Data, [Emit true el])
      else (Bad, [])
  | Ref h buf =>
      if byte_is 59 c
      then match character_ref buf with Some s => (resume h, [push_at h s]) | None => (Bad, []) end
      else if alnum c || byte_is 35 c then (Ref h (buf +:+ String c ""), [])
      else (Bad, [])
  | TagOpen =>
      if byte_is 33 c then (Bang "", [])
      else if byte_is 47 c then (EndTagOpen, [])
      else if latin c then (TagName false (lower1 c), [])
      else (Bad, [])
  | EndTagOpen => if latin c then (TagName true (lower1 c), []) else (Bad, [])
  | TagName close name =>
      if space c then (BeforeAttr close name, [])
      else if byte_is 47 c then (SelfClose close name, [])
      else if byte_is 62 c then (content close name, [Emit close name])
      else if byte_is 0 c then (Bad, [])
      else (TagName close (name +:+ lower1 c), [])
  | BeforeAttr close tag =>
      if space c then (BeforeAttr close tag, [])
      else if byte_is 47 c then (SelfClose close tag, [])
      else if byte_is 62 c then (content close tag, [Emit close tag])
      else (attr_start close tag c, [])
  | AttrName close tag attr =>
      if space c then (AfterName close tag attr, [])
      else if byte_is 47 c then (SelfClose close tag, [Commit attr])
      else if byte_is 61 c then (BeforeValue close tag attr, [])
      else if byte_is 62 c then (content close tag, [Commit attr; Emit close tag])
      else match attr_start close tag c with
           | Bad => (Bad, [])
           | _ => (AttrName close tag (attr +:+ lower1 c), [])
           end
  | AfterName close tag attr =>
      if space c then (AfterName close tag attr, [])
      else if byte_is 47 c then (SelfClose close tag, [Commit attr])
      else if byte_is 61 c then (BeforeValue close tag attr, [])
      else if byte_is 62 c then (content close tag, [Commit attr; Emit close tag])
      else (attr_start close tag c, [Commit attr])
  | BeforeValue close tag attr =>
      if space c then (BeforeValue close tag attr, [])
      else if byte_is 34 c then (Value close tag attr, [])
      else (Bad, [])
  | Value close tag attr =>
      if byte_is 34 c then (AfterValue close tag, [Commit attr])
      else if byte_is 38 c then (Ref (HValue close tag attr) "", [])
      else if byte_is 0 c then (Bad, [])
      else (Value close tag attr, [PushVal (String c "")])
  | AfterValue close tag =>
      if space c then (BeforeAttr close tag, [])
      else if byte_is 47 c then (SelfClose close tag, [])
      else if byte_is 62 c then (content close tag, [Emit close tag])
      else (Bad, [])
  | SelfClose close tag => if byte_is 62 c then (content close tag, [Emit close tag]) else (Bad, [])
  | Bang buf =>
      let buf := buf +:+ lower1 c in
      if bool_decide (buf = "doctype") then (Doctype, [])
      else if String.prefix buf "doctype" then (Bang buf, []) else (Bad, [])
  | Doctype =>
      if byte_is 62 c then (Data, []) else if latin c || space c then (Doctype, []) else (Bad, [])
  | Bad => (Bad, [])
  end.

Fixpoint feed (s : string) (st : ctl) (a : acc) : ctl * acc :=
  match s with
  | "" => (st, a)
  | String c s => let '(st, xs) := bstep st c in feed s st (foldl (λ a x, do_act x a) a xs)
  end.

Definition start_acc : acc := mkAcc [] "" [] "".

Definition finish (st : ctl) (a : acc) : option (list token) :=
  match st with Data => Some (reverse (Text (text a) :: out a)) | _ => None end.

(** The tokens of a page; [None] where it leaves the modelled constructs. *)
Definition tokenize (page : string) : option (list token) :=
  let '(st, a) := feed page Data start_acc in finish st a.

(** ** Escaping *)

Fixpoint map_bytes (f : ascii → string) (s : string) : string :=
  match s with "" => "" | String c s => f c +:+ map_bytes f s end.

(** U+FFFD, in UTF-8. *)
Definition replacement : string := String "239" (String "191" (String "189" "")).

(** [htmlReplacementTable]; the same for text, for [title] and [textarea], and for
    quoted attributes. *)
Definition html_byte (c : ascii) : string :=
  if byte_is 0 c then replacement
  else if byte_is 34 c then "&#34;"
  else if byte_is 38 c then "&amp;"
  else if byte_is 39 c then "&#39;"
  else if byte_is 43 c then "&#43;"
  else if byte_is 60 c then "&lt;"
  else if byte_is 62 c then "&gt;"
  else String c "".
Definition html_escape : string → string := map_bytes html_byte.

Definition is_hex (c : ascii) : bool := is_digit c || byte_in 97 102 c || byte_in 65 70 c.
Definition one_of (l : string) (c : ascii) : bool := str_has c l.

Definition percent (c : ascii) : string :=
  String "%" (String (hex_digit (N_of_ascii c / 16)) (String (hex_digit (N_of_ascii c mod 16)) "")).

(** [processURLOnto]; [norm]: the reserved characters and the escapes already there
    are kept. *)
Fixpoint process_url (norm : bool) (s : string) : string :=
  match s with
  | "" => ""
  | String c t =>
      let keep :=
        (norm && one_of "!#$&*+,/:;=?@[]" c) || one_of "-._~" c ||
        (norm && byte_is 37 c && match t with String d (String e _) => is_hex d && is_hex e | _ => false end) ||
        latin c || is_digit c in
      (if keep then String c "" else percent c) +:+ process_url norm t
  end.

(** [urlFilter]: the part before a colon is a protocol only without a slash. *)
Definition url_filter (s : string) : string :=
  let '(protocol, _, found) := cut_byte ":" s in
  if found && negb (str_has "/" protocol) &&
     negb (bool_decide (str_lower protocol ∈ ["http"; "https"; "mailto"]))
  then "#ZgotmplZ" else s.

(** [jsStrReplacementTable], with the line separators U+2028 and U+2029. *)
Definition js_byte (c : ascii) : string :=
  if byte_is 0 c then "\u0000"
  else if byte_is 9 c then "\t"
  else if byte_is 10 c then "\n"
  else if byte_is 11 c then "\u000b"
  else if byte_is 12 c then "\f"
  else if byte_is 13 c then "\r"
  else if byte_is 34 c then "\u0022"
  else if byte_is 96 c then "\u0060"
  else if byte_is 38 c then "\u0026"
  else if byte_is 39 c then "\u0027"
  else if byte_is 43 c then "\u002b"
  else if byte_is 47 c then "\/"
  else if byte_is 60 c then "\u003c"
  else if byte_is 62 c then "\u003e"
  else if byte_is 92 c then "\\"
  else String c "".

Fixpoint js_str_escape (s : string) : string :=
  match s with
  | "" => ""
  | String a t =>
      match t with
      | String b (String c t') =>
          if byte_is 226 a && byte_is 128 b && byte_is 168 c then "\u2028" +:+ js_str_escape t'
          else if byte_is 226 a && byte_is 128 b && byte_is 169 c then "\u2029" +:+ js_str_escape t'
          else js_byte a +:+ js_str_escape t
      | _ => js_byte a +:+ js_str_escape t
      end
  end.

(** ** The contexts of [html/template] *)

Inductive url_part := UrlNone | UrlPreQuery | UrlQueryOrFrag.

(** The value of an attribute: plain, a URL, a script, a string in single quotes in
    a script. *)
Inductive attr_ctx := InPlain | InURL (p : url_part) | InJS | InJSStr.

Inductive ctx :=
  | CText
  | CLt
  | CLtSlash
  | CTagName (el : string)
  | CTag (el : string)
  | CAttrName (el attr : string)
  | CAfterName (el attr : string)
  | CBeforeValue (el attr : string)
  | CAttr (el : string) (k : attr_ctx)
  (** the content of [title], [textarea] or [script], and what has been matched of
      the end tag *)
  | CSpecial (el matched : string).

#[export] Instance url_part_eq_dec : EqDecision url_part.
Proof. solve_decision. Defined.
#[export] Instance attr_ctx_eq_dec : EqDecision attr_ctx.
Proof. solve_decision. Defined.
#[export] Instance ctx_eq_dec : EqDecision ctx.
Proof. solve_decision. Defined.

(** [attrType], for the attributes the pages use; other script, style and source
    attributes are not modelled. *)
Definition attr_kind (attr : string) : option attr_ctx :=
  if bool_decide (attr ∈ ["href"; "action"; "xmlns"]) then Some (InURL UrlNone)
  else if String.prefix "on" attr then Some InJS
  else if bool_decide (attr ∈ ["style"; "src"; "srcset"; "cite"; "data"; "formaction"; "poster"; "background"])
  then None
  else Some InPlain.

Definition gcontent (el : string) : option ctx :=
  if bool_decide (el ∈ ["title"; "textarea"; "script"]) then Some (CSpecial el "")
  else if bool_decide (el = "style") then None
  else Some CText.

(** [tTag] at a byte. *)
Definition gtag (el : string) (c : ascii) : option ctx :=
  if space c then Some (CTag el)
  else if byte_is 62 c then gcontent el
  else if byte_is 34 c || byte_is 39 c || byte_is 60 c || byte_is 61 c then None
  else Some (CAttrName el (lower1 c)).

(** [tURL] and, of [tJS] and [tJSDelimited], words, calls and strings in single
    quotes. *)
Definition gattr (k : attr_ctx) (c : ascii) : option attr_ctx :=
  match k with
  | InPlain => Some InPlain
  | InURL p =>
      if byte_is 38 c then None
      else if byte_is 35 c || byte_is 63 c then Some (InURL UrlQueryOrFrag)
      else if space c then Some (InURL p)
      else Some (InURL (match p with UrlNone => UrlPreQuery | p => p end))
  | InJS =>
      if byte_is 39 c then Some InJSStr
      else if alnum c || one_of " ();" c then Some InJS
      else None
  | InJSStr =>
      if byte_is 39 c then Some InJS
      else if byte_is 92 c || byte_is 38 c || byte_is 60 c then None
      else Some InJSStr
  end.

Definition gstep (x : ctx) (c : ascii) : option ctx :=
  match x with
  | CText => Some (if byte_is 60 c then CLt else CText)
  | CLt =>
      if byte_is 47 c then Some CLtSlash
      else if latin c then Some (CTagName (lower1 c))
      else if byte_is 60 c then Some CLt
      else Some CText
  | CLtSlash => if latin c then Some (CTagName "/") else None
  | CTagName el =>
      if latin c || is_digit c || byte_is 45 c || byte_is 58 c
      then Some (CTagName (if bool_decide (el = "/") then "/" else el +:+ lower1 c))
      else gtag el c
  | CTag el => gtag el c
  | CAttrName el attr =>
      if space c then Some (CAfterName el attr)
      else if byte_is 61 c then Some (CBeforeValue el attr)
      else if byte_is 62 c then gcontent el
      else if byte_is 34 c || byte_is 39 c || byte_is 60 c then None
      else Some (CAttrName el (attr +:+ lower1 c))
  | CAfterName el attr =>
      if space c then Some (CAfterName el attr)
      else if byte_is 61 c then Some (CBeforeValue el attr)
      else gtag el c
  | CBeforeValue el attr =>
      if space c then Some (CBeforeValue el attr)
      else if byte_is 34 c then CAttr el <$> attr_kind attr
      else None
  | CAttr el k => if byte_is 34 c then Some (CTag el) else CAttr el <$> gattr k c
  | CSpecial el m =>
      let want := "</" +:+ el in
      if bool_decide (m = want)
      then (if space c || byte_is 47 c || byte_is 62 c then gtag "/" c else Some (CSpecial el ""))
      else let m := m +:+ lower1 c in
        if String.prefix m want then Some (CSpecial el m)
        else Some (CSpecial el (if byte_is 60 c then "<" else ""))
  end.

Fixpoint gfeed (s : string) (x : ctx) : option ctx :=
  match s with "" => Some x | String c s => x ← gstep x c; gfeed s x end.

(** What is done to a printed value before it is escaped as HTML. *)
Definition prepare (x : ctx) : option (string → string) :=
  match x with
  | CText => Some id
  | CSpecial el "" => if bool_decide (el = "script") then None else Some id
  | CAttr _ InPlain => Some id
  | CAttr _ (InURL UrlNone) => Some (λ s, process_url true (url_filter s))
  | CAttr _ (InURL UrlPreQuery) => Some (process_url true)
  | CAttr _ (InURL UrlQueryOrFrag) => Some (process_url false)
  | CAttr _ InJSStr => Some js_str_escape
  | _ => None
  end.

Definition escaper (x : ctx) : option (string → string) := (λ f s, html_escape (f s)) <$> prepare x.

(** The page written from the pieces, and the context at its end. *)
Fixpoint escape_pieces (ps : list piece) (x : ctx) : option (string * ctx) :=
  match ps with
  | [] => Some ("", x)
  | Static s :: ps =>
      x ← gfeed s x;
      '(h, x) ← escape_pieces ps x;
      Some (s +:+ h, x)
  | Hole s :: ps =>
      f ← escaper x;
      '(h, x) ← escape_pieces ps x;
      Some (f s +:+ h, x)
  end.

(** [ExecuteTemplate]: the page, or why there is none. *)
Definition html_of (ps : list piece) : result string :=
  match escape_pieces ps CText with
  | Some (h, CText) => Ok h
  | _ => Err (ErrOpaque "html/template: value in an ambiguous context")
  end.

Definition ExecuteTemplate (funcs : string → list value → result value) (t : templates) (name : string)
    (data : value) : result string :=
  ps <-r exec funcs maxExecDepth t name data;; html_of ps.

(** ** Vetting a template *)

Abbreviation both := (ctl * ctx)%type.

(** A value may be printed where the library's context and the browser's state are
    the same place. *)
Definition hole_ok (x : both) : bool :=
  match x with
  | (Data, CText) => true
  | (Inside el true, CSpecial el' "") => bool_decide (el = el') && negb (bool_decide (el = "script"))
  | (Value _ _ _, CAttr _ k) => bool_decide (k ≠ InJS)
  | _ => false
  end.

Fixpoint vet_text (s : string) (x : both) : option both :=
  match s with
  | "" => Some x
  | String c s => g ← gstep x.2 c; vet_text s ((bstep x.1 c).1, g)
  end.

Fixpoint in_turn (fs : list (both → option both)) (x : both) : option both :=
  match fs with [] => Some x | f :: fs => x ← f x; in_turn fs x end.

(** The branches of a condition end alike, and a loop ends where it began. *)
Fixpoint vet_node (call : string → both → option both) (n : node) (x : both) : option both :=
  match n with
  | NText s => vet_text s x
  | NAction _ => if hole_ok x then Some x else None
  | NIf _ thn els =>
      y ← in_turn (List.map (vet_node call) thn) x;
      z ← in_turn (List.map (vet_node call) els) x;
      if bool_decide (y = z) then Some y else None
  | NRange _ _ body els =>
      y ← in_turn (List.map (vet_node call) body) x;
      z ← in_turn (List.map (vet_node call) els) x;
      if bool_decide (y = x) && bool_decide (z = x) then Some x else None
  | NTemplate name _ => call name x
  end.

Fixpoint vet (depth : nat) (t : templates) (name : string) (x : both) : option both :=
  match depth with
  | O => None
  | S depth => nodes ← Lookup t name; in_turn (List.map (vet_node (vet depth t)) nodes) x
  end.

(** A page on its own: it begins and ends as text. *)
Definition vetted (depth : nat) (t : templates) (name : string) : bool :=
  bool_decide (vet depth t name (Data, CText) = Some (Data, CText)).

(** ** The page with its data in place *)

(** A string put where the browser is, as text or in a value. *)
Definition put (st : ctl) (s : string) (a : acc) : acc :=
  match st with Value _ _ _ => do_act (PushVal s) a | _ => do_act (PushText s) a end.

(** What is seen of a string: a NUL byte becomes U+FFFD. *)
Definition shown : string → string := map_bytes (λ c, if byte_is 0 c then replacement else String c "").

Definition hole_value (x : ctx) (s : string) : string := shown (default id (prepare x) s).

(** The browser on the pieces: it reads the template's texts, and takes each value
    whole, as [value] has it. *)
Section Place.
Context (value : ctx → string → string).

Fixpoint place (ps : list piece) (x : both) (a : acc) : both * acc :=
  match ps with
  | [] => (x, a)
  | Static s :: ps =>
      let '(st, a) := feed s x.1 a in place ps (st, default CText (gfeed s x.2)) a
  | Hole s :: ps => place ps x (put x.1 (value x.2 s) a)
  end.

Definition tokens_with (ps : list piece) : option (list token) :=
  let '(x, a) := place ps (Data, CText) start_acc in finish x.1 a.
End Place.

Definition tokens_of : list piece → option (list token) := tokens_with hole_value.

(** ** Escaped values stay where they are put *)

Lemma map_bytes_app f s t : map_bytes f (s +:+ t) = map_bytes f s +:+ map_bytes f t.
Proof. induction s as [|c s IH]; [done|]. rewrite str_app_cons. simpl. by rewrite IH, str_app_assoc. Qed.

Lemma feed_app s t st a : feed (s +:+ t) st a = let '(st, a) := feed s st a in feed t st a.
Proof.
  revert st a. induction s as [|c s IH]; intros st a; [done|]. rewrite str_app_cons. simpl.
  destruct (bstep st c) as [st' xs]. apply IH.
Qed.

(** The places a value may be put. *)
Definition open_state (st : ctl) : bool :=
  match st with Data | Inside _ true | Value _ _ _ => true | _ => false end.

Lemma put_app st s t a : put st (s +:+ t) a = put st t (put st s a).
Proof. destruct st; unfold put; simpl; by rewrite str_app_assoc. Qed.

Lemma put_nil st a : put st "" a = a.
Proof. destruct a, st; unfold put; simpl; by rewrite str_app_nil_r. Qed.

Lemma feed_html_byte c st a :
  open_state st = true →
  feed (html_byte c) st a = (st, put st (if byte_is 0 c then replacement else String c "") a).
Proof.
  intros Hst. destruct st as [|el [|]| | | | | | | | | | |close tag attr| | | | |]; try done; destruct a as [o t l v];
    destruct c as [[] [] [] [] [] [] [] []]; try reflexivity;
    unfold put; simpl; by rewrite !str_app_assoc.
Qed.

Lemma feed_html_escape s st a :
  open_state st = true → feed (html_escape s) st a = (st, put st (shown s) a).
Proof.
  intros Hst. unfold html_escape, shown. revert a. induction s as [|c s IH]; intros a; simpl; [by rewrite put_nil|].
  rewrite feed_app, feed_html_byte by done. by rewrite IH, put_app.
Qed.

Lemma hole_ok_open x : hole_ok x = true → open_state x.1 = true ∧ ∃ f, prepare x.2 = Some f.
Proof.
  destruct x as [st g]. destruct st as [|el refs| | | | | | | | | | |close tag attr| | | | |]; try done;
    destruct g as [| | | | | | | |el' k|el' m]; try done; try (by destruct refs).
  - intros _. split; [done|]. by eexists.
  - destruct refs, m; try done. cbn. intros [->%bool_decide_eq_true Hs]%andb_true_iff. split; [done|].
    destruct (bool_decide (el' = "script")); [done|by eexists].
  - intros Hk%bool_decide_eq_true. split; [done|]. destruct k as [|[]| |]; try done; by eexists.
Qed.

(** ** A vetted template *)

Lemma vet_text_spec s x y :
  vet_text s x = Some y → gfeed s x.2 = Some y.2 ∧ ∀ a, (feed s x.1 a).1 = y.1.
Proof.
  revert x. induction s as [|c s IH]; intros x; simpl; [by intros [= <-]|].
  destruct (gstep x.2 c) as [g|]; [|done]. simpl. intros [Hg Hf]%IH. split; [done|]. intros a.
  specialize (Hf (foldl (λ a x, do_act x a) a (bstep x.1 c).2)). simpl in Hf. by destruct (bstep x.1 c).
Qed.

(** Pieces that go from one place to another, in both machines. *)
Definition goes (ps : list piece) (x y : both) : Prop :=
  ∃ h, escape_pieces ps x.2 = Some (h, y.2) ∧
    ∀ a, ∃ a', feed h x.1 a = (y.1, a') ∧ place hole_value ps x a = (y, a').

Lemma goes_nil x : goes [] x x.
Proof. exists "". split; [done|]. intros a. exists a. by destruct x. Qed.

Lemma escape_app ps qs g :
  escape_pieces (ps ++ qs) g =
  '(h, g) ← escape_pieces ps g; '(h', g) ← escape_pieces qs g; Some (h +:+ h', g).
Proof.
  revert g. induction ps as [|[s|s] ps IH]; intros g; simpl.
  - by destruct (escape_pieces qs g) as [[h g']|].
  - destruct (gfeed s g) as [g1|]; [|done]. simpl. rewrite IH.
    destruct (escape_pieces ps g1) as [[h g2]|]; [|done]. simpl.
    destruct (escape_pieces qs g2) as [[h' g3]|]; [|done]. simpl. by rewrite str_app_assoc.
  - destruct (escaper g) as [f|]; [|done]. simpl. rewrite IH.
    destruct (escape_pieces ps g) as [[h g2]|]; [|done]. simpl.
    destruct (escape_pieces qs g2) as [[h' g3]|]; [|done]. simpl. by rewrite str_app_assoc.
Qed.

Lemma place_app f ps qs x a : place f (ps ++ qs) x a = let '(x, a) := place f ps x a in place f qs x a.
Proof.
  revert x a. induction ps as [|[s|s] ps IH]; intros x a; simpl; [done| |done].
  by destruct (feed s x.1 a).
Qed.

Lemma goes_app ps qs x y z : goes ps x y → goes qs y z → goes (ps ++ qs) x z.
Proof.
  intros (h & Eh & Hh) (h' & Eh' & Hh'). exists (h +:+ h'). split.
  - rewrite escape_app, Eh. simpl. by rewrite Eh'.
  - intros a. destruct (Hh a) as (a1 & F1 & P1). destruct (Hh' a1) as (a2 & F2 & P2).
    exists a2. rewrite feed_app, F1, place_app, P1. done.
Qed.

Lemma goes_text s x y : vet_text s x = Some y → goes [Static s] x y.
Proof.
  intros [Hg Hf]%vet_text_spec. exists (s +:+ ""). split; [simpl; by rewrite Hg|].
  intros a. specialize (Hf a). rewrite str_app_nil_r. simpl. destruct (feed s x.1 a) as [st a'].
  simpl in Hf. subst st. exists a'. split; [done|]. rewrite Hg. by destruct y.
Qed.

Lemma goes_hole s x : hole_ok x = true → goes [Hole s] x x.
Proof.
  intros Hx. destruct (hole_ok_open _ Hx) as [Hst [g Hg]].
  exists (html_escape (g s) +:+ ""). split.
  - simpl. unfold escaper. rewrite Hg. done.
  - intros a. eexists. rewrite str_app_nil_r, feed_html_escape by done. split; [done|].
    simpl. unfold hole_value. rewrite Hg. done.
Qed.

Section Sound.
Context (funcs : string → list value → result value).
Context (call : string → value → result (list piece)) (vcall : string → both → option both).
Context (call_goes : ∀ name v x y ps, vcall name x = Some y → call name v = Ok ps → goes ps x y).

Definition node_goes (n : node) : Prop := ∀ e x y ps,
  vet_node vcall n x = Some y → exec_node funcs call n e = Ok ps → goes ps x y.

Lemma nodes_go ns e x y ps :
  Forall node_goes ns → in_turn (List.map (vet_node vcall) ns) x = Some y →
  all_of (List.map (exec_node funcs call) ns) e = Ok ps → goes ps x y.
Proof using Type.
  intros Hns. revert x ps. induction Hns as [|n ns Hn Hns IH]; intros x ps; simpl.
  - intros [= ->] [= <-]. apply goes_nil.
  - intros (z & Hz & Hy)%bind_Some (a & Ea & (b & Eb & [= <-])%rbind_Ok)%rbind_Ok.
    eapply goes_app; [by eapply Hn|by eapply IH].
Qed.

Lemma each_goes d w items e x ps :
  (∀ e ps, w e = Ok ps → goes ps x x) → each d w items e = Ok ps → goes ps x x.
Proof using Type.
  intros Hw. revert ps. induction items as [|item items IH]; intros ps; simpl.
  - intros [= <-]. apply goes_nil.
  - intros (a & Ea & (b & Eb & [= <-])%rbind_Ok)%rbind_Ok. eapply goes_app; [by eapply Hw|by apply IH].
Qed.

Lemma node_vetted n : node_goes n.
Proof using call_goes.
  induction n as [s|p|name a|p thn els IHthn IHels|d p body els IHbody IHels] using node_nested_ind;
    intros e x y ps; simpl.
  - intros Hx [= <-]. by apply goes_text.
  - destruct (hole_ok x) eqn:Hx; [|done]. intros [= <-] (v & _ & (s & _ & [= <-])%rbind_Ok)%rbind_Ok.
    by apply goes_hole.
  - intros Hx (v & _ & Hc)%rbind_Ok. by eapply call_goes.
  - intros (y1 & Hy1 & (y2 & Hy2 & Hy)%bind_Some)%bind_Some (v & _ & Hps)%rbind_Ok.
    case_bool_decide as E; [|done]. injection Hy as <-. subst y2.
    destruct (truth v); [by apply (nodes_go thn e)|by apply (nodes_go els e)].
  - intros (y1 & Hy1 & (y2 & Hy2 & Hy)%bind_Some)%bind_Some
      (v & _ & (items & _ & Hps)%rbind_Ok)%rbind_Ok.
    destruct (bool_decide (y1 = x)) eqn:E1; [|done]. destruct (bool_decide (y2 = x)) eqn:E2; [|done].
    apply bool_decide_eq_true in E1 as ->. apply bool_decide_eq_true in E2 as ->. injection Hy as <-.
    destruct items as [|item items]; [by apply (nodes_go els e)|].
    eapply each_goes; [|exact Hps]. intros e' ps' Hps'. by apply (nodes_go body e').
Qed.
End Sound.

Lemma exec_goes funcs t depth depth' name v x y ps :
  vet depth t name x = Some y → exec funcs depth' t name v = Ok ps → goes ps x y.
Proof.
  revert depth' name v x y ps. induction depth as [|depth IH]; intros [|depth'] name v x y ps; try done.
  simpl. destruct (Lookup t name) as [nodes|]; [|done]. simpl. intros Hv He.
  eapply nodes_go; [|done|done]. apply Forall_forall. intros n _. eapply node_vetted.
  intros. by eapply IH.
Qed.

(** The browser reads the escaped page as the template's markup with the data in
    place. *)
Lemma vetted_page funcs depth t name v ps :
  vetted depth t name = true → exec funcs maxExecDepth t name v = Ok ps →
  ∃ h, html_of ps = Ok h ∧ tokenize h = tokens_of ps ∧ is_Some (tokens_of ps).
Proof.
  intros Hv%bool_decide_eq_true Hps. destruct (exec_goes _ _ _ _ _ _ _ _ _ Hv Hps) as (h & Eh & Hh).
  exists h. unfold html_of. simpl in Eh. rewrite Eh. split; [done|].
  destruct (Hh start_acc) as (a' & F & P). simpl in F. unfold tokenize, tokens_of, tokens_with. rewrite F, P. simpl.
  split; [done|by eexists].
Qed.

(** ** The tags do not depend on the data *)

(** The tags of a page, with the names of their attributes. *)
Definition shape (l : list token) : list (bool * string * list string) :=
  omap (λ t, match t with Tag close name ats => Some (close, name, ats.*1) | Text _ => None end) l.

Definition blank (p : piece) : piece := match p with Static s => Static s | Hole _ => Hole "" end.

Definition alike (a b : acc) : Prop := shape (out a) = shape (out b) ∧ (attrs a).*1 = (attrs b).*1.

Lemma do_act_alike x a b : alike a b → alike (do_act x a) (do_act x b).
Proof.
  intros [Ho Ha]. destruct x; split; simpl; try done; [by rewrite !fmap_app, Ha|].
  unfold shape in *. simpl. by rewrite Ho, Ha.
Qed.

Lemma put_alike st s s' a b : alike a b → alike (put st s a) (put st s' b).
Proof. by destruct st. Qed.

Lemma feed_alike s st a b :
  alike a b → (feed s st a).1 = (feed s st b).1 ∧ alike (feed s st a).2 (feed s st b).2.
Proof.
  revert st a b. induction s as [|c s IH]; intros st a b Hab; [done|]. simpl.
  destruct (bstep st c) as [st' xs]. apply IH. revert a b Hab.
  induction xs as [|x xs IHxs]; intros a b Hab; [done|]. by apply IHxs, do_act_alike.
Qed.

Lemma place_alike f ps x a b :
  alike a b → (place f ps x a).1 = (place f (blank <$> ps) x b).1 ∧
  alike (place f ps x a).2 (place f (blank <$> ps) x b).2.
Proof.
  revert x a b. induction ps as [|[s|s] ps IH]; intros x a b Hab; [done| |]; simpl.
  - destruct (feed_alike s x.1 a b Hab) as [Hst Hab']. destruct (feed s x.1 a) as [st a'], (feed s x.1 b) as [st' b'].
    simpl in *. subst st'. by apply IH.
  - by apply IH, put_alike.
Qed.

Lemma shape_reverse l : shape (reverse l) = reverse (shape l).
Proof.
  unfold shape. induction l as [|t l IH]; [done|]. rewrite reverse_cons, omap_app, IH. simpl.
  destruct t; simpl; [by rewrite reverse_cons|by rewrite app_nil_r].
Qed.

Lemma tokens_blank ps l :
  tokens_of ps = Some l → ∃ l', tokens_of (blank <$> ps) = Some l' ∧ shape l = shape l'.
Proof.
  unfold tokens_of, tokens_with.
  destruct (place_alike hole_value ps (Data, CText) start_acc start_acc) as [Hx [Ho _]]; [done|].
  destruct (place _ ps _ _) as [x a], (place _ (blank <$> ps) _ _) as [x' a']. simpl in *. subst x'.
  unfold finish. destruct x.1; try done. intros [= <-]. eexists. split; [done|].
  rewrite !shape_reverse. simpl. unfold shape in *. simpl. by rewrite Ho.
Qed.
