(* ===== verification/PortalTemplates.v ===== *)
(** * PortalTemplates: the portal's pages as templates

    The template texts of [internal/server/portal/portal.go], as they are there but
    for the double quote, which is written as a backquote (no template has one), and
    [parsePages], which reads them into a set for each page. *)

From S2P Require Import Prelude GoText GoTime GoTemplate GoHtml Portal.

(** ** The texts *)

Definition baseTemplate : string :=
  "{{define `base`}}<!DOCTYPE html>
<html lang=`en`>
<head>
<meta charset=`utf-8`>
<meta name=`viewport` content=`width=device-width, initial-scale=1`>
<title>{{template `title` .}} · certd</title>
<script>try{const t=localStorage.getItem(`tokyo3-theme`);document.documentElement.dataset.theme=t===`light`||t===`dark`?t:`dark`}catch(_){document.documentElement.dataset.theme=`dark`}</script>
<link rel=`stylesheet` href=`{{url `/static/app.css`}}`>
</head>
<body>
<div class=`portal-layout`>
<aside class=`sidebar` aria-label=`Portal navigation`>
  <a class=`sidebar-brand` href=`{{url `/`}}`>
    <svg viewBox=`0 0 24 24` aria-hidden=`true` xmlns=`http://www.w3.org/2000/svg`><path d=`M12 2 4 5v6c0 5.1 3.4 9.4 8 11 4.6-1.6 8-5.9 8-11V5l-8-3zm-1.2 13.6-3-3 1.4-1.4 1.6 1.6 4-4 1.4 1.4-5.4 5.4z`/></svg>
    <span>certd admin portal</span>
  </a>
  <nav aria-label=`Primary`>
    <div class=`nav-section`>
      {{if eq .ActivePage `home`}}<a href=`{{url `/`}}` class=`active` aria-current=`page`>Overview</a>{{else}}<a href=`{{url `/`}}`>Overview</a>{{end}}
    </div>
    {{range .Nav}}
    <div class=`nav-section`>
      <div class=`nav-section-label`>{{.Label}}</div>
      {{range .Items}}
      {{if ne .Status `ready`}}<span class=`nav-planned`>{{.Name}} <span class=`badge badge-neutral`>planned</span></span>{{else if eq $.ActivePage .Key}}<a href=`{{url .Path}}` class=`active` aria-current=`page`>{{.Name}}</a>{{else}}<a href=`{{url .Path}}`>{{.Name}}</a>{{end}}
      {{end}}
    </div>
    {{end}}
  </nav>
  <div class=`sidebar-footer`>
    <div class=`sidebar-user-row`>
      {{if .UserEmail}}<div class=`sidebar-user` title=`{{.UserEmail}}`>{{.UserEmail}}</div>{{end}}
      <button type=`button` class=`theme-toggle` data-theme-toggle aria-pressed=`false` aria-label=`Switch to light mode` title=`Switch to light mode`>
        <svg class=`theme-icon-sun` viewBox=`0 0 24 24` aria-hidden=`true`><circle cx=`12` cy=`12` r=`4`/><path d=`M12 2v2m0 16v2M4.93 4.93l1.41 1.41m11.32 11.32 1.41 1.41M2 12h2m16 0h2M4.93 19.07l1.41-1.41M17.66 6.34l1.41-1.41` fill=`none` stroke=`currentColor` stroke-width=`2` stroke-linecap=`round`/></svg>
        <svg class=`theme-icon-moon` viewBox=`0 0 24 24` aria-hidden=`true`><path d=`M20.5 15.5A8.5 8.5 0 0 1 8.5 3.5 8.5 8.5 0 1 0 20.5 15.5Z`/></svg>
      </button>
    </div>
    {{if .SignOut}}
    <div class=`sidebar-footer-actions`>
      <form method=`POST` action=`{{url `/auth/logout`}}`>
        <button type=`submit` class=`btn-link`>Sign out</button>
      </form>
    </div>
    {{end}}
  </div>
</aside>
<div class=`portal-main`>
  <header class=`portal-topbar`>
    <div class=`portal-heading`>
      <h1>{{template `pagetitle` .}}</h1>
    </div>
  </header>
  <main class=`portal-content`>{{template `body` .}}</main>
</div>
</div>
<script>
(() => {
  const root = document.documentElement;
  const button = document.querySelector(`[data-theme-toggle]`);
  if (!button) return;
  const update = () => {
    const dark = (root.dataset.theme || `dark`) === `dark`;
    button.setAttribute(`aria-pressed`, String(dark));
    const label = dark ? `Switch to light mode` : `Switch to dark mode`;
    button.setAttribute(`aria-label`, label);
    button.title = label;
  };
  button.addEventListener(`click`, () => {
    const next = (root.dataset.theme || `dark`) === `dark` ? `light` : `dark`;
    root.dataset.theme = next;
    try { localStorage.setItem(`tokyo3-theme`, next); } catch (_) {}
    update();
  });
  update();
})();
</script>
</body>
</html>{{end}}".

Definition signedOutTemplate : string :=
  "{{define `page`}}<!DOCTYPE html>
<html lang=`en`>
<head>
<meta charset=`utf-8`>
<meta name=`viewport` content=`width=device-width, initial-scale=1`>
<title>{{template `title` .}} · certd</title>
<script>try{const t=localStorage.getItem(`tokyo3-theme`);document.documentElement.dataset.theme=t===`light`||t===`dark`?t:`dark`}catch(_){document.documentElement.dataset.theme=`dark`}</script>
<link rel=`stylesheet` href=`{{url `/static/app.css`}}`>
</head>
<body>
<main class=`signed-out`>
  <div class=`card`>
    <div class=`card-body`>
      <h1 class=`signed-out-title`>Signed out</h1>
      <p class=`text-muted`>Your certd portal session has ended. Your identity
      provider may still hold its own session, so signing in again might not
      prompt for credentials.</p>
      <a class=`btn btn-primary` href=`{{url `/`}}`>Sign in to certd</a>
    </div>
  </div>
</main>
</body>
</html>{{end}}
{{define `title`}}signed out{{end}}
{{define `pagetitle`}}Signed out{{end}}
{{define `body`}}{{end}}".

Definition indexTemplate : string :=
  "{{define `page`}}{{template `base` .}}{{end}}
{{define `title`}}home{{end}}
{{define `pagetitle`}}Overview{{end}}
{{define `body`}}
<p class=`section-description`>The certd admin portal exposes the platform's
identity-and-access state. Pages flip to ready as their data sources are
wired; planned pages stay non-interactive.</p>
<div class=`resource-panel table-wrap`>
<table>
<thead><tr><th>Page</th><th>Description</th><th>Status</th></tr></thead>
<tbody>
{{range .Pages}}
<tr>
  <td class=`resource-name`>{{if eq .Status `ready`}}<a href=`{{url .Path}}`>{{.Name}}</a>{{else}}{{.Name}}{{end}}</td>
  <td class=`text-muted`>{{.Description}}</td>
  <td>{{if eq .Status `ready`}}<span class=`badge badge-success`>ready</span>{{else}}<span class=`badge badge-neutral`>planned</span>{{end}}</td>
</tr>
{{end}}
</tbody>
</table>
</div>
{{end}}".

Definition rolesTemplate : string :=
  "{{define `page`}}{{template `base` .}}{{end}}
{{define `title`}}roles{{end}}
{{define `pagetitle`}}Roles{{end}}
{{define `body`}}
<p class=`section-description`>Every configured role. Click a name for principals, host patterns,
and TTL caps. The role table is in-memory — restarting certd resets
it unless backed by a JSON file via <code>CERTD_ROLES_FILE</code>.</p>
<div class=`quick-actions`><a class=`btn btn-primary` href=`{{url `/roles/new`}}`>Create role</a></div>
{{if .Roles}}
<div class=`resource-panel table-wrap`>
<table>
<thead>
<tr>
  <th>Name</th>
  <th>Group claim</th>
  <th>Principals</th>
  <th>Host patterns</th>
</tr>
</thead>
<tbody>
{{range .Roles}}
<tr>
  <td class=`resource-name`><a href=`{{url `/roles`}}/{{.Name}}`>{{.Name}}</a></td>
  <td><code>{{.GroupClaim}}</code></td>
  <td>{{if .AllowedPrincipals}}{{range $i, $p := .AllowedPrincipals}}{{if $i}}, {{end}}<code>{{$p}}</code>{{end}}{{else}}<em>none</em>{{end}}</td>
  <td>{{if .HostPatterns}}{{range $i, $p := .HostPatterns}}{{if $i}}, {{end}}<code>{{$p}}</code>{{end}}{{else}}<em>none</em>{{end}}</td>
</tr>
{{end}}
</tbody>
</table>
</div>
{{else}}
<div class=`resource-panel empty-state`><em>No roles configured.</em></div>
{{end}}
{{end}}".

Definition roleDetailTemplate : string :=
  "{{define `page`}}{{template `base` .}}{{end}}
{{define `title`}}role · {{.Name}}{{end}}
{{define `pagetitle`}}{{if .Found}}Role: {{.Role.Name}}{{else}}Not found{{end}}{{end}}
{{define `body`}}
<p class=`text-muted`><a href=`{{url `/roles`}}`>&larr; All roles</a></p>
{{if not .Found}}
<p>No role named <code>{{.Name}}</code> is configured.</p>
{{else}}
<div class=`page-stack`>
<div class=`quick-actions`><a class=`btn btn-secondary` href=`{{url `/roles`}}/{{.Role.Name}}/edit`>Edit role</a></div>
<div class=`card`>
<div class=`card-body`>
<table class=`summary-list`>
<tbody>
<tr><th>Group claim</th><td><code>{{.Role.GroupClaim}}</code></td></tr>
<tr><th>Allowed principals</th><td>
{{if .Role.AllowedPrincipals}}{{range $i, $p := .Role.AllowedPrincipals}}{{if $i}}, {{end}}<code>{{$p}}</code>{{end}}{{else}}<em>none</em>{{end}}
</td></tr>
<tr><th>Host patterns</th><td>
{{if .Role.HostPatterns}}{{range $i, $p := .Role.HostPatterns}}{{if $i}}, {{end}}<code>{{$p}}</code>{{end}}{{else}}<em>none</em>{{end}}
</td></tr>
<tr><th>SPIFFE patterns</th><td>
{{if .Role.SPIFFEPatterns}}{{range $i, $p := .Role.SPIFFEPatterns}}{{if $i}}, {{end}}<code>{{$p}}</code>{{end}}{{else}}<em>none</em>{{end}}
</td></tr>
<tr><th>Max user-cert TTL</th><td>{{fmtSeconds .Role.MaxUserCertTTLSeconds}}</td></tr>
<tr><th>Max host-cert TTL</th><td>{{fmtSeconds .Role.MaxHostCertTTLSeconds}}</td></tr>
<tr><th>Max X.509-cert TTL</th><td>{{fmtSeconds .Role.MaxX509CertTTLSeconds}}</td></tr>
<tr><th>Default extensions</th><td>
{{if .Role.DefaultExtensions}}{{range $k, $v := .Role.DefaultExtensions}}<code>{{$k}}{{if $v}}={{$v}}{{end}}</code><br>{{end}}{{else}}<em>none</em>{{end}}
</td></tr>
</tbody>
</table>
</div>
</div>
<div class=`card danger-zone`>
  <div class=`card-header`><h2>Danger zone</h2></div>
  <div class=`card-body`>
    <p class=`text-muted`>Deleting role <code>{{.Role.Name}}</code> immediately removes the signing
    permissions it grants. This cannot be undone.</p>
    <form class=`form-actions` method=`post` action=`{{url `/roles`}}/{{.Role.Name}}/delete` onsubmit=`return confirm('Delete role {{.Role.Name}}?');`>
      <input type=`hidden` name=`csrf_token` value=`{{.CSRFToken}}`>
      <button type=`submit` class=`btn btn-danger`>Delete role {{.Role.Name}}</button>
    </form>
  </div>
</div>
</div>
{{end}}
{{end}}".

Definition roleFormTemplate : string :=
  "{{define `page`}}{{template `base` .}}{{end}}
{{define `title`}}{{if eq .Mode `create`}}new role{{else}}edit · {{.OriginalName}}{{end}}{{end}}
{{define `pagetitle`}}{{if eq .Mode `create`}}New role{{else}}Edit role: {{.OriginalName}}{{end}}{{end}}
{{define `body`}}
<p class=`text-muted`><a href=`{{url `/roles`}}`>&larr; All roles</a></p>
{{if .Error}}<div class=`alert alert-error`>{{.Error}}</div>{{end}}
<form class=`form-width` method=`post` action=`{{url .FormAction}}`>
  <input type=`hidden` name=`csrf_token` value=`{{.CSRFToken}}`>
  <div class=`form-group`>
    <label for=`role-name`>Name</label>
    <input type=`text` id=`role-name` name=`name` value=`{{.Form.Name}}` required autocomplete=`off`>
  </div>
  <div class=`form-group`>
    <label for=`role-group-claim`>Group claim</label>
    <input type=`text` id=`role-group-claim` name=`group_claim` value=`{{.Form.GroupClaim}}` required autocomplete=`off`>
  </div>
  <div class=`form-group`>
    <label for=`role-principals`>Allowed principals</label>
    <textarea id=`role-principals` name=`allowed_principals` rows=`4`>{{.Form.AllowedPrincipals}}</textarea>
    <p class=`field-help`>One principal per line.</p>
  </div>
  <div class=`form-group`>
    <label for=`role-host-patterns`>Host patterns</label>
    <textarea id=`role-host-patterns` name=`host_patterns` rows=`4`>{{.Form.HostPatterns}}</textarea>
    <p class=`field-help`>One pattern per line.</p>
  </div>
  <div class=`form-group`>
    <label for=`role-spiffe-patterns`>SPIFFE patterns</label>
    <textarea id=`role-spiffe-patterns` name=`spiffe_patterns` rows=`4`>{{.Form.SPIFFEPatterns}}</textarea>
    <p class=`field-help`>One pattern per line.</p>
  </div>
  <div class=`form-group`>
    <label for=`role-user-ttl`>Max user-cert TTL</label>
    <input type=`text` id=`role-user-ttl` name=`max_user_cert_ttl_seconds` value=`{{.Form.MaxUserCertTTLSeconds}}` autocomplete=`off`>
    <p class=`field-help`>Seconds, e.g. <code>14400</code>; blank = role default.</p>
  </div>
  <div class=`form-group`>
    <label for=`role-host-ttl`>Max host-cert TTL</label>
    <input type=`text` id=`role-host-ttl` name=`max_host_cert_ttl_seconds` value=`{{.Form.MaxHostCertTTLSeconds}}` autocomplete=`off`>
    <p class=`field-help`>Seconds; blank = role default.</p>
  </div>
  <div class=`form-group`>
    <label for=`role-x509-ttl`>Max X.509-cert TTL</label>
    <input type=`text` id=`role-x509-ttl` name=`max_x509_cert_ttl_seconds` value=`{{.Form.MaxX509CertTTLSeconds}}` autocomplete=`off`>
    <p class=`field-help`>Seconds, e.g. <code>86400</code>; blank = role default.</p>
  </div>
  <div class=`form-group`>
    <label for=`role-extensions`>Default extensions</label>
    <textarea id=`role-extensions` name=`default_extensions` rows=`4`>{{.Form.DefaultExtensions}}</textarea>
    <p class=`field-help`>One <code>key=value</code> per line; bare keys allowed.</p>
  </div>
  <div class=`form-actions`>
    <button type=`submit` class=`btn btn-primary`>{{.Submit}}</button>
    <a class=`btn btn-secondary` href=`{{url `/roles`}}`>Cancel</a>
  </div>
</form>
{{end}}".

Definition hostsTemplate : string :=
  "{{define `page`}}{{template `base` .}}{{end}}
{{define `title`}}hosts{{end}}
{{define `pagetitle`}}Hosts{{end}}
{{define `body`}}
<p class=`section-description`>Workload mTLS principals registered with certd. Each entry maps a
TLS SAN (SPIFFE URI or email) to a workload identity + the group
claims it inherits. Authentication-time lookups consult this set on
every signing request that traverses the mTLS path.</p>
{{if .Hosts}}
<div class=`resource-panel table-wrap`>
<table>
<thead>
<tr>
  <th>SAN</th>
  <th>Name</th>
  <th>Groups</th>
</tr>
</thead>
<tbody>
{{range .Hosts}}
<tr>
  <td><code>{{.MatchedSAN}}</code></td>
  <td class=`resource-name`>{{.Name}}</td>
  <td>{{if .Groups}}{{range $i, $g := .Groups}}{{if $i}}, {{end}}<code>{{$g}}</code>{{end}}{{else}}<em>none</em>{{end}}</td>
</tr>
{{end}}
</tbody>
</table>
</div>
{{else}}
<div class=`resource-panel empty-state`><em>No hosts registered.</em></div>
{{end}}
{{end}}".

Definition auditTemplate : string :=
  "{{define `page`}}{{template `base` .}}{{end}}
{{define `title`}}audit{{end}}
{{define `pagetitle`}}Audit{{end}}
{{define `body`}}
<p class=`section-description`>Live tail of certd's own audit stream — cert issuance, denial, and
revocation events. Newest first. The buffer caps at the tracker's
MaxEvents (default 500); to dig deeper, query JetStream directly.
(SSH session/access events live in ssh-proxyd's own portal.)</p>
{{if .Events}}
<div class=`resource-panel table-wrap`>
<table>
<thead>
<tr>
  <th>Time</th>
  <th>Action</th>
  <th>Actor</th>
  <th>Subject</th>
  <th>IP</th>
  <th>Detail</th>
</tr>
</thead>
<tbody>
{{range .Events}}
<tr>
  <td class=`nowrap`>{{fmtTime .OccurredAt}}</td>
  <td><code>{{.Action}}</code></td>
  <td>{{if .Actor}}<code>{{.Actor}}</code>{{else}}<em>-</em>{{end}}</td>
  <td>{{if .Subject}}<code>{{.Subject}}</code>{{else}}<em>-</em>{{end}}</td>
  <td>{{if .IP}}<code>{{.IP}}</code>{{else}}<em>-</em>{{end}}</td>
  <td>{{if .Detail}}<pre class=`audit-detail`>{{.Detail}}</pre>{{else}}<em>-</em>{{end}}</td>
</tr>
{{end}}
</tbody>
</table>
</div>
{{else}}
<div class=`resource-panel empty-state`><em>No audit events yet. Events appear here once certd starts emitting.</em></div>
{{end}}
{{end}}".

Definition revocationsTemplate : string :=
  "{{define `page`}}{{template `base` .}}{{end}}
{{define `title`}}revocations{{end}}
{{define `pagetitle`}}Revocations{{end}}
{{define `body`}}
<p class=`section-description`>Revoked SSH certs. ssh-proxyd polls this set every
<code>CERTD_REVOCATIONS_POLL_SECONDS</code> (default 30s) and refuses
any matching cert at handshake. Either Serial or Key ID is enough;
provide both when you have them so the revocation matches regardless
of which field a consumer keys on.</p>

<h2 class=`section-heading`>Revoke a cert</h2>
<p class=`section-description`>Revocation takes effect at the next ssh-proxyd poll and cannot be undone from this portal.</p>
{{if .Error}}<div class=`alert alert-error`>{{.Error}}</div>{{end}}
<form method=`post` action=`{{url `/revocations`}}`>
<div class=`form-width`>
  <input type=`hidden` name=`csrf_token` value=`{{.CSRFToken}}`>
  <div class=`form-group`>
    <label for=`revoke-serial`>Serial</label>
    <input type=`text` id=`revoke-serial` name=`serial` value=`{{.FormSerial}}` autocomplete=`off`>
    <p class=`field-help`>Decimal; leave blank if revoking by Key ID only.</p>
  </div>
  <div class=`form-group`>
    <label for=`revoke-key-id`>Key ID</label>
    <input type=`text` id=`revoke-key-id` name=`key_id` value=`{{.FormKeyID}}` autocomplete=`off`>
    <p class=`field-help`>E.g. <code>user:alice@example.com</code>; blank if revoking by serial.</p>
  </div>
  <div class=`form-group`>
    <label for=`revoke-reason`>Reason</label>
    <input type=`text` id=`revoke-reason` name=`reason` value=`{{.FormReason}}` autocomplete=`off`>
    <p class=`field-help`>Audit annotation.</p>
  </div>
  <div class=`form-actions`><button type=`submit` class=`btn btn-danger`>Revoke certificate</button></div>
</div>
</form>

<h2 class=`section-heading`>Current revocations ({{len .Entries}})</h2>
{{if .Entries}}
<div class=`resource-panel table-wrap`>
<table>
<thead>
<tr>
  <th>Revoked at</th>
  <th>Serial</th>
  <th>Key ID</th>
  <th>Reason</th>
  <th>Revoker</th>
</tr>
</thead>
<tbody>
{{range .Entries}}
<tr>
  <td>{{fmtTime .Revoked}}</td>
  <td>{{if .Serial}}<code>{{.Serial}}</code>{{else}}<em>-</em>{{end}}</td>
  <td>{{if .KeyID}}<code>{{.KeyID}}</code>{{else}}<em>-</em>{{end}}</td>
  <td>{{if .Reason}}{{.Reason}}{{else}}<em>-</em>{{end}}</td>
  <td>{{if .Revoker}}<code>{{.Revoker}}</code>{{else}}<em>-</em>{{end}}</td>
</tr>
{{end}}
</tbody>
</table>
</div>
{{else}}
<div class=`resource-panel empty-state`><em>No revocations recorded.</em></div>
{{end}}
{{end}}".

(** ** The sets *)

(** A text with its quotes back. *)
Definition quoted : string → string := replace_byte "096" "034".

(** The functions of [parsePages]. *)
Definition fmtSeconds (s : Z) : string :=
  if s =? 0 then "(role default)" else duration_string (seconds_to_duration s).

Definition portal_funcs (f : string) (args : list value) : result value :=
  match args with
  | [VStr p] => if bool_decide (f = "url") then Ok (VStr (basePath +:+ p)) else Err (ErrOpaque "call")
  | [VTime t] => if bool_decide (f = "fmtTime") then Ok (VStr (format_rfc3339 t)) else Err (ErrOpaque "call")
  | [VInt s] => if bool_decide (f = "fmtSeconds") then Ok (VStr (fmtSeconds s)) else Err (ErrOpaque "call")
  | _ => Err (ErrOpaque "call")
  end.

Definition page_texts : list (string * string) :=
  [ ("index", indexTemplate); ("roles", rolesTemplate); ("role_detail", roleDetailTemplate);
    ("role_form", roleFormTemplate); ("hosts", hostsTemplate); ("audit", auditTemplate);
    ("revocations", revocationsTemplate); ("signed_out", signedOutTemplate) ].

Definition required : list string := ["page"; "title"; "pagetitle"; "body"].

Definition missing (t : templates) (name : string) : bool :=
  match Lookup t name with None => true | Some _ => false end.

(** The set of one page: the shared layout, then the page's own definitions. *)
Definition parse_page (name body : string) : result templates :=
  t <-r rwrap (name +:+ " base: ") (Parse [] (quoted baseTemplate));;
  t <-r rwrap (name +:+ " page: ") (Parse t (quoted body));;
  reject existsb (missing t) required
    with ErrNew (name +:+ " missing required define{}: page/title/pagetitle/body");;
  Ok t.

Fixpoint parse_all (pages : list (string * string)) : result (list (string * templates)) :=
  match pages with
  | [] => Ok []
  | (name, body) :: pages =>
      t <-r parse_page name body;; out <-r parse_all pages;; Ok ((name, t) :: out)
  end.

Definition parsePages : result (list (string * templates)) := parse_all page_texts.

(** What [parsePages] gives ([pages_parsed]). *)
Definition pages : list (string * templates) :=
  Eval vm_compute in match parsePages with Ok p => p | Err _ => [] end.

Lemma pages_parsed : parsePages = Ok pages.
Proof. vm_compute. reflexivity. Qed.
