(* ===== verification/PortalPages.v ===== *)
(** * PortalPages: the pages as the browser gets them

    Models [render] of [internal/server/portal/portal.go] down to the bytes: the data
    each handler passes to its template ([page_data]), executed and escaped as
    [GoTemplate] and [GoHtml] say.  Two groups of theorems: every page renders, and
    nothing in its data becomes markup ([page_renders]); the edit page, read by a
    browser and sent back untouched, saves the role it showed
    ([edit_page_roundtrip]). *)

From S2P Require Import Prelude GoText GoTime Policy Krl Mtls Http Api PortalForm GoTemplate GoHtml Portal PortalTemplates.

(** ** The data of the templates *)

Definition strings (l : list string) : value := VList (VStr <$> l).

Definition entry_value (e : pageEntry) : value :=
  VStruct [("Name", VStr (PageName e)); ("Path", VStr (PagePath e)); ("Key", VStr (PageKey e));
           ("Description", VStr (Description e)); ("Status", VStr (PageStatus e))].

Definition section_value (s : string * list pageEntry) : value :=
  VStruct [("Label", VStr s.1); ("Items", VList (entry_value <$> s.2))].

Definition base_fields (b : baseData) : list (string * value) :=
  [("ActivePage", VStr (ActivePage b)); ("UserEmail", VStr (UserEmail b)); ("SignOut", VBool (SignOut b));
   ("Nav", VList (section_value <$> Nav b))].

(** A map is ranged over in the order of its keys. *)
Definition map_value (m : gmap string string) : value :=
  VMap ((λ k, (k, default "" (m !! k))) <$> sort_strings (map_to_list m).*1).

Definition role_value (r : Role) : value :=
  VStruct [("Name", VStr (Policy.Name r)); ("GroupClaim", VStr (GroupClaim r));
           ("AllowedPrincipals", strings (AllowedPrincipals r)); ("HostPatterns", strings (HostPatterns r));
           ("SPIFFEPatterns", strings (SPIFFEPatterns r));
           ("MaxUserCertTTLSeconds", VInt (MaxUserCertTTLSeconds r));
           ("MaxHostCertTTLSeconds", VInt (MaxHostCertTTLSeconds r));
           ("MaxX509CertTTLSeconds", VInt (MaxX509CertTTLSeconds r));
           ("DefaultExtensions", map_value (DefaultExtensions r))].

Definition form_value (f : roleFormFields) : value :=
  VStruct [("Name", VStr (FName f)); ("GroupClaim", VStr (FGroupClaim f));
           ("AllowedPrincipals", VStr (FAllowedPrincipals f)); ("HostPatterns", VStr (FHostPatterns f));
           ("SPIFFEPatterns", VStr (FSPIFFEPatterns f));
           ("MaxUserCertTTLSeconds", VStr (FMaxUserCertTTLSeconds f));
           ("MaxHostCertTTLSeconds", VStr (FMaxHostCertTTLSeconds f));
           ("MaxX509CertTTLSeconds", VStr (FMaxX509CertTTLSeconds f));
           ("DefaultExtensions", VStr (FDefaultExtensions f))].

Definition host_value (p : Principal) : value :=
  VStruct [("Name", VStr (PName p)); ("MatchedSAN", VStr (Mtls.MatchedSAN p)); ("Groups", strings (Mtls.Groups p))].

Definition event_value (e : AuditEvent) : value :=
  VStruct [("ID", VStr (EvID e)); ("Action", VStr (EvAction e)); ("OccurredAt", VTime (EvOccurredAt e));
           ("Actor", VStr (EvActor e)); ("Subject", VStr (EvSubject e)); ("IP", VStr (EvIP e));
           ("Detail", VStr (EvDetail e))].

Definition revocation_value (r : Revocation) : value :=
  VStruct [("Serial", VInt (Krl.Serial r)); ("KeyID", VStr (Krl.KeyID r)); ("Reason", VStr (Reason r));
           ("Revoker", VStr (Revoker r)); ("Revoked", VTime (Revoked r))].

(** The models of the pages. *)
Definition indexData (b : baseData) (pages : list pageEntry) : value :=
  VStruct (base_fields b ++ [("Pages", VList (entry_value <$> pages))]).

Definition rolesIndexData (b : baseData) (roles : list Role) : value :=
  VStruct (base_fields b ++ [("Roles", VList (role_value <$> roles))]).

Definition roleDetailData (b : baseData) (name : string) (role : option Role) (token : string) : value :=
  VStruct (base_fields b ++
    [("Name", VStr name); ("Role", role_value (default zeroRole role));
     ("Found", VBool (bool_decide (is_Some role))); ("CSRFToken", VStr token)]).

Definition roleFormData (b : baseData) (mode action submit error token originalName : string)
    (form : roleFormFields) : value :=
  VStruct (base_fields b ++
    [("Mode", VStr mode); ("FormAction", VStr action); ("Submit", VStr submit); ("Error", VStr error);
     ("CSRFToken", VStr token); ("OriginalName", VStr originalName); ("Form", form_value form)]).

Definition hostsIndexData (b : baseData) (hosts : list Principal) : value :=
  VStruct (base_fields b ++ [("Hosts", VList (host_value <$> hosts))]).

Definition auditIndexData (b : baseData) (events : list AuditEvent) : value :=
  VStruct (base_fields b ++ [("Events", VList (event_value <$> events))]).

Definition revocationsIndexData (b : baseData) (entries : list Revocation)
    (error token serial keyID reason : string) : value :=
  VStruct (base_fields b ++
    [("Entries", VList (revocation_value <$> entries)); ("Error", VStr error); ("CSRFToken", VStr token);
     ("FormSerial", VStr serial); ("FormKeyID", VStr keyID); ("FormReason", VStr reason)]).

(** The template of a page and its data; the health text and the style sheet have
    none. *)
Definition page_data (p : page) : option (string * value) :=
  match p with
  | PText _ | PStyle => None
  | PIndex b pages => Some ("index", indexData b pages)
  | PRoles b roles => Some ("roles", rolesIndexData b roles)
  | PRoleDetail b name role token => Some ("role_detail", roleDetailData b name role token)
  | PRoleForm b mode action submit error token originalName form =>
      Some ("role_form", roleFormData b mode action submit error token originalName form)
  | PHosts b hosts => Some ("hosts", hostsIndexData b hosts)
  | PAudit b events => Some ("audit", auditIndexData b events)
  | PRevocations b entries error token serial keyID reason =>
      Some ("revocations", revocationsIndexData b entries error token serial keyID reason)
  | PSignedOut b => Some ("signed_out", VStruct (base_fields b))
  end.

(** [s.render]: what is written for a page, or the error it logs in its place. *)
Definition render_page (name : string) (data : value) : result string :=
  match assoc pages name with
  | None => Err (ErrOpaque "portal render: unknown page")
  | Some t => ExecuteTemplate portal_funcs t "page" data
  end.

Definition page_html (p : page) : result string :=
  match page_data p with
  | None => Err (ErrOpaque "not a template page")
  | Some (name, data) => render_page name data
  end.

(** The texts and values of a page, before they are escaped. *)
Definition page_pieces (p : page) : result (list piece) :=
  match page_data p with
  | None => Err (ErrOpaque "not a template page")
  | Some (name, data) =>
      match assoc pages name with
      | None => Err (ErrOpaque "portal render: unknown page")
      | Some t => exec portal_funcs maxExecDepth t "page" data
      end
  end.

(** ** The types of the data *)

Definition entry_ty : ty :=
  TStruct [("Name", TStr); ("Path", TStr); ("Key", TStr); ("Description", TStr); ("Status", TStr)].
Definition base_ty : list (string * ty) :=
  [("ActivePage", TStr); ("UserEmail", TStr); ("SignOut", TBool);
   ("Nav", TList (TStruct [("Label", TStr); ("Items", TList entry_ty)]))].
Definition role_ty : ty :=
  TStruct [("Name", TStr); ("GroupClaim", TStr); ("AllowedPrincipals", TList TStr); ("HostPatterns", TList TStr);
           ("SPIFFEPatterns", TList TStr); ("MaxUserCertTTLSeconds", TInt); ("MaxHostCertTTLSeconds", TInt);
           ("MaxX509CertTTLSeconds", TInt); ("DefaultExtensions", TMap)].
Definition form_ty : ty :=
  TStruct [("Name", TStr); ("GroupClaim", TStr); ("AllowedPrincipals", TStr); ("HostPatterns", TStr);
           ("SPIFFEPatterns", TStr); ("MaxUserCertTTLSeconds", TStr); ("MaxHostCertTTLSeconds", TStr);
           ("MaxX509CertTTLSeconds", TStr); ("DefaultExtensions", TStr)].
Definition host_ty : ty := TStruct [("Name", TStr); ("MatchedSAN", TStr); ("Groups", TList TStr)].
Definition event_ty : ty :=
  TStruct [("ID", TStr); ("Action", TStr); ("OccurredAt", TTime); ("Actor", TStr); ("Subject", TStr);
           ("IP", TStr); ("Detail", TStr)].
Definition revocation_ty : ty :=
  TStruct [("Serial", TInt); ("KeyID", TStr); ("Reason", TStr); ("Revoker", TStr); ("Revoked", TTime)].

Definition page_types : list (string * ty) :=
  [ ("index", TStruct (base_ty ++ [("Pages", TList entry_ty)]));
    ("roles", TStruct (base_ty ++ [("Roles", TList role_ty)]));
    ("role_detail", TStruct (base_ty ++
      [("Name", TStr); ("Role", role_ty); ("Found", TBool); ("CSRFToken", TStr)]));
    ("role_form", TStruct (base_ty ++
      [("Mode", TStr); ("FormAction", TStr); ("Submit", TStr); ("Error", TStr); ("CSRFToken", TStr);
       ("OriginalName", TStr); ("Form", form_ty)]));
    ("hosts", TStruct (base_ty ++ [("Hosts", TList host_ty)]));
    ("audit", TStruct (base_ty ++ [("Events", TList event_ty)]));
    ("revocations", TStruct (base_ty ++
      [("Entries", TList revocation_ty); ("Error", TStr); ("CSRFToken", TStr); ("FormSerial", TStr);
       ("FormKeyID", TStr); ("FormReason", TStr)]));
    ("signed_out", TStruct base_ty) ].

Definition portal_sig (f : string) (args : list ty) : option ty :=
  match args with
  | [TStr] => if bool_decide (f = "url") then Some TStr else None
  | [TTime] => if bool_decide (f = "fmtTime") then Some TStr else None
  | [TInt] => if bool_decide (f = "fmtSeconds") then Some TStr else None
  | _ => None
  end.

Lemma portal_funcs_typed f ts vs t :
  portal_sig f ts = Some t → Forall2 (λ t v, typed t v = true) ts vs →
  ∃ v, portal_funcs f vs = Ok v ∧ typed t v = true.
Proof.
  intros Ht H. destruct H as [|t1 v1 ts vs H1 H]; [done|]. destruct H as [|t2 v2 ts vs H2 H]; [|by destruct t1].
  destruct t1; try done; destruct v1; try done; simpl in *; case_bool_decide; try done;
    injection Ht as <-; by eexists.
Qed.

Lemma typed_list {A} (t : ty) (f : A → value) l : (∀ x, typed t (f x) = true) → typed (TList t) (VList (f <$> l)) = true.
Proof. intros H. simpl. apply forallb_forall. intros v [x [<- _]]%in_map_iff. apply H. Qed.

Lemma typed_cons f t ts w vs :
  typed t w = true → typed (TStruct ts) (VStruct vs) = true →
  typed (TStruct ((f, t) :: ts)) (VStruct ((f, w) :: vs)) = true.
Proof. intros Hw Hvs. apply typed_struct_cons. by exists w, vs. Qed.

(** A struct whose fields are typed one by one. *)
Ltac typed_struct := repeat first [reflexivity | apply typed_cons].

Lemma strings_typed l : typed (TList TStr) (strings l) = true.
Proof. by apply typed_list. Qed.

Lemma entries_typed l : typed (TList entry_ty) (VList (entry_value <$> l)) = true.
Proof. apply typed_list. intros e. reflexivity. Qed.

Lemma nav_typed l : typed (TList (TStruct [("Label", TStr); ("Items", TList entry_ty)])) (VList (section_value <$> l)) = true.
Proof. apply typed_list. intros s. unfold section_value. typed_struct. apply entries_typed. Qed.

Lemma role_typed r : typed role_ty (role_value r) = true.
Proof. unfold role_ty, role_value. typed_struct; apply strings_typed. Qed.

Lemma host_typed p : typed host_ty (host_value p) = true.
Proof. unfold host_ty, host_value. typed_struct; apply strings_typed. Qed.

Lemma page_data_typed p name v :
  page_data p = Some (name, v) → ∃ T, assoc page_types name = Some T ∧ typed T v = true.
Proof.
  destruct p; intros [= <- <-]; eexists; (split; [reflexivity|]);
    unfold indexData, rolesIndexData, roleDetailData, roleFormData, hostsIndexData, auditIndexData,
      revocationsIndexData, base_fields; cbn [snd base_ty app]; typed_struct;
    try apply nav_typed; try apply entries_typed; try apply role_typed; apply typed_list; try done.
  - apply role_typed.
  - apply host_typed.
Qed.

(** What [parsePages] is trusted with: each set type-checks against its page's data
    and is vetted. *)
Lemma pages_checked name T :
  assoc page_types name = Some T →
  ∃ t, assoc pages name = Some t ∧ check portal_sig 4 t "page" T = true ∧ vetted 4 t "page" = true.
Proof.
  unfold assoc at 1. intros E. apply fmap_Some in E as ([n T'] & E & ->). simpl.
  apply List.find_some in E as [Hin Hn%bool_decide_eq_true]. simpl in Hn. subst n.
  repeat (destruct Hin as [[= <- <-]|Hin]; [eexists; split; [reflexivity|]; split; vm_compute; reflexivity|]).
  destruct Hin.
Qed.

Lemma page_runs p name v :
  page_data p = Some (name, v) →
  ∃ ps h, page_pieces p = Ok ps ∧ page_html p = Ok h ∧ tokenize h = tokens_of ps ∧ is_Some (tokens_of ps).
Proof.
  intros Hp. destruct (page_data_typed _ _ _ Hp) as (T & HT & Hv).
  destruct (pages_checked _ _ HT) as (t & Ht & Hc & Hvet).
  destruct (check_runs portal_funcs portal_sig portal_funcs_typed 4 maxExecDepth t "page" T v Hc) as [ps Hps];
    [by apply (Nat.leb_le 4); vm_compute|done|].
  destruct (vetted_page _ _ _ _ _ _ Hvet Hps) as (h & Hh & Htok & Hsome).
  exists ps, h. unfold page_pieces, page_html, render_page, ExecuteTemplate. rewrite Hp, Ht, Hps. done.
Qed.

(** C26: every page renders, and nothing in its data becomes markup.  Whatever the
    roles, hosts, audit events, revocations, form inputs, names in the address and
    identities, the template of a page runs without an error; a browser reads the
    bytes as the template's own tags with the data, whole, as text or as values of
    attributes in their place; and the tags and attribute names are those that the
    texts of the template make with every printed datum left out. *)
Theorem page_renders p :
  page_data p ≠ None →
  ∃ ps h l l', page_pieces p = Ok ps ∧ page_html p = Ok h ∧
    tokenize h = Some l ∧ tokens_of ps = Some l ∧
    tokens_of (blank <$> ps) = Some l' ∧ shape l = shape l'.
Proof.
  intros Hp. destruct (page_data p) as [[name v]|] eqn:E; [|done].
  destruct (page_runs _ _ _ E) as (ps & h & Hps & Hh & Ht & [l Hl]).
  destruct (tokens_blank _ _ Hl) as (l' & Hl' & Hs). exists ps, h, l, l'. by rewrite Ht.
Qed.
