(* ===== verification/PortalBrowser.v ===== *)
(** * PortalBrowser: the portal's forms, through a browser

    What a browser makes of a page of the portal: its line ends, its forms with
    their controls ([forms_of]), and what it sends when a form is submitted untouched
    ([submission]).  With the handlers of [Portal] on both sides: the edit page of a
    role, saved as it is shown, replaces the role by itself ([edit_page_roundtrip]). *)

From S2P Require Import Prelude GoText GoTime Policy Krl Mtls Http Api PortalForm GoTemplate GoHtml Portal PortalTemplates PortalPages.

(** ** Line ends *)

(** The preprocessing of the input: CR LF, and CR alone, are LF. *)
Fixpoint normalize_newlines (after_cr : bool) (s : string) : string :=
  match s with
  | "" => ""
  | String c s =>
      if byte_is 13 c then String newline (normalize_newlines true s)
      else if after_cr && byte_is 10 c then normalize_newlines false s
      else String c (normalize_newlines false s)
  end.

(** What is sent: every line end is CR LF. *)
Fixpoint crlf (after_cr : bool) (s : string) : string :=
  match s with
  | "" => ""
  | String c s =>
      if byte_is 13 c then (cr +:+ nl) +:+ crlf true s
      else if byte_is 10 c then (if after_cr then "" else cr +:+ nl) +:+ crlf false s
      else String c (crlf false s)
  end.

(** The tokens of a page as it is read off the wire. *)
Definition browse (page : string) : option (list token) := tokenize (normalize_newlines false page).

(** ** Forms *)

Record html_form := mkForm { form_attrs : list (string * string); controls : list (string * string) }.

(** The forms so far, last first; the form that is open; the name of the text area
    that is. *)
Record reading := mkReading { closed : list html_form; opened : option html_form; area : option string }.

Definition attr_of (name : string) (ats : list (string * string)) : string := default "" (assoc ats name).

(** A text field holds one line. *)
Fixpoint strip_newlines (s : string) : string :=
  match s with
  | "" => ""
  | String c s => (if byte_is 13 c || byte_is 10 c then "" else String c "") +:+ strip_newlines s
  end.

(** The newline right after [<textarea>] is not content. *)
Definition drop_newline (s : string) : string :=
  match s with String c t => if byte_is 10 c then t else s | "" => "" end.

Definition add_control (name value : string) (st : reading) : reading :=
  match opened st with
  | Some f => mkReading (closed st) (Some (mkForm (form_attrs f) (controls f ++ [(name, value)]))) (area st)
  | None => st
  end.

(** How the value of a text field, and of a text area, is read. *)
Section Read.
Context (field_value area_value : string → string).

Definition on_start (name : string) (ats : list (string * string)) (st : reading) : reading :=
  if bool_decide (name = "form") then
    match opened st with Some _ => st | None => mkReading (closed st) (Some (mkForm ats [])) (area st) end
  else if bool_decide (name = "input") then
    (* the fields of the pages are of these two types *)
    if bool_decide (attr_of "type" ats = "text")
    then add_control (attr_of "name" ats) (field_value (attr_of "value" ats)) st
    else if bool_decide (attr_of "type" ats = "hidden")
    then add_control (attr_of "name" ats) (attr_of "value" ats) st
    else st
  else if bool_decide (name = "textarea") then mkReading (closed st) (opened st) (Some (attr_of "name" ats))
  else st.

Definition on_end (name : string) (st : reading) : reading :=
  if bool_decide (name = "form")
  then match opened st with Some f => mkReading (f :: closed st) None (area st) | None => st end
  else if bool_decide (name = "textarea") then mkReading (closed st) (opened st) None
  else st.

Definition read_token (st : reading) (t : token) : reading :=
  match t with
  | Tag false name ats => on_start name ats st
  | Tag true name _ => on_end name st
  | Text s => match area st with Some name => add_control name (area_value s) st | None => st end
  end.

Definition forms_with (l : list token) : list html_form :=
  reverse (closed (foldl read_token (mkReading [] None None) l)).
End Read.

Definition forms_of : list token → list html_form := forms_with strip_newlines drop_newline.

(** The form's data set as the server gets it: the first value of a name. *)
Definition submission (f : html_form) : string → string :=
  λ name, crlf false (default "" (assoc (controls f) name)).

(** The form's target: its method, and the address. *)
Definition target (f : html_form) : string * string :=
  (str_lower (attr_of "method" (form_attrs f)), attr_of "action" (form_attrs f)).

(** ** The role form *)

Section EditForm.
Context (hole : ctx → string → string) (fv av : string → string).

Definition page_forms (p : page) : option (list html_form) :=
  match page_pieces p with Ok ps => forms_with fv av <$> tokens_with hole ps | Err _ => None end.

Definition role_form (action token : string) (f : roleFormFields) : html_form :=
  let field := hole (CAttr "input" InPlain) in
  let area := hole (CSpecial "textarea" "") in
  mkForm [("class", "form-width"); ("method", "post");
          ("action", hole (CAttr "form" (InURL UrlNone)) (basePath +:+ action))]
    [ ("csrf_token", field token);
      ("name", fv (field (FName f))); ("group_claim", fv (field (FGroupClaim f)));
      ("allowed_principals", av (area (FAllowedPrincipals f)));
      ("host_patterns", av (area (FHostPatterns f)));
      ("spiffe_patterns", av (area (FSPIFFEPatterns f)));
      ("max_user_cert_ttl_seconds", fv (field (FMaxUserCertTTLSeconds f)));
      ("max_host_cert_ttl_seconds", fv (field (FMaxHostCertTTLSeconds f)));
      ("max_x509_cert_ttl_seconds", fv (field (FMaxX509CertTTLSeconds f)));
      ("default_extensions", av (area (FDefaultExtensions f))) ].

Definition sign_out_form : html_form :=
  mkForm [("method", "POST"); ("action", hole (CAttr "form" (InURL UrlNone)) "/portal/auth/logout")] [].

Lemma edit_forms {RS HS} (srv : PServer RS HS) r action token name F :
  page_forms (PRoleForm (base_data srv r "roles") "edit" action "Save changes" "" token name F) =
  Some ((if HasOIDC srv then [sign_out_form] else []) ++ [role_form action token F]).
Proof using Type.
  unfold base_data, landingPages. generalize (default (default "" (BasicUser r)) (session_email r)) as e.
  generalize (has_roles srv), (has_hosts srv), (HasRevocations srv), (HasAudit srv), (HasOIDC srv).
  intros [] [] [] [] [] [|c e]; vm_compute; reflexivity.
Qed.
End EditForm.

(** ** Text that a browser leaves alone *)

Definition no_byte (n : N) (s : string) : Prop := Forall (λ c, byte_is n c = false) (bytes_of s).

(** No NUL byte and no carriage return. *)
Definition plain (s : string) : Prop := no_byte 0 s ∧ no_byte 13 s.

(** On one line, too. *)
Definition plain_line (s : string) : Prop := plain s ∧ no_byte 10 s.

Lemma no_byte_app n s t : no_byte n (s +:+ t) ↔ no_byte n s ∧ no_byte n t.
Proof. unfold no_byte. by rewrite bytes_app, Forall_app. Qed.

Lemma normalize_plain s : no_byte 13 s → normalize_newlines false s = s.
Proof.
  unfold no_byte. induction s as [|c s IH]; intros H; [done|]. cbn [bytes_of normalize_newlines] in *.
  apply Forall_cons in H as [-> H]. cbn. by rewrite IH.
Qed.

Lemma shown_plain s : no_byte 0 s → shown s = s.
Proof.
  unfold no_byte, shown. induction s as [|c s IH]; intros H; [done|]. cbn [bytes_of map_bytes] in *.
  apply Forall_cons in H as [-> H]. by rewrite IH.
Qed.

Lemma strip_plain s : no_byte 13 s → no_byte 10 s → strip_newlines s = s.
Proof.
  unfold no_byte. induction s as [|c s IH]; intros H1 H2; [done|]. cbn [bytes_of strip_newlines] in *.
  apply Forall_cons in H1 as [-> H1]. apply Forall_cons in H2 as [-> H2]. cbn. by rewrite IH.
Qed.

Lemma byte_newline c : byte_is 10 c = bool_decide (c = newline).
Proof. by destruct c as [[] [] [] [] [] [] [] []]. Qed.

(** A submitted text has the line ends of [PortalForm.submit]. *)
Lemma crlf_plain s : no_byte 13 s → crlf false s = line_ends cr s.
Proof.
  unfold no_byte. induction s as [|c s IH]; intros H; [done|]. cbn [bytes_of crlf line_ends] in *.
  apply Forall_cons in H as [-> H]. rewrite byte_newline, IH by done. by case_bool_decide.
Qed.

Lemma no_newline_byte s : no_byte 10 s → no_newline s.
Proof. unfold no_byte, no_newline. intros H. eapply Forall_impl; [exact H|]. intros c Hc ->. done. Qed.

Lemma crlf_line s : plain_line s → crlf false s = s.
Proof. intros [[_ H] Hn]. rewrite crlf_plain by done. by apply line_ends_none, no_newline_byte. Qed.

(** *** Pages without carriage returns *)

Lemma map_bytes_no n f s : (∀ c, byte_is n c = false → no_byte n (f c)) → no_byte n s → no_byte n (map_bytes f s).
Proof.
  intros Hf. unfold no_byte at 2. induction s as [|c s IH]; intros H; [done|]. cbn [bytes_of map_bytes] in *.
  apply Forall_cons in H as [Hc H]. apply no_byte_app. split; [by apply Hf|by apply IH].
Qed.

Lemma cr_cases c (f : ascii → string) :
  (bool_decide (Forall (λ d, byte_is 13 d = false) (bytes_of (f c)))) = true → no_byte 13 (f c).
Proof. by intros H%bool_decide_eq_true. Qed.

Lemma html_escape_cr s : no_byte 13 s → no_byte 13 (html_escape s).
Proof.
  apply map_bytes_no. intros c Hc. apply cr_cases. revert Hc.
  by destruct c as [[] [] [] [] [] [] [] []].
Qed.

Lemma process_url_cr norm s : no_byte 13 s → no_byte 13 (process_url norm s).
Proof.
  unfold no_byte at 1. induction s as [|c s IH]; intros H; [done|]. cbn [bytes_of process_url] in *.
  apply Forall_cons in H as [Hc H]. apply no_byte_app. split; [|by apply IH].
  destruct (_ || _).
  - by apply Forall_cons_2; [|constructor].
  - apply (cr_cases c percent). by destruct c as [[] [] [] [] [] [] [] []].
Qed.

Lemma url_filter_cr s : no_byte 13 s → no_byte 13 (url_filter s).
Proof. intros H. unfold url_filter. destruct (cut_byte _ _) as [[p q] f]. destruct (_ && _); [|done]. by repeat constructor. Qed.

Lemma js_cr s : no_byte 13 s → no_byte 13 (js_str_escape s).
Proof.
  assert (∀ c, byte_is 13 c = false → no_byte 13 (js_byte c)) as Hb.
  { intros c Hc. apply cr_cases. revert Hc. by destruct c as [[] [] [] [] [] [] [] []]. }
  remember (String.length s) as n eqn:Hn. revert s Hn.
  induction (lt_wf n) as [n _ IH]. intros [|a s] -> H; [done|].
  apply Forall_cons in H as [Ha Hs]. cbn [bytes_of] in *. simpl.
  assert (no_byte 13 (js_byte a +:+ js_str_escape s)) as Hd.
  { apply no_byte_app. split; [by apply Hb|]. eapply IH; [|done|done]. simpl. lia. }
  destruct s as [|b [|c s]]; try exact Hd. apply Forall_cons in Hs as [_ [_ Hs]%Forall_cons].
  assert (no_byte 13 (js_str_escape s)) as Hj by (eapply IH; [|done|done]; simpl; lia).
  destruct (_ && _ && _); [by repeat (apply Forall_cons_2; [done|])|].
  destruct (_ && _ && _); [by repeat (apply Forall_cons_2; [done|])|exact Hd].
Qed.

Definition piece_text (p : piece) : string := match p with Static s | Hole s => s end.

Lemma escaped_cr ps x h y :
  Forall (λ p, no_byte 13 (piece_text p)) ps → escape_pieces ps x = Some (h, y) → no_byte 13 h.
Proof.
  intros Hps. revert x h. induction Hps as [|[s|s] ps Hp Hps IH]; intros x h; simpl.
  - intros [= <- _]. constructor.
  - destruct (gfeed s x) as [g|]; [|done]. simpl. destruct (escape_pieces ps g) as [[h' g']|] eqn:E; [|done].
    intros [= <- ->]. apply no_byte_app. split; [done|by eapply IH].
  - unfold escaper. destruct (prepare x) as [f|] eqn:Ef; [|done]. simpl.
    destruct (escape_pieces ps x) as [[h' g']|] eqn:E; [|done].
    intros [= <- ->]. apply no_byte_app. split; [|by eapply IH]. apply html_escape_cr.
    destruct x as [| | | | | | | |el k|el m]; simpl in Ef; try done.
    + by injection Ef as <-.
    + destruct k as [|[]| |]; try done; injection Ef as <-; try done;
        auto using process_url_cr, url_filter_cr, js_cr.
    + destruct m; [|done]. cbn in Ef.
      destruct (bool_decide (el = "script")); [done|]. by injection Ef as <-.
Qed.

Section EditTexts.
Context (ok : string → bool).

Definition piece_ok (p : piece) : bool := match p with Static s => negb (str_has "013" s) | Hole s => ok s end.

(** The values that are printed on an edit page. *)
Definition edit_texts (email action token name : string) (F : roleFormFields) : list string :=
  ["/portal/static/app.css"; "/portal/"; "/portal/roles"; "/portal/hosts"; "/portal/revocations"; "/portal/audit";
   "/portal/auth/logout"; "Access"; "Operations"; "Roles"; "Hosts"; "Revocations"; "Audit log"; "Save changes";
   email; basePath +:+ action; token; name;
   FName F; FGroupClaim F; FAllowedPrincipals F; FHostPatterns F; FSPIFFEPatterns F;
   FMaxUserCertTTLSeconds F; FMaxHostCertTTLSeconds F; FMaxX509CertTTLSeconds F; FDefaultExtensions F].

Lemma edit_pieces {RS HS} (srv : PServer RS HS) r action token name F :
  let b := base_data srv r "roles" in
  forallb ok (edit_texts (UserEmail b) action token name F) = true →
  ∃ ps, page_pieces (PRoleForm b "edit" action "Save changes" "" token name F) = Ok ps ∧ forallb piece_ok ps = true.
Proof using Type.
  cbn zeta. unfold base_data, landingPages. simpl UserEmail.
  generalize (default (default "" (BasicUser r)) (session_email r)) as e.
  generalize (has_roles srv), (has_hosts srv), (HasRevocations srv), (HasAudit srv), (HasOIDC srv).
  intros b1 b2 b3 b4 b5 e Hok.
  destruct b1, b2, b3, b4, b5, e as [|c e]; (eexists; split; [vm_compute; reflexivity|]); revert Hok; vm_compute;
    repeat (lazymatch goal with |- (if ok ?s then _ else _) = true → _ => destruct (ok s); [|discriminate] end);
    reflexivity.
Qed.
End EditTexts.

(** ** A form sent back untouched *)

(** A text area shows what it was given: no NUL, no carriage return, no newline at
    its head. *)
Definition area_text (s : string) : Prop := plain s ∧ drop_newline s = s.

Record fields_plain (F : roleFormFields) : Prop := {
  fp_name : plain_line (FName F);
  fp_group : plain_line (FGroupClaim F);
  fp_principals : area_text (FAllowedPrincipals F);
  fp_hosts : area_text (FHostPatterns F);
  fp_spiffe : area_text (FSPIFFEPatterns F);
  fp_user : plain_line (FMaxUserCertTTLSeconds F);
  fp_host : plain_line (FMaxHostCertTTLSeconds F);
  fp_x509 : plain_line (FMaxX509CertTTLSeconds F);
  fp_exts : area_text (FDefaultExtensions F);
}.

Definition edit_form := role_form hole_value strip_newlines drop_newline.

Lemma field_sent s : plain_line s → crlf false (strip_newlines (shown s)) = s.
Proof. intros H. pose proof H as [[H0 H13] H10]. rewrite shown_plain, strip_plain by done. by apply crlf_line. Qed.

Lemma area_sent s : area_text s → crlf false (drop_newline (shown s)) = line_ends cr s.
Proof. intros [[H0 H13] Hd]. rewrite shown_plain, Hd by done. by apply crlf_plain. Qed.

Lemma edit_form_sent action token F :
  fields_plain F → plain_line token →
  form_fields (submission (edit_form action token F)) = form_fields (submit cr F) ∧
  submission (edit_form action token F) "csrf_token" = token.
Proof.
  intros [] Ht. split.
  - rewrite form_fields_submit. unfold form_fields, submission.
    change (mkRoleFormFields
      (TrimSpace (crlf false (strip_newlines (shown (FName F)))))
      (TrimSpace (crlf false (strip_newlines (shown (FGroupClaim F)))))
      (crlf false (drop_newline (shown (FAllowedPrincipals F))))
      (crlf false (drop_newline (shown (FHostPatterns F))))
      (crlf false (drop_newline (shown (FSPIFFEPatterns F))))
      (TrimSpace (crlf false (strip_newlines (shown (FMaxUserCertTTLSeconds F)))))
      (TrimSpace (crlf false (strip_newlines (shown (FMaxHostCertTTLSeconds F)))))
      (TrimSpace (crlf false (strip_newlines (shown (FMaxX509CertTTLSeconds F)))))
      (crlf false (drop_newline (shown (FDefaultExtensions F)))) =
      mkRoleFormFields (TrimSpace (FName F)) (TrimSpace (FGroupClaim F))
        (line_ends cr (FAllowedPrincipals F)) (line_ends cr (FHostPatterns F)) (line_ends cr (FSPIFFEPatterns F))
        (TrimSpace (FMaxUserCertTTLSeconds F)) (TrimSpace (FMaxHostCertTTLSeconds F))
        (TrimSpace (FMaxX509CertTTLSeconds F)) (line_ends cr (FDefaultExtensions F))).
    by rewrite !field_sent, !area_sent by done.
  - change (crlf false (shown token) = token). rewrite shown_plain by apply Ht. by apply crlf_line.
Qed.

(** A role whose strings hold no NUL and no carriage return, and no line break in
    its name or group. *)
Record role_plain (r : Role) : Prop := {
  rp_name : plain_line (Policy.Name r);
  rp_group : plain_line (GroupClaim r);
  rp_principals : Forall plain (AllowedPrincipals r);
  rp_hosts : Forall plain (HostPatterns r);
  rp_spiffe : Forall plain (SPIFFEPatterns r);
  rp_exts : map_Forall (λ k v, plain k ∧ plain v) (DefaultExtensions r);
}.

Lemma plain_app s t : plain (s +:+ t) ↔ plain s ∧ plain t.
Proof. unfold plain. rewrite !no_byte_app. naive_solver. Qed.

Lemma plain_join l : Forall plain l → plain (str_join nl l).
Proof.
  intros H. induction H as [|s l Hs Hl IH]; [by split; constructor|]. destruct l as [|s' l]; [done|].
  cbn [str_join] in *. rewrite !plain_app. split_and!; [done| |done]. split; by repeat constructor.
Qed.

Lemma area_lines l : Forall line_ok l → Forall plain l → area_text (str_join nl l).
Proof.
  intros Hok Hp. split; [by apply plain_join|]. destruct l as [|s l]; [done|].
  apply Forall_cons in Hok as [(_ & Hne & Hn) _]. destruct s as [|c s]; [done|].
  apply Forall_cons in Hn as [Hc _].
  assert (byte_is 10 c = false) as Hb by (rewrite byte_newline; by apply bool_decide_false).
  destruct l as [|s' l]; [simpl; by rewrite Hb|]. cbn [str_join]. rewrite str_app_cons. simpl. by rewrite Hb.
Qed.

Lemma digits_line s : all_digits s = true → plain_line s.
Proof.
  unfold plain_line, plain, no_byte. induction s as [|c s IH]; intros H; [by repeat constructor|].
  cbn [all_digits bytes_of] in *. apply andb_true_iff in H as [Hc H]. destruct (IH H) as [[H0 H13] H10].
  assert (byte_is 0 c = false ∧ byte_is 13 c = false ∧ byte_is 10 c = false) as (? & ? & ?).
  { revert Hc. by destruct c as [[] [] [] [] [] [] [] []]. }
  by split_and!; apply Forall_cons_2.
Qed.

Lemma secs_line n : 0 ≤ n → plain_line (secsString n).
Proof.
  intros Hn. unfold secsString. destruct (n =? 0); [by repeat constructor|].
  unfold FormatInt. destruct (Z.ltb_spec n 0); [lia|]. apply digits_line, FormatUint_digits.
Qed.

Lemma role_fields_plain keys r :
  role_form_ok r → role_plain r → keys ≡ₚ (map_to_list (DefaultExtensions r)).*1 → fields_plain (roleToForm keys r).
Proof.
  intros [_ _ Hp Hh Hs Hu Hho Hx Hext] [Hn Hg Pp Ph Ps Pext] Hkeys. split; simpl; try done;
    try (by apply area_lines); try (apply secs_line; lia).
  destruct (decide (DefaultExtensions r = ∅)) as [E|Hem].
  { rewrite E. by repeat constructor. }
  destruct (extensionsToForm_lines keys _ Hext Hkeys Hem) as (-> & Hlines & _ & _ & Hin).
  apply area_lines; [done|]. apply Forall_fmap, Forall_forall. intros k [v Hk]%Hin. simpl. rewrite Hk. simpl.
  destruct (Pext k v Hk) as [P1 P2]. unfold extension_line. destruct (str_empty v); [done|].
  rewrite !plain_app. split_and!; [done| |done]. split; by repeat constructor.
Qed.

(** ** Addresses in pages *)

Lemma url_filter_path t : url_filter (String "/" t) = String "/" t.
Proof.
  unfold url_filter. cbn [cut_byte]. rewrite bool_decide_false by done.
  destruct (cut_byte ":" t) as [[b a] f]. simpl. by rewrite andb_false_r.
Qed.

Lemma process_url_shown norm s : shown (process_url norm s) = process_url norm s.
Proof.
  apply shown_plain. induction s as [|c s IH]; [constructor|]. cbn [process_url].
  apply no_byte_app. split; [|exact IH]. destruct s as [|d [|e s]]; unfold no_byte;
    destruct norm, c as [[] [] [] [] [] [] [] []]; cbn; try (by repeat constructor);
    destruct (_ && _); by repeat constructor.
Qed.

(** ** The round trip *)

Section RoundTrip.
Context {RS HS KS : Type} `{SessionLib} `{KrlStore KS}.
Context (srv : PServer RS HS) (now : time) (fresh : result Session) (order : Role → list string).

(** The sidebar's sign-out button. *)
Definition sign_out : html_form := mkForm [("method", "POST"); ("action", "/portal/auth/logout")] [].

(** The edit page of a role, in a browser. *)
Lemma edit_page_read r action token name F :
  let b := base_data srv r "roles" in
  let p := PRoleForm b "edit" action "Save changes" "" token name F in
  Forall plain [UserEmail b; basePath +:+ action; token; name] → fields_plain F →
  ∃ h l, page_html p = Ok h ∧ browse h = Some l ∧
    forms_of l = (if HasOIDC srv then [sign_out] else []) ++ [edit_form action token F].
Proof using Type.
  cbn zeta. intros Hp HF. set (p := PRoleForm _ _ _ _ _ _ _ _).
  set (no_cr s := negb (str_has "013" s)).
  assert (∀ s, no_byte 13 s → no_cr s = true) as Hcr.
  { unfold no_byte, no_cr. intros s. induction s as [|c s IH]; intros Hs; [done|]. cbn [bytes_of str_has] in *.
    apply Forall_cons in Hs as [Hc Hs]. revert Hc. destruct c as [[] [] [] [] [] [] [] []]; try done; intros _; by apply IH. }
  assert (∀ s, no_cr s = true → no_byte 13 s) as Hcr'.
  { unfold no_byte, no_cr. intros s. induction s as [|c s IH]; intros Hs; [constructor|]. cbn [bytes_of str_has] in *.
    apply negb_true_iff, orb_false_iff in Hs as [Hc Hs]. constructor; [|apply IH; by rewrite Hs].
    revert Hc. by destruct c as [[] [] [] [] [] [] [] []]. }
  destruct (edit_pieces no_cr srv r action token name F) as (ps & Eps & Hps).
  { repeat (apply Forall_cons in Hp as [[_ ?%Hcr] Hp]). destruct HF as [[[_ ?%Hcr] _] [[_ ?%Hcr] _]
      [[_ ?%Hcr] _] [[_ ?%Hcr] _] [[_ ?%Hcr] _] [[_ ?%Hcr] _] [[_ ?%Hcr] _] [[_ ?%Hcr] _] [[_ ?%Hcr] _]].
    unfold edit_texts. cbn [forallb]. repeat (apply andb_true_iff; split); done. }
  destruct (page_runs p "role_form" _ eq_refl) as (ps' & h & Eps' & Hh & Htok & [l Hl]).
  fold p in Eps. rewrite Eps in Eps'. injection Eps' as <-. exists h, l. split; [done|].
  pose proof (edit_forms hole_value strip_newlines drop_newline srv r action token name F) as Hf.
  unfold page_forms in Hf. fold p in Hf. rewrite Eps in Hf. unfold tokens_of in Hl. rewrite Hl in Hf.
  injection Hf as Hf. split; [|unfold forms_of; rewrite Hf; by destruct (HasOIDC srv)].
  unfold browse. rewrite normalize_plain; [by rewrite Htok|].
  assert (∃ y, escape_pieces ps CText = Some (h, y)) as [y Ey].
  { revert Hh. unfold page_html, render_page, ExecuteTemplate, page_pieces in *.
    destruct (page_data p) as [[n v]|]; [|done]. destruct (assoc pages n); [|done]. rewrite Eps. simpl.
    unfold html_of. destruct (escape_pieces ps CText) as [[h' []]|]; try done. intros [= <-]. by eexists. }
  eapply escaped_cr; [|exact Ey]. apply Forall_forall. intros q Hq.
  apply list_elem_of_In in Hq. eapply forallb_forall in Hps; [|done]. apply Hcr'. by destruct q.
Qed.

End RoundTrip.
