(* ===== verification/PortalAddresses.v ===== *)
(** * PortalAddresses: the addresses that the pages print

    The links and the targets of forms among the tokens of a page ([addresses]), and
    how to collect them from a template: [yields] says what a part of a template
    prints and which addresses that adds, for parts that begin and end between tags,
    and composes over sequences, conditions and loops.  With it, the addresses of the
    pages about roles: the list ([roles_page_addresses]) and one role
    ([role_page_addresses]). *)

From S2P Require Import Prelude GoText GoTime Policy Krl Mtls Http Api PortalForm GoTemplate GoHtml Portal PortalTemplates PortalPages PortalBrowser.

(** ** Addresses among tokens *)

(** What following a link, or submitting a form, requests: the method, the address. *)
Definition addr (t : token) : list (string * string) :=
  match t with
  | Tag false name ats =>
      if bool_decide (name = "a") then [("GET", attr_of "href" ats)]
      else if bool_decide (name = "form")
      then [(if bool_decide (str_lower (attr_of "method" ats) = "post") then "POST" else "GET", attr_of "action" ats)]
      else []
  | _ => []
  end.

Definition addresses (l : list token) : list (string * string) := mjoin (addr <$> l).

(** Those below the list of roles. *)
Definition is_role_address (x : string * string) : bool := String.prefix "/portal/roles/" x.2.
Definition role_addresses (l : list token) : list (string * string) := List.filter is_role_address (addresses l).

Lemma addresses_app k l : addresses (k ++ l) = addresses k ++ addresses l.
Proof. unfold addresses. by rewrite fmap_app, join_app. Qed.

Lemma addresses_one t : addresses [t] = addr t.
Proof. apply app_nil_r. Qed.

(** ** Reading on

    The tokens read from some place on depend on what was read before in the first
    text only. *)
Section Reads.
Context (hole : ctx → string → string).

(** [b] is [a] after more tokens, with the addresses [ls]. *)
Definition adds (a b : acc) (ls : list (string * string)) : Prop :=
  addresses (reverse (out b)) = addresses (reverse (out a)) ++ ls.

Definition same_tag (a b : acc) : Prop := attrs a = attrs b ∧ val a = val b.

Lemma do_act_same x a b :
  same_tag a b → same_tag (do_act x a) (do_act x b) ∧ ∃ ls, adds a (do_act x a) ls ∧ adds b (do_act x b) ls.
Proof using Type.
  destruct a as [o t l v], b as [o' t' l' v']. intros [[= ->] [= ->]]. unfold adds.
  destruct x as [s|s|n|close tag]; (split; [done|]).
  1-3: exists []; split; symmetry; apply app_nil_r.
  assert (∀ s k, addresses (reverse (Tag close tag l' :: GoHtml.Text s :: k)) =
    addresses (reverse k) ++ addr (Tag close tag l')) as E.
  { intros s k. by rewrite !reverse_cons, !addresses_app, !addresses_one, app_nil_r. }
  exists (addr (Tag close tag l')). cbn [do_act out attrs]. by rewrite !E.
Qed.

Lemma adds_trans a b c k l : adds a b k → adds b c l → adds a c (k ++ l).
Proof using Type. unfold adds. intros E1 ->. by rewrite E1, app_assoc. Qed.

Lemma acts_same xs a b :
  same_tag a b →
  let a' := foldl (λ a x, do_act x a) a xs in let b' := foldl (λ a x, do_act x a) b xs in
  same_tag a' b' ∧ ∃ ls, adds a a' ls ∧ adds b b' ls.
Proof using Type.
  revert a b. induction xs as [|x xs IH]; intros a b Hab; simpl.
  { split; [done|]. exists []. by split; unfold adds; rewrite app_nil_r. }
  destruct (do_act_same x a b Hab) as [H1 (k & Ka & Kb)]. destruct (IH _ _ H1) as [H2 (l & La & Lb)].
  split; [done|]. exists (k ++ l). by split; eapply adds_trans.
Qed.

Lemma feed_same s st a b :
  same_tag a b →
  (feed s st a).1 = (feed s st b).1 ∧ same_tag (feed s st a).2 (feed s st b).2 ∧
  ∃ ls, adds a (feed s st a).2 ls ∧ adds b (feed s st b).2 ls.
Proof using Type.
  revert st a b. induction s as [|c s IH]; intros st a b Hab; simpl.
  { split_and!; [done|done|]. exists []. by split; unfold adds; rewrite app_nil_r. }
  destruct (bstep st c) as [st' xs]. destruct (acts_same xs a b Hab) as [H1 (k & Ka & Kb)].
  destruct (IH st' _ _ H1) as (Hst & H2 & l & La & Lb). split_and!; [done|done|].
  exists (k ++ l). by split; eapply adds_trans.
Qed.

Lemma place_same ps x a b :
  same_tag a b →
  (place hole ps x a).1 = (place hole ps x b).1 ∧ same_tag (place hole ps x a).2 (place hole ps x b).2 ∧
  ∃ ls, adds a (place hole ps x a).2 ls ∧ adds b (place hole ps x b).2 ls.
Proof using Type.
  revert x a b. induction ps as [|[s|s] ps IH]; intros x a b Hab; simpl.
  { split_and!; [done|done|]. exists []. by split; unfold adds; rewrite app_nil_r. }
  - destruct (feed_same s x.1 a b Hab) as (Hst & H1 & k & Ka & Kb).
    destruct (feed s x.1 a) as [st a1], (feed s x.1 b) as [st' b1]. simpl in *. subst st'.
    destruct (IH (st, default CText (gfeed s x.2)) _ _ H1) as (Hst & H2 & l & La & Lb). split_and!; [done|done|].
    exists (k ++ l). by split; eapply adds_trans.
  - assert (∃ y, ∀ a, put x.1 (hole x.2 s) a = do_act y a) as [y Hy] by (destruct x.1; by eexists).
    rewrite !Hy. destruct (do_act_same y a b Hab) as [H1 (k & Ka & Kb)].
    destruct (IH x _ _ H1) as (Hst & H2 & l & La & Lb). split_and!; [done|done|].
    exists (k ++ l). by split; eapply adds_trans.
Qed.

(** The pieces lead from between tags to between tags, and add these addresses. *)
Definition between : both := (Data, CText).

Definition reads (ps : list piece) (ls : list (string * string)) : Prop :=
  let '(x, a) := place hole ps between start_acc in
  x = between ∧ attrs a = [] ∧ val a = "" ∧ addresses (reverse (out a)) = ls.

Lemma reads_app ps qs k l : reads ps k → reads qs l → reads (ps ++ qs) (k ++ l).
Proof using Type.
  unfold reads. rewrite place_app. destruct (place hole ps between start_acc) as [x a].
  intros (-> & Ha & Hv & Hk). assert (same_tag start_acc a) as Hs by by split.
  destruct (place_same qs between _ _ Hs) as (Ex & [Et Ev] & ls & L1 & L2).
  destruct (place hole qs between start_acc) as [x1 a1], (place hole qs between a) as [x2 a2]. simpl in *.
  intros (-> & Ha1 & Hv1 & <-). split_and!; [done|congruence|congruence|].
  unfold adds in *. rewrite L2, Hk, L1. done.
Qed.

Lemma reads_nil : reads [] [].
Proof using Type. done. Qed.

Lemma reads_hole s : reads [Hole s] [].
Proof using Type. done. Qed.

Lemma reads_tokens ps ls l : reads ps ls → tokens_with hole ps = Some l → addresses l = ls.
Proof using Type.
  unfold reads, tokens_with, between. destruct (place hole ps (Data, CText) start_acc) as [x a].
  intros (-> & _ & _ & <-). simpl. intros [= <-]. by rewrite reverse_cons, addresses_app, addresses_one, app_nil_r.
Qed.

(** ** Parts of templates *)
Section Yields.
Context (funcs : string → list value → result value).

(** A part, run in [e]. *)
Definition yields (w : env → result (list piece)) (e : env) (ls : list (string * string)) : Prop :=
  ∃ ps, w e = Ok ps ∧ reads ps ls.

Lemma yields_reads w e ps ls : w e = Ok ps → reads ps ls → yields w e ls.
Proof using Type. by exists ps. Qed.

Lemma yields_app vs ws e k l :
  yields (all_of vs) e k → yields (all_of ws) e l → yields (all_of (vs ++ ws)) e (k ++ l).
Proof using Type.
  intros (ps & Ep & Hp) (qs & Eq & Hq). exists (ps ++ qs). split; [|by apply reads_app]. clear Hp.
  revert ps Ep. induction vs as [|v vs IH]; intros ps; simpl; [by intros [= <-]|].
  destruct (v e) as [a|]; [|done]. simpl. destruct (all_of vs e) as [b|]; [|done]. simpl. intros [= <-].
  rewrite (IH b eq_refl). simpl. by rewrite app_assoc.
Qed.

Lemma yields_one w e ls : yields w e ls → yields (all_of [w]) e ls.
Proof using Type. intros (ps & E & H). exists ps. simpl. rewrite E. simpl. by rewrite app_nil_r. Qed.

(** A sequence cut after [n] parts. *)
Lemma yields_cut n call ns e k l :
  yields (all_of (List.map (exec_node funcs call) (take n ns))) e k →
  yields (all_of (List.map (exec_node funcs call) (drop n ns))) e l →
  yields (all_of (List.map (exec_node funcs call) ns)) e (k ++ l).
Proof using Type. intros Hk Hl. rewrite <- (take_drop n ns), map_app. by apply yields_app. Qed.

Lemma yields_if call p thn els e v ls :
  eval funcs e p = Ok v →
  yields (all_of (List.map (exec_node funcs call) (if truth v then thn else els))) e ls →
  yields (exec_node funcs call (NIf p thn els)) e ls.
Proof using Type. intros Ev (ps & E & H). exists ps. split; [|done]. simpl. rewrite Ev. simpl. by destruct (truth v). Qed.

Lemma yields_each d w items e f :
  (∀ item, item ∈ items → yields w (item_env d e item) (f item)) →
  yields (each d w items) e (mjoin (f <$> items)).
Proof using Type.
  induction items as [|item items IH]; intros Hw; [exists []; by split; [|apply reads_nil]|].
  destruct (Hw item) as (ps & Ep & Hp); [by left|].
  destruct IH as (qs & Eq & Hq); [intros; apply Hw; by right|].
  exists (ps ++ qs). split; [simpl; by rewrite Ep; simpl; rewrite Eq|]. by apply reads_app.
Qed.

Lemma yields_range call d p body els e v items f :
  eval funcs e p = Ok v → range_items v = Ok items → items ≠ [] →
  (∀ item, item ∈ items → yields (all_of (List.map (exec_node funcs call) body)) (item_env d e item) (f item)) →
  yields (exec_node funcs call (NRange d p body els)) e (mjoin (f <$> items)).
Proof using Type.
  intros Ev Ei Hne (ps & E & H)%yields_each. exists ps. split; [|done]. simpl. rewrite Ev. simpl. rewrite Ei. simpl.
  by destruct items.
Qed.

Lemma yields_call call name a e v ls :
  eval_operand e a = Ok v → yields (λ e, call name (dot e)) (start v) ls → yields (exec_node funcs call (NTemplate name a)) e ls.
Proof using Type. intros Ev (ps & E & H). exists ps. split; [|done]. simpl. by rewrite Ev. Qed.

Lemma yields_action call p e v s :
  eval funcs e p = Ok v → printed v = Ok s → yields (all_of (List.map (exec_node funcs call) [NAction p])) e [].
Proof using Type.
  intros Ev Es. exists [Hole s]. split; [|apply reads_hole]. simpl. rewrite Ev. simpl. by rewrite Es.
Qed.

Lemma no_addresses {A} (l : list A) : mjoin ((λ _, @nil (string * string)) <$> l) = [].
Proof using Type. by induction l. Qed.
End Yields.
End Reads.

(** A part without symbolic conditions, read by evaluation. *)
Ltac read_off := eapply yields_reads; [reflexivity|vm_compute; split_and!; reflexivity].

(** ** Cells of the tables *)
Section Cells.
Context (hole : ctx → string → string) (funcs : string → list value → result value).
Context (call : string → value → result (list piece)).

Abbreviation cell_yields n e ls := (yields hole (exec_node funcs call n) e ls) (only parsing).

(** A list of strings, or that there is none. *)
Definition list_cell (p : operand) : node :=
  NIf (Operand p)
    [NRange (Some ("i", "p")) (Operand p)
       [NIf (Operand (Var "i" [])) [NText ", "] []; NText "<code>"; NAction (Operand (Var "p" [])); NText "</code>"] []]
    [NText "<em>none</em>"].

(** A map of strings. *)
Definition map_cell (p : operand) : node :=
  NIf (Operand p)
    [NRange (Some ("k", "v")) (Operand p)
       [NText "<code>"; NAction (Operand (Var "k" []));
        NIf (Operand (Var "v" [])) [NText "="; NAction (Operand (Var "v" []))] []; NText "</code><br>"] []]
    [NText "<em>none</em>"].

Lemma indexed_strings n l item : item ∈ indexed n (VStr <$> l) → ∃ i s, item = (VInt i, VStr s).
Proof using Type.
  revert n. induction l as [|s l IH]; intros n; [by intros ?%not_elem_of_nil|]. simpl.
  intros [->|Hi]%elem_of_cons; [by eexists _, _|by eapply IH].
Qed.

Lemma list_cell_yields p e l : eval_operand e p = Ok (strings l) → cell_yields (list_cell p) e [].
Proof using Type.
  intros E. eapply yields_if; [exact E|]. destruct l as [|s l]; [read_off|].
  cbn [truth strings fmap list_fmap]. apply yields_one. rewrite <- (no_addresses (indexed 0 (VStr <$> s :: l))).
  eapply yields_range; [exact E|done|done|].
  intros item (i & t & ->)%indexed_strings. apply (yields_cut _ _ 1 _ _ _ [] []); [apply yields_one|read_off].
  apply yields_if with (v := VInt i); [done|]. destruct (truth (VInt i)); read_off.
Qed.

Lemma map_cell_yields p e m :
  eval_operand e p = Ok (VMap m) → cell_yields (map_cell p) e [].
Proof using Type.
  intros E. eapply yields_if; [exact E|]. destruct m as [|kv m]; [read_off|].
  cbn [truth]. apply yields_one. rewrite <- (no_addresses ((λ kv, (VStr kv.1, VStr kv.2)) <$> kv :: m)).
  eapply yields_range; [exact E|done|done|].
  intros item ([k v] & -> & _)%list_elem_of_fmap.
  apply (yields_cut _ _ 1 _ _ _ [] []); [read_off|].
  apply (yields_cut _ _ 1 _ _ _ [] []); [read_off|].
  apply (yields_cut _ _ 1 _ _ _ [] []); [apply yields_one|read_off].
  apply yields_if with (v := VStr v); [done|]. destruct (truth (VStr v)); read_off.
Qed.
End Cells.

(** ** The pages about roles *)

(** What [{{url "/roles"}}/{{.Name}}] and the text after it leave in an attribute. *)
Definition printed_link (hole : ctx → string → string) (el attr name suffix : string) : string :=
  val (place hole [Hole "/portal/roles"; Static "/"; Hole name; Static suffix]
         (GoHtml.Value false el attr, CAttr el (InURL UrlNone)) start_acc).2.

Abbreviation run d t ns := (all_of (List.map (exec_node portal_funcs (exec portal_funcs d t)) ns)) (only parsing).

(** The bodies, cut where the data decides what is printed. *)
Section Bodies.
Context (hole : ctx → string → string) (d : nat) (t : templates).

Definition roles_body : list node := Eval vm_compute in default [] (t ← assoc pages "roles"; Lookup t "body").
Definition role_body : list node := Eval vm_compute in default [] (t ← assoc pages "role_detail"; Lookup t "body").

Abbreviation body_yields ns e ls := (yields hole (run d t ns) e ls) (only parsing).

Definition new_link : string := hole (CAttr "a" (InURL UrlNone)) "/portal/roles/new".
Definition list_link : string := hole (CAttr "a" (InURL UrlNone)) "/portal/roles".

(** One row of the list. *)
Definition roles_row : list node :=
  Eval vm_compute in match nth 3 roles_body (NText "") with NIf _ [_; NRange _ _ row _; _] _ => row | _ => [] end.

Lemma row_yields r sc :
  body_yields roles_row (mkEnv (role_value r) sc) [("GET", printed_link hole "a" "href" (Policy.Name r) "")].
Proof using Type.
  apply (yields_cut _ _ 9 _ _ _ [("GET", printed_link hole "a" "href" (Policy.Name r) "")] []); [read_off|].
  apply (yields_cut _ _ 1 _ _ _ [] []); [by eapply yields_one, (list_cell_yields hole _ _ (Field ["AllowedPrincipals"]))|].
  apply (yields_cut _ _ 1 _ _ _ [] []); [read_off|].
  apply (yields_cut _ _ 1 _ _ _ [] []); [by eapply yields_one, (list_cell_yields hole _ _ (Field ["HostPatterns"]))|].
  read_off.
Qed.

Definition row_links (item : value * value) : list (string * string) :=
  match get_path item.2 ["Name"] with Ok (VStr s) => [("GET", printed_link hole "a" "href" s "")] | _ => [] end.

Lemma rows_links rs n :
  mjoin (row_links <$> indexed n (role_value <$> rs)) =
  (λ r, ("GET", printed_link hole "a" "href" (Policy.Name r) "")) <$> rs.
Proof using Type. revert n. induction rs as [|r rs IH]; intros n; [done|]. by rewrite !fmap_cons, <- (IH (n + 1)). Qed.

Lemma indexed_roles n rs item : item ∈ indexed n (role_value <$> rs) → ∃ i r, item = (VInt i, role_value r).
Proof using Type.
  revert n. induction rs as [|r rs IH]; intros n; [by intros ?%not_elem_of_nil|].
  intros [->|Hi]%elem_of_cons; [by eexists _, _|by eapply IH].
Qed.

Lemma roles_body_yields b roles :
  body_yields roles_body (GoTemplate.start (rolesIndexData b roles))
    (("GET", new_link) :: ((λ r, ("GET", printed_link hole "a" "href" (Policy.Name r) "")) <$> roles)).
Proof using Type.
  rewrite <- (app_nil_r (_ :: _)). apply (yields_cut _ _ 4 _ _ _ _ []); [|read_off].
  apply (yields_cut _ _ 3 _ _ _ [("GET", new_link)]); [read_off|]. apply yields_one.
  apply yields_if with (v := VList (role_value <$> roles)); [done|]. destruct roles as [|r0 roles]; [read_off|].
  set (rs := r0 :: roles). change (truth (VList (role_value <$> rs))) with true. cbv iota.
  rewrite <- (rows_links rs 0). set (ls := mjoin _). rewrite <- (app_nil_r ls).
  apply (yields_cut _ _ 2 _ _ _ ls []); [|read_off].
  apply (yields_cut _ _ 1 _ _ _ [] ls); [read_off|]. apply yields_one.
  apply yields_range with (v := VList (role_value <$> rs)); [done..|].
  intros item (i & r & ->)%indexed_roles. apply row_yields.
Qed.

Lemma role_body_yields b name r token :
  body_yields role_body (GoTemplate.start (roleDetailData b name (Some r) token))
    [("GET", list_link); ("GET", printed_link hole "a" "href" (Policy.Name r) "/edit");
     ("POST", printed_link hole "form" "action" (Policy.Name r) "/delete")].
Proof using Type.
  apply (yields_cut _ _ 3 _ _ _ [("GET", list_link)]); [read_off|].
  rewrite <- (app_nil_r (_ :: _)). apply (yields_cut _ _ 1 _ _ _ _ []); [|read_off]. apply yields_one.
  apply yields_if with (v := VBool false); [done|]. cbn [truth].
  apply (yields_cut _ _ 7 _ _ _ [("GET", printed_link hole "a" "href" (Policy.Name r) "/edit")]); [read_off|].
  apply (yields_cut _ _ 1 _ _ _ []); [by eapply yields_one, (list_cell_yields hole _ _ (Field ["Role"; "AllowedPrincipals"]))|].
  apply (yields_cut _ _ 1 _ _ _ []); [read_off|].
  apply (yields_cut _ _ 1 _ _ _ []); [by eapply yields_one, (list_cell_yields hole _ _ (Field ["Role"; "HostPatterns"]))|].
  apply (yields_cut _ _ 1 _ _ _ []); [read_off|].
  apply (yields_cut _ _ 1 _ _ _ []); [by eapply yields_one, (list_cell_yields hole _ _ (Field ["Role"; "SPIFFEPatterns"]))|].
  apply (yields_cut _ _ 7 _ _ _ []); [read_off|].
  apply (yields_cut _ _ 1 _ _ _ []); [by eapply yields_one, (map_cell_yields hole _ _ (Field ["Role"; "DefaultExtensions"]))|].
  read_off.
Qed.

Definition form_body : list node := Eval vm_compute in default [] (t ← assoc pages "role_form"; Lookup t "body").

Lemma form_body_yields b action submit token name F :
  body_yields form_body (GoTemplate.start (roleFormData b "edit" action submit "" token name F))
    [("GET", list_link); ("POST", hole (CAttr "form" (InURL UrlNone)) (basePath +:+ action)); ("GET", list_link)].
Proof using Type. read_off. Qed.
End Bodies.

(** The address a role's links have, with the characters of the name that an address
    cannot hold escaped. *)
Definition role_link (name suffix : string) : string :=
  "/portal/roles" +:+ "/" +:+ process_url true name +:+ suffix.

Lemma printed_link_role el attr name suffix :
  suffix ∈ [""; "/edit"; "/delete"] → printed_link hole_value el attr name suffix = role_link name suffix.
Proof.
  intros Hs. unfold printed_link, role_link.
  assert (hole_value (CAttr el (InURL UrlPreQuery)) name = process_url true name) as Hn by apply process_url_shown.
  assert (hole_value (CAttr el (InURL UrlNone)) "/portal/roles" = "/portal/roles") as Hp by done.
  set_unfold in Hs. destruct_or!; subst suffix; cbv -[hole_value process_url String.append];
    rewrite Hn, Hp; by rewrite ?str_app_assoc, ?str_app_nil_r.
Qed.

(** What ends a name ends an escape in it. *)
Lemma process_url_app s c t :
  is_hex c = false → process_url true (s +:+ String c t) = process_url true s +:+ process_url true (String c t).
Proof.
  intros Hc. induction s as [|a s IH]; [done|]. rewrite str_app_cons.
  cbn [process_url]. cbn [process_url] in IH. rewrite IH, <- str_app_assoc. f_equal.
  destruct s as [|d [|e s]]; [|by rewrite str_app_cons, str_app_nil_l, Hc, andb_false_r|done].
  rewrite str_app_nil_l, Hc. by destruct t.
Qed.

(** The target of the edit form, which is one datum. *)
Lemma action_shown name :
  hole_value (CAttr "form" (InURL UrlNone)) (basePath +:+ "/roles/" +:+ name +:+ "/edit") = role_link name "/edit".
Proof.
  change (hole_value (CAttr "form" (InURL UrlNone))) with (λ s, shown (process_url true (url_filter s))). cbv beta.
  change (basePath +:+ "/roles/" +:+ name +:+ "/edit") with (String "/" ("portal/roles/" +:+ name +:+ "/edit")).
  rewrite url_filter_path, process_url_shown.
  change (process_url true (String "/" ("portal/roles/" +:+ name +:+ "/edit")))
    with ("/portal/roles/" +:+ process_url true (name +:+ "/edit")).
  change "/edit" with (String "/" "edit"). by rewrite process_url_app.
Qed.

(** The layout around a body: the sidebar leads to no role. *)
Definition layout : list node := Eval vm_compute in default [] (t ← assoc pages "roles"; Lookup t "base").

(** A part without addresses of roles. *)
Definition aside (w : env → result (list piece)) (e : env) : Prop :=
  ∃ k, yields hole_value w e k ∧ List.filter is_role_address k = [].

Lemma aside_cut n d t ns e : aside (run d t (take n ns)) e → aside (run d t (drop n ns)) e → aside (run d t ns) e.
Proof.
  intros (k & Hk & Fk) (l & Hl & Fl). exists (k ++ l). split; [by apply yields_cut with n|].
  by rewrite List.filter_app, Fk, Fl.
Qed.

Ltac read_aside := eexists; split; [read_off|reflexivity].

Section Sidebar.
Context {RS HS : Type} (srv : PServer RS HS) (r : PRequest) (d : nat) (t : templates) (rest : list (string * value)).

Abbreviation b := (base_data srv r "roles") (only parsing).
Abbreviation e := (GoTemplate.start (VStruct (base_fields b ++ rest))) (only parsing).

(** Which pages it names depends on what is configured. *)
Lemma nav_aside : aside (run (S d) t (take 3 (drop 7 layout))) e.
Proof using Type.
  unfold base_data, landingPages. generalize (default (default "" (BasicUser r)) (session_email r)) as u.
  generalize (HasOIDC srv) as o. generalize (has_roles srv), (has_hosts srv), (HasRevocations srv), (HasAudit srv).
  intros [] [] [] [] o u; read_aside.
Qed.

(** The user, and the button to sign out. *)
Lemma user_aside : aside (run (S d) t (take 5 (drop 10 layout))) e.
Proof using Type.
  unfold base_data. generalize [("Access", take 2 (landingPages srv)); ("Operations", take 2 (drop 2 (landingPages srv)))] as nav.
  generalize (default (default "" (BasicUser r)) (session_email r)) as u. generalize (HasOIDC srv) as o.
  intros [] [|c u] nav; read_aside.
Qed.

Lemma sidebar_aside : aside (run (S d) t (take 8 (drop 7 layout))) e.
Proof using Type. apply (aside_cut 3); [apply nav_aside|apply user_aside]. Qed.
End Sidebar.

(** A page of the layout: the titles before the sidebar and before the body are its
    own. *)
Definition framed (t : templates) (v : value) : Prop :=
  Lookup t "page" = Some [NTemplate "base" (Field [])] ∧ Lookup t "base" = Some layout ∧
  ∀ d, aside (run (S d) t (take 17 layout)) (GoTemplate.start v).

Lemma page_reads t v body ls :
  framed t v → Lookup t "body" = Some body →
  (∀ d, yields hole_value (run d t body) (GoTemplate.start v) ls) →
  ∃ ps k, exec portal_funcs maxExecDepth t "page" v = Ok ps ∧ reads hole_value ps (k ++ ls) ∧
    List.filter is_role_address k = [].
Proof.
  intros (Hpage & Hbase & Hpre) Hbody Hls.
  assert (∃ d, maxExecDepth = S (S (S (S d)))) as [d ->].
  { exists (maxExecDepth - 4)%nat. pose proof (proj1 (Nat.leb_le 4 maxExecDepth) ltac:(by vm_compute)). lia. }
  destruct (Hpre (S d)) as (k & Hk & Hf).
  assert (yields hole_value (run (S (S d)) t layout) (GoTemplate.start v) (k ++ ls)) as (ps & E & Hps).
  { apply (yields_cut _ _ 17); [exact Hk|]. rewrite <- (app_nil_r ls).
    apply (yields_cut _ _ 1 _ _ _ ls []); [|read_off]. apply yields_one.
    apply yields_call with (v := v); [done|]. destruct (Hls (S d)) as (ps & E & H). exists ps. split; [|done].
    cbn [exec]. by rewrite Hbody. }
  assert (yields hole_value (run (S (S (S d))) t [NTemplate "base" (Field [])]) (GoTemplate.start v) (k ++ ls))
    as (qs & Eq & Hqs).
  { apply yields_one, yields_call with (v := v); [done|]. exists ps. split; [|done].
    cbn [exec]. by rewrite Hbase. }
  exists qs, k. split; [|done]. cbn [exec]. by rewrite Hpage.
Qed.

(** The addresses of a page, from those of its body. *)
Lemma page_addresses p name v t body ls :
  page_data p = Some (name, v) → assoc pages name = Some t → framed t v → Lookup t "body" = Some body →
  (∀ d, yields hole_value (run d t body) (GoTemplate.start v) ls) →
  ∃ h l, page_html p = Ok h ∧ tokenize h = Some l ∧ role_addresses l = List.filter is_role_address ls.
Proof.
  intros Hp Ht Hf Hb Hls. destruct (page_reads _ _ _ _ Hf Hb Hls) as (ps & k & E & Hr & Hk).
  destruct (page_runs _ _ _ Hp) as (ps' & h & Eps & Hh & Htok & [l Hl]).
  unfold page_pieces in Eps. rewrite Hp, Ht, E in Eps. injection Eps as <-.
  exists h, l. split; [done|]. split; [congruence|].
  unfold role_addresses. rewrite (reads_tokens _ _ _ _ Hr Hl), List.filter_app, Hk. done.
Qed.

(** The pages whose body is cut above, and the form. *)
Section Pages.
Context {RS HS : Type} (srv : PServer RS HS) (r : PRequest).

Abbreviation b := (base_data srv r "roles") (only parsing).

Ltac frame_page :=
  eexists; (split; [reflexivity|]); (split; [reflexivity|]); (split; [reflexivity|]); intros d;
  apply (aside_cut 7); [read_aside|]; apply (aside_cut 8); [apply sidebar_aside|read_aside].

Lemma roles_framed roles : ∃ t, assoc pages "roles" = Some t ∧ framed t (rolesIndexData b roles).
Proof using Type. frame_page. Qed.

Lemma role_framed name role token :
  ∃ t, assoc pages "role_detail" = Some t ∧ framed t (roleDetailData b name (Some role) token).
Proof using Type. frame_page. Qed.

Lemma form_framed action submit token name F :
  ∃ t, assoc pages "role_form" = Some t ∧ framed t (roleFormData b "edit" action submit "" token name F).
Proof using Type. frame_page. Qed.

(** Each address below the list is one. *)
Lemma role_link_shown name suffix m : is_role_address (m, role_link name suffix) = true.
Proof using Type.
  unfold is_role_address, role_link. change "/portal/roles/" with ("/portal/roles" +:+ "/").
  cbn [snd]. rewrite <- str_app_assoc. apply prefix_app.
Qed.

(** The list: the form for a new role, then each role's page. *)
Lemma roles_page_addresses roles :
  ∃ h l, page_html (PRoles b roles) = Ok h ∧ tokenize h = Some l ∧
    role_addresses l = ("GET", "/portal/roles/new") :: ((λ x, ("GET", role_link (Policy.Name x) "")) <$> roles).
Proof using Type.
  destruct (roles_framed roles) as (t & Ht & Hf).
  destruct (page_addresses (PRoles b roles) "roles" _ t roles_body
    (("GET", new_link hole_value) :: ((λ x, ("GET", printed_link hole_value "a" "href" (Policy.Name x) "")) <$> roles))
    eq_refl Ht Hf) as (h & l & Hh & Hl & E).
  - injection Ht as <-. reflexivity.
  - intros d. apply roles_body_yields.
  - exists h, l. split_and!; [done|done|]. rewrite E. clear E. change (new_link hole_value) with "/portal/roles/new".
    cbn [List.filter]. change (is_role_address ("GET", "/portal/roles/new")) with true. cbv iota. f_equal.
    clear. induction roles as [|x roles IH]; [done|]. rewrite !fmap_cons. cbn [List.filter].
    rewrite printed_link_role by set_solver. by rewrite role_link_shown, IH.
Qed.

(** The page of a role: its edit form, and the button that deletes it. *)
Lemma role_page_addresses name role token :
  ∃ h l, page_html (PRoleDetail b name (Some role) token) = Ok h ∧ tokenize h = Some l ∧
    role_addresses l = [("GET", role_link (Policy.Name role) "/edit"); ("POST", role_link (Policy.Name role) "/delete")].
Proof using Type.
  destruct (role_framed name role token) as (t & Ht & Hf).
  destruct (page_addresses (PRoleDetail b name (Some role) token) "role_detail" _ t role_body
    [("GET", list_link hole_value); ("GET", printed_link hole_value "a" "href" (Policy.Name role) "/edit");
     ("POST", printed_link hole_value "form" "action" (Policy.Name role) "/delete")] eq_refl Ht Hf)
    as (h & l & Hh & Hl & E).
  - injection Ht as <-. reflexivity.
  - intros d. apply role_body_yields.
  - exists h, l. split_and!; [done|done|]. rewrite E. clear E.
    rewrite (printed_link_role "a" "href"), (printed_link_role "form" "action") by set_solver.
    change (list_link hole_value) with "/portal/roles". cbn [List.filter].
    change (is_role_address ("GET", "/portal/roles")) with false. by rewrite !role_link_shown.
Qed.
(** The edit form: where it posts to. *)
Lemma form_page_addresses name submit token F :
  ∃ h l, page_html (PRoleForm b "edit" ("/roles/" +:+ name +:+ "/edit") submit "" token name F) = Ok h ∧
    tokenize h = Some l ∧ role_addresses l = [("POST", role_link name "/edit")].
Proof using Type.
  set (action := "/roles/" +:+ name +:+ "/edit"). destruct (form_framed action submit token name F) as (t & Ht & Hf).
  destruct (page_addresses (PRoleForm b "edit" action submit "" token name F) "role_form" _ t form_body
    [("GET", list_link hole_value); ("POST", hole_value (CAttr "form" (InURL UrlNone)) (basePath +:+ action));
     ("GET", list_link hole_value)] eq_refl Ht Hf) as (h & l & Hh & Hl & E).
  - injection Ht as <-. reflexivity.
  - intros d. apply form_body_yields.
  - exists h, l. split_and!; [done|done|]. rewrite E. clear E. subst action. rewrite action_shown.
    change (list_link hole_value) with "/portal/roles". cbn [List.filter].
    change (is_role_address ("GET", "/portal/roles")) with false. by rewrite role_link_shown.
Qed.
End Pages.
