(* ===== verification/ReconcileLive.v ===== *)
(** * ReconcileLive: reconciling while the portal is in use

    [certd reconcile] is a process of its own beside the server: it reads a table,
    diffs, and then writes row by row, each write a transaction of its own, while
    administrators edit the same tables in the portal.  Here the run is cut at those
    statements ([reconcile_turns], on [Threads]) and interleaved with any portal
    requests; [reconcile_alone] says that undisturbed it is [Reconcile.runReconcile].

    What holds in every schedule: a row that was the portal's when the run began is
    not touched, and where the portal stays away from what the files name and the
    config owns, the run converges as if it were alone.  [late_prune_takes_portal_row]
    and [late_update_takes_portal_row] show the rest: the writes do not look at
    whether the row is still the one that was read. *)

From S2P Require Import Prelude GoText GoTime Keyed Policy Krl X509Engine Mtls Json Store Sql SqlTable SqlStore SqlFacts SqlCorrect Http Api ApiRest Reconcile PortalForm Portal PortalStore Threads.

(** ** The run, statement by statement *)
Section Turns.
Context {KS : Type}.
Abbreviation W := (PWorld (db SqlStore.Roles.table) (db SqlStore.Principals.table) KS) (only parsing).

(** What a request or a run ends with. *)
Inductive outcome :=
  | Answered (resp : PResponse)
  | Reconciled (applied : option (Applied * Applied)).

Abbreviation T A := (thread W error A) (only parsing).

Definition as_out {A} (r : result A) : error + A := match r with Ok a => inr a | Err e => inl e end.
Definition with_role_db {A} (m : M (db SqlStore.Roles.table) A) : Handler W error A := λ w,
  let '(r, s) := m (p_roles w) in (as_out r, mkPWorld s (p_hosts w) (p_krl w) (ring w)).
Definition with_host_db {A} (m : M (db SqlStore.Principals.table) A) : Handler W error A := λ w,
  let '(r, s) := m (p_hosts w) in (as_out r, mkPWorld (p_roles w) s (p_krl w) (ring w)).

Section Loop.
Context {V : Type} (turn_of : Applied → write V → Handler W error unit).

(** [Reconcile.apply_each], a turn for each write. *)
Fixpoint write_turns (l : list (write V)) (ap : Applied) : T Applied :=
  match l with
  | [] => tret ap
  | o :: l => tdo atomic (turn_of ap o);; write_turns l (count ap o)
  end.
End Loop.

(** One write, its error as the command reports it. *)
Definition one_write {S V} (key : V → string) (noun phase : string) (wr : Writer S V) (clock : Applied → time)
    (ap : Applied) (o : write V) : M S unit := λ s,
  match exec_write key wr clock ap o s with
  | (Err e, s') => (Err (ErrWrap phase (write_error key noun o e) ""), s')
  | ok => ok
  end.

Section Run.
Context (dl : Dialect) (env : string → string) (ReadFile : string → result string).
Context (decode_roles : string → result (list Role)) (decode_entries : string → result (list principalEntry)).
Context (clock : Applied → time).

Definition role_turn (ap : Applied) (o : write Role) : Handler W error unit :=
  with_role_db (one_write Policy.Name "role" "apply roles: " (Reconcile.role_writer (role_store dl)) clock ap o).
Definition principal_turn (ap : Applied) (o : write Principal) : Handler W error unit :=
  with_host_db (one_write MatchedSAN "principal" "apply principals: " (principal_writer (principal_store dl)) clock ap o).

(** [runReconcile]: a turn for the reading of each table, one for each write. *)
Definition reconcile_turns (o : reconcileOpts) : T (option (Applied * Applied)) :=
  if o_rolesOnly o && o_principalsOnly o
  then Done (inl (ErrNew "--roles-only and --principals-only are mutually exclusive")) else
  rp <-t atomic (with_role_db (role_plan env ReadFile decode_roles (role_store dl) o));;
  pp <-t atomic (with_host_db (principal_plan env ReadFile decode_entries (principal_store dl) o));;
  if negb (o_apply o) then tret None else
  ra <-t write_turns role_turn (plan_writes (o_prune o) rp) (mkApplied 0 0 0);;
  pa <-t write_turns principal_turn (plan_writes (o_prune o) pp) (mkApplied 0 0 0);;
  tret (Some (ra, pa)).

(** *** Alone, it is the command *)

Definition swap_roles (w : W) s : W := mkPWorld s (p_hosts w) (p_krl w) (ring w).
Definition swap_hosts (w : W) s : W := mkPWorld (p_roles w) s (p_krl w) (ring w).

Lemma role_writes_alone l ap (w : W) :
  alone (write_turns role_turn l ap) w =
  match apply_each Policy.Name "role" (Reconcile.role_writer (role_store dl)) clock l ap (p_roles w) with
  | (_, Some e, s) => (inl (ErrWrap "apply roles: " e ""), swap_roles w s)
  | (ap, None, s) => (inr ap, swap_roles w s)
  end.
Proof.
  revert ap w. induction l as [|o l IH]; intros ap w; cbn [write_turns apply_each]; [by destruct w|].
  rewrite alone_bind. unfold hbind. rewrite alone_atomic. unfold role_turn, with_role_db, one_write.
  destruct (exec_write _ _ _ ap o (p_roles w)) as [[[]|e] s]; simpl; [|done]. by rewrite IH.
Qed.

Lemma principal_writes_alone l ap (w : W) :
  alone (write_turns principal_turn l ap) w =
  match apply_each MatchedSAN "principal" (principal_writer (principal_store dl)) clock l ap (p_hosts w) with
  | (_, Some e, s) => (inl (ErrWrap "apply principals: " e ""), swap_hosts w s)
  | (ap, None, s) => (inr ap, swap_hosts w s)
  end.
Proof.
  revert ap w. induction l as [|o l IH]; intros ap w; cbn [write_turns apply_each]; [by destruct w|].
  rewrite alone_bind. unfold hbind. rewrite alone_atomic. unfold principal_turn, with_host_db, one_write.
  destruct (exec_write _ _ _ ap o (p_hosts w)) as [[[]|e] s]; simpl; [|done]. by rewrite IH.
Qed.

Lemma reconcile_alone o (w : W) :
  alone (reconcile_turns o) w =
  let '(r, (s1, s2)) := runReconcile env ReadFile decode_roles decode_entries (role_store dl) (principal_store dl)
                          clock o (p_roles w, p_hosts w) in
  (as_out r, swap_hosts (swap_roles w s1) s2).
Proof.
  unfold reconcile_turns, runReconcile, ApplyRoles, ApplyPrincipals. destruct (_ && _); [by destruct w|].
  rewrite alone_bind. unfold hbind at 1. rewrite alone_atomic. unfold with_role_db.
  destruct (role_plan _ _ _ _ o (p_roles w)) as [[rp|e] s1]; [|by destruct w]. cbn [as_out].
  rewrite alone_bind. unfold hbind at 1. rewrite alone_atomic. unfold with_host_db.
  destruct (principal_plan _ _ _ _ o _) as [[pp|e] s2]; [|done]. cbn [as_out].
  destruct (negb (o_apply o)); [done|]. rewrite alone_bind. unfold hbind at 1.
  rewrite role_writes_alone, apply_writes. simpl p_roles.
  destruct (apply_each _ _ _ _ _ _ s1) as [[ra [e|]] s1']; [done|].
  rewrite alone_bind. unfold hbind. rewrite principal_writes_alone, apply_writes. simpl p_hosts.
  by destruct (apply_each _ _ _ _ _ _ s2) as [[pa [e|]] s2'].
Qed.
End Run.
End Turns.

(** ** What a portal request does to the tables *)

Definition typed_role (r : PRequest) : option Role :=
  match Body r with
  | Ok f => match (parseRoleForm (Ok f)).1 with Ok role => Some role | Err _ => None end
  | Err _ => None
  end.

(** The names whose rows a request can write. *)
Definition names_written (rt : route) (r : PRequest) : list string :=
  let typed := match typed_role r with Some role => [Policy.Name role] | None => [] end in
  match rt with
  | PostRoleNew => typed
  | PostRoleEdit => PathName r :: typed
  | PostRoleDelete => [PathName r]
  | _ => []
  end.

Definition op_names (op : role_op) : list string :=
  match op with RAdd _ r _ => [Policy.Name r] | RReplace _ old r _ => [old; Policy.Name r] | RDelete k => [k] end.
Definition op_portal (op : role_op) : Prop :=
  match op with RAdd _ _ src | RReplace _ _ _ src => src = SourcePortal | RDelete _ => True end.

(** The rows of the names in [K] stay as they were, and no row is new but the
    portal's. *)
Definition spares (K : string → Prop) (s s' : db SqlStore.Roles.table) : Prop :=
  roles_ok (data s) →
  roles_ok (data s') ∧ (∀ e, injected e s' → injected e s) ∧
  (∀ k, K k → roles_view (data s') !! k = roles_view (data s) !! k) ∧
  (∀ k rec, roles_view (data s') !! k = Some rec →
     roles_view (data s) !! k = Some rec ∨ RecSource rec = SourcePortal).

(** What reading a table does to it. *)
Definition reads {X} (s s' : db X) : Prop := data s' = data s ∧ ∀ e, injected e s' → injected e s.

#[export] Instance spares_preorder K : PreOrder (spares K).
Proof.
  split; [intros s Hs; split_and!; auto|]. intros s1 s2 s3 H1 H2 Hs.
  destruct (H1 Hs) as (Hs2 & Hi2 & Hk2 & Hr2). destruct (H2 Hs2) as (Hs3 & Hi3 & Hk3 & Hr3).
  split_and!; [done|by auto|intros k Hk; by rewrite Hk3, Hk2|]. intros k rec Hr.
  destruct (Hr3 k rec Hr) as [Hr'|]; [by apply Hr2|by right].
Qed.

#[export] Instance reads_preorder {X} : PreOrder (reads (X:=X)).
Proof. split; [by intros s|]. intros s1 s2 s3 [D1 I1] [D2 I2]. split; [congruence|auto]. Qed.

Lemma reads_spares K s s' : reads s s' → spares K s s'.
Proof. intros [Hd Hi] Hs. rewrite Hd. split_and!; auto. Qed.

Lemma reads_stmt {X A} (f : M X A) d r d' : (∀ s, (f s).2 = s) → stmt f d = (r, d') → reads d d'.
Proof.
  intros Hf E. split; [by eapply stmt_reads|]. intros e. apply injected_suffix. by apply stmt_cases in E as [? _].
Qed.

Lemma reads_all dl s : reads s (rs_All _ (role_store dl) s).2.
Proof.
  simpl. unfold SqlStore.Roles.All. destruct (select_all _ dl s) as [[rows|e] d'] eqn:E;
    by eapply reads_stmt in E.
Qed.

Lemma reads_find dl name s : reads s (rs_ByName _ (role_store dl) name s).2.
Proof.
  simpl. unfold SqlStore.Roles.ByName, find_key.
  destruct (select_key _ name s) as [[[row|]|e] d'] eqn:E; eapply reads_stmt in E; try done.
  by destruct (rbind _ _).
Qed.

Lemma reads_all_principals dl s : reads s (ps_All _ (principal_store dl) s).2.
Proof.
  simpl. unfold SqlStore.Principals.All. destruct (select_all _ dl s) as [[rows|e] d'] eqn:E;
    by eapply reads_stmt in E.
Qed.

Lemma spec_role_names op m k : k ∉ op_names op → (spec_role op m).2 !! k = m !! k.
Proof.
  destruct op as [now r src|now old r src|name]; cbn [spec_role op_names op_portal];
    unfold spec_add, spec_replace, spec_delete, SqlStore.Roles.key, SqlStore.Roles.record; cbn [RecRole]; intros Hk.
  - destruct (str_empty _); [done|]. destruct (m !! Policy.Name r); [done|].
    apply lookup_insert_ne. intros <-. apply Hk. by left.
  - destruct (str_empty _); [done|]. destruct (m !! old); [|done]. destruct (_ && _); [done|]. simpl.
    rewrite lookup_insert_ne, lookup_delete_ne; [done|..]; intros <-; apply Hk; [by left|by right; left].
  - destruct (m !! name); [|done]. apply lookup_delete_ne. intros <-. apply Hk. by left.
Qed.

Lemma spec_role_sources op m k rec :
  op_portal op → (spec_role op m).2 !! k = Some rec → m !! k = Some rec ∨ RecSource rec = SourcePortal.
Proof.
  assert (∀ (m' : gmap string RoleRecord) j (r : Role) src, src = SourcePortal →
    <[j := mkRoleRecord r (NormalizeSource src)]> m' !! k = Some rec → m' !! k = Some rec ∨ RecSource rec = SourcePortal) as Hins.
  { intros m' j r src -> [[_ <-]|[_ ?]]%lookup_insert_Some; [by right|by left]. }
  destruct op as [now r src|now old r src|name]; cbn [spec_role op_names op_portal];
    unfold spec_add, spec_replace, spec_delete, SqlStore.Roles.key, SqlStore.Roles.record; cbn [RecRole]; intros Hp.
  - destruct (str_empty _); [by left|]. destruct (m !! Policy.Name r); [by left|]. by apply Hins.
  - destruct (str_empty _); [by left|]. destruct (m !! old); [|by left]. destruct (_ && _); [by left|].
    intros H. destruct (Hins _ _ _ _ Hp H) as [[_ ?]%lookup_delete_Some|?]; [by left|by right].
  - destruct (m !! name); [|by left]. cbn [snd]. intros [_ ?]%lookup_delete_Some. by left.
Qed.

Lemma edit_spares (K : string → Prop) op s :
  role_op_ok op → op_portal op → (∀ k, K k → k ∉ op_names op) → spares K s (exec_role op s).2.
Proof.
  intros Hop Hp HK Hs. destruct (exec_role op s) as [r s'] eqn:E. cbn [snd].
  pose proof (exec_role_suffix _ _ _ _ E) as Hf.
  destruct (exec_role_refines op Hop s r s' Hs E) as [Hok H]. fold roles_view in H.
  assert (roles_view (data s') = roles_view (data s) ∨
          roles_view (data s') = (spec_role op (roles_view (data s))).2) as Hv.
  { destruct H as [H|(e & _ & _ & [H|[_ H]])]; [right; by rewrite <- H|by left|by right]. }
  split_and!; [done|intros e; by apply injected_suffix| |].
  - intros k Hk. destruct Hv as [->|Hv]; [done|]. rewrite Hv. by apply spec_role_names, HK.
  - intros k rec. destruct Hv as [->|Hv]; [by left|]. rewrite Hv. by apply spec_role_sources.
Qed.

Section Requests.
Context {KS : Type} `{SessionLib} `{KrlStore KS}.
Abbreviation W := (PWorld (db SqlStore.Roles.table) (db SqlStore.Principals.table) KS) (only parsing).
Context (dl : Dialect) (srv : PServer (db SqlStore.Roles.table) (db SqlStore.Principals.table)).
Hypothesis sourced : RoleSource srv = SourcedRoles (role_store dl).
Hypothesis hosted : ∀ all, HostSource srv = Some all → all = ps_All _ (principal_store dl).

(** A request to the portal, with the readings it makes. *)
Record visit := mkVisit {
  v_now : time;
  v_fresh : result Session;
  v_order : Role → list string;
  v_route : route;
  v_request : PRequest;
}.

(** A request reaches the role table in one call. *)
Definition portal_turns (v : visit) : thread W error outcome := atomic (λ w,
  let '(resp, w') := serve (dispatch srv (v_now v) (v_fresh v) (v_order v) (v_route v) (v_request v)) w in
  (inr (Answered resp), w')).

(** What a form decodes to is valid UTF-8. *)
Definition visit_ok (v : visit) : Prop := ∀ role, typed_role (v_request v) = Some role → role_ok role.
Definition avoids (K : string → Prop) (v : visit) : Prop :=
  ∀ k, K k → k ∉ names_written (v_route v) (v_request v).

(** The relation on the portal's state in which a request leaves the tables. *)
Definition portal_step (K : string → Prop) (w w' : W) : Prop :=
  spares K (p_roles w) (p_roles w') ∧ reads (p_hosts w) (p_hosts w').

Abbreviation safe K := (keeps (RS:=db SqlStore.Roles.table) (HS:=db SqlStore.Principals.table) (KS:=KS)
  (spares K) reads free) (only parsing).

Lemma safe_try {A} K (m : result A) f : safe K (try m f).
Proof. intros w out w'. unfold try. destruct m; intros [= <- <-]; apply same_refl; apply _. Qed.

Lemma safe_form {A} K r (k : (string → string) → Handler W PResponse A) :
  (∀ f, Body r = Ok f → safe K (k f)) → safe K (hbind (posted_form r) k).
Proof.
  intros Hk w out w'. unfold posted_form, hbind, try. destruct (Body r) as [f|e].
  - destruct (checkCSRF r f); simpl; [by apply Hk|intros [= <- <-]; apply same_refl; apply _].
  - intros [= <- <-]. apply same_refl; apply _.
Qed.

Lemma safe_write {A} K (m : M (db SqlStore.Roles.table) unit) op (k : result unit → Handler W PResponse A) :
  (∀ s, m s = exec_role op s) → role_op_ok op → op_portal op → (∀ j, K j → j ∉ op_names op) →
  (∀ res, safe K (k res)) → safe K (hbind (on_roles m) k).
Proof.
  intros Hm Hop Hp HK Hk. apply same_bind; [apply _..| |done]. apply same_on_roles; [apply _..|].
  intros s. rewrite Hm. by apply edit_spares.
Qed.

Ltac safely := repeat (apply same_bind; [apply _..|apply safe_try|intros ?]); apply same_ret; apply _.

(** The form and what follows it, for a route that writes the role typed. *)
Lemma safe_edit K r (rt : route) (wr : Role → M (db SqlStore.Roles.table) unit) (op : Role → role_op) err :
  (∀ role, typed_role r = Some role → role_ok role) →
  (∀ role s, wr role s = exec_role (op role) s) → (∀ role, role_ok role → role_op_ok (op role)) →
  (∀ role, op_portal (op role)) →
  (∀ role j, typed_role r = Some role → K j → j ∉ op_names (op role)) →
  safe K (f <-h posted_form r;;
          let '(parsed, fields) := parseRoleForm (Ok f) in
          role <-h try parsed (err fields);;
          res <-h on_roles (wr role);;
          _ <-h try res (err fields);;
          hret (redirect (basePath +:+ "/roles/" +:+ Policy.Name role))).
Proof.
  intros Hrole Hwr Hop Hp HK. apply safe_form. intros f Hf. destruct (parseRoleForm (Ok f)) as [parsed fields] eqn:Ep.
  destruct parsed as [role|e]; [|intros w out w' [= <- <-]; apply same_refl; apply _].
  assert (typed_role r = Some role) as Ht by (unfold typed_role; by rewrite Hf, Ep).
  change (safe K (res <-h on_roles (wr role);; _ <-h try res (err fields);;
    hret (redirect (basePath +:+ "/roles/" +:+ Policy.Name role)))).
  eapply safe_write; [by apply Hwr|by apply Hop, Hrole|done|intros j; by apply HK|].
  intros res. safely.
Qed.

Lemma dispatch_safe K v : visit_ok v → avoids K v →
  safe K (dispatch srv (v_now v) (v_fresh v) (v_order v) (v_route v) (v_request v)).
Proof using sourced hosted.
  destruct v as [now fresh order rt r]. unfold visit_ok, avoids. cbn [v_now v_fresh v_order v_route v_request].
  intros Hok HK. destruct (is_post rt) eqn:Hpost; cycle 1.
  { apply get_keeps; [apply _..| |done]. unfold reads_keep. rewrite sourced. split_and!; [..|done].
    - intros s. split; [apply reads_spares, reads_all|intros name; apply reads_spares, reads_find].
    - pose proof hosted as Hh. destruct (HostSource srv) as [all|]; [|done]. rewrite (Hh all eq_refl). intros s. apply reads_all_principals. }
  destruct rt; try discriminate; cbn [dispatch];
    unfold handleRoleCreate, handleRoleUpdate, handleRoleDelete, handleRevocationsCreate, with_writer, roleWriter;
    rewrite ?sourced; cbn [w_Add w_Replace w_Delete].
  - apply (safe_edit K r PostRoleNew _ (λ role, RAdd now role SourcePortal)); try done.
    intros role j Ht Hj. specialize (HK j Hj). cbn in HK. rewrite Ht in HK. exact HK.
  - apply (safe_edit K r PostRoleEdit _ (λ role, RReplace now (PathName r) role SourcePortal)); try done.
    intros role j Ht Hj. specialize (HK j Hj). cbn in HK. rewrite Ht in HK. exact HK.
  - apply safe_form. intros f _. eapply (safe_write K _ (RDelete (PathName r))); [done|done|done|done|].
    intros res. safely.
  - destruct (negb _); [apply same_reply; apply _|]. apply safe_form. intros f _.
    assert (∀ A (g : KS → A * KS), safe K (on_krl g)) as Hkrl by (intros A g; apply same_on_krl; [apply _..|done]).
    assert (∀ msg a b c, safe K (renderRevocationError srv now fresh r msg a b c)) as Herr.
    { intros msg a b c. apply same_bind; [apply _..|apply Hkrl|intros ?; apply same_ret; apply _]. }
    destruct (if str_empty _ then _ else _) as [serial|e]; [|apply Herr]. destruct (_ && _); [apply Herr|].
    apply same_bind; [apply _..|apply Hkrl|intros [[]|e]; [apply same_ret; apply _|apply Herr]].
Qed.
End Requests.

(** ** A plan carried out on rows that nobody else writes *)
Section Plan.
Context {V R : Type} (key : V → string) (val : R → V) (src : R → string).
Context (equal : V → V → bool) (skip : V → bool) (vok : V → Prop) (mk : V → R).
Context (errKey errExists errMissing : error).
Hypothesis val_mk : ∀ v, val (mk v) = v.

(** The rows under the keys in [K]. *)
Definition part (K : gset string) (m : gmap string R) : gmap string R := filter (λ x, x.1 ∈ K) m.

(** The keys a run may write: those the file names, those of the config's rows. *)
Definition reserved (file : list V) (m : gmap string R) : gset string :=
  in_file key skip file ∪ dom (filter (λ x, src x.2 = SourceConfig) m).

Definition config_within (K : gset string) (m : gmap string R) : Prop :=
  ∀ k rec, m !! k = Some rec → src rec = SourceConfig → k ∈ K.

Lemma lookup_part K m k : k ∈ K → part K m !! k = m !! k.
Proof.
  intros Hk. apply option_eq. intros rec. unfold part. rewrite map_lookup_filter_Some. simpl.
  split; [by intros [? _]|by intros ?].
Qed.

Lemma lookup_part_out K m k : k ∉ K → part K m !! k = None.
Proof. intros Hk. apply map_lookup_filter_None_2. right. by intros rec _. Qed.

Lemma part_ext K m m' : (∀ k, k ∈ K → m !! k = m' !! k) → part K m = part K m'.
Proof.
  intros Hm. apply map_eq. intros k. destruct (decide (k ∈ K)) as [Hk|Hk].
  - rewrite !lookup_part by done. by apply Hm.
  - by rewrite !lookup_part_out.
Qed.

Lemma part_eq K m m' k : part K m = part K m' → k ∈ K → m !! k = m' !! k.
Proof. intros He Hk. rewrite <- (lookup_part K m), <- (lookup_part K m') by done. by rewrite He. Qed.

Lemma reserved_config file m : config_within (reserved file m) m.
Proof.
  intros k rec Hk Hs. unfold reserved. apply elem_of_union. right. apply elem_of_dom. exists rec.
  by apply map_lookup_filter_Some_2.
Qed.

(** A write, on the rows it is about. *)
Definition put (m : gmap string R) (x : write V) : gmap string R :=
  match effect mk x with Some rec => <[write_key key x := rec]> m | None => delete (write_key key x) m end.

Lemma lookup_put m x k : put m x !! k = if decide (k = write_key key x) then effect mk x else m !! k.
Proof.
  unfold put. destruct (effect mk x); destruct (decide (k = write_key key x)) as [->|Hne];
    by rewrite ?lookup_insert_eq, ?lookup_delete_eq, ?lookup_insert_ne, ?lookup_delete_ne by done.
Qed.

Lemma enabled_part K m x : write_key key x ∈ K → enabled key (part K m) x ↔ enabled key m x.
Proof. intros Hk. destruct x; simpl in *; by rewrite lookup_part. Qed.

(** What a write enabled on those rows does to the table. *)
Lemma write_part K m x :
  write_key key x ∈ K → enabled key (part K m) x →
  let '(r, m') := spec_write key val mk errKey errExists errMissing x m in
  r = Ok tt ∧ part K m' = put (part K m) x ∧ (config_within K m → config_within K m').
Proof using val_mk.
  intros Hk He%enabled_part; [|done].
  destruct (enabled_step key val mk val_mk errKey errExists errMissing m x He) as [Hr Hl].
  destruct (spec_write _ _ _ _ _ _ x m) as [r m']. simpl in *. split_and!; [done| |].
  - apply map_eq. intros k. rewrite lookup_put. destruct (decide (k ∈ K)) as [Hin|Hout].
    + rewrite !lookup_part by done. apply Hl.
    + rewrite !lookup_part_out by done. by case_decide; subst.
  - intros Hc k rec Hrec Hs. rewrite Hl in Hrec. case_decide; [by subst|]. by apply (Hc k rec).
Qed.

(** The writes [l] take the rows [m] of [K] to [T]. *)
Record leads (K : gset string) (T : string → option R) (l : list (write V)) (m : gmap string R) : Prop := {
  l_distinct : NoDup (write_key key <$> l);
  l_ok : Forall (write_ok vok) l;
  l_within : Forall (λ x, write_key key x ∈ K) l;
  l_enabled : Forall (enabled key m) l;
  l_effect : ∀ x, x ∈ l → effect mk x = T (write_key key x);
  l_rest : ∀ k, k ∈ K → k ∉ write_key key <$> l → m !! k = T k;
}.

Lemma leads_length K T l m : leads K T l m → (length l ≤ size K)%nat.
Proof.
  intros [Hnd _ Hw _ _ _]. rewrite <- (length_fmap (write_key key) l), <- (size_list_to_set (C:=gset string)) by done.
  apply subseteq_size. intros k. rewrite elem_of_list_to_set. intros (x & -> & Hx)%list_elem_of_fmap.
  rewrite Forall_forall in Hw. by apply Hw.
Qed.

Lemma leads_step K T x l m : leads K T (x :: l) m → leads K T l (put m x).
Proof.
  intros [Hnd Hok Hw He Hx Hr]. rewrite fmap_cons in *. apply NoDup_cons in Hnd as [Hn Hnd].
  inversion_clear Hok. inversion_clear Hw as [|? ? Hkx Hkl]. inversion_clear He as [|? ? Hex Hel].
  constructor; [done|done|done| |by intros; apply Hx; right|].
  - apply Forall_forall. intros y Hy. rewrite Forall_forall in Hel. specialize (Hel y Hy).
    assert (write_key key y ≠ write_key key x) as Hne.
    { intros Heq. apply Hn. rewrite <- Heq. by apply list_elem_of_fmap_2. }
    destruct y; simpl in *; rewrite lookup_put; by rewrite decide_False.
  - intros k Hk Hnk. rewrite lookup_put. case_decide as Hkx'; [subst; apply Hx; by left|].
    apply Hr; [done|]. by apply not_elem_of_cons.
Qed.

(** The plan of a diff, for the rows the reading found. *)
Lemma planned_leads file recs adopt prune K m m0 :
  file_ok key skip vok file → keys_unique (rec_key key val) recs → to_map (rec_key key val) recs = m →
  in_file key skip file ⊆ K → config_within K m → part K m = part K m0 →
  leads K (target key val src equal skip mk file adopt prune m0)
    (plan_writes prune (diff key val src equal skip file recs adopt)) (part K m).
Proof.
  intros Hf Hu Hm HK Hc He.
  assert (∀ k, k ∈ K → target key val src equal skip mk file adopt prune m0 k =
                       target key val src equal skip mk file adopt prune m k) as Ht.
  { intros k Hk. unfold target. by rewrite (part_eq K m m0 k He Hk). }
  assert (∀ x, x ∈ plan_writes prune (diff key val src equal skip file recs adopt) → write_key key x ∈ K) as Hw.
  { intros x Hx. apply elem_of_plan_writes in Hx; [|done]. destruct x as [v|v|k]; simpl in *.
    - apply HK, elem_of_in_file. destruct Hx as (? & ? & _). by exists v.
    - destruct Hx as (? & (? & _)%updates_spec). apply HK, elem_of_in_file. by exists v.
    - destruct Hx as (_ & _ & rec & Hr & Hs). rewrite Hm in Hr. by apply (Hc k rec). }
  destruct (plan_writes_ok key val src equal skip vok file recs adopt prune Hf Hu) as [Hok Hen].
  pose proof (plan_writes_nodup key val src equal skip vok file recs adopt prune Hf Hu) as Hnd.
  pose proof (plan_writes_target key val src equal skip vok mk file recs adopt prune Hf Hu) as Htg.
  rewrite Hm in *. constructor; [done|done|by apply Forall_forall| | |].
  - apply Forall_forall. intros x Hx. rewrite Forall_forall in Hen. apply enabled_part; [by apply Hw|by apply Hen].
  - intros x Hx. rewrite Ht by (by apply Hw).
    destruct (Htg (write_key key x)) as [(y & Hy & Hyk & <-)|[Hn _]].
    + assert (Some y = Some x) as [= ->]; [|done].
      rewrite <- (proj2 (to_map_Some (write_key key) _ (write_key key x) y Hnd) (conj Hy Hyk)).
      by apply (to_map_Some (write_key key) _ _ _ Hnd).
    + destruct Hn. by apply list_elem_of_fmap_2.
  - intros k Hk Hnk. rewrite lookup_part, Ht by done.
    destruct (Htg k) as [(y & Hy & <- & _)|[_ Htk]]; [|done]. destruct Hnk. by apply list_elem_of_fmap_2.
Qed.
End Plan.

(** A loop of writes by a thread that has those rows to itself, with [rest] beside
    them. *)
Section Owned.
Context {V R O KS : Type} (key : V → string) (vok : V → Prop) (mk : V → R).
Abbreviation W := (PWorld (db SqlStore.Roles.table) (db SqlStore.Principals.table) KS) (only parsing).
Context (I : W → Prop) (own : W → O) (sub : O → gmap string R) (step : O → write V → O) (rest : O → Prop).
Context (turn_of : Applied → write V → Handler W error unit) (lost : Prop) (K : gset string).
Hypothesis sub_step : ∀ o x, sub (step o x) = put key mk (sub o) x.
Hypothesis rest_step : ∀ o x, rest o → rest (step o x).
Hypothesis turn_spec : ∀ ap x w out w', write_ok vok x → write_key key x ∈ K → enabled key (sub (own w)) x →
  I w → turn_of ap x w = (out, w') →
  I w' ∧ (out = inr tt ∧ own w' = step (own w) x ∨ lost ∧ ∃ e, out = inl e).

Lemma writes_own T l ap o :
  leads key vok mk K T l (sub o) → rest o →
  owns I own (λ _, True)
    (λ out o', match out with inl _ => lost | inr _ => (∀ k, k ∈ K → sub o' !! k = T k) ∧ rest o' end)
    (write_turns turn_of l ap) o.
Proof using sub_step rest_step turn_spec.
  revert ap o. induction l as [|x l IH]; intros ap o Hl Hr.
  { constructor; [done|]. split; [|done]. intros k Hk. eapply l_rest; [exact Hl|done|]. apply not_elem_of_nil. }
  pose proof Hl as [_ Hok Hw He _ _]. inversion_clear Hok. inversion_clear Hw. inversion_clear He.
  eapply (owns_bind _ _ _ (λ out o', match out with inl _ => lost | inr _ => o' = step o x end)); [|done|].
  - apply owns_atomic; [done|]. intros w out w' HI <- E.
    destruct (turn_spec ap x w out w') as [HI' [[-> ->]|[Hlost [e ->]]]]; by auto.
  - intros [] o' _ ->. apply IH; [|by apply rest_step]. rewrite sub_step. by apply leads_step.
Qed.

Lemma writes_end l ap : within (length l) (write_turns turn_of l ap).
Proof.
  revert ap. induction l as [|x l IH]; intros ap; [constructor|].
  apply (within_bind 1 (length l)); [apply within_atomic|done].
Qed.
End Owned.

(** ** What no schedule takes from the portal *)
Section Overlap.
Context {KS : Type} `{SessionLib} `{KrlStore KS}.
Abbreviation W := (PWorld (db SqlStore.Roles.table) (db SqlStore.Principals.table) KS) (only parsing).
Context (dl : Dialect) (srv : PServer (db SqlStore.Roles.table) (db SqlStore.Principals.table)).
Hypothesis sourced : RoleSource srv = SourcedRoles (role_store dl).
Hypothesis hosted : ∀ all, HostSource srv = Some all → all = ps_All _ (principal_store dl).
Context (env : string → string) (ReadFile : string → result string).
Context (decode_roles : string → result (list Role)) (decode_entries : string → result (list principalEntry)).
Context (clock : Applied → time).
Hypothesis decode_roles_ok : ∀ s l, decode_roles s = Ok l → Forall role_ok l.
Hypothesis decode_entries_ok : ∀ s l, decode_entries s = Ok l → Forall (λ e, strings_ok (e_groups e)) l.

Abbreviation roles_of w := (roles_view (data (p_roles w))) (only parsing).
Abbreviation hosts_of w := (principals_view (data (p_hosts w))) (only parsing).
Abbreviation turns_of_run := (reconcile_turns (KS:=KS) dl env ReadFile decode_roles decode_entries clock) (only parsing).

Definition run_thread (o : reconcileOpts) : thread W error outcome :=
  applied <-t turns_of_run o;; tret (Reconciled applied).

(** A run of [certd reconcile] and requests to the portal, together. *)
Definition live (o : reconcileOpts) (vs : list visit) (w : W) : pool W error outcome :=
  mkPool (run_thread o :: (portal_turns srv <$> vs)) w.

Lemma visit_respects (I : W → Prop) (G : W → W → Prop) K v :
  visit_ok v → avoids K v → (∀ w w', I w → portal_step K w w' → I w' ∧ G w w') →
  respects I G (λ _, True) (portal_turns srv v).
Proof using sourced hosted.
  intros Hv HK Hstep. apply respects_atomic. intros w out w' Hw E.
  assert (portal_step K w w') as Hp.
  { destruct (serve _ w) as [resp w1] eqn:Es. injection E as <- <-. unfold serve in Es.
    destruct (dispatch _ _ _ _ _ _ w) as [out w2] eqn:Ed.
    assert (w2 = w1) as -> by (destruct out; by injection Es).
    destruct (dispatch_safe dl srv sourced hosted K v Hv HK _ _ _ Ed) as (Hr & Hh & _). by split. }
  destruct (Hstep w w' Hw Hp). by split_and!.
Qed.

Definition spared (vs : list visit) (name : string) : Prop :=
  ∀ v, v ∈ vs → name ∉ names_written (v_route v) (v_request v).

(** The tables are well formed, with the portal's rows of [w0] that no request in
    [vs] writes. *)
Definition keeping (vs : list visit) (w0 w : W) : Prop :=
  roles_ok (data (p_roles w)) ∧ principals_ok (data (p_hosts w)) ∧
  (∀ name rec, spared vs name → roles_of w0 !! name = Some rec → RecSource rec = SourcePortal →
     roles_of w !! name = Some rec) ∧
  (∀ san rec, hosts_of w0 !! san = Some rec → RecPSource rec = SourcePortal → hosts_of w !! san = Some rec).

Lemma role_turns_keep vs w0 l ap :
  Forall (write_ok role_ok) l →
  (∀ name rec, spared vs name → roles_of w0 !! name = Some rec → RecSource rec = SourcePortal →
     name ∉ write_key Policy.Name <$> l) →
  respects (keeping vs w0) free (λ _, True) (write_turns (role_turn (KS:=KS) dl clock) l ap).
Proof.
  intros Hok. revert ap. induction Hok as [|x l Hx _ IH]; intros ap Hk; [by constructor|].
  eapply respects_bind; [eapply (respects_atomic _ _ _ (λ _, True))|done|intros [] _; apply IH].
  - intros w out w' (Hr & Hp & Hkr & Hkp). unfold role_turn, with_role_db, one_write.
    destruct (exec_write _ _ _ ap x (p_roles w)) as [r s] eqn:E.
    destruct (roles_exec_spec dl clock ap x _ _ _ Hx Hr E) as [Hs Hv].
    assert (keeping vs w0 (mkPWorld s (p_hosts w) (p_krl w) (ring w))) as Hw'.
    { split_and!; [done|done| |done]. intros name rec Hsp Hn Hsrc. simpl.
      assert (name ≠ write_key Policy.Name x) as Hne
        by (intros ->; apply (Hk _ _ Hsp Hn Hsrc); by left).
      pose proof (spec_write_frame Policy.Name RecRole config_role (λ _, eq_refl) SqlStore.Roles.errNameRequired
        InMemoryStore.ErrRoleExists InMemoryStore.ErrRoleNotFound (roles_of w) x name Hne) as Hf.
      rewrite (Hkr _ _ Hsp Hn Hsrc) in Hf.
      destruct Hv as [Hv|(e & _ & _ & [->| ->])]; [by rewrite <- Hv in Hf|by apply Hkr|done]. }
    destruct r; by intros [= <- <-].
  - intros name rec Hsp Hn Hsrc Hin. apply (Hk _ _ Hsp Hn Hsrc). by right.
Qed.

Lemma principal_turns_keep vs w0 l ap :
  Forall (write_ok (λ p, strings_ok (Mtls.Groups p))) l →
  (∀ san rec, hosts_of w0 !! san = Some rec → RecPSource rec = SourcePortal →
     san ∉ write_key MatchedSAN <$> l) →
  respects (keeping vs w0) free (λ _, True) (write_turns (principal_turn (KS:=KS) dl clock) l ap).
Proof.
  intros Hok. revert ap. induction Hok as [|x l Hx _ IH]; intros ap Hk; [by constructor|].
  eapply respects_bind; [eapply (respects_atomic _ _ _ (λ _, True))|done|intros [] _; apply IH].
  - intros w out w' (Hr & Hp & Hkr & Hkp). unfold principal_turn, with_host_db, one_write.
    destruct (exec_write _ _ _ ap x (p_hosts w)) as [r s] eqn:E.
    destruct (principals_exec_spec dl clock ap x _ _ _ Hx Hp E) as [Hs Hv].
    assert (keeping vs w0 (mkPWorld (p_roles w) s (p_krl w) (ring w))) as Hw'.
    { split_and!; [done|done|done|]. intros san rec Hn Hsrc. simpl.
      assert (san ≠ write_key MatchedSAN x) as Hne by (intros ->; apply (Hk _ _ Hn Hsrc); by left).
      pose proof (spec_write_frame MatchedSAN RecPrincipal config_principal (λ _, eq_refl) SqlStore.Principals.errSANRequired
        ErrPrincipalExists ErrPrincipalNotFound (hosts_of w) x san Hne) as Hf.
      rewrite (Hkp _ _ Hn Hsrc) in Hf.
      destruct Hv as [Hv|(e & _ & _ & [->| ->])]; [by rewrite <- Hv in Hf|by apply Hkp|done]. }
    destruct r; by intros [= <- <-].
  - intros san rec Hn Hsrc Hin. apply (Hk _ _ Hn Hsrc). by right.
Qed.

Lemma run_keeps vs w0 o : o_adopt o = false → respects (keeping vs w0) free (λ _, True) (run_thread o).
Proof using decode_roles_ok decode_entries_ok.
  intros Ha. eapply (respects_bind _ _ (λ _, True)); [|done|intros; by constructor].
  unfold reconcile_turns. destruct (_ && _); [by constructor|].
  eapply (respects_bind _ _ (λ out, ∀ rp, out = inr rp → Forall (write_ok role_ok) (plan_writes (o_prune o) rp) ∧
    ∀ name rec, spared vs name → roles_of w0 !! name = Some rec → RecSource rec = SourcePortal →
      name ∉ write_key Policy.Name <$> plan_writes (o_prune o) rp)); [apply respects_atomic|done|].
  { intros w out w' (Hr & Hp & Hkr & Hkp). unfold with_role_db.
    destruct (role_plan _ _ _ _ o (p_roles w)) as [r s] eqn:E. intros [= <- <-].
    destruct (role_plan_spec dl env ReadFile decode_roles o _ _ _ Hr E) as (Hd & _ & Hpl).
    split_and!; [unfold keeping; simpl; by rewrite Hd|done|]. destruct r as [rp|e]; [|done]. intros ? [= <-]. split.
    - eapply planned_writes_ok; [|exact Hpl]. intros ? ?. by apply readRolesFile_ok.
    - intros name rec Hsp Hn Hsrc. eapply planned_spares_portal; [exact Hpl|done|by apply Hkr|done]. }
  intros rp Hrp. destruct (Hrp rp eq_refl) as [Hro Hrk]. clear Hrp.
  eapply (respects_bind _ _ (λ out, ∀ pp, out = inr pp → Forall (write_ok (λ p, strings_ok (Mtls.Groups p))) (plan_writes (o_prune o) pp) ∧
    ∀ san rec, hosts_of w0 !! san = Some rec → RecPSource rec = SourcePortal →
      san ∉ write_key MatchedSAN <$> plan_writes (o_prune o) pp)); [apply respects_atomic|done|].
  { intros w out w' (Hr & Hp & Hkr & Hkp). unfold with_host_db.
    destruct (principal_plan _ _ _ _ o (p_hosts w)) as [r s] eqn:E. intros [= <- <-].
    destruct (principal_plan_spec dl env ReadFile decode_entries o _ _ _ Hp E) as (Hd & _ & Hpl).
    split_and!; [unfold keeping; simpl; by rewrite Hd|done|]. destruct r as [pp|e]; [|done]. intros ? [= <-]. split.
    - eapply planned_writes_ok; [|exact Hpl]. intros ? ?. by apply readPrincipalsFile_ok.
    - intros san rec Hn Hsrc. eapply planned_spares_portal; [exact Hpl|done|by apply Hkp|done]. }
  intros pp Hpp. destruct (Hpp pp eq_refl) as [Hpo Hpk]. clear Hpp.
  destruct (negb (o_apply o)); [by constructor|].
  eapply respects_bind; [by apply role_turns_keep|done|intros ra _].
  eapply respects_bind; [by apply principal_turns_keep|done|intros pa _]. by constructor.
Qed.

(** C15: reconcile never takes a row from the portal, whoever is editing there
    meanwhile.  A run without --adopt shares the database with any number of portal
    requests, its statements and theirs in any order, and the database may lose any of
    them: at every moment both tables are well formed, every row that was the portal's
    when the run began is there unchanged unless one of the requests writes it, and
    every portal principal is there unchanged. *)
Theorem portal_rows_stay o vs (w : W) sched :
  roles_ok (data (p_roles w)) → principals_ok (data (p_hosts w)) → Forall visit_ok vs → o_adopt o = false →
  let w' := shared (interleave sched (live o vs w)) in
  roles_ok (data (p_roles w')) ∧ principals_ok (data (p_hosts w')) ∧
  (∀ name rec, spared vs name → roles_of w !! name = Some rec → RecSource rec = SourcePortal →
     roles_of w' !! name = Some rec) ∧
  (∀ san rec, hosts_of w !! san = Some rec → RecPSource rec = SourcePortal → hosts_of w' !! san = Some rec).
Proof using sourced hosted decode_roles_ok decode_entries_ok.
  intros Hr Hp Hvs Ha. rewrite Forall_forall in Hvs.
  destruct (respects_interleave (keeping vs w) free (λ _ _, True) sched (live o vs w)) as [Hk _];
    [by split_and!| |exact Hk].
  intros [|i] t; simpl; [intros [= <-]; by apply run_keeps|].
  rewrite list_lookup_fmap. intros (v & Hv & ->)%fmap_Some_1.
  apply list_elem_of_lookup_2 in Hv. apply (visit_respects _ _ (spared vs)); [by apply Hvs|by intros k Hk; apply Hk|].
  intros w1 w2 (Hr1 & Hp1 & Hk1 & Hkp1) [Hs [Hd _]]. destruct (Hs Hr1) as (Hr2 & _ & Hsame & _).
  unfold keeping. rewrite Hd. split; [|done]. split_and!; [done|done| |done].
  intros name rec Hsp Hn Hsrc. rewrite Hsame by done. by apply Hk1.
Qed.
(** ** Convergence among other edits *)
Section Apart.
Context (o : reconcileOpts) (file : list Role) (pfile : list Principal) (w0 : W).
Hypothesis both : o_rolesOnly o = false ∧ o_principalsOnly o = false.
Hypothesis applied : o_apply o = true.
Hypothesis configured : env "CERTD_ROLES_FILE" ≠ "" ∧ env "CERTD_MTLS_PRINCIPALS_FILE" ≠ "".
Hypothesis roles_read : readRolesFile ReadFile decode_roles (env "CERTD_ROLES_FILE") = Ok file.
Hypothesis principals_read :
  readPrincipalsFile ReadFile decode_entries (env "CERTD_MTLS_PRINCIPALS_FILE") = Ok pfile.
Hypothesis file_fits : role_file_ok file.
Hypothesis pfile_fits : principal_file_ok pfile.

Definition reserved_names : gset string := reserved Policy.Name RecSource (λ _, false) file (roles_of w0).
Definition reserved_sans : gset string :=
  reserved MatchedSAN RecPSource (λ p, str_empty (MatchedSAN p)) pfile (hosts_of w0).

Definition wanted_role : string → option RoleRecord := role_target file (o_adopt o) (o_prune o) (roles_of w0).
Definition wanted_principal : string → option PrincipalRecord :=
  principal_target pfile (o_adopt o) (o_prune o) (hosts_of w0).

(** A fault the database had in store. *)
Definition fault_in (w : W) : Prop := ∃ e, injected e (p_roles w) ∨ injected e (p_hosts w).

Definition running (w : W) : Prop :=
  roles_ok (data (p_roles w)) ∧ principals_ok (data (p_hosts w)) ∧
  (∀ e, injected e (p_roles w) → injected e (p_roles w0)) ∧
  (∀ e, injected e (p_hosts w) → injected e (p_hosts w0)) ∧
  config_within RecSource reserved_names (roles_of w) ∧ config_within RecPSource reserved_sans (hosts_of w).

Definition own_rows (w : W) : gmap string RoleRecord * gmap string PrincipalRecord :=
  (part reserved_names (roles_of w), part reserved_sans (hosts_of w)).

Abbreviation rows := (gmap string RoleRecord * gmap string PrincipalRecord)%type (only parsing).
Definition put_role (r : rows) (x : write Role) : rows := (put Policy.Name config_role r.1 x, r.2).
Definition put_principal (r : rows) (x : write Principal) : rows := (r.1, put MatchedSAN config_principal r.2 x).

Lemma role_turn_spec ap x (w : W) out w' :
  write_ok role_ok x → write_key Policy.Name x ∈ reserved_names → enabled Policy.Name (own_rows w).1 x →
  running w → role_turn dl clock ap x w = (out, w') →
  running w' ∧ (out = inr tt ∧ own_rows w' = put_role (own_rows w) x ∨ fault_in w0 ∧ ∃ e, out = inl e).
Proof.
  intros Hx Hk He (Hr & Hp & Hi & Hj & Hc & Hd). unfold role_turn, with_role_db, one_write.
  destruct (exec_write _ _ _ ap x (p_roles w)) as [r s] eqn:E.
  destruct (roles_exec_spec dl clock ap x _ _ _ Hx Hr E) as [Hs Hv].
  pose proof (λ e, roles_inj_back dl clock ap x _ _ _ e E) as Hb.
  pose proof (write_part Policy.Name RecRole RecSource config_role SqlStore.Roles.errNameRequired
    InMemoryStore.ErrRoleExists InMemoryStore.ErrRoleNotFound (λ _, eq_refl) reserved_names (roles_of w) x Hk He) as Hw.
  destruct (spec_write _ _ _ _ _ _ x _) as [r' m']. destruct Hw as (-> & Hpart & Hcw). cbn [snd] in Hv.
  assert (running (mkPWorld s (p_hosts w) (p_krl w) (ring w))) as Hrun.
  { split_and!; simpl; eauto. destruct Hv as [[= _ ->]|(e & _ & _ & [->| ->])]; by auto. }
  destruct r as [[]|e]; intros [= <- <-]; (split; [done|]); [left|right].
  - split; [done|]. destruct Hv as [[= Hv]|(e & [=] & _)]. unfold own_rows, put_role. simpl. by rewrite Hv, Hpart.
  - split; [|by eexists]. destruct Hv as [[=]|(e' & _ & Hin & _)]. exists e'. left; eauto.
Qed.

Lemma principal_turn_spec ap x (w : W) out w' :
  write_ok (λ p, strings_ok (Mtls.Groups p)) x → write_key MatchedSAN x ∈ reserved_sans → enabled MatchedSAN (own_rows w).2 x →
  running w → principal_turn dl clock ap x w = (out, w') →
  running w' ∧ (out = inr tt ∧ own_rows w' = put_principal (own_rows w) x ∨ fault_in w0 ∧ ∃ e, out = inl e).
Proof.
  intros Hx Hk He (Hr & Hp & Hi & Hj & Hc & Hd). unfold principal_turn, with_host_db, one_write.
  destruct (exec_write _ _ _ ap x (p_hosts w)) as [r s] eqn:E.
  destruct (principals_exec_spec dl clock ap x _ _ _ Hx Hp E) as [Hs Hv].
  pose proof (λ e, principals_inj_back dl clock ap x _ _ _ e E) as Hb.
  pose proof (write_part MatchedSAN RecPrincipal RecPSource config_principal SqlStore.Principals.errSANRequired
    ErrPrincipalExists ErrPrincipalNotFound (λ _, eq_refl) reserved_sans (hosts_of w) x Hk He) as Hw.
  destruct (spec_write _ _ _ _ _ _ x _) as [r' m']. destruct Hw as (-> & Hpart & Hcw). cbn [snd] in Hv.
  assert (running (mkPWorld (p_roles w) s (p_krl w) (ring w))) as Hrun.
  { split_and!; simpl; eauto. destruct Hv as [[= _ ->]|(e & _ & _ & [->| ->])]; by auto. }
  destruct r as [[]|e]; intros [= <- <-]; (split; [done|]); [left|right].
  - split; [done|]. destruct Hv as [[= Hv]|(e & [=] & _)]. unfold own_rows, put_principal. simpl. by rewrite Hv, Hpart.
  - split; [|by eexists]. destruct Hv as [[=]|(e' & _ & Hin & _)]. exists e'. right; eauto.
Qed.

Abbreviation owned := (owns running own_rows (λ _, True)) (only parsing).

(** What the readings leave to be done. *)
Definition role_job (rp : RolePlan) (r : rows) : Prop :=
  leads Policy.Name role_ok config_role reserved_names wanted_role (plan_writes (o_prune o) rp) r.1.
Definition principal_job (pp : PrincipalPlan) (r : rows) : Prop :=
  leads MatchedSAN (λ p, strings_ok (Mtls.Groups p)) config_principal reserved_sans wanted_principal
    (plan_writes (o_prune o) pp) r.2.
Definition settled (r : rows) : Prop :=
  (∀ k, k ∈ reserved_names → r.1 !! k = wanted_role k) ∧ (∀ k, k ∈ reserved_sans → r.2 !! k = wanted_principal k).

Lemma role_reading_owned :
  owned (λ out r, r = own_rows w0 ∧ match out with inr rp => role_job rp r | inl _ => fault_in w0 end)
    (atomic (with_role_db (role_plan env ReadFile decode_roles (role_store dl) o))) (own_rows w0).
Proof using decode_roles_ok both configured roles_read file_fits.
  apply owns_atomic; [done|]. intros w out w' (Hr & Hp & Hi & Hj & Hc & Hd) Hown. unfold with_role_db.
  destruct (role_plan _ _ _ _ o (p_roles w)) as [r s] eqn:E. intros [= <- <-].
  destruct (role_plan_spec dl env ReadFile decode_roles o _ _ _ Hr E) as (Hds & Hback & Hpl).
  assert (own_rows (mkPWorld s (p_hosts w) (p_krl w) (ring w)) = own_rows w0) as Hsame.
  { rewrite <- Hown. unfold own_rows. simpl. by rewrite Hds. }
  split; [unfold running; simpl; rewrite Hds; by split_and!; eauto|]. split; [done|]. rewrite Hsame. split; [done|].
  destruct r as [rp|e]; simpl.
  - unfold role_planned, planned in Hpl. rewrite (proj2 both) in Hpl.
    destruct Hpl as (file' & recs & _ & Hf & Hu & Hm & ->). rewrite roles_read in Hf. injection Hf as <-.
    injection Hown as Hpart _. unfold role_job. simpl. rewrite <- Hpart.
    eapply planned_leads; [done|done|done| |done|done]. intros k Hk. by apply elem_of_union_l.
  - destruct Hpl as (_ & [?|[(e' & He)|(e' & He)]]); [by destruct configured|by rewrite roles_read in He|].
    exists e'. left. by apply Hi.
Qed.

Lemma principal_reading_owned rp :
  role_job rp (own_rows w0) →
  owned (λ out r, role_job rp r ∧ match out with inr pp => principal_job pp r | inl _ => fault_in w0 end)
    (atomic (with_host_db (principal_plan env ReadFile decode_entries (principal_store dl) o))) (own_rows w0).
Proof using decode_entries_ok both configured principals_read pfile_fits.
  intros Hrp. apply owns_atomic; [done|]. intros w out w' (Hr & Hp & Hi & Hj & Hc & Hd) Hown. unfold with_host_db.
  destruct (principal_plan _ _ _ _ o (p_hosts w)) as [r s] eqn:E. intros [= <- <-].
  destruct (principal_plan_spec dl env ReadFile decode_entries o _ _ _ Hp E) as (Hds & Hback & Hpl).
  assert (own_rows (mkPWorld (p_roles w) s (p_krl w) (ring w)) = own_rows w0) as Hsame.
  { rewrite <- Hown. unfold own_rows. simpl. by rewrite Hds. }
  split; [unfold running; simpl; rewrite Hds; by split_and!; eauto|]. split; [done|]. rewrite Hsame. split; [done|].
  destruct r as [pp|e]; simpl.
  - unfold principal_planned, planned in Hpl. rewrite (proj1 both) in Hpl.
    destruct Hpl as (file' & recs & _ & Hf & Hu & Hm & ->). rewrite principals_read in Hf. injection Hf as <-.
    injection Hown as _ Hpart. unfold principal_job. simpl. rewrite <- Hpart.
    eapply planned_leads; [done|done|done| |done|done]. intros k Hk. by apply elem_of_union_l.
  - destruct Hpl as (_ & [?|[(e' & He)|(e' & He)]]); [by destruct configured|by rewrite principals_read in He|].
    exists e'. right. by apply Hj.
Qed.

Lemma role_writes_owned rp pp r :
  role_job rp r → principal_job pp r →
  owned (λ out r', match out with
    | inl _ => fault_in w0
    | inr _ => (∀ k, k ∈ reserved_names → r'.1 !! k = wanted_role k) ∧ principal_job pp r' end)
    (write_turns (role_turn dl clock) (plan_writes (o_prune o) rp) (mkApplied 0 0 0)) r.
Proof.
  intros Hrp Hpp. refine (writes_own Policy.Name role_ok config_role running own_rows fst put_role (principal_job pp)
    (role_turn dl clock) (fault_in w0) reserved_names (λ _ _, eq_refl) (λ _ _ H, H) role_turn_spec _ _ _ _ Hrp Hpp).
Qed.

Lemma principal_writes_owned pp r :
  (∀ k, k ∈ reserved_names → r.1 !! k = wanted_role k) → principal_job pp r →
  owned (λ out r', match out with inl _ => fault_in w0 | inr _ => settled r' end)
    (write_turns (principal_turn dl clock) (plan_writes (o_prune o) pp) (mkApplied 0 0 0)) r.
Proof.
  intros Hrp Hpp. eapply owns_mono; [|refine (writes_own MatchedSAN (λ p, strings_ok (Mtls.Groups p)) config_principal
    running own_rows snd put_principal (λ r, ∀ k, k ∈ reserved_names → r.1 !! k = wanted_role k)
    (principal_turn dl clock) (fault_in w0) reserved_sans (λ _ _, eq_refl) (λ _ _ H, H) principal_turn_spec
    wanted_principal _ _ _ Hpp Hrp)].
  intros [e|a] r' _; [done|]. by intros [? ?].
Qed.

(** The run, on rows of its own. *)
Lemma run_owned :
  owned (λ out r, match out with
    | inl _ => fault_in w0
    | inr out => settled r ∧ ∃ a, out = Reconciled (Some a) end) (run_thread o) (own_rows w0) ∧
  ends_in running own_rows (2 + (size reserved_names + size reserved_sans)) (run_thread o) (own_rows w0).
Proof using decode_roles_ok decode_entries_ok both applied configured roles_read principals_read file_fits pfile_fits.
  assert (owned (λ out r, match out with inl _ => fault_in w0 | inr a => settled r ∧ ∃ b, a = Some b end)
      (turns_of_run o) (own_rows w0) ∧
    ends_in running own_rows (2 + (size reserved_names + size reserved_sans)) (turns_of_run o) (own_rows w0)) as [H1 H2].
  { unfold reconcile_turns. rewrite (proj1 both), applied. cbn [andb negb]. split.
    - eapply owns_bind; [apply role_reading_owned|by intros e r _ [_ ?]|]. intros rp r _ [-> Hrp].
      eapply owns_bind; [by apply principal_reading_owned|by intros e r _ [_ ?]|]. intros pp r _ [Hrp' Hpp].
      eapply owns_bind; [by apply role_writes_owned|done|]. intros ra r' _ [Hw Hpp'].
      eapply owns_bind; [by apply principal_writes_owned|done|]. intros pa r2 _ Hs.
      constructor; [done|]. split; [done|by eexists].
    - eapply (ends_bind _ _ _ _ 1 (1 + _)); [apply role_reading_owned|apply within_ends, within_atomic|].
      intros rp r _ [-> Hrp].
      eapply (ends_bind _ _ _ _ 1 _); [by apply principal_reading_owned|apply within_ends, within_atomic|].
      intros pp r _ [Hrp' Hpp].
      eapply ends_bind; [by apply role_writes_owned|eapply within_ends, within_mono, writes_end; by eapply leads_length|].
      intros ra r' _ [Hw Hpp']. rewrite <- (Nat.add_0_r (size reserved_sans)).
      eapply ends_bind; [by apply principal_writes_owned|eapply within_ends, within_mono, writes_end; by eapply leads_length|].
      intros pa r2 _ _. constructor. }
  split.
  - eapply owns_bind; [exact H1|done|]. intros a r _ [Hs [b ->]]. constructor; [done|]. split; [done|by exists b].
  - rewrite <- (Nat.add_0_r (2 + _)). eapply ends_bind; [exact H1|exact H2|]. constructor.
Qed.
End Apart.

(** C16: reconcile --apply leaves the tables as the files say, whoever is editing other
    rows meanwhile.  A run over both tables shares the database with any number of
    portal requests that write no role the file names and none that was the config's
    when the run began, its statements and theirs in any order.  When it reports
    success, every name in the file, and every name of a config row, has the role the
    files ask for given the tables the run began with, or no row where they ask for
    none; the same for principals, by SAN.  It is done after two turns and one more
    for every such row, and then it has succeeded unless the database failed. *)
Theorem reconcile_amid_edits o file pfile vs (w : W) sched :
  roles_ok (data (p_roles w)) → principals_ok (data (p_hosts w)) →
  o_rolesOnly o = false ∧ o_principalsOnly o = false → o_apply o = true →
  env "CERTD_ROLES_FILE" ≠ "" ∧ env "CERTD_MTLS_PRINCIPALS_FILE" ≠ "" →
  readRolesFile ReadFile decode_roles (env "CERTD_ROLES_FILE") = Ok file → role_file_ok file →
  readPrincipalsFile ReadFile decode_entries (env "CERTD_MTLS_PRINCIPALS_FILE") = Ok pfile → principal_file_ok pfile →
  Forall (λ v, visit_ok v ∧ avoids (.∈ reserved_names file w) v) vs →
  let p := interleave sched (live o vs w) in
  (∀ a, threads p !! 0%nat = Some (Done (inr a)) →
     (∀ name, name ∈ reserved_names file w →
        roles_of (shared p) !! name = role_target file (o_adopt o) (o_prune o) (roles_of w) name) ∧
     (∀ san, san ∈ reserved_sans pfile w →
        hosts_of (shared p) !! san = principal_target pfile (o_adopt o) (o_prune o) (hosts_of w) san)) ∧
  ((2 + (size (reserved_names file w) + size (reserved_sans pfile w)) ≤ turns_of 0 sched)%nat →
   ∃ out, threads p !! 0%nat = Some (Done out) ∧ (fault_in w ∨ ∃ a, out = inr (Reconciled (Some a)))).
Proof using sourced hosted decode_roles_ok decode_entries_ok.
  intros Hr Hp Hboth Happ Hconf Hfile Hfits Hpfile Hpfits Hvs p.
  destruct (run_owned o file pfile w Hboth Happ Hconf Hfile Hpfile Hfits Hpfits) as [Hown Hend].
  assert (running file pfile w w) as Hrun.
  { split_and!; [done|done|done|done|apply reserved_config|apply reserved_config]. }
  assert (∀ j t', j ≠ 0%nat → threads (live o vs w) !! j = Some t' →
    respects (running file pfile w) (λ w1 w2, own_rows file pfile w w2 = own_rows file pfile w w1) (λ _, True) t') as Hoth.
  { intros [|j] t Hj; [done|]. simpl. rewrite list_lookup_fmap. intros (v & Hv & ->)%fmap_Some_1.
    apply list_elem_of_lookup_2 in Hv. rewrite Forall_forall in Hvs. destruct (Hvs v Hv) as [Hok Hav].
    eapply visit_respects; [exact Hok|exact Hav|]. intros w1 w2 (Hr1 & Hp1 & Hi & Hj1 & Hc & Hd) [Hs [Hdh Hih]].
    destruct (Hs Hr1) as (Hr2 & Hir & Hsame & Hnew). unfold running, own_rows. rewrite Hdh.
    split; [split_and!; [done|done|by eauto|by eauto| |done]|].
    - intros k rec Hk Hsrc. destruct (Hnew k rec Hk) as [?|Hsrc']; [by eapply Hc|]. by rewrite Hsrc' in Hsrc.
    - apply (f_equal2 pair); [|done]. apply part_ext. intros k Hk. by apply Hsame. }
  destruct (owns_interleave _ _ _ _ 0%nat sched (live o vs w) (run_thread o) Hrun eq_refl Hown Hoth) as (_ & t & Ht & Ho).
  split.
  - intros a Ha. unfold p in *. rewrite Ht in Ha. injection Ha as ->. inversion_clear Ho as [? ? _ Hq|]. destruct Hq as [[Hsr Hsp] _].
    split; intros k Hk; [specialize (Hsr k Hk)|specialize (Hsp k Hk)]; simpl in *; by rewrite lookup_part in *.
  - intros Hlen. destruct (ends_interleave _ _ _ _ 0%nat _ sched (live o vs w) (run_thread o) Hrun eq_refl Hown Hend Hoth Hlen)
      as [out Hout]. exists out. split; [done|]. unfold p in *. rewrite Ht in Hout. injection Hout as ->.
    inversion_clear Ho as [? ? _ Hq|]. destruct out as [e|out]; [by left|right]. destruct Hq as [_ [a ->]]. by exists a.
Qed.

End Overlap.

(** ** Instances: a role to add, one the file and the portal both have, one to prune *)
Module LiveExamples.
Import SqlExamples ReconcileExamples PortalExamples.

Definition portal : PServer (db SqlStore.Roles.table) (db SqlStore.Principals.table) :=
  mkPServer (SourcedRoles (role_store sqlite_dialect)) (Some (ps_All _ (principal_store sqlite_dialect))) true true false.

Lemma portal_hosts all : HostSource portal = Some all → all = ps_All _ (principal_store sqlite_dialect).
Proof. by intros [= <-]. Qed.

Definition world (rows : SqlStore.Roles.table) (fs : list fault)
    : PWorld (db SqlStore.Roles.table) (db SqlStore.Principals.table) Krl.InMemoryStore.t :=
  mkPWorld (mkDb rows fs) (mkDb [] []) Krl.InMemoryStore.NewInMemoryStore [].

Definition visiting (rt : route) (name : string) (l : list (string * string)) : visit :=
  mkVisit 0 anon (λ _, []) rt (form_request name (("csrf_token", "tok") :: l)).
Definition typing (name group principal : string) : list (string * string) :=
  [("name", name); ("group_claim", group); ("allowed_principals", principal)].
Definition typed (name group principal : string) : Role := mkRole name group [principal] [] [] 0 0 0 ∅.

(** Another role is made meanwhile. *)
Definition elsewhere : visit := visiting PostRoleNew "" (typing "guests" "grp-guests" "guest").
(** The role the run is about to prune is edited meanwhile. *)
Definition rescue : visit := visiting PostRoleEdit "old" (typing "old" "grp-new" "bob").
(** The role the run is about to update is edited meanwhile. *)
Definition override : visit := visiting PostRoleEdit "dev" (typing "dev" "grp-emergency" "alice").

Definition run (vs : list visit) (w : PWorld (db SqlStore.Roles.table) (db SqlStore.Principals.table) Krl.InMemoryStore.t)
    (sched : list nat) :=
  interleave sched (live (KS:=Krl.InMemoryStore.t) sqlite_dialect portal ex_env Ok ex_roles ex_entries (λ _, 0) ex_opts vs w).

Lemma visiting_ok rt name l role :
  typed_role (form_request name (("csrf_token", "tok") :: l)) = Some role →
  forallb utf8_valid (AllowedPrincipals role ++ HostPatterns role ++ SPIFFEPatterns role) = true →
  DefaultExtensions role = ∅ → visit_ok (visiting rt name l).
Proof. intros Ht Hu He r Hr. simpl in Hr. rewrite Ht in Hr. injection Hr as <-. by apply strings_role_ok. Qed.

Lemma elsewhere_ok : visit_ok elsewhere.
Proof. by eapply (visiting_ok _ _ _ (typed "guests" "grp-guests" "guest")); vm_compute. Qed.

Definition statements : list nat := [0; 0; 1; 0; 0; 0; 0]%nat.

Lemma portal_rows_stay_witness :
  let w' := shared (run [elsewhere] (world (data before) [NoFault; Lost (ErrOpaque "timeout")]) statements) in
  roles_view (data (p_roles w')) !! "ops" = Some (portal_record portal_role).
Proof.
  destruct (portal_rows_stay (KS:=Krl.InMemoryStore.t) sqlite_dialect portal eq_refl portal_hosts ex_env Ok ex_roles
    ex_entries (λ _, 0) ex_roles_ok ex_entries_ok ex_opts [elsewhere]
    (world (data before) [NoFault; Lost (ErrOpaque "timeout")]) statements) as (_ & _ & H & _).
  - exact before_ok.
  - split; constructor.
  - by apply Forall_singleton, elsewhere_ok.
  - done.
  - apply H; [|by vm_compute|done]. intros v [->|[]%elem_of_nil]%elem_of_cons.
    apply (bool_decide_unpack _). vm_compute. exact I.
Defined.

Lemma reconcile_amid_edits_witness :
  let p := run [elsewhere] (world (data before) []) (statements ++ [0; 0]%nat) in
  (∃ a, threads p !! 0%nat = Some (Done (inr (Reconciled (Some a))))) ∧
  roles_view (data (p_roles (shared p))) !! "old" = None ∧
  roles_view (data (p_roles (shared p))) !! "dev" = Some (mkRoleRecord file_role SourceConfig) ∧
  roles_view (data (p_roles (shared p))) !! "guests" = Some (portal_record (typed "guests" "grp-guests" "guest")).
Proof.
  destruct (reconcile_amid_edits (KS:=Krl.InMemoryStore.t) sqlite_dialect portal eq_refl portal_hosts ex_env Ok ex_roles
    ex_entries (λ _, 0) ex_roles_ok ex_entries_ok ex_opts [file_role; ops_role]
    [mkPrincipal "agent-1" "spiffe://td/agent-1" ["grp-ops"]] [elsewhere] (world (data before) [])
    (statements ++ [0; 0]%nat)) as [Hdone Hend].
  - exact before_ok.
  - split; constructor.
  - done.
  - done.
  - done.
  - done.
  - split.
    2: { repeat (apply Forall_cons_2; [intros _; split; [first [apply ops_role_ok|by apply strings_role_ok]|done]|]).
      constructor. }
    apply (bool_decide_unpack _). by vm_compute.
  - done.
  - split; [apply (bool_decide_unpack _); by vm_compute|by repeat constructor].
  - apply Forall_singleton. split; [exact elsewhere_ok|]. intros k Hk Hin. revert Hk.
    apply list_elem_of_singleton in Hin as ->. apply (bool_decide_unpack _). vm_compute. exact I.
  - destruct Hend as (out & Hout & [[e Hf]|[a ->]]).
    + apply (bool_decide_unpack _). by vm_compute.
    + exfalso. destruct Hf as [[Hf|Hf]|[Hf|Hf]]; by apply elem_of_nil in Hf.
    + split; [by exists a|]. destruct (Hdone _ Hout) as [Hroles _].
      split; [|split; [|by vm_compute]]; (etransitivity; [apply Hroles|]);
        first [apply (bool_decide_unpack _); vm_compute; exact I|by vm_compute].
Defined.

Definition answer (t : thread (PWorld (db SqlStore.Roles.table) (db SqlStore.Principals.table) Krl.InMemoryStore.t) error outcome) : Z :=
  match t with Done (inr (Answered resp)) => p_status resp | _ => 0 end.

(** The portal edits a config row after the run has read it and before the run writes:
    the edit is confirmed and the row is the portal's, and then the run deletes it.
    Had the run read later, it would have spared it. *)
Lemma late_prune_takes_portal_row :
  let p := run [rescue] (world (data before) []) [0; 0; 1]%nat in
  answer <$> threads p !! 1%nat = Some StatusSeeOther ∧
  roles_view (data (p_roles (shared p))) !! "old" = Some (portal_record (typed "old" "grp-new" "bob")) ∧
  roles_view (data (p_roles (shared (interleave [0; 0; 0; 0]%nat p)))) !! "old" = None ∧
  roles_view (data (p_roles (shared (run [rescue] (world (data before) []) [1; 0; 0; 0; 0; 0; 0]%nat)))) !! "old" =
    Some (portal_record (typed "old" "grp-new" "bob")).
Proof. split_and!; by vm_compute. Qed.

(** The same with a row the run updates: the role typed in the portal is replaced by
    the file's, and belongs to the config again. *)
Definition stale : db SqlStore.Roles.table :=
  (run_list exec_role [RAdd 0 (typed "dev" "grp-dev" "carol") SourceConfig] (mkDb [] [])).2.

Lemma late_update_takes_portal_row :
  let p := run [override] (world (data stale) []) [0; 0; 1]%nat in
  answer <$> threads p !! 1%nat = Some StatusSeeOther ∧
  roles_view (data (p_roles (shared p))) !! "dev" = Some (portal_record (typed "dev" "grp-emergency" "alice")) ∧
  roles_view (data (p_roles (shared (interleave [0; 0; 0; 0]%nat p)))) !! "dev" =
    Some (mkRoleRecord file_role SourceConfig).
Proof. split_and!; by vm_compute. Qed.
End LiveExamples.
