(* ===== verification/Mux.v ===== *)
(** * Mux: net/http's request multiplexer

    The parts of [http.ServeMux] that decide which handler of
    [internal/server/api] and [internal/server/portal] a request reaches: patterns,
    the canonical path, the match that prefers literals over wildcards over
    subtrees, the redirects, and the refusals with 404 and 405.  No pattern of the
    program names a host.  A path is the request's escaped one. *)

From S2P Require Import Prelude Json Custody InitEnv.

(** ** Patterns *)

(** A segment of a pattern: literal ([{$}], the end of the path, is the literal
    slash), a wildcard, or the trailing slash that stands for the whole subtree. *)
Inductive segment := Lit (s : string) | Wild (name : string) | Subtree.

#[export] Instance segment_eq_dec : EqDecision segment.
Proof. solve_decision. Defined.

Record pattern := mkPattern { p_method : string; p_segments : list segment }.

#[export] Instance pattern_eq_dec : EqDecision pattern.
Proof. solve_decision. Defined.

Definition parseSegment (s : string) : segment :=
  if bool_decide (s = "{$}") then Lit "/" else
  match CutPrefix "{" s with
  | Some name => Wild (trim_right "}" name)
  | None => if str_empty s then Subtree else Lit s
  end.

(** [parsePattern], on a valid pattern: an optional method, a space, the path. *)
Definition parsePattern (s : string) : pattern :=
  let '(method, path, found) := cut_byte " " s in
  let '(method, path) := if found then (method, path) else ("", s) in
  mkPattern method (parseSegment <$> tail (split_byte "/" path)).

(** ** Paths *)

(** [url.PathUnescape], or the text itself when it is no valid escape. *)
Fixpoint unescape (s : string) : option string :=
  match s with
  | "" => Some ""
  | String "%" (String a (String b s)) =>
      h ← hex_val a; l ← hex_val b; t ← unescape s; Some (String (ascii_of_N (h * 16 + l)) t)
  | String "%" _ => None
  | String c s => t ← unescape s; Some (String c t)
  end.

Definition pathUnescape (s : string) : string := default s (unescape s).

(** [firstSegment], repeated: a trailing slash is a segment of its own. *)
Fixpoint mark_last (l : list string) : list string :=
  match l with
  | [] => []
  | [s] => [if str_empty s then "/" else pathUnescape s]
  | s :: l => pathUnescape s :: mark_last l
  end.

Definition path_segments (path : string) : list string := mark_last (tail (split_byte "/" path)).

Definition ends_in_slash (p : string) : bool := bool_decide (List.last (split_byte "/" p) "x" = "").

(** [cleanPath] *)
Definition cleanPath (p : string) : string :=
  if str_empty p then "/" else
  let p := if String.prefix "/" p then p else "/" +:+ p in
  let np := Clean p in
  if ends_in_slash p && negb (bool_decide (np = "/")) then np +:+ "/" else np.

(** ** The routing tree

    A node is the patterns that agree with the path so far, each with what is left
    of it; a child keeps those that agree with one more segment. *)
Section Tree.
Context {H : Type}.

Abbreviation node := (list (list segment * (pattern * H))) (only parsing).

Definition child (f : segment → bool) (n : node) : node :=
  omap (λ x, match x.1 with s :: l => if f s then Some (l, x.2) else None | [] => None end) n.

Definition is_wild (s : segment) : bool := match s with Wild _ => true | _ => false end.
Definition emptyChild : node → node := child is_wild.
(** No segment of a clean path is empty; only for CONNECT, which none of the
    program's patterns with a wildcard admits, would the empty key be the wildcard. *)
Definition findChild (key : string) : node → node := child (λ s, bool_decide (s = Lit key)).

Definition leaf (n : node) : option (pattern * H) := snd <$> head (List.filter (λ x, bool_decide (x.1 = [])) n).
Definition multiChild (n : node) : option (pattern * H) := leaf (child (λ s, bool_decide (s = Subtree)) n).

Fixpoint matchPath (n : node) (path matches : list string) : option (pattern * H * list string) :=
  match path with
  | [] => l ← leaf n; Some (l, matches)
  | seg :: rest =>
      match matchPath (findChild seg n) rest matches with
      | Some m => Some m
      | None =>
          match (if bool_decide (seg = "/") then None
                 else matchPath (emptyChild n) rest (matches ++ [seg])) with
          | Some m => Some m
          | None => l ← multiChild n; Some (l, matches)
          end
      end
  end.

Abbreviation routes := (list (pattern * H)) (only parsing).

Definition of_method (m : string) (rs : routes) : node :=
  (λ r : pattern * H, (p_segments r.1, r)) <$> List.filter (λ r : pattern * H, bool_decide (p_method r.1 = m)) rs.

Definition matchMethodAndPath (rs : routes) (method path : string) : option (pattern * H * list string) :=
  let at_method m := matchPath (of_method m rs) (path_segments path) [] in
  match at_method method with
  | Some m => Some m
  | None =>
      match (if bool_decide (method = "HEAD") then at_method "GET" else None) with
      | Some m => Some m
      | None => at_method ""
      end
  end.

(** A subtree matches exactly when nothing is below it. *)
Definition exactMatch (m : option (pattern * H * list string)) (path : string) : bool :=
  match m with
  | None => false
  | Some (p, _, _) =>
      if bool_decide (last (p_segments p) = Some Subtree)
      then ends_in_slash path && Nat.eqb (length (p_segments p)) (length (tail (split_byte "/" path)))
      else true
  end.

(** ** [findHandler] *)

Inductive outcome :=
  | Found (h : H) (matches : list string)
  | Redirected (url : string)
  | NotAllowed (methods : list string)
  | NotFound
  | BadRequest.

Definition matchingMethods (rs : routes) (path : string) : list string :=
  let at_path p := List.filter (λ m, bool_decide (is_Some (matchPath (of_method m rs) (path_segments p) [])))
                     (List.filter (λ m, negb (str_empty m)) (p_method <$> (fst <$> rs))) in
  let ms := at_path path ++ (if ends_in_slash path then [] else at_path (path +:+ "/")) in
  sort_strings (remove_dups (ms ++ (if bool_decide ("GET" ∈ ms) then ["HEAD"] else []))).

Definition findHandler (rs : routes) (method escapedPath : string) : outcome :=
  if bool_decide (escapedPath = "*") then BadRequest else
  let path := if bool_decide (method = "CONNECT") then escapedPath else cleanPath escapedPath in
  let m := matchMethodAndPath rs method path in
  if negb (exactMatch m path) && negb (ends_in_slash path) && negb (str_empty path) &&
     exactMatch (matchMethodAndPath rs method (path +:+ "/")) (path +:+ "/")
  then Redirected (path +:+ "/") else
  if negb (bool_decide (path = escapedPath)) then Redirected path else
  match m with
  | Some (_, h, matches) => Found h matches
  | None => match matchingMethods rs path with [] => NotFound | ms => NotAllowed ms end
  end.

(** ** What a match means *)

(** The path has the segments of the pattern; the wildcards' values in order. *)
Inductive fits : list segment → list string → list string → Prop :=
  | fits_nil : fits [] [] []
  | fits_lit s l path vs : fits l path vs → fits (Lit s :: l) (s :: path) vs
  | fits_wild x s l path vs : s ≠ "/" → fits l path vs → fits (Wild x :: l) (s :: path) (s :: vs)
  | fits_subtree s path : fits [Subtree] (s :: path) [].

Definition admits_method (p : pattern) (method : string) : Prop :=
  p_method p = "" ∨ p_method p = method ∨ p_method p = "GET" ∧ method = "HEAD".

Lemma elem_of_child f (n : node) l r : (l, r) ∈ child f n → ∃ s, f s = true ∧ (s :: l, r) ∈ n.
Proof.
  unfold child. rewrite list_elem_of_omap. intros ([l0 r0] & Hin & Hx). simpl in Hx.
  destruct l0 as [|s l0]; [done|]. destruct (f s) eqn:E; [|done]. injection Hx as -> ->. by exists s.
Qed.

Lemma leaf_in (n : node) r : leaf n = Some r → ([], r) ∈ n.
Proof.
  unfold leaf. destruct (List.filter _ n) as [|[l r'] k] eqn:E; [done|]. simpl. intros [= ->].
  assert ((l, r) ∈ List.filter (λ x, bool_decide (x.1 = [])) n) as Hin by (rewrite E; by left).
  apply list_elem_of_In, List.filter_In in Hin as [Hin%list_elem_of_In Hl].
  apply bool_decide_eq_true in Hl. simpl in Hl. by subst.
Qed.

Lemma matchPath_fits path (n : node) acc r vs :
  matchPath n path acc = Some (r, vs) → ∃ l vs', (l, r) ∈ n ∧ fits l path vs' ∧ vs = acc ++ vs'.
Proof.
  revert n acc. induction path as [|seg rest IH]; intros n acc; simpl.
  { destruct (leaf n) as [l|] eqn:E; [|done]. simpl. intros [= -> <-]. exists [], [].
    split; [by apply leaf_in|]. split; [constructor|by rewrite app_nil_r]. }
  destruct (matchPath (findChild seg n) rest acc) as [m|] eqn:E1.
  - intros [= ->]. apply IH in E1 as (l & vs' & (x & ->%bool_decide_eq_true & Hin)%elem_of_child & Hf & ->).
    exists (Lit seg :: l), vs'. split; [done|]. split; [by constructor|done].
  - destruct (if bool_decide (seg = "/") then None else _) as [m|] eqn:E2.
    + intros [= ->]. case_bool_decide as Hs; [done|].
      apply IH in E2 as (l & vs' & ([x|x|] & Hx & Hin)%elem_of_child & Hf & ->); try done.
      exists (Wild x :: l), (seg :: vs'). rewrite <- app_assoc. split; [done|]. split; [by constructor|done].
    + unfold multiChild. destruct (leaf _) as [l|] eqn:E3; [|done]. simpl. intros [= -> <-].
      apply leaf_in, elem_of_child in E3 as (s & ->%bool_decide_eq_true & Hin).
      exists [Subtree], []. split; [done|]. split; [constructor|by rewrite app_nil_r].
Qed.

Lemma of_method_in m (rs : routes) l r :
  (l, r) ∈ of_method m rs → r ∈ rs ∧ l = p_segments r.1 ∧ p_method r.1 = m.
Proof.
  unfold of_method. intros (r0 & [= -> ->] & Hin)%list_elem_of_fmap.
  apply list_elem_of_In, List.filter_In in Hin as [Hin%list_elem_of_In Hm%bool_decide_eq_true]. done.
Qed.

(** A handler is reached by its own method, on the clean path its pattern
    describes. *)
Lemma findHandler_found (rs : routes) method path h vs :
  findHandler rs method path = Found h vs →
  ∃ p, (p, h) ∈ rs ∧ admits_method p method ∧ fits (p_segments p) (path_segments path) vs ∧
    (method ≠ "CONNECT" → cleanPath path = path).
Proof.
  unfold findHandler. case_bool_decide; [done|].
  set (path' := if bool_decide (method = "CONNECT") then path else cleanPath path).
  destruct (_ && _ && _ && _); [done|]. destruct (negb (bool_decide (path' = path))) eqn:Ep; [done|].
  apply negb_false_iff, bool_decide_eq_true in Ep. rewrite Ep.
  assert (method ≠ "CONNECT" → cleanPath path = path) as Hclean.
  { intros Hm. subst path'. rewrite bool_decide_false in Ep by done. done. }
  destruct (matchMethodAndPath rs method path) as [[[p h'] vs']|] eqn:Em;
    [|destruct (matchingMethods rs path); discriminate].
  intros [= -> ->]. exists p. unfold matchMethodAndPath in Em.
  assert (∀ m, matchPath (of_method m rs) (path_segments path) [] = Some (p, h, vs) →
    p_method p = m ∧ (p, h) ∈ rs ∧ fits (p_segments p) (path_segments path) vs) as Hm.
  { intros m (l & vs' & (Hin & -> & Hp)%of_method_in & Hf & ->)%matchPath_fits. done. }
  destruct (matchPath (of_method method rs) _ _) as [x|] eqn:E1.
  { injection Em as ->. apply Hm in E1 as (? & ? & ?). split; [done|]. split; [right; by left|done]. }
  destruct (if bool_decide (method = "HEAD") then _ else None) as [x|] eqn:E2.
  { injection Em as ->. case_bool_decide; [|done]. apply Hm in E2 as (? & ? & ?).
    split; [done|]. split; [right; by right|done]. }
  apply Hm in Em as (? & ? & ?). split; [done|]. split; [by left|done].
Qed.
End Tree.
Arguments outcome H : clear implicits.

(** ** Instances *)
Module MuxExamples.
Definition table : list (pattern * nat) :=
  [(parsePattern "GET /roles", 0); (parsePattern "GET /roles/new", 1); (parsePattern "POST /roles/new", 2);
   (parsePattern "GET /roles/{name}", 3); (parsePattern "POST /roles/{name}/edit", 4);
   (parsePattern "/portal/", 5); (parsePattern "GET /{$}", 6)]%nat.

Example routed :
  (λ q, findHandler table q.1 q.2) <$>
    [("GET", "/roles/new"); ("HEAD", "/roles/ops%2Fteam"); ("POST", "/roles/ops"); ("POST", "/roles/ops/edit");
     ("PUT", "/portal/x/y"); ("GET", "/portal"); ("GET", "/roles/../roles"); ("GET", "/"); ("GET", "/nowhere");
     ("GET", "/portal//x"); ("GET", "/roles/"); ("PUT", "/roles/new")] =
  [Found 1 []; Found 3 ["ops/team"]; NotAllowed ["GET"; "HEAD"]; Found 4 ["ops"]; Found 5 []; Redirected "/portal/";
   Redirected "/roles"; Found 6 []; NotFound; Redirected "/portal/x"; NotFound; NotAllowed ["GET"; "HEAD"; "POST"]]%nat.
Proof. by vm_compute. Qed.
End MuxExamples.
