(* ===== verification/Service.v ===== *)
(** * Service: certd's requests, from the mux to the stores

    Models the two [Routes] functions, of [internal/server/api/server.go] and
    [internal/server/portal/portal.go]: the API's handlers and the portal's behind
    one multiplexer ([Mux]), the rate limiter in front of them and the portal's gate
    behind the prefix, over one state: the role table that the policy engine reads
    and the portal edits, the registry, the active certificates, the revocations that
    both write, the audit log.

    The theorems are about the server as a whole: which requests can change
    anything, and how long a revocation lasts. *)

From S2P Require Import Prelude GoText GoTime Policy Krl Signer SshEngine X509Engine Mtls Store Sql SqlTable SqlStore SqlFacts SqlCorrect Http Api ApiSsh ApiX509 Guard ApiRest Reconcile PortalForm Portal PortalStore Custody Mux.

(** ** Requests *)

(** [encoding/json] on the bodies of the endpoints. *)
Class BodyLib := {
  decode_sign_user : string → result signUserRequest;
  decode_sign_host : string → result signHostRequest;
  decode_sign_x509 : string → result signX509Request;
  decode_adopt : string → result adoptRequest;
  decode_revoke : string → result revokeRequest;
}.

Section Requests.
Context `{SessionLib}.

Record SRequest := mkSRequest {
  method : string;
  (** [r.URL.EscapedPath()] *)
  path : string;
  (** What the API's handlers read of the request, and the body. *)
  api : Request;
  content : string;
  (** What the portal's handlers read, but for the path's wildcards. *)
  page : PRequest;
  inputs : Inputs;
  page_now : time;
  fresh : result Session;
  (** The iteration order over a role's extensions. *)
  order : Role → list string;
  (** [os.ReadFile] of the file that the endpoint serves. *)
  file : result string;
}.

Definition with_path (p : string) (q : SRequest) : SRequest :=
  mkSRequest (method q) p (api q) (content q) (page q) (inputs q) (page_now q) (fresh q) (order q) (file q).

(** The middleware and the login handlers of the base library.  A gate answers
    itself or lets the request through, with the session in its context. *)
Class BaseLib := {
  limited : list string → SRequest → bool;
  Gate : list string → SRequest → PResponse + PRequest;
  BasicAuth : list string → SRequest → PResponse + PRequest;
  LoginHandler : PRequest → PResponse;
  CallbackHandler : PRequest → PResponse;
  LogoutHandler : PRequest → PResponse;
}.
End Requests.

(** ** Routes *)

Inductive endpoint :=
  | Healthz | SignUserCert | SignHostCert | SignX509WorkloadCert | TrustBundle | SSHCAKeys | AdoptX509
  | Revoke | Revocations | RevocationsSpec | PortalTree.

Definition handle_func {H} (x : string * H) : pattern * H := (parsePattern x.1, x.2).

Definition Routes (portal : bool) : list (pattern * endpoint) := handle_func <$>
  [ ("GET /healthz", Healthz);
    ("POST /api/v1/ssh/sign-user", SignUserCert);
    ("POST /api/v1/ssh/sign-host", SignHostCert);
    ("POST /api/v1/x509/sign-workload", SignX509WorkloadCert);
    ("GET /api/v1/x509/trust-bundle", TrustBundle);
    ("GET /api/v1/ssh/ca-keys", SSHCAKeys);
    ("POST /api/v1/x509/adopt", AdoptX509);
    ("POST /api/v1/ssh/revoke", Revoke);
    ("GET /api/v1/ssh/revocations", Revocations);
    ("GET /api/v1/ssh/krl.spec", RevocationsSpec) ] ++
  if portal then [("/portal/", PortalTree)] else [].

#[export] Instance endpoint_eq_dec : EqDecision endpoint.
Proof. solve_decision. Defined.

Inductive portal_endpoint := Own (rt : route) | Login | Callback | Logout.

Definition portal_Routes (auth : bool) : list (pattern * portal_endpoint) := handle_func <$>
  [ ("GET /{$}", Own GetIndex);
    ("GET /healthz", Own GetHealthz);
    ("GET /static/app.css", Own GetCSS);
    ("GET /roles", Own GetRoles);
    ("GET /roles/new", Own GetRoleNew);
    ("POST /roles/new", Own PostRoleNew);
    ("GET /roles/{name}", Own GetRole);
    ("GET /roles/{name}/edit", Own GetRoleEdit);
    ("POST /roles/{name}/edit", Own PostRoleEdit);
    ("POST /roles/{name}/delete", Own PostRoleDelete);
    ("GET /hosts", Own GetHosts);
    ("GET /audit", Own GetAudit);
    ("GET /revocations", Own GetRevocations);
    ("POST /revocations", Own PostRevocations) ] ++
  if auth then
    [ ("GET /auth/login", Login); ("GET /auth/callback", Callback); ("POST /auth/logout", Logout);
      ("GET /auth/signed-out", Own GetSignedOut) ]
  else [].

(** The paths past the session gate, of [portal.New]. *)
Definition ExemptPaths : list string := ["/healthz"; "/auth/callback"; "/auth/signed-out"; "/static/app.css"].

(** ** The server *)

Record Site (RS HS AS KS : Type) := mkSite {
  s_roles : RS; s_hosts : HS; s_certs : AS; s_krl : KS; s_log : list Audit.Entry; s_ring : list AuditEvent }.
Arguments mkSite {RS HS AS KS}.
Arguments s_roles {RS HS AS KS}.
Arguments s_hosts {RS HS AS KS}.
Arguments s_certs {RS HS AS KS}.
Arguments s_krl {RS HS AS KS}.
Arguments s_log {RS HS AS KS}.
Arguments s_ring {RS HS AS KS}.

(** The API server with its stores left out, and the portal. *)
Record Service (RS HS : Type) := mkService { config : Server unit unit; portal : option (PServer RS HS) }.
Arguments mkService {RS HS}.
Arguments config {RS HS}.
Arguments portal {RS HS}.

Inductive served :=
  | RApi (resp : Response)
  | RPage (resp : PResponse)
  | RRedirect (url : string)
  | RStatus (code : Z)
  | RNotAllowed (methods : list string)
  | RTooMany.

(** The mux's own answers. *)
Definition mux_reply {H} (o : outcome H) : served :=
  match o with
  | Redirected url => RRedirect url
  | NotAllowed ms => RNotAllowed ms
  | BadRequest => RStatus StatusBadRequest
  | _ => RStatus StatusNotFound
  end.

Section Service.
Context `{SshLib, SshText, CryptoLib, X509Lib, PkixLib, SessionLib, BodyLib, !BaseLib} {RS HS AS KS : Type}.
Context `{Policy.Store RS, Mtls.Store HS, ActiveCertStore AS, KrlStore KS}.
Context (svc : Service RS HS).

Abbreviation site := (Site RS HS AS KS) (only parsing).

(** The API server, with its stores as they stand. *)
Definition server_at (s : site) : Server RS HS :=
  let c := config svc in
  mkServer (caSigner c) (x509Signer c) (x509IssuerCert c) (x509IssuerReload c) (trustBundlePath c)
    (sshCAKeysPath c) ((λ _, s_roles s) <$> policy c) (oidc c) ((λ _, s_hosts s) <$> mtls c)
    (krl c) (activeCerts c) (auditActive c) (version c).

Definition api_state (s : site) : World AS KS := mkWorld (s_certs s) (s_krl s) (s_log s).
Definition with_api (w : World AS KS) (s : site) : site :=
  mkSite (s_roles s) (s_hosts s) (certs w) (krls w) (log w) (s_ring s).

Definition portal_state (s : site) : PWorld RS HS KS := mkPWorld (s_roles s) (s_hosts s) (s_krl s) (s_ring s).
Definition with_portal (w : PWorld RS HS KS) (s : site) : site :=
  mkSite (p_roles w) (p_hosts w) (s_certs s) (p_krl w) (s_log s) (ring w).

(** The handlers that ask for a caller. *)
Definition call_of (e : endpoint) (q : SRequest) : option call :=
  match e with
  | SignUserCert => Some (CallSignUser (decode_sign_user (content q)))
  | SignHostCert => Some (CallSignHost (decode_sign_host (content q)))
  | SignX509WorkloadCert => Some (CallSignX509 (decode_sign_x509 (content q)))
  | AdoptX509 => Some (CallAdopt (decode_adopt (content q)))
  | Revoke => Some (CallRevoke (decode_revoke (content q)))
  | Revocations => Some CallRevocations
  | RevocationsSpec => Some CallRevocationsSpec
  | _ => None
  end.

Definition serve_api (e : endpoint) (q : SRequest) (s : site) : served * site :=
  let srv := server_at s in
  match call_of e q with
  | Some c =>
      let '(resp, w) := serve (handle srv (inputs q) (api q) c) (api_state s) in
      (RApi resp, with_api w s)
  | None =>
      match e with
      | TrustBundle => (RApi (handleTrustBundle srv (file q)), s)
      | SSHCAKeys => (RApi (handleSSHCAKeys srv (file q)), s)
      | _ => (RApi (Api.handleHealthz srv), s)
      end
  end.

Definition with_name (vs : list string) (r : PRequest) : PRequest :=
  mkPRequest (default "" (head vs)) (Body r) (SessionEmail r) (BasicUser r) (Cookies r).

Definition gate (ps : PServer RS HS) (q : SRequest) : PResponse + PRequest :=
  if HasOIDC ps then Gate ExemptPaths q else BasicAuth ["/healthz"] q.

Definition serve_portal (ps : PServer RS HS) (q : SRequest) (s : site) : served * site :=
  match gate ps q with
  | inl resp => (RPage resp, s)
  | inr r =>
      match findHandler (portal_Routes (HasOIDC ps)) (method q) (path q) with
      | Found (Own rt) vs =>
          let '(resp, w) := serve (dispatch ps (page_now q) (fresh q) (order q) rt (with_name vs r)) (portal_state s) in
          (RPage resp, with_portal w s)
      | Found Login _ => (RPage (LoginHandler r), s)
      | Found Callback _ => (RPage (CallbackHandler r), s)
      | Found Logout _ => (RPage (logoutRedirect (LogoutHandler r)), s)
      | o => (mux_reply o, s)
      end
  end.

Definition has_portal : bool := match portal svc with Some _ => true | None => false end.

(** [http.StripPrefix]: a path that spells the prefix with escapes matched the
    pattern and is not found. *)
Definition StripPrefix (prefix : string) (h : SRequest → site → served * site) (q : SRequest) (s : site) : served * site :=
  match CutPrefix prefix (path q) with
  | Some p => h (with_path p q) s
  | None => (RStatus StatusNotFound, s)
  end.

(** A request to the handler [Routes] returns. *)
Definition handle_request (q : SRequest) (s : site) : served * site :=
  if limited ["/healthz"] q then (RTooMany, s) else
  match findHandler (Routes has_portal) (method q) (path q) with
  | Found PortalTree _ =>
      match portal svc with
      | Some ps => StripPrefix "/portal" (serve_portal ps) q s
      | None => (RStatus StatusNotFound, s)
      end
  | Found e _ => serve_api e q s
  | o => (mux_reply o, s)
  end.
End Service.

(** ** Which requests change anything

    [same_roles], [same_hosts], [same_krl]: the states a read may lead between. *)
Section Changes.
Context `{SshLib, SshText, CryptoLib, X509Lib, PkixLib, SessionLib, BodyLib, !BaseLib} {RS HS AS KS : Type}.
Context `{Policy.Store RS, Mtls.Store HS, ActiveCertStore AS, KrlStore KS}.
Context (svc : Service RS HS).
Context (same_roles : RS → RS → Prop) (same_hosts : HS → HS → Prop) (same_krl : KS → KS → Prop).
Context `{!PreOrder same_roles, !PreOrder same_hosts, !PreOrder same_krl}.

Abbreviation site := (Site RS HS AS KS) (only parsing).

(** The stores' reads are reads, at any time. *)
Definition stores_read : Prop :=
  (∀ now ps, portal svc = Some ps → reads_keep ps now same_roles same_hosts same_krl) ∧
  (∀ now s, same_krl s (Api.Snapshot now s).2) ∧
  (∀ spec now s, MarshalSpec = Some spec → same_krl s (spec now s).2).

(** Nothing but reads happened. *)
Definition unchanged (s s' : site) : Prop :=
  same_roles (s_roles s) (s_roles s') ∧ same_hosts (s_hosts s) (s_hosts s') ∧
  same_krl (s_krl s) (s_krl s') ∧ s_certs s' = s_certs s ∧ s_log s' = s_log s ∧ s_ring s' = s_ring s.

(** The request is for an endpoint that signs, adopts or revokes, from a caller
    who is who they say. *)
Definition api_write (q : SRequest) (s : site) : Prop :=
  ∃ e vs groups caller, e ∈ [SignUserCert; SignHostCert; SignX509WorkloadCert; AdoptX509; Revoke] ∧
    findHandler (Routes (has_portal svc)) (method q) (path q) = Found e vs ∧
    authenticated (server_at svc s) (api q) groups caller.

(** The request is a form of the portal that the gate let through, with a token the
    session manager accepts. *)
Definition portal_write (q : SRequest) : Prop :=
  ∃ ps p r rt vs f, portal svc = Some ps ∧ path q = "/portal" +:+ p ∧
    gate ps (with_path p q) = inr r ∧
    findHandler (portal_Routes (HasOIDC ps)) (method q) p = Found (Own rt) vs ∧ is_post rt = true ∧
    Body r = Ok f ∧ ValidateCSRF (with_name vs r) (f "csrf_token") csrfScope = true.

Lemma unchanged_refl s : unchanged s s.
Proof using PreOrder0 PreOrder1 PreOrder2. by split_and!. Qed.

Lemma authenticated_groups srv r g g' c :
  authenticated (PS:=RS) (MS:=HS) srv r g c → ∃ c', authenticated srv r g' c'.
Proof. intros []; eexists; [by eapply auth_open|by eapply auth_bearer|by eapply auth_cert]. Qed.

Lemma authenticated_or_not srv r :
  (∃ g c, authenticated (PS:=RS) (MS:=HS) srv r g c) ∨ ∀ g c, ¬ authenticated srv r g c.
Proof.
  destruct (authenticate srv r [] (mkWorld () () [])) as [out w'] eqn:E.
  apply authenticate_spec in E as [_ Hout]. destruct out as [resp|c]; [right|left; by eexists _, _].
  intros g c (c' & Hc)%(authenticated_groups _ _ _ []). by apply (proj2 Hout c').
Qed.

(** The table of routes, read from the pattern to the method. *)
Lemma routes_method b e p : (p, e) ∈ Routes b →
  e = PortalTree ∨ p_method p = match e with
    | SignUserCert | SignHostCert | SignX509WorkloadCert | AdoptX509 | Revoke => "POST" | _ => "GET" end.
Proof.
  unfold Routes. rewrite fmap_app. intros [Hin|Hin]%elem_of_app.
  - right. revert Hin. rewrite !fmap_cons. intros Hin.
    repeat (apply elem_of_cons in Hin as [[= -> ->]|Hin]; [reflexivity|]). by apply elem_of_nil in Hin.
  - left. destruct b; [|by apply elem_of_nil in Hin]. by apply list_elem_of_singleton in Hin as [= _ ->].
Qed.

Lemma portal_routes_method b rt p : (p, Own rt) ∈ portal_Routes b →
  p_method p = if is_post rt then "POST" else "GET".
Proof.
  unfold portal_Routes. rewrite fmap_app. intros [Hin|Hin]%elem_of_app.
  - revert Hin. rewrite !fmap_cons. intros Hin.
    repeat (apply elem_of_cons in Hin as [[= -> ->]|Hin]; [reflexivity|]). by apply elem_of_nil in Hin.
  - destruct b; [|by apply elem_of_nil in Hin]. revert Hin. rewrite !fmap_cons. intros Hin.
    repeat (apply elem_of_cons in Hin as [Hx|Hin];
      [first [injection Hx as -> ->; reflexivity|discriminate Hx]|]). by apply elem_of_nil in Hin.
Qed.

Lemma admits_post p method : p_method p = "POST" → admits_method p method → method = "POST".
Proof. intros Hp [Hm|[Hm|[Hm _]]]; congruence. Qed.

(** A write is a POST. *)
Lemma api_write_post q s : api_write q s → method q = "POST".
Proof.
  intros (e & _ & _ & _ & He & (p & Hin & Hm & _)%findHandler_found & _).
  apply routes_method in Hin as [-> |Hp].
  - exfalso. by repeat (apply elem_of_cons in He as [He|He]; [discriminate|]); apply elem_of_nil in He.
  - eapply admits_post; [|exact Hm]. rewrite Hp.
    repeat (apply elem_of_cons in He as [-> |He]; [reflexivity|]). by apply elem_of_nil in He.
Qed.

Lemma portal_write_post q : portal_write q → method q = "POST".
Proof.
  intros (ps & p & r & rt & vs & f & _ & _ & _ & (pat & Hin & Hm & _)%findHandler_found & Hrt & _).
  apply portal_routes_method in Hin. rewrite Hrt in Hin. by eapply admits_post.
Qed.

(** The two downloads of revocations. *)
Lemma download_reads c srv inp r (w : World AS KS) resp w' :
  stores_read → c = CallRevocations ∨ c = CallRevocationsSpec →
  serve (handle (PS:=RS) (MS:=HS) srv inp r c) w = (resp, w') →
  certs w' = certs w ∧ log w' = log w ∧ same_krl (krls w) (krls w').
Proof using PreOrder2.
  intros (_ & Hsnap & Hspec) Hc E. unfold serve in E.
  assert (∀ (m : KS → string * KS) (k : string → Response) out w1,
    (∀ s, same_krl s (m s).2) → (x <-h step (Api.on_krl m);; hret (k x)) w = (out, w1) →
    certs w1 = certs w ∧ log w1 = log w ∧ same_krl (krls w) (krls w1)) as Hstep.
  { intros m k out w1 Hm. unfold hbind, step, Api.on_krl. specialize (Hm (krls w)). destruct (m (krls w)).
    by intros [= <- <-]. }
  destruct (handle srv inp r c w) as [out w1] eqn:Eh.
  assert (w1 = w') as -> by (destruct out; by injection E). clear E resp.
  destruct Hc as [-> | ->]; cbn [handle] in Eh; unfold handleRevocations, handleRevocationsSpec in Eh;
    (destruct (negb (krl srv)); [by injection Eh as <- <-|]);
    apply hbind_cases in Eh as [(? & [-> _]%authenticate_spec & _)|(? & ? & [-> _]%authenticate_spec & Eh)]; try done.
  - unfold hbind, step, Api.on_krl in Eh. specialize (Hsnap (clock inp AtSnapshot) (krls w)).
    destruct (Api.Snapshot _ (krls w)). by injection Eh as <- <-.
  - destruct Api.MarshalSpec as [spec|] eqn:Em; [|by injection Eh as <- <-].
    eapply Hstep; [|exact Eh]. intros s. by apply Hspec.
Qed.

Lemma with_api_same (s : site) : with_api (api_state s) s = s.
Proof. by destruct s. Qed.

Lemma with_portal_same (s : site) : with_portal (portal_state s) s = s.
Proof. by destruct s. Qed.

(** One request to an API endpoint. *)
Lemma api_changes e vs q s rep s' :
  stores_read → findHandler (Routes (has_portal svc)) (method q) (path q) = Found e vs →
  serve_api svc e q s = (rep, s') →
  unchanged s s' ∨ api_write q s ∧ s_roles s' = s_roles s ∧ s_hosts s' = s_hosts s ∧ s_ring s' = s_ring s.
Proof using PreOrder0 PreOrder1 PreOrder2.
  intros Hr Hf E. unfold serve_api in E.
  assert (∀ g, (g, s) = (rep, s') → unchanged s s') as Hsame by (intros g [= _ <-]; apply unchanged_refl).
  destruct (call_of e q) as [c|] eqn:Ec; [|left; destruct e; try discriminate; by eapply Hsame].
  destruct (serve _ (api_state s)) as [resp w] eqn:Es. injection E as <- <-.
  destruct (authenticated_or_not (server_at svc s) (api q)) as [(g & caller & Ha)|Hno]; cycle 1.
  { left. unfold serve in Es. destruct (handle _ _ _ c _) as [out w1] eqn:Eh.
    destruct (handle_refuses _ _ _ c Hno _ _ _ Eh) as (? & -> & _ & _ & ->). injection Es as _ <-.
    rewrite with_api_same. apply unchanged_refl. }
  destruct (decide (e ∈ [SignUserCert; SignHostCert; SignX509WorkloadCert; AdoptX509; Revoke])) as [He|He].
  { right. split; [by exists e, vs, g, caller|by destruct w]. }
  left. assert (c = CallRevocations ∨ c = CallRevocationsSpec) as Hc.
  { destruct e; try discriminate Ec; try (by exfalso; apply He, (bool_decide_unpack _); vm_compute);
      injection Ec as <-; [by left|by right]. }
  destruct (download_reads _ _ _ _ _ _ _ Hr Hc Es) as (Hc1 & Hc2 & Hc3).
  by split_and!.
Qed.

(** One request to the portal, behind its prefix. *)
Lemma portal_changes ps q s rep s' :
  stores_read → portal svc = Some ps → StripPrefix "/portal" (serve_portal ps) q s = (rep, s') →
  unchanged s s' ∨ portal_write q ∧ s_certs s' = s_certs s ∧ s_log s' = s_log s.
Proof using PreOrder0 PreOrder1 PreOrder2.
  intros (Hr & _) Hps E. unfold StripPrefix in E.
  assert (∀ g, (g, s) = (rep, s') → unchanged s s') as Hsame by (intros g [= _ <-]; apply unchanged_refl).
  destruct (CutPrefix "/portal" (path q)) as [p|] eqn:Ep; [|left; by eapply Hsame].
  apply CutPrefix_Some in Ep. unfold serve_portal in E. cbn [method path page_now fresh order with_path] in E.
  destruct (gate ps (with_path p q)) as [resp|r] eqn:Eg; [left; by eapply Hsame|].
  destruct (findHandler _ (method q) p) as [[rt| | |] vs| | | |] eqn:Ef; try (left; by eapply Hsame).
  destruct (serve _ (portal_state s)) as [resp w] eqn:Es. injection E as <- <-.
  set (r' := with_name vs r) in *.
  assert (∀ out w1, dispatch ps (page_now q) (fresh q) (order q) rt r' (portal_state s) = (out, w1) → w1 = w) as Hw.
  { intros out w1 Ed. unfold serve in Es. rewrite Ed in Es. destruct out; by injection Es. }
  destruct (dispatch _ _ _ _ rt r' (portal_state s)) as [out w1] eqn:Ed. specialize (Hw _ _ eq_refl). subst w1.
  destruct (is_post rt) eqn:Hrt; cycle 1.
  { left. destruct (get_keeps ps (page_now q) (fresh q) same_roles same_hosts same_krl (order q) rt r'
      (Hr _ _ Hps) Hrt _ _ _ Ed) as (Hc1 & Hc2 & Hc3 & Hc4). by split_and!. }
  destruct (Body r) as [f|e] eqn:Eb; [destruct (ValidateCSRF r' (f "csrf_token") csrfScope) eqn:Ev|].
  - right. split; [|done]. by exists ps, p, r, rt, vs, f.
  - left. assert (unproven r') as Hu.
    { intros f' Hf'. cbn [Body r' with_name] in Hf'. by assert (f' = f) as -> by congruence. }
    destruct (post_rejected ps (page_now q) (fresh q) (order q) rt r' Hrt Hu _ _ _ Ed) as [-> _].
    rewrite with_portal_same. apply unchanged_refl.
  - left. assert (unproven r') as Hu.
    { intros f' Hf'. cbn [Body r' with_name] in Hf'. congruence. }
    destruct (post_rejected ps (page_now q) (fresh q) (order q) rt r' Hrt Hu _ _ _ Ed) as [-> _].
    rewrite with_portal_same. apply unchanged_refl.
Qed.

(** C6: what changes anything was asked for by someone entitled to ask.  Any request
    to the server, whatever its method, path and body: either nothing changed but by
    the reads of the stores, or it was a POST for one of the five endpoints that sign,
    adopt and revoke, from a caller the server authenticated, and the role table, the
    registry and the audit page are as they were; or it was a POST of one of the
    portal's four forms that its gate let through and that carried a valid token, and
    the active certificates and the audit log are as they were.  In particular no
    GET, no unknown path and no throttled request changes anything. *)
Theorem changes_are_authorised q s rep s' :
  stores_read → handle_request svc q s = (rep, s') →
  unchanged s s' ∨
  (method q = "POST" ∧ api_write q s ∧ s_roles s' = s_roles s ∧ s_hosts s' = s_hosts s ∧ s_ring s' = s_ring s) ∨
  (method q = "POST" ∧ portal_write q ∧ s_certs s' = s_certs s ∧ s_log s' = s_log s).
Proof using PreOrder0 PreOrder1 PreOrder2.
  intros Hr E. unfold handle_request in E.
  assert (∀ g, (g, s) = (rep, s') → unchanged s s') as Hsame by (intros g [= _ <-]; apply unchanged_refl).
  destruct (limited _ q); [left; by eapply Hsame|].
  destruct (findHandler (Routes (has_portal svc)) (method q) (path q)) as [e vs| | | |] eqn:Ef;
    try (left; by eapply Hsame).
  destruct (decide (e = PortalTree)) as [->|He].
  - destruct (portal svc) as [ps|] eqn:Eps; [|left; by eapply Hsame].
    destruct (portal_changes ps q s rep s' Hr Eps E) as [?|[Hw ?]]; [by left|].
    right; right. split; [by apply portal_write_post|done].
  - assert (serve_api svc e q s = (rep, s')) as E' by (by destruct e).
    destruct (api_changes e vs q s rep s' Hr Ef E') as [?|[Hw ?]]; [by left|].
    right; left. split; [by eapply api_write_post|done].
Qed.
End Changes.

(** ** Revocations last

    What a store promises of every later write: a name that is revoked stays
    revoked, as long as the revocations it is given are of a kind it keeps. *)
Class KrlDurable (S : Type) `{KrlLaws S} := {
  dur_ok : S → Prop;
  (** The pairs of serial and key ID one revocation may name. *)
  dur_kind : Z → string → Prop;
  dur_krl_ok s : dur_ok s → krl_ok s;
  dur_revoke now r s : dur_ok s → dur_kind (Krl.Serial r) (KeyID r) → uint64_ok (Krl.Serial r) →
    year_ok (Revoked r) → year_ok now →
    dur_ok (Api.Revoke now r s).2 ∧
    ∀ serial keyID, uint64_ok serial → krl_names s serial keyID = true →
      krl_names (Api.Revoke now r s).2 serial keyID = true;
  dur_snapshot now s : dur_ok s → dur_ok (Api.Snapshot now s).2 ∧
    ∀ serial keyID, krl_names (Api.Snapshot now s).2 serial keyID = krl_names s serial keyID;
  dur_spec spec now s : MarshalSpec = Some spec → dur_ok s → dur_ok (spec now s).2 ∧
    ∀ serial keyID, krl_names (spec now s).2 serial keyID = krl_names s serial keyID;
}.

(** The in-memory store keeps any revocation. *)
#[export] Instance memory_krl_durable : KrlDurable Krl.InMemoryStore.t.
Proof.
  refine {| dur_ok _ := True; dur_kind _ _ := True |}; try done.
  - intros now r s _ _ _ _ _. split; [done|]. intros serial keyID _. simpl.
    destruct (Krl.InMemoryStore.Revoke now r s) as [[[]|e] s'] eqn:E; simpl; cycle 1.
    { unfold Krl.InMemoryStore.Revoke in E. destruct (empty_revocation r); [by injection E as _ <-|done]. }
    apply Revoke_lookup in E as [Es Ek]. unfold Krl.InMemoryStore.IsRevoked. rewrite Es, Ek.
    rewrite !orb_true_iff, !andb_true_iff. intros [[Hn Hx]|[Hn Hx]]; [left|right];
      (split; [done|]); apply bool_decide_eq_true in Hx as [x Hx]; apply bool_decide_eq_true; case_decide; by eexists.
  - intros spec now s [= <-] _. by split.
Defined.

(** The rows of revocations that name a serial or a key ID, not both. *)
Definition single (serial : Z) (keyID : string) : Prop := serial = 0 ∨ keyID = "".

Lemma names_kept r rs serial keyID :
  single (Krl.Serial r) (KeyID r) → Forall (λ x, single (Krl.Serial x) (KeyID x)) rs →
  existsb (names serial keyID) rs = true →
  existsb (names serial keyID) (List.filter (λ x, negb (share r x)) rs ++ [r]) = true.
Proof.
  intros Hr Hrs (x & Hin & Hx)%existsb_exists. rewrite existsb_app, orb_true_iff.
  destruct (share r x) eqn:E; [right|left].
  - simpl. rewrite orb_false_r. rewrite Forall_forall in Hrs.
    specialize (Hrs x (proj2 (list_elem_of_In _ _) Hin)). revert E Hx. unfold share, names, single, str_empty in *.
    rewrite !orb_true_iff, !andb_true_iff, !negb_true_iff, !Z.eqb_eq, !Z.eqb_neq, !bool_decide_eq_true, !bool_decide_eq_false.
    intros [[? ?]|[? ?]] [[? ?]|[? ?]]; destruct Hr, Hrs; try congruence; by (left + right); split; congruence.
  - apply existsb_exists. exists x. split; [|done]. apply List.filter_In. by rewrite E.
Qed.

Lemma snapshot_data now (d : db (list RevocationRow)) : data (Api.Snapshot now d).2 = data d.
Proof.
  simpl. unfold SqlStore.Revocations.Snapshot. destruct (stmt _ d) as [[rows|e] d1] eqn:E; simpl;
    (eapply stmt_reads; [|exact E]); done.
Qed.

(** The database keeps those that name one of the two. *)
#[export] Instance db_krl_durable : KrlDurable (db (list RevocationRow)).
Proof.
  refine {| dur_ok d := ∃ rs, represents (data d) rs ∧ Forall (λ x, single (Krl.Serial x) (KeyID x)) rs;
            dur_kind := single |}.
  - intros d (rs & Hr & _). by exists rs.
  - intros now r d (rs & Hr & Hs) Hk Hser Hrev Hnow. simpl.
    destruct (SqlStore.Revocations.Revoke now r d) as [res d'] eqn:E. simpl.
    assert (represents (data d') rs ∨
      represents (data d') (List.filter (λ x, negb (share (stamp now r) x)) rs ++ [stamp now r])) as Hd.
    { destruct (Revoke_spec now r rs d res d' Hr Hser Hrev Hnow E) as [[_ Hd]|(e & _ & _ & [Hd|Hd])];
        [|by left|]; unfold spec_revoke in Hd; destruct (empty_revocation r); (by left) || (by right). }
    destruct (stamp_keys now r) as [Es Ek].
    assert (single (Krl.Serial (stamp now r)) (KeyID (stamp now r))) as Hst by (by rewrite Es, Ek).
    destruct Hd as [Hd|Hd].
    + split; [by exists rs|]. intros serial keyID Hu. by rewrite !(represents_names _ rs).
    + split.
      * eexists. split; [exact Hd|]. apply Forall_app. split; [|by constructor].
        apply Forall_forall. intros x Hx%list_elem_of_In. apply List.filter_In in Hx as [Hx%list_elem_of_In _].
        rewrite Forall_forall in Hs. by apply Hs.
      * intros serial keyID Hu. rewrite (represents_names _ rs), (represents_names _ _ _ _ Hd) by done.
        by apply names_kept.
  - intros now d Hd. pose proof (snapshot_data now d) as Hdata. simpl in *. rewrite Hdata. by split.
  - intros spec now d [= <-] Hd. unfold SqlStore.Revocations.MarshalSpec.
    pose proof (snapshot_data now d) as Hdata. simpl in *.
    destruct (SqlStore.Revocations.Snapshot _ now d) as [snap d1]. simpl in *. rewrite Hdata. by split.
Defined.

Section Lasting.
Context `{SshLib, SshText, CryptoLib, X509Lib, PkixLib, SessionLib, BodyLib, !BaseLib} {RS HS AS KS : Type}.
Context `{Policy.Store RS, Mtls.Store HS, ActiveCertStore AS, KrlDurable KS}.
Context (svc : Service RS HS).

Abbreviation site := (Site RS HS AS KS) (only parsing).

(** Whatever was revoked still is. *)
Definition still (k k' : KS) : Prop := dur_ok k →
  dur_ok k' ∧ ∀ serial keyID, uint64_ok serial → krl_names k serial keyID = true → krl_names k' serial keyID = true.

#[local] Instance still_preorder : PreOrder still.
Proof.
  split; [by intros k Hk|]. intros k1 k2 k3 Hst1 Hst2 Hk1. destruct (Hst1 Hk1) as [Hk2 Hn2].
  destruct (Hst2 Hk2) as [Hk3 Hn3]. split; [done|]. intros serial keyID Hs Hn. by apply Hn3, Hn2.
Qed.

(** The revocations a request asks for are of a kind the store keeps, and the clock
    is within the years that RFC 3339 writes. *)
Record request_ok (q : SRequest) : Prop := {
  ok_clock : year_ok (clock (inputs q) AtRevoke);
  ok_page_clock : year_ok (page_now q);
  ok_body req : decode_revoke (content q) = Ok req →
    uint64_ok (RevSerial req) ∧ dur_kind (RevSerial req) (RevKeyID req);
  ok_form ps p r f : portal svc = Some ps → gate ps (with_path p q) = inr r → Body r = Ok f →
    dur_kind (typed_serial f mod 2^64) (TrimSpace (f "key_id"));
}.

(** *** In the API *)
Definition lasts {A} (m : Handler (World AS KS) Response A) : Prop :=
  ∀ w out w', m w = (out, w') → still (krls w) (krls w').

Lemma lasts_bind {A B} (m : Handler (World AS KS) Response A) (k : A → Handler (World AS KS) Response B) :
  lasts m → (∀ a, lasts (k a)) → lasts (hbind m k).
Proof.
  intros Hm Hk w out w' [(r & E & _)|(a & w1 & E1 & E2)]%hbind_cases; [by eapply Hm|].
  transitivity (krls w1); [by eapply Hm|by eapply Hk].
Qed.

Lemma lasts_ret {A} (a : A) : lasts (hret a).
Proof. by intros w out w' [= <- <-]. Qed.

Lemma lasts_reply {A} resp : lasts (reply (A:=A) resp).
Proof. by intros w out w' [= <- <-]. Qed.

Lemma lasts_try {A} (m : result A) f : lasts (try m f).
Proof. intros w out w'. unfold try. by destruct m; intros [= <- <-]. Qed.

Lemma lasts_try_bind {A B} (m : result A) f (k : A → Handler (World AS KS) Response B) :
  (∀ a, m = Ok a → lasts (k a)) → lasts (hbind (try m f) k).
Proof. intros Hk w out w'. unfold hbind, try. destruct m as [a|e]; [by apply Hk|by intros [= <- <-]]. Qed.

Lemma lasts_audit inp r action subject caller serial md : lasts (emitAudit inp r action subject caller serial md).
Proof. by intros w out w' [= <- <-]. Qed.

Lemma lasts_certs {A} (m : M AS A) : lasts (step (on_certs m)).
Proof. intros w out w'. unfold step, on_certs. destruct (m (certs w)). by intros [= <- <-]. Qed.

Lemma lasts_krl {A} (m : KS → A * KS) : (∀ k, still k (m k).2) → lasts (step (Api.on_krl m)).
Proof.
  intros Hm w out w'. unfold step, Api.on_krl. specialize (Hm (krls w)). destruct (m (krls w)).
  by intros [= <- <-].
Qed.

Lemma lasts_authenticate srv r groups : lasts (authenticate (PS:=RS) (MS:=HS) srv r groups).
Proof. by intros w out w' [-> _]%authenticate_spec. Qed.

Lemma still_revoke now r : dur_kind (Krl.Serial r) (KeyID r) → uint64_ok (Krl.Serial r) →
  year_ok (Revoked r) → year_ok now → ∀ k, still k (Api.Revoke now r k).2.
Proof. intros Hk Hs Hr Hn k Hok. by apply dur_revoke. Qed.

Lemma still_snapshot now k : still k (Api.Snapshot now k).2.
Proof. intros Hok. destruct (dur_snapshot now k Hok) as [? Hn]. split; [done|]. intros. by rewrite Hn. Qed.

Lemma still_spec spec now k : MarshalSpec = Some spec → still k (spec now k).2.
Proof. intros Hsp Hok. destruct (dur_spec spec now k Hsp Hok) as [? Hn]. split; [done|]. intros. by rewrite Hn. Qed.

(** Through the structure of a handler. *)
Ltac lasting :=
  repeat first
    [ apply lasts_ret | apply lasts_reply | apply lasts_try | apply lasts_audit | apply lasts_certs
    | apply lasts_authenticate | apply lasts_bind; [|intros ?]
    | match goal with |- lasts (match ?x with _ => _ end) => destruct x end ].

Lemma api_lasts srv q c : request_ok q →
  (∀ d, c = CallRevoke d → d = decode_revoke (content q)) →
  lasts (handle (PS:=RS) (MS:=HS) (AS:=AS) srv (inputs q) (api q) c).
Proof.
  intros Hq Hc. destruct c; cbn [handle]; unfold handleSignUserCert, decide_user, handleSignHostCert, decide_host,
    ApiSsh.policy_failed, handleSignX509WorkloadCert, checks, issue, mint, decide_x509, check_issuer, ApiX509.guard,
    deny_locked, allow_reenroll, deny_no_serial, deny_clone, audit_x509, record_rotation, handleAdoptX509, handleRevocations, handleRevocationsSpec; try (by lasting).
  - rewrite (Hc d eq_refl). unfold handleRevoke. destruct (negb (krl srv)); [apply lasts_reply|].
    apply lasts_try_bind. intros req Hd%decodeRequest_Ok. destruct (ok_body q Hq req Hd) as [Hs Hk].
    lasting. apply lasts_krl, still_revoke; [done|done|exact zero_year_ok|apply Hq].
  - lasting. apply lasts_krl, still_snapshot.
  - destruct Api.MarshalSpec as [spec|] eqn:E; lasting. apply lasts_krl. intros k. by apply still_spec.
Qed.

(** *** In the portal *)
Definition anything {A} : A → A → Prop := λ _ _, True.

#[local] Instance anything_preorder A : PreOrder (@anything A).
Proof. by split. Qed.

Abbreviation plasts := (keeps (RS:=RS) (HS:=HS) (KS:=KS) anything anything still) (only parsing).

Lemma plasts_try {A} (m : result A) f : plasts (try m f).
Proof. intros w out w'. unfold try. by destruct m; intros [= <- <-]; split_and!. Qed.

Lemma plasts_form {A} r (k : (string → string) → Handler (PWorld RS HS KS) PResponse A) :
  (∀ f, Body r = Ok f → plasts (k f)) → plasts (hbind (posted_form r) k).
Proof.
  intros Hk w out w'. unfold posted_form, hbind, try. destruct (Body r) as [f|e]; [|by intros [= <- <-]; split_and!].
  destruct (checkCSRF r f); simpl; [by apply Hk|by intros [= <- <-]; split_and!].
Qed.

(** The number the revoke form stands for. *)
Lemma portal_serial f serial :
  (if str_empty (TrimSpace (f "serial")) then Ok 0 else parseUint64 (TrimSpace (f "serial"))) = Ok serial →
  uint64_ok serial ∧ serial = typed_serial f mod 2^64.
Proof. apply serial_parsed. Qed.

Lemma portal_lasts ps now fresh order rt r :
  year_ok now →
  (∀ f, Body r = Ok f → dur_kind (typed_serial f mod 2^64) (TrimSpace (f "key_id"))) →
  plasts (dispatch ps now fresh order rt r).
Proof.
  intros Hnow Hkind.
  assert (∀ k : role_writer → Handler (PWorld RS HS KS) PResponse PResponse,
    (∀ rw, plasts (k rw)) → plasts (with_writer ps now r k)) as Hwriter.
  { intros k Hk. unfold with_writer. destruct (roleWriter ps now r); [apply Hk|apply same_reply; apply _]. }
  assert (∀ A (f : RS → A * RS), plasts (on_roles f)) as Hroles by (intros; apply same_on_roles; [apply _..|done]).
  destruct (is_post rt) eqn:Hrt; cycle 1.
  { apply get_keeps; [apply _..| |done]. split; [by destruct (RoleSource ps)|]. split; [by destruct (HostSource ps)|].
    intros k. apply still_snapshot. }
  destruct rt; try discriminate; cbn [dispatch];
    unfold handleRoleCreate, handleRoleUpdate, handleRoleDelete, handleRevocationsCreate.
  - apply Hwriter. intros rw. apply plasts_form. intros f _. destruct (parseRoleForm _) as [parsed fields].
    repeat (apply same_bind; [apply _..|apply plasts_try || apply Hroles|intros ?]). apply same_ret; apply _.
  - apply Hwriter. intros rw. apply plasts_form. intros f _. destruct (parseRoleForm _) as [parsed fields].
    repeat (apply same_bind; [apply _..|apply plasts_try || apply Hroles|intros ?]). apply same_ret; apply _.
  - apply Hwriter. intros rw. apply plasts_form. intros f _.
    repeat (apply same_bind; [apply _..|apply plasts_try || apply Hroles|intros ?]). apply same_ret; apply _.
  - destruct (negb _); [apply same_reply; apply _|]. apply plasts_form. intros f Hf.
    assert (∀ msg a b c, plasts (renderRevocationError ps now fresh r msg a b c)) as Herr.
    { intros msg a b c. apply same_bind; [apply _..| |intros ?; apply same_ret; apply _].
      apply same_on_krl; [apply _..|]. apply still_snapshot. }
    destruct (if str_empty _ then _ else _) as [serial|e] eqn:Es; [|apply Herr].
    apply portal_serial in Es as [Hs ->]. destruct (_ && _); [apply Herr|].
    apply same_bind; [apply _..| |intros [[]|e]; [apply same_ret; apply _|apply Herr]].
    apply same_on_krl; [apply _..|]. apply still_revoke; [by apply Hkind|done|exact zero_year_ok|done].
Qed.
(** *** One request, and any number *)

Lemma request_lasts q (s : site) rep s' :
  request_ok q → handle_request svc q s = (rep, s') → still (s_krl s) (s_krl s').
Proof.
  intros Hq E. unfold handle_request in E.
  assert (∀ g, (g, s) = (rep, s') → still (s_krl s) (s_krl s')) as Hsame by (by intros g [= _ <-]).
  destruct (limited _ q); [by eapply Hsame|].
  destruct (findHandler _ (method q) (path q)) as [e vs| | | |]; try (by eapply Hsame).
  destruct (decide (e = PortalTree)) as [->|He].
  - destruct (portal svc) as [ps|] eqn:Eps; [|by eapply Hsame]. unfold StripPrefix in E.
    destruct (CutPrefix "/portal" (path q)) as [p|]; [|by eapply Hsame]. unfold serve_portal in E.
    destruct (gate ps (with_path p q)) as [resp|r] eqn:Eg; [by eapply Hsame|].
    destruct (findHandler _ _ _) as [[rt| | |] vs'| | | |]; try (by eapply Hsame).
    destruct (serve _ _) as [resp w] eqn:Es. injection E as <- <-. unfold serve in Es.
    destruct (dispatch _ _ _ _ rt (with_name vs' r) _) as [out w1] eqn:Ed.
    assert (w1 = w) as -> by (destruct out; by injection Es).
    destruct (portal_lasts ps (page_now q) (fresh q) (order q) rt (with_name vs' r) (ok_page_clock q Hq)
      ltac:(intros f Hf; by eapply (ok_form q Hq ps p r f)) _ _ _ Ed) as (_ & _ & Hk & _). exact Hk.
  - assert (serve_api svc e q s = (rep, s')) as E' by (by destruct e). unfold serve_api in E'.
    destruct (call_of e q) as [c|] eqn:Ec; [|destruct e; try discriminate; by eapply Hsame].
    destruct (serve _ _) as [resp w] eqn:Es. injection E' as <- <-. unfold serve in Es.
    destruct (handle _ _ _ c _) as [out w1] eqn:Eh. assert (w1 = w) as -> by (destruct out; by injection Es).
    refine (api_lasts (server_at svc s) q c Hq _ (api_state s) out w Eh).
    intros d ->. destruct e; try discriminate Ec. by injection Ec as <-.
Qed.

Lemma requests_last qs (s : site) :
  Forall request_ok qs → still (s_krl s) (s_krl (run_list (handle_request svc) qs s).2).
Proof.
  intros Hqs. revert s. induction Hqs as [|q qs Hq _ IH]; intros s; [done|]. simpl.
  destruct (handle_request svc q s) as [rep s1] eqn:E. specialize (IH s1).
  destruct (run_list _ qs s1) as [reps s2]. simpl in *.
  transitivity (s_krl s1); [by eapply request_lasts|done].
Qed.

(** What a revocation names. *)
Definition named (revSerial : Z) (revKey : string) (serial : Z) (keyID : string) : Prop :=
  serial ≠ 0 ∧ serial = revSerial ∨ keyID ≠ "" ∧ keyID = revKey.

(** The answer tells the client that the serial or the key ID is revoked now. *)
Inductive confirmed (q : SRequest) : served → Z → string → Prop :=
  | by_api vs resp req serial keyID :
      findHandler (Routes (has_portal svc)) (method q) (path q) = Found Revoke vs →
      decode_revoke (content q) = Ok req → status resp = StatusOK →
      named (RevSerial req) (RevKeyID req) serial keyID →
      confirmed q (RApi resp) serial keyID
  | by_portal vs vs' ps p r f resp serial keyID :
      findHandler (Routes (has_portal svc)) (method q) (path q) = Found PortalTree vs →
      portal svc = Some ps → path q = "/portal" +:+ p → gate ps (with_path p q) = inr r →
      findHandler (portal_Routes (HasOIDC ps)) (method q) p = Found (Own PostRevocations) vs' →
      Body r = Ok f → p_status resp = StatusSeeOther →
      named (typed_serial f mod 2^64) (TrimSpace (f "key_id")) serial keyID →
      confirmed q (RPage resp) serial keyID.

(** The store says so. *)
Lemma confirmed_named q (s : site) rep s' serial keyID :
  request_ok q → dur_ok (s_krl s) →
  handle_request svc q s = (rep, s') → confirmed q rep serial keyID →
  krl_names (s_krl s') serial keyID = true.
Proof.
  intros Hq Hok E Hc. unfold handle_request in E.
  destruct (limited _ q); [injection E as <- _; inversion Hc|].
  destruct Hc as [vs resp req serial keyID Hf Hd Hst Hn|vs vs' ps p r f resp serial keyID Hf Hps Hp Hg Hf' Hb Hst Hn];
    rewrite Hf in E.
  - unfold serve_api in E. cbn [call_of] in E.
    destruct (serve _ _) as [resp' w] eqn:Es. injection E as -> <-.
    destruct (revoke_endpoint_effective (server_at svc s) (inputs q) (api q) (decode_revoke (content q))
      (api_state s) resp w) as (_ & _ & _ & Heff); [by apply dur_krl_ok|apply Hq| |exact Es|].
    { intros req' Hreq. by apply (ok_body q Hq). }
    destruct (Heff Hst) as (req' & caller & e & Hreq & _ & _ & _ & _ & _ & Hin).
    assert (req' = req) as -> by congruence. by apply Hin.
  - rewrite Hps in E. unfold StripPrefix in E. rewrite Hp, CutPrefix_app in E.
    unfold serve_portal in E. cbn [method path page_now fresh order with_path] in E. rewrite Hg, Hf' in E.
    destruct (serve _ _) as [resp' w] eqn:Es. injection E as -> <-. cbn [dispatch] in Es.
    destruct (portal_revocation_effective ps (page_now q) (fresh q) (with_name vs' r) (portal_state s) resp w)
      as (f' & Hb' & _ & _ & _ & _ & _ & _ & Hin); [by apply dur_krl_ok|apply Hq|exact Es|done|].
    cbn [Body with_name] in Hb'. assert (f' = f) as -> by congruence. by apply Hin.
Qed.
(** C7: a revocation lasts.  Once the API or the portal has confirmed a revocation,
    every lookup of the serial or key ID it named says revoked, whatever requests the
    server gets in between and after, to whatever route, granted or refused,
    reaching it by whatever caller; with the database, whatever it loses.  The
    in-memory store keeps every revocation; the database those that name a serial or
    a key ID and not both, and then asks the same of the requests in between, for a
    later revocation replaces the rows that share a name with it. *)
Theorem revocation_lasts q qs (s : site) rep s1 serial keyID b k :
  request_ok q → Forall request_ok qs → dur_ok (s_krl s) → uint64_ok serial →
  handle_request svc q s = (rep, s1) → confirmed q rep serial keyID →
  Api.IsRevoked serial keyID (s_krl (run_list (handle_request svc) qs s1).2) = (b, k) → b = true.
Proof.
  intros Hq Hqs Hok Hser E Hc Hlk. pose proof (confirmed_named q s rep s1 _ _ Hq Hok E Hc) as Hn.
  destruct (request_lasts q s rep s1 Hq E Hok) as [Hok1 _].
  destruct (requests_last qs s1 Hqs Hok1) as [Hok2 Hn2].
  destruct (krl_is_revoked _ _ _ _ _ (dur_krl_ok _ Hok2) Hser Hlk) as [_ Hb]. by apply Hb, Hn2.
Qed.
End Lasting.

(** ** Instances: an open API and a portal behind a password, in memory *)
Module ServiceExamples.
Import SshApiExamples PortalExamples.

#[local] Existing Instances toy toyText Guard.GuardExamples.lib Guard.GuardExamples.crypto Guard.GuardExamples.pkix
  RestExamples.unit_certs.

(** The body of a revocation is the key ID. *)
#[local] Instance bodies : BodyLib := {|
  decode_sign_user _ := user_body; decode_sign_host _ := Err (ErrOpaque "host");
  decode_sign_x509 _ := Err (ErrOpaque "x509"); decode_adopt _ := Err (ErrOpaque "adopt");
  decode_revoke s := Ok (mkRevoke 0 s "stolen") |}.

Definition unauthorized : PResponse := http_error "Unauthorized" 401.

#[local] Instance base : BaseLib := {|
  limited exempt q := bool_decide (path q ∉ exempt) && bool_decide (content q = "flood");
  Gate _ q := inr (page q);
  BasicAuth exempt q :=
    if bool_decide (path q ∈ exempt) || bool_decide (BasicUser (page q) = Some "admin") then inr (page q)
    else inl unauthorized;
  LoginHandler _ := unauthorized; CallbackHandler _ := unauthorized; LogoutHandler _ := redirect "/" |}.

Definition svc : Service Policy.InMemoryStore.t Mtls.InMemoryStore.t :=
  mkService (mkServer SshExamples.toySigner SshExamples.toySigner None None "" "" (Some ()) None None
               true false true "v1")
    (Some (mkPServer (PlainRoles memory_roles) None true true false)).

Definition req (m p body : string) (page : PRequest) : SRequest :=
  mkSRequest m p RestExamples.stale_token body page inp 0 anon (λ _, []) (Ok "").

Definition no_page : PRequest := mkPRequest "" (Err (ErrNew "no form")) None None "".

Definition start : Site Policy.InMemoryStore.t Mtls.InMemoryStore.t unit Krl.InMemoryStore.t :=
  mkSite (Policy.InMemoryStore.NewInMemoryStore [ReconcileExamples.portal_role]) (Mtls.InMemoryStore.NewInMemoryStore [])
    () Krl.InMemoryStore.NewInMemoryStore [] [].

Definition revoke := req "POST" "/api/v1/ssh/revoke" "host-7" no_page.
(** A wrong method, a signature, another revocation, and a role edit. *)
Definition later : list SRequest :=
  [ req "GET" "/api/v1/ssh/revoke" "host-7" no_page;
    req "POST" "/api/v1/ssh/sign-user" "" no_page;
    req "POST" "/portal/revocations" "" (form_request "" [("csrf_token", "tok"); ("serial", "7"); ("key_id", "host-7")]);
    req "POST" "/portal/roles/ops/delete" "" (form_request "" [("csrf_token", "tok")]);
    req "GET" "/portal" "" no_page; req "POST" "/api/v1/ssh/revoke" "flood" no_page ].

Definition revoked := handle_request svc revoke start.
Definition course := run_list (handle_request svc) later revoked.2.

(** What each was answered. *)
Definition code (r : served) : Z :=
  match r with
  | RApi resp => status resp | RPage resp => p_status resp | RRedirect _ => 301 | RStatus c => c
  | RNotAllowed _ => 405 | RTooMany => 429
  end.

Example answers : code revoked.1 = 200 ∧ (code <$> course.1) = [405; 400; 303; 303; 301; 429].
Proof. by vm_compute. Qed.

Lemma requests_ok m p body page : request_ok (KS:=Krl.InMemoryStore.t) svc (req m p body page).
Proof. split; [by vm_compute|by vm_compute| |done]. intros q [= <-]. by vm_compute. Qed.

(** The lookup that the bastion makes, after all of that. *)
Lemma revocation_lasts_witness : (Api.IsRevoked 0 "host-7" (s_krl course.2)).1 = true.
Proof.
  apply (revocation_lasts svc revoke later start revoked.1 revoked.2 0 "host-7"
    _ (Api.IsRevoked 0 "host-7" (s_krl course.2)).2).
  - apply requests_ok.
  - unfold later. repeat (apply Forall_cons; split; [apply requests_ok|]). by apply Forall_nil.
  - done.
  - by vm_compute.
  - apply surjective_pairing.
  - assert (revoked.1 = RApi (mkResponse StatusOK BRevoked)) as -> by (vm_compute; reflexivity).
    eapply (by_api svc revoke []); [by vm_compute|reflexivity|done|]. right. by split.
  - apply surjective_pairing.
Defined.

(** A page changes nothing. *)
Definition visit := req "GET" "/portal/roles" "" (form_request "" []).

Lemma changes_are_authorised_witness :
  (handle_request svc visit start).2 = start ∧ code (handle_request svc visit start).1 = 200.
Proof.
  split; [|by vm_compute].
  destruct (changes_are_authorised svc eq eq eq visit start (handle_request svc visit start).1
    (handle_request svc visit start).2) as [(Hr & Hh & Hk & Hc & Hl & Hg)|[[? _]|[? _]]].
  - split; [|split]; [|done|by intros spec now s [= <-]].
    intros now ps [= <-]. split; [by split|]. by split.
  - apply surjective_pairing.
  - destruct (handle_request svc visit start).2, start. simpl in *. by subst.
  - discriminate.
  - discriminate.
Defined.
End ServiceExamples.
