(* ===== verification/PortalLinks.v ===== *)
(** * PortalLinks: where the links of the pages lead

    The addresses that the role pages print, as the browser requests them and the
    multiplexers of [Service] route them: a role's links reach that role's handlers
    ([role_links_open]), for names without the characters that mean something in an
    address; for others they do not ([role_links_astray]).  The module of examples
    runs the theorems on pages of [PortalPages] and [PortalBrowser]. *)

From S2P Require Import Prelude GoText GoTime Policy Krl Json Http Api ApiRest PortalForm Portal PortalStore Custody InitEnv Mux Service GoTemplate GoHtml PortalTemplates PortalPages PortalBrowser PortalAddresses.

(** One case for each element of a list. *)
Ltac cases_of H :=
  first [exfalso; by apply not_elem_of_nil in H | apply elem_of_cons in H as [->|H]; [|cases_of H]].

(** ** Addresses *)

(** The path a browser requests for an address without [..] and [.] segments. *)
Definition address_path (a : string) : string := (cut_byte "?" (cut_byte "#" a).1.1).1.1.

(** A name that stands for itself in an address: no separator, and not a directory. *)
Definition linkable (name : string) : Prop :=
  Forall (λ c, c ∉ ["/"; "?"; "#"; "%"]%char) (bytes_of name) ∧ name ∉ [""; "."; ".."].

#[export] Instance linkable_dec name : Decision (linkable name).
Proof. unfold linkable. apply _. Defined.

(** ** An escaped name *)

Definition keeps_byte (c : ascii) : bool := one_of "!#$&*+,/:;=?@[]" c || one_of "-._~" c || latin c || is_digit c.

Lemma process_url_cons c t :
  c ≠ "%"%char → process_url true (String c t) = (if keeps_byte c then String c "" else percent c) +:+ process_url true t.
Proof.
  intros Hc. cbn [process_url]. unfold keeps_byte.
  assert (byte_is 37 c = false) as -> by (by destruct c as [[] [] [] [] [] [] [] []]).
  cbn [andb]. by rewrite orb_false_r.
Qed.

Lemma unescape_percent c t : unescape (percent c +:+ t) = String c <$> unescape t.
Proof.
  assert (∀ a b, unescape (String "%" (String a (String b t))) =
    (h ← hex_val a; l ← hex_val b; t ← unescape t; Some (String (ascii_of_N (h * 16 + l)) t))) as Hu by done.
  unfold percent. rewrite !str_app_cons, str_app_nil_l, Hu. generalize (unescape t) as o. intros o.
  destruct c as [[] [] [] [] [] [] [] []]; vm_compute; by destruct o.
Qed.

Lemma unescape_keep c t : c ≠ "%"%char → unescape (String c t) = String c <$> unescape t.
Proof. intros Hc. destruct c as [[] [] [] [] [] [] [] []]; try done; simpl; by destruct (unescape t). Qed.

Lemma unescape_process name :
  Forall (λ c, c ≠ "%"%char) (bytes_of name) → unescape (process_url true name) = Some name.
Proof.
  induction name as [|c name IH]; intros Hn; [done|]. cbn [bytes_of] in Hn. apply Forall_cons in Hn as [Hc Hn].
  rewrite process_url_cons by done. destruct (keeps_byte c).
  - rewrite str_app_cons, str_app_nil_l, unescape_keep, IH by done. done.
  - by rewrite unescape_percent, IH.
Qed.

(** No byte of the escaped name separates. *)
Lemma percent_apart c : forallb (λ x, negb (one_of "/?#" x)) (bytes_of (percent c)) = true.
Proof. by destruct c as [[] [] [] [] [] [] [] []]. Qed.

Lemma process_url_bytes (d : ascii) name :
  d ∈ ["/"; "?"; "#"]%char → Forall (λ c, c ∉ ["/"; "?"; "#"; "%"]%char) (bytes_of name) →
  Forall (λ c, c ≠ d) (bytes_of (process_url true name)).
Proof.
  intros Hd. induction name as [|c name IH]; intros Hn; [constructor|]. cbn [bytes_of] in Hn.
  apply Forall_cons in Hn as [Hc Hn]. rewrite process_url_cons by (intros ->; apply Hc; set_solver).
  rewrite bytes_app. apply Forall_app. split; [|by apply IH].
  assert (c ≠ d) as Hcd by (intros ->; apply Hc; set_solver). destruct (keeps_byte c).
  - by apply Forall_cons_2.
  - apply Forall_forall. intros x Hx%list_elem_of_In ->. pose proof (percent_apart c) as Hp.
    eapply forallb_forall in Hp; [|done]. by cases_of Hd.
Qed.

(** ** The path *)

Lemma split_byte_sep sep s t : split_byte sep (s +:+ String sep t) = split_byte sep s ++ split_byte sep t.
Proof.
  induction s as [|c s IH].
  - rewrite str_app_nil_l. cbn [split_byte]. by rewrite bool_decide_true.
  - rewrite str_app_cons. cbn [split_byte]. rewrite IH. case_bool_decide; [done|].
    assert (split_byte sep s ≠ []) as Hne.
    { destruct s as [|d s]; simpl; [done|]. case_bool_decide; [done|]. by destruct (split_byte sep s). }
    by destruct (split_byte sep s).
Qed.

Section Path.
Context (name : string) (Hname : linkable name).

Abbreviation enc := (process_url true name) (only parsing).

Lemma enc_bytes d : d ∈ ["/"; "?"; "#"]%char → Forall (λ c, c ≠ d) (bytes_of enc).
Proof using Hname. intros Hd. destruct Hname as [Hn _]. by apply process_url_bytes. Qed.

Lemma enc_unescape : unescape enc = Some name.
Proof using Hname.
  destruct Hname as [Hn _]. apply unescape_process. eapply Forall_impl; [exact Hn|]. intros c Hc ->. apply Hc. set_solver.
Qed.

Lemma enc_not s : s ∈ [""; "."; ".."] → enc ≠ s.
Proof using Hname.
  intros Hs E. pose proof enc_unescape as Hu. rewrite E in Hu. destruct Hname as [_ Hne]. apply Hne.
  cases_of Hs; injection Hu as <-; set_solver.
Qed.
Definition suffixes : list string := [""; "/edit"; "/delete"].

Lemma split_enc pre suffix :
  suffix ∈ suffixes →
  split_byte "/" (pre +:+ "/" +:+ enc +:+ suffix) = split_byte "/" pre ++ enc :: tail (split_byte "/" suffix).
Proof using Hname.
  intros Hs. pose proof (enc_bytes "/" ltac:(set_solver)) as He.
  change ("/" +:+ enc +:+ suffix) with (String "/" (enc +:+ suffix)). rewrite split_byte_sep. f_equal.
  cases_of Hs; [by rewrite str_app_nil_r, split_byte_none|by apply (split_byte_app "/" enc)..].
Qed.

Lemma clean_step_push rooted st c : c ∉ [""; "."; ".."] → clean_step rooted st c = c :: st.
Proof.
  intros Hc. unfold clean_step, str_empty. rewrite !bool_decide_false by (intros ->; apply Hc; set_solver). done.
Qed.

Lemma clean_push rooted l st :
  Forall (λ c, c ∉ [""; "."; ".."]) l → fold_left (clean_step rooted) l st = rev l ++ st.
Proof.
  intros Hl. revert st. induction Hl as [|c l Hc Hl IH]; intros st; [done|]. simpl.
  by rewrite clean_step_push, IH, <- app_assoc.
Qed.

(** The path below the portal's prefix. *)
Definition role_path (suffix : string) : string := "/roles" +:+ "/" +:+ enc +:+ suffix.

Lemma role_path_clean suffix :
  suffix ∈ suffixes → cleanPath (role_path suffix) = role_path suffix ∧ ends_in_slash (role_path suffix) = false.
Proof using Hname.
  intros Hs. pose proof (split_enc "/roles" suffix Hs) as Hsplit. fold (role_path suffix) in Hsplit.
  assert (enc ∉ [""; "."; ".."]) as He by (intros H; by eapply enc_not).
  assert (ends_in_slash (role_path suffix) = false) as Hend.
  { unfold ends_in_slash. rewrite Hsplit. apply bool_decide_false.
    cases_of Hs; simpl; try done. intros E. apply He. rewrite E. by left. }
  split; [|done].
  assert (str_empty (role_path suffix) = false) as Hne by done.
  assert (String.prefix "/" (role_path suffix) = true) as Hpre by done.
  unfold cleanPath. rewrite Hne, Hpre. cbn zeta. rewrite Hend. unfold Clean. rewrite Hne, Hpre. cbn [andb].
  rewrite Hsplit. assert (Forall (λ c, c ∉ [""; "."; ".."]) ("roles" :: enc :: tail (split_byte "/" suffix))) as Hall.
  { repeat apply Forall_cons_2; [set_solver|done|]. cases_of Hs; apply (bool_decide_unpack _); by vm_compute. }
  change (fold_left (clean_step true) (split_byte "/" "/roles" ++ enc :: tail (split_byte "/" suffix)) [])
    with (fold_left (clean_step true) ("roles" :: enc :: tail (split_byte "/" suffix)) []).
  rewrite (clean_push _ _ _ Hall), app_nil_r, rev_involutive. unfold role_path.
  generalize enc as e. intros e. clear -Hs. cases_of Hs; cbn; by rewrite ?str_app_nil_r.
Qed.

Lemma role_path_segments suffix :
  suffix ∈ suffixes → path_segments (role_path suffix) = "roles" :: name :: tail (split_byte "/" suffix).
Proof using Hname.
  intros Hs. unfold path_segments, role_path. rewrite split_enc by done.
  assert (pathUnescape enc = name) as Hu by (unfold pathUnescape; by rewrite enc_unescape).
  assert (str_empty enc = false) as Hne.
  { unfold str_empty. apply bool_decide_false. intros E. eapply enc_not; [|exact E]. by left. }
  revert Hu Hne. generalize enc as e. intros e Hu Hne. cases_of Hs; simpl; by rewrite ?Hne, Hu.
Qed.

(** What the browser asks for, below the portal's prefix. *)
Lemma link_path suffix :
  suffix ∈ suffixes → CutPrefix "/portal" (address_path (role_link name suffix)) = Some (role_path suffix).
Proof using Hname.
  intros Hs. assert (∀ d, d ∈ ["?"; "#"]%char → Forall (λ c, c ≠ d) (bytes_of (role_link name suffix))) as Hd.
  { intros d Hd. unfold role_link. rewrite !bytes_app. repeat (apply Forall_app; split).
    - cases_of Hd; apply (bool_decide_unpack _); by vm_compute.
    - cases_of Hd; apply (bool_decide_unpack _); by vm_compute.
    - apply enc_bytes. set_solver.
    - cases_of Hd; cases_of Hs; apply (bool_decide_unpack _); by vm_compute. }
  unfold address_path. rewrite (cut_byte_none "#") by (apply Hd; set_solver). cbn [fst].
  rewrite cut_byte_none by (apply Hd; set_solver). cbn [fst].
  assert (role_link name suffix = "/portal" +:+ role_path suffix) as -> by done.
  unfold CutPrefix. rewrite prefix_app. f_equal. rewrite str_length_app, substring_app_r.
  apply substring_all. lia.
Qed.
End Path.

(** A match by a pattern that is not a subtree is where the request goes. *)
Lemma find_matched {H} (rs : list (pattern * H)) method p pat h vs :
  method ≠ "CONNECT" → cleanPath p = p → p ≠ "*" →
  matchMethodAndPath rs method p = Some (pat, h, vs) → last (p_segments pat) ≠ Some Subtree →
  findHandler rs method p = Found h vs.
Proof.
  intros Hm Hc Hp Em Hs. unfold findHandler. rewrite !bool_decide_false by done. rewrite Hc, Em.
  assert (exactMatch (Some (pat, h, vs)) p = true) as -> by (unfold exactMatch; by rewrite bool_decide_false).
  cbn [negb andb]. by rewrite bool_decide_true.
Qed.

Definition role_routes : list (string * string * route) :=
  [("GET", "", GetRole); ("GET", "/edit", GetRoleEdit); ("POST", "/edit", PostRoleEdit); ("POST", "/delete", PostRoleDelete)].

(** Below a node whose only literal is [new], any other segment is the wildcard's. *)
Lemma findChild_none {H} name (n : list (list segment * (pattern * H))) :
  forallb (λ x, match head x.1 with Some (Mux.Lit s) => bool_decide (s = "new") | _ => true end) n = true →
  name ≠ "new" → findChild name n = [].
Proof.
  intros Hn Hnew. unfold findChild, child. induction n as [|[[|s l] r] n IH]; [done|by apply IH|].
  cbn [forallb fst head] in Hn. apply andb_true_iff in Hn as [Hs Hn]. simpl.
  rewrite bool_decide_false; [by apply IH|]. intros ->. by apply bool_decide_eq_true in Hs.
Qed.

Lemma role_matched auth name x :
  x ∈ role_routes → x.1.2 ≠ "" ∨ name ≠ "new" → name ≠ "/" →
  ∃ pat, matchPath (of_method x.1.1 (portal_Routes auth)) ("roles" :: name :: tail (split_byte "/" x.1.2)) [] =
    Some ((pat, Own x.2), [name]) ∧ last (p_segments pat) ≠ Some Subtree.
Proof.
  intros Hr Hn Hslash. destruct (decide (name = "new")) as [->|Hnew].
  { cases_of Hr; first [by destruct Hn|destruct auth; eexists; (split; [vm_compute; reflexivity|done])]. }
  assert (bool_decide (name = "/") = false) as Hsl by (by apply bool_decide_false).
  cases_of Hr; destruct auth; eexists; cbn [matchPath fst snd];
    (rewrite (findChild_none name) by (done || by vm_compute)); rewrite Hsl; (split; [vm_compute; reflexivity|done]).
Qed.

(** What a link or a form asks for is served by this handler, with these values of the
    pattern's wildcards. *)
Definition leads (auth : bool) (x : string * string) (rt : route) (vs : list string) : Prop :=
  ∃ p, CutPrefix "/portal" (address_path x.2) = Some p ∧ findHandler (portal_Routes auth) x.1 p = Found (Own rt) vs.

Lemma link_leads auth name m suffix rt :
  linkable name → (m, suffix, rt) ∈ role_routes → suffix ≠ "" ∨ name ≠ "new" →
  leads auth (m, role_link name suffix) rt [name].
Proof.
  intros Hname Hr Hn. assert (suffix ∈ suffixes) as Hs.
  { unfold role_routes in Hr. set_unfold in Hr. destruct_or!; simplify_eq; set_solver. }
  assert (m ≠ "CONNECT") as Hm by (set_unfold in Hr; destruct_or!; by simplify_eq).
  destruct (role_matched auth name _ Hr Hn) as (pat & Epat & Hsub).
  { intros ->. destruct Hname as [Hb _]. apply Forall_cons in Hb as [Hb _]. apply Hb. by left. }
  exists (role_path name suffix). split; [by apply link_path|].
  destruct (role_path_clean name Hname suffix Hs) as [Hc _].
  apply find_matched with pat; try done. unfold matchMethodAndPath.
  rewrite role_path_segments by done. cbn [fst snd] in Epat |- *. by rewrite Epat.
Qed.

Lemma new_leads auth : leads auth ("GET", "/portal/roles/new") GetRoleNew [].
Proof. exists "/roles/new". split; [by vm_compute|]. destruct auth; by vm_compute. Qed.

(** Where the list leads for a role. *)
Definition opens (auth : bool) (role : Role) (x : string * string) : Prop :=
  if decide (Policy.Name role = "new") then leads auth x GetRoleNew [] else leads auth x GetRole [Policy.Name role].

Lemma page_opens auth role : linkable (Policy.Name role) → opens auth role ("GET", role_link (Policy.Name role) "").
Proof.
  intros Hname. unfold opens. destruct (decide _) as [->|Hn]; [apply new_leads|].
  apply link_leads; [done| |by right]. unfold role_routes. set_solver.
Qed.

(** C40: the links of the role pages lead to the role they are about.  The bytes of
    the list, of a role's page and of its edit form are read as a browser reads them;
    among the addresses of their links and forms, those below [/portal/roles/] are:
    on the list, the form for a new role and then one for each role, in order, which
    opens that role's page; on a role's page, the edit form of that role, and the
    button that deletes that role; in the edit form, the update of that role.  Each is
    routed to that handler with exactly the role's name.  It is so for every name that
    has none of the bytes slash, question mark, number sign and percent sign, and is
    not empty and not [.] or [..]; but the list's link to a role named [new] opens the
    form for a new role in place of that role's page. *)
Theorem role_links_open {RS HS} (srv : PServer RS HS) (r : PRequest) (auth : bool) :
  let b := base_data srv r "roles" in
  (∀ roles, Forall (λ role, linkable (Policy.Name role)) roles →
    ∃ h l new links, page_html (PRoles b roles) = Ok h ∧ tokenize h = Some l ∧ role_addresses l = new :: links ∧
      leads auth new GetRoleNew [] ∧ Forall2 (opens auth) roles links) ∧
  (∀ name role token, linkable (Policy.Name role) →
    ∃ h l edit delete, page_html (PRoleDetail b name (Some role) token) = Ok h ∧ tokenize h = Some l ∧
      role_addresses l = [edit; delete] ∧
      leads auth edit GetRoleEdit [Policy.Name role] ∧ leads auth delete PostRoleDelete [Policy.Name role]) ∧
  (∀ name submit token F, linkable name →
    ∃ h l save, page_html (PRoleForm b "edit" ("/roles/" +:+ name +:+ "/edit") submit "" token name F) = Ok h ∧
      tokenize h = Some l ∧ role_addresses l = [save] ∧ leads auth save PostRoleEdit [name]).
Proof.
  assert (∀ m suffix rt name, (m, suffix, rt) ∈ role_routes → suffix ≠ "" → linkable name →
    leads auth (m, role_link name suffix) rt [name]) as Hl.
  { intros m suffix rt name Hr Hs Hname. apply link_leads; [done..|by left]. }
  split_and!.
  - intros roles Hr. destruct (roles_page_addresses srv r roles) as (h & l & Hh & Ht & E).
    eexists h, l, _, _. split_and!; [done|done|exact E|apply new_leads|]. clear E Ht Hh.
    induction Hr as [|x roles Hx Hr IH]; [constructor|]. rewrite fmap_cons. by constructor; [apply page_opens|].
  - intros name role token Hname. destruct (role_page_addresses srv r name role token) as (h & l & Hh & Ht & E).
    eexists h, l, _, _. split_and!; [done|done|exact E| |]; apply Hl; try done; unfold role_routes; set_solver.
  - intros name submit token F Hname. destruct (form_page_addresses srv r name submit token F) as (h & l & Hh & Ht & E).
    eexists h, l, _. split_and!; [done|done|exact E|]. apply Hl; try done; unfold role_routes; set_solver.
Qed.

(** ** On concrete pages *)
Module PageExamples.
Import PortalExamples.
#[local] Existing Instance cookie_sessions.

(** A name that is an address of its own leads elsewhere.  A role [new] cannot be
    opened; one with a slash has no page; a question mark cuts the rest off; and the
    delete button of [a%41] deletes the role [aA]. *)
Definition follow (m name suffix : string) : option (outcome portal_endpoint) :=
  findHandler (portal_Routes false) m <$> CutPrefix "/portal" (address_path (role_link name suffix)).

Definition plain_role (name : string) : Role := mkRole name "grp" ["alice"] [] [] 0 0 0 ∅.

Definition two_roles : PWorld Policy.InMemoryStore.t unit Krl.InMemoryStore.t :=
  mkPWorld (Policy.InMemoryStore.NewInMemoryStore [plain_role "a%41"; plain_role "aA"]) ()
    Krl.InMemoryStore.NewInMemoryStore [].

(** The delete button on the page of [a%41], pressed. *)
Definition pressed : PResponse * PWorld Policy.InMemoryStore.t unit Krl.InMemoryStore.t :=
  match follow "POST" "a%41" "/delete" with
  | Some (Found (Own rt) vs) =>
      serve (dispatch (KS:=Krl.InMemoryStore.t) memory_portal 0 anon (λ _, []) rt
        (with_name vs (form_request "" [("csrf_token", "tok")]))) two_roles
  | _ => (http_error "" 0, two_roles)
  end.

Lemma role_links_astray :
  follow "GET" "new" "" = Some (Found (Own GetRoleNew) []) ∧
  follow "GET" "dev/ops" "" = Some NotFound ∧
  follow "POST" "dev/ops" "/delete" = Some NotFound ∧
  follow "GET" "a?b" "" = Some (Found (Own GetRole) ["a"]) ∧
  (* every such name passes the form *)
  (parseRoleForm (Ok (submit cr (roleToForm [] (plain_role "a%41"))))).1 = Ok (plain_role "a%41") ∧
  p_status pressed.1 = StatusSeeOther ∧
  Policy.Name <$> Policy.InMemoryStore.All (p_roles pressed.2) = ["a%41"].
Proof. split_and!; by vm_compute. Qed.

(** A list of a role with a name that has to be escaped, and of one named [new]; and
    the page of the first. *)
Definition odd_base : baseData := base_data memory_portal (form_request "" []) "roles".
Definition odd_roles : list Role := [plain_role "dev ops+<b>"; plain_role "new"].

Lemma role_links_open_witness :
  (∃ h l new x y, page_html (PRoles odd_base odd_roles) = Ok h ∧ tokenize h = Some l ∧
    role_addresses l = [new; x; y] ∧ leads true x GetRole ["dev ops+<b>"] ∧ leads true y GetRoleNew []) ∧
  (∃ h l edit delete, page_html (PRoleDetail odd_base "dev ops+<b>" (Some (plain_role "dev ops+<b>")) "tok") = Ok h ∧
    tokenize h = Some l ∧ role_addresses l = [edit; delete] ∧
    delete = ("POST", "/portal/roles/dev%20ops+%3cb%3e/delete") ∧
    leads true delete PostRoleDelete ["dev ops+<b>"]).
Proof.
  assert (linkable "dev ops+<b>") as Hl by (apply (bool_decide_unpack _); vm_compute; exact I).
  assert (linkable "new") as Hn by (apply (bool_decide_unpack _); vm_compute; exact I).
  destruct (role_links_open memory_portal (form_request "" []) true) as (H1 & H2 & _). split.
  - destruct (H1 odd_roles) as (h & l & new & links & Hh & Ht & E & _ & Hf).
    { by repeat apply Forall_cons_2. }
    apply Forall2_cons_inv_l in Hf as (x & k & Hx & Hf & ->). apply Forall2_cons_inv_l in Hf as (y & k' & Hy & Hf & ->).
    apply Forall2_nil_inv_l in Hf as ->.
    unfold opens in Hx, Hy. rewrite decide_False in Hx by done. rewrite decide_True in Hy by done.
    exists h, l, new, x, y. exact (conj Hh (conj Ht (conj E (conj Hx Hy)))).
  - destruct (H2 "dev ops+<b>" (plain_role "dev ops+<b>") "tok" Hl) as (h & l & edit & delete & Hh & Ht & E & _ & Hd).
    exists h, l, edit, delete. refine (conj Hh (conj Ht (conj E (conj _ Hd)))).
    assert (match page_html (PRoleDetail odd_base "dev ops+<b>" (Some (plain_role "dev ops+<b>")) "tok") with
            | Ok h => role_addresses <$> tokenize h | Err _ => None end = Some [edit; delete]) as Ec.
    { unfold odd_base. rewrite Hh, Ht. cbn [fmap option_fmap option_map]. by rewrite E. }
    clear -Ec. vm_compute in Ec. congruence.
Defined.

(** A role that looks like markup. *)
Definition hostile_role : Role :=
  mkRole "<b>&amp;'" "g+1" ["</textarea><script>alert(1)</script>"; "bob smith"] ["*.corp"] [] 14400 0 0
    {[ "permit-pty" := "" ]}.

Definition hostile_base : baseData := base_data memory_portal (form_request "" []) "roles".

Definition hostile_page : Portal.page := PRoleDetail hostile_base "<b>&amp;'" (Some hostile_role) "tok".

Lemma page_renders_witness :
  ∃ ps h l l', page_pieces hostile_page = Ok ps ∧ page_html hostile_page = Ok h ∧
    tokenize h = Some l ∧ tokens_of ps = Some l ∧ tokens_of (blank <$> ps) = Some l' ∧ shape l = shape l' ∧
    GoHtml.Text "</textarea><script>alert(1)</script>" ∈ l.
Proof.
  destruct (page_renders hostile_page) as (ps & h & l & l' & H1 & H2 & H3 & H4 & H5 & H6); [done|].
  exists ps, h, l, l'. refine (conj H1 (conj H2 (conj H3 (conj H4 (conj H5 (conj H6 _)))))).
  assert (Some l = (match page_pieces hostile_page with Ok ps => tokens_of ps | Err _ => None end)) as E by (by rewrite H1).
  clear -E. vm_compute in E. injection E as ->. apply (bool_decide_unpack _). vm_compute. exact I.
Defined.

Definition hostile_world : PWorld Policy.InMemoryStore.t unit Krl.InMemoryStore.t :=
  mkPWorld (Policy.InMemoryStore.NewInMemoryStore [hostile_role]) () Krl.InMemoryStore.NewInMemoryStore [].
Definition any_order (r : Role) : list string := (map_to_list (DefaultExtensions r)).*1.
Definition edit_request : PRequest := form_request "<b>&amp;'" [].
Definition save_request (f : html_form) : PRequest :=
  mkPRequest "<b>&amp;'" (Ok (submission f)) None (Some "admin") "tok".

Lemma line_text (s : string) :
  bool_decide (TrimSpace s = s ∧ s ≠ "" ∧ Forall (λ c, c ≠ newline) (bytes_of s)) = true → line_ok s.
Proof. by intros H%bool_decide_eq_true. Qed.

Lemma plain_string s :
  bool_decide (Forall (λ c, byte_is 0 c = false) (bytes_of s)) && bool_decide (Forall (λ c, byte_is 13 c = false) (bytes_of s)) = true →
  plain s.
Proof. by intros [H1%bool_decide_eq_true H2%bool_decide_eq_true]%andb_true_iff. Qed.

Lemma plain_line_string s :
  bool_decide (Forall (λ c, byte_is 10 c = false) (bytes_of s)) = true → plain s → plain_line s.
Proof. by intros H%bool_decide_eq_true. Qed.

Ltac text_checks := first [apply line_text; vm_compute; reflexivity | apply plain_string; vm_compute; reflexivity].

Lemma hostile_form_ok : role_form_ok hostile_role.
Proof.
  split; simpl.
  - split; [by vm_compute|done].
  - split; [by vm_compute|done].
  - repeat apply Forall_cons_2; [text_checks..|constructor].
  - repeat apply Forall_cons_2; [text_checks..|constructor].
  - constructor.
  - done.
  - done.
  - done.
  - apply map_Forall_singleton. split; [text_checks|]. split; [apply (bool_decide_unpack _); vm_compute; exact I|].
    split; [by vm_compute|constructor].
Qed.

Lemma hostile_plain : role_plain hostile_role.
Proof.
  split; simpl.
  - apply plain_line_string; [by vm_compute|text_checks].
  - apply plain_line_string; [by vm_compute|text_checks].
  - repeat apply Forall_cons_2; [text_checks..|constructor].
  - repeat apply Forall_cons_2; [text_checks..|constructor].
  - constructor.
  - apply map_Forall_singleton. split; text_checks.
Qed.

End PageExamples.
