(* ===== verification/PortalBoot.v ===== *)
(** * PortalBoot: how the portal comes up

    Models [New] of [internal/server/portal/portal.go] and what [runServe] of
    [cmd/certd/main.go] gives it: the Basic credentials, the login configuration of
    [Boot], the audit tracker and the stores it shares with the API.  The session
    manager, the authenticator and the credentials' validation are the base
    library's.  The theorem: a portal that comes up is locked the way the environment
    says. *)

From S2P Require Import Prelude GoText GoTime Policy Krl Signer X509Engine Mtls Store Sql SqlStore Http Api Reconcile Custody Boot PortalForm Portal Mux PortalStore Service PortalTemplates.

(** ** The base library *)

Record BasicAuthConfig := mkBasicAuthConfig { Username : string; Password : string; Realm : string }.

Record SessionConfig := mkSessionConfig {
  RequiredGroup : string; SessionKey : string; CookiePrefix : string; SessionBasePath : string;
  SessionExempt : list string }.

Class PortalLib := {
  Manager : Type;
  Authenticator : Type;
  Cookie : Type;
  session_New : SessionConfig → result Manager;
  SiblingCookie : Manager → string → Cookie;
  (** [oidc.NewAuthenticator]: issuer, client, secret, redirect, verifier, cookie *)
  NewAuthenticator : string → string → string → string → option (string → result Claims) → Cookie → Manager →
    result Authenticator;
  (** [BasicAuthConfig.Validate] *)
  Validate : BasicAuthConfig → result unit;
}.

(** One of the two credentials alone is refused; a parsed key has 32 bytes. *)
Class PortalLibLaws `{PortalLib, BootLib} := {
  validate_pair c : Validate c = Ok tt → (Username c = "" ↔ Password c = "");
  kek_length s k : ParseKEK s = Ok k → String.length k = 32%nat;
}.

Section New.
Context `{PortalLib}.

(** What decides who gets in. *)
Record lock := mkLock { auth : option Authenticator; sess : Manager; basic : BasicAuthConfig }.

Definition enabled (c : OIDCConfig) : bool :=
  negb (str_empty (OIssuer c)) && negb (str_empty (OClientID c)) &&
  match OVerifier c with Some _ => true | None => false end && negb (str_empty (OSessionKey c)).

Definition login_session (c : OIDCConfig) : SessionConfig :=
  mkSessionConfig (OAdminGroup c) (OSessionKey c) "certd_portal" basePath ExemptPaths.

Definition csrf_session (key : string) : SessionConfig := mkSessionConfig "" key "certd_csrf" basePath [].

(** [portal.New]; [random]: [RandomBytes(32)]. *)
Definition New (random : result string) (basicAuth : BasicAuthConfig) (c : OIDCConfig) : result lock :=
  _ <-r rwrap "parse templates: " parsePages;;
  if enabled c then
    s <-r rwrap "portal session: " (session_New (login_session c));;
    a <-r rwrap "portal oidc: " (NewAuthenticator (OIssuer c) (OClientID c) (OClientSecret c) (ORedirectURL c)
      (OVerifier c) (SiblingCookie s "flow") s);;
    Ok (mkLock (Some a) s basicAuth)
  else
    key <-r (if str_empty (OSessionKey c) then rwrap "portal csrf session key: " random else Ok (OSessionKey c));;
    s <-r rwrap "portal csrf session: " (session_New (csrf_session key));;
    Ok (mkLock None s basicAuth).

(** ** From the environment *)
Section Environment.
Context `{BootLib} (getenv : string → string).

Definition loadPortalBasicAuth : result BasicAuthConfig :=
  let cfg := mkBasicAuthConfig (getenv "CERTD_PORTAL_USERNAME") (getenv "CERTD_PORTAL_PASSWORD")
               (env_or getenv "CERTD_PORTAL_REALM" "certd portal") in
  match Validate cfg with
  | Ok _ => Ok cfg
  | Err e => Err (ErrWrap "CERTD_PORTAL_USERNAME and CERTD_PORTAL_PASSWORD: " e "")
  end.

(** The audit source: none, the one that does nothing, or a stream. *)
Inductive audit_source := NoSource | NoopSource | Stream.

(** Whether there is a tracker, and its ring's bound. *)
Definition newAuditTracker (src : audit_source) : result (option Z) :=
  match src with
  | Stream => n <-r NewAuditTracker true 0;; Ok (Some n)
  | _ => Ok None
  end.

(** The portal [runServe] builds: its lock, and its pages over the API's stores. *)
Definition portal_of {RS HS} (random : result string) (src : audit_source)
    (roles : role_source RS) (hosts : option (HS → list Principal * HS)) : result (lock * PServer RS HS) :=
  basicAuth <-r loadPortalBasicAuth;;
  tracker <-r rwrap "audit tracker: " (newAuditTracker src);;
  oidc <-r rwrap "portal oidc: " (loadPortalOIDC getenv);;
  l <-r rwrap "portal: " (New random basicAuth oidc);;
  Ok (l, mkPServer roles hosts
           (match tracker with Some _ => true | None => false end) true
           (match auth l with Some _ => true | None => false end)).

(** ** What the lock is *)

(** A login was asked for. *)
Definition login_requested : Prop :=
  getenv "CERTD_PORTAL_OIDC_ISSUER" ≠ "" ∨ getenv "CERTD_PORTAL_OIDC_CLIENT_ID" ≠ "" ∨
  getenv "CERTD_PORTAL_OIDC_CLIENT_SECRET" ≠ "" ∨ getenv "CERTD_PORTAL_OIDC_REDIRECT_URL" ≠ "".

#[local] Instance login_requested_dec : Decision login_requested.
Proof. unfold login_requested. apply _. Defined.

Lemma loadPortalOIDC_spec c :
  loadPortalOIDC getenv = Ok c →
  if decide login_requested then
    ∃ key v, OIssuer c = getenv "CERTD_PORTAL_OIDC_ISSUER" ∧ OClientID c = getenv "CERTD_PORTAL_OIDC_CLIENT_ID" ∧
      OClientSecret c = getenv "CERTD_PORTAL_OIDC_CLIENT_SECRET" ∧
      ORedirectURL c = getenv "CERTD_PORTAL_OIDC_REDIRECT_URL" ∧
      OIssuer c ≠ "" ∧ OClientID c ≠ "" ∧ OClientSecret c ≠ "" ∧ ORedirectURL c ≠ "" ∧
      OAdminGroup c = env_or getenv "CERTD_PORTAL_ADMIN_GROUP" "ca-portal-admin" ∧
      ParseKEK (getenv "CERTD_PORTAL_SESSION_KEY") = Ok key ∧ OSessionKey c = key ∧
      NewLazyHTTPVerifier (OIssuer c) (OClientID c) = Ok v ∧ OVerifier c = Some v
  else OIssuer c = "" ∧
    (getenv "CERTD_PORTAL_SESSION_KEY" = "" ∧ OSessionKey c = "" ∨
     getenv "CERTD_PORTAL_SESSION_KEY" ≠ "" ∧ ParseKEK (getenv "CERTD_PORTAL_SESSION_KEY") = Ok (OSessionKey c)).
Proof.
  unfold loadPortalOIDC. set (i := getenv "CERTD_PORTAL_OIDC_ISSUER"). set (d := getenv "CERTD_PORTAL_OIDC_CLIENT_ID").
  set (s := getenv "CERTD_PORTAL_OIDC_CLIENT_SECRET"). set (u := getenv "CERTD_PORTAL_OIDC_REDIRECT_URL").
  assert (∀ x, session_key x = match ParseKEK x with Ok k => Ok k | Err e => Err (ErrWrap "CERTD_PORTAL_SESSION_KEY: " e " (want 64 hex chars / 32 bytes — generate with crypto.GenerateKEK)") end) as Hkey by done.
  destruct (decide login_requested) as [Hreq|Hreq]; unfold login_requested in Hreq; fold i d s u in Hreq.
  - assert (negb (negb (str_empty i) || negb (str_empty d) || negb (str_empty s) || negb (str_empty u)) = false) as ->.
    { apply negb_false_iff. rewrite !orb_true_iff, !negb_true_iff. unfold str_empty. rewrite !bool_decide_eq_false. tauto. }
    intros [Hall E]%guard_err_Ok. rewrite !orb_false_iff in Hall. unfold str_empty in Hall. rewrite !bool_decide_eq_false in Hall.
    destruct Hall as ((((Hi & Hd) & Hs) & Hu) & Hk).
    apply rbind_Ok in E as (key & Ek & (v & Ev & [= <-])%rbind_Ok). exists key, v. simpl.
    rewrite Hkey in Ek. destruct (ParseKEK _) as [k|]; [|done]. injection Ek as ->. by split_and!.
  - assert (i = "" ∧ d = "" ∧ s = "" ∧ u = "") as (-> & -> & -> & ->).
    { repeat split; apply dec_stable; tauto. }
    unfold str_empty. rewrite (bool_decide_true ("" = "")) by done. cbn [negb orb].
    case_bool_decide as Hk; [intros [= <-]; split; [done|by left]|].
    intros (key & Ek & [= <-])%rbind_Ok. split; [done|]. right. simpl. split; [done|].
    rewrite Hkey in Ek. destruct (ParseKEK _) as [k|]; [|done]. by injection Ek as ->.
Qed.

(** C25: the portal is locked as the environment says.  A portal that comes up with any
    of the four login variables set has native login: all four are set, the session
    key parsed, its sessions are sealed with that key and open to the configured admin
    group, and only the four public paths get past the gate.  With none of them set it
    has no login, and either both Basic credentials are set or neither is; its tokens
    are bound to sessions under another cookie name, sealed with the session key when
    one is set, which then parsed, and else with 32 random bytes. *)
Theorem portal_locked_as_configured `{!PortalLibLaws} {RS HS} random src roles hosts l (ps : PServer RS HS) :
  portal_of random src roles hosts = Ok (l, ps) →
  (HasOIDC ps = true ↔ login_requested) ∧
  (login_requested →
    getenv "CERTD_PORTAL_OIDC_ISSUER" ≠ "" ∧ getenv "CERTD_PORTAL_OIDC_CLIENT_ID" ≠ "" ∧
    getenv "CERTD_PORTAL_OIDC_CLIENT_SECRET" ≠ "" ∧ getenv "CERTD_PORTAL_OIDC_REDIRECT_URL" ≠ "" ∧
    ∃ key, ParseKEK (getenv "CERTD_PORTAL_SESSION_KEY") = Ok key ∧
      session_New (mkSessionConfig (env_or getenv "CERTD_PORTAL_ADMIN_GROUP" "ca-portal-admin") key "certd_portal" "/portal"
        ["/healthz"; "/auth/callback"; "/auth/signed-out"; "/static/app.css"]) = Ok (sess l)) ∧
  (¬ login_requested →
    (getenv "CERTD_PORTAL_USERNAME" = "" ↔ getenv "CERTD_PORTAL_PASSWORD" = "") ∧
    Username (basic l) = getenv "CERTD_PORTAL_USERNAME" ∧ Password (basic l) = getenv "CERTD_PORTAL_PASSWORD" ∧
    ∃ key, session_New (mkSessionConfig "" key "certd_csrf" "/portal" []) = Ok (sess l) ∧
      if decide (getenv "CERTD_PORTAL_SESSION_KEY" = "") then random = Ok key
      else ParseKEK (getenv "CERTD_PORTAL_SESSION_KEY") = Ok key).
Proof.
  unfold portal_of, New. rewrite pages_parsed. intros E. apply rbind_Ok in E as (ba & Eba & (tr & _ & (c & Ec%rwrap_Ok%loadPortalOIDC_spec & (l' & El%rwrap_Ok & [= -> <-])%rbind_Ok)%rbind_Ok)%rbind_Ok).
  assert (Username ba = getenv "CERTD_PORTAL_USERNAME" ∧ Password ba = getenv "CERTD_PORTAL_PASSWORD" ∧ Validate ba = Ok tt)
    as (Huser & Hpass & Hval).
  { unfold loadPortalBasicAuth in Eba. destruct (Validate _) as [[]|] eqn:Ev; [|done]. injection Eba as <-. done. }
  apply rbind_Ok in El as (u & _ & El). simpl. destruct (decide login_requested) as [Hreq|Hreq].
  - destruct Ec as (key & v & Hi & Hd & Hs & Hu & Hi0 & Hd0 & Hs0 & Hu0 & Hg & Hkey & Hk & _ & Hv).
    assert (key ≠ "") as Hk0 by (intros ->; by apply kek_length in Hkey).
    assert (enabled c = true) as Hen.
    { unfold enabled, str_empty. rewrite Hv, Hk, !bool_decide_false by done. done. }
    rewrite Hen in El. apply rbind_Ok in El as (s & Es%rwrap_Ok & (a & _ & [= <-])%rbind_Ok).
    split; [done|]. split; [|done]. intros _. rewrite <- Hi, <- Hd, <- Hs, <- Hu.
    repeat (split; [done|]). exists key. split; [done|]. unfold login_session in Es. by rewrite Hg, Hk in Es.
  - destruct Ec as [Hi Hk]. assert (enabled c = false) as Hen by (unfold enabled; by rewrite Hi).
    rewrite Hen in El. apply rbind_Ok in El as (key & Ekey & (s & Es%rwrap_Ok & [= <-])%rbind_Ok).
    split; [done|]. split; [done|]. intros _. rewrite <- Huser, <- Hpass.
    split; [by apply validate_pair|]. split; [done|]. split; [done|]. exists key. split; [done|].
    destruct Hk as [[Hv Hk]|[Hv Hk]]; [rewrite Hk in Ekey|].
    + rewrite decide_True by done. by apply rwrap_Ok in Ekey.
    + pose proof (kek_length _ _ Hk) as Hlen. unfold str_empty in Ekey. case_bool_decide as He; [by rewrite He in Hlen|].
      injection Ekey as <-. by rewrite decide_False.
Qed.
End Environment.
End New.

(** ** Instances: a portal with login, and one behind a password *)
Module PortalBootExamples.

#[local] Instance toy_boot : BootLib := {|
  env_or g k d := if str_empty (g k) then d else g k;
  env_first _ _ := "";
  json_roles _ := Ok []; json_principals _ := Ok [];
  NewLazyHTTPVerifier _ _ := Ok (λ _, Err (ErrOpaque "token"));
  ParseKEK s := if bool_decide (String.length s = 32%nat) then Ok s else Err (ErrNew "want 32 bytes");
  Verify _ _ _ := Ok tt |}.

#[local] Instance toy_portal : PortalLib := {|
  Manager := SessionConfig; Authenticator := string; Cookie := string;
  session_New c := Ok c; SiblingCookie c n := CookiePrefix c +:+ "_" +:+ n;
  NewAuthenticator i _ _ _ _ cookie _ := Ok (i +:+ " " +:+ cookie);
  Validate c := if bool_decide (Username c = "" ↔ Password c = "") then Ok tt
                else Err (ErrNew "both or neither") |}.

#[local] Instance toy_portal_laws : PortalLibLaws.
Proof.
  split.
  - intros c. unfold Validate, toy_portal. by case_bool_decide.
  - intros s k. unfold ParseKEK, toy_boot. case_bool_decide; [|done]. by intros [= <-].
Defined.

Definition with_login (k : string) : string :=
  if bool_decide (k = "CERTD_PORTAL_SESSION_KEY") then "0123456789abcdef0123456789abcdef" else
  if String.prefix "CERTD_PORTAL_OIDC" k then "https://id/" +:+ k else "".

Definition come_up (getenv : string → string) :=
  portal_of (RS:=unit) (HS:=unit) getenv (Ok "random") Stream NoRoles None.

Lemma portal_locked_as_configured_witness :
  match come_up with_login with
  | Ok (l, ps) => HasOIDC ps = true ∧ RequiredGroup (sess l) = "ca-portal-admin" ∧ HasAudit ps = true
  | Err _ => False
  end.
Proof.
  destruct (come_up with_login) as [[l ps]|e] eqn:E; [|by vm_compute in E].
  destruct (portal_locked_as_configured with_login (Ok "random") Stream NoRoles None l ps E) as (Ho & Hl & _).
  assert (login_requested with_login) as Hreq by (left; by vm_compute).
  destruct (Hl Hreq) as (_ & _ & _ & _ & key & _ & Hs). split; [by apply Ho|].
  split; [injection Hs as <-; vm_compute; reflexivity|]. vm_compute in E. injection E as <- <-. reflexivity.
Defined.

(** One credential alone, or a login half configured: no portal. *)
Example refused :
  come_up (λ k, if bool_decide (k = "CERTD_PORTAL_USERNAME") then "admin" else "") =
    Err (ErrWrap "CERTD_PORTAL_USERNAME and CERTD_PORTAL_PASSWORD: " (ErrNew "both or neither") "") ∧
  is_ok (come_up (λ k, if bool_decide (k = "CERTD_PORTAL_OIDC_ISSUER") then "https://id" else "")) = false.
Proof. split; vm_compute; reflexivity. Qed.
End PortalBootExamples.
